(* ===== verification/_CoqProject ===== *)
-Q . S2P
Prelude.v
ByteOrder.v
Protocol.v
Frames.v
StreamFrame.v
AckFrame.v
ClosePathFrame.v
PublicHeader.v
Unpacker.v
LinkedList.v
FrameSorter.v
ReceivedPackets.v
FlowControl.v
Stream.v
Receiving.v
StreamScheduler.v
StreamsMap.v
PathScheduler.v
StreamFramer.v
Congestion.v
SentPackets.v
Cubic.v
Handshake.v
ConnectionParameters.v
Packer.v
Olia.v
Crypto.v
CertCompression.v
Transmission.v
Paths.v
Session.v
SendLoop.v
Reliability.v
Delivery.v
Faults.v
CryptoServer.v
Cookies.v
Dispatch.v
CryptoClient.v
Authentication.v
SessionKeys.v
Agreement.v
CertSelection.v
TLS.v
