(* ===== verification/Prelude.v ===== *)
(** * A model of the SA-ECF multipath QUIC implementation

    This library models the Go implementation of multipath QUIC with a stream-aware path scheduler
    under src/src/sa-ecf and proves that it does what it means to.  File names below are relative to
    that directory.

    ** The program and its parts

    A session reads packets from several paths.  A packet is a public header and a sequence of
    frames; the unpacker decrypts it and parses the frames.  The received packet handler of the path
    records the packet number and decides when an ACK is due.  STREAM frames go to their stream,
    found or opened by the streams map; the stream puts them in order with its frame sorter and hands
    the bytes to the application, and the flow controllers account for them and raise the windows.
    In the other direction the application writes to a stream, the stream scheduler picks the stream
    whose turn it is, the stream framer cuts frames out of its data within the flow control windows
    and the space of a packet, and the path scheduler picks the path the packet takes.  The sent
    packet handler of the path keeps the packet until it is acknowledged, declares it lost and hands
    it back for retransmission, and drives the congestion controller and the RTT statistics.  The
    session's event loop drives all of it.  Its keys come from the handshake, a crypto setup of its
    own for clients and for servers, which runs beside the session.  A server finds the session of
    each packet or makes a new one; a client checks the packets it gets and negotiates the version.

    ** The files

    - Prelude: machine integers, Go's results (value, error or panic) and readers of bytes, with
      their monads, notations, tactics and the lemmas on lists and integers the components share.
    - ByteOrder: internal/utils, both byte orders as instances of one record of operations with the
      class of laws the frames are proved against, and the 16-bit float of ACK delays.
    - Protocol: internal/protocol, packet number encoding and inference, versions, constants.
    - Frames, StreamFrame, AckFrame, ClosePathFrame: internal/wire, one record, writer, parser and
      announced length for each of the twelve frame types.
    - PublicHeader: internal/wire/public_header.go and version_negotiation.go.
    - Unpacker: packet_unpacker.go, the loop over the frames of a packet; the AEAD is a parameter.
    - LinkedList: internal/utils/byteinterval_linkedlist.go, the doubly linked rings that the gaps of a
      stream, the ranges of received packets and the sent packets are kept in.
    - FrameSorter: stream_frame_sorter.go, reassembly with a list of gaps.
    - ReceivedPackets: ackhandler/received_packet_*.go, the history of packet ranges, ACKs, alarm.
    - FlowControl: internal/flowcontrol, the windows of streams and of the connection.
    - Stream: stream.go, reading, writing, resets and deadlines of one stream.
    - Receiving: the streams of a session together with its flow control manager, over all runs.
    - StreamScheduler: stream_scheduler.go, weighted round robin over the tree of stream
      dependencies, on a heap of nodes with parent and child pointers.
    - StreamsMap: streams_map.go, opening, accepting, removing and visiting streams.
    - PathScheduler: path_scheduler.go, the choice of the path: round robin, lowest latency, earliest
      completion first and its stream-aware version, which calls the stream scheduler.
    - StreamFramer: stream_framer.go and streamScheduler.send, on the streams map, the flow control
      manager and the stream scheduler.
    - Congestion: congestion/rtt_stats.go, hybrid_slow_start.go, prr_sender.go, and the interface of
      a congestion controller as a class with its laws.
    - SentPackets: ackhandler/sent_packet_handler.go and its helpers, written and proved against that
      class.
    - Cubic: congestion/cubic.go and cubic_sender.go, an instance of the class.
    - Olia: congestion/olia.go and olia_sender.go, the controller that couples the windows of the
      paths through a map of all their senders, an instance of the class.
    - Handshake: internal/handshake/handshake_message.go and tags.go, and the public reset of
      internal/wire/public_reset.go, which is such a message.
    - ConnectionParameters: internal/handshake/connection_parameters_manager.go.
    - Packer: packet_packer.go and packet_number_generator.go, with what the packer uses of a path.
    - Transmission: lemmas on the packer alone, where data and acknowledgements go when it packs.
    - Paths: path.go, path_manager.go and the state of session.go.
    - Session: the receiving half of session.go, from a datagram to the frames' handlers.
    - SendLoop: the sending half of path_scheduler.go and the event loop of session.go, whose turns
      are the relation [session_step].
    - Reliability, Delivery: the invariant that no sent data is lost and its proof over all runs.
    - Faults: runs of small sessions that show behaviour which cannot be meant.
    - Crypto: internal/crypto, the null AEADs, AES-GCM, key derivation and key exchange.
    - CertCompression: internal/crypto/cert_*.go, compressed certificate chains, the class of
      certificate managers and the manager of the code as its instance.
    - CryptoServer, CryptoClient: internal/handshake/crypto_setup_server.go, server_config.go,
      crypto_setup_client.go and server_config_client.go.
    - Cookies: internal/handshake/cookie_generator.go, ephermal_cache.go and
      internal/crypto/source_address_token.go.
    - Dispatch: server.go, client.go and their configuration; sessions are behind the interface
      packetHandler, a class with the sessions of session.go as its instance.
    - Authentication: theorems over all runs of the two crypto setups.
    - SessionKeys: what the handshake does to a session is a step of the session.
    - Agreement: the two crypto setups against each other, from the first hello to the last key.
    - CertSelection: internal/crypto/cert_chain.go, which certificate of its configuration a server uses.
    - TLS: internal/handshake/crypto_setup_tls.go and mint_utils.go, internal/crypto/key_derivation.go and
      aesgcm_aead.go, the setups of the version with TLS 1.3; the TLS handshake itself is a parameter.

    ** How the code is modelled

    A Go struct is a record, an interface a class or a record of operations, a method a function from
    the state to the result and the new state.  Unsigned integers are [Z] with the wrap-around
    written out ([u8] ... [u64], [+u64], [-u64]), signed ones are wrapped with [i64] where they can
    overflow.  An operation that may fail returns [Ok], [Err] with the error of the source, or
    [Panic] for an index out of range, a nil pointer, a division by zero or an explicit panic, or,
    where the state changes before the error, a pair.  Shared objects that the code aliases -- the
    nodes of the scheduler's tree, the streams -- live in maps from pointers or stream IDs.  Go maps
    are [gmap]s; where the code ranges over one, the order is an argument and the theorems hold for
    every order.  The clock is an argument, times are nanoseconds, the zero time is 0.  A wait on a
    channel returns to the caller, who calls again.  float32 arithmetic rounds to 24 significant bits
    after every operation; products with float64 constants in the flow controllers are rational.

    The session code threads one large state and a list of the packets it sent through many calls that
    may fail: it is written in the monad [action] of Paths, a function from the session to the result,
    the session and the packets.  The select of the event loop is nondeterministic: a turn is any
    case of it, with any clock, scheduler and order of the paths, followed by what the loop does after
    every case.  The setups of the handshake are written in a monad of the same shape, [proc], with
    weakest-precondition rules; a run of a client is any sequence of messages, diversification
    nonces and packets.  Congestion controllers, certificate managers and the handlers of packets
    are classes.  Ciphers, hashes, HKDF, Curve25519, zlib, X.509 and ASN.1 are other packages' code
    and are arguments; the laws that a theorem needs of them are hypotheses, and toy instances show
    that the laws can hold.

    ** What the theorems show

    - The wire format: what a writer writes its parser reads back, for every frame, the public header
      and whole packets; on every byte string the parsers and the unpacker return a value or an error
      and never panic, and what they accept is well formed; announced lengths are the written ones.
    - Linked lists: however they are used, the rings of pointers behave as the lists that the other
      files take them for.
    - Receiving: the sorter refines the byte string of the stream, whatever the order, overlap and
      duplication of the frames -- as long as a frame without data is only sent for the end -- and a
      stream reads exactly that byte string in order; ACK frames
      acknowledge exactly the packets received, and in time.
    - Flow control: whatever frames arrive, the streams do not let an application read more than was
      received, so that the accounts of streams and connection are right; windows open as data is read,
      and nothing is sent beyond them.
    - Sending: a stream's data is cut into frames in order and without loss, the frames fit the
      packet, splitting a retransmitted frame keeps its bytes; the stream scheduler serves a stream
      whenever one can be served, and with one level of streams it is a weighted round robin; every
      path selection returns, the lowest-latency and ECF selections return the path they promise.
    - Reliability: no packet with data is forgotten by the sent packet handler, the bytes in flight
      are exactly those of the outstanding packets, the scan for acknowledged packets equals its
      specification, and the loss alarm is set whenever data is outstanding and queues exactly the
      packets that are due -- for every controller.
    - Packets: a packed packet fits, and the other side's header parser, packet number inference and
      unpacker recover the frames the packer reports; the packer takes its frames from the ACK and
      STOP_WAITING of the path, the control frames, and the stream framer.
    - Handshake: messages are read back, any other bytes are refused without a panic; two sides that
      exchange their hello messages agree on windows, stream limits and idle timeouts.
    - Congestion: the smoothed RTT stays between the samples, the Cubic window between 2 packets and
      the maximum, and a loss event lowers it once, by 15 percent; the windows of OLIA stay between
      one packet and the maximum, and the coupling terms of the paths are those of the algorithm, and cancel.
    - Sessions: over every run of a session, each byte of a stream that left in a forward-secure
      packet is acknowledged, outstanding on some path, or queued to be sent again; the sending loop
      returns, with a bound on its rounds.
    - The handshake: an honest client and an honest server finish it within the three hellos that a
      client may send, with matching keys and parameters; a client installs keys only for a server configuration whose proof it verified
      against the certificates it holds; neither side takes a packet with less protection than one
      before; what the handshake changes are steps of the session, so the theorem on data holds with
      its keys.  Keys derived by the two sides agree, compressed chains are read back when the reads of
      the decompressor are not short, and a token is accepted exactly when it was made for the address and
      has not expired.  With TLS 1.3 the two setups end with the same keys and read each other's packets.
    - Servers and clients: the version negotiation leads to the version it should, at most once; a
      packet for one connection leaves the sessions of the others alone.
    - The error theorems, those of Faults, and some in FrameSorter, CertCompression, CertSelection, TLS and Authentication are
      deviations of the code from what it means to do.

    ** Fuel

    Recursion that is not structural takes fuel.  Reading a stream and the version list use the
    length of what they consume.  The walks along the pointers of the stream scheduler's tree use the
    number of its nodes: on a well-formed tree that is enough, on a cyclic one running out stands for
    the endless recursion of the code, a panic.  The loop of the stream-aware path selection uses the
    number of open streams, which each round of it counts up to, as the termination theorem shows.
    The Reno loop of Cubic uses the ACK count and the number of connections; its
    lemma shows that it leaves by its own test.  The loop over the packets to send again uses one more
    than the number of them; the loop of the sending rounds takes any fuel, and its termination theorem
    says how much is enough for it to return.  The loop of a server over the crypto stream uses one
    more than the bytes of the stream, and more makes no difference.  The parsers of key lists and of
    compressed chains use the length of their input, the loop that fills the chain the number of its
    entries.

    ** What is not modelled

    Goroutines, channels, timers and sockets as such: their effects are steps of the session or
    events of a run.  That leaves out pconn_manager.go, which is sockets and interfaces of the machine,
    the dialing and listening functions of client.go and server.go, and the blocking calls
    of the streams map.  The TLS 1.3 handshake and the parsing of certificates, which are other packages' code.  HTTP/2 over QUIC, which is
    goroutines around net/http; the logging of frames.  Frames without data elsewhere than at the end of a stream are outside the hypotheses
    of the sorter's refinement theorem; a theorem of FrameSorter shows what they do.  src/src/default_mpquic is a copy of the same code without
    the stream scheduler; src/caddy and the proxy modules are forks of other programs, which use the library. *)

(** * Prelude

    Machine integers, results, readers, and what the components share. *)

From stdpp Require Export base list gmap strings fin_maps.
From stdpp Require Import tactics.

#[export] Set Warnings "-clear-no-such-hyp".
#[global] Open Scope Z_scope.

(** ** Machine integers

    Go's unsigned integers are kept as [Z] with the wrap-around written out. *)

Definition u8 (z : Z) : Z := z mod 2^8.
Definition u16 (z : Z) : Z := z mod 2^16.
Definition u32 (z : Z) : Z := z mod 2^32.
Definition u64 (z : Z) : Z := z mod 2^64.

(** int64, in two's complement. *)
Definition i64 (z : Z) : Z := (z + 2^63) mod 2^64 - 2^63.

Declare Scope go_scope.
Delimit Scope go_scope with go.
Notation "x +u64 y" := (u64 (x + y)) (at level 50, left associativity) : go_scope.
Notation "x -u64 y" := (u64 (x - y)) (at level 50, left associativity) : go_scope.
Notation "x *u64 y" := (u64 (x * y)) (at level 40, left associativity) : go_scope.
Notation "x <<u64 y" := (u64 (Z.shiftl x y)) (at level 60) : go_scope.
#[global] Open Scope go_scope.

Definition is_u8 (z : Z) : Prop := 0 <= z < 2^8.
Definition is_u16 (z : Z) : Prop := 0 <= z < 2^16.
Definition is_u32 (z : Z) : Prop := 0 <= z < 2^32.
Definition is_u64 (z : Z) : Prop := 0 <= z < 2^64.

(** ** Results

    A Go call returns a value, returns an error, or panics. *)

Inductive error : Type :=
| EOF
| UnexpectedEOF
| ErrorString (msg : string)
| ErrorCode (code : Z)
| QuicError (code : Z) (msg : string).

#[export] Instance error_eq_dec : EqDecision error.
Proof. solve_decision. Defined.

Inductive result (A : Type) : Type :=
| Ok (a : A)
| Err (e : error)
| Panic (why : string).
Arguments Ok {A} a.
Arguments Err {A} e.
Arguments Panic {A} why.

#[export] Instance result_ret : MRet result := λ A a, Ok a.
#[export] Instance result_bind : MBind result := λ A B f m,
  match m with
  | Ok a => f a
  | Err e => Err e
  | Panic w => Panic w
  end.

Definition is_ok {A} (r : result A) : bool :=
  match r with Ok _ => true | _ => false end.

(** ** Readers: a [bytes.Reader] is the list of the bytes not read yet. *)

Definition reader (A : Type) : Type := list Z → result (A * list Z).

#[export] Instance reader_ret : MRet reader := λ A a s, Ok (a, s).
#[export] Instance reader_bind : MBind reader := λ A B f m s,
  match m s with
  | Ok (a, s') => f a s'
  | Err e => Err e
  | Panic w => Panic w
  end.

Definition fail {A} (e : error) : reader A := λ _, Err e.
Definition crash {A} (w : string) : reader A := λ _, Panic w.

(** [bytes.Reader.ReadByte] *)
Definition ReadByte : reader Z := λ s,
  match s with
  | [] => Err EOF
  | b :: s' => Ok (b, s')
  end.

(** [bytes.Reader.Len] *)
Definition Len : reader Z := λ s, Ok (Z.of_nat (length s), s).

(** [io.ReadFull] into a slice of [n] bytes *)
Definition ReadFull (n : nat) : reader (list Z) := λ s,
  if decide (n <= length s)%nat then Ok (take n s, drop n s)
  else match s with [] => Err EOF | _ => Err UnexpectedEOF end.

Definition bytes_ok (l : list Z) : Prop := Forall is_u8 l.

(** ** Tactics and hints *)

Create HintDb quic discriminated.
Create HintDb wire.

(** Case analysis on every boolean test, option and comparison of the goal. *)
Ltac case_ifs :=
  repeat match goal with
  | |- context [if ?b then _ else _] => destruct b eqn:?
  end.

(** Turn boolean comparisons on [Z] into propositions. *)
Ltac zbool :=
  repeat match goal with
  | H : (_ <? _) = true |- _ => apply Z.ltb_lt in H
  | H : (_ <? _) = false |- _ => apply Z.ltb_ge in H
  | H : (_ <=? _) = true |- _ => apply Z.leb_le in H
  | H : (_ <=? _) = false |- _ => apply Z.leb_gt in H
  | H : (_ =? _) = true |- _ => apply Z.eqb_eq in H
  | H : (_ =? _) = false |- _ => apply Z.eqb_neq in H
  | H : (_ >? _) = _ |- _ => rewrite Z.gtb_ltb in H
  | H : (_ >=? _) = _ |- _ => rewrite Z.geb_leb in H
  | H : (_ && _)%bool = true |- _ => apply andb_prop in H; destruct H
  | H : (_ || _)%bool = false |- _ => apply orb_false_elim in H; destruct H
  | H : negb _ = true |- _ => apply negb_true_iff in H
  | H : negb _ = false |- _ => apply negb_false_iff in H
  | H : bool_decide _ = true |- _ => apply bool_decide_eq_true in H
  | H : bool_decide _ = false |- _ => apply bool_decide_eq_false in H
  end.

(** Side conditions of rewriting. *)
Ltac side := solve [done | lia | split; done | split; simpl; lia | auto].

(** Linear arithmetic with the machine wraps unfolded. *)
Ltac zwrap :=
  unfold u8, u16, u32, u64, is_u8, is_u16, is_u32, is_u64 in *;
  Z.div_mod_to_equations; lia.

(** ** Integer lemmas *)

Lemma u8_id z : is_u8 z → u8 z = z.
Proof. apply Z.mod_small. Qed.
Lemma u16_id z : is_u16 z → u16 z = z.
Proof. apply Z.mod_small. Qed.
Lemma u32_id z : is_u32 z → u32 z = z.
Proof. apply Z.mod_small. Qed.
Lemma u64_id z : is_u64 z → u64 z = z.
Proof. apply Z.mod_small. Qed.

Lemma u8_range z : is_u8 (u8 z).
Proof. apply Z.mod_pos_bound. lia. Qed.
Lemma u16_range z : is_u16 (u16 z).
Proof. apply Z.mod_pos_bound. lia. Qed.
Lemma u32_range z : is_u32 (u32 z).
Proof. apply Z.mod_pos_bound. lia. Qed.
Lemma u64_range z : is_u64 (u64 z).
Proof. apply Z.mod_pos_bound. lia. Qed.

Lemma u64_add_l a b : u64 (u64 a + b) = u64 (a + b).
Proof. apply Zplus_mod_idemp_l. Qed.

Lemma u64_sub_l a b : u64 (u64 a - b) = u64 (a - b).
Proof. apply Zminus_mod_idemp_l. Qed.

#[export] Hint Resolve u8_range u16_range u32_range u64_range : quic.

(** Disjoint bit ranges: exclusive or is addition. *)
Lemma land_shiftl_low a b k : 0 <= k → 0 <= a < 2^k → Z.land a (Z.shiftl b k) = 0.
Proof.
  intros Hk Ha. apply Z.bits_inj'. intros n Hn.
  rewrite Z.land_spec, Z.bits_0. destruct (Z_lt_le_dec n k).
  - rewrite (Z.shiftl_spec_low b k n) by done. apply andb_false_r.
  - replace a with (a mod 2^k) by (apply Z.mod_small; lia).
    by rewrite Z.mod_pow2_bits_high by lia.
Qed.

Lemma lxor_shiftl_add a b k :
  0 <= k → 0 <= a < 2^k → Z.lxor a (Z.shiftl b k) = a + b * 2^k.
Proof.
  intros Hk Ha. rewrite <- Z.add_nocarry_lxor, Z.shiftl_mul_pow2 by auto using land_shiftl_low.
  done.
Qed.

Lemma lor_shiftl_add a b k :
  0 <= k → 0 <= a < 2^k → Z.lor a (Z.shiftl b k) = a + b * 2^k.
Proof.
  intros Hk Ha. rewrite <- Z.lxor_lor, lxor_shiftl_add by auto using land_shiftl_low.
  done.
Qed.

Lemma shiftl_small b k m : 0 <= k <= m → 0 <= b < 2^(m - k) → 0 <= Z.shiftl b k < 2^m.
Proof.
  intros Hk Hb. rewrite Z.shiftl_mul_pow2 by lia.
  replace (2^m) with (2^(m-k) * 2^k) by (rewrite <- Z.pow_add_r by lia; f_equal; lia).
  nia.
Qed.

(** ** Byte lists *)

Lemma bytes_ok_nil : bytes_ok [].
Proof. constructor. Qed.

Lemma bytes_ok_cons b l : is_u8 b → bytes_ok l → bytes_ok (b :: l).
Proof. by constructor. Qed.

Lemma bytes_ok_app l1 l2 : bytes_ok l1 → bytes_ok l2 → bytes_ok (l1 ++ l2).
Proof. intros. by apply Forall_app. Qed.

#[export] Hint Resolve bytes_ok_nil bytes_ok_cons bytes_ok_app : quic.

(** Concrete byte lists. *)
Ltac bytes_tac :=
  repeat (apply bytes_ok_cons; [unfold is_u8; lia|]); apply bytes_ok_nil.

(** ** Reader lemmas *)

(** A bind that succeeds has a first part that does. *)
Lemma result_bind_inv {A B} (m : result A) (f : A → result B) b :
  m ≫= f = Ok b → ∃ a, m = Ok a ∧ f a = Ok b.
Proof. destruct m; cbn; intros; eauto; discriminate. Qed.

(** Take apart every bind of a computation that succeeded. *)
Ltac res_inv :=
  repeat match goal with
  | H : mbind _ _ = Ok _ |- _ =>
      apply result_bind_inv in H as (? & ? & ?)
  end.


Lemma rbind_ok {A B} (m : reader A) (f : A → reader B) s a s' :
  m s = Ok (a, s') → (m ≫= f) s = f a s'.
Proof. intros H. unfold mbind, reader_bind. by rewrite H. Qed.

Lemma rbind_inv {A B} (m : reader A) (f : A → reader B) s b s'' :
  (m ≫= f) s = Ok (b, s'') → ∃ a s', m s = Ok (a, s') ∧ f a s' = Ok (b, s'').
Proof.
  unfold mbind, reader_bind. destruct (m s) as [[a s']| |] eqn:E; naive_solver.
Qed.

Lemma ReadByte_cons b s : ReadByte (b :: s) = Ok (b, s).
Proof. done. Qed.

Lemma ReadByte_inv s b s' : ReadByte s = Ok (b, s') → s = b :: s'.
Proof. destruct s; naive_solver. Qed.

Lemma ReadFull_app n l s : length l = n → ReadFull n (l ++ s) = Ok (l, s).
Proof.
  intros <-. unfold ReadFull. rewrite decide_True; [|rewrite length_app; lia].
  by rewrite take_app_length, drop_app_length.
Qed.

Lemma ReadFull_inv n s l s' :
  ReadFull n s = Ok (l, s') → s = l ++ s' ∧ length l = n.
Proof.
  unfold ReadFull. case_decide; [|by destruct s].
  intros [= <- <-]. rewrite take_drop, length_take. split; [done|lia].
Qed.

(** Run one read of a known byte. *)
Ltac rstep := erewrite rbind_ok by (apply ReadByte_cons).

(** Invert the successful run of a reader, one bind at a time. *)
Ltac rinv :=
  repeat match goal with
  | H : (_ ≫= _) _ = Ok _ |- _ =>
      let E := fresh "E" in
      apply rbind_inv in H as (? & ? & E & H)
  | H : mret _ _ = Ok _ |- _ => cbv [mret reader_ret] in H; simplify_eq
  | H : fail _ _ = Ok _ |- _ => discriminate H
  | H : crash _ _ = Ok _ |- _ => discriminate H
  | H : ReadByte _ = Ok _ |- _ => apply ReadByte_inv in H; subst
  | H : ReadFull _ _ = Ok _ |- _ => apply ReadFull_inv in H as [-> ?]
  | H : (if ?b then _ else _) _ = Ok _ |- _ => destruct b eqn:?
  end.

(** ** Safe readers: on any bytes they do not panic, and leave a suffix of their input. *)

Definition safe {A} (m : reader A) : Prop :=
  ∀ s, bytes_ok s →
    match m s with
    | Ok (_, s') => ∃ pre, s = pre ++ s'
    | Err _ => True
    | Panic _ => False
    end.

Lemma safe_suffix {A} (m : reader A) s a s' :
  safe m → bytes_ok s → m s = Ok (a, s') → (∃ pre, s = pre ++ s') ∧ bytes_ok s'.
Proof.
  intros Hm Hs E. specialize (Hm s Hs). rewrite E in Hm. destruct Hm as [pre ->].
  apply Forall_app in Hs as [_ ?]. eauto.
Qed.

Lemma safe_ret {A} (a : A) : safe (mret a).
Proof. intros s Hs. by exists []. Qed.

Lemma safe_fail {A} e : safe (fail e : reader A).
Proof. by intros s Hs. Qed.

Lemma safe_bind {A B} (m : reader A) (f : A → reader B) :
  safe m → (∀ a, safe (f a)) → safe (m ≫= f).
Proof.
  intros Hm Hf s Hs. unfold mbind, reader_bind. pose proof (Hm s Hs) as H.
  destruct (m s) as [[a s']| |]; [|done..]. destruct H as [pre ->].
  apply Forall_app in Hs as [_ Hs]. specialize (Hf a s' Hs).
  destruct (f a s') as [[b s'']| |]; [|done..]. destruct Hf as [pre' ->].
  exists (pre ++ pre'). by rewrite app_assoc.
Qed.

Lemma safe_if {A} (b : bool) (m1 m2 : reader A) :
  safe m1 → safe m2 → safe (if b then m1 else m2).
Proof. by destruct b. Qed.

Lemma safe_ReadByte : safe ReadByte.
Proof. intros [|b s] Hs; [done|]. by exists [b]. Qed.

Lemma safe_Len : safe Len.
Proof. intros s Hs. by exists []. Qed.

Lemma safe_ReadFull n : safe (ReadFull n).
Proof.
  intros s Hs. unfold ReadFull. case_decide; [|by destruct s].
  exists (take n s). by rewrite take_drop.
Qed.

(** A safe reader with a postcondition on its result. *)
Definition ensures {A} (m : reader A) (P : A → Prop) : Prop :=
  ∀ s, bytes_ok s →
    match m s with
    | Ok (a, s') => (∃ pre, s = pre ++ s') ∧ P a
    | Err _ => True
    | Panic _ => False
    end.

Lemma ensures_safe {A} (m : reader A) P : ensures m P → safe m.
Proof. intros Hm s Hs. specialize (Hm s Hs). destruct (m s) as [[]| |]; naive_solver. Qed.

Lemma safe_ensures {A} (m : reader A) : safe m → ensures m (λ _, True).
Proof. intros Hm s Hs. specialize (Hm s Hs). destruct (m s) as [[]| |]; naive_solver. Qed.

Lemma ensures_result {A} (m : reader A) P s a s' :
  ensures m P → bytes_ok s → m s = Ok (a, s') → P a.
Proof. intros Hm Hs E. specialize (Hm s Hs). rewrite E in Hm. tauto. Qed.

Lemma ensures_weaken {A} (m : reader A) (P Q : A → Prop) :
  ensures m P → (∀ a, P a → Q a) → ensures m Q.
Proof.
  intros Hm HPQ s Hs. specialize (Hm s Hs).
  destruct (m s) as [[]| |]; [|done..]. destruct Hm. auto.
Qed.

Lemma ensures_ret {A} (a : A) (P : A → Prop) : P a → ensures (mret a) P.
Proof. intros HP s Hs. split; [by exists []|done]. Qed.

Lemma ensures_fail {A} e (P : A → Prop) : ensures (fail e) P.
Proof. by intros s Hs. Qed.

Lemma ensures_bind {A B} (m : reader A) (f : A → reader B) (P : A → Prop) (Q : B → Prop) :
  ensures m P → (∀ a, P a → ensures (f a) Q) → ensures (m ≫= f) Q.
Proof.
  intros Hm Hf s Hs. unfold mbind, reader_bind. pose proof (Hm s Hs) as H.
  destruct (m s) as [[a s']| |]; [|done..]. destruct H as [[pre ->] HP].
  apply Forall_app in Hs as [_ Hs]. specialize (Hf a HP s' Hs).
  destruct (f a s') as [[b s'']| |]; [|done..]. destruct Hf as [[pre' ->] HQ].
  split; [|done]. exists (pre ++ pre'). by rewrite app_assoc.
Qed.

Lemma ensures_ReadByte : ensures ReadByte is_u8.
Proof.
  intros [|b s] Hs; [done|]. split; [by exists [b]|by inversion Hs].
Qed.

(** A parser of frames: it also consumes at least the type byte. *)
Definition parses {A} (m : reader A) (P : A → Prop) : Prop :=
  ∀ s, bytes_ok s →
    match m s with
    | Ok (a, s') => (∃ b pre, s = b :: pre ++ s') ∧ P a
    | Err _ => True
    | Panic _ => False
    end.

Lemma parses_ensures {A} (m : reader A) P : parses m P → ensures m P.
Proof.
  intros Hm s Hs. specialize (Hm s Hs). destruct (m s) as [[]| |]; [|done..].
  destruct Hm as [(b & pre & ->) ?]. split; [by exists (b :: pre)|done].
Qed.

Lemma parses_bind {A} (f : Z → reader A) (P : A → Prop) :
  (∀ b, is_u8 b → ensures (f b) P) → parses (ReadByte ≫= f) P.
Proof.
  intros Hf [|b s] Hs; [done|]. inversion_clear Hs as [|? ? Hb Hs'].
  unfold mbind, reader_bind. cbn [ReadByte]. specialize (Hf b Hb s Hs').
  destruct (f b s) as [[a s']| |]; [|done..]. destruct Hf as [[pre ->] ?].
  split; [by exists b, pre|done].
Qed.

Lemma parses_safe {A} (f : Z → reader A) :
  (∀ b, safe (f b)) → parses (ReadByte ≫= f) (λ _, True).
Proof. intros Hf. apply parses_bind. intros b _. apply safe_ensures, Hf. Qed.

Lemma parses_fail {A} e (P : A → Prop) : parses (fail e) P.
Proof. by intros s Hs. Qed.

Lemma parses_weaken {A} (m : reader A) (P Q : A → Prop) :
  parses m P → (∀ a, P a → Q a) → parses m Q.
Proof.
  intros Hm HPQ s Hs. specialize (Hm s Hs).
  destruct (m s) as [[]| |]; [|done..]. destruct Hm. auto.
Qed.

#[export] Hint Resolve safe_ret safe_fail safe_ReadByte safe_Len safe_ReadFull : quic.

(** Decompose the safety of a reader along its structure. *)
Ltac safe_tac :=
  repeat first
    [ solve [auto with quic]
    | apply safe_bind; [|intros ?]
    | apply safe_if
    | match goal with |- safe (match ?x with _ => _ end) => destruct x end ].
