(* ===== verification/ByteOrder.v ===== *)
(** * Byte orders and the 16-bit float

    internal/utils/byteorder.go, byteorder_little_endian.go,
    byteorder_big_endian.go and float16.go.  The Go interface [ByteOrder] is a
    record of operations; [ByteOrderLaws] states what every implementation
    promises to the frames, and both implementations discharge it. *)

From S2P Require Import Prelude.

(** ** The interface *)

Record ByteOrder : Type := {
  ReadUintN : Z → reader Z;
  ReadUint64 : reader Z;
  ReadUint32 : reader Z;
  ReadUint16 : reader Z;
  WriteUint64 : Z → list Z;
  WriteUint56 : Z → result (list Z);
  WriteUint48 : Z → result (list Z);
  WriteUint40 : Z → result (list Z);
  WriteUint32 : Z → list Z;
  WriteUint24 : Z → result (list Z);
  WriteUint16 : Z → list Z;
  ReadUfloat16 : reader Z;
  WriteUfloat16 : Z → list Z;
}.

(** ** float16.go *)

Definition uFloat16ExponentBits : Z := 5.
Definition uFloat16MaxExponent : Z := Z.shiftl 1 uFloat16ExponentBits - 2.
Definition uFloat16MantissaBits : Z := 16 - uFloat16ExponentBits.
Definition uFloat16MantissaEffectiveBits : Z := uFloat16MantissaBits + 1.
Definition uFloat16MaxValue : Z :=
  Z.shiftl (Z.shiftl 1 uFloat16MantissaEffectiveBits - 1) uFloat16MaxExponent.

Definition readUfloat16 (ReadUint16 : reader Z) : reader Z :=
  val ← ReadUint16;
  let res := val in
  if res <? Z.shiftl 1 uFloat16MantissaEffectiveBits then mret res
  else
    let exponent := Z.shiftr val uFloat16MantissaBits in
    let exponent := u16 (exponent - 1) in
    let res := res -u64 (exponent <<u64 uFloat16MantissaBits) in
    mret (res <<u64 exponent).

(** The loop of writeUfloat16: [offset] runs over 16, 8, 4, 2, 1. *)
Definition ufloat16_step (st : Z * Z) (offset : Z) : Z * Z :=
  let '(exponent, value) := st in
  if value >=? Z.shiftl 1 (uFloat16MantissaBits + offset)
  then (u16 (exponent + offset), Z.shiftr value offset)
  else (exponent, value).

Definition ufloat16_offsets : list Z := [16; 8; 4; 2; 1].

Definition ufloat16_of (value : Z) : Z :=
  if value <? Z.shiftl 1 uFloat16MantissaEffectiveBits then u16 value
  else if value >=? uFloat16MaxValue then 65535
  else
    let '(exponent, value) := foldl ufloat16_step (0, value) ufloat16_offsets in
    u16 (u16 value + u16 (Z.shiftl exponent uFloat16MantissaBits)).

Definition writeUfloat16 (WriteUint16 : Z → list Z) (value : Z) : list Z :=
  WriteUint16 (ufloat16_of value).

(** ** byteorder_little_endian.go *)

Fixpoint littleEndian_ReadUintN_loop (n : nat) (i res : Z) : reader Z :=
  match n with
  | O => mret res
  | S n =>
      bt ← ReadByte;
      littleEndian_ReadUintN_loop n (u8 (i + 1)) (Z.lxor res (bt <<u64 u8 (i * 8)))
  end.

Definition littleEndian_ReadUintN (len : Z) : reader Z := littleEndian_ReadUintN_loop (Z.to_nat len) 0 0.

Definition littleEndian_ReadUint64 : reader Z :=
  b1 ← ReadByte; b2 ← ReadByte; b3 ← ReadByte; b4 ← ReadByte;
  b5 ← ReadByte; b6 ← ReadByte; b7 ← ReadByte; b8 ← ReadByte;
  mret (u64 (b1 + Z.shiftl b2 8 + Z.shiftl b3 16 + Z.shiftl b4 24
             + Z.shiftl b5 32 + Z.shiftl b6 40 + Z.shiftl b7 48 + Z.shiftl b8 56)).

Definition littleEndian_ReadUint32 : reader Z :=
  b1 ← ReadByte; b2 ← ReadByte; b3 ← ReadByte; b4 ← ReadByte;
  mret (u32 (b1 + Z.shiftl b2 8 + Z.shiftl b3 16 + Z.shiftl b4 24)).

Definition littleEndian_ReadUint16 : reader Z :=
  b1 ← ReadByte; b2 ← ReadByte;
  mret (u16 (b1 + Z.shiftl b2 8)).

Definition littleEndian_WriteUint64 (i : Z) : list Z :=
  [u8 i; u8 (Z.shiftr i 8); u8 (Z.shiftr i 16); u8 (Z.shiftr i 24);
   u8 (Z.shiftr i 32); u8 (Z.shiftr i 40); u8 (Z.shiftr i 48); u8 (Z.shiftr i 56)].

Definition littleEndian_WriteUint56 (i : Z) : result (list Z) :=
  if i >=? Z.shiftl 1 56 then Panic "doesn't fit into 56 bits" else
  Ok [u8 i; u8 (Z.shiftr i 8); u8 (Z.shiftr i 16); u8 (Z.shiftr i 24);
      u8 (Z.shiftr i 32); u8 (Z.shiftr i 40); u8 (Z.shiftr i 48)].

Definition littleEndian_WriteUint48 (i : Z) : result (list Z) :=
  if i >=? Z.shiftl 1 48 then Panic "doesn't fit into 48 bits" else
  Ok [u8 i; u8 (Z.shiftr i 8); u8 (Z.shiftr i 16); u8 (Z.shiftr i 24);
      u8 (Z.shiftr i 32); u8 (Z.shiftr i 40)].

Definition littleEndian_WriteUint40 (i : Z) : result (list Z) :=
  if i >=? Z.shiftl 1 40 then Panic "doesn't fit into 40 bits" else
  Ok [u8 i; u8 (Z.shiftr i 8); u8 (Z.shiftr i 16);
      u8 (Z.shiftr i 24); u8 (Z.shiftr i 32)].

Definition littleEndian_WriteUint32 (i : Z) : list Z :=
  [u8 i; u8 (Z.shiftr i 8); u8 (Z.shiftr i 16); u8 (Z.shiftr i 24)].

Definition littleEndian_WriteUint24 (i : Z) : result (list Z) :=
  if i >=? Z.shiftl 1 24 then Panic "doesn't fit into 24 bits" else
  Ok [u8 i; u8 (Z.shiftr i 8); u8 (Z.shiftr i 16)].

Definition littleEndian_WriteUint16 (i : Z) : list Z := [u8 i; u8 (Z.shiftr i 8)].

Definition littleEndian_ReadUfloat16 : reader Z := readUfloat16 littleEndian_ReadUint16.
Definition littleEndian_WriteUfloat16 : Z → list Z := writeUfloat16 littleEndian_WriteUint16.

(** ** byteorder_big_endian.go *)

Fixpoint bigEndian_ReadUintN_loop (n : nat) (len i res : Z) : reader Z :=
  match n with
  | O => mret res
  | S n =>
      bt ← ReadByte;
      bigEndian_ReadUintN_loop n len (u8 (i + 1))
        (Z.lxor res (bt <<u64 u8 (u8 (len - 1 - i) * 8)))
  end.

Definition bigEndian_ReadUintN (len : Z) : reader Z := bigEndian_ReadUintN_loop (Z.to_nat len) len 0 0.

Definition bigEndian_ReadUint64 : reader Z :=
  b8 ← ReadByte; b7 ← ReadByte; b6 ← ReadByte; b5 ← ReadByte;
  b4 ← ReadByte; b3 ← ReadByte; b2 ← ReadByte; b1 ← ReadByte;
  mret (u64 (b1 + Z.shiftl b2 8 + Z.shiftl b3 16 + Z.shiftl b4 24
             + Z.shiftl b5 32 + Z.shiftl b6 40 + Z.shiftl b7 48 + Z.shiftl b8 56)).

Definition bigEndian_ReadUint32 : reader Z :=
  b4 ← ReadByte; b3 ← ReadByte; b2 ← ReadByte; b1 ← ReadByte;
  mret (u32 (b1 + Z.shiftl b2 8 + Z.shiftl b3 16 + Z.shiftl b4 24)).

Definition bigEndian_ReadUint16 : reader Z :=
  b2 ← ReadByte; b1 ← ReadByte;
  mret (u16 (b1 + Z.shiftl b2 8)).

Definition bigEndian_WriteUint64 (i : Z) : list Z :=
  [u8 (Z.shiftr i 56); u8 (Z.shiftr i 48); u8 (Z.shiftr i 40); u8 (Z.shiftr i 32);
   u8 (Z.shiftr i 24); u8 (Z.shiftr i 16); u8 (Z.shiftr i 8); u8 i].

Definition bigEndian_WriteUint56 (i : Z) : result (list Z) :=
  if i >=? Z.shiftl 1 56 then Panic "doesn't fit into 56 bits" else
  Ok [u8 (Z.shiftr i 48); u8 (Z.shiftr i 40); u8 (Z.shiftr i 32);
      u8 (Z.shiftr i 24); u8 (Z.shiftr i 16); u8 (Z.shiftr i 8); u8 i].

Definition bigEndian_WriteUint48 (i : Z) : result (list Z) :=
  if i >=? Z.shiftl 1 48 then Panic "doesn't fit into 48 bits" else
  Ok [u8 (Z.shiftr i 40); u8 (Z.shiftr i 32);
      u8 (Z.shiftr i 24); u8 (Z.shiftr i 16); u8 (Z.shiftr i 8); u8 i].

Definition bigEndian_WriteUint40 (i : Z) : result (list Z) :=
  if i >=? Z.shiftl 1 40 then Panic "doesn't fit into 40 bits" else
  Ok [u8 (Z.shiftr i 32); u8 (Z.shiftr i 24); u8 (Z.shiftr i 16);
      u8 (Z.shiftr i 8); u8 i].

Definition bigEndian_WriteUint32 (i : Z) : list Z :=
  [u8 (Z.shiftr i 24); u8 (Z.shiftr i 16); u8 (Z.shiftr i 8); u8 i].

Definition bigEndian_WriteUint24 (i : Z) : result (list Z) :=
  if i >=? Z.shiftl 1 24 then Panic "doesn't fit into 24 bits" else
  Ok [u8 (Z.shiftr i 16); u8 (Z.shiftr i 8); u8 i].

Definition bigEndian_WriteUint16 (i : Z) : list Z := [u8 (Z.shiftr i 8); u8 i].

Definition bigEndian_ReadUfloat16 : reader Z := readUfloat16 bigEndian_ReadUint16.
Definition bigEndian_WriteUfloat16 : Z → list Z := writeUfloat16 bigEndian_WriteUint16.

Definition LittleEndian : ByteOrder := {|
  ReadUintN := littleEndian_ReadUintN; ReadUint64 := littleEndian_ReadUint64;
  ReadUint32 := littleEndian_ReadUint32; ReadUint16 := littleEndian_ReadUint16;
  WriteUint64 := littleEndian_WriteUint64; WriteUint56 := littleEndian_WriteUint56;
  WriteUint48 := littleEndian_WriteUint48; WriteUint40 := littleEndian_WriteUint40;
  WriteUint32 := littleEndian_WriteUint32; WriteUint24 := littleEndian_WriteUint24;
  WriteUint16 := littleEndian_WriteUint16;
  ReadUfloat16 := littleEndian_ReadUfloat16; WriteUfloat16 := littleEndian_WriteUfloat16 |}.

Definition BigEndian : ByteOrder := {|
  ReadUintN := bigEndian_ReadUintN; ReadUint64 := bigEndian_ReadUint64;
  ReadUint32 := bigEndian_ReadUint32; ReadUint16 := bigEndian_ReadUint16;
  WriteUint64 := bigEndian_WriteUint64; WriteUint56 := bigEndian_WriteUint56;
  WriteUint48 := bigEndian_WriteUint48; WriteUint40 := bigEndian_WriteUint40;
  WriteUint32 := bigEndian_WriteUint32; WriteUint24 := bigEndian_WriteUint24;
  WriteUint16 := bigEndian_WriteUint16;
  ReadUfloat16 := bigEndian_ReadUfloat16; WriteUfloat16 := bigEndian_WriteUfloat16 |}.

(** [protocol.VersionNumber] is an int *)
Definition Version39 : Z := 39.

Definition GetByteOrder (v : Z) : ByteOrder :=
  if v <? Version39 then LittleEndian else BigEndian.

(** ** Reference encodings *)

Fixpoint le_split (n : nat) (x : Z) : list Z :=
  match n with
  | O => []
  | S n => u8 x :: le_split n (Z.shiftr x 8)
  end.

Fixpoint le_combine (l : list Z) : Z :=
  match l with
  | [] => 0
  | b :: l => b + 2^8 * le_combine l
  end.

Lemma length_le_split n x : length (le_split n x) = n.
Proof. revert x. induction n; intros; simpl; auto. Qed.

Lemma le_split_bytes n x : bytes_ok (le_split n x).
Proof. revert x. induction n; intros; simpl; constructor; auto using u8_range. apply IHn. Qed.

Lemma pow8_S n : 2^(8 * Z.of_nat (S n)) = 2^8 * 2^(8 * Z.of_nat n).
Proof. rewrite <- Z.pow_add_r by lia. f_equal. lia. Qed.

Lemma le_combine_split n x : 0 <= x < 2^(8 * Z.of_nat n) → le_combine (le_split n x) = x.
Proof.
  revert x. induction n as [|n IH]; intros x Hx; [simpl in *; lia|].
  rewrite pow8_S in Hx. cbn [le_split le_combine].
  rewrite IH; rewrite Z.shiftr_div_pow2 by lia; zwrap.
Qed.

Lemma le_combine_bound l :
  bytes_ok l → 0 <= le_combine l < 2^(8 * Z.of_nat (length l)).
Proof.
  induction 1 as [|b l Hb Hl IH]; [simpl; lia|].
  cbn [length le_combine]. rewrite pow8_S. unfold is_u8 in Hb. nia.
Qed.

Lemma le_split_combine l : bytes_ok l → le_split (length l) (le_combine l) = l.
Proof.
  induction 1 as [|b l Hb Hl IH]; [done|]. cbn [length le_combine le_split].
  assert (u8 (b + 2^8 * le_combine l) = b) as -> by zwrap.
  rewrite Z.shiftr_div_pow2 by lia.
  assert ((b + 2^8 * le_combine l) / 2^8 = le_combine l) as -> by zwrap.
  by rewrite IH.
Qed.

Lemma le_combine_app l1 l2 :
  le_combine (l1 ++ l2) = le_combine l1 + 2^(8 * Z.of_nat (length l1)) * le_combine l2.
Proof.
  induction l1 as [|b l1 IH]; [cbn; lia|].
  cbn [app length le_combine]. rewrite IH, pow8_S. ring.
Qed.

(** ** What a byte order promises *)

Class ByteOrderLaws (bo : ByteOrder) : Type := {
  enc : nat → Z → list Z;
  enc_length n x : length (enc n x) = n;
  enc_bytes n x : bytes_ok (enc n x);
  enc_1 x : enc 1 x = [u8 x];
  read_enc n x s : (n <= 8)%nat → 0 <= x < 2^(8 * Z.of_nat n) →
    ReadUintN bo (Z.of_nat n) (enc n x ++ s) = Ok (x, s);
  read_enc_inv n s x s' : (n <= 8)%nat → bytes_ok s →
    ReadUintN bo (Z.of_nat n) s = Ok (x, s') →
    s = enc n x ++ s' ∧ 0 <= x < 2^(8 * Z.of_nat n);
  read_short n s : (n <= 8)%nat → (length s < n)%nat →
    ReadUintN bo (Z.of_nat n) s = Err EOF;
  safe_uintN n : (n <= 8)%nat → safe (ReadUintN bo (Z.of_nat n));
  read_64 s : bytes_ok s → ReadUint64 bo s = ReadUintN bo 8 s;
  read_32 s : bytes_ok s → ReadUint32 bo s = ReadUintN bo 4 s;
  read_16 s : bytes_ok s → ReadUint16 bo s = ReadUintN bo 2 s;
  write_64 x : WriteUint64 bo x = enc 8 x;
  write_56 x : WriteUint56 bo x = if x <? 2^56 then Ok (enc 7 x)
                                  else Panic "doesn't fit into 56 bits";
  write_48 x : WriteUint48 bo x = if x <? 2^48 then Ok (enc 6 x)
                                  else Panic "doesn't fit into 48 bits";
  write_40 x : WriteUint40 bo x = if x <? 2^40 then Ok (enc 5 x)
                                  else Panic "doesn't fit into 40 bits";
  write_32 x : WriteUint32 bo x = enc 4 x;
  write_24 x : WriteUint24 bo x = if x <? 2^24 then Ok (enc 3 x)
                                  else Panic "doesn't fit into 24 bits";
  write_16 x : WriteUint16 bo x = enc 2 x;
  read_ufloat : ReadUfloat16 bo = readUfloat16 (ReadUint16 bo);
  write_ufloat : WriteUfloat16 bo = writeUfloat16 (WriteUint16 bo);
}.

(** ** The little-endian loop adds up the bytes it reads *)

Lemma LE_loop_ok l s i res :
  bytes_ok l → 0 <= i → i + Z.of_nat (length l) <= 8 → 0 <= res < 2^(8 * i) →
  littleEndian_ReadUintN_loop (length l) i res (l ++ s)
  = Ok (res + 2^(8 * i) * le_combine l, s).
Proof.
  intros Hl. revert i res. induction Hl as [|b l Hb Hl IH]; intros i res Hi Hlen Hres.
  { cbn. rewrite Z.mul_0_r, Z.add_0_r. done. }
  cbn [length] in *. cbn [littleEndian_ReadUintN_loop app].
  rewrite (rbind_ok _ _ _ b (l ++ s)) by done.
  assert (u8 (i * 8) = 8 * i) as -> by zwrap.
  assert (u8 (i + 1) = i + 1) as -> by zwrap.
  assert (u64 (Z.shiftl b (8 * i)) = Z.shiftl b (8 * i)) as ->.
  { apply u64_id, shiftl_small; [lia|]. unfold is_u8 in Hb. split; [lia|].
    eapply Z.lt_le_trans; [apply Hb|]. apply Z.pow_le_mono_r; lia. }
  rewrite lxor_shiftl_add by (unfold is_u8 in *; lia).
  assert (2^(8 * (i + 1)) = 2^8 * 2^(8 * i)) as Hp
    by (rewrite <- Z.pow_add_r by lia; f_equal; lia).
  rewrite IH; [|lia..|rewrite Hp; unfold is_u8 in *; nia].
  cbn [le_combine]. rewrite Hp. do 2 f_equal. ring.
Qed.

Lemma LE_loop_short n i res s :
  (length s < n)%nat → littleEndian_ReadUintN_loop n i res s = Err EOF.
Proof.
  revert i res s. induction n as [|n IH]; intros i res [|b s] Hs; simpl in *; try lia; [done|].
  rewrite (rbind_ok _ _ _ b s) by done. apply IH. lia.
Qed.

(** ** The big-endian loop *)

Lemma BE_loop_ok l s len i q :
  bytes_ok l → 0 <= i → len = i + Z.of_nat (length l) → len <= 8 →
  0 <= q < 2^(8 * i) →
  bigEndian_ReadUintN_loop (length l) len i (q * 2^(8 * Z.of_nat (length l))) (l ++ s)
  = Ok (q * 2^(8 * Z.of_nat (length l)) + le_combine (reverse l), s).
Proof.
  intros Hl. revert i q. induction Hl as [|b l Hb Hl IH]; intros i q Hi Hlen H8 Hq.
  { cbn. rewrite Z.add_0_r. done. }
  cbn [length] in *. cbn [bigEndian_ReadUintN_loop app].
  rewrite (rbind_ok _ _ _ b (l ++ s)) by done.
  set (n := Z.of_nat (length l)).
  assert (u8 (len - 1 - i) = n) as -> by (unfold n; zwrap).
  assert (u8 (n * 8) = 8 * n) as -> by (unfold n; zwrap).
  assert (u8 (i + 1) = i + 1) as -> by zwrap.
  assert (u64 (Z.shiftl b (8 * n)) = Z.shiftl b (8 * n)) as ->.
  { apply u64_id, shiftl_small; [lia|]. unfold is_u8 in Hb. split; [lia|].
    eapply Z.lt_le_trans; [apply Hb|]. apply Z.pow_le_mono_r; lia. }
  assert (Z.lxor (q * 2^(8 * Z.of_nat (S (length l)))) (Z.shiftl b (8 * n))
          = (q * 2^8 + b) * 2^(8 * n)) as ->.
  { rewrite pow8_S. fold n. rewrite Z.lxor_comm.
    replace (q * (2^8 * 2^(8 * n))) with (Z.shiftl q (8 + 8 * n)).
    2:{ rewrite Z.shiftl_mul_pow2, Z.pow_add_r by lia. ring. }
    rewrite lxor_shiftl_add; [|lia|].
    - rewrite Z.shiftl_mul_pow2, Z.pow_add_r by lia. ring.
    - apply shiftl_small; [lia|]. replace (8 + 8 * n - 8 * n) with 8 by lia.
      apply Hb. }
  assert (2^(8 * (i + 1)) = 2^8 * 2^(8 * i)) as Hp
    by (rewrite <- Z.pow_add_r by lia; f_equal; lia).
  rewrite (IH (i + 1)); [|lia..|rewrite Hp; unfold is_u8 in *; nia].
  rewrite reverse_cons, le_combine_app, length_reverse, pow8_S. cbn [le_combine].
  fold n. do 2 f_equal. ring.
Qed.

Lemma BE_loop_short n len i res s :
  (length s < n)%nat → bigEndian_ReadUintN_loop n len i res s = Err EOF.
Proof.
  revert i res s. induction n as [|n IH]; intros i res [|b s] Hs; simpl in *; try lia; [done|].
  rewrite (rbind_ok _ _ _ b s) by done. apply IH. lia.
Qed.

Lemma LE_ReadUintN_ok l s n :
  bytes_ok l → n = Z.of_nat (length l) → n <= 8 →
  littleEndian_ReadUintN n (l ++ s) = Ok (le_combine l, s).
Proof.
  intros Hl -> Hn. unfold littleEndian_ReadUintN. rewrite Nat2Z.id, LE_loop_ok by (done || lia).
  by rewrite Z.mul_0_r, Z.pow_0_r, Z.mul_1_l.
Qed.

Lemma BE_ReadUintN_ok l s n :
  bytes_ok l → n = Z.of_nat (length l) → n <= 8 →
  bigEndian_ReadUintN n (l ++ s) = Ok (le_combine (reverse l), s).
Proof.
  intros Hl -> Hn. unfold bigEndian_ReadUintN. rewrite Nat2Z.id.
  apply (BE_loop_ok l s (Z.of_nat (length l)) 0 0); done || lia.
Qed.

(** A byte list is either too short or splits at [n]. *)
Lemma bytes_split_at n (s : list Z) :
  bytes_ok s → (length s < n)%nat ∨
  ∃ l s', s = l ++ s' ∧ length l = n ∧ bytes_ok l ∧ bytes_ok s'.
Proof.
  intros Hs. destruct (decide (length s < n)%nat); [by left|right].
  exists (take n s), (drop n s). rewrite take_drop, length_take. unfold bytes_ok.
  split_and!; [done|lia|by apply Forall_take|by apply Forall_drop].
Qed.

(** A fixed-width read is the bounded loop, run on the same bytes. *)
Ltac fixed_read_tac n ok short :=
  intros s Hs; destruct (bytes_split_at n s Hs) as [Hl|(l & s' & -> & Hl & Hb & _)];
  [ unfold littleEndian_ReadUintN, bigEndian_ReadUintN; rewrite short by (simpl; lia);
    repeat (destruct s as [|? s]; [done|]; simpl in Hl); lia
  | rewrite ok by (done || lia);
    repeat (destruct l as [|? l]; simpl in Hl; [lia|]); destruct l; [|simpl in Hl; lia];
    unfold bytes_ok in Hb; rewrite ?Forall_cons in Hb;
    unfold littleEndian_ReadUint64, littleEndian_ReadUint32, littleEndian_ReadUint16,
      bigEndian_ReadUint64, bigEndian_ReadUint32, bigEndian_ReadUint16;
    cbn [app]; repeat rstep; cbv [mret reader_ret reverse rev_append]; cbn [le_combine];
    repeat match type of Hb with _ ∧ _ => destruct Hb as [? Hb] end;
    rewrite ?Z.shiftl_mul_pow2 by lia; unfold u16, u32, u64, is_u8 in *;
    rewrite Z.mod_small by lia; do 2 f_equal; ring ].

Lemma LE_read_64 : ∀ s, bytes_ok s → littleEndian_ReadUint64 s = littleEndian_ReadUintN 8 s.
Proof. fixed_read_tac 8%nat LE_ReadUintN_ok LE_loop_short. Qed.
Lemma LE_read_32 : ∀ s, bytes_ok s → littleEndian_ReadUint32 s = littleEndian_ReadUintN 4 s.
Proof. fixed_read_tac 4%nat LE_ReadUintN_ok LE_loop_short. Qed.
Lemma LE_read_16 : ∀ s, bytes_ok s → littleEndian_ReadUint16 s = littleEndian_ReadUintN 2 s.
Proof. fixed_read_tac 2%nat LE_ReadUintN_ok LE_loop_short. Qed.
Lemma BE_read_64 : ∀ s, bytes_ok s → bigEndian_ReadUint64 s = bigEndian_ReadUintN 8 s.
Proof. fixed_read_tac 8%nat BE_ReadUintN_ok BE_loop_short. Qed.
Lemma BE_read_32 : ∀ s, bytes_ok s → bigEndian_ReadUint32 s = bigEndian_ReadUintN 4 s.
Proof. fixed_read_tac 4%nat BE_ReadUintN_ok BE_loop_short. Qed.
Lemma BE_read_16 : ∀ s, bytes_ok s → bigEndian_ReadUint16 s = bigEndian_ReadUintN 2 s.
Proof. fixed_read_tac 2%nat BE_ReadUintN_ok BE_loop_short. Qed.

Lemma be_split_bytes n x : bytes_ok (reverse (le_split n x)).
Proof. apply Forall_reverse, le_split_bytes. Qed.

(** The writers lay out the reference encodings. *)
Ltac write_tac :=
  intros; cbv beta iota delta [LittleEndian BigEndian WriteUint64 WriteUint56
    WriteUint48 WriteUint40 WriteUint32 WriteUint24 WriteUint16 littleEndian_WriteUint64 littleEndian_WriteUint56 littleEndian_WriteUint48 littleEndian_WriteUint40
    littleEndian_WriteUint32 littleEndian_WriteUint24 littleEndian_WriteUint16 bigEndian_WriteUint64 bigEndian_WriteUint56
    bigEndian_WriteUint48 bigEndian_WriteUint40 bigEndian_WriteUint32 bigEndian_WriteUint24 bigEndian_WriteUint16];
  cbn [le_split];
  rewrite ?Z.shiftr_shiftr by lia; cbn [Z.add Pos.add Pos.succ Pos.add_carry];
  rewrite ?Z.geb_leb, ?Z.leb_antisym;
  rewrite ?(Z.shiftl_mul_pow2 1) by lia; rewrite ?Z.mul_1_l;
  try match goal with |- context [?a <? ?b] => destruct (a <? b) end; done.

#[export, refine] Instance LittleEndian_laws : ByteOrderLaws LittleEndian :=
  {| enc := le_split |}.
Proof.
  - apply length_le_split.
  - apply le_split_bytes.
  - done.
  - intros n x s Hn Hx. cbn [ReadUintN LittleEndian].
    rewrite LE_ReadUintN_ok, le_combine_split; rewrite ?length_le_split; auto using le_split_bytes; lia.
  - intros n s x s' Hn Hs. cbn [ReadUintN LittleEndian].
    destruct (bytes_split_at n s Hs) as [Hl|(l & t & -> & <- & Hb & _)].
    { unfold littleEndian_ReadUintN. by rewrite LE_loop_short by lia. }
    rewrite LE_ReadUintN_ok by (done || lia). intros [= <- <-].
    rewrite le_split_combine by done. split; [done|by apply le_combine_bound].
  - intros n s Hn Hs. apply LE_loop_short. lia.
  - intros n Hn s Hs. cbn [ReadUintN LittleEndian].
    destruct (bytes_split_at n s Hs) as [Hl|(l & t & -> & <- & Hb & _)].
    { unfold littleEndian_ReadUintN. by rewrite LE_loop_short by lia. }
    rewrite LE_ReadUintN_ok by (done || lia). by exists l.
  - apply LE_read_64.
  - apply LE_read_32.
  - apply LE_read_16.
  - write_tac.
  - write_tac.
  - write_tac.
  - write_tac.
  - write_tac.
  - write_tac.
  - write_tac.
  - done.
  - done.
Defined.

#[export, refine] Instance BigEndian_laws : ByteOrderLaws BigEndian :=
  {| enc := λ n x, reverse (le_split n x) |}.
Proof.
  - intros. by rewrite length_reverse, length_le_split.
  - apply be_split_bytes.
  - done.
  - intros n x s Hn Hx. cbn [ReadUintN BigEndian].
    rewrite BE_ReadUintN_ok, reverse_involutive, le_combine_split;
      rewrite ?length_reverse, ?length_le_split; auto using be_split_bytes; lia.
  - intros n s x s' Hn Hs. cbn [ReadUintN BigEndian].
    destruct (bytes_split_at n s Hs) as [Hl|(l & t & -> & <- & Hb & _)].
    { unfold bigEndian_ReadUintN. by rewrite BE_loop_short by lia. }
    rewrite BE_ReadUintN_ok by (done || lia). intros [= <- <-].
    apply Forall_reverse in Hb. rewrite <- length_reverse, le_split_combine by done.
    rewrite reverse_involutive. split; [done|by apply le_combine_bound].
  - intros n s Hn Hs. apply BE_loop_short. lia.
  - intros n Hn s Hs. cbn [ReadUintN BigEndian].
    destruct (bytes_split_at n s Hs) as [Hl|(l & t & -> & <- & Hb & _)].
    { unfold bigEndian_ReadUintN. by rewrite BE_loop_short by lia. }
    rewrite BE_ReadUintN_ok by (done || lia). by exists l.
  - apply BE_read_64.
  - apply BE_read_32.
  - apply BE_read_16.
  - write_tac.
  - write_tac.
  - write_tac.
  - write_tac.
  - write_tac.
  - write_tac.
  - write_tac.
  - done.
  - done.
Defined.

#[export] Instance GetByteOrder_laws v : ByteOrderLaws (GetByteOrder v).
Proof. unfold GetByteOrder. destruct (v <? Version39); apply _. Defined.

(** ** The 16-bit float *)

(** The value a wire word stands for, from the format's description. *)
Definition ufloat16_value (w : Z) : Z :=
  if w <? 2^12 then w else (w mod 2^11 + 2^11) * 2^(w / 2^11 - 1).

(** The loop state: [value] is [v] shifted by [exponent]. *)
Definition ufloat16_inv (v o : Z) (st : Z * Z) : Prop :=
  let '(e, x) := st in 0 <= e <= 31 - o ∧ x = v / 2^e ∧ 2^11 <= x < 2^(11 + o).

Lemma ufloat16_step_inv v o e x :
  1 <= o <= 16 → 0 <= v → 0 <= e <= 32 - 2 * o →
  x = v / 2^e → 2^11 <= x < 2^(11 + 2 * o) →
  ∃ e' x', ufloat16_step (e, x) o = (e', x') ∧
    e <= e' <= e + o ∧ x' = v / 2^e' ∧ 2^11 <= x' < 2^(11 + o).
Proof.
  intros Ho Hv He -> Hx. unfold ufloat16_step.
  change (uFloat16MantissaBits) with 11. rewrite Z.shiftl_mul_pow2, Z.mul_1_l by lia.
  rewrite Z.geb_leb. destruct (Z.leb_spec (2^(11 + o)) (v / 2^e)).
  - exists (e + o), (v / 2^(e + o)).
    assert (v / 2^(e + o) = v / 2^e / 2^o) as Hd.
    { rewrite Z.pow_add_r, Z.div_div by lia. done. }
    split_and!; [|lia|lia|done| |].
    + rewrite Z.shiftr_div_pow2, <- Hd by lia. f_equal. zwrap.
    + rewrite Hd. apply Z.div_le_lower_bound; [lia|].
      rewrite <- Z.pow_add_r by lia. by rewrite Z.add_comm.
    + rewrite Hd. apply Z.div_lt_upper_bound; [lia|].
      rewrite <- Z.pow_add_r by lia. replace (o + (11 + o)) with (11 + 2 * o) by lia. lia.
  - exists e, (v / 2^e). split_and!; done || lia.
Qed.

(** The binary search finds the one shift that leaves a 12-bit mantissa. *)
Lemma ufloat16_search v :
  2^12 <= v < uFloat16MaxValue →
  ∃ e, 0 <= e <= 30 ∧ 2^11 <= v / 2^e < 2^12 ∧
    foldl ufloat16_step (0, v) ufloat16_offsets = (e, v / 2^e).
Proof.
  intros Hv. change uFloat16MaxValue with (4095 * 2^30) in Hv.
  unfold ufloat16_offsets. cbn [foldl].
  destruct (ufloat16_step_inv v 16 0 v) as (e1 & x1 & -> & ? & -> & ?);
    [lia|lia|lia|by rewrite Z.div_1_r|lia|].
  destruct (ufloat16_step_inv v 8 e1 (v / 2^e1)) as (e2 & x2 & -> & ? & -> & ?); [lia..|].
  destruct (ufloat16_step_inv v 4 e2 (v / 2^e2)) as (e3 & x3 & -> & ? & -> & ?); [lia..|].
  destruct (ufloat16_step_inv v 2 e3 (v / 2^e3)) as (e4 & x4 & -> & ? & -> & ?); [lia..|].
  destruct (ufloat16_step_inv v 1 e4 (v / 2^e4)) as (e5 & x5 & -> & ? & -> & ?); [lia..|].
  exists e5. split_and!; [lia| |lia|lia|done].
  destruct (decide (e5 = 31)) as [->|]; [|lia].
  exfalso. assert (v / 2^31 < 2^11) by (apply Z.div_lt_upper_bound; lia). lia.
Qed.

Lemma ufloat16_of_spec v :
  2^12 <= v < uFloat16MaxValue →
  ∃ e, 0 <= e <= 30 ∧ 2^11 <= v / 2^e < 2^12 ∧ ufloat16_of v = v / 2^e + e * 2^11.
Proof.
  intros Hv. destruct (ufloat16_search v Hv) as (e & He & Hm & Hf).
  exists e. split_and!; try lia. unfold ufloat16_of.
  change (Z.shiftl 1 uFloat16MantissaEffectiveBits) with (2^12).
  destruct (Z.ltb_spec v (2^12)); [lia|].
  rewrite Z.geb_leb. destruct (Z.leb_spec uFloat16MaxValue v); [lia|].
  rewrite Hf. change uFloat16MantissaBits with 11. rewrite Z.shiftl_mul_pow2 by lia.
  rewrite (u16_id (v / 2^e)), (u16_id (e * 2^11)) by (unfold is_u16; lia).
  apply u16_id. unfold is_u16. lia.
Qed.

Lemma ufloat16_of_range v : 0 <= v → is_u16 (ufloat16_of v).
Proof.
  intros Hv. destruct (Z_lt_le_dec v (2^12)) as [Hs|Hs].
  { unfold ufloat16_of. change (Z.shiftl 1 uFloat16MantissaEffectiveBits) with (2^12).
    destruct (Z.ltb_spec v (2^12)); [apply u16_range|lia]. }
  destruct (Z_lt_le_dec v uFloat16MaxValue) as [Hl|Hl].
  { destruct (ufloat16_of_spec v ltac:(lia)) as (e & ? & ? & ->). unfold is_u16. lia. }
  unfold ufloat16_of. change (Z.shiftl 1 uFloat16MantissaEffectiveBits) with (2^12).
  destruct (Z.ltb_spec v (2^12)); [lia|].
  rewrite Z.geb_leb. destruct (Z.leb_spec uFloat16MaxValue v); [unfold is_u16|]; lia.
Qed.

(** The decoder computes the value of the format's description. *)
Lemma readUfloat16_value rd s w s' :
  is_u16 w → rd s = Ok (w, s') → readUfloat16 rd s = Ok (ufloat16_value w, s').
Proof.
  intros Hw Hrd. unfold readUfloat16. rewrite (rbind_ok _ _ _ _ _ Hrd).
  change (Z.shiftl 1 uFloat16MantissaEffectiveBits) with (2^12).
  unfold ufloat16_value. destruct (Z.ltb_spec w (2^12)) as [|Hge]; [done|].
  change uFloat16MantissaBits with 11. rewrite Z.shiftr_div_pow2 by lia.
  unfold is_u16 in Hw.
  assert (2 <= w / 2^11 <= 31) as Hq by zwrap.
  rewrite (u16_id (w / 2^11 - 1)) by (unfold is_u16; lia).
  set (k := w / 2^11 - 1) in *. rewrite (Z.shiftl_mul_pow2 k) by lia.
  rewrite (u64_id (k * 2^11)) by (unfold is_u64; lia).
  assert (w - k * 2^11 = w mod 2^11 + 2^11) as -> by (unfold k; zwrap).
  assert (2^11 <= w mod 2^11 + 2^11 < 2^12) by zwrap.
  rewrite (u64_id (w mod 2^11 + 2^11)) by (unfold is_u64; lia).
  rewrite Z.shiftl_mul_pow2 by lia. cbv [mret reader_ret].
  rewrite u64_id; [done|]. unfold is_u64. assert (2^k <= 2^30) by (apply Z.pow_le_mono_r; lia).
  nia.
Qed.

(** Decoding the encoding of a value in range. *)
Lemma ufloat16_value_of v :
  0 <= v →
  ufloat16_value (ufloat16_of v)
  = if v <? 2^12 then v
    else if v >=? uFloat16MaxValue then uFloat16MaxValue
    else let e := Z.log2 v - 11 in v / 2^e * 2^e.
Proof.
  intros Hv. destruct (Z.ltb_spec v (2^12)) as [Hs|Hs].
  { unfold ufloat16_of, ufloat16_value.
    change (Z.shiftl 1 uFloat16MantissaEffectiveBits) with (2^12).
    destruct (Z.ltb_spec v (2^12)); [|lia]. rewrite u16_id by (unfold is_u16; lia).
    destruct (Z.ltb_spec v (2^12)); lia. }
  rewrite Z.geb_leb. destruct (Z.leb_spec uFloat16MaxValue v) as [Hl|Hl].
  { unfold ufloat16_of. change (Z.shiftl 1 uFloat16MantissaEffectiveBits) with (2^12).
    destruct (Z.ltb_spec v (2^12)); [lia|].
    rewrite Z.geb_leb. destruct (Z.leb_spec uFloat16MaxValue v); [done|lia]. }
  destruct (ufloat16_of_spec v ltac:(lia)) as (e & He & Hm & ->).
  assert (Z.log2 v = 11 + e) as Hlog.
  { apply Z.log2_unique; [lia|]. rewrite <- Z.add_succ_r, !Z.pow_add_r, Z.pow_succ_r by lia.
    pose proof (Z.mul_div_le v (2^e) ltac:(lia)).
    pose proof (Z.mul_succ_div_gt v (2^e) ltac:(lia)). nia. }
  cbv zeta. replace (Z.log2 v - 11) with e by lia. unfold ufloat16_value.
  destruct (Z.ltb_spec (v / 2^e + e * 2^11) (2^12)) as [Hlt|Hge].
  { assert (e = 0) by lia. subst e. rewrite Z.div_1_r in *. lia. }
  assert ((v / 2^e + e * 2^11) / 2^11 = e + 1) as ->.
  { rewrite Z.div_add by lia. assert (v / 2^e / 2^11 = 1) by zwrap. lia. }
  replace (e + 1 - 1) with e by lia. rewrite Z.mod_add by lia.
  f_equal. zwrap.
Qed.

(** Encoding the value of a wire word gives the word back. *)
Lemma ufloat16_of_value w : is_u16 w → ufloat16_of (ufloat16_value w) = w.
Proof.
  unfold is_u16. intros Hw. unfold ufloat16_value. destruct (Z.ltb_spec w (2^12)) as [Hs|Hs].
  { unfold ufloat16_of. change (Z.shiftl 1 uFloat16MantissaEffectiveBits) with (2^12).
    destruct (Z.ltb_spec w (2^12)); [|lia]. apply u16_id. unfold is_u16. lia. }
  assert (1 <= w / 2^11 - 1 <= 30) as Hk by zwrap.
  set (m := w mod 2^11 + 2^11). set (k := w / 2^11 - 1) in *.
  assert (2^11 <= m < 2^12) as Hm by (unfold m; zwrap).
  assert (w = m + k * 2^11) as Hwm by (unfold m, k; zwrap).
  assert (2^1 <= 2^k) by (apply Z.pow_le_mono_r; lia).
  destruct (decide (w = 65535)) as [->|Hne]; [done|].
  assert (m * 2^k < uFloat16MaxValue) as Hmax.
  { change uFloat16MaxValue with (4095 * 2^30).
    assert (2^k <= 2^30) by (apply Z.pow_le_mono_r; lia).
    destruct (decide (k = 30)) as [->|].
    - assert (m <> 4095) by lia. nia.
    - assert (2^k <= 2^29) by (apply Z.pow_le_mono_r; lia). nia. }
  destruct (ufloat16_of_spec (m * 2^k)) as (e & He & Hx & ->); [nia|].
  assert (e = k) as ->.
  { destruct (Z.lt_trichotomy e k) as [Hlt|[|Hlt]]; [exfalso|done|exfalso].
    - assert (2^k = 2^(k - e) * 2^e) as Hp by (rewrite <- Z.pow_add_r by lia; f_equal; lia).
      rewrite Hp, Z.mul_assoc, Z.div_mul in Hx by lia.
      assert (2^1 <= 2^(k - e)) by (apply Z.pow_le_mono_r; lia). nia.
    - assert (2^e = 2^k * 2^(e - k)) as Hp by (rewrite <- Z.pow_add_r by lia; f_equal; lia).
      rewrite Hp, <- Z.div_div, Z.div_mul in Hx by lia.
      assert (m / 2^(e - k) < 2^11); [|lia]. apply Z.div_lt_upper_bound; [lia|].
      assert (2^1 <= 2^(e - k)) by (apply Z.pow_le_mono_r; lia). nia. }
  rewrite Z.div_mul by lia. lia.
Qed.

(** ** Properties *)

Section Laws.
Context (bo : ByteOrder) {L : ByteOrderLaws bo}.

Lemma ReadUint16_enc x s : is_u16 x → bytes_ok s → ReadUint16 bo (enc 2 x ++ s) = Ok (x, s).
Proof.
  intros Hx Hs. rewrite read_16 by eauto using enc_bytes with quic.
  by apply (read_enc 2); [lia|].
Qed.

Lemma ReadUint32_enc x s : is_u32 x → bytes_ok s → ReadUint32 bo (enc 4 x ++ s) = Ok (x, s).
Proof.
  intros Hx Hs. rewrite read_32 by eauto using enc_bytes with quic.
  by apply (read_enc 4); [lia|].
Qed.

Lemma ReadUint64_enc x s : is_u64 x → bytes_ok s → ReadUint64 bo (enc 8 x ++ s) = Ok (x, s).
Proof.
  intros Hx Hs. rewrite read_64 by eauto using enc_bytes with quic.
  by apply (read_enc 8); [lia|].
Qed.

Lemma WriteUfloat16_enc v : WriteUfloat16 bo v = enc 2 (ufloat16_of v).
Proof. by rewrite write_ufloat; unfold writeUfloat16; rewrite write_16. Qed.

Lemma ReadUfloat16_enc w s :
  is_u16 w → bytes_ok s → ReadUfloat16 bo (enc 2 w ++ s) = Ok (ufloat16_value w, s).
Proof.
  intros Hw Hs. rewrite read_ufloat. apply readUfloat16_value; [done|].
  by apply ReadUint16_enc.
Qed.

Lemma safe_ReadUintN n : 0 <= n <= 8 → safe (ReadUintN bo n).
Proof. intros Hn. rewrite <- (Z2Nat.id n) by lia. apply safe_uintN. lia. Qed.

Lemma safe_ReadUint16 : safe (ReadUint16 bo).
Proof. intros s Hs. rewrite read_16 by done. by apply (safe_ReadUintN 2). Qed.

Lemma safe_ReadUint32 : safe (ReadUint32 bo).
Proof. intros s Hs. rewrite read_32 by done. by apply (safe_ReadUintN 4). Qed.

Lemma safe_ReadUint64 : safe (ReadUint64 bo).
Proof. intros s Hs. rewrite read_64 by done. by apply (safe_ReadUintN 8). Qed.

Lemma safe_ReadUfloat16 : safe (ReadUfloat16 bo).
Proof.
  rewrite read_ufloat. unfold readUfloat16. apply safe_bind; [apply safe_ReadUint16|].
  intros. safe_tac.
Qed.
End Laws.

#[export] Hint Resolve safe_ReadUint16 safe_ReadUint32 safe_ReadUint64 safe_ReadUfloat16 : quic.

(** Whatever a byte order writes it reads back unchanged, whatever bytes follow: through
    the fixed-width readers, and through [ReadUintN] for the widths that only have a writer;
    the 24-, 40-, 48- and 56-bit writers panic exactly on the values that do not fit. *)
Theorem byte_order_roundtrip (v x : Z) (s : list Z) :
  let bo := GetByteOrder v in
  bytes_ok s → 0 <= x →
  (x < 2^16 → ReadUint16 bo (WriteUint16 bo x ++ s) = Ok (x, s)) ∧
  (x < 2^32 → ReadUint32 bo (WriteUint32 bo x ++ s) = Ok (x, s)) ∧
  (x < 2^64 → ReadUint64 bo (WriteUint64 bo x ++ s) = Ok (x, s)) ∧
  (∀ n w, In (n, w) [(3, WriteUint24 bo x); (5, WriteUint40 bo x);
                     (6, WriteUint48 bo x); (7, WriteUint56 bo x)] →
     if x <? 2^(8 * n) then ∃ bs, w = Ok bs ∧ ReadUintN bo n (bs ++ s) = Ok (x, s)
     else ∃ msg, w = Panic msg).
Proof.
  intros bo Hs Hx. rewrite write_16, write_32, write_64, write_24, write_40, write_48, write_56.
  split_and!; [intros; apply ReadUint16_enc; done|intros; apply ReadUint32_enc; done
              |intros; apply ReadUint64_enc; done|].
  intros n w Hin.
  assert (∃ k m, n = Z.of_nat k ∧ (k <= 8)%nat ∧
    w = if x <? 2^(8 * n) then Ok (enc (bo := bo) k x) else Panic m) as (k & m & -> & Hk & ->).
  { simpl in Hin.
    destruct Hin as [[= <- <-]|[[= <- <-]|[[= <- <-]|[[= <- <-]|[]]]]];
      [exists 3%nat|exists 5%nat|exists 6%nat|exists 7%nat]; eexists; split_and!; done || lia. }
  destruct (Z.ltb_spec x (2^(8 * Z.of_nat k))); [|by eexists].
  eexists. split; [done|]. by apply read_enc.
Qed.

Lemma byte_order_roundtrip_witness :
  ReadUint32 BigEndian (WriteUint32 BigEndian 305419896 ++ [7]) = Ok (305419896, [7]).
Proof.
  apply (byte_order_roundtrip 39 305419896 [7]); [|done|done].
  apply Forall_singleton. done.
Defined.

(** Every two bytes on the wire are the encoding of the value read from them, so the
    16-bit float has no two encodings of one value. *)
Theorem ufloat16_write_read (v x : Z) (s s' : list Z) :
  bytes_ok s → ReadUfloat16 (GetByteOrder v) s = Ok (x, s') →
  s = WriteUfloat16 (GetByteOrder v) x ++ s'.
Proof.
  intros Hs. rewrite read_ufloat, (WriteUfloat16_enc (GetByteOrder v)). intros Hr.
  pose proof Hr as Hr'. apply rbind_inv in Hr' as (w & t & Hw & _).
  pose proof Hw as Hw'. rewrite read_16 in Hw' by done.
  apply (read_enc_inv 2) in Hw' as [-> Hrange]; [|lia|done].
  rewrite (readUfloat16_value _ _ w t) in Hr by done. injection Hr as <- <-.
  by rewrite ufloat16_of_value.
Qed.

Lemma ufloat16_write_read_witness :
  [188; 1; 5] = WriteUfloat16 LittleEndian 444 ++ [5].
Proof.
  apply (ufloat16_write_read 0 444 [188; 1; 5] [5]); [|done].
  bytes_tac.
Defined.

(** A delay written as a 16-bit float is read back exactly below 2^12, clamped from the
    largest representable value on, and otherwise rounded down by less than one part in 2^11. *)
Theorem ufloat16_read_write (v x : Z) (s : list Z) :
  is_u64 x → bytes_ok s →
  ∃ r, ReadUfloat16 (GetByteOrder v) (WriteUfloat16 (GetByteOrder v) x ++ s) = Ok (r, s) ∧
    (x < 2^12 → r = x) ∧
    (uFloat16MaxValue <= x → r = uFloat16MaxValue) ∧
    (x < uFloat16MaxValue → r <= x ∧ (x - r) * 2^11 <= x).
Proof.
  intros [Hx _] Hs. rewrite (WriteUfloat16_enc (GetByteOrder v)), ReadUfloat16_enc by auto using ufloat16_of_range.
  rewrite ufloat16_value_of by done. eexists. split; [done|].
  assert (2^12 < uFloat16MaxValue) by done.
  destruct (Z.ltb_spec x (2^12)); [lia|]. rewrite Z.geb_leb.
  destruct (Z.leb_spec uFloat16MaxValue x); [lia|].
  split_and!; [lia|lia|]. intros _. cbv zeta. set (e := Z.log2 x - 11).
  assert (12 <= Z.log2 x) by (change 12 with (Z.log2 (2^12)); apply Z.log2_le_mono; lia).
  assert (2^e * 2^11 <= x) as Hle.
  { rewrite <- Z.pow_add_r by lia. replace (e + 11) with (Z.log2 x) by lia.
    apply Z.log2_spec. lia. }
  pose proof (Z.div_mod x (2^e) ltac:(lia)). pose proof (Z.mod_pos_bound x (2^e) ltac:(lia)).
  assert (x / 2^e * 2^e = x - x mod 2^e) as -> by lia. lia.
Qed.

Lemma ufloat16_read_write_witness :
  ∃ r, ReadUfloat16 BigEndian (WriteUfloat16 BigEndian 5001 ++ []) = Ok (r, []) ∧
    (5001 < 2^12 → r = 5001) ∧
    (uFloat16MaxValue <= 5001 → r = uFloat16MaxValue) ∧
    (5001 < uFloat16MaxValue → r <= 5001 ∧ (5001 - r) * 2^11 <= 5001).
Proof. apply (ufloat16_read_write 39 5001 []); [done|constructor]. Defined.
