(* ===== verification/Protocol.v ===== *)
(** * Packet numbers, versions and limits

    internal/protocol (packet_number.go, protocol.go, version.go and
    server_parameters.go) and the helpers of internal/utils/minmax.go that the
    other components call. *)

From S2P Require Import Prelude ByteOrder.

(** ** protocol.go *)

Definition PacketNumberLenInvalid : Z := 0.
Definition PacketNumberLen1 : Z := 1.
Definition PacketNumberLen2 : Z := 2.
Definition PacketNumberLen4 : Z := 4.
Definition PacketNumberLen6 : Z := 6.

Definition InitialPathID : Z := 0.
Definition MaxByteCountConst : Z := 2^64 - 1.
Definition DefaultStreamWeight : Z := 15.

(** ** server_parameters.go *)

Definition MaxPacketSize : Z := 1350.
Definition DefaultMaxCongestionWindow : Z := 2500.
Definition MaxTrackedReceivedAckRanges : Z := DefaultMaxCongestionWindow.
Definition MaxPacketsReceivedBeforeAckSend : Z := 20.
Definition RetransmittablePacketsBeforeAck : Z := 2.
Definition MaxStreamFrameSorterGaps : Z := 2500.
(** 25 * time.Millisecond, in nanoseconds *)
Definition AckSendDelay : Z := 25 * 1000000.

(** ** minmax.go *)

Definition MaxPacketNumber (a b : Z) : Z := if a >? b then a else b.
Definition MinPacketNumber (a b : Z) : Z := if a <? b then a else b.
Definition MinByteCount (a b : Z) : Z := if a <? b then a else b.
Definition MaxByteCount (a b : Z) : Z := if a >? b then a else b.

(** ** packet_number.go *)

Definition delta (a b : Z) : Z := if a <? b then b -u64 a else a -u64 b.

Definition closestTo (target a b : Z) : Z :=
  if delta target a <? delta target b then a else b.

Definition InferPacketNumber (packetNumberLength lastPacketNumber wirePacketNumber : Z) : Z :=
  let epochDelta := 1 <<u64 u8 (packetNumberLength * 8) in
  let epoch := Z.ldiff lastPacketNumber (epochDelta -u64 1) in
  let prevEpochBegin := epoch -u64 epochDelta in
  let nextEpochBegin := epoch +u64 epochDelta in
  closestTo (lastPacketNumber +u64 1)
    (epoch +u64 wirePacketNumber)
    (closestTo (lastPacketNumber +u64 1)
       (prevEpochBegin +u64 wirePacketNumber) (nextEpochBegin +u64 wirePacketNumber)).

Definition GetPacketNumberLengthForPublicHeader (packetNumber leastUnacked : Z) : Z :=
  let diff := packetNumber -u64 leastUnacked in
  if diff <? Z.shiftl 2 (PacketNumberLen2 * 8 - 2) then PacketNumberLen2
  else if diff <? Z.shiftl 2 (PacketNumberLen4 * 8 - 2) then PacketNumberLen4
  else PacketNumberLen6.

Definition GetPacketNumberLength (packetNumber : Z) : Z :=
  if packetNumber <? Z.shiftl 1 (PacketNumberLen1 * 8) then PacketNumberLen1
  else if packetNumber <? Z.shiftl 1 (PacketNumberLen2 * 8) then PacketNumberLen2
  else if packetNumber <? Z.shiftl 1 (PacketNumberLen4 * 8) then PacketNumberLen4
  else PacketNumberLen6.

(** ** version.go *)

Inductive Perspective : Type := PerspectiveServer | PerspectiveClient.

#[export] Instance Perspective_eq_dec : EqDecision Perspective.
Proof. solve_decision. Defined.

Definition VersionWhatever : Z := 0.
Definition VersionUnsupported : Z := -1.
Definition VersionUnknown : Z := -2.
Definition Version37 : Z := 37.
Definition Version38 : Z := 38.
Definition VersionTLS : Z := 101.
Definition VersionMP : Z := 512.

(** The versions a server supports, the preferred one first. *)
Definition DefaultSupportedVersions : list Z := [VersionMP; Version39; Version38; Version37].

Definition UsesTLS (vn : Z) : bool := vn =? VersionTLS.

Definition VersionNumberToTag (vn : Z) : Z :=
  let v := u32 vn in
  u32 (81 + Z.shiftl (v / 100 mod 10 + 48) 8 + Z.shiftl (v / 10 mod 10 + 48) 16
       + Z.shiftl (v mod 10 + 48) 24).

Definition VersionTagToNumber (v : Z) : Z :=
  u32 (u32 (Z.land (Z.shiftr v 8) 255 - 48) * 100
       + u32 (Z.land (Z.shiftr v 16) 255 - 48) * 10
       + (Z.land (Z.shiftr v 24) 255 - 48)).

Definition IsSupportedVersion (supported : list Z) (v : Z) : bool :=
  existsb (λ t, t =? v) supported.

Fixpoint ChooseSupportedVersion (ours theirs : list Z) : Z :=
  match ours with
  | [] => VersionUnsupported
  | ourVer :: ours =>
      if existsb (λ theirVer, ourVer =? theirVer) theirs then ourVer
      else ChooseSupportedVersion ours theirs
  end.

(** ** Lemmas *)

Lemma delta_abs a b : is_u64 a → is_u64 b → delta a b = Z.abs (a - b).
Proof. intros. unfold delta. destruct (Z.ltb_spec a b); zwrap. Qed.

Lemma ldiff_ones a k : 0 <= k → Z.ldiff a (2^k - 1) = a / 2^k * 2^k.
Proof.
  intros. replace (2^k - 1) with (Z.ones k) by (rewrite Z.ones_equiv; lia).
  rewrite Z.ldiff_ones_r, Z.shiftr_div_pow2, Z.shiftl_mul_pow2; lia.
Qed.

(** The three candidates, as integers: the middle epoch, or the nearest of its neighbours. *)
Lemma closestTo_unique target p a b :
  is_u64 target → is_u64 p → is_u64 a → is_u64 b →
  Z.abs (target - p) < Z.abs (target - a) ∨ a = p →
  Z.abs (target - p) < Z.abs (target - b) ∨ b = p →
  a = p ∨ b = p → closestTo target a b = p.
Proof.
  intros Ht Hp Ha Hb H1 H2 H3. unfold closestTo. rewrite !delta_abs by done.
  destruct (Z.ltb_spec (Z.abs (target - a)) (Z.abs (target - b))); lia.
Qed.

Lemma closestTo_either target a b : closestTo target a b = a ∨ closestTo target a b = b.
Proof. unfold closestTo. case_ifs; auto. Qed.

Definition valid_pn_len (len : Z) : Prop := len = 1 ∨ len = 2 ∨ len = 4 ∨ len = 6.

Lemma infer_arith D target p q e :
  0 < D <= 2^48 → is_u64 target → target <= 2^62 →
  0 <= q → e = q * D → e <= target <= e + D →
  0 <= p <= 2^62 → 2 * Z.abs (p - target) < D →
  closestTo target (u64 (e + p mod D))
    (closestTo target (u64 (u64 (e - D) + p mod D)) (u64 (u64 (e + D) + p mod D))) = p.
Proof.
  intros HD Ht Htl Hq He' He Hp Hc.
  pose proof (Z.div_mod p D ltac:(lia)) as Hdm. pose proof (Z.mod_pos_bound p D ltac:(lia)) as Hm.
  assert (0 <= p / D) as Hk0 by (apply Z.div_pos; lia).
  set (w := p mod D) in *. set (k := p / D) in *.
  assert (e <= 2^62) as Hemax by lia. assert (0 <= e) as He0 by nia.
  assert (p = e + (k - q) * D + w) as Hpe by (rewrite He'; lia).
  assert (k - q = -1 ∨ k - q = 0 ∨ k - q = 1) as Hk.
  { destruct (Z_lt_le_dec (k - q) (-1)).
    { assert ((k - q) * D <= -2 * D) by (apply Z.mul_le_mono_nonneg_r; lia). lia. }
    destruct (Z_lt_le_dec 1 (k - q)); [|lia].
    assert (2 * D <= (k - q) * D) by (apply Z.mul_le_mono_nonneg_r; lia). lia. }
  assert (u64 (e + w) = e + w) as -> by (apply u64_id; unfold is_u64; lia).
  assert (u64 (u64 (e + D) + w) = e + D + w) as ->.
  { rewrite (u64_id (e + D)), u64_id; [done|unfold is_u64; lia..]. }
  assert (u64 (u64 (e - D) + w) = e - D + w ∧ D <= e ∨
          (q = 0 ∧ u64 (u64 (e - D) + w) = 2^64 - D + w)) as Hprev.
  { destruct (decide (q = 0)) as [Hq0|].
    - right. split; [done|]. assert (e = 0) as -> by (rewrite He', Hq0; lia). unfold u64.
      rewrite Zplus_mod_idemp_l. rewrite <- (Z.mod_small (2^64 - D + w) (2^64)) by lia.
      rewrite <- (Z.mod_add (0 - D + w) 1) by lia. f_equal. lia.
    - left. assert (1 * D <= q * D) by (apply Z.mul_le_mono_nonneg_r; lia).
      rewrite (u64_id (e - D)), u64_id; [split; [done|lia]|unfold is_u64; lia..]. }
  set (prev := u64 (u64 (e - D) + w)) in *.
  assert (is_u64 prev) by apply u64_range. clearbody prev.
  assert (is_u64 p ∧ is_u64 (e + w) ∧ is_u64 (e + D + w)) as (?&?&?) by (unfold is_u64; lia).
  destruct Hk as [Hk|[Hk|Hk]]; rewrite Hk in Hpe; clear He' Hdm.
  - assert (prev = p) as -> by lia.
    rewrite (closestTo_unique target p p (e + D + w));
      [apply closestTo_unique|..]; try done; first [left; lia|by right|auto].
  - assert (e + w = p) as Hqp by lia.
    destruct (closestTo_either target prev (e + D + w)) as [->| ->];
      apply closestTo_unique; try done; rewrite ?Hqp; first [by right|left; lia|auto].
  - assert (e + D + w = p) as -> by lia.
    rewrite (closestTo_unique target p prev p);
      [apply closestTo_unique|..]; try done; first [left; lia|by right|auto].
Qed.

Lemma InferPacketNumber_ok len last p :
  valid_pn_len len → 0 <= last < 2^62 → 0 <= p <= 2^62 →
  2 * Z.abs (p - (last + 1)) < 2^(8 * len) →
  InferPacketNumber len last (p mod 2^(8 * len)) = p.
Proof.
  intros Hlen Hlast Hp Hc. unfold InferPacketNumber.
  assert (u64 (Z.shiftl 1 (u8 (len * 8))) = 2^(8 * len)) as HD.
  { destruct Hlen as [->|[->|[->| ->]]]; done. }
  assert (0 < 2^(8 * len) <= 2^48) as Hr
    by (split; [lia|apply Z.pow_le_mono_r; destruct Hlen as [->|[->|[->| ->]]]; lia]).
  assert (0 <= 8 * len) by (destruct Hlen as [->|[->|[->| ->]]]; lia).
  rewrite HD, (u64_id (2^(8 * len) - 1)), ldiff_ones by (unfold is_u64; lia).
  rewrite (u64_id (last + 1)) by (unfold is_u64; lia).
  pose proof (Z.div_mod last (2^(8 * len)) ltac:(lia)).
  pose proof (Z.mod_pos_bound last (2^(8 * len)) ltac:(lia)).
  apply (infer_arith (2^(8 * len)) (last + 1) p (last / 2^(8 * len)));
    [lia|unfold is_u64; lia|lia|apply Z.div_pos; lia|done|lia|lia|lia].
Qed.

Lemma land_255 x : Z.land x 255 = x mod 2^8.
Proof. change 255 with (Z.ones 8). apply Z.land_ones. lia. Qed.

(** ** Properties *)

(** A receiver that has seen the peer's least unacknowledged packet number (or a later one
    that is not 2^15 ahead) reconstructs the exact packet number from the truncated number the
    sender chose for the public header, as long as less than 2^47 packets are in flight. *)
Theorem packet_number_roundtrip (pn leastUnacked last : Z) :
  0 <= leastUnacked <= pn → pn <= 2^62 → pn - leastUnacked < 2^47 →
  leastUnacked <= last + 1 → 0 <= last < 2^62 → last + 1 - pn < 2^15 →
  let len := GetPacketNumberLengthForPublicHeader pn leastUnacked in
  InferPacketNumber len last (pn mod 2^(8 * len)) = pn.
Proof.
  intros Hlu Hpn Hfl Hseen Hlast Hre len.
  assert (pn -u64 leastUnacked = pn - leastUnacked) as Hd by (apply u64_id; unfold is_u64; lia).
  assert (valid_pn_len len ∧ pn - leastUnacked < 2^(8 * len - 1) ∧ 2 <= len) as (Hv & Hlt & H2).
  { unfold len, GetPacketNumberLengthForPublicHeader. rewrite Hd.
    change (Z.shiftl 2 (PacketNumberLen2 * 8 - 2)) with (2^15).
    change (Z.shiftl 2 (PacketNumberLen4 * 8 - 2)) with (2^31).
    unfold valid_pn_len, PacketNumberLen2, PacketNumberLen4, PacketNumberLen6.
    destruct (Z.ltb_spec (pn - leastUnacked) (2^15)); [lia|].
    destruct (Z.ltb_spec (pn - leastUnacked) (2^31)); lia. }
  apply InferPacketNumber_ok; [done..|lia|].
  assert (2^(8 * len) = 2 * 2^(8 * len - 1)) as -> by (rewrite <- Z.pow_succ_r by lia; f_equal; lia).
  assert (2^15 <= 2^(8 * len - 1)) by (apply Z.pow_le_mono_r; lia). lia.
Qed.

Lemma packet_number_roundtrip_witness :
  let len := GetPacketNumberLengthForPublicHeader 70001 69000 in
  InferPacketNumber len 70500 (70001 mod 2^(8 * len)) = 70001.
Proof. apply (packet_number_roundtrip 70001 69000 70500); lia. Defined.

(** [GetPacketNumberLength] picks the smallest of the four lengths that holds the number. *)
Theorem packet_number_length_minimal (pn len : Z) :
  0 <= pn < 2^48 → valid_pn_len len →
  valid_pn_len (GetPacketNumberLength pn) ∧ pn < 2^(8 * GetPacketNumberLength pn) ∧
  (pn < 2^(8 * len) → GetPacketNumberLength pn <= len).
Proof.
  intros Hpn Hlen. unfold GetPacketNumberLength, valid_pn_len in *.
  change (Z.shiftl 1 (PacketNumberLen1 * 8)) with (2^8).
  change (Z.shiftl 1 (PacketNumberLen2 * 8)) with (2^16).
  change (Z.shiftl 1 (PacketNumberLen4 * 8)) with (2^32).
  unfold PacketNumberLen1, PacketNumberLen2, PacketNumberLen4, PacketNumberLen6.
  destruct (Z.ltb_spec pn (2^8)); [|destruct (Z.ltb_spec pn (2^16))];
    [| |destruct (Z.ltb_spec pn (2^32))]; destruct Hlen as [->|[->|[->| ->]]];
    cbn [Z.mul Pos.mul]; lia.
Qed.

Lemma packet_number_length_minimal_witness :
  valid_pn_len (GetPacketNumberLength 70000) ∧ 70000 < 2^(8 * GetPacketNumberLength 70000) ∧
  (70000 < 2^(8 * 4) → GetPacketNumberLength 70000 <= 4).
Proof. apply (packet_number_length_minimal 70000 4); [lia|right; right; left; done]. Defined.

Lemma version_tag_id (vn : Z) :
  0 <= vn < 1000 → VersionTagToNumber (VersionNumberToTag vn) = vn.
Proof.
  intros Hv. unfold VersionTagToNumber, VersionNumberToTag.
  rewrite (u32_id vn) by (unfold is_u32; lia). rewrite !Z.shiftl_mul_pow2 by lia.
  set (a := vn / 100 mod 10). set (b := vn / 10 mod 10). set (c := vn mod 10).
  assert (0 <= a < 10 ∧ 0 <= b < 10 ∧ 0 <= c < 10 ∧ vn = 100 * a + 10 * b + c) as (?&?&?&?)
    by (unfold a, b, c; zwrap).
  clearbody a b c. set (t := 81 + (a + 48) * 2^8 + (b + 48) * 2^16 + (c + 48) * 2^24).
  rewrite (u32_id t), !land_255, !Z.shiftr_div_pow2 by (unfold is_u32, t; lia).
  assert (t / 2^8 mod 2^8 = a + 48) as -> by (unfold t; zwrap).
  assert (t / 2^16 mod 2^8 = b + 48) as -> by (unfold t; zwrap).
  assert (t / 2^24 mod 2^8 = c + 48) as -> by (unfold t; zwrap).
  zwrap.
Qed.

(** The four-character tag of a three-digit version number is read back as that number. *)
Theorem version_tag_roundtrip (vn : Z) :
  0 <= vn < 1000 → VersionTagToNumber (VersionNumberToTag vn) = vn.
Proof. apply version_tag_id. Qed.

Lemma version_tag_roundtrip_witness : VersionTagToNumber (VersionNumberToTag 512) = 512.
Proof. apply (version_tag_roundtrip 512). lia. Defined.

(** Version negotiation picks our most preferred version among those the peer offers, and
    answers [VersionUnsupported] only when there is none. *)
Theorem choose_supported_version (ours theirs : list Z) :
  (∃ pre v post, ours = pre ++ v :: post ∧ v ∈ theirs ∧
     (∀ w, w ∈ pre → w ∉ theirs) ∧ ChooseSupportedVersion ours theirs = v) ∨
  (∀ w, w ∈ ours → w ∉ theirs) ∧ ChooseSupportedVersion ours theirs = VersionUnsupported.
Proof.
  assert (∀ o, existsb (λ t, o =? t) theirs = true ↔ o ∈ theirs) as Hin.
  { intros o. rewrite existsb_exists, list_elem_of_In. split.
    - intros (x & ? & ->%Z.eqb_eq). done.
    - intros. exists o. by rewrite Z.eqb_refl. }
  induction ours as [|o ours IH]; [right; set_solver|]. simpl.
  destruct (existsb (λ t, o =? t) theirs) eqn:E.
  { left. exists [], o, ours. rewrite Hin in E. set_solver. }
  assert (o ∉ theirs) as Ho by (rewrite <- Hin, E; done).
  destruct IH as [(pre & v & post & -> & Hv & Hpre & ->)|[Hd ->]].
  - left. exists (o :: pre), v, post. set_solver.
  - right. set_solver.
Qed.
