(* ===== verification/Frames.v ===== *)
(** * Control frames

    internal/wire: the RST_STREAM, WINDOW_UPDATE, BLOCKED, GOAWAY,
    CONNECTION_CLOSE, PING, STOP_WAITING, PATHS and ADD_ADDRESS frames.  Each
    frame is a record with the Go struct's fields, a writer (the bytes appended
    to the buffer, or the error), a parser (a reader) and its [MinLength]. *)

From S2P Require Import Prelude ByteOrder Protocol.

(** ** qerr/error_codes.go *)

Definition InvalidStreamData : Z := 46.
Definition InvalidRstStreamData : Z := 6.
Definition InvalidConnectionCloseData : Z := 7.
Definition InvalidGoawayData : Z := 8.
Definition InvalidAckData : Z := 9.
Definition InvalidVersionNegotiationPacket : Z := 10.
Definition InvalidPacketHeader : Z := 3.
Definition InvalidFrameData : Z := 4.
Definition InvalidWindowUpdateData : Z := 57.
Definition InvalidBlockedData : Z := 58.
Definition InvalidStopWaitingData : Z := 60.
Definition UnencryptedStreamData : Z := 61.
Definition MissingPayload : Z := 48.
Definition EmptyStreamFrameNoFin : Z := 50.
Definition DecryptionFailure : Z := 12.

(** ** frame.go: what every frame offers *)

Class Frame (A : Type) : Type := {
  Write : A → Z → result (list Z);
  MinLength : A → Z → result Z;
}.

(** ** rst_stream_frame.go *)

Record RstStreamFrame : Type := {
  rst_StreamID : Z;
  rst_ErrorCode : Z;
  rst_ByteOffset : Z;
}.

Definition RstStreamFrame_Write (f : RstStreamFrame) (version : Z) : result (list Z) :=
  let bo := GetByteOrder version in
  Ok ([1] ++ WriteUint32 bo (rst_StreamID f) ++ WriteUint64 bo (rst_ByteOffset f)
          ++ WriteUint32 bo (rst_ErrorCode f)).

Definition RstStreamFrame_MinLength (f : RstStreamFrame) (version : Z) : result Z :=
  Ok (1 + 4 + 8 + 4).

Definition ParseRstStreamFrame (version : Z) : reader RstStreamFrame :=
  _ ← ReadByte;
  sid ← ReadUint32 (GetByteOrder version);
  byteOffset ← ReadUint64 (GetByteOrder version);
  errorCode ← ReadUint32 (GetByteOrder version);
  mret {| rst_StreamID := sid; rst_ErrorCode := errorCode; rst_ByteOffset := byteOffset |}.

(** ** window_update_frame.go *)

Record WindowUpdateFrame : Type := {
  wu_StreamID : Z;
  wu_ByteOffset : Z;
}.

Definition WindowUpdateFrame_Write (f : WindowUpdateFrame) (version : Z) : result (list Z) :=
  let bo := GetByteOrder version in
  Ok ([4] ++ WriteUint32 bo (wu_StreamID f) ++ WriteUint64 bo (wu_ByteOffset f)).

Definition WindowUpdateFrame_MinLength (f : WindowUpdateFrame) (version : Z) : result Z :=
  Ok (1 + 4 + 8).

Definition ParseWindowUpdateFrame (version : Z) : reader WindowUpdateFrame :=
  _ ← ReadByte;
  sid ← ReadUint32 (GetByteOrder version);
  byteOffset ← ReadUint64 (GetByteOrder version);
  mret {| wu_StreamID := sid; wu_ByteOffset := byteOffset |}.

(** ** blocked_frame.go *)

Record BlockedFrame : Type := { blk_StreamID : Z }.

Definition BlockedFrame_Write (f : BlockedFrame) (version : Z) : result (list Z) :=
  Ok ([5] ++ WriteUint32 (GetByteOrder version) (blk_StreamID f)).

Definition BlockedFrame_MinLength (f : BlockedFrame) (version : Z) : result Z := Ok (1 + 4).

Definition ParseBlockedFrame (version : Z) : reader BlockedFrame :=
  _ ← ReadByte;
  sid ← ReadUint32 (GetByteOrder version);
  mret {| blk_StreamID := sid |}.

(** ** goaway_frame.go *)

Record GoawayFrame : Type := {
  ga_ErrorCode : Z;
  ga_LastGoodStream : Z;
  ga_ReasonPhrase : list Z;
}.

Definition ParseGoawayFrame (version : Z) : reader GoawayFrame :=
  _ ← ReadByte;
  errorCode ← ReadUint32 (GetByteOrder version);
  lastGoodStream ← ReadUint32 (GetByteOrder version);
  reasonPhraseLen ← ReadUint16 (GetByteOrder version);
  if reasonPhraseLen >? u16 MaxPacketSize
  then fail (QuicError InvalidGoawayData "reason phrase too long")
  else
    reasonPhrase ← ReadFull (Z.to_nat reasonPhraseLen);
    mret {| ga_ErrorCode := errorCode; ga_LastGoodStream := lastGoodStream;
            ga_ReasonPhrase := reasonPhrase |}.

Definition GoawayFrame_Write (f : GoawayFrame) (version : Z) : result (list Z) :=
  let bo := GetByteOrder version in
  Ok ([3] ++ WriteUint32 bo (ga_ErrorCode f) ++ WriteUint32 bo (ga_LastGoodStream f)
          ++ WriteUint16 bo (u16 (Z.of_nat (length (ga_ReasonPhrase f))))
          ++ ga_ReasonPhrase f).

Definition GoawayFrame_MinLength (f : GoawayFrame) (version : Z) : result Z :=
  Ok (1 + 4 + 4 + 2 + Z.of_nat (length (ga_ReasonPhrase f))).

(** ** connection_close_frame.go *)

Record ConnectionCloseFrame : Type := {
  cc_ErrorCode : Z;
  cc_ReasonPhrase : list Z;
}.

Definition ParseConnectionCloseFrame (version : Z) : reader ConnectionCloseFrame :=
  _ ← ReadByte;
  errorCode ← ReadUint32 (GetByteOrder version);
  reasonPhraseLen ← ReadUint16 (GetByteOrder version);
  if reasonPhraseLen >? u16 MaxPacketSize
  then fail (QuicError InvalidConnectionCloseData "reason phrase too long")
  else
    reasonPhrase ← ReadFull (Z.to_nat reasonPhraseLen);
    mret {| cc_ErrorCode := errorCode; cc_ReasonPhrase := reasonPhrase |}.

Definition ConnectionCloseFrame_MinLength (f : ConnectionCloseFrame) (version : Z) : result Z :=
  Ok (1 + 4 + 2 + Z.of_nat (length (cc_ReasonPhrase f))).

Definition ConnectionCloseFrame_Write (f : ConnectionCloseFrame) (version : Z) : result (list Z) :=
  let bo := GetByteOrder version in
  let n := Z.of_nat (length (cc_ReasonPhrase f)) in
  if n >? 65535 then Err (ErrorString "ConnectionFrame: ReasonPhrase too long") else
  Ok ([2] ++ WriteUint32 bo (cc_ErrorCode f) ++ WriteUint16 bo (u16 n) ++ cc_ReasonPhrase f).

(** ** ping_frame.go *)

Record PingFrame : Type := mkPingFrame {}.

Definition ParsePingFrame (version : Z) : reader PingFrame :=
  _ ← ReadByte; mret mkPingFrame.

Definition PingFrame_Write (f : PingFrame) (version : Z) : result (list Z) := Ok [7].
Definition PingFrame_MinLength (f : PingFrame) (version : Z) : result Z := Ok 1.

(** ** stop_waiting_frame.go *)

Record StopWaitingFrame : Type := {
  sw_LeastUnacked : Z;
  sw_PacketNumberLen : Z;
  sw_PacketNumber : Z;
}.

Definition errLeastUnackedHigherThanPacketNumber : error :=
  ErrorString "StopWaitingFrame: LeastUnacked can't be greater than the packet number".
Definition errPacketNumberNotSet : error :=
  ErrorString "StopWaitingFrame: PacketNumber not set".
Definition errPacketNumberLenNotSet : error :=
  ErrorString "StopWaitingFrame: PacketNumberLen not set".

Definition StopWaitingFrame_Write (f : StopWaitingFrame) (version : Z) : result (list Z) :=
  let bo := GetByteOrder version in
  if sw_PacketNumber f =? 0 then Err errPacketNumberNotSet
  else if sw_LeastUnacked f >? sw_PacketNumber f
  then Err errLeastUnackedHigherThanPacketNumber
  else
    let leastUnackedDelta := sw_PacketNumber f -u64 sw_LeastUnacked f in
    let len := sw_PacketNumberLen f in
    bs ← (if len =? PacketNumberLen1 then Ok [u8 leastUnackedDelta]
          else if len =? PacketNumberLen2 then Ok (WriteUint16 bo (u16 leastUnackedDelta))
          else if len =? PacketNumberLen4 then Ok (WriteUint32 bo (u32 leastUnackedDelta))
          else if len =? PacketNumberLen6
          then WriteUint48 bo (Z.land leastUnackedDelta (Z.shiftl 1 48 - 1))
          else Err errPacketNumberLenNotSet);
    Ok ([6] ++ bs).

Definition StopWaitingFrame_MinLength (f : StopWaitingFrame) (version : Z) : result Z :=
  if sw_PacketNumberLen f =? PacketNumberLenInvalid then Err errPacketNumberLenNotSet
  else Ok (1 + sw_PacketNumberLen f).

Definition ParseStopWaitingFrame (packetNumber packetNumberLen version : Z)
  : reader StopWaitingFrame :=
  _ ← ReadByte;
  leastUnackedDelta ← ReadUintN (GetByteOrder version) packetNumberLen;
  if leastUnackedDelta >=? packetNumber
  then fail (QuicError InvalidStopWaitingData "invalid LeastUnackedDelta")
  else mret {| sw_LeastUnacked := packetNumber -u64 leastUnackedDelta;
               sw_PacketNumberLen := 0; sw_PacketNumber := 0 |}.

(** ** paths_frame.go (RTTs in nanoseconds, as [time.Duration]) *)

Record PathsFrame : Type := {
  pf_MaxNumPaths : Z;
  pf_NumPaths : Z;
  pf_PathIDs : list Z;
  pf_RemoteRTTs : list Z;
}.

Definition ErrTooManyPaths : error :=
  ErrorString "PathsFrame: more paths than the maximum enabled".
Definition ErrPathsNumber : error :=
  ErrorString "PathsFrame: number of paths advertised and # of paths do not match".
Definition ErrMissingRTT : error :=
  ErrorString "PathsFrame: number of paths IDs and number of remote RTTs do not match".

(** time.Microsecond *)
Definition Microsecond : Z := 1000.

Fixpoint PathsFrame_Write_loop (bo : ByteOrder) (ids rtts : list Z) : list Z :=
  match ids, rtts with
  | id :: ids, rtt :: rtts =>
      u8 id :: WriteUfloat16 bo (u64 (Z.quot rtt Microsecond)) ++ PathsFrame_Write_loop bo ids rtts
  | _, _ => []
  end.

Definition PathsFrame_Write (f : PathsFrame) (version : Z) : result (list Z) :=
  if negb (pf_NumPaths f =? Z.of_nat (length (pf_PathIDs f))) then Err ErrPathsNumber
  else if negb (length (pf_PathIDs f) =? length (pf_RemoteRTTs f))%nat then Err ErrMissingRTT
  else Ok ([18; pf_MaxNumPaths f; pf_NumPaths f]
           ++ PathsFrame_Write_loop (GetByteOrder version) (pf_PathIDs f) (pf_RemoteRTTs f)).

Fixpoint ParsePathsFrame_loop (bo : ByteOrder) (n : nat) (ids rtts : list Z)
  : reader (list Z * list Z) :=
  match n with
  | O => mret (ids, rtts)
  | S n =>
      pathID ← ReadByte;
      remoteRTT ← ReadUfloat16 bo;
      ParsePathsFrame_loop bo n (ids ++ [pathID]) (rtts ++ [remoteRTT * Microsecond])
  end.

Definition ParsePathsFrame (version : Z) : reader PathsFrame :=
  _ ← ReadByte;
  maxNum ← ReadByte;
  num ← ReadByte;
  if num >? maxNum then fail ErrTooManyPaths
  else
    '(ids, rtts) ← ParsePathsFrame_loop (GetByteOrder version) (Z.to_nat num) [] [];
    mret {| pf_MaxNumPaths := maxNum; pf_NumPaths := num;
            pf_PathIDs := ids; pf_RemoteRTTs := rtts |}.

(** The sum is computed in uint8 before the conversion. *)
Definition PathsFrame_MinLength (f : PathsFrame) (version : Z) : result Z :=
  Ok (u8 (1 + 1 + 1 + u8 (3 * pf_NumPaths f))).

(** ** add_address_frame.go

    [net.IP] is a byte slice of length 4 or 16 (or another length, for a
    malformed address); [To4], [To16] and [net.IPv4] are those of package net. *)

Record AddAddressFrame : Type := {
  aa_IPVersion : Z;
  aa_IP : list Z;
  aa_Port : Z;
}.

Definition ErrUnknownIPVersion : error := ErrorString "AddAddressFrame: unknown IP version".
Definition errInconsistentAddrIPVersion : error :=
  ErrorString "internal inconsistency: Addr does not match IP version".

Definition v4InV6Prefix : list Z := [0; 0; 0; 0; 0; 0; 0; 0; 0; 0; 255; 255].

Definition To4 (ip : list Z) : option (list Z) :=
  if (length ip =? 4)%nat then Some ip
  else if (length ip =? 16)%nat && bool_decide (take 12 ip = v4InV6Prefix)
  then Some (drop 12 ip)
  else None.

Definition To16 (ip : list Z) : option (list Z) :=
  if (length ip =? 4)%nat then Some (v4InV6Prefix ++ ip)
  else if (length ip =? 16)%nat then Some ip
  else None.

Definition AddAddressFrame_Write (f : AddAddressFrame) (version : Z) : result (list Z) :=
  ip ← (if aa_IPVersion f =? 4 then
          match To4 (aa_IP f) with
          | None => Err errInconsistentAddrIPVersion
          | Some ip => Ok (take 4 ip)
          end
        else if aa_IPVersion f =? 6 then
          match To16 (aa_IP f) with
          | None => Err errInconsistentAddrIPVersion
          | Some ip => Ok (take 16 ip)
          end
        else Err ErrUnknownIPVersion);
  Ok ([16; aa_IPVersion f] ++ ip ++ WriteUint16 (GetByteOrder version) (u16 (aa_Port f))).

(** The loop that reads the 16 bytes of an IPv6 address one by one. *)
Fixpoint ReadBytes (n : nat) : reader (list Z) :=
  match n with
  | O => mret []
  | S n => b ← ReadByte; l ← ReadBytes n; mret (b :: l)
  end.

Definition ParseAddAddressFrame (version : Z) : reader AddAddressFrame :=
  _ ← ReadByte;
  ipv ← ReadByte;
  ip ← (if ipv =? 4 then
          a ← ReadByte; b ← ReadByte; c ← ReadByte; d ← ReadByte;
          mret (v4InV6Prefix ++ [a; b; c; d])
        else if ipv =? 6 then ReadBytes 16
        else fail ErrUnknownIPVersion);
  port ← ReadUint16 (GetByteOrder version);
  mret {| aa_IPVersion := ipv; aa_IP := ip; aa_Port := port |}.

Definition AddAddressFrame_MinLength (f : AddAddressFrame) (version : Z) : result Z :=
  if aa_IPVersion f =? 4 then Ok (1 + 1 + 4 + 2)
  else if aa_IPVersion f =? 6 then Ok (1 + 1 + 16 + 2)
  else Err ErrUnknownIPVersion.

(** ** The frames as instances of the interface *)

#[export] Instance RstStreamFrame_frame : Frame RstStreamFrame :=
  { Write := RstStreamFrame_Write; MinLength := RstStreamFrame_MinLength }.
#[export] Instance WindowUpdateFrame_frame : Frame WindowUpdateFrame :=
  { Write := WindowUpdateFrame_Write; MinLength := WindowUpdateFrame_MinLength }.
#[export] Instance BlockedFrame_frame : Frame BlockedFrame :=
  { Write := BlockedFrame_Write; MinLength := BlockedFrame_MinLength }.
#[export] Instance GoawayFrame_frame : Frame GoawayFrame :=
  { Write := GoawayFrame_Write; MinLength := GoawayFrame_MinLength }.
#[export] Instance ConnectionCloseFrame_frame : Frame ConnectionCloseFrame :=
  { Write := ConnectionCloseFrame_Write; MinLength := ConnectionCloseFrame_MinLength }.
#[export] Instance PingFrame_frame : Frame PingFrame :=
  { Write := PingFrame_Write; MinLength := PingFrame_MinLength }.
#[export] Instance StopWaitingFrame_frame : Frame StopWaitingFrame :=
  { Write := StopWaitingFrame_Write; MinLength := StopWaitingFrame_MinLength }.
#[export] Instance PathsFrame_frame : Frame PathsFrame :=
  { Write := PathsFrame_Write; MinLength := PathsFrame_MinLength }.
#[export] Instance AddAddressFrame_frame : Frame AddAddressFrame :=
  { Write := AddAddressFrame_Write; MinLength := AddAddressFrame_MinLength }.

(** ** Well-formed frames: the values Go's types and the format allow *)

Definition phrase_ok (l : list Z) : Prop :=
  bytes_ok l ∧ Z.of_nat (length l) <= MaxPacketSize.

Definition RstStreamFrame_ok (f : RstStreamFrame) : Prop :=
  is_u32 (rst_StreamID f) ∧ is_u32 (rst_ErrorCode f) ∧ is_u64 (rst_ByteOffset f).
Definition WindowUpdateFrame_ok (f : WindowUpdateFrame) : Prop :=
  is_u32 (wu_StreamID f) ∧ is_u64 (wu_ByteOffset f).
Definition BlockedFrame_ok (f : BlockedFrame) : Prop := is_u32 (blk_StreamID f).
Definition GoawayFrame_ok (f : GoawayFrame) : Prop :=
  is_u32 (ga_ErrorCode f) ∧ is_u32 (ga_LastGoodStream f) ∧ phrase_ok (ga_ReasonPhrase f).
Definition ConnectionCloseFrame_ok (f : ConnectionCloseFrame) : Prop :=
  is_u32 (cc_ErrorCode f) ∧ phrase_ok (cc_ReasonPhrase f).

(** ** Lemmas *)

(** Normalise the bytes a writer produced to reference encodings. *)
Ltac wire_norm :=
  cbn [app]; rewrite ?write_16, ?write_32, ?write_64, <- ?app_assoc; cbn [app].

#[export] Hint Resolve enc_bytes : quic.
#[export] Hint Resolve ReadUint16_enc ReadUint32_enc ReadUint64_enc ReadByte_cons ReadFull_app
  : wire.

(** Run the next read of a parser on bytes that start with what it expects. *)
Ltac rrun :=
  repeat (erewrite rbind_ok by (solve [eauto 8 with wire quic])).

Lemma ReadBytes_app n l s : length l = n → ReadBytes n (l ++ s) = Ok (l, s).
Proof.
  revert l. induction n as [|n IH]; intros [|b l] Hl; simplify_eq/=; [done|].
  rstep. by rewrite (rbind_ok _ _ _ _ _ (IH l eq_refl)).
Qed.

Section Roundtrips.
Context (v : Z).

Lemma rst_stream_rt f s :
  RstStreamFrame_ok f → bytes_ok s →
  ∃ bs, RstStreamFrame_Write f v = Ok bs ∧ ParseRstStreamFrame v (bs ++ s) = Ok (f, s).
Proof.
  intros (?&?&?) Hs. eexists. split; [done|]. wire_norm. unfold ParseRstStreamFrame.
  rrun. by destruct f.
Qed.

Lemma window_update_rt f s :
  WindowUpdateFrame_ok f → bytes_ok s →
  ∃ bs, WindowUpdateFrame_Write f v = Ok bs ∧ ParseWindowUpdateFrame v (bs ++ s) = Ok (f, s).
Proof.
  intros (?&?) Hs. eexists. split; [done|]. wire_norm. unfold ParseWindowUpdateFrame.
  rrun. by destruct f.
Qed.

Lemma blocked_rt f s :
  BlockedFrame_ok f → bytes_ok s →
  ∃ bs, BlockedFrame_Write f v = Ok bs ∧ ParseBlockedFrame v (bs ++ s) = Ok (f, s).
Proof.
  intros ? Hs. eexists. split; [done|]. wire_norm. unfold ParseBlockedFrame.
  rrun. by destruct f.
Qed.

Lemma ping_rt f s :
  ∃ bs, PingFrame_Write f v = Ok bs ∧ ParsePingFrame v (bs ++ s) = Ok (f, s).
Proof. eexists. split; [done|]. by destruct f. Qed.

Lemma goaway_rt f s :
  GoawayFrame_ok f → bytes_ok s →
  ∃ bs, GoawayFrame_Write f v = Ok bs ∧ ParseGoawayFrame v (bs ++ s) = Ok (f, s).
Proof.
  destruct f as [ec lg ph]. intros (?&?&Hb&Hl) Hs. simpl in *. eexists. split; [done|].
  simpl. wire_norm. unfold ParseGoawayFrame. rrun.
  rewrite (u16_id (Z.of_nat _)) by (unfold is_u16, MaxPacketSize in *; lia).
  rewrite Z.gtb_ltb. destruct (Z.ltb_spec (u16 MaxPacketSize) (Z.of_nat (length ph)));
    [exfalso; change (u16 MaxPacketSize) with MaxPacketSize in *; lia|].
  erewrite rbind_ok by (apply ReadFull_app; lia). done.
Qed.

Lemma connection_close_rt f s :
  ConnectionCloseFrame_ok f → bytes_ok s →
  ∃ bs, ConnectionCloseFrame_Write f v = Ok bs ∧
        ParseConnectionCloseFrame v (bs ++ s) = Ok (f, s).
Proof.
  destruct f as [ec ph]. intros (?&Hb&Hl) Hs. simpl in *.
  unfold ConnectionCloseFrame_Write. simpl. rewrite Z.gtb_ltb.
  destruct (Z.ltb_spec 65535 (Z.of_nat (length ph))); [unfold MaxPacketSize in *; lia|].
  eexists. split; [done|]. wire_norm. unfold ParseConnectionCloseFrame. rrun.
  rewrite (u16_id (Z.of_nat _)) by (unfold is_u16, MaxPacketSize in *; lia).
  rewrite Z.gtb_ltb. destruct (Z.ltb_spec (u16 MaxPacketSize) (Z.of_nat (length ph)));
    [exfalso; change (u16 MaxPacketSize) with MaxPacketSize in *; lia|].
  erewrite rbind_ok by (apply ReadFull_app; lia). done.
Qed.

(** What a writer of a number of [n] bytes appends, for the lengths of a packet number. *)
Lemma write_pn_len len x :
  valid_pn_len len → 0 <= x < 2^(8 * len) →
  (if len =? PacketNumberLen1 then Ok [u8 x]
   else if len =? PacketNumberLen2 then Ok (WriteUint16 (GetByteOrder v) (u16 x))
   else if len =? PacketNumberLen4 then Ok (WriteUint32 (GetByteOrder v) (u32 x))
   else if len =? PacketNumberLen6
   then WriteUint48 (GetByteOrder v) (Z.land x (Z.shiftl 1 48 - 1))
   else Err errPacketNumberLenNotSet)
  = Ok (enc (bo := GetByteOrder v) (Z.to_nat len) x).
Proof.
  change (Z.shiftl 1 48 - 1) with (Z.ones 48).
  intros [->|[->|[->| ->]]] Hx; cbn -[Z.pow Z.ones Z.land] in *.
  - by rewrite enc_1.
  - rewrite write_16, u16_id; done.
  - rewrite write_32, u32_id; done.
  - rewrite write_48.
    rewrite Z.land_ones, Z.mod_small by lia. destruct (Z.ltb_spec x (2^48)); [done|lia].
Qed.

Lemma stop_waiting_rt f s :
  valid_pn_len (sw_PacketNumberLen f) → is_u64 (sw_PacketNumber f) →
  0 < sw_LeastUnacked f <= sw_PacketNumber f →
  sw_PacketNumber f - sw_LeastUnacked f < 2^(8 * sw_PacketNumberLen f) → bytes_ok s →
  ∃ bs, StopWaitingFrame_Write f v = Ok bs ∧
        ParseStopWaitingFrame (sw_PacketNumber f) (sw_PacketNumberLen f) v (bs ++ s)
        = Ok ({| sw_LeastUnacked := sw_LeastUnacked f; sw_PacketNumberLen := 0;
                 sw_PacketNumber := 0 |}, s).
Proof.
  destruct f as [lu len pn]. simpl. intros Hlen Hpn Hlu Hd Hs. unfold is_u64 in Hpn.
  unfold StopWaitingFrame_Write. simpl.
  destruct (Z.eqb_spec pn 0); [lia|]. rewrite Z.gtb_ltb. destruct (Z.ltb_spec pn lu); [lia|].
  assert (pn -u64 lu = pn - lu) as -> by (apply u64_id; unfold is_u64; lia).
  rewrite write_pn_len by (done || lia). eexists. split; [done|].
  unfold ParseStopWaitingFrame. cbn [app]. rstep.
  assert (len = Z.of_nat (Z.to_nat len)) as Hn by (destruct Hlen as [->|[->|[->| ->]]]; done).
  rewrite Hn at 1. erewrite rbind_ok.
  2:{ apply read_enc; [destruct Hlen as [->|[->|[->| ->]]]; lia|]. rewrite <- Hn. lia. }
  rewrite Z.geb_leb. destruct (Z.leb_spec pn (pn - lu)); [lia|].
  replace (pn - (pn - lu)) with lu by lia. by rewrite u64_id by (unfold is_u64; lia).
Qed.
End Roundtrips.

(** ** PATHS *)

(** What survives of a round-trip time on the wire: microseconds, as a 16-bit float. *)
Definition wire_rtt (rtt : Z) : Z :=
  ufloat16_value (ufloat16_of (u64 (Z.quot rtt Microsecond))) * Microsecond.

Definition PathsFrame_ok (f : PathsFrame) : Prop :=
  is_u8 (pf_MaxNumPaths f) ∧ pf_NumPaths f <= pf_MaxNumPaths f ∧
  pf_NumPaths f = Z.of_nat (length (pf_PathIDs f)) ∧
  length (pf_PathIDs f) = length (pf_RemoteRTTs f) ∧ bytes_ok (pf_PathIDs f).

Lemma PathsFrame_loop_bytes bo `{!ByteOrderLaws bo} ids rtts :
  bytes_ok (PathsFrame_Write_loop bo ids rtts).
Proof.
  revert rtts. induction ids as [|id ids IH]; intros [|r rtts]; simpl; auto with quic.
  rewrite (WriteUfloat16_enc bo). eauto 6 with quic.
Qed.

Lemma PathsFrame_loop_rt bo `{!ByteOrderLaws bo} ids rtts ids0 rtts0 s :
  length ids = length rtts → bytes_ok ids → bytes_ok s →
  ParsePathsFrame_loop bo (length ids) ids0 rtts0 (PathsFrame_Write_loop bo ids rtts ++ s)
  = Ok ((ids0 ++ ids, rtts0 ++ map wire_rtt rtts), s).
Proof.
  revert rtts ids0 rtts0. induction ids as [|id ids IH]; intros [|r rtts] ids0 rtts0 Hlen Hids Hs;
    simplify_eq/=; [by rewrite !app_nil_r|].
  apply Forall_cons in Hids as [Hid Hids]. rewrite (u8_id id) by done. rstep.
  rewrite (WriteUfloat16_enc bo), <- app_assoc.
  erewrite rbind_ok.
  2:{ apply ReadUfloat16_enc; [apply ufloat16_of_range, u64_range|].
      apply bytes_ok_app; [apply PathsFrame_loop_bytes; done|done]. }
  rewrite IH, <- !app_assoc by done. done.
Qed.

Definition PathsFrame_received (f : PathsFrame) : PathsFrame :=
  {| pf_MaxNumPaths := pf_MaxNumPaths f; pf_NumPaths := pf_NumPaths f;
     pf_PathIDs := pf_PathIDs f; pf_RemoteRTTs := map wire_rtt (pf_RemoteRTTs f) |}.

Lemma paths_rt v f s :
  PathsFrame_ok f → bytes_ok s →
  ∃ bs, PathsFrame_Write f v = Ok bs ∧ bytes_ok bs ∧
    ParsePathsFrame v (bs ++ s) = Ok (PathsFrame_received f, s).
Proof.
  destruct f as [mx n ids rtts]. intros (Hmx & Hle & Hn & Hlen & Hids) Hs. simpl in *.
  unfold PathsFrame_Write. simpl. rewrite Hn, Z.eqb_refl, Hlen, Nat.eqb_refl. simpl.
  unfold is_u8 in Hmx. eexists. split_and!; [done|..].
  - repeat (apply bytes_ok_cons; [unfold is_u8; lia|]). apply PathsFrame_loop_bytes, _.
  - unfold ParsePathsFrame. cbn [app]. erewrite !rbind_ok by apply ReadByte_cons.
    rewrite Z.gtb_ltb. destruct (Z.ltb_spec mx (Z.of_nat (length rtts))); [lia|].
    erewrite rbind_ok by (rewrite Nat2Z.id, <- Hlen; by apply PathsFrame_loop_rt; [apply _|..]).
    done.
Qed.

(** A PATHS frame is parsed back with the same path identifiers and its round-trip times
    rounded to the wire format; the RTTs below 4096 us that are whole microseconds are exact. *)
Theorem paths_frame_roundtrip (v : Z) (f : PathsFrame) (s : list Z) :
  PathsFrame_ok f → bytes_ok s →
  (∃ bs, PathsFrame_Write f v = Ok bs ∧
     ParsePathsFrame v (bs ++ s)
     = Ok ({| pf_MaxNumPaths := pf_MaxNumPaths f; pf_NumPaths := pf_NumPaths f;
              pf_PathIDs := pf_PathIDs f; pf_RemoteRTTs := map wire_rtt (pf_RemoteRTTs f) |}, s)) ∧
  (∀ us, 0 <= us < 2^12 → wire_rtt (us * Microsecond) = us * Microsecond).
Proof.
  intros Hok Hs. split.
  - destruct (paths_rt v f s Hok Hs) as (bs & Hw & _ & Hp). eauto.
  - intros us Hus. unfold wire_rtt. rewrite Z.quot_mul by done.
    rewrite u64_id by (unfold is_u64; lia). rewrite ufloat16_value_of by lia.
    destruct (Z.ltb_spec us (2^12)); [done|lia].
Qed.

Lemma paths_frame_roundtrip_witness :
  ∃ bs, PathsFrame_Write {| pf_MaxNumPaths := 3; pf_NumPaths := 2; pf_PathIDs := [1; 3];
                            pf_RemoteRTTs := [20000; 1500] |} 39 = Ok bs ∧
     ParsePathsFrame 39 (bs ++ [9])
     = Ok ({| pf_MaxNumPaths := 3; pf_NumPaths := 2; pf_PathIDs := [1; 3];
              pf_RemoteRTTs := map wire_rtt [20000; 1500] |}, [9]).
Proof.
  apply (paths_frame_roundtrip 39 {| pf_MaxNumPaths := 3; pf_NumPaths := 2;
    pf_PathIDs := [1; 3]; pf_RemoteRTTs := [20000; 1500] |} [9]).
  - unfold PathsFrame_ok, bytes_ok, is_u8. simpl. split_and!; try lia. repeat constructor; lia.
  - bytes_tac.
Defined.

(** ** ADD_ADDRESS *)

(** Two byte forms of the same address have the same canonical form. *)
Lemma To4_mapped a b c d : To4 (v4InV6Prefix ++ [a; b; c; d]) = Some [a; b; c; d].
Proof. done. Qed.

Lemma To4_length ip ip4 : To4 ip = Some ip4 → length ip4 = 4%nat.
Proof.
  unfold To4. destruct (Nat.eqb_spec (length ip) 4) as [|]; [naive_solver|].
  destruct (Nat.eqb_spec (length ip) 16) as [Hl|]; simpl; [|done].
  case_bool_decide; [|done]. intros [= <-]. rewrite length_drop. lia.
Qed.

Lemma To16_length ip ip6 : To16 ip = Some ip6 → length ip6 = 16%nat.
Proof.
  unfold To16. destruct (Nat.eqb_spec (length ip) 4) as [Hl|].
  { intros [= <-]. simpl. by rewrite Hl. }
  destruct (Nat.eqb_spec (length ip) 16) as [Hl|]; naive_solver.
Qed.

(** The bytes of the address on the wire, if there is one for the version. *)
Definition AddAddressFrame_ip (f : AddAddressFrame) : option (list Z) :=
  if aa_IPVersion f =? 4 then To4 (aa_IP f)
  else if aa_IPVersion f =? 6 then To16 (aa_IP f) else None.

Definition AddAddressFrame_received (f : AddAddressFrame) (ip : list Z) : AddAddressFrame :=
  {| aa_IPVersion := aa_IPVersion f; aa_Port := aa_Port f;
     aa_IP := if aa_IPVersion f =? 4 then v4InV6Prefix ++ ip else ip |}.

Lemma add_address_rt v f ip s :
  is_u16 (aa_Port f) → AddAddressFrame_ip f = Some ip → bytes_ok s →
  ∃ bs, AddAddressFrame_Write f v = Ok ([16; aa_IPVersion f] ++ ip ++ bs) ∧
    ParseAddAddressFrame v (([16; aa_IPVersion f] ++ ip ++ bs) ++ s)
    = Ok (AddAddressFrame_received f ip, s) ∧ bytes_ok bs.
Proof.
  destruct f as [ipv ip0 port]. unfold AddAddressFrame_ip, AddAddressFrame_received. simpl.
  intros Hport E Hs. exists (enc (bo := GetByteOrder v) 2 port).
  unfold AddAddressFrame_Write, ParseAddAddressFrame. cbn [aa_IPVersion aa_IP aa_Port].
  rewrite u16_id, write_16 by done. destruct (Z.eqb_spec ipv 4) as [->|Hn4].
  - rewrite E. pose proof (To4_length _ _ E) as Hl. rewrite take_ge by lia.
    destruct ip as [|a [|b [|c [|d [|]]]]]; simplify_eq/=.
    split_and!; [done| |apply enc_bytes]. repeat rstep. simpl (4 =? 4). cbv iota.
    erewrite rbind_ok by (repeat rstep; done). rrun. done.
  - destruct (Z.eqb_spec ipv 6) as [->|Hn6]; [|done]. rewrite E.
    pose proof (To16_length _ _ E) as Hl. rewrite take_ge by lia.
    split_and!; [done| |apply enc_bytes]. wire_norm. repeat rstep.
    simpl (6 =? 4). simpl (6 =? 6). cbv iota.
    erewrite rbind_ok by (by apply ReadBytes_app). rrun. done.
Qed.

Lemma add_address_refused v f :
  AddAddressFrame_ip f = None → ∃ e, AddAddressFrame_Write f v = Err e.
Proof.
  unfold AddAddressFrame_ip, AddAddressFrame_Write. destruct (aa_IPVersion f =? 4);
    [|destruct (aa_IPVersion f =? 6)]; [intros ->; by eexists..|intros; by eexists].
Qed.

Lemma canonical_same f ip :
  AddAddressFrame_ip f = Some ip →
  (if aa_IPVersion f =? 4 then To4 (aa_IP (AddAddressFrame_received f ip))
   else To16 (aa_IP (AddAddressFrame_received f ip))) = Some ip.
Proof.
  unfold AddAddressFrame_ip, AddAddressFrame_received. simpl. destruct (aa_IPVersion f =? 4).
  - intros E. pose proof (To4_length _ _ E) as Hl.
    destruct ip as [|a [|b [|c [|d [|]]]]]; simplify_eq/=. apply To4_mapped.
  - destruct (aa_IPVersion f =? 6); [|done]. intros E. unfold To16.
    by rewrite (To16_length _ _ E).
Qed.

(** An ADD_ADDRESS frame whose address fits its IP version is parsed back to the same
    version, port and address (in the address's canonical form); every other frame is refused
    by the writer. *)
Theorem add_address_roundtrip (v : Z) (f : AddAddressFrame) (s : list Z) :
  is_u16 (aa_Port f) → bytes_ok s →
  match (if aa_IPVersion f =? 4 then To4 (aa_IP f)
         else if aa_IPVersion f =? 6 then To16 (aa_IP f) else None) with
  | Some ip =>
      ∃ bs g, AddAddressFrame_Write f v = Ok bs ∧ ParseAddAddressFrame v (bs ++ s) = Ok (g, s) ∧
        aa_IPVersion g = aa_IPVersion f ∧ aa_Port g = aa_Port f ∧
        (if aa_IPVersion f =? 4 then To4 (aa_IP g) else To16 (aa_IP g)) = Some ip
  | None => ∃ e, AddAddressFrame_Write f v = Err e
  end.
Proof.
  intros Hport Hs. fold (AddAddressFrame_ip f). destruct (AddAddressFrame_ip f) as [ip|] eqn:E.
  - destruct (add_address_rt v f ip s Hport E Hs) as (bs & Hw & Hp & _). eexists _, _.
    split_and!; [done|done|done|done|]. by apply canonical_same.
  - by apply add_address_refused.
Qed.

Lemma add_address_roundtrip_witness :
  ∃ bs g, AddAddressFrame_Write {| aa_IPVersion := 4; aa_IP := [10; 0; 0; 1]; aa_Port := 6121 |} 39
          = Ok bs ∧ ParseAddAddressFrame 39 (bs ++ []) = Ok (g, []) ∧
        aa_IPVersion g = 4 ∧ aa_Port g = 6121 ∧ To4 (aa_IP g) = Some [10; 0; 0; 1].
Proof.
  apply (add_address_roundtrip 39 {| aa_IPVersion := 4; aa_IP := [10; 0; 0; 1]; aa_Port := 6121 |} []).
  - unfold is_u16. simpl. lia.
  - constructor.
Defined.

(** RST_STREAM, WINDOW_UPDATE, BLOCKED, GOAWAY, CONNECTION_CLOSE and PING frames are parsed
    back unchanged, whatever follows them in the packet. *)
Theorem control_frames_roundtrip (v : Z) (s : list Z) :
  bytes_ok s →
  (∀ f, RstStreamFrame_ok f →
     ∃ bs, Write f v = Ok bs ∧ ParseRstStreamFrame v (bs ++ s) = Ok (f, s)) ∧
  (∀ f, WindowUpdateFrame_ok f →
     ∃ bs, Write f v = Ok bs ∧ ParseWindowUpdateFrame v (bs ++ s) = Ok (f, s)) ∧
  (∀ f, BlockedFrame_ok f →
     ∃ bs, Write f v = Ok bs ∧ ParseBlockedFrame v (bs ++ s) = Ok (f, s)) ∧
  (∀ f, GoawayFrame_ok f →
     ∃ bs, Write f v = Ok bs ∧ ParseGoawayFrame v (bs ++ s) = Ok (f, s)) ∧
  (∀ f, ConnectionCloseFrame_ok f →
     ∃ bs, Write f v = Ok bs ∧ ParseConnectionCloseFrame v (bs ++ s) = Ok (f, s)) ∧
  (∀ f : PingFrame, ∃ bs, Write f v = Ok bs ∧ ParsePingFrame v (bs ++ s) = Ok (f, s)).
Proof.
  intros Hs. split_and!; intros f; eauto using rst_stream_rt, window_update_rt, blocked_rt,
    goaway_rt, connection_close_rt, ping_rt.
Qed.

Lemma control_frames_roundtrip_witness :
  let f := {| wu_StreamID := 5; wu_ByteOffset := 32768 |} in
  ∃ bs, Write f 39 = Ok bs ∧ ParseWindowUpdateFrame 39 (bs ++ [0]) = Ok (f, [0]).
Proof.
  apply (control_frames_roundtrip 39 [0]).
  - apply bytes_ok_cons; [done|constructor].
  - done.
Defined.

(** A STOP_WAITING frame, whose delta is relative to the packet that carries it, is parsed
    back to the least unacknowledged packet number it announces; a frame announcing a number
    above its own packet number is refused by the writer, and a delta that reaches the packet
    number is refused by the parser. *)
Theorem stop_waiting_roundtrip (v : Z) (f : StopWaitingFrame) (s : list Z) :
  is_u64 (sw_PacketNumber f) → bytes_ok s →
  (sw_PacketNumber f <> 0 → sw_PacketNumber f < sw_LeastUnacked f →
     StopWaitingFrame_Write f v = Err errLeastUnackedHigherThanPacketNumber) ∧
  (valid_pn_len (sw_PacketNumberLen f) → 0 < sw_LeastUnacked f <= sw_PacketNumber f →
   sw_PacketNumber f - sw_LeastUnacked f < 2^(8 * sw_PacketNumberLen f) →
   ∃ bs g, StopWaitingFrame_Write f v = Ok bs ∧
     ParseStopWaitingFrame (sw_PacketNumber f) (sw_PacketNumberLen f) v (bs ++ s) = Ok (g, s) ∧
     sw_LeastUnacked g = sw_LeastUnacked f) ∧
  (∀ pn len g s', ParseStopWaitingFrame pn len v s = Ok (g, s') → is_u64 pn →
     valid_pn_len len → 0 < sw_LeastUnacked g <= pn).
Proof.
  intros Hpn Hs. split_and!.
  - intros H0 Hlt. unfold StopWaitingFrame_Write. destruct (Z.eqb_spec (sw_PacketNumber f) 0); [lia|].
    rewrite Z.gtb_ltb. destruct (Z.ltb_spec (sw_PacketNumber f) (sw_LeastUnacked f)); [done|lia].
  - intros Hlen Hlu Hd. destruct (stop_waiting_rt v f s) as (bs & ? & ?); [done..|]. eauto.
  - intros pn len g s' Hp Hu Hlen. unfold ParseStopWaitingFrame in Hp. rinv. simpl. zbool.
    match goal with H : ReadUintN _ _ _ = Ok _ |- _ =>
      replace len with (Z.of_nat (Z.to_nat len)) in H by (destruct Hlen as [->|[->|[->| ->]]]; done);
      apply read_enc_inv in H as [_ ?] end;
      [|destruct Hlen as [->|[->|[->| ->]]]; lia|by inversion Hs].
    unfold is_u64 in Hu. rewrite u64_id by (unfold is_u64; lia). lia.
Qed.

Lemma stop_waiting_roundtrip_witness :
  ∃ bs g, StopWaitingFrame_Write {| sw_LeastUnacked := 90; sw_PacketNumberLen := 1;
                                    sw_PacketNumber := 100 |} 39 = Ok bs ∧
     ParseStopWaitingFrame 100 1 39 (bs ++ []) = Ok (g, []) ∧ sw_LeastUnacked g = 90.
Proof.
  apply (stop_waiting_roundtrip 39 {| sw_LeastUnacked := 90; sw_PacketNumberLen := 1;
                                      sw_PacketNumber := 100 |} []); simpl.
  - unfold is_u64. lia.
  - constructor.
  - by left.
  - lia.
  - lia.
Defined.
