(* ===== verification/StreamFrame.v ===== *)
(** * STREAM frames

    internal/wire/stream_frame.go. *)

From S2P Require Import Prelude ByteOrder Protocol Frames.

Record StreamFrame : Type := {
  StreamID : Z;
  FinBit : bool;
  DataLenPresent : bool;
  Offset : Z;
  Data : list Z;
}.

#[export] Instance StreamFrame_eq_dec : EqDecision StreamFrame.
Proof. solve_decision. Defined.

Definition errInvalidStreamIDLen : error := ErrorString "StreamFrame: Invalid StreamID length".
Definition errInvalidOffsetLen : error := ErrorString "StreamFrame: Invalid offset length".

Definition DataLen (f : StreamFrame) : Z := Z.of_nat (length (Data f)).

Definition calculateStreamIDLength (f : StreamFrame) : Z :=
  if StreamID f <? Z.shiftl 1 8 then 1
  else if StreamID f <? Z.shiftl 1 16 then 2
  else if StreamID f <? Z.shiftl 1 24 then 3
  else 4.

Definition getOffsetLength (f : StreamFrame) : Z :=
  if Offset f =? 0 then 0
  else if Offset f <? Z.shiftl 1 16 then 2
  else if Offset f <? Z.shiftl 1 24 then 3
  else if Offset f <? Z.shiftl 1 32 then 4
  else if Offset f <? Z.shiftl 1 40 then 5
  else if Offset f <? Z.shiftl 1 48 then 6
  else if Offset f <? Z.shiftl 1 56 then 7
  else 8.

Definition StreamFrame_MinLength (f : StreamFrame) (version : Z) : result Z :=
  let length := 1 + calculateStreamIDLength f + getOffsetLength f in
  Ok (if DataLenPresent f then length + 2 else length).

Definition ParseStreamFrame (version : Z) : reader StreamFrame :=
  typeByte ← ReadByte;
  let finBit := Z.land typeByte 64 >? 0 in
  let dataLenPresent := Z.land typeByte 32 >? 0 in
  let offsetLen := Z.shiftr (Z.land typeByte 28) 2 in
  let offsetLen := if negb (offsetLen =? 0) then u8 (offsetLen + 1) else offsetLen in
  let streamIDLen := u8 (Z.land typeByte 3 + 1) in
  sid ← ReadUintN (GetByteOrder version) streamIDLen;
  offset ← ReadUintN (GetByteOrder version) offsetLen;
  dataLen ← (if dataLenPresent then ReadUint16 (GetByteOrder version) else mret 0);
  if dataLen >? u16 MaxPacketSize
  then fail (QuicError InvalidStreamData "data len too large")
  else
    dataLen ← (if negb dataLenPresent then (n ← Len; mret (u16 n)) else mret dataLen);
    data ← (if negb (dataLen =? 0) then ReadFull (Z.to_nat dataLen) else mret []);
    let frame := {| StreamID := u32 sid; FinBit := finBit; DataLenPresent := dataLenPresent;
                    Offset := offset; Data := data |} in
    if Offset frame +u64 DataLen frame <? Offset frame
    then fail (QuicError InvalidStreamData "data overflows maximum offset")
    else if negb (FinBit frame) && (DataLen frame =? 0)
    then fail (ErrorCode EmptyStreamFrameNoFin)
    else mret frame.

Definition StreamFrame_typeByte (f : StreamFrame) : Z :=
  let typeByte := 128 in
  let typeByte := if FinBit f then Z.lxor typeByte 64 else typeByte in
  let typeByte := if DataLenPresent f then Z.lxor typeByte 32 else typeByte in
  let typeByte :=
    if getOffsetLength f >? 0
    then Z.lxor typeByte (u8 (Z.shiftl (u8 (getOffsetLength f - 1)) 2)) else typeByte in
  Z.lxor typeByte (u8 (calculateStreamIDLength f - 1)).

Definition StreamFrame_Write (f : StreamFrame) (version : Z) : result (list Z) :=
  let bo := GetByteOrder version in
  if (length (Data f) =? 0)%nat && negb (FinBit f)
  then Err (ErrorString "StreamFrame: attempting to write empty frame without FIN")
  else
    let offsetLength := getOffsetLength f in
    let streamIDLen := calculateStreamIDLength f in
    sid ← (if streamIDLen =? 1 then Ok [u8 (StreamID f)]
           else if streamIDLen =? 2 then Ok (WriteUint16 bo (u16 (StreamID f)))
           else if streamIDLen =? 3 then WriteUint24 bo (u32 (StreamID f))
           else if streamIDLen =? 4 then Ok (WriteUint32 bo (u32 (StreamID f)))
           else Err errInvalidStreamIDLen);
    off ← (if offsetLength =? 0 then Ok []
           else if offsetLength =? 2 then Ok (WriteUint16 bo (u16 (Offset f)))
           else if offsetLength =? 3 then WriteUint24 bo (u32 (Offset f))
           else if offsetLength =? 4 then Ok (WriteUint32 bo (u32 (Offset f)))
           else if offsetLength =? 5 then WriteUint40 bo (u64 (Offset f))
           else if offsetLength =? 6 then WriteUint48 bo (u64 (Offset f))
           else if offsetLength =? 7 then WriteUint56 bo (u64 (Offset f))
           else if offsetLength =? 8 then Ok (WriteUint64 bo (u64 (Offset f)))
           else Err errInvalidOffsetLen);
    let dlen := if DataLenPresent f
                then WriteUint16 bo (u16 (Z.of_nat (length (Data f)))) else [] in
    Ok ([StreamFrame_typeByte f] ++ sid ++ off ++ dlen ++ Data f).

#[export] Instance StreamFrame_frame : Frame StreamFrame :=
  { Write := StreamFrame_Write; MinLength := StreamFrame_MinLength }.

(** ** Well-formed frames *)

Definition StreamFrame_ok (f : StreamFrame) : Prop :=
  is_u32 (StreamID f) ∧ is_u64 (Offset f) ∧ bytes_ok (Data f) ∧
  Offset f + DataLen f < 2^64 ∧ (FinBit f = true ∨ Data f <> []).

(** ** Lemmas *)

Definition sid_lens : list Z := [1; 2; 3; 4].
Definition off_lens : list Z := [0; 2; 3; 4; 5; 6; 7; 8].

Lemma sid_length_spec f :
  is_u32 (StreamID f) →
  calculateStreamIDLength f ∈ sid_lens ∧ StreamID f < 2^(8 * calculateStreamIDLength f).
Proof.
  unfold is_u32, calculateStreamIDLength. intros H.
  repeat match goal with |- context [?a <? ?b] =>
    let b' := eval vm_compute in b in change b with b'; destruct (Z.ltb_spec a b') end;
  (split; [set_solver|cbn [Z.mul Pos.mul]; lia]).
Qed.

Lemma off_length_spec f :
  is_u64 (Offset f) →
  getOffsetLength f ∈ off_lens ∧ 0 <= Offset f < 2^(8 * getOffsetLength f).
Proof.
  unfold is_u64, getOffsetLength. intros H. destruct (Z.eqb_spec (Offset f) 0).
  { split; [set_solver|cbn [Z.mul]; lia]. }
  repeat match goal with |- context [?a <? ?b] =>
    let b' := eval vm_compute in b in change b with b'; destruct (Z.ltb_spec a b') end;
  (split; [set_solver|cbn [Z.mul Pos.mul]; lia]).
Qed.

(** The type byte determines the flags and both lengths. *)
Lemma typeByte_fields f :
  calculateStreamIDLength f ∈ sid_lens → getOffsetLength f ∈ off_lens →
  let b := StreamFrame_typeByte f in
  is_u8 b ∧ Z.land b 128 = 128 ∧ (Z.land b 64 >? 0) = FinBit f ∧
  (Z.land b 32 >? 0) = DataLenPresent f ∧
  (let o := Z.shiftr (Z.land b 28) 2 in if negb (o =? 0) then u8 (o + 1) else o)
    = getOffsetLength f ∧
  u8 (Z.land b 3 + 1) = calculateStreamIDLength f.
Proof.
  unfold StreamFrame_typeByte. generalize (calculateStreamIDLength f) (getOffsetLength f).
  intros sl ol Hs Ho. unfold sid_lens, off_lens in *.
  repeat match goal with
  | H : _ ∈ _ :: _ |- _ => apply elem_of_cons in H as [->|H]
  | H : _ ∈ [] |- _ => by apply elem_of_nil in H
  end; destruct (FinBit f), (DataLenPresent f); vm_compute; repeat split; discriminate.
Qed.

Section Writers.
Context (v : Z).

Lemma write_sid_len x len :
  len ∈ sid_lens → 0 <= x < 2^(8 * len) →
  (if len =? 1 then Ok [u8 x]
   else if len =? 2 then Ok (WriteUint16 (GetByteOrder v) (u16 x))
   else if len =? 3 then WriteUint24 (GetByteOrder v) (u32 x)
   else if len =? 4 then Ok (WriteUint32 (GetByteOrder v) (u32 x))
   else Err errInvalidStreamIDLen) = Ok (enc (bo := GetByteOrder v) (Z.to_nat len) x).
Proof.
  unfold sid_lens. intros Hl Hx.
  repeat (apply elem_of_cons in Hl as [->|Hl]); [..|by apply elem_of_nil in Hl];
    cbn -[Z.pow] in *.
  - by rewrite enc_1.
  - by rewrite write_16, u16_id.
  - rewrite write_24, u32_id by (unfold is_u32; lia). destruct (Z.ltb_spec x (2^24)); [done|lia].
  - by rewrite write_32, u32_id.
Qed.

Lemma write_off_len x len :
  len ∈ off_lens → 0 <= x < 2^(8 * len) →
  (if len =? 0 then Ok []
   else if len =? 2 then Ok (WriteUint16 (GetByteOrder v) (u16 x))
   else if len =? 3 then WriteUint24 (GetByteOrder v) (u32 x)
   else if len =? 4 then Ok (WriteUint32 (GetByteOrder v) (u32 x))
   else if len =? 5 then WriteUint40 (GetByteOrder v) (u64 x)
   else if len =? 6 then WriteUint48 (GetByteOrder v) (u64 x)
   else if len =? 7 then WriteUint56 (GetByteOrder v) (u64 x)
   else if len =? 8 then Ok (WriteUint64 (GetByteOrder v) (u64 x))
   else Err errInvalidOffsetLen) = Ok (enc (bo := GetByteOrder v) (Z.to_nat len) x).
Proof.
  unfold off_lens. intros Hl Hx.
  repeat (apply elem_of_cons in Hl as [->|Hl]); [..|by apply elem_of_nil in Hl];
    cbn -[Z.pow] in *.
  - f_equal. symmetry. apply nil_length_inv, enc_length.
  - by rewrite write_16, u16_id.
  - rewrite write_24, u32_id by (unfold is_u32; lia). destruct (Z.ltb_spec x (2^24)); [done|lia].
  - by rewrite write_32, u32_id.
  - rewrite write_40, u64_id by (unfold is_u64; lia). destruct (Z.ltb_spec x (2^40)); [done|lia].
  - rewrite write_48, u64_id by (unfold is_u64; lia). destruct (Z.ltb_spec x (2^48)); [done|lia].
  - rewrite write_56, u64_id by (unfold is_u64; lia). destruct (Z.ltb_spec x (2^56)); [done|lia].
  - by rewrite write_64, u64_id.
Qed.

Lemma StreamFrame_Write_eq f :
  StreamFrame_ok f →
  StreamFrame_Write f v
  = Ok (StreamFrame_typeByte f ::
        enc (bo := GetByteOrder v) (Z.to_nat (calculateStreamIDLength f)) (StreamID f) ++
        enc (bo := GetByteOrder v) (Z.to_nat (getOffsetLength f)) (Offset f) ++
        (if DataLenPresent f then enc (bo := GetByteOrder v) 2 (u16 (DataLen f)) else []) ++
        Data f).
Proof.
  intros (Hsid & Hoff & Hb & Hov & Hfin). unfold StreamFrame_Write.
  destruct (sid_length_spec f Hsid) as [? ?], (off_length_spec f Hoff) as [? ?].
  assert ((length (Data f) =? 0)%nat && negb (FinBit f) = false) as ->.
  { destruct Hfin as [->|Hne]; [apply andb_false_r|]. by destruct (Data f). }
  unfold is_u32 in Hsid.
  rewrite write_sid_len, write_off_len by (done || lia). cbn [mbind result_bind].
  rewrite write_16. done.
Qed.

Lemma ReadUintN_len x len s :
  len ∈ sid_lens ++ off_lens → 0 <= x < 2^(8 * len) →
  ReadUintN (GetByteOrder v) len (enc (bo := GetByteOrder v) (Z.to_nat len) x ++ s) = Ok (x, s).
Proof.
  intros Hl Hx. assert (0 <= len <= 8) as Hr by (unfold sid_lens, off_lens in Hl; set_solver by lia).
  rewrite <- (Z2Nat.id len) at 1 by lia. apply read_enc; [lia|]. by rewrite Z2Nat.id by lia.
Qed.
End Writers.

(** ** Properties *)

Lemma data_branch (d s : list Z) dl :
  dl = Z.of_nat (length d) →
  (if negb (dl =? 0) then ReadFull (Z.to_nat dl) else mret []) (d ++ s) = Ok (d, s).
Proof.
  intros ->. destruct (Z.eqb_spec (Z.of_nat (length d)) 0); simpl.
  - destruct d; [done|simpl in *; lia].
  - apply ReadFull_app. lia.
Qed.

Lemma StreamFrame_rt v f s :
  StreamFrame_ok f → bytes_ok s →
  (if DataLenPresent f then DataLen f <= MaxPacketSize else s = [] ∧ DataLen f < 2^16) →
  ∃ bs, StreamFrame_Write f v = Ok bs ∧ ParseStreamFrame v (bs ++ s) = Ok (f, s).
Proof.
  intros Hok Hs Hlen. rewrite (StreamFrame_Write_eq v f Hok). eexists. split; [done|].
  destruct Hok as (Hsid & Hoff & Hb & Hov & Hfin).
  destruct (sid_length_spec f Hsid) as [Hsl Hsb], (off_length_spec f Hoff) as [Hol Hob].
  destruct (typeByte_fields f Hsl Hol) as (_ & _ & Hf & Hd & Ho & Hsi).
  unfold ParseStreamFrame. cbn [app]. rstep. cbv zeta in *. rewrite Hf, Hd, Ho, Hsi.
  unfold is_u32 in Hsid. rewrite <- !app_assoc.
  erewrite rbind_ok by (apply ReadUintN_len; [apply elem_of_app; by left|lia]).
  erewrite rbind_ok by (apply ReadUintN_len; [apply elem_of_app; by right|lia]).
  rewrite (u32_id (StreamID f)) by done.
  assert (DataLen f < 2^16) as H16
    by (destruct (DataLenPresent f); unfold MaxPacketSize in *; lia).
  assert (0 <= DataLen f) as H0 by (unfold DataLen; lia).
  assert (∀ d, d = Data f →
    (if Offset f +u64 Z.of_nat (length d) <? Offset f
     then fail (QuicError InvalidStreamData "data overflows maximum offset")
     else if negb (FinBit f) && (Z.of_nat (length d) =? 0)
          then fail (ErrorCode EmptyStreamFrameNoFin)
          else mret {| StreamID := StreamID f; FinBit := FinBit f;
                       DataLenPresent := DataLenPresent f; Offset := Offset f; Data := d |}) s
    = Ok (f, s)) as Hend.
  { intros d ->. fold (DataLen f). unfold is_u64 in Hoff. rewrite u64_id by (unfold is_u64; lia).
    destruct (Z.ltb_spec (Offset f + DataLen f) (Offset f)); [lia|].
    assert (negb (FinBit f) && (DataLen f =? 0) = false) as ->; [|by destruct f].
    destruct Hfin as [->|Hne]; [done|]. unfold DataLen. destruct (Data f); [done|].
    apply andb_false_r. }
  destruct (DataLenPresent f) eqn:Edlp; cbn [negb].
  - erewrite rbind_ok by (apply ReadUint16_enc; auto with quic).
    rewrite (u16_id (DataLen f)) by (unfold is_u16; lia).
    rewrite Z.gtb_ltb. change (u16 MaxPacketSize) with MaxPacketSize.
    destruct (Z.ltb_spec MaxPacketSize (DataLen f)); [lia|].
    erewrite rbind_ok by done. erewrite rbind_ok by (by apply data_branch). by apply Hend.
  - destruct Hlen as [-> _]. erewrite rbind_ok by done. change (0 >? u16 MaxPacketSize) with false. cbv iota.
    erewrite rbind_ok by done. cbn [app]. rewrite app_nil_r.
    fold (DataLen f). rewrite (u16_id (DataLen f)) by (unfold is_u16; lia).
    erewrite rbind_ok by (rewrite <- (app_nil_r (Data f)) at 1; by apply data_branch).
    by apply Hend.
Qed.

(** A STREAM frame the writer accepts is parsed back unchanged: with its length on the wire
    whatever follows it, without it as the last frame of a packet; and the writer produces
    exactly [MinLength] bytes of header before the data. *)
Theorem stream_frame_roundtrip (v : Z) (f : StreamFrame) (s : list Z) :
  StreamFrame_ok f → bytes_ok s →
  (if DataLenPresent f then DataLen f <= MaxPacketSize else s = [] ∧ DataLen f < 2^16) →
  ∃ bs n, Write f v = Ok bs ∧ ParseStreamFrame v (bs ++ s) = Ok (f, s) ∧
    MinLength f v = Ok n ∧ Z.of_nat (length bs) = n + DataLen f.
Proof.
  intros Hok Hs Hlen. destruct (StreamFrame_rt v f s Hok Hs Hlen) as (bs & Hw & Hp).
  exists bs. eexists. split_and!; [done|done|done|].
  rewrite (StreamFrame_Write_eq v f Hok) in Hw. injection Hw as <-.
  destruct Hok as (Hsid & Hoff & _).
  destruct (sid_length_spec f Hsid) as [Hsl _], (off_length_spec f Hoff) as [Hol _].
  assert (0 <= calculateStreamIDLength f) by (unfold sid_lens in Hsl; set_solver by lia).
  assert (0 <= getOffsetLength f) by (unfold off_lens in Hol; set_solver by lia).
  cbn [length]. rewrite !length_app, !enc_length. unfold DataLen.
  destruct (DataLenPresent f); rewrite ?enc_length; simpl; lia.
Qed.

Lemma stream_frame_roundtrip_witness :
  let f := {| StreamID := 300; FinBit := true; DataLenPresent := true;
              Offset := 70000; Data := [1; 2; 3] |} in
  ∃ bs n, Write f 39 = Ok bs ∧ ParseStreamFrame 39 (bs ++ [7]) = Ok (f, [7]) ∧
    MinLength f 39 = Ok n ∧ Z.of_nat (length bs) = n + DataLen f.
Proof.
  apply (stream_frame_roundtrip 39 {| StreamID := 300; FinBit := true; DataLenPresent := true;
    Offset := 70000; Data := [1; 2; 3] |} [7]).
  - unfold StreamFrame_ok, is_u32, is_u64. cbn.
    split_and!; try lia; [bytes_tac|unfold DataLen; cbn; lia].
  - bytes_tac.
  - unfold DataLen, MaxPacketSize. cbn. lia.
Defined.

Lemma land_3_bound b : 0 <= Z.land b 3 <= 3.
Proof.
  assert (Z.land b 3 = b mod 2^2) as -> by (apply (Z.land_ones b 2); lia).
  pose proof (Z.mod_pos_bound b (2^2) ltac:(lia)). lia.
Qed.

Lemma land_28_bound b : 0 <= Z.shiftr (Z.land b 28) 2 <= 7.
Proof.
  rewrite Z.shiftr_land.
  assert (Z.land (Z.shiftr b 2) (Z.shiftr 28 2) = Z.shiftr b 2 mod 2^3) as ->
    by (apply (Z.land_ones (Z.shiftr b 2) 3); lia).
  pose proof (Z.mod_pos_bound (Z.shiftr b 2) (2^3) ltac:(lia)). lia.
Qed.

(** The data of a parsed frame: the length on the wire or the rest of the packet. *)
Lemma parsed_data (v dl dl' : Z) (present : bool) (s3 s4 s5 s6 data : list Z) :
  bytes_ok s3 →
  (if present then ReadUint16 (GetByteOrder v) else mret 0) s3 = Ok (dl, s4) →
  (dl >? u16 MaxPacketSize) = false →
  (if negb present then (n ← Len; mret (u16 n)) else mret dl) s4 = Ok (dl', s5) →
  (if negb (dl' =? 0) then ReadFull (Z.to_nat dl') else mret []) s5 = Ok (data, s6) →
  ∃ p4, s3 = p4 ++ data ++ s6 ∧ bytes_ok data ∧ Z.of_nat (length data) < 2^16 ∧
    (present = true → Z.of_nat (length data) <= MaxPacketSize).
Proof.
  intros Hs3 Hdl Edl Hdl' Hdata.
  assert (∃ p4, s3 = p4 ++ s4 ∧ s5 = s4 ∧ 0 <= dl' < 2^16 ∧ (present = true → dl' <= MaxPacketSize))
    as (p4 & -> & -> & Hd0 & Hmax).
  { destruct present; simpl in Hdl'.
    - injection Hdl' as <- <-. rewrite read_16 in Hdl by done.
      apply (read_enc_inv 2) in Hdl as [-> ?]; [|lia|done]. zbool.
      change (u16 MaxPacketSize) with MaxPacketSize in *.
      eexists. split_and!; [done|done|lia|lia|lia].
    - injection Hdl as <- <-. injection Hdl' as <- <-.
      pose proof (u16_range (Z.of_nat (length s3))). unfold is_u16 in *.
      exists []. split_and!; [done|done|lia|lia|done]. }
  assert (s4 = data ++ s6 ∧ Z.of_nat (length data) = dl') as [-> Hdlen].
  { destruct (Z.eqb_spec dl' 0); simpl in Hdata; [by injection Hdata as <- <-|].
    apply ReadFull_inv in Hdata as [-> ?]. split; [done|lia]. }
  apply Forall_app in Hs3 as [_ [Hd _]%Forall_app].
  exists p4. split_and!; [done|done|lia|intros; rewrite Hdlen; auto].
Qed.

(** Every STREAM frame the parser returns is well formed: its offset and data stay inside
    the 64-bit offset space, it is not an empty frame without FIN, its data is at most one
    packet long when the length is on the wire, and the parser has consumed at least the type
    byte and no more than the packet. *)
Theorem stream_frame_parsed_ok (v : Z) (f : StreamFrame) (s s' : list Z) :
  bytes_ok s → ParseStreamFrame v s = Ok (f, s') →
  StreamFrame_ok f ∧ (∃ pre, s = pre ++ s' ∧ pre <> []) ∧
  (DataLenPresent f = true → DataLen f <= MaxPacketSize).
Proof.
  intros Hs Hp. unfold ParseStreamFrame in Hp.
  apply rbind_inv in Hp as (b & s1 & Hb & Hp). apply ReadByte_inv in Hb as ->.
  apply Forall_cons in Hs as [Hb Hs1]. cbv zeta in Hp.
  set (ol := if negb (Z.shiftr (Z.land b 28) 2 =? 0)
             then u8 (Z.shiftr (Z.land b 28) 2 + 1) else Z.shiftr (Z.land b 28) 2) in *.
  pose proof (land_28_bound b) as H28. pose proof (land_3_bound b) as H3.
  assert (0 <= ol <= 8) as Hol.
  { unfold ol. destruct (negb _); [rewrite u8_id by (unfold is_u8; lia)|]; lia. }
  assert (u8 (Z.land b 3 + 1) = Z.land b 3 + 1) as Hsl by (apply u8_id; unfold is_u8; lia).
  rewrite Hsl in Hp.
  apply rbind_inv in Hp as (sid & s2 & Hsid & Hp).
  rewrite <- (Z2Nat.id (Z.land b 3 + 1)) in Hsid by lia.
  apply read_enc_inv in Hsid as [-> Hsid]; [|lia|done]. apply Forall_app in Hs1 as [_ Hs2].
  apply rbind_inv in Hp as (off & s3 & Hoff & Hp).
  rewrite <- (Z2Nat.id ol) in Hoff by lia.
  apply read_enc_inv in Hoff as [-> Hoff]; [|lia|done]. apply Forall_app in Hs2 as [_ Hs3].
  assert (is_u64 off).
  { unfold is_u64. split; [lia|]. eapply Z.lt_le_trans; [apply Hoff|].
    apply Z.pow_le_mono_r; lia. }
  apply rbind_inv in Hp as (dl & s4 & Hdl & Hp).
  destruct (dl >? u16 MaxPacketSize) eqn:Edl; [done|].
  apply rbind_inv in Hp as (dl' & s5 & Hdl' & Hp).
  apply rbind_inv in Hp as (data & s6 & Hdata & Hp).
  destruct (parsed_data _ _ _ _ _ _ _ _ _ Hs3 Hdl Edl Hdl' Hdata)
    as (p4 & -> & Hdata' & Hlt & Hmax).
  unfold DataLen in Hp. simpl in Hp.
  destruct (Z.ltb_spec (off +u64 Z.of_nat (length data)) off) as [|Hnov]; [done|].
  destruct (negb (Z.land b 64 >? 0) && (Z.of_nat (length data) =? 0)) eqn:Efin; [done|].
  injection Hp as <- <-. split_and!.
  - unfold StreamFrame_ok, DataLen. simpl. split_and!; [apply u32_range|done|done| |].
    + apply Z.nle_gt. intros Hge. unfold is_u64 in *.
      assert (off +u64 Z.of_nat (length data) = off + Z.of_nat (length data) - 2^64) by zwrap. lia.
    + destruct (Z.land b 64 >? 0); [by left|right]. simpl in Efin. intros ->. done.
  - eexists. rewrite !app_comm_cons, !app_assoc. split; [reflexivity|done].
  - unfold DataLen. simpl. intros. auto.
Qed.

Lemma stream_frame_parsed_ok_witness :
  let f := {| StreamID := 5; FinBit := true; DataLenPresent := true; Offset := 0; Data := [9] |} in
  StreamFrame_ok f ∧ (∃ pre, [224; 5; 0; 1; 9; 7] = pre ++ [7] ∧ pre <> []) ∧
  (DataLenPresent f = true → DataLen f <= MaxPacketSize).
Proof.
  apply (stream_frame_parsed_ok 39 _ [224; 5; 0; 1; 9; 7] [7]).
  - bytes_tac.
  - vm_compute. reflexivity.
Defined.
