(* ===== verification/AckFrame.v ===== *)
(** * ACK frames

    internal/wire/ack_frame.go and ack_range.go.  Times are nanoseconds; the
    current time is an argument of the writer, which calls [time.Since]. *)

From S2P Require Import Prelude ByteOrder Protocol Frames.

(** ** Data *)

Record AckRange : Type := mkAckRange {
  First : Z;
  Last : Z;
}.

#[export] Instance AckRange_eq_dec : EqDecision AckRange.
Proof. solve_decision. Defined.

Record AckFrame : Type := mkAckFrame {
  ack_PathID : Z;
  ack_LargestAcked : Z;
  ack_LowestAcked : Z;
  ack_AckRanges : list AckRange;
  ack_PacketReceivedTime : Z;
  ack_DelayTime : Z;
}.

Definition ErrInvalidAckRanges : error :=
  ErrorString "AckFrame: ACK frame contains invalid ACK ranges".
Definition ErrInvalidFirstAckRange : error :=
  ErrorString "AckFrame: ACK frame has invalid first ACK range".
Definition errInconsistentAckLargestAcked : error :=
  ErrorString "internal inconsistency: LargestAcked does not match ACK ranges".
Definition errInconsistentAckLowestAcked : error :=
  ErrorString "internal inconsistency: LowestAcked does not match ACK ranges".

(** ** Helpers shared by the operations of a frame *)

Definition HasMissingRanges (f : AckFrame) : bool := negb (length (ack_AckRanges f) =? 0)%nat.

(** The loop over consecutive ranges of validateAckRanges. *)
Fixpoint ranges_consistent (lastAckRange : AckRange) (l : list AckRange) : bool :=
  match l with
  | [] => true
  | ackRange :: l =>
      if First lastAckRange <=? First ackRange then false
      else if First lastAckRange <=? Last ackRange +u64 1 then false
      else ranges_consistent ackRange l
  end.

Definition validateRanges (largestAcked : Z) (ranges : list AckRange) : bool :=
  match ranges with
  | [] => true
  | [_] => false
  | r0 :: l =>
      if negb (Last r0 =? largestAcked) then false
      else if existsb (λ r, First r >? Last r) ranges then false
      else ranges_consistent r0 l
  end.

Definition validateAckRanges (f : AckFrame) : bool :=
  validateRanges (ack_LargestAcked f) (ack_AckRanges f).

(** The loop of numWritableNackRanges. *)
Fixpoint numWritable_loop (numRanges : Z) (lastAckRange : AckRange) (l : list AckRange) : Z :=
  match l with
  | [] => numRanges
  | ackRange :: l =>
      let gap := First lastAckRange -u64 Last ackRange -u64 1 in
      let rangeLength := 1 + gap / 255 in
      let rangeLength := if gap mod 255 =? 0 then rangeLength - 1 else rangeLength in
      if numRanges + rangeLength <? 255
      then numWritable_loop (numRanges + rangeLength) ackRange l
      else numRanges
  end.

Definition numWritable (ranges : list AckRange) : Z :=
  match ranges with
  | [] => 0
  | r0 :: l => numWritable_loop 0 r0 l + 1
  end.

Definition numWritableNackRanges (f : AckFrame) : Z := numWritable (ack_AckRanges f).

Definition missingDeltaLen (largestAcked lowestAcked : Z) (ranges : list AckRange) : Z :=
  let maxRangeLength :=
    match ranges with
    | [] => largestAcked -u64 lowestAcked +u64 1
    | _ => foldl (λ m r, let rangeLength := Last r -u64 First r +u64 1 in
                         if rangeLength >? m then rangeLength else m) 0 ranges
    end in
  if maxRangeLength <=? 255 then PacketNumberLen1
  else if maxRangeLength <=? 65535 then PacketNumberLen2
  else if maxRangeLength <=? 4294967295 then PacketNumberLen4
  else PacketNumberLen6.

Definition getMissingSequenceNumberDeltaLen (f : AckFrame) : Z :=
  missingDeltaLen (ack_LargestAcked f) (ack_LowestAcked f) (ack_AckRanges f).

Definition AcksPacket (f : AckFrame) (p : Z) : bool :=
  if (p <? ack_LowestAcked f) || (p >? ack_LargestAcked f) then false
  else if HasMissingRanges f
  then existsb (λ r, (p >=? First r) && (p <=? Last r)) (ack_AckRanges f)
  else (p >=? ack_LowestAcked f) && (p <=? ack_LargestAcked f).

(** ** Parser *)

(** The loop over the ACK blocks.  [acc] holds the ranges read so far, the
    newest first. *)
Fixpoint parse_ack_blocks (bo : ByteOrder) (missingSequenceNumberDeltaLen : Z) (n : nat)
    (acc : list AckRange) (inLongBlock lastRangeComplete : bool)
  : reader (list AckRange * bool) :=
  match n with
  | O => mret (acc, lastRangeComplete)
  | S n =>
      gap ← ReadByte;
      ackBlockLength ← ReadUintN bo missingSequenceNumberDeltaLen;
      let length := ackBlockLength in
      match acc with
      | [] => crash "index out of range"
      | r :: rest =>
          let '(acc, lastRangeComplete) :=
            if inLongBlock then
              (mkAckRange (First r -u64 (gap +u64 length)) (Last r -u64 gap) :: rest,
               lastRangeComplete)
            else
              let last := First r -u64 gap -u64 1 in
              (mkAckRange (last -u64 length +u64 1) last :: r :: rest, false) in
          let lastRangeComplete := if length >? 0 then true else lastRangeComplete in
          parse_ack_blocks bo missingSequenceNumberDeltaLen n acc
            (ackBlockLength =? 0) lastRangeComplete
      end
  end.

(** The ranges and the lowest acknowledged packet number, from the first block on. *)
Definition parse_ranges (bo : ByteOrder) (missingSequenceNumberDeltaLen largestAcked : Z)
    (hasMissingRanges : bool) (numAckBlocks : Z) : reader (list AckRange * Z) :=
  ackBlockLength ← ReadUintN bo missingSequenceNumberDeltaLen;
  if (largestAcked >? 0) && (ackBlockLength <? 1) then fail ErrInvalidFirstAckRange
  else if ackBlockLength >? largestAcked then fail ErrInvalidAckRanges
  else if hasMissingRanges then
    let ackRange := mkAckRange (u64 (largestAcked - ackBlockLength) +u64 1) largestAcked in
    '(acc, lastRangeComplete) ←
      parse_ack_blocks bo missingSequenceNumberDeltaLen (Z.to_nat numAckBlocks)
        [ackRange] false false;
    let acc := if negb lastRangeComplete then tail acc else acc in
    match acc with
    | [] => crash "index out of range"
    | r :: _ => mret (reverse acc, First r)
    end
  else mret ([], if largestAcked =? 0 then 0 else largestAcked +u64 1 -u64 ackBlockLength).

Fixpoint skip_timestamps (bo : ByteOrder) (n : nat) : reader unit :=
  match n with
  | O => mret tt
  | S n => _ ← ReadByte; _ ← ReadUint16 bo; skip_timestamps bo n
  end.

Definition wire_len (bits : Z) : Z := let n := u8 (2 * bits) in if n =? 0 then 1 else n.

Definition ParseAckFrame (version : Z) : reader AckFrame :=
  let bo := GetByteOrder version in
  typeByte ← ReadByte;
  let hasMissingRanges := Z.land typeByte 32 =? 32 in
  let largestAckedLen := wire_len (Z.shiftr (Z.land typeByte 12) 2) in
  let missingSequenceNumberDeltaLen := wire_len (Z.land typeByte 3) in
  pathID ← (if Z.land typeByte 16 =? 16 then ReadByte else mret 0);
  largestAcked ← ReadUintN bo largestAckedLen;
  delay ← ReadUfloat16 bo;
  numAckBlocks ← (if hasMissingRanges then ReadByte else mret 0);
  if hasMissingRanges && (numAckBlocks =? 0) then fail ErrInvalidAckRanges
  else
    '(ranges, lowestAcked) ←
      parse_ranges bo missingSequenceNumberDeltaLen largestAcked hasMissingRanges numAckBlocks;
    let frame := {| ack_PathID := pathID; ack_LargestAcked := largestAcked;
                    ack_LowestAcked := lowestAcked; ack_AckRanges := ranges;
                    ack_PacketReceivedTime := 0; ack_DelayTime := delay * Microsecond |} in
    if negb (validateAckRanges frame) then fail ErrInvalidAckRanges
    else
      numTimestamp ← ReadByte;
      if numTimestamp >? 0 then
        _ ← ReadByte;
        _ ← ReadUint32 bo;
        _ ← skip_timestamps bo (Z.to_nat (numTimestamp - 1));
        mret frame
      else mret frame.

(** ** Writer *)

(** The switch on a packet number length that writes a number of that length. *)
Definition write_len (bo : ByteOrder) (len x : Z) : result (list Z) :=
  if len =? PacketNumberLen1 then Ok [u8 x]
  else if len =? PacketNumberLen2 then Ok (WriteUint16 bo (u16 x))
  else if len =? PacketNumberLen4 then Ok (WriteUint32 bo (u32 x))
  else if len =? PacketNumberLen6 then WriteUint48 bo (Z.land x (Z.shiftl 1 48 - 1))
  else Ok [].

(** The inner loop: [todo] blocks are left of the [num] that encode one long gap. *)
Fixpoint write_long_gap (wr : Z → result (list Z)) (todo : nat) (gap length : Z)
  : result (list Z) :=
  match todo with
  | O => Ok []
  | S todo =>
      let '(lengthWritten, gapWritten) :=
        if (todo =? 0)%nat then (length, u8 (1 + (gap -u64 1) mod 255)) else (0, 255) in
      bs ← wr lengthWritten;
      rest ← write_long_gap wr todo gap length;
      Ok ([gapWritten] ++ bs ++ rest)
  end.

(** The number of blocks that encode a gap. *)
Definition gap_blocks (gap : Z) : Z :=
  let num := gap / 255 + 1 in if gap mod 255 =? 0 then num - 1 else num.

Fixpoint write_ack_ranges (wr : Z → result (list Z)) (numRanges numRangesWritten : Z)
    (prev : AckRange) (l : list AckRange) : result (list Z * Z) :=
  match l with
  | [] => Ok ([], numRangesWritten)
  | ackRange :: l =>
      let length := Last ackRange -u64 First ackRange +u64 1 in
      let gap := First prev -u64 Last ackRange -u64 1 in
      let num := gap_blocks gap in
      bs ← (if num =? 1 then (ls ← wr length; Ok ([u8 gap] ++ ls))
            else write_long_gap wr (Z.to_nat num) gap length);
      let numRangesWritten := numRangesWritten + num in
      if numRangesWritten >=? numRanges then Ok (bs, numRangesWritten)
      else
        '(rest, n) ← write_ack_ranges wr numRanges numRangesWritten ackRange l;
        Ok (bs ++ rest, n)
  end.

Definition AckFrame_typeByte (f : AckFrame) : Z :=
  let largestAckedLen := GetPacketNumberLength (ack_LargestAcked f) in
  let typeByte := 64 in
  let typeByte := if negb (largestAckedLen =? PacketNumberLen1)
                  then Z.lxor typeByte (u8 (Z.shiftl (largestAckedLen / 2) 2)) else typeByte in
  let missingSequenceNumberDeltaLen := getMissingSequenceNumberDeltaLen f in
  let typeByte := if negb (missingSequenceNumberDeltaLen =? PacketNumberLen1)
                  then Z.lxor typeByte (missingSequenceNumberDeltaLen / 2) else typeByte in
  let typeByte := if HasMissingRanges f then Z.lor typeByte 32 else typeByte in
  if negb (ack_PathID f =? InitialPathID) then Z.lor typeByte 16 else typeByte.

(** The first block length and the ranges; [bug] is the text of the internal error. *)
Definition write_blocks (bug : string) (wr : Z → result (list Z)) (largestAcked lowestAcked : Z)
    (ranges : list AckRange) (numRanges : Z) : result (list Z) :=
  match ranges with
  | [] => wr (largestAcked -u64 lowestAcked +u64 1)
  | r0 :: l =>
      if negb (largestAcked =? Last r0) then Err errInconsistentAckLargestAcked
      else if negb (lowestAcked =? First (List.last (r0 :: l) r0))
      then Err errInconsistentAckLowestAcked
      else
        bs ← wr (largestAcked -u64 First r0 +u64 1);
        '(rest, numRangesWritten) ← write_ack_ranges wr numRanges 1 r0 l;
        if negb (numRanges =? numRangesWritten) then Err (ErrorString bug)
        else Ok (bs ++ rest)
  end.

Definition AckFrame_Write (now : Z) (f : AckFrame) (version : Z) : result (list Z) :=
  let bo := GetByteOrder version in
  largest ← write_len bo (GetPacketNumberLength (ack_LargestAcked f)) (ack_LargestAcked f);
  let delayTime := now - ack_PacketReceivedTime f in
  let numRanges := if HasMissingRanges f then numWritableNackRanges f else 0 in
  if HasMissingRanges f && (numRanges >? 255) then Panic "AckFrame: Too many ACK ranges"
  else
    blocks ← write_blocks "BUG: Inconsistent number of ACK ranges written"
               (write_len bo (getMissingSequenceNumberDeltaLen f))
               (ack_LargestAcked f) (ack_LowestAcked f) (ack_AckRanges f) numRanges;
    Ok ([AckFrame_typeByte f]
        ++ (if negb (ack_PathID f =? InitialPathID) then [u8 (ack_PathID f)] else [])
        ++ largest
        ++ WriteUfloat16 bo (u64 (Z.quot delayTime Microsecond))
        ++ (if HasMissingRanges f then [u8 (numRanges - 1)] else [])
        ++ blocks ++ [0]).

Definition AckFrame_MinLength (f : AckFrame) (version : Z) : result Z :=
  let length := 1 + 2 + 1 in
  let length := length + GetPacketNumberLength (ack_LargestAcked f) in
  let missingSequenceNumberDeltaLen := getMissingSequenceNumberDeltaLen f in
  let length := if HasMissingRanges f
                then length + (1 + missingSequenceNumberDeltaLen) * numWritableNackRanges f
                else length + missingSequenceNumberDeltaLen in
  Ok (if negb (ack_PathID f =? InitialPathID) then length + 1 else length).

#[export] Instance AckFrame_frame (now : Z) : Frame AckFrame :=
  { Write := AckFrame_Write now; MinLength := AckFrame_MinLength }.

(** ** Well-formed frames *)

(** [l] continues [prev] downwards: ranges are not empty and at least one packet is missing
    between neighbours. *)
Fixpoint ranges_below (prev : AckRange) (l : list AckRange) : Prop :=
  match l with
  | [] => True
  | r :: l => First r <= Last r ∧ Last r + 1 < First prev ∧ ranges_below r l
  end.

Definition AckFrame_ok (f : AckFrame) : Prop :=
  is_u8 (ack_PathID f) ∧ 0 <= ack_LowestAcked f <= ack_LargestAcked f ∧
  ack_LargestAcked f < 2^48 ∧
  match ack_AckRanges f with
  | [] => True
  | r0 :: l => l <> [] ∧ Last r0 = ack_LargestAcked f ∧ First r0 <= Last r0 ∧
               ranges_below r0 l ∧ ack_LowestAcked f = First (List.last (r0 :: l) r0)
  end.

(** ** Gaps *)

Definition range_gap (prev r : AckRange) : Z := First prev - Last r - 1.
Definition range_len (r : AckRange) : Z := Last r - First r + 1.

(** The ranges the writer has room for, with [n] blocks used already. *)
Fixpoint fit (n : Z) (prev : AckRange) (l : list AckRange) : list AckRange :=
  match l with
  | [] => []
  | r :: l =>
      if n + gap_blocks (range_gap prev r) <? 255
      then r :: fit (n + gap_blocks (range_gap prev r)) r l else []
  end.

Fixpoint total_blocks (prev : AckRange) (l : list AckRange) : Z :=
  match l with
  | [] => 0
  | r :: l => gap_blocks (range_gap prev r) + total_blocks r l
  end.

Lemma gap_blocks_pos g : 1 <= g → 1 <= gap_blocks g.
Proof. intros. unfold gap_blocks. destruct (Z.eqb_spec (g mod 255) 0); zwrap. Qed.

(** A long gap is a number of full blocks and a rest between 1 and 255. *)
Lemma gap_blocks_split g :
  1 <= g → g = 255 * (gap_blocks g - 1) + (1 + (g - 1) mod 255).
Proof. intros. unfold gap_blocks. destruct (Z.eqb_spec (g mod 255) 0); zwrap. Qed.

Lemma gap_blocks_one g : 1 <= g → gap_blocks g = 1 → g <= 255.
Proof. intros. unfold gap_blocks in *. destruct (Z.eqb_spec (g mod 255) 0); zwrap. Qed.

Lemma ranges_below_bound prev l r :
  ranges_below prev l → r ∈ l → First r <= Last r ∧ Last r + 1 < First prev.
Proof.
  revert prev. induction l as [|r0 l IH]; intros prev; [set_solver|].
  intros (?&?&Hl) [->|Hr]%elem_of_cons; [done|]. destruct (IH _ Hl Hr). lia.
Qed.

Lemma last_below prev l d :
  ranges_below prev l → First prev <= Last prev →
  First (List.last (prev :: l) d) <= First prev ∧
  ∀ r, r ∈ l → First (List.last (prev :: l) d) <= First r.
Proof.
  revert prev. induction l as [|r l IH]; intros prev; [set_solver by lia|].
  intros (?&?&Hl) Hp. change (List.last (prev :: r :: l) d) with (List.last (r :: l) d).
  destruct (IH r Hl ltac:(lia)) as [H1 H2]. split; [lia|].
  intros r' [->|Hr]%elem_of_cons; [done|auto].
Qed.

Lemma total_blocks_nonneg prev l : ranges_below prev l → 0 <= total_blocks prev l.
Proof.
  revert prev. induction l as [|r l IH]; intros prev; simpl; [lia|].
  intros (?&?&Hl). pose proof (gap_blocks_pos (range_gap prev r)). specialize (IH _ Hl).
  unfold range_gap in *. lia.
Qed.

Lemma fit_prefix n prev l : ∃ k, l = fit n prev l ++ k.
Proof.
  revert n prev. induction l as [|r l IH]; intros n prev; simpl; [by exists []|].
  destruct (_ <? 255); [|by exists (r :: l)].
  destruct (IH (n + gap_blocks (range_gap prev r)) r) as [k Hk]. exists k. simpl. by rewrite <- Hk.
Qed.

Lemma fit_below n prev l : ranges_below prev l → ranges_below prev (fit n prev l).
Proof.
  revert n prev. induction l as [|r l IH]; intros n prev; simpl; [done|].
  intros (?&?&Hl). destruct (_ <? 255); simpl; auto.
Qed.

Lemma fit_blocks n prev l :
  n < 255 → n + total_blocks prev (fit n prev l) < 255.
Proof.
  revert n prev. induction l as [|r l IH]; intros n prev Hn; simpl; [lia|].
  destruct (Z.ltb_spec (n + gap_blocks (range_gap prev r)) 255); simpl; [|lia].
  specialize (IH _ r H). lia.
Qed.

(** Machine values of a gap and a length, for ranges in range. *)
Lemma gap_u64 prev r :
  0 <= First r <= Last r → Last r + 1 < First prev → First prev < 2^49 →
  First prev -u64 Last r -u64 1 = range_gap prev r.
Proof.
  intros. unfold range_gap. rewrite (u64_id (First prev - Last r)), u64_id;
    unfold is_u64; lia.
Qed.

Lemma len_u64 r :
  0 <= First r <= Last r → Last r < 2^49 →
  Last r -u64 First r +u64 1 = range_len r.
Proof.
  intros. unfold range_len. rewrite (u64_id (Last r - First r)), u64_id; unfold is_u64; lia.
Qed.

(** What bounds the numbers of a frame's ranges. *)
Definition in_bounds (r : AckRange) : Prop := 0 <= First r ∧ Last r < 2^49.

Lemma numWritable_loop_fit n prev l :
  ranges_below prev l → in_bounds prev → First prev <= Last prev → Forall in_bounds l →
  numWritable_loop n prev l = n + total_blocks prev (fit n prev l).
Proof.
  revert n prev. induction l as [|r l IH]; intros n prev; [simpl; lia|].
  intros (H1&H2&Hl) [Hp1 Hp2] Hp [Hr Hbl]%Forall_cons. destruct Hr as [Hr1 Hr2]. simpl.
  rewrite gap_u64 by lia.
  assert ((if range_gap prev r mod 255 =? 0 then 1 + range_gap prev r / 255 - 1
           else 1 + range_gap prev r / 255) = gap_blocks (range_gap prev r)) as ->
    by (unfold gap_blocks; destruct (_ =? 0); lia).
  destruct (Z.ltb_spec (n + gap_blocks (range_gap prev r)) 255); simpl; [|lia].
  rewrite IH by side. lia.
Qed.

(** ** One range on the wire *)

Section Blocks.
Context (bo : ByteOrder) {L : ByteOrderLaws bo}.
Context (len : Z) (Hlen : valid_pn_len len).

Definition encN (x : Z) : list Z := enc (bo := bo) (Z.to_nat len) x.

Definition range_bytes (g x : Z) : list Z :=
  concat (replicate (Z.to_nat (gap_blocks g) - 1) (255 :: encN 0))
  ++ (1 + (g - 1) mod 255) :: encN x.

Fixpoint ranges_bytes (prev : AckRange) (l : list AckRange) : list Z :=
  match l with
  | [] => []
  | r :: l => range_bytes (range_gap prev r) (range_len r) ++ ranges_bytes r l
  end.

Lemma read_encN x s :
  0 <= x < 2^(8 * len) → ReadUintN bo len (encN x ++ s) = Ok (x, s).
Proof using Hlen.
  intros Hx. unfold encN. rewrite <- (Z2Nat.id len) at 1
    by (destruct Hlen as [->|[->|[->| ->]]]; lia).
  apply read_enc; [destruct Hlen as [->|[->|[->| ->]]]; lia|].
  rewrite Z2Nat.id; [done|destruct Hlen as [->|[->|[->| ->]]]; lia].
Qed.

Lemma pow_len : 2^8 <= 2^(8 * len) <= 2^48.
Proof using Hlen. destruct Hlen as [->|[->|[->| ->]]]; cbn [Z.mul Pos.mul]; lia. Qed.

(** *** Writer *)

Section Writer.
Context (wr : Z → result (list Z)).
Context (Hwr : ∀ x, 0 <= x < 2^(8 * len) → wr x = Ok (encN x)).

Lemma write_long_gap_ok k g x :
  1 <= g < 2^60 → 0 <= x < 2^(8 * len) →
  write_long_gap wr (S k) g x
  = Ok (concat (replicate k (255 :: encN 0)) ++ (1 + (g - 1) mod 255) :: encN x).
Proof using Hwr Hlen.
  intros Hg Hx. induction k as [|k IH].
  - simpl. rewrite Hwr by done. simpl. rewrite app_nil_r.
    rewrite (u64_id (g - 1)), u8_id by (unfold is_u64, is_u8; zwrap). done.
  - change (write_long_gap wr (S (S k)) g x) with
      (bs ← wr 0; rest ← write_long_gap wr (S k) g x; Ok ([255] ++ bs ++ rest)).
    rewrite Hwr by (pose proof pow_len; lia). rewrite IH. simpl.
    by rewrite <- app_assoc.
Qed.

Lemma write_range_ok prev r :
  First r <= Last r → Last r + 1 < First prev → in_bounds prev → First prev <= Last prev →
  in_bounds r → range_len r < 2^(8 * len) →
  (if gap_blocks (range_gap prev r) =? 1
   then (ls ← wr (range_len r); Ok ([u8 (range_gap prev r)] ++ ls))
   else write_long_gap wr (Z.to_nat (gap_blocks (range_gap prev r))) (range_gap prev r) (range_len r))
  = Ok (range_bytes (range_gap prev r) (range_len r)).
Proof using Hwr Hlen.
  intros H1 H2 [Hp1 Hp2] Hp [Hr1 Hr2] Hlr. unfold range_bytes.
  assert (1 <= range_gap prev r < 2^60) as Hg by (unfold range_gap; lia).
  assert (0 <= range_len r) by (unfold range_len; lia).
  pose proof (gap_blocks_pos _ (proj1 Hg)) as Hpos.
  destruct (Z.eqb_spec (gap_blocks (range_gap prev r)) 1) as [Heq|Hne].
  - pose proof (gap_blocks_one _ (proj1 Hg) Heq). pose proof (gap_blocks_split _ (proj1 Hg)) as Hs.
    rewrite Hwr by lia. simpl. rewrite Heq in *. simpl.
    rewrite u8_id by (unfold is_u8; lia). do 2 f_equal. lia.
  - rewrite <- write_long_gap_ok by lia. f_equal. lia.
Qed.

(** The writer's loop writes exactly the ranges there is room for. *)
Lemma write_ack_ranges_ok n w numRanges prev l :
  ranges_below prev l → in_bounds prev → First prev <= Last prev → Forall in_bounds l →
  Forall (λ r, range_len r < 2^(8 * len)) l →
  fit n prev l <> [] ∨ l = [] → numRanges = w + total_blocks prev (fit n prev l) →
  write_ack_ranges wr numRanges w prev l
  = Ok (ranges_bytes prev (fit n prev l), numRanges).
Proof using Hwr Hlen.
  revert n w prev. induction l as [|r l IH]; intros n w prev.
  { intros _ _ _ _ _ _ ->. simpl. do 2 f_equal. lia. }
  intros (H1&H2&Hl) Hpb Hp [Hrb Hbl]%Forall_cons [Hlr Hll]%Forall_cons Hfit Hnum.
  destruct Hpb as [Hp1 Hp2], Hrb as [Hr1 Hr2]. simpl in Hfit, Hnum |- *.
  destruct (Z.ltb_spec (n + gap_blocks (range_gap prev r)) 255) as [Hroom|]; [|by destruct Hfit].
  rewrite gap_u64, len_u64 by lia.
  rewrite write_range_ok by side. cbn [mbind result_bind].
  simpl in Hnum. set (nb := gap_blocks (range_gap prev r)) in *.
  pose proof (total_blocks_nonneg _ _ (fit_below (n + nb) r l Hl)) as Hnn.
  rewrite Z.geb_leb. destruct (Z.leb_spec numRanges (w + nb)) as [Hle|Hgt].
  - assert (fit (n + nb) r l = []) as E;
      [|rewrite E in *; simpl in *; rewrite app_nil_r; do 2 f_equal; lia].
    destruct (fit (n + nb) r l) as [|r' l'] eqn:E; [done|exfalso].
    pose proof (fit_below (n + nb) r l Hl) as Hb. rewrite E in Hb. simpl in Hb.
    destruct Hb as (?&?&Hb).
    pose proof (gap_blocks_pos (range_gap r r') ltac:(unfold range_gap; lia)).
    pose proof (total_blocks_nonneg _ _ Hb). simpl in Hnum, Hnn. lia.
  - rewrite (IH (n + nb)); [done|done|split; done|done|done|done| |lia].
    destruct l as [|r' l']; [by right|left]. intros E. rewrite E in Hnum. simpl in Hnum. lia.
Qed.
End Writer.

(** *** Parser *)

Lemma parse_block_long acc r c m g x s :
  0 <= g → 0 <= x < 2^(8 * len) → in_bounds r → 0 <= First r - g - x → 0 <= Last r - g →
  First r <= Last r + 1 →
  parse_ack_blocks bo len (S m) (r :: acc) true c (g :: encN x ++ s)
  = parse_ack_blocks bo len m (mkAckRange (First r - g - x) (Last r - g) :: acc)
      (x =? 0) (if x >? 0 then true else c) s.
Proof using Hlen.
  intros Hg Hx [Hr1 Hr2] H1 H2 H3. pose proof pow_len.
  cbn [parse_ack_blocks]. rstep. erewrite rbind_ok by (by apply read_encN).
  rewrite (u64_id (g + x)), (u64_id (First r - (g + x))), (u64_id (Last r - g))
    by (unfold is_u64; lia).
  by replace (First r - (g + x)) with (First r - g - x) by lia.
Qed.

Lemma parse_block_new acc r c m g x s :
  0 <= g → 0 <= x < 2^(8 * len) → First r < 2^49 → 0 <= First r - g - 1 →
  parse_ack_blocks bo len (S m) (r :: acc) false c (g :: encN x ++ s)
  = parse_ack_blocks bo len m
      (mkAckRange (u64 (First r - g - x)) (First r - g - 1) :: r :: acc) (x =? 0) (x >? 0) s.
Proof using Hlen.
  intros Hg Hx Hr H1. cbn [parse_ack_blocks]. rstep.
  erewrite rbind_ok by (by apply read_encN).
  rewrite (u64_id (First r - g)), (u64_id (First r - g - 1)), u64_add_l by (unfold is_u64; lia).
  replace (First r - g - 1 - x + 1) with (First r - g - x) by lia. by destruct (x >? 0).
Qed.

Lemma parse_long_blocks k acc r m g x s :
  in_bounds r → First r = Last r + 1 → 0 <= g → 0 < x < 2^(8 * len) →
  0 <= First r - 255 * Z.of_nat k - g - x → ∀ c,
  parse_ack_blocks bo len (k + S m) (r :: acc) true c
    (concat (replicate k (255 :: encN 0)) ++ g :: encN x ++ s)
  = parse_ack_blocks bo len m
      (mkAckRange (First r - 255 * Z.of_nat k - g - x) (Last r - 255 * Z.of_nat k - g) :: acc)
      false true s.
Proof using Hlen.
  pose proof pow_len as Hpl. revert r. induction k as [|k IH]; intros r [Hr1 Hr2] Hr Hg Hx Hb c.
  - cbn [replicate concat app Nat.add]. rewrite parse_block_long by side.
    destruct (Z.eqb_spec x 0); [lia|]. rewrite Z.gtb_ltb. destruct (Z.ltb_spec 0 x); [|lia].
    do 3 f_equal; lia.
  - cbn [replicate concat]. rewrite <- app_assoc. cbn [app Nat.add].
    rewrite parse_block_long by side.
    change (0 =? 0) with true. change (0 >? 0) with false. cbv iota.
    rewrite IH; simpl; [|split; simpl; lia|lia|lia|lia|lia]. do 3 f_equal; lia.
Qed.

Lemma parse_range prev acc r m c s :
  0 <= First r <= Last r → Last r + 1 < First prev → in_bounds prev → First prev <= Last prev →
  range_len r < 2^(8 * len) →
  parse_ack_blocks bo len (Z.to_nat (gap_blocks (range_gap prev r)) + m) (prev :: acc) false c
    (range_bytes (range_gap prev r) (range_len r) ++ s)
  = parse_ack_blocks bo len m (r :: prev :: acc) false true s.
Proof using Hlen.
  intros H1 H2 [Hp1 Hp2] Hp Hlr. unfold range_bytes.
  assert (1 <= range_gap prev r) as Hg by (unfold range_gap; lia).
  assert (0 < range_len r) as Hl by (unfold range_len; lia).
  pose proof (gap_blocks_pos _ Hg) as Hpos. pose proof (gap_blocks_split _ Hg) as Hsp.
  set (g := range_gap prev r) in *. set (g' := 1 + (g - 1) mod 255) in *.
  assert (1 <= g' <= 255) as Hg' by (unfold g'; zwrap). pose proof pow_len as Hpl.
  assert (∃ k, Z.to_nat (gap_blocks g) = S k ∧ g = 255 * Z.of_nat k + g') as (k & -> & Hgk).
  { exists (Z.to_nat (gap_blocks g - 1)). split; lia. }
  replace (S k - 1)%nat with k by lia. rewrite <- app_assoc. cbn [app].
  unfold g, range_gap, range_len in *. destruct k as [|k].
  - cbn [replicate concat app Nat.add]. rewrite parse_block_new by side.
    destruct (Z.eqb_spec (Last r - First r + 1) 0); [lia|]. rewrite Z.gtb_ltb.
    destruct (Z.ltb_spec 0 (Last r - First r + 1)); [|lia].
    rewrite u64_id by (unfold is_u64; lia).
    destruct r as [a b]; simpl in *. do 3 f_equal; lia.
  - cbn [replicate concat]. rewrite <- app_assoc. cbn [app Nat.add].
    rewrite parse_block_new by side.
    change (0 >? 0) with false. change (0 =? 0) with true.
    rewrite u64_id by (unfold is_u64; lia).
    replace (S (k + m)) with (k + S m)%nat by lia.
    rewrite parse_long_blocks; simpl; [|split; simpl; lia|lia|lia|lia|lia].
    destruct r as [a b]; simpl in *. do 3 f_equal; lia.
Qed.

Lemma range_bytes_length g x :
  1 <= g → Z.of_nat (length (range_bytes g x)) = gap_blocks g * (1 + len).
Proof using Hlen.
  intros Hg. pose proof (gap_blocks_pos g Hg). unfold range_bytes.
  assert (0 <= len) by (destruct Hlen as [->|[->|[->| ->]]]; lia).
  assert (∀ k, Z.of_nat (length (concat (replicate k (255 :: encN 0)))) = Z.of_nat k * (1 + len))
    as Hc.
  { induction k as [|k IH]; [done|]. cbn [replicate concat length app].
    rewrite length_app. unfold encN in *. rewrite enc_length. lia. }
  rewrite length_app, Nat2Z.inj_add, Hc. cbn [length]. unfold encN. rewrite enc_length.
  rewrite Nat2Z.inj_sub by lia. lia.
Qed.

Lemma ranges_bytes_length prev l :
  ranges_below prev l → Z.of_nat (length (ranges_bytes prev l)) = total_blocks prev l * (1 + len).
Proof using Hlen.
  revert prev. induction l as [|r l IH]; intros prev; [done|]. intros (? & ? & Hl).
  cbn [ranges_bytes total_blocks]. rewrite length_app, Nat2Z.inj_add, range_bytes_length, IH
    by (done || unfold range_gap; lia). lia.
Qed.

Lemma parse_ranges_bytes prev acc l c s :
  ranges_below prev l → in_bounds prev → First prev <= Last prev → Forall in_bounds l →
  Forall (λ r, range_len r < 2^(8 * len)) l →
  parse_ack_blocks bo len (Z.to_nat (total_blocks prev l)) (prev :: acc) false c
    (ranges_bytes prev l ++ s)
  = Ok ((reverse l ++ prev :: acc, match l with [] => c | _ => true end), s).
Proof using Hlen.
  revert prev acc c. induction l as [|r l IH]; intros prev acc c; [done|].
  intros (H1&H2&Hl) Hpb Hp [Hrb Hbl]%Forall_cons [Hlr Hll]%Forall_cons.
  cbn [total_blocks ranges_bytes]. rewrite <- app_assoc.
  pose proof (total_blocks_nonneg _ _ Hl). pose proof (gap_blocks_pos (range_gap prev r)) as Hg.
  unfold range_gap in Hg at 1. rewrite Z2Nat.inj_add by lia. destruct Hrb.
  rewrite parse_range by side. rewrite IH by side.
  rewrite reverse_cons, <- app_assoc. by destruct l.
Qed.
End Blocks.

(** ** The header fields *)

Lemma write_len_ok v len x :
  valid_pn_len len → 0 <= x < 2^(8 * len) →
  write_len (GetByteOrder v) len x = Ok (encN (GetByteOrder v) len x).
Proof.
  intros Hl Hx. unfold encN. rewrite <- (write_pn_len v len x Hl Hx). unfold write_len.
  destruct Hl as [->|[->|[->| ->]]]; done.
Qed.

Lemma foldl_max_ge (F : AckRange → Z) l m :
  m <= foldl (λ m r, if F r >? m then F r else m) m l ∧
  (∀ r, r ∈ l → F r <= foldl (λ m r, if F r >? m then F r else m) m l).
Proof.
  revert m. induction l as [|r l IH]; intros m; simpl; [set_solver by lia|].
  destruct (IH (if F r >? m then F r else m)) as [H1 H2].
  rewrite Z.gtb_ltb in *. destruct (Z.ltb_spec m (F r)); (split; [lia|]);
    intros r' [->|Hr]%elem_of_cons; auto; lia.
Qed.

Lemma foldl_max_bound (F : AckRange → Z) l m b :
  m <= b → (∀ r, r ∈ l → F r <= b) → foldl (λ m r, if F r >? m then F r else m) m l <= b.
Proof.
  revert m. induction l as [|r l IH]; intros m Hm Hl; simpl; [done|].
  apply IH; [|set_solver]. pose proof (Hl r ltac:(set_solver)). destruct (F r >? m); lia.
Qed.

Lemma deltaLen_spec m len :
  m < 2^48 →
  len = (if m <=? 255 then PacketNumberLen1
         else if m <=? 65535 then PacketNumberLen2
         else if m <=? 4294967295 then PacketNumberLen4 else PacketNumberLen6) →
  valid_pn_len len ∧ m < 2^(8 * len).
Proof.
  intros Hm ->. unfold valid_pn_len, PacketNumberLen1, PacketNumberLen2, PacketNumberLen4,
    PacketNumberLen6.
  destruct (Z.leb_spec m 255), (Z.leb_spec m 65535), (Z.leb_spec m 4294967295);
    cbn [Z.mul Pos.mul]; lia.
Qed.

(** Every range of a well-formed frame is in bounds. *)
Lemma AckFrame_ok_bounds f r0 l :
  AckFrame_ok f → ack_AckRanges f = r0 :: l →
  ∀ r, r ∈ r0 :: l → ack_LowestAcked f <= First r <= Last r ∧ Last r <= ack_LargestAcked f.
Proof.
  intros (_ & ? & ? & Hr) E. rewrite E in Hr. destruct Hr as (_ & Hlast & Hle & Hb & Hlow).
  destruct (last_below r0 l r0 Hb Hle) as [H1 H2]. rewrite <- Hlow in *.
  intros r [->|Hr]%elem_of_cons; [lia|]. pose proof (ranges_below_bound _ _ _ Hb Hr).
  specialize (H2 r Hr). lia.
Qed.

Lemma deltaLen_ok f :
  AckFrame_ok f → 1 <= ack_LowestAcked f →
  valid_pn_len (getMissingSequenceNumberDeltaLen f) ∧
  (ack_AckRanges f = [] →
     ack_LargestAcked f - ack_LowestAcked f + 1 < 2^(8 * getMissingSequenceNumberDeltaLen f)) ∧
  (∀ r, r ∈ ack_AckRanges f → range_len r < 2^(8 * getMissingSequenceNumberDeltaLen f)).
Proof.
  intros Hok Hlow. pose proof Hok as (_ & ? & ? & _).
  unfold getMissingSequenceNumberDeltaLen, missingDeltaLen.
  destruct (ack_AckRanges f) as [|r0 l] eqn:E.
  - assert (ack_LargestAcked f -u64 ack_LowestAcked f +u64 1
            = ack_LargestAcked f - ack_LowestAcked f + 1) as ->.
    { rewrite (u64_id (ack_LargestAcked f - ack_LowestAcked f)), u64_id; unfold is_u64; lia. }
    destruct (deltaLen_spec (ack_LargestAcked f - ack_LowestAcked f + 1) _ ltac:(lia) eq_refl).
    split_and!; [done|done|set_solver].
  - set (F := λ r, Last r -u64 First r +u64 1).
    assert (∀ r, r ∈ r0 :: l → F r = range_len r ∧ range_len r < 2^48) as HF.
    { intros r Hr. destruct (AckFrame_ok_bounds f r0 l Hok E r Hr). unfold F.
      rewrite len_u64 by lia. unfold range_len. split; [done|lia]. }
    set (m := foldl (λ m r, if F r >? m then F r else m) 0 (r0 :: l)).
    change (foldl _ 0 (r0 :: l)) with m.
    assert (m < 2^48) as Hm.
    { assert (m <= 2^48 - 1); [|lia]. apply foldl_max_bound; [lia|].
      intros r Hr. destruct (HF r Hr) as [-> ?]. lia. }
    destruct (deltaLen_spec m _ Hm eq_refl) as [Hv Hlt].
    split_and!; [done|done|]. intros r Hr. eapply Z.le_lt_trans; [|exact Hlt].
    destruct (HF r Hr) as [<- _]. by apply (foldl_max_ge F (r0 :: l) 0).
Qed.

Lemma largestLen_ok f :
  AckFrame_ok f →
  valid_pn_len (GetPacketNumberLength (ack_LargestAcked f)) ∧
  ack_LargestAcked f < 2^(8 * GetPacketNumberLength (ack_LargestAcked f)).
Proof.
  intros (_ & ? & ? & _). unfold GetPacketNumberLength, valid_pn_len.
  unfold PacketNumberLen1, PacketNumberLen2, PacketNumberLen4, PacketNumberLen6.
  change (Z.shiftl 1 (1 * 8)) with (2^8). change (Z.shiftl 1 (2 * 8)) with (2^16).
  change (Z.shiftl 1 (4 * 8)) with (2^32).
  destruct (Z.ltb_spec (ack_LargestAcked f) (2^8)), (Z.ltb_spec (ack_LargestAcked f) (2^16)),
    (Z.ltb_spec (ack_LargestAcked f) (2^32)); cbn [Z.mul Pos.mul]; lia.
Qed.

(** The type byte determines the flags and both lengths. *)
Lemma ack_typeByte_fields f :
  valid_pn_len (GetPacketNumberLength (ack_LargestAcked f)) →
  valid_pn_len (getMissingSequenceNumberDeltaLen f) →
  let b := AckFrame_typeByte f in
  is_u8 b ∧ Z.land b 192 = 64 ∧
  (Z.land b 32 =? 32) = HasMissingRanges f ∧
  (Z.land b 16 =? 16) = negb (ack_PathID f =? InitialPathID) ∧
  wire_len (Z.shiftr (Z.land b 12) 2) = GetPacketNumberLength (ack_LargestAcked f) ∧
  wire_len (Z.land b 3) = getMissingSequenceNumberDeltaLen f.
Proof.
  unfold AckFrame_typeByte.
  generalize (GetPacketNumberLength (ack_LargestAcked f)) (getMissingSequenceNumberDeltaLen f)
    (HasMissingRanges f) (negb (ack_PathID f =? InitialPathID)).
  intros ll dl hm pp [->|[->|[->| ->]]] [->|[->|[->| ->]]];
    destruct hm, pp; vm_compute; repeat split; discriminate.
Qed.

(** ** Writing a frame, and reading it back *)

Definition writable (f : AckFrame) : list AckRange :=
  match ack_AckRanges f with [] => [] | r0 :: l => r0 :: fit 0 r0 l end.

(** The first missing range fits: without it the writer has nothing to report. *)
Definition first_gap_fits (f : AckFrame) : Prop :=
  match ack_AckRanges f with
  | r0 :: r1 :: _ => gap_blocks (range_gap r0 r1) < 255
  | _ => True
  end.

(** The frame the receiver sees. *)
Definition AckFrame_received (now : Z) (f : AckFrame) : AckFrame :=
  {| ack_PathID := ack_PathID f; ack_LargestAcked := ack_LargestAcked f;
     ack_LowestAcked := match ack_AckRanges f with
                        | [] => ack_LowestAcked f
                        | r0 :: l => First (List.last (writable f) r0)
                        end;
     ack_AckRanges := writable f; ack_PacketReceivedTime := 0;
     ack_DelayTime := wire_rtt (now - ack_PacketReceivedTime f) |}.

Section AckRoundtrip.
Context (v now : Z) (f : AckFrame).
Context (Hok : AckFrame_ok f) (Hlow : 1 <= ack_LowestAcked f) (Hgap : first_gap_fits f).

Abbreviation bo := (GetByteOrder v).
Abbreviation dlen := (getMissingSequenceNumberDeltaLen f).

(** The bytes of the frame after the type byte and the path. *)
Definition AckFrame_blocks : list Z :=
  match ack_AckRanges f with
  | [] => encN bo dlen (ack_LargestAcked f - ack_LowestAcked f + 1)
  | r0 :: l => encN bo dlen (range_len r0) ++ ranges_bytes bo dlen r0 (fit 0 r0 l)
  end.

Lemma numWritable_ok r0 l :
  ack_AckRanges f = r0 :: l →
  numWritableNackRanges f = 1 + total_blocks r0 (fit 0 r0 l) ∧
  1 <= total_blocks r0 (fit 0 r0 l) < 255 ∧ fit 0 r0 l <> [].
Proof using Hok Hlow Hgap.
  intros E. pose proof (AckFrame_ok_bounds f r0 l Hok E) as Hb.
  destruct Hok as (_ & ? & ? & Hr). rewrite E in Hr. destruct Hr as (Hne & _ & Hle & Hbel & _).
  unfold numWritableNackRanges, numWritable. rewrite E.
  rewrite numWritable_loop_fit; [|done|..].
  - pose proof (fit_blocks 0 r0 l ltac:(lia)). unfold first_gap_fits in Hgap. rewrite E in Hgap.
    destruct l as [|r1 l]; [done|]. destruct Hbel as (? & ? & Hbel). simpl in *.
    destruct (Z.ltb_spec (0 + gap_blocks (range_gap r0 r1)) 255); [|lia]. simpl in *.
    pose proof (gap_blocks_pos (range_gap r0 r1) ltac:(unfold range_gap; lia)).
    pose proof (total_blocks_nonneg _ _ (fit_below (0 + gap_blocks (range_gap r0 r1)) r1 l Hbel)).
    split_and!; [lia|lia|lia|done].
  - specialize (Hb r0 ltac:(set_solver)). split; lia.
  - done.
  - apply Forall_forall. intros r Hr. specialize (Hb r ltac:(set_solver)). split; lia.
Qed.

Lemma write_blocks_ok bug wr :
  (∀ x, 0 <= x < 2^(8 * dlen) → wr x = Ok (encN bo dlen x)) →
  write_blocks bug wr (ack_LargestAcked f) (ack_LowestAcked f) (ack_AckRanges f)
    (if HasMissingRanges f then numWritableNackRanges f else 0)
  = Ok AckFrame_blocks.
Proof using Hok Hlow Hgap.
  intros Hwr. destruct (deltaLen_ok f Hok Hlow) as (Hdl & Hd0 & Hdr).
  pose proof Hok as (_ & Hll & Hl48 & Hr). unfold write_blocks, AckFrame_blocks, HasMissingRanges.
  destruct (ack_AckRanges f) as [|r0 l] eqn:E; cbn [length Nat.eqb negb].
  - rewrite (u64_id (ack_LargestAcked f - ack_LowestAcked f)), u64_id by (unfold is_u64; lia).
    apply Hwr. specialize (Hd0 eq_refl). lia.
  - destruct Hr as (Hne & Hlast & Hle & Hbel & Hlow').
    rewrite <- Hlast, Z.eqb_refl, Hlow', Z.eqb_refl. cbn [negb].
    pose proof (AckFrame_ok_bounds f r0 l Hok E) as Hb.
    rewrite len_u64 by (specialize (Hb r0 ltac:(set_solver)); lia).
    rewrite Hwr.
    2:{ specialize (Hdr r0 ltac:(set_solver)). unfold range_len in *. lia. }
    cbn [mbind result_bind]. destruct (numWritable_ok r0 l E) as (Hnum & _ & Hfit).
    erewrite (write_ack_ranges_ok bo dlen Hdl wr Hwr 0); [|done|..|by left|exact Hnum].
    + cbn [mbind result_bind]. by rewrite Z.eqb_refl.
    + specialize (Hb r0 ltac:(set_solver)). split; lia.
    + done.
    + apply Forall_forall. intros r Hr. specialize (Hb r ltac:(set_solver)). split; lia.
    + apply Forall_forall. intros r Hr. apply Hdr. set_solver.
Qed.

Definition AckFrame_bytes : list Z :=
  AckFrame_typeByte f
  :: (if negb (ack_PathID f =? InitialPathID) then [ack_PathID f] else [])
  ++ encN bo (GetPacketNumberLength (ack_LargestAcked f)) (ack_LargestAcked f)
  ++ enc (bo := bo) 2 (ufloat16_of (u64 (Z.quot (now - ack_PacketReceivedTime f) Microsecond)))
  ++ (if HasMissingRanges f then [numWritableNackRanges f - 1] else [])
  ++ AckFrame_blocks ++ [0].

Lemma AckFrame_Write_eq : AckFrame_Write now f v = Ok AckFrame_bytes.
Proof using Hok Hlow Hgap.
  destruct (largestLen_ok f Hok) as [Hll Hlb]. pose proof Hok as (Hpid & ? & ? & _).
  unfold AckFrame_Write. rewrite write_len_ok by side. cbn [mbind result_bind].
  assert (HasMissingRanges f = true →
          (numWritableNackRanges f >? 255) = false ∧
          u8 (numWritableNackRanges f - 1) = numWritableNackRanges f - 1) as Hnr.
  { unfold HasMissingRanges. destruct (ack_AckRanges f) as [|r0 l] eqn:E; [done|].
    destruct (numWritable_ok r0 l E) as (-> & ? & _). intros _. rewrite Z.gtb_ltb.
    destruct (Z.ltb_spec 255 (1 + total_blocks r0 (fit 0 r0 l))); [lia|].
    split; [done|]. apply u8_id. unfold is_u8. lia. }
  assert (HasMissingRanges f &&
    ((if HasMissingRanges f then numWritableNackRanges f else 0) >? 255) = false) as ->.
  { destruct (HasMissingRanges f); [|done]. simpl. by apply Hnr. }
  rewrite write_blocks_ok by (intros; apply write_len_ok; [by apply deltaLen_ok|done]). cbn [mbind result_bind].
  unfold AckFrame_bytes. rewrite (u8_id (ack_PathID f)) by done.
  rewrite (WriteUfloat16_enc bo). do 2 f_equal. cbn [app].
  destruct (HasMissingRanges f); [|done]. by destruct (Hnr eq_refl) as [_ ->].
Qed.

Lemma AckFrame_blocks_bytes : bytes_ok AckFrame_blocks.
Proof using Hok Hlow Hgap.
  unfold AckFrame_blocks. destruct (ack_AckRanges f) as [|r0 l]; [apply enc_bytes|].
  apply bytes_ok_app; [apply enc_bytes|].
  generalize (fit 0 r0 l) as l'. intros l'. revert r0.
  induction l' as [|r l' IH]; intros r0; [constructor|]. simpl. apply bytes_ok_app; [|apply IH].
  unfold range_bytes. apply bytes_ok_app.
  - induction (Z.to_nat (gap_blocks (range_gap r0 r)) - 1)%nat; simpl; [constructor|].
    apply bytes_ok_cons; [done|]. apply bytes_ok_app; [apply enc_bytes|done].
  - apply bytes_ok_cons; [|apply enc_bytes]. unfold is_u8. zwrap.
Qed.

Lemma AckFrame_bytes_ok : bytes_ok AckFrame_bytes.
Proof using Hok Hlow Hgap.
  destruct (largestLen_ok f Hok) as [Hll _]. destruct (deltaLen_ok f Hok Hlow) as (Hdl & _ & _).
  destruct (ack_typeByte_fields f Hll Hdl) as (Htb & _). pose proof Hok as (Hpid & _).
  unfold AckFrame_bytes. apply bytes_ok_cons; [done|]. apply bytes_ok_app.
  { destruct (negb _); [by apply bytes_ok_cons; [|constructor]|constructor]. }
  apply bytes_ok_app; [apply enc_bytes|]. apply bytes_ok_app; [apply enc_bytes|].
  apply bytes_ok_app.
  - unfold HasMissingRanges. destruct (ack_AckRanges f) as [|r0 l] eqn:E; [constructor|].
    destruct (numWritable_ok r0 l E) as (-> & ? & _).
    apply bytes_ok_cons; [unfold is_u8; lia|constructor].
  - apply bytes_ok_app; [apply AckFrame_blocks_bytes|bytes_tac].
Qed.

Lemma AckFrame_blocks_length :
  Z.of_nat (length AckFrame_blocks)
  = if HasMissingRanges f then (1 + dlen) * numWritableNackRanges f - 1 else dlen.
Proof using Hok Hlow Hgap.
  destruct (deltaLen_ok f Hok Hlow) as (Hdl & _ & _).
  assert (0 <= dlen) by (destruct Hdl as [->|[->|[->| ->]]]; lia).
  pose proof Hok as (_ & _ & _ & Hr). unfold AckFrame_blocks, HasMissingRanges.
  destruct (ack_AckRanges f) as [|r0 l] eqn:E; cbn [length Nat.eqb negb].
  { unfold encN. rewrite enc_length. lia. }
  destruct (numWritable_ok r0 l E) as (-> & _). destruct Hr as (_ & _ & _ & Hb & _).
  rewrite length_app, Nat2Z.inj_add, ranges_bytes_length; [|done|by apply fit_below].
  unfold encN. rewrite enc_length. lia.
Qed.

(** The announced length is the length on the wire. *)
Lemma AckFrame_length :
  AckFrame_MinLength f v = Ok (Z.of_nat (length AckFrame_bytes)).
Proof using Hok Hlow Hgap.
  destruct (largestLen_ok f Hok) as [Hll _].
  assert (0 <= GetPacketNumberLength (ack_LargestAcked f))
    by (destruct Hll as [->|[->|[->| ->]]]; lia).
  pose proof AckFrame_blocks_length as Hbl. unfold AckFrame_MinLength, AckFrame_bytes.
  f_equal. cbn [length]. rewrite !length_app. unfold encN. rewrite !enc_length. cbn [length].
  destruct (HasMissingRanges f), (negb (ack_PathID f =? InitialPathID)); cbn [length]; lia.
Qed.

Lemma validate_writable r0 l :
  ack_AckRanges f = r0 :: l → validateRanges (ack_LargestAcked f) (writable f) = true.
Proof using Hok Hlow Hgap.
  intros E. destruct (numWritable_ok r0 l E) as (_ & _ & Hfit).
  pose proof (AckFrame_ok_bounds f r0 l Hok E) as Hb.
  pose proof Hok as (_ & ? & ? & Hr). rewrite E in Hr. destruct Hr as (_ & Hlast & Hle & Hbel & _).
  unfold writable. rewrite E. destruct (fit_prefix 0 r0 l) as [k Hk].
  pose proof (fit_below 0 r0 l Hbel) as Hf. set (w := fit 0 r0 l) in *. clearbody w.
  destruct w as [|r1 w]; [done|]. cbn [validateRanges]. rewrite Hlast, Z.eqb_refl.
  assert (∀ r, r ∈ r0 :: r1 :: w → 0 <= First r <= Last r ∧ Last r < 2^48) as Hb'.
  { intros r Hr. specialize (Hb r). rewrite Hk in Hb.
    destruct Hb; [rewrite app_comm_cons; apply elem_of_app; by left|]. lia. }
  assert (existsb (λ r, First r >? Last r) (r0 :: r1 :: w) = false) as ->.
  { apply not_true_iff_false. rewrite existsb_exists. intros (r & Hr & Hgt).
    apply list_elem_of_In in Hr. specialize (Hb' r Hr). zbool. lia. }
  cbn [negb]. revert Hf Hb'. generalize r0. generalize (r1 :: w) as l'. clear.
  induction l' as [|r l IH]; intros r0 Hf Hb; [done|]. destruct Hf as (H1 & H2 & Hf). simpl.
  pose proof (Hb r ltac:(set_solver)). destruct (Z.leb_spec (First r0) (First r)); [lia|].
  rewrite u64_id by (unfold is_u64; lia).
  destruct (Z.leb_spec (First r0) (Last r + 1)); [lia|]. apply IH; [done|set_solver].
Qed.

Lemma parse_ranges_ok s :
  bytes_ok s →
  parse_ranges bo dlen (ack_LargestAcked f) (HasMissingRanges f)
    (if HasMissingRanges f then numWritableNackRanges f - 1 else 0) (AckFrame_blocks ++ s)
  = Ok ((writable f, ack_LowestAcked (AckFrame_received now f)), s).
Proof using Hok Hlow Hgap.
  intros Hs. destruct (deltaLen_ok f Hok Hlow) as (Hdl & Hd0 & Hdr).
  pose proof Hok as (_ & Hll & Hl48 & Hr). unfold parse_ranges, AckFrame_blocks, HasMissingRanges.
  unfold AckFrame_received, writable. destruct (ack_AckRanges f) as [|r0 l] eqn:E;
    cbn [length Nat.eqb negb ack_LowestAcked].
  - set (x := ack_LargestAcked f - ack_LowestAcked f + 1).
    erewrite rbind_ok by (apply read_encN; [done|specialize (Hd0 eq_refl); lia]).
    rewrite !Z.gtb_ltb. destruct (Z.ltb_spec x 1); [lia|]. rewrite andb_false_r.
    destruct (Z.ltb_spec (ack_LargestAcked f) x); [lia|].
    destruct (Z.eqb_spec (ack_LargestAcked f) 0); [lia|]. cbv [mret reader_ret].
    rewrite (u64_id (ack_LargestAcked f + 1)), u64_id by (unfold is_u64; lia).
    do 3 f_equal. lia.
  - destruct Hr as (Hne & Hlast & Hle & Hbel & Hlow').
    pose proof (AckFrame_ok_bounds f r0 l Hok E) as Hb.
    pose proof (Hb r0 ltac:(set_solver)) as Hb0. pose proof (Hdr r0 ltac:(set_solver)) as Hd.
    destruct (numWritable_ok r0 l E) as (Hnum & Hrange & Hfit). rewrite <- app_assoc.
    erewrite rbind_ok by (apply read_encN; [done|unfold range_len in *; lia]).
    rewrite !Z.gtb_ltb. unfold range_len in *.
    destruct (Z.ltb_spec (Last r0 - First r0 + 1) 1); [lia|]. rewrite andb_false_r.
    destruct (Z.ltb_spec (ack_LargestAcked f) (Last r0 - First r0 + 1)); [lia|].
    rewrite (u64_id (ack_LargestAcked f - _)), u64_id by (unfold is_u64; lia).
    replace (mkAckRange _ (ack_LargestAcked f)) with r0
      by (destruct r0; simpl in *; f_equal; lia).
    rewrite Hnum. replace (1 + total_blocks r0 (fit 0 r0 l) - 1) with (total_blocks r0 (fit 0 r0 l)) by lia.
    destruct (fit_prefix 0 r0 l) as [k Hk].
    erewrite rbind_ok.
    2:{ apply parse_ranges_bytes; [done|by apply fit_below|split; lia|done| |];
        apply Forall_forall; intros r Hr.
        - specialize (Hb r). rewrite Hk in Hb. destruct Hb; [set_solver|]. split; lia.
        - apply Hdr. rewrite Hk. set_solver. }
    destruct (fit 0 r0 l) as [|r1 w] using rev_ind; [done|]. clear IHw.
    assert (match w ++ [r1] with [] => false | _ => true end = true) as -> by (by destruct w).
    cbn [negb]. rewrite reverse_snoc. cbn [app]. cbv [mret reader_ret].
    do 3 f_equal.
    + rewrite reverse_cons, reverse_app, reverse_involutive. simpl. by rewrite app_comm_cons.
    + rewrite app_comm_cons, last_last. done.
Qed.

Lemma AckFrame_rt s :
  bytes_ok s → ParseAckFrame v (AckFrame_bytes ++ s) = Ok (AckFrame_received now f, s).
Proof using Hok Hlow Hgap.
  intros Hs. destruct (largestLen_ok f Hok) as [Hll Hlb].
  destruct (deltaLen_ok f Hok Hlow) as (Hdl & _ & _). pose proof Hok as (Hpid & ? & ? & _).
  destruct (ack_typeByte_fields f Hll Hdl) as (_ & _ & Hhm & Hpp & Hwl & Hwd).
  unfold ParseAckFrame, AckFrame_bytes. cbn [app]. rstep. cbv zeta in *.
  rewrite Hhm, Hpp, Hwl, Hwd. rewrite <- !app_assoc.
  assert (∀ t, (if negb (ack_PathID f =? InitialPathID) then ReadByte else mret 0)
    ((if negb (ack_PathID f =? InitialPathID) then [ack_PathID f] else []) ++ t)
    = Ok (ack_PathID f, t)) as Hpath.
  { intros t. destruct (Z.eqb_spec (ack_PathID f) InitialPathID) as [->|]; done. }
  erewrite rbind_ok by apply Hpath.
  erewrite rbind_ok by (apply read_encN; [done|lia]).
  erewrite rbind_ok.
  2:{ apply ReadUfloat16_enc; [apply ufloat16_of_range, u64_range|].
      apply bytes_ok_app; [|apply bytes_ok_app; [apply AckFrame_blocks_bytes|by apply (bytes_ok_cons 0 s)]].
      unfold HasMissingRanges. destruct (ack_AckRanges f) as [|r0 l] eqn:E; [constructor|].
      destruct (numWritable_ok r0 l E) as (-> & ? & _).
      apply bytes_ok_cons; [unfold is_u8; lia|constructor]. }
  assert (∀ t, (if HasMissingRanges f then ReadByte else mret 0)
    ((if HasMissingRanges f then [numWritableNackRanges f - 1] else []) ++ t)
    = Ok (if HasMissingRanges f then numWritableNackRanges f - 1 else 0, t)) as Hnb.
  { intros t. by destruct (HasMissingRanges f). }
  erewrite rbind_ok by apply Hnb.
  assert (HasMissingRanges f &&
    ((if HasMissingRanges f then numWritableNackRanges f - 1 else 0) =? 0) = false) as ->.
  { unfold HasMissingRanges. destruct (ack_AckRanges f) as [|r0 l] eqn:E; [done|].
    destruct (numWritable_ok r0 l E) as (-> & ? & _). simpl. apply Z.eqb_neq. lia. }
  erewrite rbind_ok by (apply parse_ranges_ok; by apply (bytes_ok_cons 0 s)).
  cbv beta iota zeta. match goal with |- context [validateAckRanges ?g] =>
    change g with (AckFrame_received now f) end.
  assert (validateAckRanges (AckFrame_received now f) = true) as ->.
  { unfold validateAckRanges. simpl. destruct (ack_AckRanges f) as [|r0 l] eqn:E.
    - unfold writable. by rewrite E.
    - by apply (validate_writable r0 l). }
  cbn [negb app]. rstep. done.
Qed.
End AckRoundtrip.

Lemma fit_all n prev l :
  ranges_below prev l → n + total_blocks prev l < 255 → fit n prev l = l.
Proof.
  revert n prev. induction l as [|r l IH]; intros n prev; simpl; [done|]. intros (?&?&Hl) Hn.
  pose proof (total_blocks_nonneg _ _ Hl).
  destruct (Z.ltb_spec (n + gap_blocks (range_gap prev r)) 255); [|lia].
  f_equal. apply IH; [done|lia].
Qed.

(** The ranges that fit are as many as possible: one more would need 255 blocks or more. *)
Lemma fit_longest n prev l :
  n < 255 → ∃ k, l = fit n prev l ++ k ∧ n + total_blocks prev (fit n prev l) < 255 ∧
    ∀ r k', k = r :: k' → 255 <= n + total_blocks prev (fit n prev l ++ [r]).
Proof.
  revert n prev. induction l as [|r l IH]; intros n prev Hn; simpl; [exists []; split_and!; [done|lia|done]|].
  destruct (Z.ltb_spec (n + gap_blocks (range_gap prev r)) 255) as [Hr|Hr].
  - destruct (IH _ r Hr) as (k & El & Hlt & Hmore). exists k. simpl. split_and!; [by rewrite <- El|lia|].
    intros r' k' Ek. specialize (Hmore r' k' Ek). lia.
  - exists (r :: l). simpl. split_and!; [done|lia|]. intros r' k' [= <- <-]. lia.
Qed.

(** C22: an ACK frame over packet numbers below 2^48, whose lowest packet number is at least 1 and whose first missing range
    needs fewer than 255 blocks, is written, and read back with the same path, the same largest packet number and
    the delay rounded to the wire format.  Without missing packets the lowest packet number is the same too.  With missing packets the
    ranges read are the first range and as many of the following ones, at least one, as fit into fewer than 255 blocks (a gap of up to 255
    packets needs one block): if ranges are left out, the next one would need the 255th block.  The lowest packet number is the first of the last
    range read, so that if no range was left out it is that of the frame. *)
Theorem ack_frame_roundtrip (v now : Z) (f : AckFrame) (s : list Z) :
  AckFrame_ok f → 1 <= ack_LowestAcked f → first_gap_fits f → bytes_ok s →
  ∃ bs g, AckFrame_Write now f v = Ok bs ∧ ParseAckFrame v (bs ++ s) = Ok (g, s) ∧
    ack_PathID g = ack_PathID f ∧ ack_LargestAcked g = ack_LargestAcked f ∧
    ack_DelayTime g = wire_rtt (now - ack_PacketReceivedTime f) ∧
    match ack_AckRanges f with
    | [] => ack_AckRanges g = [] ∧ ack_LowestAcked g = ack_LowestAcked f
    | r0 :: l => ∃ p k, l = p ++ k ∧ ack_AckRanges g = r0 :: p ∧ p <> [] ∧ total_blocks r0 p < 255 ∧
        (∀ r k', k = r :: k' → 255 <= total_blocks r0 (p ++ [r])) ∧
        ack_LowestAcked g = First (List.last (r0 :: p) r0) ∧ (k = [] → ack_LowestAcked g = ack_LowestAcked f)
    end.
Proof.
  intros Hok Hlow Hgap Hs. exists (AckFrame_bytes v now f), (AckFrame_received now f).
  split_and!; [by apply AckFrame_Write_eq|by apply AckFrame_rt|done|done|done|].
  destruct Hok as (_ & _ & _ & Hr). unfold AckFrame_received, writable, first_gap_fits in *. cbn.
  destruct (ack_AckRanges f) as [|r0 l]; [done|]. destruct Hr as (Hne & _ & _ & Hb & Elow).
  destruct (fit_longest 0 r0 l ltac:(lia)) as (k & El & Hlt & Hmore). exists (fit 0 r0 l), k.
  split_and!; [done|done| |done|done|done|].
  - destruct l as [|r1 l]; [done|]. cbn [fit]. by rewrite (proj2 (Z.ltb_lt _ _)).
  - intros ->. rewrite app_nil_r in El. by rewrite <- El.
Qed.

Definition sample_ack : AckFrame :=
  mkAckFrame 3 1000 1 [mkAckRange 900 1000; mkAckRange 300 305; mkAckRange 1 20] 5000 0.

Lemma sample_ack_ok : AckFrame_ok sample_ack.
Proof.
  unfold AckFrame_ok, is_u8. simpl. split_and!; done || lia.
Qed.

Lemma ack_frame_roundtrip_witness :
  ∃ bs g, AckFrame_Write 20000 sample_ack 39 = Ok bs ∧ ParseAckFrame 39 (bs ++ [7]) = Ok (g, [7]) ∧
    ack_PathID g = ack_PathID sample_ack ∧ ack_LargestAcked g = ack_LargestAcked sample_ack ∧
    ack_DelayTime g = wire_rtt (20000 - ack_PacketReceivedTime sample_ack) ∧
    ∃ p k, [mkAckRange 300 305; mkAckRange 1 20] = p ++ k ∧ ack_AckRanges g = mkAckRange 900 1000 :: p ∧ p <> [] ∧
      total_blocks (mkAckRange 900 1000) p < 255 ∧
      (∀ r k', k = r :: k' → 255 <= total_blocks (mkAckRange 900 1000) (p ++ [r])) ∧
      ack_LowestAcked g = First (List.last (mkAckRange 900 1000 :: p) (mkAckRange 900 1000)) ∧
      (k = [] → ack_LowestAcked g = ack_LowestAcked sample_ack).
Proof.
  apply (ack_frame_roundtrip 39 20000 sample_ack [7]).
  - exact sample_ack_ok.
  - simpl. lia.
  - vm_compute. reflexivity.
  - bytes_tac.
Defined.

(** An ACK frame whose first missing range needs 255 blocks or more (more than 64770 missing
    packets) cannot be written at all: the writer reports an internal inconsistency, because the
    loop over the ranges writes one range before it compares the count with the announced one. *)
Theorem ack_frame_long_gap_fails (v now : Z) (f : AckFrame) :
  AckFrame_ok f → 1 <= ack_LowestAcked f → ack_AckRanges f <> [] → ¬ first_gap_fits f →
  AckFrame_Write now f v
  = Err (ErrorString "BUG: Inconsistent number of ACK ranges written").
Proof.
  intros Hok Hlow Hne Hgap. pose proof Hok as (Hpid & Hll & Hl48 & Hr).
  destruct (deltaLen_ok f Hok Hlow) as (Hdl & _ & Hdr). destruct (largestLen_ok f Hok) as [? ?].
  unfold first_gap_fits in Hgap. destruct (ack_AckRanges f) as [|r0 [|r1 l]] eqn:E; [done..|].
  destruct Hr as (_ & Hlast & Hle & Hbel & Hlow').
  pose proof (AckFrame_ok_bounds f r0 (r1 :: l) Hok E) as Hb.
  pose proof (Hb r0 ltac:(set_solver)) as Hb0. pose proof (Hb r1 ltac:(set_solver)) as Hb1.
  pose proof (Hdr r0 ltac:(set_solver)) as Hd0. pose proof (Hdr r1 ltac:(set_solver)) as Hd1.
  pose proof Hbel as (H1 & H2 & _).
  assert (numWritableNackRanges f = 1) as Hnum.
  { unfold numWritableNackRanges, numWritable. rewrite E.
    rewrite numWritable_loop_fit; [|done|split; lia|done|].
    - simpl. destruct (Z.ltb_spec (0 + gap_blocks (range_gap r0 r1)) 255); [lia|done].
    - apply Forall_forall. intros r Hr. specialize (Hb r ltac:(set_solver)). split; lia. }
  unfold AckFrame_Write. rewrite write_len_ok by side. cbn [mbind result_bind].
  unfold HasMissingRanges. rewrite E, Hnum. cbn [length Nat.eqb negb andb].
  change (1 >? 255) with false. cbv iota. unfold write_blocks.
  rewrite <- Hlast, Z.eqb_refl, Hlow', Z.eqb_refl. cbn [negb].
  rewrite len_u64, write_len_ok by (unfold range_len in *; side). cbn [mbind result_bind].
  cbn [write_ack_ranges]. rewrite gap_u64, len_u64 by lia.
  rewrite (write_range_ok (GetByteOrder v) _ Hdl (write_len (GetByteOrder v) _)
    (λ x Hx, write_len_ok v _ x Hdl Hx)) by side.
  cbn [mbind result_bind]. rewrite Z.geb_leb.
  destruct (Z.leb_spec 1 (1 + gap_blocks (range_gap r0 r1))); [|lia]. cbn [mbind result_bind].
  destruct (Z.eqb_spec 1 (1 + gap_blocks (range_gap r0 r1))); [lia|done].
Qed.

Lemma ack_frame_long_gap_fails_witness :
  AckFrame_Write 0 (mkAckFrame 3 100000 1 [mkAckRange 90000 100000; mkAckRange 1 20] 0 0) 39
  = Err (ErrorString "BUG: Inconsistent number of ACK ranges written").
Proof.
  apply (ack_frame_long_gap_fails 39 0
    (mkAckFrame 3 100000 1 [mkAckRange 90000 100000; mkAckRange 1 20] 0 0)).
  - unfold AckFrame_ok, is_u8. simpl. split_and!; done || lia.
  - simpl. lia.
  - done.
  - unfold first_gap_fits. simpl. vm_compute. intros H. discriminate H.
Defined.

(** ** What the parser accepts *)

(** A range as the parser builds it: inverted, or with a length below 2^48 modulo 2^64. *)
Definition range_raw (r : AckRange) : Prop :=
  is_u64 (First r) ∧ is_u64 (Last r) ∧
  (First r > Last r ∨ 0 < u64 (Last r + 1 - First r) < 2^48).

(** The loop over the blocks, after at least one block: the newest range is either open, with
    length zero, or closed; the first range is still at the end. *)
Definition blocks_inv (r0 : AckRange) (acc : list AckRange) (inLongBlock complete : bool) : Prop :=
  ∃ h t, acc = h :: t ++ [r0] ∧ Forall range_raw t ∧ is_u64 (First h) ∧ is_u64 (Last h) ∧
    complete = negb inLongBlock ∧
    if inLongBlock then u64 (Last h + 1 - First h) = 0
    else 0 < u64 (Last h + 1 - First h) < 2^48.

Lemma new_block_inv r0 acc r gap len :
  (acc = [r] ∧ r = r0) ∨ (∃ t, acc = r :: t ++ [r0] ∧ Forall range_raw t ∧ range_raw r) →
  0 <= len < 2^48 →
  blocks_inv r0
    (mkAckRange (First r -u64 gap -u64 1 -u64 len +u64 1) (First r -u64 gap -u64 1) :: acc)
    (len =? 0) (if len >? 0 then true else false).
Proof.
  intros Hacc Hlen. unfold blocks_inv. eexists _, (match acc with [_] => [] | _ => removelast acc end).
  cbn [First Last]. assert (u64 (u64 (u64 (First r - gap) - 1) + 1 -
    u64 (u64 (u64 (u64 (First r - gap) - 1) - len) + 1)) = len) as E by zwrap.
  split_and!; auto with quic.
  - f_equal. destruct Hacc as [[-> ->]|(t & -> & _ & _)]; [done|].
    destruct t as [|x t]; [done|]. cbn [app]. rewrite !app_comm_cons, removelast_last. done.
  - destruct Hacc as [[-> _]|(t & -> & Ht & Hr)]; [constructor|].
    destruct t as [|x t]; [by constructor|]. cbn [app].
    rewrite !app_comm_cons, removelast_last. by constructor.
  - apply u64_range.
  - apply u64_range.
  - rewrite Z.gtb_ltb. destruct (Z.eqb_spec len 0), (Z.ltb_spec 0 len); done || lia.
  - cbn [First Last]. rewrite E. destruct (Z.eqb_spec len 0); lia.
Qed.

Lemma long_block_inv r0 r rest gap len :
  blocks_inv r0 (r :: rest) true false → 0 <= len < 2^48 →
  blocks_inv r0 (mkAckRange (First r -u64 (gap +u64 len)) (Last r -u64 gap) :: rest)
    (len =? 0) (if len >? 0 then true else false).
Proof.
  intros (h & t & [= -> ->] & Ht & ? & ? & _ & Hz) Hlen. eexists _, t. cbn [First Last].
  assert (u64 (u64 (Last h - gap) + 1 - u64 (First h - u64 (gap + len))) = len) as E
    by zwrap.
  split_and!; [done|done|apply u64_range|apply u64_range|..].
  - rewrite Z.gtb_ltb. destruct (Z.eqb_spec len 0), (Z.ltb_spec 0 len); done || lia.
  - cbn [First Last]. rewrite E. destruct (Z.eqb_spec len 0); lia.
Qed.

Section ParsedAck.
Context (bo : ByteOrder) `{!ByteOrderLaws bo}.
Context (dlen : Z) (Hdlen : 1 <= dlen <= 6).

Lemma read_dlen : ensures (ReadUintN bo dlen) (λ x, 0 <= x < 2^48).
Proof using Type*.
  intros s Hs. pose proof (safe_ReadUintN bo dlen ltac:(lia) s Hs) as H.
  destruct (ReadUintN bo dlen s) as [[x s']| |] eqn:E; [|done..]. split; [done|].
  rewrite <- (Z2Nat.id dlen) in E by lia.
  apply read_enc_inv in E as [_ Hx]; [|lia|done]. rewrite Z2Nat.id in Hx by lia.
  enough (2^(8 * dlen) <= 2^48) by lia. apply Z.pow_le_mono_r; lia.
Qed.

Lemma parse_ack_blocks_inv r0 n acc il c :
  (acc = [r0] ∧ il = false ∧ c = false ∧ (0 < n)%nat) ∨ blocks_inv r0 acc il c →
  ensures (parse_ack_blocks bo dlen n acc il c)
    (λ '(acc', c'), blocks_inv r0 acc' (negb c') c').
Proof using Type*.
  revert acc il c. induction n as [|n IH]; intros acc il c Hinv.
  { destruct Hinv as [(_&_&_&?)|Hinv]; [lia|]. apply ensures_ret.
    assert (il = negb c) as ->; [|done]. destruct Hinv as (?&?&_&_&_&_&->&_). by destruct il. }
  cbn [parse_ack_blocks]. eapply ensures_bind; [apply ensures_ReadByte|intros gap _].
  eapply ensures_bind; [apply read_dlen|intros len Hlen]. cbv beta zeta in *.
  destruct acc as [|r rest].
  { exfalso. by destruct Hinv as [[? _]|(?&?&?&_)]. }
  destruct il; apply IH; right.
  - destruct Hinv as [(_&?&_)|Hinv]; [done|].
    assert (c = false) as -> by (by destruct Hinv as (?&?&_&_&_&_&->&_)).
    by apply long_block_inv.
  - apply new_block_inv; [|done]. destruct Hinv as [([= -> ->]&_)|Hinv]; [by left|right].
    destruct Hinv as (h & t & [= -> ->] & ? & ? & ? & _ & ?). exists t.
    split_and!; [done..|]. split_and!; [done..|by right].
Qed.

Lemma parse_ranges_inv largest miss n :
  0 <= largest < 2^48 → (miss = true → 0 < n) →
  ensures (parse_ranges bo dlen largest miss n) (λ '(rs, lowest),
    if miss then Forall range_raw rs ∧ rs <> [] ∧ lowest = First (List.last rs (mkAckRange 0 0))
    else rs = [] ∧ 0 <= lowest <= largest).
Proof using Type*.
  intros Hl Hn. unfold parse_ranges. eapply ensures_bind; [apply read_dlen|intros len Hlen].
  cbv beta in Hlen. destruct ((largest >? 0) && (len <? 1)) eqn:E1; [apply ensures_fail|].
  destruct (len >? largest) eqn:E2; [apply ensures_fail|]. zbool.
  assert (largest = 0 ∨ 1 <= len) as Hpos.
  { apply andb_false_iff in E1 as [?|?]; zbool; lia. }
  destruct miss.
  - set (r0 := mkAckRange _ _). assert (range_raw r0) as Hr0.
    { unfold range_raw, r0; cbn [First Last]. rewrite (u64_id (largest - len)) by (unfold is_u64; lia).
      rewrite (u64_id (largest - len + 1)) by (unfold is_u64; lia). unfold is_u64.
      split_and!; [lia..|].
      destruct (decide (largest = 0)); [left; lia|right].
      rewrite u64_id by (unfold is_u64; lia). lia. } 
    eapply ensures_bind.
    { apply (parse_ack_blocks_inv r0). left. split_and!; [done..|]. specialize (Hn eq_refl). lia. }
    intros [acc c] (h & t & -> & Ht & ? & ? & _ & Hlast).
    destruct c; cbn [negb tail].
    + apply ensures_ret. split_and!.
      * apply Forall_reverse. constructor; [split_and!; [done..|by right]|].
        apply Forall_app. by split; [|constructor].
      * intros E%(f_equal length). rewrite length_reverse in E. done.
      * by rewrite reverse_cons, last_last.
    + destruct (t ++ [r0]) as [|x l] eqn:Et; [by destruct t|]. apply ensures_ret. split_and!.
      * apply Forall_reverse. rewrite <- Et. apply Forall_app. by split; [|constructor].
      * intros E%(f_equal length). rewrite length_reverse in E. done.
      * by rewrite reverse_cons, last_last.
  - apply ensures_ret. split; [done|]. destruct (Z.eqb_spec largest 0); [lia|].
    rewrite (u64_id (largest + 1)), u64_id by (unfold is_u64; lia). lia.
Qed.
End ParsedAck.

Lemma raw_length r :
  range_raw r → First r <= Last r → 0 <= First r ∧ Last r + 1 - First r < 2^48.
Proof. unfold range_raw. intros (? & ? & [?|?]) ?; [lia|]. zwrap. Qed.

(** Validation at 64 bits gives the order of the ranges: no comparison wrapped. *)
Lemma consistent_below r0 l :
  First r0 < 2^48 → Forall (λ r, range_raw r ∧ First r <= Last r) l →
  ranges_consistent r0 l = true → ranges_below r0 l.
Proof.
  intros H0 Hl. revert r0 H0. induction Hl as [|r l [Hr Hle] Hl IH]; intros r0 H0; simpl; [done|].
  pose proof (raw_length r Hr Hle) as [? ?].
  destruct (Z.leb_spec (First r0) (First r)); [done|].
  rewrite u64_id by (unfold is_u64; lia).
  destruct (Z.leb_spec (First r0) (Last r + 1)); [done|]. intros Hc.
  split_and!; [done|lia|apply IH; [lia|done]].
Qed.

Lemma below_last_nonneg r0 l :
  ranges_below r0 l → Forall (λ r, 0 <= First r) (r0 :: l) →
  0 <= First (List.last (r0 :: l) r0) <= First r0.
Proof.
  intros Hb Hf. assert (∀ d, 0 <= First (List.last (r0 :: l) d) <= First r0) as H; [|apply H].
  intros d. revert r0 Hb Hf. induction l as [|r l IH]; intros r0 Hb Hf.
  { inversion Hf. simpl. lia. }
  destruct Hb as (? & ? & Hb). inversion Hf as [|? ? ? Hf']; subst.
  specialize (IH r Hb Hf'). change (List.last (r0 :: r :: l) d) with (List.last (r :: l) d). lia.
Qed.

Lemma last_default {A} (l : list A) d d' : l <> [] → List.last l d = List.last l d'.
Proof.
  induction l as [|x l IH]; [done|]. intros _. destruct l as [|y l]; [done|].
  change (List.last (y :: l) d = List.last (y :: l) d'). by apply IH.
Qed.

Lemma validated_ok (pathID largest : Z) rs t d :
  is_u8 pathID → 0 <= largest < 2^48 → Forall range_raw rs → rs <> [] →
  let f := mkAckFrame pathID largest (First (List.last rs (mkAckRange 0 0))) rs t d in
  validateAckRanges f = true → AckFrame_ok f.
Proof.
  intros Hp Hl Hraw Hne f. unfold validateAckRanges, validateRanges. cbn.
  destruct rs as [|r0 [|r1 l]]; [done..|]. cbn [ack_AckRanges f].
  destruct (Z.eqb_spec (Last r0) largest) as [Hlast|]; [|done]. cbn [negb].
  destruct (existsb _ _) eqn:Ex; [done|]. intros Hc.
  assert (Forall (λ r, range_raw r ∧ First r <= Last r) (r0 :: r1 :: l)) as Hall.
  { apply Forall_forall. intros r Hr. split; [by eapply Forall_forall in Hraw|].
    destruct (Z_le_gt_dec (First r) (Last r)) as [|Hgt]; [done|].
    enough (existsb (λ r, First r >? Last r) (r0 :: r1 :: l) = true) by congruence.
    apply existsb_exists. exists r. split; [by apply list_elem_of_In|]. apply Z.gtb_gt. lia. }
  apply Forall_cons in Hall as [[Hr0 Hle0] Hl'].
  pose proof (raw_length r0 Hr0 Hle0) as [? ?].
  pose proof (consistent_below r0 (r1 :: l) ltac:(lia) Hl' Hc) as Hb.
  assert (Forall (λ r, 0 <= First r) (r0 :: r1 :: l)) as Hpos.
  { eapply Forall_impl; [exact Hraw|]. intros r [[? _] _]. done. }
  pose proof (below_last_nonneg r0 (r1 :: l) Hb Hpos) as Hlow.
  unfold f, AckFrame_ok. cbn [ack_PathID ack_LowestAcked ack_LargestAcked ack_AckRanges].
  rewrite (last_default (r0 :: r1 :: l) _ r0) by done.
  split_and!; [done|lia|lia|lia|done|done|lia|done|done].
Qed.

Lemma wire_len_range b : 0 <= b <= 3 → 1 <= wire_len b <= 6.
Proof.
  intros. assert (b = 0 ∨ b = 1 ∨ b = 2 ∨ b = 3) as [->|[->|[->| ->]]] by lia; by vm_compute.
Qed.

Lemma land_3_range b : 0 <= Z.land b 3 <= 3.
Proof. 
  change (Z.land b 3) with (Z.land b (Z.ones 2)). rewrite Z.land_ones by lia.
  change (2^2) with 4. zwrap.
Qed.

Lemma land_12_range b : 0 <= Z.shiftr (Z.land b 12) 2 <= 3.
Proof.
  rewrite Z.shiftr_land. change (Z.shiftr 12 2) with 3. apply land_3_range.
Qed.

Lemma safe_skip_timestamps bo `{!ByteOrderLaws bo} n : safe (skip_timestamps bo n).
Proof. induction n; simpl; safe_tac. Qed.

Lemma ParseAckFrame_parses v : parses (ParseAckFrame v) AckFrame_ok.
Proof.
  unfold ParseAckFrame. pose proof (GetByteOrder_laws v) as Hbo. cbv zeta.
  set (bo := GetByteOrder v) in *. clearbody bo.
  apply parses_bind. intros tb Htb.
  eapply (ensures_bind _ _ is_u8).
  { destruct (_ =? 16); [apply ensures_ReadByte|apply ensures_ret; done]. }
  intros pathID Hp. eapply ensures_bind.
  { apply read_dlen; [done|apply wire_len_range, land_12_range]. }
  intros largest Hl. cbv beta in Hl. eapply ensures_bind.
  { apply safe_ensures. auto with quic. }
  intros delay _. eapply (ensures_bind _ _ is_u8).
  { destruct (_ =? 32); [apply ensures_ReadByte|apply ensures_ret; done]. }
  intros n Hn. cbv beta.
  destruct ((_ =? 32) && (n =? 0)) eqn:En; [apply ensures_fail|].
  eapply ensures_bind.
  { apply parse_ranges_inv; [done|apply wire_len_range, land_3_range|done|].
    intros Hm. rewrite Hm in En. simpl in En. zbool. unfold is_u8 in Hn. lia. }
  intros [rs lowest] Hrs. set (f := mkAckFrame _ _ _ _ _ _).
  destruct (validateAckRanges f) eqn:Hv; cbn [negb]; [|apply ensures_fail].
  assert (AckFrame_ok f) as Hok.
  { destruct (_ =? 32).
    - destruct Hrs as (? & ? & ->). by apply validated_ok.
    - destruct Hrs as [-> ?]. unfold f, AckFrame_ok. simpl. split_and!; done || lia. }
  eapply ensures_bind; [apply ensures_ReadByte|intros nt _].
  destruct (nt >? 0); [|by apply ensures_ret].
  eapply ensures_bind; [apply ensures_ReadByte|intros _ _].
  eapply ensures_bind; [apply safe_ensures; auto with quic|intros _ _].
  eapply ensures_bind; [apply safe_ensures, safe_skip_timestamps; done|intros _ _].
  by apply ensures_ret.
Qed.

(** The packets a frame acknowledges. *)
Definition ack_set (f : AckFrame) (p : Z) : Prop :=
  match ack_AckRanges f with
  | [] => ack_LowestAcked f <= p <= ack_LargestAcked f
  | rs => ∃ r, r ∈ rs ∧ First r <= p <= Last r
  end.

Lemma below_last_le r0 l d : ranges_below r0 l → First (List.last (r0 :: l) d) <= First r0.
Proof.
  revert r0. induction l as [|r l IH]; intros r0; [done|]. intros (? & ? & Hb).
  change (List.last (r0 :: r :: l) d) with (List.last (r :: l) d). specialize (IH r Hb). lia.
Qed.

Lemma below_bounds r0 l r :
  First r0 <= Last r0 → ranges_below r0 l → r ∈ r0 :: l →
  First (List.last (r0 :: l) r0) <= First r ∧ Last r <= Last r0.
Proof.
  intros H0 Hb Hr. rewrite (last_default _ r0 r) by done. revert r0 H0 Hb Hr.
  induction l as [|r1 l IH]; intros r0 H0 Hb Hr.
  { apply list_elem_of_singleton in Hr as ->. simpl. lia. }
  destruct Hb as (? & ? & Hb). change (List.last (r0 :: r1 :: l) r) with (List.last (r1 :: l) r).
  apply elem_of_cons in Hr as [->|Hr].
  - pose proof (below_last_le r1 l r0 ltac:(done)). lia.
  - destruct (IH r1) as [? ?]; [done..|]. lia.
Qed.

Lemma AcksPacket_spec f p : AckFrame_ok f → AcksPacket f p = true ↔ ack_set f p.
Proof.
  intros (_ & Hll & _ & Hr). unfold AcksPacket, HasMissingRanges, ack_set.
  destruct (ack_AckRanges f) as [|r0 l] eqn:E; cbn [length Nat.eqb negb].
  - rewrite !Z.gtb_ltb, !Z.geb_leb. destruct (Z.ltb_spec p (ack_LowestAcked f)),
      (Z.ltb_spec (ack_LargestAcked f) p); cbn [orb];
      rewrite ?andb_true_iff, ?Z.leb_le; split; done || lia.
  - destruct Hr as (_ & Hlast & Hle & Hb & Hlow).
    assert (∀ r, r ∈ r0 :: l → First r <= p <= Last r →
            ack_LowestAcked f <= p <= ack_LargestAcked f) as Hin.
    { intros r Hr ?. pose proof (below_bounds r0 l r Hle Hb Hr). lia. }
    assert (existsb (λ r, (p >=? First r) && (p <=? Last r)) (r0 :: l) = true ↔
            ∃ r, r ∈ r0 :: l ∧ First r <= p <= Last r) as Hex.
    { rewrite existsb_exists. setoid_rewrite <- list_elem_of_In.
      setoid_rewrite andb_true_iff. setoid_rewrite Z.geb_leb. by setoid_rewrite Z.leb_le. }
    rewrite <- Hex. rewrite Z.gtb_ltb.
    destruct (existsb _ (r0 :: l)) eqn:Ee.
    + destruct Hex as [(r & Hr & Hp) _]; [done|]. specialize (Hin r Hr Hp).
      destruct (Z.ltb_spec p (ack_LowestAcked f)); [lia|].
      destruct (Z.ltb_spec (ack_LargestAcked f) p); [lia|]. done.
    + by destruct (_ || _).
Qed.

(** C23: on every byte string the ACK parser returns a frame or an error, it never panics; an
    accepted frame is well formed -- ranges in strictly descending order with at least one
    missing packet between neighbours, no wrapped packet number, bounds matching the ranges --
    it is read from a prefix of the input, and [AcksPacket] decides exactly the union of its
    ranges. *)
Theorem ack_frame_parsed_ok (v : Z) (s : list Z) :
  bytes_ok s →
  match ParseAckFrame v s with
  | Ok (f, s') => AckFrame_ok f ∧ (∃ pre, s = pre ++ s') ∧
                  (∀ p, AcksPacket f p = true ↔ ack_set f p)
  | Err _ => True
  | Panic _ => False
  end.
Proof.
  intros Hs. pose proof (ParseAckFrame_parses v s Hs) as H.
  destruct (ParseAckFrame v s) as [[f s']| |]; [|done..].
  destruct H as [(b & pre & ->) ?]. split_and!; [done|by exists (b :: pre)|].
  intros p. by apply AcksPacket_spec.
Qed.

Lemma ack_frame_parsed_ok_witness :
  let s := [0x60; 10; 0; 0; 1; 2; 1; 3; 0; 9] in
  match ParseAckFrame 39 s with
  | Ok (f, s') => AckFrame_ok f ∧ (∃ pre, s = pre ++ s') ∧
                  (∀ p, AcksPacket f p = true ↔ ack_set f p)
  | Err _ => True
  | Panic _ => False
  end.
Proof. apply (ack_frame_parsed_ok 39). bytes_tac. Defined.
