(* ===== verification/ClosePathFrame.v ===== *)
(** * CLOSE_PATH frames

    internal/wire/close_path_frame.go.  The frame announces the packets received on a path that
    is being closed, with the ranges and the block encoding of an ACK frame, but with its flags
    in a byte of their own, the number of blocks before the largest packet number, neither delay
    nor timestamps, and packet numbers that are not masked to 48 bits. *)

From S2P Require Import Prelude ByteOrder Protocol Frames AckFrame.

Record ClosePathFrame : Type := mkClosePathFrame {
  cp_PathID : Z;
  cp_LargestAcked : Z;
  cp_LowestAcked : Z;
  cp_AckRanges : list AckRange;
}.

Definition ClosePathFrame_HasMissingRanges (f : ClosePathFrame) : bool :=
  negb (length (cp_AckRanges f) =? 0)%nat.

Definition ClosePathFrame_validateAckRanges (f : ClosePathFrame) : bool :=
  validateRanges (cp_LargestAcked f) (cp_AckRanges f).

Definition ClosePathFrame_getMissingSequenceNumberDeltaLen (f : ClosePathFrame) : Z :=
  missingDeltaLen (cp_LargestAcked f) (cp_LowestAcked f) (cp_AckRanges f).

Definition ClosePathFrame_numWritableNackRanges (f : ClosePathFrame) : Z :=
  numWritable (cp_AckRanges f).

Definition ClosePathFrame_AcksPacket (f : ClosePathFrame) (p : Z) : bool :=
  if (p <? cp_LowestAcked f) || (p >? cp_LargestAcked f) then false
  else if ClosePathFrame_HasMissingRanges f
  then existsb (λ r, (p >=? First r) && (p <=? Last r)) (cp_AckRanges f)
  else (p >=? cp_LowestAcked f) && (p <=? cp_LargestAcked f).

(** The switch on a length: unlike the ACK frame's, it does not mask to 48 bits. *)
Definition write_len_full (bo : ByteOrder) (len x : Z) : result (list Z) :=
  if len =? PacketNumberLen1 then Ok [u8 x]
  else if len =? PacketNumberLen2 then Ok (WriteUint16 bo (u16 x))
  else if len =? PacketNumberLen4 then Ok (WriteUint32 bo (u32 x))
  else if len =? PacketNumberLen6 then WriteUint48 bo x
  else Ok [].

Definition ClosePathFrame_flags (f : ClosePathFrame) : Z :=
  let largestAckedLen := GetPacketNumberLength (cp_LargestAcked f) in
  let flags := 0 in
  let flags := if ClosePathFrame_HasMissingRanges f then Z.lor flags 16 else flags in
  let flags := if negb (largestAckedLen =? PacketNumberLen1)
               then Z.lxor flags (u8 (Z.shiftl (largestAckedLen / 2) 2)) else flags in
  let missingSequenceNumberDeltaLen := ClosePathFrame_getMissingSequenceNumberDeltaLen f in
  if negb (missingSequenceNumberDeltaLen =? PacketNumberLen1)
  then Z.lxor flags (missingSequenceNumberDeltaLen / 2) else flags.

Definition ClosePathFrame_Write (f : ClosePathFrame) (version : Z) : result (list Z) :=
  let bo := GetByteOrder version in
  let numRanges := if ClosePathFrame_HasMissingRanges f
                   then ClosePathFrame_numWritableNackRanges f else 0 in
  if ClosePathFrame_HasMissingRanges f && (numRanges >? 255)
  then Panic "ClosePathFrame: Too many ACK ranges"
  else
    largest ← write_len_full bo (GetPacketNumberLength (cp_LargestAcked f)) (cp_LargestAcked f);
    blocks ← write_blocks "BUG: Inconsistent number of ACK ranges written in ClosePath"
               (write_len_full bo (ClosePathFrame_getMissingSequenceNumberDeltaLen f))
               (cp_LargestAcked f) (cp_LowestAcked f) (cp_AckRanges f) numRanges;
    Ok ([17; u8 (cp_PathID f); ClosePathFrame_flags f]
        ++ (if ClosePathFrame_HasMissingRanges f then [u8 (numRanges - 1)] else [])
        ++ largest ++ blocks).

Definition ParseClosePathFrame (version : Z) : reader ClosePathFrame :=
  let bo := GetByteOrder version in
  _ ← ReadByte;
  pathID ← ReadByte;
  flags ← ReadByte;
  let hasMissingRanges := Z.land flags 16 =? 16 in
  let largestAckedLen := wire_len (Z.shiftr (Z.land flags 12) 2) in
  let missingSequenceNumberDeltaLen := wire_len (Z.land flags 3) in
  numAckBlocks ← (if hasMissingRanges then ReadByte else mret 0);
  if hasMissingRanges && (numAckBlocks =? 0) then fail ErrInvalidAckRanges
  else
    largestAcked ← ReadUintN bo largestAckedLen;
    '(ranges, lowestAcked) ←
      parse_ranges bo missingSequenceNumberDeltaLen largestAcked hasMissingRanges numAckBlocks;
    let frame := {| cp_PathID := pathID; cp_LargestAcked := largestAcked;
                    cp_LowestAcked := lowestAcked; cp_AckRanges := ranges |} in
    if negb (ClosePathFrame_validateAckRanges frame) then fail ErrInvalidAckRanges
    else mret frame.

Definition ClosePathFrame_MinLength (f : ClosePathFrame) (version : Z) : result Z :=
  let length := 1 + 1 + 1 in
  let length := length + GetPacketNumberLength (cp_LargestAcked f) in
  let missingSequenceNumberDeltaLen := ClosePathFrame_getMissingSequenceNumberDeltaLen f in
  Ok (if ClosePathFrame_HasMissingRanges f
      then length + (1 + missingSequenceNumberDeltaLen) * ClosePathFrame_numWritableNackRanges f
      else length + missingSequenceNumberDeltaLen).

#[export] Instance ClosePathFrame_frame : Frame ClosePathFrame :=
  { Write := ClosePathFrame_Write; MinLength := ClosePathFrame_MinLength }.

(** ** The frame as an ACK of the same packets *)

Definition cp_ack (f : ClosePathFrame) : AckFrame :=
  mkAckFrame (cp_PathID f) (cp_LargestAcked f) (cp_LowestAcked f) (cp_AckRanges f) 0 0.

Definition ack_cp (f : AckFrame) : ClosePathFrame :=
  mkClosePathFrame (ack_PathID f) (ack_LargestAcked f) (ack_LowestAcked f) (ack_AckRanges f).

Definition ClosePathFrame_ok (f : ClosePathFrame) : Prop := AckFrame_ok (cp_ack f).

Lemma write_len_full_ok v len x :
  valid_pn_len len → 0 <= x < 2^(8 * len) →
  write_len_full (GetByteOrder v) len x = Ok (encN (GetByteOrder v) len x).
Proof.
  intros Hl Hx. rewrite <- write_len_ok by done. unfold write_len, write_len_full.
  destruct Hl as [->|[->|[->| ->]]]; [done..|]. cbn [Z.mul Pos.mul] in Hx.
  change (Z.shiftl 1 48 - 1) with (Z.ones 48). rewrite Z.land_ones, Z.mod_small by lia. done.
Qed.

Lemma cp_flags_fields f :
  valid_pn_len (GetPacketNumberLength (cp_LargestAcked f)) →
  valid_pn_len (ClosePathFrame_getMissingSequenceNumberDeltaLen f) →
  let b := ClosePathFrame_flags f in
  is_u8 b ∧ (Z.land b 16 =? 16) = ClosePathFrame_HasMissingRanges f ∧
  wire_len (Z.shiftr (Z.land b 12) 2) = GetPacketNumberLength (cp_LargestAcked f) ∧
  wire_len (Z.land b 3) = ClosePathFrame_getMissingSequenceNumberDeltaLen f.
Proof.
  unfold ClosePathFrame_flags.
  generalize (GetPacketNumberLength (cp_LargestAcked f))
    (ClosePathFrame_getMissingSequenceNumberDeltaLen f) (ClosePathFrame_HasMissingRanges f).
  intros ll dl hm [->|[->|[->| ->]]] [->|[->|[->| ->]]];
    destruct hm; vm_compute; repeat split; discriminate.
Qed.

Section ClosePathRoundtrip.
Context (v : Z) (f : ClosePathFrame).
Context (Hok : ClosePathFrame_ok f) (Hlow : 1 <= cp_LowestAcked f).
Context (Hgap : first_gap_fits (cp_ack f)).

Abbreviation bo := (GetByteOrder v).
Abbreviation nblocks := (ClosePathFrame_numWritableNackRanges f - 1).

Definition ClosePathFrame_bytes : list Z :=
  [17; cp_PathID f; ClosePathFrame_flags f]
  ++ (if ClosePathFrame_HasMissingRanges f then [nblocks] else [])
  ++ encN bo (GetPacketNumberLength (cp_LargestAcked f)) (cp_LargestAcked f)
  ++ AckFrame_blocks v (cp_ack f).

Lemma cp_nblocks :
  ClosePathFrame_HasMissingRanges f = true → 1 <= nblocks < 255.
Proof using Hok Hlow Hgap.
  unfold ClosePathFrame_HasMissingRanges. destruct (cp_AckRanges f) as [|r0 l] eqn:E; [done|].
  intros _. destruct (numWritable_ok (cp_ack f) Hok Hlow Hgap r0 l E) as (Hn & ? & _).
  unfold ClosePathFrame_numWritableNackRanges, numWritableNackRanges in *. simpl in Hn.
  rewrite Hn. lia.
Qed.

Lemma ClosePathFrame_Write_eq : ClosePathFrame_Write f v = Ok ClosePathFrame_bytes.
Proof using Hok Hlow Hgap.
  destruct (largestLen_ok (cp_ack f) Hok) as [Hll Hlb].
  destruct (deltaLen_ok (cp_ack f) Hok Hlow) as (Hdl & _ & _).
  pose proof Hok as (Hpid & ? & ? & _). simpl in *. unfold ClosePathFrame_Write.
  assert (ClosePathFrame_HasMissingRanges f &&
    ((if ClosePathFrame_HasMissingRanges f then ClosePathFrame_numWritableNackRanges f else 0)
       >? 255) = false) as ->.
  { pose proof cp_nblocks as Hn. destruct (ClosePathFrame_HasMissingRanges f); [|done].
    specialize (Hn eq_refl). simpl. rewrite Z.gtb_ltb. apply Z.ltb_ge. lia. }
  rewrite write_len_full_ok by side. cbn [mbind result_bind].
  pose proof (write_blocks_ok v (cp_ack f) Hok Hlow Hgap
    "BUG: Inconsistent number of ACK ranges written in ClosePath"
    (write_len_full bo (ClosePathFrame_getMissingSequenceNumberDeltaLen f))
    (λ x Hx, write_len_full_ok v _ x Hdl Hx)) as Hw.
  unfold HasMissingRanges, numWritableNackRanges in Hw. simpl in Hw.
  unfold ClosePathFrame_HasMissingRanges, ClosePathFrame_numWritableNackRanges in *.
  rewrite Hw. cbn [mbind result_bind]. unfold ClosePathFrame_bytes.
  rewrite (u8_id (cp_PathID f)) by done. do 2 f_equal. cbn [app].
  unfold ClosePathFrame_HasMissingRanges, ClosePathFrame_numWritableNackRanges.
  pose proof cp_nblocks as Hn.
  unfold ClosePathFrame_HasMissingRanges, ClosePathFrame_numWritableNackRanges in Hn.
  destruct (negb _); [|done]. rewrite u8_id; [done|]. specialize (Hn eq_refl).
  unfold is_u8. lia.
Qed.

Lemma ClosePathFrame_bytes_ok : bytes_ok ClosePathFrame_bytes.
Proof using Hok Hlow Hgap.
  destruct (largestLen_ok (cp_ack f) Hok) as [Hll _].
  destruct (deltaLen_ok (cp_ack f) Hok Hlow) as (Hdl & _ & _).
  destruct (cp_flags_fields f Hll Hdl) as (Hfl & _). pose proof Hok as (Hpid & _).
  unfold ClosePathFrame_bytes. apply bytes_ok_app; [|apply bytes_ok_app; [|apply bytes_ok_app]].
  - apply bytes_ok_cons; [done|]. apply bytes_ok_cons; [done|].
    by apply bytes_ok_cons; [|constructor].
  - pose proof cp_nblocks as Hn. destruct (ClosePathFrame_HasMissingRanges f); [|constructor].
    specialize (Hn eq_refl). apply bytes_ok_cons; [unfold is_u8; lia|constructor].
  - apply enc_bytes.
  - by apply AckFrame_blocks_bytes.
Qed.

Lemma ClosePathFrame_length :
  ClosePathFrame_MinLength f v = Ok (Z.of_nat (length ClosePathFrame_bytes)).
Proof using Hok Hlow Hgap.
  destruct (largestLen_ok (cp_ack f) Hok) as [Hll _]. simpl in Hll.
  assert (0 <= GetPacketNumberLength (cp_LargestAcked f))
    by (destruct Hll as [->|[->|[->| ->]]]; lia).
  pose proof (AckFrame_blocks_length v (cp_ack f) Hok Hlow Hgap) as Hbl.
  unfold HasMissingRanges, numWritableNackRanges, getMissingSequenceNumberDeltaLen in Hbl.
  simpl in Hbl. unfold ClosePathFrame_MinLength, ClosePathFrame_bytes,
    ClosePathFrame_getMissingSequenceNumberDeltaLen, ClosePathFrame_numWritableNackRanges,
    ClosePathFrame_HasMissingRanges.
  f_equal. rewrite !length_app. unfold encN. rewrite enc_length. cbn [length].
  destruct (negb (length (cp_AckRanges f) =? 0)%nat); cbn [length]; lia.
Qed.

Lemma ClosePathFrame_rt s :
  bytes_ok s →
  ParseClosePathFrame v (ClosePathFrame_bytes ++ s) = Ok (ack_cp (AckFrame_received 0 (cp_ack f)), s).
Proof using Hok Hlow Hgap.
  intros Hs. destruct (largestLen_ok (cp_ack f) Hok) as [Hll Hlb].
  destruct (deltaLen_ok (cp_ack f) Hok Hlow) as (Hdl & _ & _).
  pose proof Hok as (Hpid & ? & ? & _). simpl in *.
  destruct (cp_flags_fields f Hll Hdl) as (_ & Hhm & Hwl & Hwd).
  unfold ParseClosePathFrame, ClosePathFrame_bytes. cbn [app]. rstep. rstep. rstep.
  cbv zeta in *. rewrite Hhm, Hwl, Hwd. rewrite <- !app_assoc.
  assert (∀ t, (if ClosePathFrame_HasMissingRanges f then ReadByte else mret 0)
    ((if ClosePathFrame_HasMissingRanges f then [nblocks] else []) ++ t)
    = Ok (if ClosePathFrame_HasMissingRanges f then nblocks else 0, t)) as Hnb.
  { intros t. by destruct (ClosePathFrame_HasMissingRanges f). }
  erewrite rbind_ok by apply Hnb.
  assert (ClosePathFrame_HasMissingRanges f &&
    ((if ClosePathFrame_HasMissingRanges f then nblocks else 0) =? 0) = false) as ->.
  { pose proof cp_nblocks as Hn. destruct (ClosePathFrame_HasMissingRanges f); [|done].
    specialize (Hn eq_refl). apply Z.eqb_neq. lia. }
  erewrite rbind_ok by (apply read_encN; [done|lia]).
  erewrite rbind_ok by (apply (parse_ranges_ok v 0 (cp_ack f) Hok Hlow Hgap s Hs)).
  cbv beta iota zeta. set (g := mkClosePathFrame _ _ _ _).
  assert (ClosePathFrame_validateAckRanges g = true) as ->; [|done].
  unfold ClosePathFrame_validateAckRanges, g. simpl.
  destruct (cp_AckRanges f) as [|r0 l] eqn:E.
  - unfold writable. simpl. by rewrite E.
  - by apply (validate_writable (cp_ack f) Hok Hlow Hgap r0 l).
Qed.
End ClosePathRoundtrip.

Lemma ParseClosePathFrame_parses v : parses (ParseClosePathFrame v) ClosePathFrame_ok.
Proof.
  unfold ParseClosePathFrame. pose proof (GetByteOrder_laws v) as Hbo. cbv zeta.
  set (bo := GetByteOrder v) in *. clearbody bo.
  apply parses_bind. intros _ _.
  eapply ensures_bind; [apply ensures_ReadByte|intros pathID Hp].
  eapply ensures_bind; [apply ensures_ReadByte|intros flags _].
  eapply (ensures_bind _ _ is_u8).
  { destruct (_ =? 16); [apply ensures_ReadByte|apply ensures_ret; done]. }
  intros n Hn. cbv beta.
  destruct ((_ =? 16) && (n =? 0)) eqn:En; [apply ensures_fail|].
  eapply ensures_bind.
  { apply read_dlen; [done|apply wire_len_range, land_12_range]. }
  intros largest Hl. cbv beta in Hl. eapply ensures_bind.
  { apply parse_ranges_inv; [done|apply wire_len_range, land_3_range|done|].
    intros Hm. rewrite Hm in En. simpl in En. zbool. unfold is_u8 in Hn. lia. }
  intros [rs lowest] Hrs. set (f := mkClosePathFrame _ _ _ _).
  destruct (ClosePathFrame_validateAckRanges f) eqn:Hv; cbn [negb]; [|apply ensures_fail].
  apply ensures_ret. unfold ClosePathFrame_ok, cp_ack. destruct (_ =? 16).
  - destruct Hrs as (? & ? & ->). by apply validated_ok.
  - destruct Hrs as [-> ?]. unfold AckFrame_ok. simpl. split_and!; done || lia.
Qed.

(** ** Properties *)

(** A CLOSE_PATH frame over packet numbers below 2^48 whose first missing range needs fewer
    than 255 blocks is written, and read back with the same path and largest packet number and
    the prefix of its ranges that fits, all of them when they fit.  The parser never panics, and
    any frame it accepts is well formed. *)
Theorem close_path_roundtrip (v : Z) (f : ClosePathFrame) (s : list Z) :
  ClosePathFrame_ok f → 1 <= cp_LowestAcked f → first_gap_fits (cp_ack f) → bytes_ok s →
  (∃ bs g, ClosePathFrame_Write f v = Ok bs ∧ ParseClosePathFrame v (bs ++ s) = Ok (g, s) ∧
    cp_PathID g = cp_PathID f ∧ cp_LargestAcked g = cp_LargestAcked f ∧
    (∃ k, cp_AckRanges f = cp_AckRanges g ++ k) ∧
    (∀ r0 l, cp_AckRanges f = r0 :: l → total_blocks r0 l < 255 → g = f) ∧
    (cp_AckRanges f = [] → g = f)) ∧
  (∀ e, ParseClosePathFrame v s <> Panic e) ∧
  (∀ g s', ParseClosePathFrame v s = Ok (g, s') → ClosePathFrame_ok g).
Proof.
  intros Hok Hlow Hgap Hs. split; [|split].
  - exists (ClosePathFrame_bytes v f), (ack_cp (AckFrame_received 0 (cp_ack f))).
    split; [by apply ClosePathFrame_Write_eq|]. split; [by apply ClosePathFrame_rt|].
    destruct f as [pid la lo rs]. simpl in *. unfold ack_cp, AckFrame_received, writable.
    simpl. split_and!; [done|done|..].
    + destruct rs as [|r0 l]; [by exists []|].
      destruct (fit_prefix 0 r0 l) as [k Hk]. exists k. simpl. by rewrite <- Hk.
    + intros r0 l -> Htot. destruct Hok as (_ & _ & _ & Hr). simpl in Hr.
      destruct Hr as (_ & _ & _ & Hb & ->). by rewrite fit_all.
    + intros ->. done.
  - intros e E. pose proof (ParseClosePathFrame_parses v s Hs) as H. by rewrite E in H.
  - intros g s' E. exact (ensures_result _ _ _ _ _ (parses_ensures _ _ (ParseClosePathFrame_parses v)) Hs E).
Qed.

Definition sample_close_path : ClosePathFrame :=
  mkClosePathFrame 3 1000 1 [mkAckRange 900 1000; mkAckRange 300 305; mkAckRange 1 20].

Lemma close_path_roundtrip_witness :
  (∃ bs g, ClosePathFrame_Write sample_close_path 39 = Ok bs ∧
    ParseClosePathFrame 39 (bs ++ [7]) = Ok (g, [7]) ∧
    cp_PathID g = cp_PathID sample_close_path ∧
    cp_LargestAcked g = cp_LargestAcked sample_close_path ∧
    (∃ k, cp_AckRanges sample_close_path = cp_AckRanges g ++ k) ∧
    (∀ r0 l, cp_AckRanges sample_close_path = r0 :: l → total_blocks r0 l < 255 →
       g = sample_close_path) ∧
    (cp_AckRanges sample_close_path = [] → g = sample_close_path)) ∧
  (∀ e, ParseClosePathFrame 39 [7] <> Panic e) ∧
  (∀ g s', ParseClosePathFrame 39 [7] = Ok (g, s') → ClosePathFrame_ok g).
Proof.
  apply (close_path_roundtrip 39 sample_close_path [7]).
  - unfold ClosePathFrame_ok, AckFrame_ok, is_u8. simpl. split_and!; done || lia.
  - simpl. lia.
  - vm_compute. reflexivity.
  - bytes_tac.
Defined.
