(* ===== verification/PublicHeader.v ===== *)
(** * Public headers

    internal/wire/public_header.go and version_negotiation.go.  The peeking
    reader keeps the bytes it has consumed, since [PeekConnectionID] unreads
    them. *)

From S2P Require Import Prelude ByteOrder Protocol Frames.

Definition ErrPacketWithUnknownVersion : error := ErrorString
  "PublicHeader: Received a packet without version number, that we don't know the version for".
Definition errResetAndVersionFlagSet : error := ErrorString
  "PublicHeader: Reset Flag and Version Flag should not be set at the same time".
Definition errReceivedTruncatedConnectionID : error :=
  QuicError InvalidPacketHeader "receiving packets with truncated ConnectionID is not supported".
Definition errInvalidConnectionID : error :=
  QuicError InvalidPacketHeader "connection ID cannot be 0".
Definition errGetLengthNotForVersionNegotiation : error := ErrorString
  "PublicHeader: GetLength cannot be called for VersionNegotiation packets".

Record PublicHeader : Type := mkPublicHeader {
  Raw : list Z;
  ConnectionID : Z;
  hdr_PathID : Z;
  VersionFlag : bool;
  ResetFlag : bool;
  TruncateConnectionID : bool;
  MultipathFlag : bool;
  PacketNumberLen : Z;
  PacketNumber : Z;
  VersionNumber : Z;
  SupportedVersions : list Z;
  DiversificationNonce : list Z;
}.

Definition hasPacketNumber (reset version : bool) (packetSentBy : Perspective) : bool :=
  if reset then false
  else if version && bool_decide (packetSentBy = PerspectiveServer) then false
  else true.

Definition header_hasPacketNumber (h : PublicHeader) : Perspective → bool :=
  hasPacketNumber (ResetFlag h) (VersionFlag h).

(** The public flag byte of a header, without the errors. *)
Definition publicFlagByte (h : PublicHeader) (pers : Perspective) : Z :=
  let b := 0 in
  let b := if VersionFlag h then Z.lor b 1 else b in
  let b := if ResetFlag h then Z.lor b 2 else b in
  let b := if negb (TruncateConnectionID h) then Z.lor b 8 else b in
  let b := if (0 <? length (DiversificationNonce h))%nat then Z.lor b 4 else b in
  let b := if header_hasPacketNumber h pers then
             if PacketNumberLen h =? PacketNumberLen1 then Z.lor b 0
             else if PacketNumberLen h =? PacketNumberLen2 then Z.lor b 16
             else if PacketNumberLen h =? PacketNumberLen4 then Z.lor b 32
             else if PacketNumberLen h =? PacketNumberLen6 then Z.lor b 48
             else b
           else b in
  if MultipathFlag h then Z.lor b 64 else b.

Definition write_packet_number (bo : ByteOrder) (len pn : Z) : result (list Z) :=
  if len =? PacketNumberLen1 then Ok [u8 pn]
  else if len =? PacketNumberLen2 then Ok (WriteUint16 bo (u16 pn))
  else if len =? PacketNumberLen4 then Ok (WriteUint32 bo (u32 pn))
  else if len =? PacketNumberLen6 then WriteUint48 bo (Z.land pn (Z.shiftl 1 48 - 1))
  else Err (ErrorString "PublicHeader: PacketNumberLen not set").

Definition PublicHeader_Write (h : PublicHeader) (version : Z) (pers : Perspective)
  : result (list Z) :=
  if VersionFlag h && ResetFlag h then Err errResetAndVersionFlagSet
  else if (0 <? length (DiversificationNonce h))%nat
          && negb (length (DiversificationNonce h) =? 32)%nat
  then Err (ErrorString "invalid diversification nonce length")
  else
    let front :=
      [publicFlagByte h pers]
      ++ (if negb (TruncateConnectionID h) then WriteUint64 LittleEndian (ConnectionID h) else [])
      ++ (if VersionFlag h && bool_decide (pers = PerspectiveClient)
          then WriteUint32 LittleEndian (VersionNumberToTag (VersionNumber h)) else [])
      ++ DiversificationNonce h
      ++ (if MultipathFlag h then [u8 (hdr_PathID h)] else []) in
    if negb (header_hasPacketNumber h pers) then Ok front
    else
      pn ← write_packet_number (GetByteOrder version) (PacketNumberLen h) (PacketNumber h);
      Ok (front ++ pn).

(** ** Peeking *)

(** A [bytes.Reader] that can unread: the consumed bytes, newest first, and the rest. *)
Definition cursor : Type := list Z * list Z.

Definition UnreadByte (c : cursor) : cursor :=
  match c with
  | (b :: before, after) => (before, b :: after)
  | ([], after) => ([], after)
  end.

(** The cursor after a read that left [rest]. *)
Definition advance (c : cursor) (rest : list Z) : cursor :=
  (reverse (take (length c.2 - length rest) c.2) ++ c.1, rest).

Definition PeekConnectionID (packetSentBy : Perspective) (c : cursor) : result (Z * cursor) :=
  '(flags, rest) ← ReadByte c.2;
  let c1 := advance c rest in
  let truncateConnectionID := Z.land flags 8 =? 0 in
  if truncateConnectionID && bool_decide (packetSentBy = PerspectiveClient)
  then Err errReceivedTruncatedConnectionID
  else if negb truncateConnectionID then
    '(connID, rest) ← ReadUint64 LittleEndian c1.2;
    Ok (connID, UnreadByte (Nat.iter 8 UnreadByte (advance c1 rest)))
  else Ok (0, UnreadByte c1).

(** ** Parsing *)

(** The loop over the version tags: it reads until a read fails. *)
Fixpoint read_versions (fuel : nat) (s : list Z) : list Z * list Z :=
  match fuel with
  | O => ([], s)
  | S fuel =>
      match ReadUint32 LittleEndian s with
      | Ok (tag, s') =>
          let '(vs, s'') := read_versions fuel s' in (VersionTagToNumber tag :: vs, s'')
      | _ => ([], [])
      end
  end.

Definition parse_packet_number_len (flags : Z) : Z :=
  let bits := Z.land flags 48 in
  if bits =? 48 then PacketNumberLen6
  else if bits =? 32 then PacketNumberLen4
  else if bits =? 16 then PacketNumberLen2
  else PacketNumberLen1.

Definition ParsePublicHeader (packetSentBy : Perspective) (version : Z) : reader PublicHeader :=
  flags ← ReadByte;
  let reset := Z.land flags 2 >? 0 in
  let vflag := Z.land flags 1 >? 0 in
  if (version =? VersionUnknown) && negb (vflag || reset) then fail ErrPacketWithUnknownVersion
  else
  let truncate := Z.land flags 8 =? 0 in
  if truncate && bool_decide (packetSentBy = PerspectiveClient)
  then fail errReceivedTruncatedConnectionID
  else
  let pnLen := if hasPacketNumber reset vflag packetSentBy
               then parse_packet_number_len flags else 0 in
  let multipath := Z.land flags 64 >? 0 in
  connID ← (if truncate then mret 0 else ReadUint64 LittleEndian);
  if negb truncate && (connID =? 0) then fail errInvalidConnectionID
  else
  nonce ← (if bool_decide (packetSentBy = PerspectiveServer) && (Z.land flags 4 >? 0)
              && negb vflag && negb reset
           then ReadFull 32 else mret []);
  if negb reset && vflag && bool_decide (packetSentBy = PerspectiveServer) then
    n ← Len;
    if negb (n mod 4 =? 0)
    then fail (ErrorCode InvalidVersionNegotiationPacket)
    else
      versions ← (λ s, Ok (read_versions (S (length s)) s));
      mret {| Raw := []; ConnectionID := connID; hdr_PathID := 0; VersionFlag := vflag;
              ResetFlag := reset; TruncateConnectionID := truncate; MultipathFlag := multipath;
              PacketNumberLen := pnLen; PacketNumber := 0; VersionNumber := 0;
              SupportedVersions := versions; DiversificationNonce := nonce |}
  else
    '(vn, version) ←
      (if negb reset && vflag
       then (tag ← ReadUint32 LittleEndian;
             mret (VersionTagToNumber tag, VersionTagToNumber tag))
       else mret (0, version));
    pathID ← (if multipath then ReadByte else mret 0);
    pn ← (if hasPacketNumber reset vflag packetSentBy
          then ReadUintN (GetByteOrder version) pnLen else mret 0);
    mret {| Raw := []; ConnectionID := connID; hdr_PathID := pathID; VersionFlag := vflag;
            ResetFlag := reset; TruncateConnectionID := truncate; MultipathFlag := multipath;
            PacketNumberLen := pnLen; PacketNumber := pn; VersionNumber := vn;
            SupportedVersions := []; DiversificationNonce := nonce |}.

Definition PublicHeader_GetLength (h : PublicHeader) (pers : Perspective) : result Z :=
  if VersionFlag h && ResetFlag h then Err errResetAndVersionFlagSet
  else if VersionFlag h && bool_decide (pers = PerspectiveServer)
  then Err errGetLengthNotForVersionNegotiation
  else
    let length0 := 1 in
    if header_hasPacketNumber h pers
       && negb (PacketNumberLen h =? PacketNumberLen1) && negb (PacketNumberLen h =? PacketNumberLen2)
       && negb (PacketNumberLen h =? PacketNumberLen4) && negb (PacketNumberLen h =? PacketNumberLen6)
    then Err errPacketNumberLenNotSet
    else
      let length1 := if header_hasPacketNumber h pers
                     then length0 + PacketNumberLen h else length0 in
      let length2 := if negb (TruncateConnectionID h) then length1 + 8 else length1 in
      let length3 := if VersionFlag h then length2 + 4 else length2 in
      let length4 := length3 + Z.of_nat (length (DiversificationNonce h)) in
      Ok (if MultipathFlag h then length4 + 1 else length4).

(** ** version_negotiation.go *)

Definition version_negotiation_header (connectionID : Z) : PublicHeader :=
  {| Raw := []; ConnectionID := connectionID; hdr_PathID := 0; VersionFlag := true;
     ResetFlag := false; TruncateConnectionID := false; MultipathFlag := false;
     PacketNumberLen := 0; PacketNumber := 1; VersionNumber := 0;
     SupportedVersions := []; DiversificationNonce := [] |}.

(** An error of the header is only logged. *)
Definition ComposeVersionNegotiation (connectionID : Z) (versions : list Z) : list Z :=
  match PublicHeader_Write (version_negotiation_header connectionID)
          VersionWhatever PerspectiveServer with
  | Ok bs => bs
  | _ => []
  end ++ concat (map (λ v, WriteUint32 LittleEndian (VersionNumberToTag v)) versions).

(** ** Well-formed headers of regular packets *)

Definition nonce_ok (h : PublicHeader) (pers : Perspective) : Prop :=
  DiversificationNonce h = [] ∨
  (length (DiversificationNonce h) = 32%nat ∧ bytes_ok (DiversificationNonce h) ∧
   pers = PerspectiveServer ∧ VersionFlag h = false ∧ ResetFlag h = false).

Definition number_ok (h : PublicHeader) (pers : Perspective) : Prop :=
  if header_hasPacketNumber h pers
  then valid_pn_len (PacketNumberLen h) ∧ 0 <= PacketNumber h < 2^(8 * PacketNumberLen h)
  else PacketNumberLen h = 0 ∧ PacketNumber h = 0.

Definition connection_ok (h : PublicHeader) (pers : Perspective) : Prop :=
  if TruncateConnectionID h then ConnectionID h = 0 ∧ pers = PerspectiveServer
  else is_u64 (ConnectionID h) ∧ ConnectionID h <> 0.

(** The version: in the header when the client sends it, otherwise known to both sides. *)
Definition version_ok (h : PublicHeader) (pers : Perspective) (wv pv : Z) : Prop :=
  if VersionFlag h
  then ResetFlag h = false ∧ pers = PerspectiveClient ∧ 0 <= VersionNumber h < 1000 ∧
       wv = VersionNumber h
  else VersionNumber h = 0 ∧ wv = pv ∧ (pv <> VersionUnknown ∨ ResetFlag h = true).

Definition PublicHeader_ok (h : PublicHeader) (pers : Perspective) (wv pv : Z) : Prop :=
  Raw h = [] ∧ SupportedVersions h = [] ∧ is_u8 (hdr_PathID h) ∧
  (MultipathFlag h = false → hdr_PathID h = 0) ∧
  nonce_ok h pers ∧ number_ok h pers ∧ connection_ok h pers ∧ version_ok h pers wv pv.

Lemma flag_fields h pers :
  header_hasPacketNumber h pers = false ∨ valid_pn_len (PacketNumberLen h) →
  let b := publicFlagByte h pers in
  is_u8 b ∧ (Z.land b 1 >? 0) = VersionFlag h ∧ (Z.land b 2 >? 0) = ResetFlag h ∧
  (Z.land b 8 =? 0) = TruncateConnectionID h ∧
  (Z.land b 4 >? 0) = (0 <? length (DiversificationNonce h))%nat ∧
  (Z.land b 64 >? 0) = MultipathFlag h ∧
  (header_hasPacketNumber h pers = true → parse_packet_number_len b = PacketNumberLen h).
Proof.
  unfold publicFlagByte. generalize (PacketNumberLen h) (VersionFlag h) (ResetFlag h)
    (TruncateConnectionID h) (0 <? length (DiversificationNonce h))%nat (MultipathFlag h)
    (header_hasPacketNumber h pers).
  intros len vf rf tr nn mp hp [->|Hlen].
  - destruct vf, rf, tr, nn, mp; vm_compute; repeat split; discriminate.
  - destruct Hlen as [->|[->|[->| ->]]]; destruct vf, rf, tr, nn, mp, hp; vm_compute;
      repeat split; discriminate.
Qed.

Lemma write_packet_number_ok v len x :
  valid_pn_len len → 0 <= x < 2^(8 * len) →
  write_packet_number (GetByteOrder v) len x
  = Ok (enc (bo := GetByteOrder v) (Z.to_nat len) x).
Proof.
  intros Hl Hx. rewrite <- write_pn_len by done. unfold write_packet_number.
  by destruct Hl as [->|[->|[->| ->]]].
Qed.

Lemma read_packet_number v len x s :
  valid_pn_len len → 0 <= x < 2^(8 * len) →
  ReadUintN (GetByteOrder v) len (enc (bo := GetByteOrder v) (Z.to_nat len) x ++ s) = Ok (x, s).
Proof.
  intros Hl Hx. assert (0 <= len <= 8) by (destruct Hl as [->|[->|[->| ->]]]; lia).
  rewrite <- (Z2Nat.id len) at 1 by lia. apply read_enc; [lia|]. by rewrite Z2Nat.id by lia.
Qed.

Lemma VersionNumberToTag_u32 v : is_u32 (VersionNumberToTag v).
Proof. apply u32_range. Qed.

Section HeaderRoundtrip.
Context (h : PublicHeader) (pers : Perspective) (wv pv : Z).
Context (Hok : PublicHeader_ok h pers wv pv).

(** The bytes before and after the flag byte's connection ID. *)
Definition header_tail : list Z :=
  (if VersionFlag h then WriteUint32 LittleEndian (VersionNumberToTag (VersionNumber h)) else [])
  ++ DiversificationNonce h
  ++ (if MultipathFlag h then [hdr_PathID h] else [])
  ++ (if header_hasPacketNumber h pers
      then enc (bo := GetByteOrder wv) (Z.to_nat (PacketNumberLen h)) (PacketNumber h) else []).

Definition header_bytes : list Z :=
  publicFlagByte h pers
  :: (if TruncateConnectionID h then [] else WriteUint64 LittleEndian (ConnectionID h))
  ++ header_tail.

Lemma nonce_length :
  (0 <? length (DiversificationNonce h))%nat && negb (length (DiversificationNonce h) =? 32)%nat
  = false.
Proof using Hok.
  destruct Hok as (_ & _ & _ & _ & [->|[-> _]] & _); done.
Qed.

Lemma header_no_reset : VersionFlag h && ResetFlag h = false.
Proof using Hok.
  destruct Hok as (_ & _ & _ & _ & _ & _ & _ & Hv). unfold version_ok in Hv.
  destruct (VersionFlag h); [|done]. by destruct Hv as [-> _].
Qed.

Lemma PublicHeader_Write_eq : PublicHeader_Write h wv pers = Ok header_bytes.
Proof using Hok.
  pose proof Hok as (_ & _ & Hpid & _ & _ & Hn & _ & Hv). unfold PublicHeader_Write.
  rewrite header_no_reset, nonce_length. unfold header_bytes, header_tail.
  assert (VersionFlag h && bool_decide (pers = PerspectiveClient) = VersionFlag h) as ->.
  { unfold version_ok in Hv. destruct (VersionFlag h); [|done].
    destruct Hv as (_ & -> & _). by rewrite bool_decide_eq_true_2. }
  rewrite (u8_id (hdr_PathID h)) by done. unfold number_ok in Hn.
  assert (∀ {A} (x y : list A), (if negb (TruncateConnectionID h) then x else y)
    = if TruncateConnectionID h then y else x) as Hif by (intros; by destruct (TruncateConnectionID h)).
  rewrite Hif. destruct (header_hasPacketNumber h pers).
  - destruct Hn as [Hl Hpn]. cbn [negb]. rewrite write_packet_number_ok by done.
    cbn [mbind result_bind]. cbn [app]. by rewrite <- !app_assoc.
  - cbn [negb app]. by rewrite app_nil_r.
Qed.

Lemma header_tail_bytes : bytes_ok header_tail.
Proof using Hok.
  pose proof Hok as (_ & _ & Hpid & _ & Hnc & _ & _ & _). unfold header_tail.
  repeat apply bytes_ok_app.
  - destruct (VersionFlag h); [|constructor]. rewrite write_32. apply enc_bytes.
  - destruct Hnc as [->|(_ & ? & _)]; [constructor|done].
  - destruct (MultipathFlag h); [|constructor]. by apply bytes_ok_cons; [|constructor].
  - destruct (header_hasPacketNumber h pers); [apply enc_bytes|constructor].
Qed.

Lemma read_connection s :
  bytes_ok s →
  (if TruncateConnectionID h then mret 0 else ReadUint64 LittleEndian : reader Z)
    ((if TruncateConnectionID h then [] else WriteUint64 LittleEndian (ConnectionID h)) ++ s)
  = Ok (ConnectionID h, s).
Proof using Hok.
  intros Hs. destruct Hok as (_ & _ & _ & _ & _ & _ & Hc & _). unfold connection_ok in Hc.
  destruct (TruncateConnectionID h); [by destruct Hc as [-> _]|].
  destruct Hc. rewrite write_64. by apply (ReadUint64_enc LittleEndian).
Qed.

Lemma read_nonce s :
  (if bool_decide (pers = PerspectiveServer) && (0 <? length (DiversificationNonce h))%nat
      && negb (VersionFlag h) && negb (ResetFlag h)
   then ReadFull 32 else mret [] : reader (list Z)) (DiversificationNonce h ++ s)
  = Ok (DiversificationNonce h, s).
Proof using Hok.
  destruct Hok as (_ & _ & _ & _ & Hnc & _). destruct Hnc as [->|(Hl & _ & -> & -> & ->)].
  - by rewrite andb_false_r.
  - rewrite Hl. apply ReadFull_app. done.
Qed.

Lemma read_version t :
  bytes_ok t →
  (if VersionFlag h
   then (tag ← ReadUint32 LittleEndian; mret (VersionTagToNumber tag, VersionTagToNumber tag))
   else mret (0, pv) : reader (Z * Z))
    ((if VersionFlag h then WriteUint32 LittleEndian (VersionNumberToTag (VersionNumber h))
      else []) ++ t) = Ok ((VersionNumber h, wv), t).
Proof using Hok.
  intros Ht. destruct Hok as (_ & _ & _ & _ & _ & _ & _ & Hv). unfold version_ok in Hv.
  destruct (VersionFlag h).
  - destruct Hv as (_ & _ & ? & ->). rewrite write_32. erewrite rbind_ok.
    2:{ apply (ReadUint32_enc LittleEndian); [apply VersionNumberToTag_u32|done]. }
    by rewrite version_tag_id.
  - by destruct Hv as (-> & -> & _).
Qed.

Lemma read_path t :
  (if MultipathFlag h then ReadByte else mret 0)
    ((if MultipathFlag h then [hdr_PathID h] else []) ++ t) = Ok (hdr_PathID h, t).
Proof using Hok.
  destruct Hok as (_ & _ & _ & Hmp & _). destruct (MultipathFlag h); [done|]. by rewrite Hmp.
Qed.

Lemma read_number t :
  (if header_hasPacketNumber h pers
   then ReadUintN (GetByteOrder wv) (PacketNumberLen h) else mret 0 : reader Z)
    ((if header_hasPacketNumber h pers
      then enc (bo := GetByteOrder wv) (Z.to_nat (PacketNumberLen h)) (PacketNumber h)
      else []) ++ t) = Ok (PacketNumber h, t).
Proof using Hok.
  destruct Hok as (_ & _ & _ & _ & _ & Hn & _). unfold number_ok in Hn.
  destruct (header_hasPacketNumber h pers).
  - destruct Hn. by apply read_packet_number.
  - by destruct Hn as [_ ->].
Qed.

Lemma PublicHeader_rt s :
  bytes_ok s → ParsePublicHeader pers pv (header_bytes ++ s) = Ok (h, s).
Proof using Hok.
  intros Hs. pose proof Hok as (Hraw & Hsup & Hpid & Hmp & Hnc & Hn & Hc & Hv).
  destruct (flag_fields h pers) as (_ & Hvf & Hrf & Htr & Hnn & Hm & Hpl).
  { unfold number_ok in Hn. destruct (header_hasPacketNumber h pers); [right|by left]. tauto. }
  unfold ParsePublicHeader, header_bytes. cbn [app]. rstep. cbv zeta.
  rewrite Hvf, Hrf, Htr, Hnn, Hm. change (hasPacketNumber (ResetFlag h) (VersionFlag h) pers)
    with (header_hasPacketNumber h pers). 
  assert ((pv =? VersionUnknown) && negb (VersionFlag h || ResetFlag h) = false) as ->.
  { unfold version_ok in Hv. destruct (VersionFlag h); [by rewrite andb_false_r|].
    destruct Hv as (_ & _ & [?| ->]); [|by rewrite andb_false_r].
    by destruct (Z.eqb_spec pv VersionUnknown). }
  assert (TruncateConnectionID h && bool_decide (pers = PerspectiveClient) = false) as ->.
  { unfold connection_ok in Hc. destruct (TruncateConnectionID h); [|done].
    by destruct Hc as [_ ->]. }
  rewrite <- app_assoc. erewrite rbind_ok.
  2:{ apply read_connection. apply bytes_ok_app; [apply header_tail_bytes|done]. }
  assert (negb (TruncateConnectionID h) && (ConnectionID h =? 0) = false) as ->.
  { unfold connection_ok in Hc. destruct (TruncateConnectionID h); [done|].
    apply Z.eqb_neq. tauto. }
  assert (negb (ResetFlag h) && VersionFlag h && bool_decide (pers = PerspectiveServer) = false)
    as ->.
  { unfold version_ok in Hv. destruct (VersionFlag h); [|by rewrite andb_false_r].
    destruct Hv as (-> & -> & _). done. }
  assert (negb (ResetFlag h) && VersionFlag h = VersionFlag h) as ->.
  { unfold version_ok in Hv. destruct (VersionFlag h); [|by rewrite andb_false_r].
    by destruct Hv as (-> & _). }
  assert ((if header_hasPacketNumber h pers then parse_packet_number_len (publicFlagByte h pers)
           else 0) = PacketNumberLen h) as ->.
  { unfold number_ok in Hn. destruct (header_hasPacketNumber h pers); [by apply Hpl|].
    by destruct Hn as [-> _]. }
  pose proof header_tail_bytes as Htb. unfold header_tail in *. rewrite <- !app_assoc.
  assert (∀ t, (if VersionFlag h then WriteUint32 LittleEndian (VersionNumberToTag (VersionNumber h))
     else []) ++ DiversificationNonce h ++ t
     = DiversificationNonce h ++ (if VersionFlag h
       then WriteUint32 LittleEndian (VersionNumberToTag (VersionNumber h)) else []) ++ t) as Hswap.
  { intros t. destruct Hnc as [->|(_ & _ & _ & -> & _)]; done. }
  rewrite Hswap. erewrite rbind_ok by apply read_nonce.
  erewrite rbind_ok.
  2:{ apply read_version. apply Forall_app in Htb as [_ Htb]. apply Forall_app in Htb as [_ Htb].
      rewrite app_assoc. by apply bytes_ok_app. }
  cbv iota. erewrite rbind_ok by apply read_path. erewrite rbind_ok by apply read_number.
  destruct h; simpl in *. by subst.
Qed.

Lemma header_length : VersionFlag h && bool_decide (pers = PerspectiveServer) = false →
  PublicHeader_GetLength h pers = Ok (Z.of_nat (length header_bytes)).
Proof using Hok.
  intros Hvn. pose proof Hok as (_ & _ & _ & _ & _ & Hn & _). unfold PublicHeader_GetLength.
  rewrite header_no_reset, Hvn. unfold header_bytes, header_tail, number_ok in *.
  rewrite write_64, write_32.
  assert (header_hasPacketNumber h pers
       && negb (PacketNumberLen h =? PacketNumberLen1) && negb (PacketNumberLen h =? PacketNumberLen2)
       && negb (PacketNumberLen h =? PacketNumberLen4) && negb (PacketNumberLen h =? PacketNumberLen6)
       = false) as ->.
  { destruct (header_hasPacketNumber h pers); [|done].
    by destruct Hn as [[->|[->|[->| ->]]] _]. }
  assert (header_hasPacketNumber h pers = true → 0 <= PacketNumberLen h) as Hpos.
  { intros E. rewrite E in Hn. destruct Hn as [[->|[->|[->| ->]]] _]; lia. }
  f_equal. cbn [length]. rewrite !length_app.
  destruct (TruncateConnectionID h), (VersionFlag h), (MultipathFlag h),
    (header_hasPacketNumber h pers); cbn [negb length]; rewrite ?enc_length; lia.
Qed.
End HeaderRoundtrip.

(** ** Peeking, version negotiation, safety *)

Lemma iter_Unread l before after :
  Nat.iter (length l) UnreadByte (reverse l ++ before, after) = (before, l ++ after).
Proof.
  revert after. induction l as [|b l IH] using rev_ind; intros after; [done|].
  rewrite length_app, Nat.add_comm. cbn [length Nat.add]. rewrite Nat.iter_succ_r.
  rewrite reverse_app. cbn [reverse rev_append app UnreadByte]. change (reverse [b]) with [b].
  cbn [app UnreadByte]. rewrite IH. by rewrite <- app_assoc.
Qed.

Lemma advance_app before l rest : advance (before, l ++ rest) rest = (reverse l ++ before, rest).
Proof.
  unfold advance. cbn [fst snd]. rewrite length_app.
  replace (length l + length rest - length rest)%nat with (length l) by lia.
  by rewrite take_app_length.
Qed.

Lemma advance_cons before b rest : advance (before, b :: rest) rest = (b :: before, rest).
Proof. apply (advance_app before [b]). Qed.

Lemma PeekConnectionID_bytes h pers before s :
  connection_ok h pers → bytes_ok s →
  header_hasPacketNumber h pers = false ∨ valid_pn_len (PacketNumberLen h) →
  let c := (before, publicFlagByte h pers
    :: (if TruncateConnectionID h then [] else WriteUint64 LittleEndian (ConnectionID h)) ++ s) in
  PeekConnectionID pers c = Ok (ConnectionID h, c).
Proof.
  intros Hc Hs Hl c. destruct (flag_fields h pers Hl) as (_ & _ & _ & Htr & _).
  unfold PeekConnectionID, c. cbn [snd ReadByte mbind result_bind].
  set (b := publicFlagByte h pers) in *. clearbody b.
  cbv zeta. rewrite !advance_cons.
  rewrite Htr. unfold connection_ok in Hc. destruct (TruncateConnectionID h).
  - destruct Hc as [-> ->]. done.
  - destruct Hc as [Hc _]. cbn [andb negb snd fst]. rewrite write_64.
    rewrite (ReadUint64_enc LittleEndian) by done. cbn [mbind result_bind].
    rewrite advance_app. pose proof (enc_length (bo := LittleEndian) 8 (ConnectionID h)) as Hlen.
    pose proof (iter_Unread (enc (bo := LittleEndian) 8 (ConnectionID h)) (b :: before) s)
      as Hit. rewrite Hlen in Hit. rewrite Hit. done.
Qed.

Lemma tags_bytes vs :
  bytes_ok (concat (map (λ v, WriteUint32 LittleEndian (VersionNumberToTag v)) vs)).
Proof.
  induction vs as [|v vs IH]; [constructor|]. cbn [map concat]. rewrite write_32.
  apply bytes_ok_app; [apply enc_bytes|done].
Qed.

Lemma read_versions_ok vs fuel :
  Forall (λ v, 0 <= v < 1000) vs → (length vs < fuel)%nat →
  read_versions fuel (concat (map (λ v, WriteUint32 LittleEndian (VersionNumberToTag v)) vs))
  = (vs, []).
Proof.
  intros Hvs. revert fuel. induction Hvs as [|v vs Hv Hvs IH]; intros [|fuel] Hf;
    [simpl in Hf; lia|done|simpl in Hf; lia|].
  cbn [map concat read_versions]. rewrite write_32, (ReadUint32_enc LittleEndian).
  - rewrite IH by (simpl in Hf; lia). by rewrite version_tag_id.
  - apply VersionNumberToTag_u32.
  - apply tags_bytes.
Qed.

Lemma tags_length vs :
  length (concat (map (λ v, WriteUint32 LittleEndian (VersionNumberToTag v)) vs))
  = (4 * length vs)%nat.
Proof.
  induction vs as [|v vs IH]; [done|]. cbn [map concat]. rewrite length_app, IH, write_32, enc_length.
  simpl. lia.
Qed.

Lemma parse_packet_number_len_range b : valid_pn_len (parse_packet_number_len b).
Proof.
  unfold parse_packet_number_len, valid_pn_len. case_ifs; tauto.
Qed.

Lemma read_versions_suffix fuel s : bytes_ok s → ∃ pre, s = pre ++ (read_versions fuel s).2.
Proof.
  revert s. induction fuel as [|fuel IH]; intros s Hs; [by exists []|]. cbn [read_versions].
  pose proof (safe_ReadUint32 LittleEndian s Hs) as H.
  destruct (ReadUint32 LittleEndian s) as [[tag s']| |]; [|by exists s; rewrite app_nil_r..].
  destruct H as [pre ->]. apply Forall_app in Hs as [_ Hs].
  destruct (IH s' Hs) as [pre' Hp]. destruct (read_versions fuel s') as [vs s'']. simpl in *.
  exists (pre ++ pre'). by rewrite <- app_assoc, <- Hp.
Qed.

Lemma safe_versions : safe (λ s, Ok (read_versions (S (length s)) s)).
Proof.
  intros s Hs. pose proof (read_versions_suffix (S (length s)) s Hs).
  by destruct (read_versions (S (length s)) s).
Qed.

Lemma safe_LE_64 : safe (ReadUint64 LittleEndian).
Proof. exact (safe_ReadUint64 LittleEndian). Qed.
Lemma safe_LE_32 : safe (ReadUint32 LittleEndian).
Proof. exact (safe_ReadUint32 LittleEndian). Qed.
#[local] Hint Resolve safe_LE_64 safe_LE_32 : quic.

Lemma safe_ParsePublicHeader pers pv : safe (ParsePublicHeader pers pv).
Proof.
  unfold ParsePublicHeader. apply safe_bind; [auto with quic|intros flags]. cbv zeta.
  apply safe_if; [auto with quic|]. apply safe_if; [auto with quic|].
  apply safe_bind; [apply safe_if; auto with quic|intros connID].
  apply safe_if; [auto with quic|].
  apply safe_bind; [apply safe_if; auto with quic|intros nonce].
  apply safe_if.
  - apply safe_bind; [auto with quic|intros n]. apply safe_if; [auto with quic|].
    apply safe_bind; [apply safe_versions|auto with quic].
  - apply safe_bind.
    { apply safe_if; [apply safe_bind|]; auto with quic. }
    intros [vn v']. apply safe_bind; [apply safe_if; auto with quic|intros pathID].
    apply safe_bind; [|auto with quic].
    destruct (hasPacketNumber _ _ _); [|auto with quic]. apply safe_ReadUintN; [apply _|].
    destruct (parse_packet_number_len_range flags) as [->|[->|[->| ->]]]; lia.
Qed.

(** ** Properties *)

(** The public header of a regular packet is written, its announced length is the number of
    bytes written, and it is parsed back unchanged by a peer, whatever payload follows. *)
Theorem public_header_roundtrip (h : PublicHeader) (pers : Perspective) (wv pv : Z) (s : list Z) :
  PublicHeader_ok h pers wv pv → bytes_ok s →
  ∃ bs, PublicHeader_Write h wv pers = Ok bs ∧
    PublicHeader_GetLength h pers = Ok (Z.of_nat (length bs)) ∧
    ParsePublicHeader pers pv (bs ++ s) = Ok (h, s).
Proof.
  intros Hok Hs. exists (header_bytes h pers wv).
  split; [by eapply PublicHeader_Write_eq|]. split; [|by apply PublicHeader_rt].
  eapply header_length; [exact Hok|]. destruct Hok as (_ & _ & _ & _ & _ & _ & _ & Hv).
  unfold version_ok in Hv. destruct (VersionFlag h); [|done]. by destruct Hv as (_ & -> & _).
Qed.

Definition sample_header : PublicHeader :=
  {| Raw := []; ConnectionID := 1234; hdr_PathID := 3; VersionFlag := true; ResetFlag := false;
     TruncateConnectionID := false; MultipathFlag := true; PacketNumberLen := 2;
     PacketNumber := 513; VersionNumber := 512; SupportedVersions := [];
     DiversificationNonce := [] |}.

Lemma public_header_roundtrip_witness :
  ∃ bs, PublicHeader_Write sample_header 512 PerspectiveClient = Ok bs ∧
    PublicHeader_GetLength sample_header PerspectiveClient = Ok (Z.of_nat (length bs)) ∧
    ParsePublicHeader PerspectiveClient VersionUnknown (bs ++ [5]) = Ok (sample_header, [5]).
Proof.
  apply (public_header_roundtrip sample_header PerspectiveClient 512 VersionUnknown [5]).
  - unfold PublicHeader_ok, nonce_ok, number_ok, connection_ok, version_ok, is_u8, is_u64,
      valid_pn_len. simpl. split_and!; auto; lia.
  - bytes_tac.
Defined.

(** Peeking at the connection ID of a written header returns it and puts the reader back
    where it was, so that a following parse sees the whole packet. *)
Theorem peek_connection_id (h : PublicHeader) (pers : Perspective) (wv pv : Z)
    (before s : list Z) :
  PublicHeader_ok h pers wv pv → bytes_ok s →
  ∃ bs, PublicHeader_Write h wv pers = Ok bs ∧
    PeekConnectionID pers (before, bs ++ s) = Ok (ConnectionID h, (before, bs ++ s)).
Proof.
  intros Hok Hs. exists (header_bytes h pers wv). split; [by eapply PublicHeader_Write_eq|].
  unfold header_bytes. cbn [app]. rewrite <- app_assoc.
  pose proof Hok as (_ & _ & _ & _ & _ & Hn & Hc & _). apply PeekConnectionID_bytes; [done|..].
  - apply bytes_ok_app; [|done]. by eapply header_tail_bytes.
  - unfold number_ok in Hn. destruct (header_hasPacketNumber h pers); [right|by left]. tauto.
Qed.

Lemma peek_connection_id_witness :
  ∃ bs, PublicHeader_Write sample_header 512 PerspectiveClient = Ok bs ∧
    PeekConnectionID PerspectiveClient ([9], bs ++ [5]) = Ok (1234, ([9], bs ++ [5])).
Proof.
  apply (peek_connection_id sample_header PerspectiveClient 512 VersionUnknown [9] [5]).
  - unfold PublicHeader_ok, nonce_ok, number_ok, connection_ok, version_ok, is_u8, is_u64,
      valid_pn_len. simpl. split_and!; auto; lia.
  - bytes_tac.
Defined.

(** A version negotiation packet, composed by a server for a client's connection, is parsed
    by the client as exactly the list of versions the server offered. *)
Theorem version_negotiation_roundtrip (connID pv : Z) (versions : list Z) :
  0 < connID < 2^64 → Forall (λ v, 0 <= v < 1000) versions →
  ∃ h, ParsePublicHeader PerspectiveServer pv (ComposeVersionNegotiation connID versions)
       = Ok (h, []) ∧
    ConnectionID h = connID ∧ VersionFlag h = true ∧ ResetFlag h = false ∧ TruncateConnectionID h = false ∧
    SupportedVersions h = versions ∧ header_hasPacketNumber h PerspectiveServer = false.
Proof.
  intros Hc Hvs. exists {| Raw := []; ConnectionID := connID; hdr_PathID := 0;
    VersionFlag := true; ResetFlag := false; TruncateConnectionID := false;
    MultipathFlag := false; PacketNumberLen := 0; PacketNumber := 0; VersionNumber := 0;
    SupportedVersions := versions; DiversificationNonce := [] |}. split_and!; [|done..].
  unfold ComposeVersionNegotiation, PublicHeader_Write.
  cbn [version_negotiation_header VersionFlag ResetFlag DiversificationNonce length Nat.ltb
       Nat.leb andb ConnectionID MultipathFlag header_hasPacketNumber hasPacketNumber
       TruncateConnectionID negb].
  change (bool_decide (PerspectiveServer = PerspectiveServer)) with true.
  change (bool_decide (PerspectiveServer = PerspectiveClient)) with false. cbn [andb negb app].
  rewrite app_nil_r. unfold ParsePublicHeader. rstep.
  change (publicFlagByte _ _) with 9. cbv zeta. rewrite andb_false_r.
  change (Z.land 9 8 =? 0) with false. cbn [andb negb]. rewrite write_64.
  erewrite rbind_ok.
  2:{ apply (ReadUint64_enc LittleEndian); [unfold is_u64; lia|apply tags_bytes]. }
  destruct (Z.eqb_spec connID 0); [lia|].
  change (Z.land 9 1 >? 0) with true. change (Z.land 9 2 >? 0) with false.
  cbn [negb andb]. rewrite andb_false_r.
  change (bool_decide (PerspectiveServer = PerspectiveServer)) with true. cbn [andb].
  erewrite rbind_ok by done. erewrite rbind_ok by done. rewrite tags_length.
  replace (Z.of_nat (4 * length versions) mod 4) with 0
    by (rewrite Nat2Z.inj_mul, Z.mul_comm, Z.mod_mul; lia). cbn [Z.eqb negb].
  erewrite rbind_ok.
  2:{ rewrite read_versions_ok; [done|done|]. rewrite tags_length. lia. }
  done.
Qed.

Lemma version_negotiation_roundtrip_witness :
  ∃ h, ParsePublicHeader PerspectiveServer 39 (ComposeVersionNegotiation 77 [512; 39; 38])
       = Ok (h, []) ∧
    ConnectionID h = 77 ∧ VersionFlag h = true ∧ ResetFlag h = false ∧ TruncateConnectionID h = false ∧
    SupportedVersions h = [512; 39; 38] ∧
    header_hasPacketNumber h PerspectiveServer = false.
Proof.
  apply (version_negotiation_roundtrip 77 39 [512; 39; 38]); [lia|].
  repeat constructor; lia.
Defined.
