(* ===== verification/Unpacker.v ===== *)
(** * Packet unpacking

    packet_unpacker.go: the payload of a packet, once decrypted, is a sequence
    of frames and padding bytes.  The AEAD and the generated table of error
    names are parameters. *)

From stdpp Require Import pretty.
From S2P Require Import Prelude ByteOrder Protocol Frames.
From S2P Require Import StreamFrame AckFrame ClosePathFrame PublicHeader.

(** ** internal/protocol/encryption_level.go *)

Definition EncryptionUnspecified : Z := 0.
Definition EncryptionUnencrypted : Z := 1.
Definition EncryptionSecure : Z := 2.
Definition EncryptionForwardSecure : Z := 3.

(** The values of Go's interface [wire.Frame]. *)
Inductive frame : Type :=
| FStream (f : StreamFrame)
| FAck (f : AckFrame)
| FRstStream (f : RstStreamFrame)
| FConnectionClose (f : ConnectionCloseFrame)
| FGoaway (f : GoawayFrame)
| FWindowUpdate (f : WindowUpdateFrame)
| FBlocked (f : BlockedFrame)
| FStopWaiting (f : StopWaitingFrame)
| FPing (f : PingFrame)
| FAddAddress (f : AddAddressFrame)
| FClosePath (f : ClosePathFrame)
| FPaths (f : PathsFrame).

Definition frame_Write (now : Z) (f : frame) (version : Z) : result (list Z) :=
  match f with
  | FStream f => StreamFrame_Write f version
  | FAck f => AckFrame_Write now f version
  | FRstStream f => RstStreamFrame_Write f version
  | FConnectionClose f => ConnectionCloseFrame_Write f version
  | FGoaway f => GoawayFrame_Write f version
  | FWindowUpdate f => WindowUpdateFrame_Write f version
  | FBlocked f => BlockedFrame_Write f version
  | FStopWaiting f => StopWaitingFrame_Write f version
  | FPing f => PingFrame_Write f version
  | FAddAddress f => AddAddressFrame_Write f version
  | FClosePath f => ClosePathFrame_Write f version
  | FPaths f => PathsFrame_Write f version
  end.

Definition frame_MinLength (f : frame) (version : Z) : result Z :=
  match f with
  | FStream f => StreamFrame_MinLength f version
  | FAck f => AckFrame_MinLength f version
  | FRstStream f => RstStreamFrame_MinLength f version
  | FConnectionClose f => ConnectionCloseFrame_MinLength f version
  | FGoaway f => GoawayFrame_MinLength f version
  | FWindowUpdate f => WindowUpdateFrame_MinLength f version
  | FBlocked f => BlockedFrame_MinLength f version
  | FStopWaiting f => StopWaitingFrame_MinLength f version
  | FPing f => PingFrame_MinLength f version
  | FAddAddress f => AddAddressFrame_MinLength f version
  | FClosePath f => ClosePathFrame_MinLength f version
  | FPaths f => PathsFrame_MinLength f version
  end.

#[export] Instance frame_frame (now : Z) : Frame frame :=
  { Write := frame_Write now; MinLength := frame_MinLength }.

Record unpackedPacket : Type := {
  encryptionLevel : Z;
  frames : list frame;
}.

Definition fmap_reader {A B} (g : A → B) (m : reader A) : reader B := x ← m; mret (g x).

Definition hex_digit (d : Z) : string :=
  match d with
  | 10 => "a" | 11 => "b" | 12 => "c" | 13 => "d" | 14 => "e" | 15 => "f"
  | d => pretty d
  end.

(** fmt's %x of a byte *)
Definition hex_byte (b : Z) : string :=
  if b <? 16 then hex_digit b else (hex_digit (b / 16) ++ hex_digit (b mod 16))%string.

Section Unpack.
(** qerr/errorcode_string.go, which stringer generates *)
Context (ErrorCode_String : Z → string).
(** the connection's AEAD: data, packet number, associated data to plaintext and level *)
Context (Open : list Z → Z → list Z → result (list Z * Z)).
Context (version : Z).

(** The [Error] method *)
Definition error_text (e : error) : string :=
  match e with
  | EOF => "EOF"
  | UnexpectedEOF => "unexpected EOF"
  | ErrorString m => m
  | ErrorCode c => ErrorCode_String c
  | QuicError c m => (ErrorCode_String c ++ ": " ++ m)%string
  end.

(** An error of a parser becomes a QuicError with the frame's code. *)
Definition wrap_error {A} (code : Z) (m : reader A) : reader A := λ s,
  match m s with
  | Err e => Err (QuicError code (error_text e))
  | r => r
  end.

Definition unpack_stream (level : Z) : reader frame :=
  f ← wrap_error InvalidStreamData (ParseStreamFrame version);
  if negb (StreamID f =? 1) && (level <=? EncryptionUnencrypted)
  then fail (QuicError UnencryptedStreamData
               ("received unencrypted stream data on stream " ++ pretty (StreamID f)))
  else mret (FStream f).

(** One frame, its type byte not consumed yet. *)
Definition unpack_frame (hdr : PublicHeader) (level typeByte : Z) : reader frame :=
  if Z.land typeByte 128 =? 128 then unpack_stream level
  else if Z.land typeByte 192 =? 64 then
    fmap_reader FAck (wrap_error InvalidAckData (ParseAckFrame version))
  else if Z.land typeByte 224 =? 32 then fail (ErrorString "unimplemented: CONGESTION_FEEDBACK")
  else match typeByte with
  | 1 => fmap_reader FRstStream (wrap_error InvalidRstStreamData (ParseRstStreamFrame version))
  | 2 => fmap_reader FConnectionClose
           (wrap_error InvalidConnectionCloseData (ParseConnectionCloseFrame version))
  | 3 => fmap_reader FGoaway (wrap_error InvalidGoawayData (ParseGoawayFrame version))
  | 4 => fmap_reader FWindowUpdate
           (wrap_error InvalidWindowUpdateData (ParseWindowUpdateFrame version))
  | 5 => fmap_reader FBlocked (wrap_error InvalidBlockedData (ParseBlockedFrame version))
  | 6 => fmap_reader FStopWaiting
           (wrap_error InvalidStopWaitingData
              (ParseStopWaitingFrame (PacketNumber hdr) (PacketNumberLen hdr) version))
  | 7 => fmap_reader FPing (ParsePingFrame version)
  | 16 => fmap_reader FAddAddress (ParseAddAddressFrame version)
  | 17 => fmap_reader FClosePath (ParseClosePathFrame version)
  | 18 => fmap_reader FPaths (ParsePathsFrame version)
  | _ => fail (QuicError InvalidFrameData ("unknown type byte 0x" ++ hex_byte typeByte))
  end.

(** The loop over the frames of a packet. *)
Fixpoint unpack_frames (hdr : PublicHeader) (level : Z) (fuel : nat) (s : list Z)
  : result (list frame) :=
  match s with
  | [] => Ok []
  | typeByte :: s' =>
      match fuel with
      | O => Panic "out of fuel"
      | S fuel =>
          if typeByte =? 0 then unpack_frames hdr level fuel s'
          else
            '(f, s'') ← unpack_frame hdr level typeByte s;
            fs ← unpack_frames hdr level fuel s'';
            Ok (f :: fs)
      end
  end.

Definition Unpack (publicHeaderBinary : list Z) (hdr : PublicHeader) (data : list Z)
  : result unpackedPacket :=
  match Open data (PacketNumber hdr) publicHeaderBinary with
  | Err e => Err (QuicError DecryptionFailure (error_text e))
  | Panic w => Panic w
  | Ok (decrypted, level) =>
      if (length decrypted =? 0)%nat then Err (ErrorCode MissingPayload)
      else
        fs ← unpack_frames hdr level (length decrypted) decrypted;
        Ok {| encryptionLevel := level; frames := fs |}
  end.

(** ** Safety *)

Lemma parses_wrap {A} code (m : reader A) P : parses m P → parses (wrap_error code m) P.
Proof.
  intros Hm s Hs. specialize (Hm s Hs). unfold wrap_error. by destruct (m s) as [[]| |].
Qed.

Lemma parses_fmap {A B} (g : A → B) (m : reader A) (P : B → Prop) :
  parses m (λ a, P (g a)) → parses (fmap_reader g m) P.
Proof.
  intros Hm s Hs. specialize (Hm s Hs). unfold fmap_reader, mbind, reader_bind.
  by destruct (m s) as [[]| |].
Qed.

Lemma parses_StreamFrame : parses (ParseStreamFrame version) (λ _, True).
Proof.
  pose proof (GetByteOrder_laws version) as Hbo.
  unfold ParseStreamFrame. apply parses_safe. intros b. cbv zeta.
  pose proof (land_28_bound b) as H28. pose proof (land_3_bound b) as H3.
  apply safe_bind; [|intros sid].
  { apply safe_ReadUintN; [apply _|]. rewrite u8_id by (unfold is_u8; lia). lia. }
  apply safe_bind; [|intros off].
  { apply safe_ReadUintN; [apply _|].
    destruct (negb _); [rewrite u8_id by (unfold is_u8; lia)|]; lia. }
  safe_tac.
Qed.

Lemma safe_ReadBytes n : safe (ReadBytes n).
Proof. induction n; simpl; safe_tac. Qed.

Lemma safe_ParsePathsFrame_loop bo `{!ByteOrderLaws bo} n ids rtts :
  safe (ParsePathsFrame_loop bo n ids rtts).
Proof. revert ids rtts. induction n; intros; simpl; safe_tac. Qed.

Definition parser {A} (m : reader A) : Prop := parses m (λ _, True).

Lemma control_parsers :
  parser (ParseRstStreamFrame version) ∧ parser (ParseConnectionCloseFrame version) ∧
  parser (ParseGoawayFrame version) ∧ parser (ParseWindowUpdateFrame version) ∧
  parser (ParseBlockedFrame version) ∧ parser (ParsePingFrame version) ∧
  parser (ParseAddAddressFrame version) ∧ parser (ParsePathsFrame version).
Proof.
  pose proof (GetByteOrder_laws version) as Hbo. pose proof safe_ReadBytes.
  pose proof (safe_ParsePathsFrame_loop (GetByteOrder version)).
  split_and!; apply parses_safe; intros; safe_tac.
Qed.

Lemma parses_StopWaitingFrame pn len :
  0 <= len <= 8 → parser (ParseStopWaitingFrame pn len version).
Proof.
  intros Hl. pose proof (safe_ReadUintN (GetByteOrder version) len Hl).
  apply parses_safe. intros. safe_tac.
Qed.

(** A frame that may be accepted: only the crypto stream is sent in the clear, and the ranges of
    acknowledgements are well formed. *)
Definition level_ok (level : Z) (f : frame) : Prop :=
  match f with
  | FStream f => StreamID f = 1 ∨ level > EncryptionUnencrypted
  | FAck f => AckFrame_ok f
  | FClosePath f => ClosePathFrame_ok f
  | _ => True
  end.

Lemma parses_stream level : parses (unpack_stream level) (level_ok level).
Proof.
  intros s Hs. pose proof (parses_wrap InvalidStreamData _ _ parses_StreamFrame s Hs) as H.
  unfold unpack_stream, mbind, reader_bind.
  destruct (wrap_error _ _ s) as [[f s']| |]; [|done..]. destruct H as [? _].
  destruct (negb (StreamID f =? 1) && (level <=? EncryptionUnencrypted)) eqn:E; [done|].
  split; [done|]. simpl. apply andb_false_iff in E as [?|?]; zbool; [by left|right].
  unfold EncryptionUnencrypted in *. lia.
Qed.

Lemma parses_unpack_frame hdr level b :
  0 <= PacketNumberLen hdr <= 8 → parses (unpack_frame hdr level b) (level_ok level).
Proof.
  intros Hl. destruct control_parsers as (?&?&?&?&?&?&?&?).
  pose proof (parses_StopWaitingFrame (PacketNumber hdr) _ Hl).
  pose proof (ParseAckFrame_parses version). pose proof (ParseClosePathFrame_parses version).
  unfold unpack_frame. destruct (_ =? 128); [apply parses_stream|].
  destruct (_ =? 64); [by apply parses_fmap, parses_wrap|].
  destruct (_ =? 32); [apply parses_fail|].
  repeat match goal with |- parses (match ?x with _ => _ end) _ => destruct x end;
    first [apply parses_fail | apply parses_fmap; first [done|by apply parses_wrap]].
Qed.

Lemma unpack_frames_total hdr level fuel s :
  0 <= PacketNumberLen hdr <= 8 → bytes_ok s → (length s <= fuel)%nat →
  match unpack_frames hdr level fuel s with
  | Ok fs => Forall (level_ok level) fs
  | Err _ => True
  | Panic _ => False
  end.
Proof.
  intros Hl. revert s. induction fuel as [|fuel IH]; intros [|b s] Hs Hf; simpl in Hf;
    [constructor|lia|constructor|].
  cbn [unpack_frames]. destruct (b =? 0).
  { apply IH; [by inversion Hs|lia]. }
  pose proof (parses_unpack_frame hdr level b Hl (b :: s) Hs) as H.
  destruct (unpack_frame hdr level b (b :: s)) as [[f s']| |]; [|done..].
  destruct H as [(b' & pre & E) Hlev]. cbn [mbind result_bind]. injection E as _ ->.
  specialize (IH s'). destruct (unpack_frames hdr level fuel s') as [fs| |]; cbn;
    [constructor; [done|]|done|]; apply IH; try (rewrite length_app in Hf; lia);
    inversion_clear Hs as [|? ? ? Hs']; by apply Forall_app in Hs' as [_ ?].
Qed.

(** ** Packets read back *)

Section PacketRoundtrip.
Context (now : Z) (hdr : PublicHeader) (level : Z).

Definition frame_ok (f : frame) : Prop :=
  match f with
  | FStream f =>
      StreamFrame_ok f ∧ (StreamID f = 1 ∨ level > EncryptionUnencrypted) ∧
      if DataLenPresent f then DataLen f <= MaxPacketSize else DataLen f < 2^16
  | FAck f => AckFrame_ok f ∧ 1 <= ack_LowestAcked f ∧ first_gap_fits f
  | FRstStream f => RstStreamFrame_ok f
  | FConnectionClose f => ConnectionCloseFrame_ok f
  | FGoaway f => GoawayFrame_ok f
  | FWindowUpdate f => WindowUpdateFrame_ok f
  | FBlocked f => BlockedFrame_ok f
  | FStopWaiting f =>
      sw_PacketNumber f = PacketNumber hdr ∧ sw_PacketNumberLen f = PacketNumberLen hdr ∧
      valid_pn_len (sw_PacketNumberLen f) ∧ is_u64 (sw_PacketNumber f) ∧
      0 < sw_LeastUnacked f <= sw_PacketNumber f ∧
      sw_PacketNumber f - sw_LeastUnacked f < 2^(8 * sw_PacketNumberLen f)
  | FPing _ => True
  | FAddAddress f =>
      is_u16 (aa_Port f) ∧ ∃ ip, AddAddressFrame_ip f = Some ip ∧ bytes_ok ip
  | FClosePath f => ClosePathFrame_ok f ∧ 1 <= cp_LowestAcked f ∧ first_gap_fits (cp_ack f)
  | FPaths f => PathsFrame_ok f
  end.

(** What the receiver makes of a frame: the wire rounds times and truncates long range lists. *)
Definition frame_received (f : frame) : frame :=
  match f with
  | FAck f => FAck (AckFrame_received now f)
  | FStopWaiting f => FStopWaiting {| sw_LeastUnacked := sw_LeastUnacked f;
                                      sw_PacketNumberLen := 0; sw_PacketNumber := 0 |}
  | FAddAddress f =>
      FAddAddress (AddAddressFrame_received f (default [] (AddAddressFrame_ip f)))
  | FClosePath f => FClosePath (ack_cp (AckFrame_received 0 (cp_ack f)))
  | FPaths f => FPaths (PathsFrame_received f)
  | f => f
  end.

(** A stream frame without a length extends to the end of the packet. *)
Definition ends_packet (f : frame) : bool :=
  match f with FStream f => negb (DataLenPresent f) | _ => false end.

Lemma wrap_fmap_ok {A B} (g : A → B) c (m : reader A) s a s' :
  m s = Ok (a, s') → fmap_reader g (wrap_error c m) s = Ok (g a, s').
Proof. intros E. unfold fmap_reader, wrap_error, mbind, reader_bind. by rewrite E. Qed.

Lemma fmap_ok {A B} (g : A → B) (m : reader A) s a s' :
  m s = Ok (a, s') → fmap_reader g m s = Ok (g a, s').
Proof. intros E. unfold fmap_reader, mbind, reader_bind. by rewrite E. Qed.

(** A frame is written as a non-zero type byte [b] and [bs], and found again. *)
Definition unpacks (f : frame) (s : list Z) : Prop :=
  ∃ b bs, frame_Write now f version = Ok (b :: bs) ∧ b <> 0 ∧ bytes_ok (b :: bs) ∧
    unpack_frame hdr level b ((b :: bs) ++ s) = Ok (frame_received f, s).

Lemma unpack_stream_ok f s s' :
  ParseStreamFrame version s = Ok (f, s') →
  (StreamID f = 1 ∨ level > EncryptionUnencrypted) → unpack_stream level s = Ok (FStream f, s').
Proof.
  intros Hp Hlev. unfold unpack_stream, mbind, reader_bind, wrap_error. rewrite Hp.
  assert (negb (StreamID f =? 1) && (level <=? EncryptionUnencrypted) = false) as ->; [|done].
  destruct Hlev as [->|?]; [done|]. apply andb_false_iff. right. apply Z.leb_gt.
  unfold EncryptionUnencrypted in *. lia.
Qed.

Lemma unpacks_stream f s :
  frame_ok (FStream f) → bytes_ok s → (DataLenPresent f = false → s = []) →
  unpacks (FStream f) s.
Proof.
  intros (Hok & Hlev & Hlen) Hs Hend.
  destruct (StreamFrame_rt version f s Hok Hs) as (bs & Hw & Hp).
  { destruct (DataLenPresent f); [done|]. auto. }
  rewrite (StreamFrame_Write_eq version f Hok) in Hw. injection Hw as <-.
  pose proof Hok as (Hsid & Hoff & Hb & _).
  destruct (sid_length_spec f Hsid) as [Hsl _], (off_length_spec f Hoff) as [Hol _].
  destruct (typeByte_fields f Hsl Hol) as (Hu8 & Ht & _).
  eexists _, _. split_and!; [apply (StreamFrame_Write_eq version f Hok)|..].
  - intros E. by rewrite E in Ht.
  - apply bytes_ok_cons; [done|].
    repeat apply bytes_ok_app; [apply enc_bytes..| |done].
    destruct (DataLenPresent f); [apply enc_bytes|constructor].
  - unfold unpack_frame. rewrite Ht. by apply unpack_stream_ok.
Qed.

Lemma unpack_ack_ok b s x :
  Z.land b 192 = 64 → ParseAckFrame version s = Ok x →
  unpack_frame hdr level b s = Ok (FAck x.1, x.2).
Proof.
  intros Hb Hp. unfold unpack_frame.
  assert (Z.land b 128 = 0) as ->.
  { change 128 with (Z.land 192 128). rewrite Z.land_assoc, Hb. done. }
  rewrite Hb. destruct x. by apply wrap_fmap_ok.
Qed.

Lemma unpacks_ack f s : frame_ok (FAck f) → bytes_ok s → unpacks (FAck f) s.
Proof.
  intros (Hok & Hlow & Hgap) Hs. destruct (largestLen_ok f Hok) as [Hll _].
  destruct (deltaLen_ok f Hok Hlow) as (Hdl & _ & _).
  destruct (ack_typeByte_fields f Hll Hdl) as (_ & Ht & _).
  pose proof (AckFrame_Write_eq version now f Hok Hlow Hgap) as Hw.
  pose proof (AckFrame_bytes_ok version now f Hok Hlow Hgap) as Hb.
  pose proof (AckFrame_rt version now f Hok Hlow Hgap s Hs) as Hrt.
  unfold AckFrame_bytes in *. eexists _, _. split_and!; [exact Hw| |exact Hb|].
  - intros E. by rewrite E in Ht.
  - by apply (unpack_ack_ok _ _ (_, s)).
Qed.

(** The frames with a fixed type byte and fields of fixed width. *)
Definition control_type (f : frame) : option Z :=
  match f with
  | FRstStream _ => Some 1
  | FConnectionClose _ => Some 2
  | FGoaway _ => Some 3
  | FWindowUpdate _ => Some 4
  | FBlocked _ => Some 5
  | FStopWaiting _ => Some 6
  | FPing _ => Some 7
  | _ => None
  end.

Ltac wire_bytes :=
  repeat first [apply enc_bytes | done | apply bytes_ok_cons; [done|] | apply bytes_ok_app
               | apply bytes_ok_nil].

Lemma control_bytes f t bs :
  control_type f = Some t → frame_ok f → frame_Write now f version = Ok bs →
  bytes_ok bs ∧ ∃ bs', bs = t :: bs'.
Proof.
  destruct f; intros [= <-]; cbn [frame_ok frame_Write].
  - intros _ [= <-]. rewrite !write_32, write_64. split; [|by eexists].
    wire_bytes.
  - intros (_ & Hb & _). unfold ConnectionCloseFrame_Write. destruct (_ >? _); [done|].
    intros [= <-]. rewrite write_32, write_16. split; [|by eexists].
    wire_bytes.
  - intros (_ & _ & Hb & _) [= <-]. rewrite !write_32, write_16. split; [|by eexists].
    wire_bytes.
  - intros _ [= <-]. rewrite !write_32, write_64. split; [|by eexists].
    wire_bytes.
  - intros _ [= <-]. rewrite !write_32. split; [|by eexists].
    wire_bytes.
  - intros (_ & _ & Hl & Hpn & Hlu & Hd). unfold StopWaitingFrame_Write.
    destruct (sw_PacketNumber f =? 0); [done|]. destruct (_ >? _); [done|]. unfold is_u64 in Hpn.
    rewrite u64_id by (unfold is_u64; lia). rewrite write_pn_len by (done || lia).
    intros [= <-]. split; [|by eexists]. apply bytes_ok_cons; [done|apply enc_bytes].
  - intros _ [= <-]. split; [bytes_tac|by eexists].
Qed.

Lemma unpacks_control f t s :
  control_type f = Some t → frame_ok f → bytes_ok s → unpacks f s.
Proof.
  intros Ht Hok Hs.
  assert (∃ bs, frame_Write now f version = Ok bs ∧
    unpack_frame hdr level t (bs ++ s) = Ok (frame_received f, s)) as (bs & Hw & Hp).
  { destruct f; simplify_eq/=;
      [destruct (rst_stream_rt version f s) as (bs & Hw & Hp)
      |destruct (connection_close_rt version f s) as (bs & Hw & Hp)
      |destruct (goaway_rt version f s) as (bs & Hw & Hp)
      |destruct (window_update_rt version f s) as (bs & Hw & Hp)
      |destruct (blocked_rt version f s) as (bs & Hw & Hp)
      |destruct Hok as (Hn & Hl & ?&?&?&?);
       destruct (stop_waiting_rt version f s) as (bs & Hw & Hp)
      |destruct (ping_rt version f s) as (bs & Hw & Hp)]; try done; try rewrite Hn, Hl in Hp;
      exists bs; (split; [done|]); unfold unpack_frame; cbn [Z.land Pos.land Z.eqb];
      first [by apply wrap_fmap_ok | by apply fmap_ok]. }
  destruct (control_bytes f t bs Ht Hok Hw) as (Hb & bs' & ->).
  exists t, bs'. split_and!; [done| |done|done]. by destruct f; simplify_eq/=.
Qed.

Lemma unpacks_frame f s :
  frame_ok f → bytes_ok s → (ends_packet f = true → s = []) → unpacks f s.
Proof.
  intros Hok Hs Hend. destruct (control_type f) as [t|] eqn:Et; [by eapply unpacks_control|].
  destruct f as [f|f| | | | | | | |f|f|f]; try done.
  - apply unpacks_stream; [done..|]. intros E. apply Hend. simpl. by rewrite E.
  - by apply unpacks_ack.
  - destruct Hok as (Hport & ip & Hip & Hb).
    destruct (add_address_rt version f ip s Hport Hip Hs) as (bs & Hw & Hp & Hbs).
    assert (is_u8 (aa_IPVersion f)) as Hv.
    { unfold AddAddressFrame_ip in Hip. destruct (Z.eqb_spec (aa_IPVersion f) 4) as [->|];
        [done|]. by destruct (Z.eqb_spec (aa_IPVersion f) 6) as [->|]. }
    eexists _, _. split_and!; [exact Hw|done|..].
    + apply bytes_ok_cons; [done|]. apply bytes_ok_cons; [done|]. by apply bytes_ok_app.
    + unfold unpack_frame. cbn [Z.land Pos.land Z.eqb frame_received]. rewrite Hip.
      by apply fmap_ok.
  - destruct Hok as (Hok & Hlow & Hgap). eexists _, _. split_and!.
    + by apply ClosePathFrame_Write_eq.
    + done.
    + by apply ClosePathFrame_bytes_ok.
    + unfold unpack_frame. cbn [Z.land Pos.land Z.eqb frame_received].
      by apply fmap_ok, (ClosePathFrame_rt version f Hok Hlow Hgap).
  - destruct (paths_rt version f s Hok Hs) as (bs & Hw & Hb & Hp).
    assert (∃ bs', bs = 18 :: bs') as [bs' ->].
    { unfold PathsFrame_Write in Hw. destruct (negb _) in Hw; [done|].
      destruct (negb _) in Hw; [done|]. injection Hw as <-. by eexists. }
    exists 18, bs'. split_and!; [done..|]. unfold unpack_frame.
    cbn [Z.land Pos.land Z.eqb frame_received]. by apply fmap_ok.
Qed.

(** The payload of a packet: frames, and padding bytes between them. *)
Fixpoint payload (items : list (option frame)) : result (list Z) :=
  match items with
  | [] => Ok []
  | None :: items => bs ← payload items; Ok (0 :: bs)
  | Some f :: items => b ← frame_Write now f version; bs ← payload items; Ok (b ++ bs)
  end.

(** A stream frame without a length may only be the last item. *)
Fixpoint items_ok (items : list (option frame)) : Prop :=
  match items with
  | [] => True
  | None :: items => items_ok items
  | Some f :: items => frame_ok f ∧ (ends_packet f = true → items = []) ∧ items_ok items
  end.

Lemma payload_unpacks items :
  items_ok items →
  ∃ bs, payload items = Ok bs ∧ bytes_ok bs ∧
    ∀ fuel, (length bs <= fuel)%nat →
      unpack_frames hdr level fuel bs = Ok (frame_received <$> omap id items).
Proof.
  induction items as [|[f|] items IH]; intros Hok.
  - exists []. split_and!; [done|constructor|by intros []].
  - destruct Hok as (Hf & Hend & Hok). destruct (IH Hok) as (bs & Hp & Hb & Hu).
    destruct (unpacks_frame f bs Hf Hb) as (b & bs' & Hw & Hne & Hbb & Hfr).
    { intros He. specialize (Hend He) as ->. simpl in Hp. by injection Hp as <-. }
    exists ((b :: bs') ++ bs). cbn [payload]. rewrite Hw, Hp. split_and!; [done|by apply bytes_ok_app|].
    intros [|fuel]; cbn [app length]; rewrite ?length_app; [lia|]. intros Hfuel.
    cbn [unpack_frames]. apply Z.eqb_neq in Hne. rewrite Hne.
    change (b :: bs' ++ bs) with ((b :: bs') ++ bs). rewrite Hfr. cbn [mbind result_bind].
    rewrite Hu by lia. done.
  - destruct (IH Hok) as (bs & Hp & Hb & Hu). exists (0 :: bs). cbn [payload]. rewrite Hp.
    split_and!; [done|by apply bytes_ok_cons|]. intros [|fuel]; cbn [length]; [lia|].
    intros. cbn [unpack_frames Z.eqb]. apply Hu. lia.
Qed.
End PacketRoundtrip.
End Unpack.

(** ** Properties *)

Lemma Unpack_accepts (str : Z → string) (Open : list Z → Z → list Z → result (list Z * Z))
    (v : Z) (raw : list Z) (hdr : PublicHeader) (data : list Z) :
  (∀ d pn ad, match Open d pn ad with Ok (p, _) => bytes_ok p | Err _ => True | Panic _ => False end) →
  0 <= PacketNumberLen hdr <= 8 →
  match Unpack str Open v raw hdr data with
  | Ok p => Forall (level_ok (encryptionLevel p)) (frames p)
  | Err _ => True
  | Panic _ => False
  end.
Proof.
  intros Hopen Hl. unfold Unpack. specialize (Hopen data (PacketNumber hdr) raw).
  destruct (Open data (PacketNumber hdr) raw) as [[p level]| |]; [|done..].
  destruct (length p =? 0)%nat; [done|].
  pose proof (unpack_frames_total str v hdr level (length p) p Hl Hopen ltac:(lia)) as H.
  by destruct (unpack_frames str v hdr level (length p) p).
Qed.

(** C19: whatever bytes the AEAD releases, unpacking terminates with a packet or an error: it never
    panics, the loop over the frames does not run out of the packet's length, and no packet
    carries data of another stream than the crypto stream below [EncryptionSecure], or
    acknowledgements that are not well formed. *)
Theorem unpack_safe (str : Z → string) (Open : list Z → Z → list Z → result (list Z * Z))
    (v : Z) (raw : list Z) (hdr : PublicHeader) (data : list Z) :
  (∀ d pn ad, match Open d pn ad with Ok (p, _) => bytes_ok p | Err _ => True | Panic _ => False end) →
  0 <= PacketNumberLen hdr <= 8 →
  match Unpack str Open v raw hdr data with
  | Ok p => Forall (level_ok (encryptionLevel p)) (frames p)
  | Err _ => True
  | Panic _ => False
  end.
Proof. apply Unpack_accepts. Qed.

(** An AEAD that releases the ciphertext as it is. *)
Definition open_null (data : list Z) (pn : Z) (ad : list Z) : result (list Z * Z) :=
  if forallb (λ b, (0 <=? b) && (b <? 256)) data then Ok (data, EncryptionUnencrypted)
  else Err (ErrorString "not bytes").

Lemma open_null_ok d pn ad :
  match open_null d pn ad with Ok (p, _) => bytes_ok p | Err _ => True | Panic _ => False end.
Proof.
  unfold open_null. destruct (forallb _ d) eqn:E; [|done].
  apply Forall_forall. intros b Hb. apply list_elem_of_In in Hb.
  eapply forallb_forall in E; [|exact Hb]. zbool. unfold is_u8. lia.
Qed.

Lemma unpack_safe_witness :
  match Unpack (λ _, ""%string) open_null 39 [] sample_header [0; 7; 224; 1; 0; 1; 9] with
  | Ok p => Forall (level_ok (encryptionLevel p)) (frames p)
  | Err _ => True
  | Panic _ => False
  end.
Proof.
  apply (unpack_safe (λ _, ""%string) open_null 39 [] sample_header).
  - apply open_null_ok.
  - simpl. lia.
Defined.

(** A packet of well-formed frames of all twelve kinds, with padding between them, is
    unpacked to exactly the frames the sender put in, in order, each as the wire format carries
    it; only the last may be a stream frame that runs to the end of the packet. *)
Theorem packet_roundtrip (str : Z → string) (v now level : Z) (hdr : PublicHeader)
    (items : list (option frame)) :
  items_ok hdr level items → omap id items <> [] →
  ∃ bs, payload v now items = Ok bs ∧
    Unpack str (λ d _ _, Ok (d, level)) v [] hdr bs
    = Ok {| encryptionLevel := level; frames := frame_received now <$> omap id items |}.
Proof.
  intros Hok Hne. destruct (payload_unpacks str v now hdr level items Hok) as (bs & Hp & Hb & Hu).
  exists bs. split; [done|]. unfold Unpack.
  destruct bs as [|b bs].
  - exfalso. specialize (Hu 0%nat ltac:(done)). cbn in Hu. injection Hu as Hu.
    destruct (omap id items); done.
  - cbn [length Nat.eqb]. by rewrite Hu.
Qed.

Lemma packet_roundtrip_witness :
  let hdr := sample_header in
  let items := [Some (FPing mkPingFrame); None; Some (FAck sample_ack);
                Some (FStream {| StreamID := 3; FinBit := true; DataLenPresent := false;
                                 Offset := 10; Data := [1; 2] |})] in
  ∃ bs, payload 39 20000 items = Ok bs ∧
    Unpack (λ _, ""%string) (λ d _ _, Ok (d, EncryptionForwardSecure)) 39 [] hdr bs
    = Ok {| encryptionLevel := EncryptionForwardSecure;
            frames := frame_received 20000 <$> omap id items |}.
Proof.
  apply (packet_roundtrip (λ _, ""%string) 39 20000 EncryptionForwardSecure sample_header
    [Some (FPing mkPingFrame); None; Some (FAck sample_ack);
     Some (FStream {| StreamID := 3; FinBit := true; DataLenPresent := false;
                      Offset := 10; Data := [1; 2] |})]); [|done].
  cbn [items_ok frame_ok]. split_and!; try done.
  - unfold StreamFrame_ok, is_u32, is_u64, DataLen. cbn. split_and!; try lia; try bytes_tac; by left.
  - by right.
Defined.

(** ** Announced lengths *)

(** The bytes of a frame that [MinLength] does not count. *)
Definition extra_length (f : frame) : Z :=
  match f with FStream f => DataLen f | _ => 0 end.

Lemma PathsFrame_loop_length bo `{!ByteOrderLaws bo} ids rtts :
  length ids = length rtts → length (PathsFrame_Write_loop bo ids rtts) = (3 * length ids)%nat.
Proof.
  revert rtts. induction ids as [|id ids IH]; intros [|r rtts] Hl; simplify_eq/=; [done|].
  rewrite (WriteUfloat16_enc bo), length_app, enc_length, IH by done. lia.
Qed.

Lemma paths_length v f bs :
  PathsFrame_ok f → PathsFrame_Write f v = Ok bs →
  Z.of_nat (length bs) = 3 + 3 * pf_NumPaths f.
Proof.
  intros (_ & _ & Hn & Hl & _). unfold PathsFrame_Write. rewrite Hn, Z.eqb_refl, Hl, Nat.eqb_refl.
  intros [= <-]. cbn [length app]. rewrite (PathsFrame_loop_length (GetByteOrder v)) by done. lia.
Qed.

Lemma stream_length v f bs :
  StreamFrame_ok f → StreamFrame_Write f v = Ok bs →
  StreamFrame_MinLength f v = Ok (Z.of_nat (length bs) - DataLen f).
Proof.
  intros Hok. rewrite (StreamFrame_Write_eq v f Hok). intros [= <-].
  destruct Hok as (Hsid & Hoff & _).
  destruct (sid_length_spec f Hsid) as [Hsl _], (off_length_spec f Hoff) as [Hol _].
  assert (0 <= calculateStreamIDLength f) by (unfold sid_lens in Hsl; set_solver by lia).
  assert (0 <= getOffsetLength f) by (unfold off_lens in Hol; set_solver by lia).
  unfold StreamFrame_MinLength, DataLen. f_equal. cbn [length]. rewrite !length_app, !enc_length.
  destruct (DataLenPresent f); rewrite ?enc_length; simpl; lia.
Qed.

Lemma control_length now hdr level v f t bs :
  control_type f = Some t → frame_ok hdr level f → frame_Write now f v = Ok bs →
  frame_MinLength f v = Ok (Z.of_nat (length bs)).
Proof.
  destruct f; intros [= <-]; cbn [frame_ok frame_Write frame_MinLength].
  - intros _ [= <-]. rewrite !write_32, write_64. cbn [length].
    by rewrite !length_app, !enc_length.
  - intros _. unfold ConnectionCloseFrame_Write, ConnectionCloseFrame_MinLength.
    destruct (_ >? _); [done|]. intros [= <-]. rewrite write_32, write_16. cbn [length].
    rewrite !length_app, !enc_length. f_equal. lia.
  - intros _ [= <-]. rewrite !write_32, write_16. unfold GoawayFrame_MinLength. cbn [length].
    rewrite !length_app, !enc_length. f_equal. lia.
  - intros _ [= <-]. rewrite !write_32, write_64. cbn [length].
    by rewrite !length_app, !enc_length.
  - intros _ [= <-]. rewrite !write_32. cbn [length]. by rewrite !enc_length.
  - intros (_ & _ & Hl & Hpn & Hlu & Hd). unfold StopWaitingFrame_Write, StopWaitingFrame_MinLength.
    destruct (sw_PacketNumber f =? 0); [done|]. destruct (_ >? _); [done|]. unfold is_u64 in Hpn.
    rewrite u64_id by (unfold is_u64; lia). rewrite write_pn_len by (done || lia).
    intros [= <-]. cbn [length]. rewrite enc_length.
    destruct Hl as [->|[->|[->| ->]]]; done.
  - intros _ [= <-]. done.
Qed.

Lemma frame_length_exact now v level hdr f :
  frame_ok hdr level f → (∀ g, f = FPaths g → pf_NumPaths g <= 84) →
  ∃ bs n, frame_Write now f v = Ok bs ∧ frame_MinLength f v = Ok n ∧
    Z.of_nat (length bs) = n + extra_length f.
Proof.
  intros Hok Hpaths. destruct (unpacks_frame (λ _, ""%string) v now hdr level f [] Hok) as (b & bs & Hw & _); [constructor|done|].
  exists (b :: bs). rewrite Hw. destruct (control_type f) as [t|] eqn:Et.
  { eexists. split_and!; [done|by eapply control_length|].
    destruct f; simplify_eq/=; lia. }
  destruct f as [f|f| | | | | | | |f|f|f]; try done; cbn [frame_Write frame_MinLength extra_length] in *.
  - destruct Hok as (Hok & _). eexists. split_and!; [done|by apply stream_length|]. lia.
  - destruct Hok as (Hok & Hlow & Hgap). eexists. split_and!;
      [done|by apply (AckFrame_length v now)|].
    rewrite AckFrame_Write_eq in Hw by done.
    assert (AckFrame_bytes v now f = b :: bs) as -> by congruence. lia.
  - destruct Hok as (Hport & ip & Hip & _).
    destruct (add_address_rt v f ip [] Hport Hip) as (bs' & Hw' & _); [constructor|].
    unfold AddAddressFrame_MinLength. rewrite Hw in Hw'. injection Hw' as -> ->.
    unfold AddAddressFrame_Write in Hw. unfold AddAddressFrame_ip in Hip.
    destruct (aa_IPVersion f =? 4) eqn:E4; [|destruct (aa_IPVersion f =? 6) eqn:E6; [|done]];
      rewrite Hip in Hw; cbn [mbind result_bind] in Hw; rewrite write_16 in Hw;
      [pose proof (To4_length _ _ Hip) as Hl|pose proof (To16_length _ _ Hip) as Hl];
      rewrite take_ge in Hw by lia; injection Hw as Hw; apply app_inv_head in Hw as <-;
      (eexists; split_and!; [done|done|]); cbn [length]; rewrite length_app, enc_length, Hl; lia.
  - destruct Hok as (Hok & Hlow & Hgap). eexists. split_and!;
      [done|by apply ClosePathFrame_length|].
    rewrite ClosePathFrame_Write_eq in Hw by done.
    assert (ClosePathFrame_bytes v f = b :: bs) as -> by congruence. lia.
  - pose proof (paths_length v f _ Hok Hw) as Hlen. specialize (Hpaths f eq_refl).
    destruct Hok as (_ & _ & Hn & _). eexists. split_and!; [done|done|].
    rewrite (u8_id (3 * _)), u8_id by (unfold is_u8; lia). lia.
Qed.

(** The length every well-formed frame announces to the packet packer is the number of bytes
    it writes (for a stream frame, without its data), so that a packet assembled from announced
    lengths has exactly the announced size; PATHS frames only up to 84 paths. *)
Theorem frame_min_length_exact (now v level : Z) (hdr : PublicHeader) (f : frame) :
  frame_ok hdr level f → (∀ g, f = FPaths g → pf_NumPaths g <= 84) →
  ∃ bs n, Write (Frame := frame_frame now) f v = Ok bs ∧
    MinLength (Frame := frame_frame now) f v = Ok n ∧
    Z.of_nat (length bs) = n + extra_length f.
Proof. apply frame_length_exact. Qed.

Lemma frame_min_length_exact_witness :
  ∃ bs n, Write (Frame := frame_frame 20000) (FAck sample_ack) 39 = Ok bs ∧
    MinLength (Frame := frame_frame 20000) (FAck sample_ack) 39 = Ok n ∧
    Z.of_nat (length bs) = n + 0.
Proof.
  apply (frame_min_length_exact 20000 39 EncryptionSecure sample_header (FAck sample_ack));
    [|done].
  split_and!; [exact sample_ack_ok|done|vm_compute; reflexivity].
Defined.

(** [MinLength] of a PATHS frame is computed in eight bits: for 85 paths and more (a frame the
    writer and the parser accept) the announced length is at least 256 bytes too small. *)
Theorem paths_min_length_wraps (now v : Z) (f : PathsFrame) :
  PathsFrame_ok f → 85 <= pf_NumPaths f →
  ∃ bs n, frame_Write now (FPaths f) v = Ok bs ∧ frame_MinLength (FPaths f) v = Ok n ∧
    n + 256 <= Z.of_nat (length bs).
Proof.
  intros Hok Hn. destruct (paths_rt v f [] Hok) as (bs & Hw & _); [constructor|].
  exists bs. eexists. split_and!; [done|done|]. rewrite (paths_length v f bs Hok Hw).
  destruct Hok as (Hmx & Hle & _). zwrap.
Qed.

Lemma paths_min_length_wraps_witness :
  let f := {| pf_MaxNumPaths := 100; pf_NumPaths := 85; pf_PathIDs := replicate 85 1;
              pf_RemoteRTTs := replicate 85 1000 |} in
  ∃ bs n, frame_Write 0 (FPaths f) 39 = Ok bs ∧ frame_MinLength (FPaths f) 39 = Ok n ∧
    n + 256 <= Z.of_nat (length bs).
Proof.
  apply (paths_min_length_wraps 0 39).
  - unfold PathsFrame_ok, is_u8, bytes_ok. cbn [pf_MaxNumPaths pf_NumPaths pf_PathIDs pf_RemoteRTTs].
    split_and!; [lia|lia|lia|done|done|]. apply Forall_replicate. done.
  - simpl. lia.
Defined.
