(* ===== verification/LinkedList.v ===== *)
(** * Linked lists

    internal/utils/byteinterval_linkedlist.go: the doubly linked rings of the gaps of a stream.  (The lists of
    packet ranges and of sent packets, packetinterval_linkedlist.go and ackhandler/packet_linkedlist.go, are made
    from the same template.)  The other files model such a list as a list; here the code with its pointers
    is shown to behave that way.

    The elements live in a store, the sentinel of a list is an element of its own, and a nil pointer is [None]. *)

From S2P Require Import Prelude.

(** ** The store *)

(** The sentinel of a list, [&l.root], or an element that was allocated. *)
Inductive ptr : Type :=
| Root (l : positive)
| Node (n : positive).

#[export] Instance ptr_eq_dec : EqDecision ptr.
Proof. solve_decision. Defined.

#[export] Instance ptr_countable : Countable ptr :=
  inj_countable' (λ p, match p with Root l => inl l | Node n => inr n end)
    (λ s, match s with inl l => Root l | inr n => Node n end) (λ p, match p with Root _ | Node _ => eq_refl end).

Record element (A : Type) : Type := mkElement {
  el_next : option ptr;
  el_prev : option ptr;
  el_list : option positive;
  el_Value : A;
}.
Arguments mkElement {A}.
Arguments el_next {A}.
Arguments el_prev {A}.
Arguments el_list {A}.
Arguments el_Value {A}.

(** All elements, the lengths of the lists, and the next free address. *)
Record store (A : Type) : Type := mkStore {
  elements : gmap ptr (element A);
  lens : gmap positive Z;
  next_free : positive;
}.
Arguments mkStore {A}.
Arguments elements {A}.
Arguments lens {A}.
Arguments next_free {A}.

(** Steps on the store; a panic ends the program. *)
Definition step (A B : Type) : Type := store A → result (B * store A).

#[export] Instance step_ret {A} : MRet (step A) := λ B b st, Ok (b, st).
#[export] Instance step_bind {A} : MBind (step A) := λ B C f m st,
  match m st with Ok (b, st) => f b st | Err e => Err e | Panic w => Panic w end.

Section Lists.
Context {A : Type} (zero : A).
Implicit Types (p e mark pos : option ptr) (l : positive).

Definition nil_pointer : string := "nil pointer dereference".

(** Reading and writing the fields of an element. *)
Definition load p : step A (element A) := λ st,
  match p ≫= λ q, elements st !! q with Some el => Ok (el, st) | None => Panic nil_pointer end.

Definition assign p (f : element A → element A) : step A unit := λ st,
  match p with
  | Some q =>
      match elements st !! q with
      | Some el => Ok (tt, mkStore (<[q := f el]> (elements st)) (lens st) (next_free st))
      | None => Panic nil_pointer
      end
  | None => Panic nil_pointer
  end.

Definition with_next (v : option ptr) (el : element A) : element A := mkElement v (el_prev el) (el_list el) (el_Value el).
Definition with_prev (v : option ptr) (el : element A) : element A := mkElement (el_next el) v (el_list el) (el_Value el).
Definition with_list (v : option positive) (el : element A) : element A := mkElement (el_next el) (el_prev el) v (el_Value el).

Definition set_next p v : step A unit := assign p (with_next v).
Definition set_prev p v : step A unit := assign p (with_prev v).
Definition set_list p v : step A unit := assign p (with_list v).

Definition root l : option ptr := Some (Root l).

(** [l.len], and what is assigned to it. *)
Definition Len l : step A Z := λ st,
  match lens st !! l with Some n => Ok (n, st) | None => Panic nil_pointer end.
Definition set_len l (n : Z) : step A unit := λ st, Ok (tt, mkStore (elements st) (<[l := n]> (lens st)) (next_free st)).

(** ** The operations *)

Definition Next e : step A (option ptr) :=
  el ← load e;
  mret (match el_list el with
        | Some l => if decide (el_next el = root l) then None else el_next el
        | None => None
        end).

Definition Prev e : step A (option ptr) :=
  el ← load e;
  mret (match el_list el with
        | Some l => if decide (el_prev el = root l) then None else el_prev el
        | None => None
        end).

Definition Init l : step A unit :=
  _ ← set_next (root l) (root l);
  _ ← set_prev (root l) (root l);
  set_len l 0.

(** A zero list, whose sentinel has no pointers yet. *)
Definition new_list : step A positive := λ st,
  Ok (next_free st, mkStore (<[Root (next_free st) := mkElement None None None zero]> (elements st))
        (<[next_free st := 0]> (lens st)) (Pos.succ (next_free st))).

Definition NewList : step A positive := l ← new_list; _ ← Init l; mret l.

Definition Front l : step A (option ptr) :=
  n ← Len l;
  if n =? 0 then mret None else r ← load (root l); mret (el_next r).

Definition Back l : step A (option ptr) :=
  n ← Len l;
  if n =? 0 then mret None else r ← load (root l); mret (el_prev r).

Definition lazyInit l : step A unit :=
  r ← load (root l);
  if decide (el_next r = None) then Init l else mret tt.

Definition insert_element l e pos : step A (option ptr) :=
  a ← load pos;
  let n := el_next a in
  _ ← set_next pos e;
  _ ← set_prev e pos;
  _ ← set_next e n;
  _ ← set_prev n e;
  _ ← set_list e (Some l);
  len ← Len l;
  _ ← set_len l (len + 1);
  mret e.

Definition new_element (v : A) : step A (option ptr) := λ st,
  Ok (Some (Node (next_free st)), mkStore (<[Node (next_free st) := mkElement None None None v]> (elements st))
        (lens st) (Pos.succ (next_free st))).

Definition insertValue l (v : A) pos : step A (option ptr) :=
  e ← new_element v;
  insert_element l e pos.

Definition remove_element l e : step A (option ptr) :=
  el ← load e;
  _ ← set_next (el_prev el) (el_next el);
  el ← load e;
  _ ← set_prev (el_next el) (el_prev el);
  _ ← set_next e None;
  _ ← set_prev e None;
  _ ← set_list e None;
  len ← Len l;
  _ ← set_len l (len - 1);
  mret e.

Definition Remove l e : step A A :=
  el ← load e;
  _ ← (if decide (el_list el = Some l) then remove_element l e else mret e);
  el ← load e;
  mret (el_Value el).

Definition PushFront l (v : A) : step A (option ptr) := _ ← lazyInit l; insertValue l v (root l).

Definition PushBack l (v : A) : step A (option ptr) :=
  _ ← lazyInit l;
  r ← load (root l);
  insertValue l v (el_prev r).

Definition InsertBefore l (v : A) mark : step A (option ptr) :=
  m ← load mark;
  if decide (el_list m = Some l) then insertValue l v (el_prev m) else mret None.

Definition InsertAfter l (v : A) mark : step A (option ptr) :=
  m ← load mark;
  if decide (el_list m = Some l) then insertValue l v mark else mret None.

Definition MoveToFront l e : step A unit :=
  el ← load e;
  if decide (el_list el = Some l) then
    r ← load (root l);
    if decide (el_next r = e) then mret tt
    else e ← remove_element l e; _ ← insert_element l e (root l); mret tt
  else mret tt.

(** The call of remove comes before the pointer of its neighbour is read. *)
Definition MoveToBack l e : step A unit :=
  el ← load e;
  if decide (el_list el = Some l) then
    r ← load (root l);
    if decide (el_prev r = e) then mret tt
    else e ← remove_element l e; r ← load (root l); _ ← insert_element l e (el_prev r); mret tt
  else mret tt.

Definition MoveBefore l e mark : step A unit :=
  el ← load e;
  if decide (el_list el = Some l ∧ e <> mark) then
    m ← load mark;
    if decide (el_list m = Some l) then
      e ← remove_element l e; m ← load mark; _ ← insert_element l e (el_prev m); mret tt
    else mret tt
  else mret tt.

Definition MoveAfter l e mark : step A unit :=
  el ← load e;
  if decide (el_list el = Some l ∧ e <> mark) then
    m ← load mark;
    if decide (el_list m = Some l) then
      e ← remove_element l e; _ ← insert_element l e mark; mret tt
    else mret tt
  else mret tt.

(** The loops run as often as the other list is long when they start. *)
Fixpoint push_back_loop (i : nat) l e : step A unit :=
  match i with
  | O => mret tt
  | S i =>
      el ← load e;
      r ← load (root l);
      _ ← insertValue l (el_Value el) (el_prev r);
      e ← Next e;
      push_back_loop i l e
  end.

Definition PushBackList l (other : positive) : step A unit :=
  _ ← lazyInit l;
  n ← Len other;
  e ← Front other;
  push_back_loop (Z.to_nat n) l e.

Fixpoint push_front_loop (i : nat) l e : step A unit :=
  match i with
  | O => mret tt
  | S i =>
      el ← load e;
      _ ← insertValue l (el_Value el) (root l);
      e ← Prev e;
      push_front_loop i l e
  end.

Definition PushFrontList l (other : positive) : step A unit :=
  _ ← lazyInit l;
  n ← Len other;
  e ← Back other;
  push_front_loop (Z.to_nat n) l e.

End Lists.

(** ** What a store represents *)

Section Represents.
Context {A : Type}.
Implicit Types (st : store A) (q r : ptr).

Definition nx st q : option ptr := elements st !! q ≫= el_next.
Definition pv st q : option ptr := elements st !! q ≫= el_prev.
Definition ls st q : option positive := elements st !! q ≫= el_list.
Definition vl st q : option A := el_Value <$> elements st !! q.
Definition has st q : Prop := is_Some (elements st !! q).

(** [b] comes after [a]. *)
Definition edge st (a b : ptr) : Prop := nx st a = Some b ∧ pv st b = Some a.

Fixpoint path st (ps : list ptr) : Prop :=
  match ps with
  | a :: (b :: _) as rest => edge st a b ∧ path st rest
  | _ => True
  end.

Definition cycle (l : positive) (ns : list positive) : list ptr := Root l :: (Node <$> ns) ++ [Root l].

(** [M] has the lists in the store, with the addresses of their elements. *)
Record represents st (M : gmap positive (list (positive * A))) : Prop := {
  rep_ring l xs : M !! l = Some xs → path st (cycle l xs.*1);
  rep_len l xs : M !! l = Some xs → lens st !! l = Some (Z.of_nat (length xs));
  rep_nodup l xs : M !! l = Some xs → NoDup xs.*1;
  rep_member l n : ls st (Node n) = Some l ↔ ∃ xs, M !! l = Some xs ∧ n ∈ xs.*1;
  rep_value l xs n v : M !! l = Some xs → (n, v) ∈ xs → vl st (Node n) = Some v;
  rep_free n : has st (Node n) → (n < next_free st)%positive;
  rep_free_list l : is_Some (M !! l) → (l < next_free st)%positive;
}.

(** *** Paths *)

Lemma path_app st l1 a l2 : path st (l1 ++ a :: l2) ↔ path st (l1 ++ [a]) ∧ path st (a :: l2).
Proof using.
  induction l1 as [|x l1 IH]; [cbn; tauto|]. destruct l1 as [|y l1]; [cbn; tauto|].
  change (edge st x y ∧ path st ((y :: l1) ++ a :: l2) ↔ (edge st x y ∧ path st ((y :: l1) ++ [a])) ∧ path st (a :: l2)). tauto.
Qed.

(** A path depends on the next pointers of all but its end, and the previous pointers of all but its start. *)
Lemma path_frame st st' ps :
  (∀ x, x ∈ removelast ps → nx st' x = nx st x) → (∀ y, y ∈ tail ps → pv st' y = pv st y) → path st ps → path st' ps.
Proof using.
  induction ps as [|a [|b ps] IH]; intros Hn Hp; [done..|]. intros [[E1 E2] Hps]. split.
  - split; [rewrite Hn; [done|cbn; by left]|rewrite Hp; [done|cbn; by left]].
  - apply IH; [intros x Hx; apply Hn; cbn; by right|intros y Hy; apply Hp; cbn; by right|done].
Qed.

Lemma path_has st ps q : path st ps → q ∈ removelast ps → has st q.
Proof using.
  induction ps as [|a [|b ps] IH]; [by intros _ ?%elem_of_nil..|]. intros [[E _] Hps] [->|Hq]%elem_of_cons; [|by apply IH].
  unfold nx in E. unfold has. destruct (elements st !! a); [by eexists|done].
Qed.

(** *** Changes of one element *)

Definition put st q (f : element A → element A) : store A := mkStore (alter f q (elements st)) (lens st) (next_free st).

Lemma assign_ok st q f : has st q → assign (Some q) f st = Ok (tt, put st q f).
Proof using.
  intros [el E]. unfold assign, put. rewrite E. do 3 f_equal. apply map_eq. intros r.
  destruct (decide (q = r)) as [->|Hq]; [by rewrite lookup_insert_eq, lookup_alter_eq, E|by rewrite lookup_insert_ne, lookup_alter_ne].
Qed.

Lemma load_ok st q el : elements st !! q = Some el → load (Some q) st = Ok (el, st).
Proof using. intros E. unfold load. cbn. by rewrite E. Qed.

Lemma has_put st q f r : has (put st q f) r ↔ has st r.
Proof using.
  unfold has, put. cbn. destruct (decide (q = r)) as [->|Hq]; [|by rewrite lookup_alter_ne].
  rewrite lookup_alter_eq. by destruct (elements st !! r); split; intros [? ?].
Qed.

Lemma field_put {B} (g : element A → option B) st q f r :
  elements (put st q f) !! r ≫= g
  = if decide (q = r) then elements st !! r ≫= (λ el, g (f el)) else elements st !! r ≫= g.
Proof using.
  unfold put. cbn. case_decide as Hq; [subst|by rewrite lookup_alter_ne]. rewrite lookup_alter_eq. by destruct (elements st !! r).
Qed.

Lemma nx_next st q v r : has st q → nx (put st q (with_next v)) r = if decide (q = r) then v else nx st r.
Proof using. intros [el E]. unfold nx. rewrite field_put. case_decide; [subst; by rewrite E|done]. Qed.
Lemma nx_prev st q v r : nx (put st q (with_prev v)) r = nx st r.
Proof using. unfold nx. rewrite field_put. by case_decide. Qed.
Lemma nx_list st q v r : nx (put st q (with_list v)) r = nx st r.
Proof using. unfold nx. rewrite field_put. by case_decide. Qed.
Lemma pv_next st q v r : pv (put st q (with_next v)) r = pv st r.
Proof using. unfold pv. rewrite field_put. by case_decide. Qed.
Lemma pv_prev st q v r : has st q → pv (put st q (with_prev v)) r = if decide (q = r) then v else pv st r.
Proof using. intros [el E]. unfold pv. rewrite field_put. case_decide; [subst; by rewrite E|done]. Qed.
Lemma pv_list st q v r : pv (put st q (with_list v)) r = pv st r.
Proof using. unfold pv. rewrite field_put. by case_decide. Qed.
Lemma ls_next st q v r : ls (put st q (with_next v)) r = ls st r.
Proof using. unfold ls. rewrite field_put. by case_decide. Qed.
Lemma ls_prev st q v r : ls (put st q (with_prev v)) r = ls st r.
Proof using. unfold ls. rewrite field_put. by case_decide. Qed.
Lemma ls_list st q v r : has st q → ls (put st q (with_list v)) r = if decide (q = r) then v else ls st r.
Proof using. intros [el E]. unfold ls. rewrite field_put. case_decide; [subst; by rewrite E|done]. Qed.

Lemma vl_put st q f r : (∀ el, el_Value (f el) = el_Value el) → vl (put st q f) r = vl st r.
Proof using.
  intros Hf. unfold vl, put. cbn. destruct (decide (q = r)) as [->|Hq]; [|by rewrite lookup_alter_ne].
  rewrite lookup_alter_eq. destruct (elements st !! r); cbn; [by rewrite Hf|done].
Qed.

Lemma run_step {B C} (m : step A B) (f : B → step A C) st b st' : m st = Ok (b, st') → (m ≫= f) st = f b st'.
Proof using. intros E. unfold mbind, step_bind. by rewrite E. Qed.

(** *** Inserting an element *)

Definition with_len st l (n : Z) : store A := mkStore (elements st) (<[l := n]> (lens st)) (next_free st).

(** [e] comes between [a] and [n]. *)
Definition linked_in st (e a n : ptr) : store A :=
  put (put (put (put st a (with_next (Some e))) e (with_prev (Some a))) e (with_next (Some n))) n (with_prev (Some e)).

Definition inserted st (l : positive) (e a n : ptr) (k : Z) : store A :=
  with_len (put (linked_in st e a n) e (with_list (Some l))) l k.

Lemma insert_runs st l e a n k :
  has st e → nx st a = Some n → has st n → lens st !! l = Some k →
  insert_element l (Some e) (Some a) st = Ok (Some e, inserted st l e a n (k + 1)).
Proof using.
  intros He Ha Hn Hk. unfold insert_element. unfold nx in Ha. destruct (elements st !! a) as [el|] eqn:Ea; [|done]. cbn in Ha.
  assert (has st a) as Hha by by eexists.
  erewrite run_step by by apply load_ok. cbv zeta. rewrite Ha.
  do 5 (erewrite run_step by (apply assign_ok; by rewrite ?has_put)).
  erewrite run_step by (unfold Len, linked_in, put; cbn; by rewrite Hk). done.
Qed.

Lemma inserted_fields st l e a n k r :
  has st e → has st a → has st n → e <> a → e <> n →
  nx (inserted st l e a n k) r = (if decide (r = e) then Some n else if decide (r = a) then Some e else nx st r) ∧
  pv (inserted st l e a n k) r = (if decide (r = n) then Some e else if decide (r = e) then Some a else pv st r) ∧
  ls (inserted st l e a n k) r = (if decide (r = e) then Some l else ls st r) ∧
  vl (inserted st l e a n k) r = vl st r ∧ (has (inserted st l e a n k) r ↔ has st r).
Proof using.
  intros He Ha Hn H1 H2. unfold inserted.
  change (nx (with_len ?x _ _) r) with (nx x r). change (pv (with_len ?x _ _) r) with (pv x r).
  change (ls (with_len ?x _ _) r) with (ls x r). change (vl (with_len ?x _ _) r) with (vl x r).
  change (has (with_len ?x _ _) r) with (has x r). unfold linked_in. split_and!.
  - rewrite nx_list, nx_prev, nx_next, nx_prev, nx_next by by rewrite ?has_put. repeat case_decide; congruence.
  - rewrite pv_list, pv_prev, pv_next, pv_prev, pv_next by by rewrite ?has_put. repeat case_decide; congruence.
  - rewrite ls_list, ls_prev, ls_next, ls_prev, ls_next by by rewrite ?has_put. repeat case_decide; congruence.
  - by rewrite !vl_put.
  - by rewrite !has_put.
Qed.

(** *** Removing an element *)

Definition removed st (l : positive) (e a b : ptr) (k : Z) : store A :=
  with_len (put (put (put (put (put st a (with_next (Some b))) b (with_prev (Some a))) e (with_next None)) e (with_prev None))
    e (with_list None)) l k.

Lemma remove_runs st l e a b k :
  has st a → has st b → has st e → nx st e = Some b → pv st e = Some a → e <> a → lens st !! l = Some k →
  remove_element l (Some e) st = Ok (Some e, removed st l e a b (k - 1)).
Proof using.
  intros Ha Hb [el Ee] Hn Hp Hne Hk. unfold remove_element. unfold nx in Hn. unfold pv in Hp. rewrite Ee in Hn, Hp. cbn in Hn, Hp.
  erewrite run_step by by apply load_ok. rewrite Hn, Hp.
  erewrite run_step by by apply assign_ok.
  erewrite run_step by (apply load_ok; unfold put; cbn; by rewrite lookup_alter_ne). rewrite Hn, Hp.
  assert (has st e) as He by by eexists.
  do 4 (erewrite run_step by (apply assign_ok; by rewrite ?has_put)).
  erewrite run_step by (unfold Len, put; cbn; by rewrite Hk). done.
Qed.

Lemma removed_fields st l e a b k r :
  has st a → has st b → has st e → e <> a → e <> b →
  nx (removed st l e a b k) r = (if decide (r = e) then None else if decide (r = a) then Some b else nx st r) ∧
  pv (removed st l e a b k) r = (if decide (r = e) then None else if decide (r = b) then Some a else pv st r) ∧
  ls (removed st l e a b k) r = (if decide (r = e) then None else ls st r) ∧
  vl (removed st l e a b k) r = vl st r ∧ (has (removed st l e a b k) r ↔ has st r).
Proof using.
  intros Ha Hb He H1 H2. unfold removed.
  change (nx (with_len ?x _ _) r) with (nx x r). change (pv (with_len ?x _ _) r) with (pv x r).
  change (ls (with_len ?x _ _) r) with (ls x r). change (vl (with_len ?x _ _) r) with (vl x r).
  change (has (with_len ?x _ _) r) with (has x r). split_and!.
  - rewrite nx_list, nx_prev, nx_next, nx_prev, nx_next by by rewrite ?has_put. repeat case_decide; congruence.
  - rewrite pv_list, pv_prev, pv_next, pv_prev, pv_next by by rewrite ?has_put. repeat case_decide; congruence.
  - rewrite ls_list, ls_prev, ls_next, ls_prev, ls_next by by rewrite ?has_put. repeat case_decide; congruence.
  - by rewrite !vl_put.
  - by rewrite !has_put.
Qed.

(** *** Rings *)

(** What comes before and after a place in a list. *)
Definition before (l : positive) (ns : list positive) : ptr := default (Root l) (Node <$> last ns).
Definition after (l : positive) (ns : list positive) : ptr := default (Root l) (Node <$> head ns).

Lemma front_split l ns : ∃ L, Root l :: (Node <$> ns) = L ++ [before l ns].
Proof using.
  unfold before. destruct ns as [|m ns] using rev_ind; [by exists []|]. rewrite last_snoc, fmap_app. cbn.
  by exists (Root l :: (Node <$> ns)).
Qed.

Lemma rear_split l ns : ∃ R, (Node <$> ns) ++ [Root l] = after l ns :: R.
Proof using. unfold after. destruct ns as [|m ns]; cbn; by eexists. Qed.

Lemma cycle_app l ns1 ns2 : cycle l (ns1 ++ ns2) = (Root l :: (Node <$> ns1)) ++ ((Node <$> ns2) ++ [Root l]).
Proof using. unfold cycle. by rewrite fmap_app, <- app_assoc. Qed.

Lemma cycle_elem l ns q : q ∈ cycle l ns ↔ q = Root l ∨ ∃ n, q = Node n ∧ n ∈ ns.
Proof using.
  unfold cycle. rewrite elem_of_cons, elem_of_app, list_elem_of_singleton, list_elem_of_fmap. naive_solver.
Qed.

Lemma before_in l ns : before l ns ∈ cycle l ns.
Proof using.
  unfold before. apply cycle_elem. destruct (last ns) as [m|] eqn:E; [right|by left]. exists m. split; [done|].
  apply last_Some in E as [l' ->]. set_solver.
Qed.

Lemma after_in l ns : after l ns ∈ cycle l ns.
Proof using. unfold after. apply cycle_elem. destruct ns as [|m ns]; [by left|]. right. exists m. split; [done|by left]. Qed.

Lemma cycle_mono l ns ns' q : (∀ n, n ∈ ns → n ∈ ns') → q ∈ cycle l ns → q ∈ cycle l ns'.
Proof using. intros Hi. rewrite !cycle_elem. naive_solver. Qed.

(** Everything on a ring is there. *)
Lemma cycle_has st l ns q : path st (cycle l ns) → q ∈ cycle l ns → has st q.
Proof using.
  intros Hp Hq. apply (path_has st (cycle l ns)); [done|]. unfold cycle. rewrite app_comm_cons, removelast_last.
  apply cycle_elem in Hq as [->|(n & -> & Hn)]; [by left|right; by apply list_elem_of_fmap_2].
Qed.

Lemma nodup_front l ns : NoDup ns → NoDup (Root l :: (Node <$> ns)).
Proof using.
  intros Hn. apply NoDup_cons. split; [by intros (? & ? & _)%list_elem_of_fmap|]. apply NoDup_fmap_2; [|done]. by intros ? ? [= ->].
Qed.

Lemma nodup_rear l ns : NoDup ns → NoDup ((Node <$> ns) ++ [Root l]).
Proof using.
  intros Hn. apply (NoDup_Permutation_proper _ (Root l :: (Node <$> ns))); [by rewrite Permutation_app_comm|by apply nodup_front].
Qed.

(** The two halves of a ring, with or without something between them. *)
Lemma ring_halves st l ns1 mid ns2 :
  path st (cycle l (ns1 ++ mid ++ ns2)) → path st (Root l :: (Node <$> ns1)) ∧ path st ((Node <$> ns2) ++ [Root l]).
Proof using.
  intros Hp. split.
  - rewrite cycle_app in Hp. destruct (front_split l ns1) as [L EL]. rewrite EL in *. rewrite <- app_assoc in Hp.
    by apply path_app in Hp as [P1 _].
  - rewrite app_assoc, cycle_app in Hp. destruct (rear_split l ns2) as [R ER]. rewrite ER in *. by apply path_app in Hp as [_ P2].
Qed.

(** They stay, if only the pointers between them change. *)
Lemma halves st st' l ns1 ns2 (keep : ptr → Prop) :
  path st (Root l :: (Node <$> ns1)) → path st ((Node <$> ns2) ++ [Root l]) → NoDup (ns1 ++ ns2) →
  (∀ q, q ∈ cycle l (ns1 ++ ns2) → keep q) →
  (∀ q, keep q → q <> before l ns1 → nx st' q = nx st q) → (∀ q, keep q → q <> after l ns2 → pv st' q = pv st q) →
  path st' (Root l :: (Node <$> ns1)) ∧ path st' ((Node <$> ns2) ++ [Root l]).
Proof using.
  intros P1 P2 Hd Hk Hn Hv. apply NoDup_app in Hd as (D1 & D2 & D3).
  assert (∀ q, q ∈ Root l :: (Node <$> ns1) → keep q) as K1
    by (intros q Hq; apply Hk; rewrite cycle_app; apply elem_of_app; by left).
  assert (∀ q, q ∈ (Node <$> ns2) ++ [Root l] → keep q) as K2
    by (intros q Hq; apply Hk; rewrite cycle_app; apply elem_of_app; by right).
  destruct (front_split l ns1) as [L EL], (rear_split l ns2) as [R ER].
  pose proof (nodup_front l ns1 D1) as F1. pose proof (nodup_rear l ns2 D3) as F2.
  split.
  - rewrite EL in *. apply NoDup_app in F1 as (_ & F1 & _). revert P1. apply path_frame.
    + rewrite removelast_last. intros x Hx. apply Hn; [apply K1, elem_of_app; by left|]. intros ->. apply (F1 _ Hx). by left.
    + intros y Hy. assert (y ∈ Node <$> ns1) as (m & -> & Hm)%list_elem_of_fmap by (change (Node <$> ns1) with (tail (Root l :: (Node <$> ns1))); by rewrite EL).
      apply Hv; [apply K1; rewrite <- EL; right; by apply list_elem_of_fmap_2|]. unfold after. destruct ns2 as [|m2 ns2]; [done|].
      intros [= ->]. apply (D2 _ Hm). by left.
  - revert P2. apply path_frame.
    + rewrite removelast_last. intros x (m & -> & Hm)%list_elem_of_fmap.
      apply Hn; [apply K2, elem_of_app; left; by apply list_elem_of_fmap_2|].
      unfold before. destruct (last ns1) as [m1|] eqn:E1; [|done]. intros [= ->]. apply (D2 m1); [|done].
      apply last_Some in E1 as [? ->]. set_solver.
    + rewrite ER in *. intros y Hy. apply NoDup_cons in F2 as [F2 _]. apply Hv; [apply K2; by right|]. by intros ->.
Qed.

(** *** Changing one of the lists *)

Lemma node_in st M l xs n : represents st M → M !! l = Some xs → Node n ∈ cycle l xs.*1 → ls st (Node n) = Some l.
Proof using.
  intros HR Hl Hn. apply (rep_member _ _ HR). exists xs. split; [done|].
  apply cycle_elem in Hn as [?|(m & [= ->] & Hm)]; done.
Qed.

Lemma disjoint st M l xs l' ys q :
  represents st M → M !! l = Some xs → M !! l' = Some ys → l <> l' → q ∈ cycle l xs.*1 → q ∉ cycle l' ys.*1.
Proof using.
  intros HR Hl Hl' Hne Hq Hq'. destruct q as [r|n].
  - apply cycle_elem in Hq as [[= ->]|(? & ? & _)]; [|done]. apply cycle_elem in Hq' as [[= ->]|(? & ? & _)]; done.
  - pose proof (node_in _ _ _ _ _ HR Hl Hq). pose proof (node_in _ _ _ _ _ HR Hl' Hq'). congruence.
Qed.

(** A store in which the list [l] has become [xs'], and [e] came or went. *)
Lemma represents_update st st' M l xs xs' (e : ptr) :
  represents st M → M !! l = Some xs → (e ∈ cycle l xs.*1 ∨ ∀ l' ys, M !! l' = Some ys → e ∉ cycle l' ys.*1) →
  path st' (cycle l xs'.*1) → NoDup xs'.*1 → lens st' = <[l := Z.of_nat (length xs')]> (lens st) → next_free st' = next_free st →
  (∀ q, q ∉ cycle l xs.*1 → q <> e → nx st' q = nx st q ∧ pv st' q = pv st q) →
  (∀ m, ls st' (Node m) = Some l ↔ m ∈ xs'.*1) →
  (∀ m l', l' <> l → ls st' (Node m) = Some l' ↔ ls st (Node m) = Some l') →
  (∀ q, vl st' q = vl st q) → (∀ n v, (n, v) ∈ xs' → vl st (Node n) = Some v) → (∀ q, has st' q ↔ has st q) →
  represents st' (<[l := xs']> M).
Proof using.
  intros HR Hl He Hp Hd Hlens Hfree Hframe Hin Hout Hvl Hval Hhas. split.
  - intros l' ys [[<- <-]|[Hne Hl']]%lookup_insert_Some; [done|].
    assert (∀ q, q ∈ cycle l' ys.*1 → nx st' q = nx st q ∧ pv st' q = pv st q) as Hq.
    { intros q Hq. apply Hframe; [intros Hq'; by eapply (disjoint _ _ _ _ _ _ _ HR Hl Hl')|]. intros ->.
      destruct He as [He|He]; [by eapply (disjoint _ _ _ _ _ _ _ HR Hl Hl')|by eapply He]. }
    apply (path_frame st); [| |by apply (rep_ring _ _ HR)].
    + intros x Hx. apply Hq. unfold cycle in *. rewrite app_comm_cons, removelast_last in Hx. set_solver.
    + intros y Hy. apply Hq. unfold cycle in *. cbn in Hy. by right.
  - intros l' ys [[<- <-]|[Hne Hl']]%lookup_insert_Some; rewrite Hlens; [by rewrite lookup_insert_eq|].
    rewrite lookup_insert_ne by done. by apply (rep_len _ _ HR).
  - intros l' ys [[<- <-]|[Hne Hl']]%lookup_insert_Some; [done|by apply (rep_nodup _ _ HR l')].
  - intros l' n. destruct (decide (l' = l)) as [->|Hne].
    + rewrite Hin. split; [intros; exists xs'; by rewrite lookup_insert_eq|]. intros (ys & E & Hn). rewrite lookup_insert_eq in E. by injection E as <-.
    + rewrite Hout, (rep_member _ _ HR) by done. split; intros (ys & E & Hn); exists ys; (split; [|done]); by rewrite lookup_insert_ne in *.
  - intros l' ys n v [[<- <-]|[Hne Hl']]%lookup_insert_Some; rewrite Hvl; [apply Hval|by apply (rep_value _ _ HR l')].
  - intros n. rewrite Hhas, Hfree. apply (rep_free _ _ HR).
  - intros l'. rewrite Hfree, lookup_insert_is_Some. intros [->|[_ Hl']]; apply (rep_free_list _ _ HR); [by eexists|done].
Qed.

(** *** Inserting *)

Lemma detached st M n l xs : represents st M → ls st (Node n) = None → M !! l = Some xs → Node n ∉ cycle l xs.*1.
Proof using. intros HR Hn Hl Hin. pose proof (node_in _ _ _ _ _ HR Hl Hin). congruence. Qed.

Lemma has_vl st q v : vl st q = Some v → has st q.
Proof using. unfold vl, has. destruct (elements st !! q); [by eexists|done]. Qed.

Lemma cycle_edge st l ns1 ns2 : path st (cycle l (ns1 ++ ns2)) → edge st (before l ns1) (after l ns2).
Proof using.
  rewrite cycle_app. destruct (front_split l ns1) as [L ->], (rear_split l ns2) as [R ->]. rewrite <- app_assoc.
  intros [_ [He _]]%path_app. exact He.
Qed.

Lemma before_app l ns1 ns2 : before l ns1 ∈ cycle l (ns1 ++ ns2).
Proof using. eapply cycle_mono; [|apply before_in]. set_solver. Qed.
Lemma after_app l ns1 ns2 : after l ns2 ∈ cycle l (ns1 ++ ns2).
Proof using. eapply cycle_mono; [|apply after_in]. set_solver. Qed.

(** The ring with a new element in it. *)
Lemma inserted_ring st st' l e ns1 ns2 :
  let a := before l ns1 in let b := after l ns2 in
  path st (cycle l (ns1 ++ ns2)) → NoDup (ns1 ++ ns2) → Node e ∉ cycle l (ns1 ++ ns2) →
  (∀ q, nx st' q = if decide (q = Node e) then Some b else if decide (q = a) then Some (Node e) else nx st q) →
  (∀ q, pv st' q = if decide (q = b) then Some (Node e) else if decide (q = Node e) then Some a else pv st q) →
  path st' (cycle l (ns1 ++ e :: ns2)).
Proof using.
  intros a b Hp Hd He Hnx Hpv.
  assert (a <> Node e ∧ b <> Node e) as [Ha Hb] by (split; intros E; apply He; rewrite <- E; [apply before_app|apply after_app]).
  destruct (ring_halves st l ns1 [] ns2 Hp) as [Q1 Q2].
  destruct (halves st st' l ns1 ns2 (λ q, q <> Node e)) as [P1 P2]; try done.
  - by intros q Hq ->.
  - intros q H1 H2. by rewrite Hnx, !decide_False.
  - intros q H1 H2. by rewrite Hpv, !decide_False.
  - rewrite cycle_app, fmap_cons. destruct (front_split l ns1) as [L EL], (rear_split l ns2) as [R ER]. fold a in EL. fold b in ER.
    rewrite EL, ER in *. cbn [app]. rewrite ER, <- app_assoc. apply path_app. split; [done|]. split; [|split; [|done]].
    + split; [rewrite Hnx|rewrite Hpv]; [by rewrite decide_False, decide_True|by rewrite decide_False, decide_True].
    + split; [rewrite Hnx|rewrite Hpv]; by rewrite decide_True.
Qed.

Lemma nodup_insert (ns1 ns2 : list positive) n : NoDup (ns1 ++ ns2) → n ∉ ns1 ++ ns2 → NoDup (ns1 ++ n :: ns2).
Proof using.
  intros Hd Hn. apply (NoDup_Permutation_proper _ (n :: ns1 ++ ns2)); [by rewrite Permutation_middle|by apply NoDup_cons].
Qed.

Lemma insert_represents st M l xs1 xs2 n v :
  represents st M → M !! l = Some (xs1 ++ xs2) → ls st (Node n) = None → vl st (Node n) = Some v →
  ∃ st', insert_element l (Some (Node n)) (Some (before l xs1.*1)) st = Ok (Some (Node n), st') ∧
    represents st' (<[l := xs1 ++ (n, v) :: xs2]> M) ∧ next_free st' = next_free st.
Proof using.
  intros HR Hl Hn Hv. set (a := before l xs1.*1). set (b := after l xs2.*1). set (e := Node n).
  pose proof (rep_ring _ _ HR _ _ Hl) as Hp. pose proof (rep_nodup _ _ HR _ _ Hl) as Hd.
  pose proof (detached _ _ _ _ _ HR Hn Hl) as Hdet. rewrite fmap_app in Hp, Hd, Hdet.
  assert (∀ q, q ∈ cycle l (xs1.*1 ++ xs2.*1) → has st q ∧ e <> q) as Hq by (intros q Hq; split; [by eapply cycle_has|by intros <-]).
  destruct (Hq a (before_app _ _ _)) as [Ha Hea], (Hq b (after_app _ _ _)) as [Hb Heb]. pose proof (has_vl _ _ _ Hv) as He.
  exists (inserted st l e a b (Z.of_nat (length (xs1 ++ xs2)) + 1)).
  split; [apply insert_runs; [done|by apply cycle_edge|done|by apply (rep_len _ _ HR)]|]. split; [|done].
  pose proof (λ r, inserted_fields st l e a b (Z.of_nat (length (xs1 ++ xs2)) + 1) r He Ha Hb Hea Heb) as HF.
  set (st' := inserted st l e a b _) in *.
  apply (represents_update st st' M l (xs1 ++ xs2) _ e); try done.
  - right. intros l' ys Hl'. by eapply detached.
  - rewrite fmap_app, fmap_cons. apply (inserted_ring st); [done..|intros q; apply HF|intros q; apply HF].
  - rewrite fmap_app, fmap_cons. apply nodup_insert; [done|]. intros Hi. apply Hdet, cycle_elem. right. by exists n.
  - cbn. f_equal. rewrite !length_app. cbn. lia.
  - intros q Hqc Hqe. rewrite fmap_app in Hqc. destruct (HF q) as (-> & -> & _).
    rewrite !decide_False; [done|..]; try done; intros ->; apply Hqc; [apply after_app|apply before_app].
  - intros m. destruct (HF (Node m)) as (_ & _ & -> & _). rewrite fmap_app, fmap_cons, elem_of_app, elem_of_cons. cbn [fst]. case_decide as Hm.
    + injection Hm as ->. naive_solver.
    + rewrite (rep_member _ _ HR). split.
      * intros (ys & Hys & Hi). rewrite Hl in Hys. injection Hys as <-. rewrite fmap_app, elem_of_app in Hi. tauto.
      * intros Hi. exists (xs1 ++ xs2). split; [done|]. rewrite fmap_app, elem_of_app. naive_solver.
  - intros m l' Hl'. destruct (HF (Node m)) as (_ & _ & -> & _). case_decide as Hm; [|done]. injection Hm as ->. rewrite Hn. naive_solver.
  - intros q. by destruct (HF q) as (_ & _ & _ & -> & _).
  - intros m w [Hi|[[= -> ->]|Hi]%elem_of_cons]%elem_of_app; [|done|]; apply (rep_value _ _ HR _ _ _ _ Hl), elem_of_app; auto.
  - intros q. by destruct (HF q) as (_ & _ & _ & _ & ->).
Qed.

(** *** Removing *)

Lemma middle_edges st l ns1 e ns2 :
  path st (cycle l (ns1 ++ e :: ns2)) → edge st (before l ns1) (Node e) ∧ edge st (Node e) (after l ns2).
Proof using.
  intros Hp. split; [by apply (cycle_edge st l ns1 (e :: ns2))|].
  change (e :: ns2) with ([e] ++ ns2) in Hp. rewrite app_assoc in Hp.
  assert (before l (ns1 ++ [e]) = Node e) as <- by (unfold before; by rewrite last_snoc). by apply cycle_edge.
Qed.

Lemma removed_ring st st' l e ns1 ns2 :
  let a := before l ns1 in let b := after l ns2 in
  path st (cycle l (ns1 ++ e :: ns2)) → NoDup (ns1 ++ e :: ns2) →
  (∀ q, nx st' q = if decide (q = Node e) then None else if decide (q = a) then Some b else nx st q) →
  (∀ q, pv st' q = if decide (q = Node e) then None else if decide (q = b) then Some a else pv st q) →
  path st' (cycle l (ns1 ++ ns2)).
Proof using.
  intros a b Hp Hd Hnx Hpv. apply (NoDup_Permutation_proper _ (e :: ns1 ++ ns2)) in Hd; [|by rewrite Permutation_middle].
  apply NoDup_cons in Hd as [He Hd].
  assert (∀ q, q ∈ cycle l (ns1 ++ ns2) → q <> Node e) as Hq.
  { intros q Hq ->. apply cycle_elem in Hq as [?|(? & [= <-] & ?)]; done. }
  assert (a <> Node e ∧ b <> Node e) as [Ha Hb] by (split; apply Hq; [apply before_app|apply after_app]).
  destruct (ring_halves st l ns1 [e] ns2 Hp) as [Q1 Q2].
  destruct (halves st st' l ns1 ns2 (λ q, q <> Node e)) as [P1 P2]; try done.
  - intros q H1 H2. by rewrite Hnx, !decide_False.
  - intros q H1 H2. by rewrite Hpv, !decide_False.
  - rewrite cycle_app. destruct (front_split l ns1) as [L EL], (rear_split l ns2) as [R ER]. fold a in EL. fold b in ER.
    rewrite EL, ER in *. rewrite <- app_assoc. apply path_app. split; [done|]. split; [|done].
    split; [rewrite Hnx|rewrite Hpv]; by rewrite decide_False, decide_True.
Qed.

(** What is around an element of a list. *)
Lemma around st M l xs1 n v xs2 :
  represents st M → M !! l = Some (xs1 ++ (n, v) :: xs2) →
  let a := before l xs1.*1 in let b := after l xs2.*1 in
  has st a ∧ has st b ∧ has st (Node n) ∧ Node n <> a ∧ Node n <> b ∧ nx st (Node n) = Some b ∧ pv st (Node n) = Some a ∧
  (n ∉ (xs1 ++ xs2).*1) ∧ NoDup ((xs1 ++ xs2).*1) ∧ vl st (Node n) = Some v ∧ ls st (Node n) = Some l.
Proof using.
  intros HR Hl a b. pose proof (rep_ring _ _ HR _ _ Hl) as Hp. pose proof (rep_nodup _ _ HR _ _ Hl) as Hd.
  rewrite fmap_app, fmap_cons in Hp, Hd. cbn [fst] in Hp, Hd.
  assert ((n ∉ xs1.*1 ++ xs2.*1) ∧ NoDup (xs1.*1 ++ xs2.*1)) as [Hni Hd'].
  { apply NoDup_cons, (NoDup_Permutation_proper _ (xs1.*1 ++ n :: xs2.*1)); [by rewrite Permutation_middle|done]. }
  assert (∀ q, q ∈ cycle l (xs1.*1 ++ xs2.*1) → has st q ∧ Node n <> q) as Hq.
  { intros q Hq. split; [eapply cycle_has; [exact Hp|]; revert Hq; apply cycle_mono; set_solver|].
    intros <-. apply cycle_elem in Hq as [?|(? & [= <-] & ?)]; done. }
  destruct (Hq a (before_app _ _ _)) as [Ha Hea], (Hq b (after_app _ _ _)) as [Hb Heb].
  destruct (middle_edges _ _ _ _ _ Hp) as [[_ E1] [E2 _]]. rewrite fmap_app. split_and!; try done.
  - eapply cycle_has; [exact Hp|]. apply cycle_elem. right. exists n. set_solver.
  - apply (rep_value _ _ HR _ _ _ _ Hl). set_solver.
  - apply (rep_member _ _ HR). exists (xs1 ++ (n, v) :: xs2). split; [done|]. rewrite fmap_app, fmap_cons. set_solver.
Qed.

Lemma remove_represents st M l xs1 n v xs2 :
  represents st M → M !! l = Some (xs1 ++ (n, v) :: xs2) →
  ∃ st', remove_element l (Some (Node n)) st = Ok (Some (Node n), st') ∧ represents st' (<[l := xs1 ++ xs2]> M) ∧
    next_free st' = next_free st ∧ ls st' (Node n) = None ∧ vl st' (Node n) = Some v.
Proof using.
  intros HR Hl. destruct (around _ _ _ _ _ _ _ HR Hl) as (Ha & Hb & He & Hea & Heb & E1 & E2 & Hni & Hd & Hv & Hls).
  set (a := before l xs1.*1) in *. set (b := after l xs2.*1) in *. set (e := Node n) in *.
  pose proof (rep_len _ _ HR _ _ Hl) as Hlen. set (k := Z.of_nat (length (xs1 ++ (n, v) :: xs2))) in *.
  exists (removed st l e a b (k - 1)). split; [by apply remove_runs|].
  pose proof (λ r, removed_fields st l e a b (k - 1) r Ha Hb He Hea Heb) as HF. set (st' := removed st l e a b _) in *.
  split_and!; [|done|destruct (HF e) as (_ & _ & -> & _); by rewrite decide_True|by destruct (HF e) as (_ & _ & _ & -> & _)].
  assert (∀ m, m ∈ (xs1 ++ (n, v) :: xs2).*1 ↔ m = n ∨ m ∈ (xs1 ++ xs2).*1) as Hm
    by (intros m; rewrite !fmap_app, fmap_cons, !elem_of_app, elem_of_cons; cbn [fst]; tauto).
  apply (represents_update st st' M l (xs1 ++ (n, v) :: xs2) _ e); try done.
  - left. apply cycle_elem. right. exists n. split; [done|]. apply Hm. by left.
  - rewrite fmap_app. pose proof (rep_ring _ _ HR _ _ Hl) as Hp. pose proof (rep_nodup _ _ HR _ _ Hl) as Hd2.
    rewrite fmap_app, fmap_cons in Hp, Hd2. apply (removed_ring st _ _ n); [done..|intros q; apply HF|intros q; apply HF].
  - cbn. f_equal. unfold k. rewrite !length_app. cbn. lia.
  - intros q Hqc Hqe. destruct (HF q) as (-> & -> & _). rewrite !decide_False; [done|..]; try done; intros ->; apply Hqc.
    + eapply cycle_mono; [|apply (after_app l xs1.*1)]. intros m. rewrite <- fmap_app, Hm. auto.
    + eapply cycle_mono; [|apply (before_app l xs1.*1 xs2.*1)]. intros m. rewrite <- fmap_app, Hm. auto.
  - intros m. destruct (HF (Node m)) as (_ & _ & -> & _). case_decide as Hme; [injection Hme as ->; naive_solver|].
    rewrite (rep_member _ _ HR). split; [|intros Hi; exists (xs1 ++ (n, v) :: xs2); split; [done|apply Hm; auto]].
    intros (ys & Hys & Hi). rewrite Hl in Hys. injection Hys as <-. apply Hm in Hi as [->|Hi]; done.
  - intros m l' Hl'. destruct (HF (Node m)) as (_ & _ & -> & _). case_decide as Hme; [|done]. injection Hme as ->. unfold e in Hls. naive_solver.
  - intros q. by destruct (HF q) as (_ & _ & _ & -> & _).
  - intros m w Hi. apply (rep_value _ _ HR _ _ _ _ Hl). set_solver.
  - intros q. by destruct (HF q) as (_ & _ & _ & _ & ->).
Qed.

(** ** The operations on represented lists *)

Lemma new_element_represents st M v :
  represents st M → ∃ st', new_element v st = Ok (Some (Node (next_free st)), st') ∧ represents st' M ∧
    ls st' (Node (next_free st)) = None ∧ vl st' (Node (next_free st)) = Some v ∧ next_free st' = Pos.succ (next_free st).
Proof using.
  intros HR. set (n := next_free st). assert (elements st !! Node n = None) as Hn.
  { destruct (elements st !! Node n) eqn:E; [|done]. assert (has st (Node n)) as H%(rep_free _ _ HR) by by eexists. fold n in H. lia. }
  eexists. split; [done|]. split_and!; try done; [|unfold ls; cbn; by rewrite lookup_insert_eq|unfold vl; cbn; by rewrite lookup_insert_eq].
  assert (∀ q, q <> Node n → <[Node n := mkElement None None None v]> (elements st) !! q = elements st !! q) as Hq
    by (intros q Hq; by rewrite lookup_insert_ne).
  assert (∀ l xs q, M !! l = Some xs → q ∈ cycle l xs.*1 → q <> Node n) as Hin.
  { intros l xs q Hl Hq' ->. pose proof (node_in _ _ _ _ _ HR Hl Hq') as E. unfold ls in E. by rewrite Hn in E. }
  split.
  - intros l xs Hl. pose proof (rep_ring _ _ HR _ _ Hl) as Hp. revert Hp. apply path_frame.
    + unfold cycle. rewrite app_comm_cons, removelast_last. intros x Hx. unfold nx. cbn. rewrite Hq; [done|].
      apply (Hin l xs); [done|]. unfold cycle. rewrite app_comm_cons. apply elem_of_app. by left.
    + intros y Hy. unfold pv. cbn. rewrite Hq; [done|]. apply (Hin l xs); [done|]. by right.
  - apply (rep_len _ _ HR).
  - apply (rep_nodup _ _ HR).
  - intros l m. unfold ls. cbn. destruct (decide (m = n)) as [->|Hm].
    + rewrite lookup_insert_eq. cbn. rewrite <- (rep_member _ _ HR). unfold ls. by rewrite Hn.
    + rewrite Hq by congruence. apply (rep_member _ _ HR).
  - intros l xs m w Hl Hm. unfold vl. cbn. rewrite Hq; [by apply (rep_value _ _ HR l xs)|].
    apply (Hin l xs); [done|]. apply cycle_elem. right. exists m. split; [done|]. apply list_elem_of_fmap. by exists (m, w).
  - intros m. unfold has. cbn. rewrite lookup_insert_is_Some. intros [[= <-]|[_ Hm]]; [fold n; lia|]. pose proof (rep_free _ _ HR _ Hm). lia.
  - intros l Hl. pose proof (rep_free_list _ _ HR _ Hl). cbn. lia.
Qed.

Lemma insertValue_represents st M l xs1 xs2 v :
  represents st M → M !! l = Some (xs1 ++ xs2) →
  ∃ st', insertValue l v (Some (before l xs1.*1)) st = Ok (Some (Node (next_free st)), st') ∧
    represents st' (<[l := xs1 ++ (next_free st, v) :: xs2]> M) ∧ next_free st' = Pos.succ (next_free st).
Proof using.
  intros HR Hl. destruct (new_element_represents st M v HR) as (st1 & E1 & HR1 & Hls & Hvl & Hf).
  destruct (insert_represents st1 M l xs1 xs2 _ v HR1 Hl Hls Hvl) as (st2 & E2 & HR2 & Hf2).
  exists st2. split_and!; [|done|congruence]. unfold insertValue. by erewrite run_step by done.
Qed.

(** What the code reads. *)
Lemma load_field {B} st q (g : element A → option B) b :
  elements st !! q ≫= g = Some b → ∃ el, load (Some q) st = Ok (el, st) ∧ g el = Some b.
Proof using. intros E. destruct (elements st !! q) as [el|] eqn:Eq; [|done]. exists el. split; [by apply load_ok|done]. Qed.

Lemma root_edges st M l xs :
  represents st M → M !! l = Some xs → nx st (Root l) = Some (after l xs.*1) ∧ pv st (Root l) = Some (before l xs.*1).
Proof using.
  intros HR Hl. pose proof (rep_ring _ _ HR _ _ Hl) as Hp. split.
  - by destruct (cycle_edge st l [] xs.*1 Hp).
  - rewrite <- (app_nil_r xs.*1) in Hp. by destruct (cycle_edge st l xs.*1 [] Hp).
Qed.

Lemma lazyInit_same st M l xs : represents st M → M !! l = Some xs → lazyInit l st = Ok (tt, st).
Proof using.
  intros HR Hl. destruct (root_edges _ _ _ _ HR Hl) as [E _]. destruct (load_field _ _ _ _ E) as (el & El & Hn).
  unfold lazyInit. erewrite run_step by done. by rewrite decide_False by congruence.
Qed.

Lemma PushFront_represents st M l xs v :
  represents st M → M !! l = Some xs →
  ∃ st', PushFront l v st = Ok (Some (Node (next_free st)), st') ∧ represents st' (<[l := (next_free st, v) :: xs]> M) ∧
    next_free st' = Pos.succ (next_free st).
Proof using.
  intros HR Hl. unfold PushFront. erewrite run_step by by eapply lazyInit_same. exact (insertValue_represents st M l [] xs v HR Hl).
Qed.

(** The end of a list. *)
Lemma push_last st M l xs v :
  represents st M → M !! l = Some xs →
  ∃ el st', load (root l) st = Ok (el, st) ∧ insertValue l v (el_prev el) st = Ok (Some (Node (next_free st)), st') ∧
    represents st' (<[l := xs ++ [(next_free st, v)]]> M) ∧ next_free st' = Pos.succ (next_free st).
Proof using.
  intros HR Hl. destruct (root_edges _ _ _ _ HR Hl) as [_ E]. destruct (load_field _ _ _ _ E) as (el & El & Hp).
  destruct (insertValue_represents st M l xs [] v HR) as (st' & E' & HR' & Hf); [by rewrite app_nil_r|].
  exists el, st'. split_and!; try done. by rewrite Hp.
Qed.

Lemma PushBack_represents st M l xs v :
  represents st M → M !! l = Some xs →
  ∃ st', PushBack l v st = Ok (Some (Node (next_free st)), st') ∧ represents st' (<[l := xs ++ [(next_free st, v)]]> M) ∧
    next_free st' = Pos.succ (next_free st).
Proof using.
  intros HR Hl. destruct (push_last st M l xs v HR Hl) as (r & st' & E1 & E2 & HR' & Hf).
  exists st'. split; [|done]. unfold PushBack. erewrite run_step by by eapply lazyInit_same. by erewrite run_step by done.
Qed.

(** ** The specification: lists *)

(** What is before the element [m], its value, and what is after it. *)
Fixpoint split_at (m : positive) (xs : list (positive * A)) : option (list (positive * A) * A * list (positive * A)) :=
  match xs with
  | [] => None
  | (n, v) :: xs =>
      if decide (n = m) then Some ([], v, xs)
      else '(xs1, w, xs2) ← split_at m xs; Some ((n, v) :: xs1, w, xs2)
  end.

Lemma split_at_Some m xs xs1 v xs2 : split_at m xs = Some (xs1, v, xs2) → xs = xs1 ++ (m, v) :: xs2.
Proof using.
  revert xs1. induction xs as [|[n w] xs IH]; intros xs1; [done|]. cbn. case_decide as Hn; [by intros [= <- <- <-]; subst|].
  destruct (split_at m xs) as [[[ys1 u] ys2]|]; [|done]. cbn. intros [= <- <- <-]. by rewrite (IH ys1).
Qed.

Lemma split_at_None m xs : split_at m xs = None → m ∉ xs.*1.
Proof using.
  induction xs as [|[n w] xs IH]; [by intros _ ?%elem_of_nil|]. cbn. case_decide as Hn; [done|].
  destruct (split_at m xs) as [[[ys1 u] ys2]|]; [done|]. intros _ [->|Hm]%elem_of_cons; [done|by apply IH].
Qed.

(** Whether an element is in a list is written in it. *)
Lemma load_member st M l xs m :
  represents st M → M !! l = Some xs → has st (Node m) →
  ∃ el, load (Some (Node m)) st = Ok (el, st) ∧ elements st !! Node m = Some el ∧
    (el_list el = Some l ↔ is_Some (split_at m xs)).
Proof using.
  intros HR Hl [el E]. exists el. split_and!; [by apply load_ok|done|].
  assert (ls st (Node m) = el_list el) as <- by (unfold ls; by rewrite E). rewrite (rep_member _ _ HR). split.
  - intros (ys & Hys & Hm). rewrite Hl in Hys. injection Hys as <-.
    destruct (split_at m xs) as [r|] eqn:Es; [by eexists|]. by apply split_at_None in Es.
  - intros [[[xs1 v] xs2] Es]. apply split_at_Some in Es as ->. exists (xs1 ++ (m, v) :: xs2). split; [done|].
    rewrite fmap_app, fmap_cons. set_solver.
Qed.

Definition insert_before (m : positive) (x : positive * A) (xs : list (positive * A)) : list (positive * A) :=
  match split_at m xs with Some (xs1, w, xs2) => xs1 ++ x :: (m, w) :: xs2 | None => xs end.
Definition insert_after (m : positive) (x : positive * A) (xs : list (positive * A)) : list (positive * A) :=
  match split_at m xs with Some (xs1, w, xs2) => xs1 ++ (m, w) :: x :: xs2 | None => xs end.
Definition without (m : positive) (xs : list (positive * A)) : list (positive * A) :=
  match split_at m xs with Some (xs1, w, xs2) => xs1 ++ xs2 | None => xs end.

Lemma InsertBefore_represents st M l xs v m :
  represents st M → M !! l = Some xs → has st (Node m) →
  ∃ st', InsertBefore l v (Some (Node m)) st = Ok (match split_at m xs with Some _ => Some (Node (next_free st)) | None => None end, st') ∧
    represents st' (<[l := insert_before m (next_free st, v) xs]> M).
Proof using.
  intros HR Hl Hm. destruct (load_member _ _ _ _ _ HR Hl Hm) as (el & E & Em & Hin). unfold InsertBefore, insert_before.
  erewrite run_step by done. destruct (split_at m xs) as [[[xs1 w] xs2]|] eqn:Es.
  - rewrite decide_True by (apply Hin; by eexists). apply split_at_Some in Es as ->.
    destruct (around _ _ _ _ _ _ _ HR Hl) as (_ & _ & _ & _ & _ & _ & Hp & _). unfold pv in Hp. rewrite Em in Hp. cbn in Hp. rewrite Hp.
    destruct (insertValue_represents st M l xs1 ((m, w) :: xs2) v HR Hl) as (st' & E' & HR' & _). by exists st'.
  - rewrite decide_False by (intros [? ?]%Hin; done). exists st. split; [done|]. by rewrite insert_id.
Qed.

Lemma before_snoc l xs (x : positive * A) : before l (xs ++ [x]).*1 = Node x.1.
Proof using. unfold before. rewrite fmap_app. cbn [fmap list_fmap]. by rewrite last_snoc. Qed.

Lemma InsertAfter_represents st M l xs v m :
  represents st M → M !! l = Some xs → has st (Node m) →
  ∃ st', InsertAfter l v (Some (Node m)) st = Ok (match split_at m xs with Some _ => Some (Node (next_free st)) | None => None end, st') ∧
    represents st' (<[l := insert_after m (next_free st, v) xs]> M).
Proof using.
  intros HR Hl Hm. destruct (load_member _ _ _ _ _ HR Hl Hm) as (el & E & Em & Hin). unfold InsertAfter, insert_after.
  erewrite run_step by done. destruct (split_at m xs) as [[[xs1 w] xs2]|] eqn:Es.
  - rewrite decide_True by (apply Hin; by eexists). apply split_at_Some in Es as ->.
    destruct (insertValue_represents st M l (xs1 ++ [(m, w)]) xs2 v HR) as (st' & E' & HR' & _); [by rewrite <- app_assoc|].
    rewrite before_snoc in E'. rewrite <- app_assoc in HR'. by exists st'.
  - rewrite decide_False by (intros [? ?]%Hin; done). exists st. split; [done|]. by rewrite insert_id.
Qed.

Lemma Remove_represents st M l xs m w :
  represents st M → M !! l = Some xs → vl st (Node m) = Some w →
  ∃ st', Remove l (Some (Node m)) st = Ok (w, st') ∧ represents st' (<[l := without m xs]> M).
Proof using.
  intros HR Hl Hw. destruct (load_member _ _ _ _ m HR Hl (has_vl _ _ _ Hw)) as (el & E & Em & Hin). unfold Remove, without.
  erewrite run_step by done.
  assert (∀ st', vl st' (Node m) = Some w → ∃ el', load (Some (Node m)) st' = Ok (el', st') ∧ el_Value el' = w) as Hload.
  { intros st' Hv. unfold vl in Hv. destruct (elements st' !! Node m) as [el'|] eqn:E'; [|done]. injection Hv as Hv. exists el'. by split; [apply load_ok|]. }
  destruct (split_at m xs) as [[[xs1 u] xs2]|] eqn:Es.
  - rewrite decide_True by (apply Hin; by eexists). apply split_at_Some in Es as ->.
    destruct (remove_represents _ _ _ _ _ _ _ HR Hl) as (st' & E' & HR' & _ & _ & Hv). exists st'. split; [|done].
    destruct (around _ _ _ _ _ _ _ HR Hl) as (_ & _ & _ & _ & _ & _ & _ & _ & _ & Hv0 & _). rewrite Hw in Hv0. injection Hv0 as <-.
    destruct (Hload _ Hv) as (el' & El' & Hel). erewrite run_step by done. erewrite run_step by done. by rewrite Hel.
  - rewrite decide_False by (intros [? ?]%Hin; done). exists st. split; [|by rewrite insert_id].
    destruct (Hload _ Hw) as (el' & El' & Hel). erewrite run_step by done. erewrite run_step by done. by rewrite Hel.
Qed.

(** *** Moving *)

Definition move_front (m : positive) (xs : list (positive * A)) : list (positive * A) :=
  match split_at m xs with Some (xs1, w, xs2) => (m, w) :: xs1 ++ xs2 | None => xs end.
Definition move_back (m : positive) (xs : list (positive * A)) : list (positive * A) :=
  match split_at m xs with Some (xs1, w, xs2) => (xs1 ++ xs2) ++ [(m, w)] | None => xs end.

(** An element that is removed can be put anywhere. *)
Lemma relink st M l xs1 m w xs2 :
  represents st M → M !! l = Some (xs1 ++ (m, w) :: xs2) →
  ∃ st', remove_element l (Some (Node m)) st = Ok (Some (Node m), st') ∧ represents st' (<[l := xs1 ++ xs2]> M) ∧
    ∀ ys1 ys2, ys1 ++ ys2 = xs1 ++ xs2 →
      ∃ st2, insert_element l (Some (Node m)) (Some (before l ys1.*1)) st' = Ok (Some (Node m), st2) ∧
        represents st2 (<[l := ys1 ++ (m, w) :: ys2]> M).
Proof using.
  intros HR Hl. destruct (remove_represents _ _ _ _ _ _ _ HR Hl) as (st' & E & HR' & _ & Hls & Hvl).
  exists st'. split_and!; [done..|]. intros ys1 ys2 Hys.
  destruct (insert_represents st' (<[l := xs1 ++ xs2]> M) l ys1 ys2 m w HR') as (st2 & E2 & HR2 & _); [by rewrite lookup_insert_eq, Hys|done..|].
  exists st2. split; [done|]. by rewrite insert_insert_eq in HR2.
Qed.

Lemma MoveToFront_represents st M l xs m :
  represents st M → M !! l = Some xs → has st (Node m) →
  ∃ st', MoveToFront l (Some (Node m)) st = Ok (tt, st') ∧ represents st' (<[l := move_front m xs]> M).
Proof using.
  intros HR Hl Hm. destruct (load_member _ _ _ _ _ HR Hl Hm) as (el & E & Em & Hin). unfold MoveToFront, move_front.
  erewrite run_step by done. destruct (split_at m xs) as [[[xs1 w] xs2]|] eqn:Es.
  2:{ rewrite decide_False by (intros [? ?]%Hin; done). exists st. by rewrite insert_id. }
  rewrite decide_True by (apply Hin; by eexists). apply split_at_Some in Es as ->.
  destruct (root_edges _ _ _ _ HR Hl) as [Hnx _]. destruct (load_field _ _ _ _ Hnx) as (r & Er & Hr). erewrite run_step by done.
  case_decide as Hd.
  - exists st. split; [done|]. destruct xs1 as [|[n u] xs1]; [by rewrite insert_id|]. exfalso.
    rewrite Hd in Hr. injection Hr as [= ->]. pose proof (rep_nodup _ _ HR _ _ Hl) as HD. cbn in HD.
    apply NoDup_cons in HD as [HD _]. apply HD. rewrite fmap_app, fmap_cons. set_solver.
  - destruct (relink _ _ _ _ _ _ _ HR Hl) as (st1 & E1 & _ & Hre). destruct (Hre [] (xs1 ++ xs2) eq_refl) as (st2 & E2 & HR2).
    exists st2. split; [|done]. erewrite run_step by done. by erewrite run_step by done.
Qed.

Lemma MoveToBack_represents st M l xs m :
  represents st M → M !! l = Some xs → has st (Node m) →
  ∃ st', MoveToBack l (Some (Node m)) st = Ok (tt, st') ∧ represents st' (<[l := move_back m xs]> M).
Proof using.
  intros HR Hl Hm. destruct (load_member _ _ _ _ _ HR Hl Hm) as (el & E & Em & Hin). unfold MoveToBack, move_back.
  erewrite run_step by done. destruct (split_at m xs) as [[[xs1 w] xs2]|] eqn:Es.
  2:{ rewrite decide_False by (intros [? ?]%Hin; done). exists st. by rewrite insert_id. }
  rewrite decide_True by (apply Hin; by eexists). apply split_at_Some in Es as ->.
  destruct (root_edges _ _ _ _ HR Hl) as [_ Hpv]. destruct (load_field _ _ _ _ Hpv) as (r & Er & Hr). erewrite run_step by done.
  case_decide as Hd.
  - exists st. split; [done|]. destruct xs2 as [|[n u] xs2] using rev_ind; [by rewrite app_nil_r, insert_id|]. exfalso.
    rewrite Hd, app_comm_cons, app_assoc, before_snoc in Hr. injection Hr as [= ->].
    pose proof (rep_nodup _ _ HR _ _ Hl) as HD. rewrite app_comm_cons, app_assoc, fmap_app in HD. apply NoDup_app in HD as (_ & HD & _).
    apply (HD n); [rewrite fmap_app, fmap_cons; set_solver|set_solver].
  - destruct (relink _ _ _ _ _ _ _ HR Hl) as (st1 & E1 & HR1 & Hre).
    destruct (root_edges _ _ _ _ HR1 (lookup_insert_eq _ _ _)) as [_ Hpv1]. destruct (load_field _ _ _ _ Hpv1) as (r1 & Er1 & Hr1).
    destruct (Hre (xs1 ++ xs2) [] (app_nil_r _)) as (st2 & E2 & HR2).
    exists st2. split; [|done]. erewrite run_step by done. erewrite run_step by done. rewrite Hr1. by erewrite run_step by done.
Qed.

Definition move_to (place : positive → positive * A → list (positive * A) → list (positive * A)) (m mark : positive)
    (xs : list (positive * A)) : list (positive * A) :=
  match split_at m xs, split_at mark xs with
  | Some (xs1, w, xs2), Some _ => if decide (m = mark) then xs else place mark (m, w) (xs1 ++ xs2)
  | _, _ => xs
  end.

(** Another element is still there when one is removed. *)
Lemma split_at_without m mark xs1 w xs2 :
  m <> mark → is_Some (split_at mark (xs1 ++ (m, w) :: xs2)) → is_Some (split_at mark (xs1 ++ xs2)).
Proof using.
  intros Hne [[[ys1 u] ys2] Es]. destruct (split_at mark (xs1 ++ xs2)) as [r|] eqn:E; [by eexists|]. exfalso.
  apply split_at_None in E. apply E. apply split_at_Some in Es.
  assert (mark ∈ (xs1 ++ (m, w) :: xs2).*1) as Hin by (rewrite Es, fmap_app, fmap_cons; set_solver).
  rewrite fmap_app, fmap_cons in Hin. rewrite fmap_app. set_solver.
Qed.

(** The steps that both moves have in common. *)
Lemma move_cases st M l xs m mark :
  represents st M → M !! l = Some xs → has st (Node m) → has st (Node mark) →
  (∃ xs1 w xs2 ys1 u ys2 st1, m <> mark ∧ split_at m xs = Some (xs1, w, xs2) ∧ is_Some (split_at mark xs) ∧
     split_at mark (xs1 ++ xs2) = Some (ys1, u, ys2) ∧ xs1 ++ xs2 = ys1 ++ (mark, u) :: ys2 ∧
     remove_element l (Some (Node m)) st = Ok (Some (Node m), st1) ∧ represents st1 (<[l := xs1 ++ xs2]> M) ∧
     ∀ zs1 zs2, zs1 ++ zs2 = xs1 ++ xs2 →
       ∃ st2, insert_element l (Some (Node m)) (Some (before l zs1.*1)) st1 = Ok (Some (Node m), st2) ∧
         represents st2 (<[l := zs1 ++ (m, w) :: zs2]> M)) ∨
  m = mark ∨ split_at m xs = None ∨ split_at mark xs = None.
Proof using.
  intros HR Hl Hm Hk. destruct (decide (m = mark)) as [|Hne]; [auto|].
  destruct (split_at m xs) as [[[xs1 w] xs2]|] eqn:E1; [|auto]. destruct (split_at mark xs) as [r|] eqn:E2; [|auto]. left.
  pose proof (split_at_Some _ _ _ _ _ E1) as ->. destruct (split_at_without m mark xs1 w xs2 Hne) as [[[ys1 u] ys2] E3]; [by rewrite E2|].
  destruct (relink _ _ _ _ _ _ _ HR Hl) as (st1 & R1 & HR1 & Hre).
  exists xs1, w, xs2, ys1, u, ys2, st1. split_and!; try done. by apply split_at_Some.
Qed.

(** Nothing to move. *)
Lemma move_to_nothing place m mark xs : m = mark ∨ split_at m xs = None ∨ split_at mark xs = None → move_to place m mark xs = xs.
Proof using.
  unfold move_to. intros [->|[->| ->]]; [|done|by destruct (split_at m xs) as [[[? ?] ?]|]].
  destruct (split_at mark xs) as [[[? ?] ?]|]; [|done]. by rewrite decide_True.
Qed.

Lemma MoveBefore_represents st M l xs m mark :
  represents st M → M !! l = Some xs → has st (Node m) → has st (Node mark) →
  ∃ st', MoveBefore l (Some (Node m)) (Some (Node mark)) st = Ok (tt, st') ∧
    represents st' (<[l := move_to insert_before m mark xs]> M).
Proof using.
  intros HR Hl Hm Hk. destruct (load_member _ _ _ _ _ HR Hl Hm) as (el & E & _ & Hin).
  destruct (load_member _ _ _ _ _ HR Hl Hk) as (ek & Ek & _ & Hin'). unfold MoveBefore. erewrite run_step by done.
  destruct (move_cases _ _ _ _ _ _ HR Hl Hm Hk) as [(xs1 & w & xs2 & ys1 & u & ys2 & st1 & Hne & S1 & S2 & S3 & Hys & E1 & HR1 & Hre)|Hno].
  - rewrite decide_True by (split; [apply Hin; by eexists|congruence]). erewrite run_step by done. rewrite decide_True by by apply Hin'.
    erewrite run_step by done. destruct (Hre ys1 ((mark, u) :: ys2)) as (st2 & E2 & HR2); [done|]. rewrite Hys in HR1.
    destruct (around st1 (<[l := ys1 ++ (mark, u) :: ys2]> M) l ys1 mark u ys2 HR1) as (_ & _ & _ & _ & _ & _ & Hp & _); [apply lookup_insert_eq|].
    destruct (load_field _ _ _ _ Hp) as (e2 & Ee2 & Hp2). erewrite run_step by done. rewrite Hp2. erewrite run_step by done.
    exists st2. split; [done|]. destruct S2 as [r2 S2]. unfold move_to, insert_before. by rewrite S1, S2, decide_False, S3.
  - exists st. rewrite move_to_nothing, insert_id by done. split; [|done].
    case_decide as Hd; [|done]. erewrite run_step by done. case_decide as Hd2; [|done]. exfalso. destruct Hd as [H1 H2].
    apply Hin in H1 as [? H1]. apply Hin' in Hd2 as [? H3]. destruct Hno as [->|[Hno|Hno]]; congruence.
Qed.

Lemma MoveAfter_represents st M l xs m mark :
  represents st M → M !! l = Some xs → has st (Node m) → has st (Node mark) →
  ∃ st', MoveAfter l (Some (Node m)) (Some (Node mark)) st = Ok (tt, st') ∧
    represents st' (<[l := move_to insert_after m mark xs]> M).
Proof using.
  intros HR Hl Hm Hk. destruct (load_member _ _ _ _ _ HR Hl Hm) as (el & E & _ & Hin).
  destruct (load_member _ _ _ _ _ HR Hl Hk) as (ek & Ek & _ & Hin'). unfold MoveAfter. erewrite run_step by done.
  destruct (move_cases _ _ _ _ _ _ HR Hl Hm Hk) as [(xs1 & w & xs2 & ys1 & u & ys2 & st1 & Hne & S1 & S2 & S3 & Hys & E1 & HR1 & Hre)|Hno].
  - rewrite decide_True by (split; [apply Hin; by eexists|congruence]). erewrite run_step by done. rewrite decide_True by by apply Hin'.
    erewrite run_step by done. destruct (Hre (ys1 ++ [(mark, u)]) ys2) as (st2 & E2 & HR2); [by rewrite <- app_assoc|].
    rewrite before_snoc in E2. rewrite <- app_assoc in HR2. erewrite run_step by done.
    exists st2. split; [done|]. destruct S2 as [r2 S2]. unfold move_to, insert_after. by rewrite S1, S2, decide_False, S3.
  - exists st. rewrite move_to_nothing, insert_id by done. split; [|done].
    case_decide as Hd; [|done]. erewrite run_step by done. case_decide as Hd2; [|done]. exfalso. destruct Hd as [H1 H2].
    apply Hin in H1 as [? H1]. apply Hin' in Hd2 as [? H3]. destruct Hno as [->|[Hno|Hno]]; congruence.
Qed.

(** *** Reading a list *)

Lemma Next_represents st M l xs1 m v xs2 :
  represents st M → M !! l = Some (xs1 ++ (m, v) :: xs2) → Next (Some (Node m)) st = Ok (Node <$> head xs2.*1, st).
Proof using.
  intros HR Hl. destruct (around _ _ _ _ _ _ _ HR Hl) as (_ & _ & [el E] & _ & _ & Hn & _ & _ & _ & _ & Hls).
  unfold nx in Hn. unfold ls in Hls. rewrite E in Hn, Hls. cbn in Hn, Hls. unfold Next. erewrite run_step by by apply load_ok.
  rewrite Hls, Hn. unfold after, root. by destruct xs2 as [|[n u] xs2]; cbn; [rewrite decide_True|rewrite decide_False].
Qed.

Lemma Prev_represents st M l xs1 m v xs2 :
  represents st M → M !! l = Some (xs1 ++ (m, v) :: xs2) → Prev (Some (Node m)) st = Ok (Node <$> last xs1.*1, st).
Proof using.
  intros HR Hl. destruct (around _ _ _ _ _ _ _ HR Hl) as (_ & _ & [el E] & _ & _ & _ & Hp & _ & _ & _ & Hls).
  unfold pv in Hp. unfold ls in Hls. rewrite E in Hp, Hls. cbn in Hp, Hls. unfold Prev. erewrite run_step by by apply load_ok.
  rewrite Hls, Hp. unfold before, root. by destruct (last xs1.*1); cbn; [rewrite decide_False|rewrite decide_True].
Qed.

Lemma Len_represents st M l xs : represents st M → M !! l = Some xs → Len l st = Ok (Z.of_nat (length xs), st).
Proof using. intros HR Hl. unfold Len. by rewrite (rep_len _ _ HR _ _ Hl). Qed.

Lemma Front_represents st M l xs : represents st M → M !! l = Some xs → Front l st = Ok (Node <$> head xs.*1, st).
Proof using.
  intros HR Hl. unfold Front. erewrite run_step by by eapply Len_represents. destruct (root_edges _ _ _ _ HR Hl) as [E _].
  destruct xs as [|[n u] xs]; [done|]. destruct (load_field _ _ _ _ E) as (el & El & Hn).
  destruct (Z.eqb_spec (Z.of_nat (length ((n, u) :: xs))) 0); [cbn in *; lia|]. erewrite run_step by done. by rewrite Hn.
Qed.

Lemma Back_represents st M l xs : represents st M → M !! l = Some xs → Back l st = Ok (Node <$> last xs.*1, st).
Proof using.
  intros HR Hl. unfold Back. erewrite run_step by by eapply Len_represents. destruct (root_edges _ _ _ _ HR Hl) as [_ E].
  destruct xs as [|x xs] using rev_ind; [done|]. destruct (load_field _ _ _ _ E) as (el & El & Hn).
  rewrite before_snoc in Hn. rewrite length_app, fmap_app. cbn [fmap list_fmap length]. rewrite last_snoc.
  destruct (Z.eqb_spec (Z.of_nat (length xs + 1)) 0); [lia|]. erewrite run_step by done. by rewrite Hn.
Qed.

(** *** Copying *)

Fixpoint fresh_from (p : positive) (k : nat) : list positive :=
  match k with O => [] | S k => p :: fresh_from (Pos.succ p) k end.

Lemma fresh_from_length p k : length (fresh_from p k) = k.
Proof using. revert p. induction k as [|k IH]; intros p; [done|]. cbn. by rewrite IH. Qed.

(** [l] and [other] may be the same list; then it grows behind what is still to be copied. *)
Lemma push_back_loop_represents l other ys2 : ∀ st M xs ys1 zs e,
  represents st M → M !! l = Some xs → M !! other = Some (ys1 ++ ys2 ++ zs) → (ys2 <> [] → e = Node <$> head ys2.*1) →
  ∃ st', push_back_loop (length ys2) l e st = Ok (tt, st') ∧
    represents st' (<[l := xs ++ zip (fresh_from (next_free st) (length ys2)) ys2.*2]> M).
Proof using.
  induction ys2 as [|[m w] ys2 IH]; intros st M xs ys1 zs e HR Hl Ho He.
  { exists st. cbn. rewrite app_nil_r, insert_id by done. done. }
  rewrite He by done. cbn [head fmap list_fmap fst option_fmap option_map length push_back_loop].
  destruct (around _ _ _ _ _ _ _ HR Ho) as (_ & _ & [el E] & _ & _ & _ & _ & _ & _ & Hv & _).
  unfold vl in Hv. rewrite E in Hv. cbn in Hv. injection Hv as Hv.
  destruct (push_last st M l xs w HR Hl) as (r & st1 & E1 & E2 & HR1 & Hf).
  erewrite run_step by by apply load_ok. rewrite Hv. erewrite run_step by done. erewrite run_step by done.
  set (M1 := <[l := xs ++ [(next_free st, w)]]> M) in *.
  assert (∃ zs', M1 !! other = Some (ys1 ++ (m, w) :: ys2 ++ zs')) as [zs' Ho1].
  { unfold M1. destruct (decide (l = other)) as [->|Hne].
    - rewrite lookup_insert_eq. rewrite Hl in Ho. injection Ho as ->. exists (zs ++ [(next_free st, w)]).
      rewrite <- app_assoc. cbn [app]. by rewrite <- app_assoc.
    - rewrite lookup_insert_ne by done. by exists zs. }
  erewrite run_step by (exact (Next_represents st1 M1 other ys1 m w (ys2 ++ zs') HR1 Ho1)).
  destruct (IH st1 M1 (xs ++ [(next_free st, w)]) (ys1 ++ [(m, w)]) zs' (Node <$> head (ys2 ++ zs').*1)) as (st2 & E3 & HR2).
  - done.
  - apply lookup_insert_eq.
  - by rewrite <- app_assoc.
  - by destruct ys2 as [|[m2 w2] ys2].
  - exists st2. split; [done|]. unfold M1 in HR2. rewrite insert_insert_eq, Hf, <- app_assoc in HR2. done.
Qed.

Lemma PushBackList_represents st M l other xs ys :
  represents st M → M !! l = Some xs → M !! other = Some ys →
  ∃ st', PushBackList l other st = Ok (tt, st') ∧
    represents st' (<[l := xs ++ zip (fresh_from (next_free st) (length ys)) ys.*2]> M).
Proof using.
  intros HR Hl Ho. unfold PushBackList. erewrite run_step by by eapply lazyInit_same.
  erewrite run_step by by eapply Len_represents. erewrite run_step by by eapply Front_represents. rewrite Nat2Z.id.
  apply (push_back_loop_represents l other ys st M xs [] []); [done..| |done]. by rewrite app_nil_r.
Qed.

Lemma push_front_loop_represents l other ys1 : ∀ st M xs zs ys2 e,
  represents st M → M !! l = Some xs → M !! other = Some (zs ++ ys1 ++ ys2) → (ys1 <> [] → e = Node <$> last ys1.*1) →
  ∃ st', push_front_loop (length ys1) l e st = Ok (tt, st') ∧
    represents st' (<[l := zip (reverse (fresh_from (next_free st) (length ys1))) ys1.*2 ++ xs]> M).
Proof using.
  induction ys1 as [|[m w] ys1 IH] using rev_ind; intros st M xs zs ys2 e HR Hl Ho He.
  { exists st. cbn. by rewrite insert_id. }
  assert (ys1 ++ [(m, w)] <> []) as Hne by by destruct ys1. rewrite He by done. clear Hne.
  assert (M !! other = Some ((zs ++ ys1) ++ (m, w) :: ys2)) as Ho' by (rewrite Ho; by rewrite <- !app_assoc).
  rewrite length_app, Nat.add_1_r, fmap_app. cbn [fmap list_fmap fst push_front_loop]. rewrite last_snoc.
  destruct (around _ _ _ _ _ _ _ HR Ho') as (_ & _ & [el E] & _ & _ & _ & _ & _ & _ & Hv & _).
  unfold vl in Hv. rewrite E in Hv. cbn in Hv. injection Hv as Hv. cbn [option_fmap option_map].
  erewrite run_step by by apply load_ok. rewrite Hv.
  destruct (insertValue_represents st M l [] xs w HR Hl) as (st1 & E2 & HR1 & Hf). erewrite run_step by done.
  set (M1 := <[l := [] ++ (next_free st, w) :: xs]> M) in *.
  assert (∃ zs', M1 !! other = Some ((zs' ++ ys1) ++ (m, w) :: ys2)) as [zs' Ho1].
  { unfold M1. destruct (decide (l = other)) as [->|Hne].
    - rewrite lookup_insert_eq. rewrite Hl in Ho'. injection Ho' as ->. by exists ((next_free st, w) :: zs).
    - rewrite lookup_insert_ne by done. by exists zs. }
  erewrite run_step by (exact (Prev_represents st1 M1 other (zs' ++ ys1) m w ys2 HR1 Ho1)).
  destruct (IH st1 M1 ((next_free st, w) :: xs) zs' ((m, w) :: ys2) (Node <$> last (zs' ++ ys1).*1)) as (st2 & E3 & HR2).
  - done.
  - apply lookup_insert_eq.
  - by rewrite Ho1, <- app_assoc.
  - intros Hne. destruct ys1 as [|x ys1] using rev_ind; [done|]. rewrite app_assoc, !fmap_app. cbn [fmap list_fmap]. by rewrite !last_snoc.
  - exists st2. split; [done|]. unfold M1 in HR2. rewrite insert_insert_eq, Hf in HR2. cbn [fresh_from].
    rewrite reverse_cons, fmap_app. cbn [fmap list_fmap snd].
    rewrite zip_with_app, <- app_assoc by (by rewrite length_reverse, fresh_from_length, length_fmap). done.
Qed.

Lemma PushFrontList_represents st M l other xs ys :
  represents st M → M !! l = Some xs → M !! other = Some ys →
  ∃ st', PushFrontList l other st = Ok (tt, st') ∧
    represents st' (<[l := zip (reverse (fresh_from (next_free st) (length ys))) ys.*2 ++ xs]> M).
Proof using.
  intros HR Hl Ho. unfold PushFrontList. erewrite run_step by by eapply lazyInit_same.
  erewrite run_step by by eapply Len_represents. erewrite run_step by by eapply Back_represents. rewrite Nat2Z.id.
  apply (push_front_loop_represents l other ys st M xs [] []); [done..| |done]. by rewrite app_nil_r.
Qed.

(** *** A new list *)

Lemma NewList_represents (zero : A) st M :
  represents st M → ∃ st', NewList zero st = Ok (next_free st, st') ∧ represents st' (<[next_free st := []]> M).
Proof using.
  intros HR. set (l := next_free st).
  assert (M !! l = None) as Hl.
  { destruct (M !! l) eqn:E; [|done]. assert (l < next_free st)%positive by (apply (rep_free_list _ _ HR); by eexists). unfold l in *. lia. }
  set (el := mkElement (root l) (root l) None zero).
  exists (mkStore (<[Root l := el]> (elements st)) (<[l := 0]> (lens st)) (Pos.succ l)). split.
  { unfold NewList, new_list, Init, set_next, set_prev, set_len, assign, root, mbind, step_bind. cbn.
    rewrite lookup_insert_eq. cbn. rewrite lookup_insert_eq. cbn. by rewrite !insert_insert_eq. }
  assert (∀ q, q <> Root l → <[Root l := el]> (elements st) !! q = elements st !! q) as Hq by (intros q Hq; by rewrite lookup_insert_ne).
  assert (∀ l' xs q, M !! l' = Some xs → q ∈ cycle l' xs.*1 → q <> Root l) as Hin.
  { intros l' xs q Hl' Hq' ->. apply cycle_elem in Hq' as [[= <-]|(? & ? & _)]; congruence. }
  split; cbn [elements lens next_free].
  - intros l' xs [[<- <-]|[Hne Hl']]%lookup_insert_Some.
    { cbn. unfold edge, nx, pv. cbn. by rewrite lookup_insert_eq. }
    pose proof (rep_ring _ _ HR _ _ Hl') as Hp. revert Hp. apply path_frame.
    + unfold cycle. rewrite app_comm_cons, removelast_last. intros x Hx. unfold nx. cbn. rewrite Hq; [done|].
      apply (Hin l' xs); [done|]. unfold cycle. rewrite app_comm_cons. apply elem_of_app. by left.
    + intros y Hy. unfold pv. cbn. rewrite Hq; [done|]. apply (Hin l' xs); [done|]. by right.
  - intros l' xs [[<- <-]|[Hne Hl']]%lookup_insert_Some; [by rewrite lookup_insert_eq|]. rewrite lookup_insert_ne by done. by apply (rep_len _ _ HR).
  - intros l' xs [[<- <-]|[Hne Hl']]%lookup_insert_Some; [constructor|by apply (rep_nodup _ _ HR l')].
  - intros l' n. unfold ls. cbn. rewrite Hq by done. fold (ls st (Node n)). rewrite (rep_member _ _ HR).
    destruct (decide (l' = l)) as [->|Hne].
    + rewrite lookup_insert_eq. split; [intros (? & ? & _); congruence|]. intros (ys & [= <-] & ?%elem_of_nil). done.
    + by rewrite lookup_insert_ne by done.
  - intros l' xs n v [[<- <-]|[Hne Hl']]%lookup_insert_Some; [by intros ?%elem_of_nil|]. unfold vl. cbn. rewrite Hq by done. by apply (rep_value _ _ HR l').
  - intros n. unfold has. cbn. rewrite Hq by done. intros Hn. pose proof (rep_free _ _ HR _ Hn). unfold l in *. lia.
  - intros l'. rewrite lookup_insert_is_Some. intros [<-|[_ Hl']]; [lia|]. pose proof (rep_free_list _ _ HR _ Hl'). unfold l in *. lia.
Qed.

End Represents.

(** ** Any use of the lists *)

Section Runs.
Context {A : Type} (zero : A).

Inductive list_op : Type :=
| OpNewList
| OpPushFront (l : positive) (v : A)
| OpPushBack (l : positive) (v : A)
| OpInsertBefore (l : positive) (v : A) (mark : positive)
| OpInsertAfter (l : positive) (v : A) (mark : positive)
| OpRemove (l e : positive)
| OpMoveToFront (l e : positive)
| OpMoveToBack (l e : positive)
| OpMoveBefore (l e mark : positive)
| OpMoveAfter (l e mark : positive)
| OpPushBackList (l other : positive)
| OpPushFrontList (l other : positive).

Definition ignore {B} (m : step A B) : step A unit := _ ← m; mret tt.

Definition run_op (op : list_op) : step A unit :=
  match op with
  | OpNewList => ignore (NewList zero)
  | OpPushFront l v => ignore (PushFront l v)
  | OpPushBack l v => ignore (PushBack l v)
  | OpInsertBefore l v mark => ignore (InsertBefore l v (Some (Node mark)))
  | OpInsertAfter l v mark => ignore (InsertAfter l v (Some (Node mark)))
  | OpRemove l e => ignore (Remove l (Some (Node e)))
  | OpMoveToFront l e => MoveToFront l (Some (Node e))
  | OpMoveToBack l e => MoveToBack l (Some (Node e))
  | OpMoveBefore l e mark => MoveBefore l (Some (Node e)) (Some (Node mark))
  | OpMoveAfter l e mark => MoveAfter l (Some (Node e)) (Some (Node mark))
  | OpPushBackList l other => PushBackList l other
  | OpPushFrontList l other => PushFrontList l other
  end.

(** What it does to the lists; [free] is the address that is given out next. *)
Definition spec_op (op : list_op) (free : positive) (M : gmap positive (list (positive * A))) : gmap positive (list (positive * A)) :=
  let xs l := default [] (M !! l) in
  match op with
  | OpNewList => <[free := []]> M
  | OpPushFront l v => <[l := (free, v) :: xs l]> M
  | OpPushBack l v => <[l := xs l ++ [(free, v)]]> M
  | OpInsertBefore l v mark => <[l := insert_before mark (free, v) (xs l)]> M
  | OpInsertAfter l v mark => <[l := insert_after mark (free, v) (xs l)]> M
  | OpRemove l e => <[l := without e (xs l)]> M
  | OpMoveToFront l e => <[l := move_front e (xs l)]> M
  | OpMoveToBack l e => <[l := move_back e (xs l)]> M
  | OpMoveBefore l e mark => <[l := move_to insert_before e mark (xs l)]> M
  | OpMoveAfter l e mark => <[l := move_to insert_after e mark (xs l)]> M
  | OpPushBackList l other => <[l := xs l ++ zip (fresh_from free (length (xs other))) (xs other).*2]> M
  | OpPushFrontList l other => <[l := zip (reverse (fresh_from free (length (xs other)))) (xs other).*2 ++ xs l]> M
  end.

(** The lists of an operation exist, and its elements were allocated, be they in a list or not. *)
Definition op_ok (st : store A) (M : gmap positive (list (positive * A))) (op : list_op) : Prop :=
  let there l := is_Some (M !! l) in
  match op with
  | OpNewList => True
  | OpPushFront l _ | OpPushBack l _ => there l
  | OpInsertBefore l _ e | OpInsertAfter l _ e | OpRemove l e | OpMoveToFront l e | OpMoveToBack l e => there l ∧ has st (Node e)
  | OpMoveBefore l e mark | OpMoveAfter l e mark => there l ∧ has st (Node e) ∧ has st (Node mark)
  | OpPushBackList l other | OpPushFrontList l other => there l ∧ there other
  end.

Inductive runs : store A → gmap positive (list (positive * A)) → Prop :=
| runs_start : runs (mkStore ∅ ∅ 1) ∅
| runs_op st M op st' :
    runs st M → op_ok st M op → run_op op st = Ok (tt, st') → runs st' (spec_op op (next_free st) M).

(** Reading a list from one end to the other. *)
Fixpoint walk (move : option ptr → step A (option ptr)) (n : nat) (e : option ptr) : step A (list A) :=
  match n, e with
  | S n, Some _ =>
      el ← load e;
      e ← move e;
      vs ← walk move n e;
      mret (el_Value el :: vs)
  | _, _ => mret []
  end.

Definition forward (l : positive) (n : nat) : step A (list A) := e ← Front l; walk Next n e.
Definition backward (l : positive) (n : nat) : step A (list A) := e ← Back l; walk Prev n e.

Lemma represents_start : represents (mkStore ∅ ∅ 1 : store A) ∅.
Proof using.
  split; try done.
  - intros l n. unfold ls. cbn. rewrite lookup_empty. split; [done|]. by intros (? & ? & _).
  - intros n [? ?]. done.
  - intros l [? ?]. done.
Qed.

Lemma ignored {B} (m : step A B) st b st' : m st = Ok (b, st') → ignore m st = Ok (tt, st').
Proof using. intros E. unfold ignore. by erewrite run_step by done. Qed.

Lemma op_represents st M op :
  represents st M → op_ok st M op → ∃ st', run_op op st = Ok (tt, st') ∧ represents st' (spec_op op (next_free st) M).
Proof using.
  intros HR Hop. destruct op; cbn [run_op spec_op]; cbn in Hop.
  - destruct (NewList_represents zero st M HR) as (st' & E & HR'). exists st'. split; [by eapply ignored|done].
  - destruct Hop as [xs Hl]. rewrite Hl. destruct (PushFront_represents st M l xs v HR Hl) as (st' & E & HR' & _). exists st'. split; [by eapply ignored|done].
  - destruct Hop as [xs Hl]. rewrite Hl. destruct (PushBack_represents st M l xs v HR Hl) as (st' & E & HR' & _). exists st'. split; [by eapply ignored|done].
  - destruct Hop as [[xs Hl] Hm]. rewrite Hl. destruct (InsertBefore_represents st M l xs v mark HR Hl Hm) as (st' & E & HR'). exists st'. split; [by eapply ignored|done].
  - destruct Hop as [[xs Hl] Hm]. rewrite Hl. destruct (InsertAfter_represents st M l xs v mark HR Hl Hm) as (st' & E & HR'). exists st'. split; [by eapply ignored|done].
  - destruct Hop as [[xs Hl] [el Hm]]. rewrite Hl.
    destruct (Remove_represents st M l xs e (el_Value el) HR Hl) as (st' & E & HR'); [unfold vl; by rewrite Hm|]. exists st'. split; [by eapply ignored|done].
  - destruct Hop as [[xs Hl] Hm]. rewrite Hl. exact (MoveToFront_represents st M l xs e HR Hl Hm).
  - destruct Hop as [[xs Hl] Hm]. rewrite Hl. exact (MoveToBack_represents st M l xs e HR Hl Hm).
  - destruct Hop as [[xs Hl] [Hm Hk]]. rewrite Hl. exact (MoveBefore_represents st M l xs e mark HR Hl Hm Hk).
  - destruct Hop as [[xs Hl] [Hm Hk]]. rewrite Hl. exact (MoveAfter_represents st M l xs e mark HR Hl Hm Hk).
  - destruct Hop as [[xs Hl] [ys Ho]]. rewrite Hl, Ho. exact (PushBackList_represents st M l other xs ys HR Hl Ho).
  - destruct Hop as [[xs Hl] [ys Ho]]. rewrite Hl, Ho. exact (PushFrontList_represents st M l other xs ys HR Hl Ho).
Qed.

Lemma runs_represent st M : runs st M → represents st M.
Proof using.
  induction 1 as [|st M op st' _ IH Hop E]; [apply represents_start|].
  destruct (op_represents st M op IH Hop) as (st2 & E2 & HR). rewrite E in E2. by injection E2 as <-.
Qed.

Lemma walk_next st M l xs2 : ∀ xs1 n,
  represents st M → M !! l = Some (xs1 ++ xs2) → (length xs2 <= n)%nat → walk Next n (Node <$> head xs2.*1) st = Ok (xs2.*2, st).
Proof using.
  induction xs2 as [|[m v] xs2 IH]; intros xs1 n HR Hl Hn; [by destruct n|]. destruct n as [|n]; [cbn in Hn; lia|].
  cbn [walk head fmap list_fmap fst option_fmap option_map snd].
  destruct (around _ _ _ _ _ _ _ HR Hl) as (_ & _ & [el E] & _ & _ & _ & _ & _ & _ & Hv & _). unfold vl in Hv. rewrite E in Hv. injection Hv as Hv.
  erewrite run_step by by apply load_ok. erewrite run_step by by eapply Next_represents.
  erewrite run_step; [by rewrite Hv|]. apply (IH (xs1 ++ [(m, v)])); [done|by rewrite <- app_assoc|cbn in Hn; lia].
Qed.

Lemma walk_prev st M l xs1 : ∀ xs2 n,
  represents st M → M !! l = Some (xs1 ++ xs2) → (length xs1 <= n)%nat → walk Prev n (Node <$> last xs1.*1) st = Ok (reverse xs1.*2, st).
Proof using.
  induction xs1 as [|[m v] xs1 IH] using rev_ind; intros xs2 n HR Hl Hn; [by destruct n|]. rewrite length_app in Hn. cbn in Hn.
  destruct n as [|n]; [lia|]. rewrite !fmap_app, reverse_app. cbn [walk fmap list_fmap fst snd]. rewrite last_snoc. change (Node <$> Some m) with (Some (Node m)). cbv match.
  rewrite <- app_assoc in Hl.
  destruct (around _ _ _ _ _ _ _ HR Hl) as (_ & _ & [el E] & _ & _ & _ & _ & _ & _ & Hv & _). unfold vl in Hv. rewrite E in Hv. injection Hv as Hv.
  erewrite run_step by by apply load_ok. erewrite run_step by by eapply Prev_represents.
  erewrite run_step; [by rewrite Hv|]. eapply IH; [done|exact Hl|lia].
Qed.

(** C33: the rings of pointers are lists.  However lists are made and used -- elements pushed at either end, inserted
    next to others, removed, moved, copied from another list or from the list itself, also with elements that are in another
    list or in none -- no operation meets a nil pointer, each does to its list what it says and nothing to
    the others, and reading a list from the front or from the back gives its values in
    order, and ends. *)
Theorem linked_lists_refine (st : store A) (M : gmap positive (list (positive * A))) :
  runs st M →
  (∀ op, op_ok st M op → ∃ st', run_op op st = Ok (tt, st') ∧ runs st' (spec_op op (next_free st) M)) ∧
  (∀ l xs n, M !! l = Some xs → (length xs <= n)%nat →
     Len l st = Ok (Z.of_nat (length xs), st) ∧ forward l n st = Ok (xs.*2, st) ∧ backward l n st = Ok (reverse xs.*2, st)).
Proof using.
  intros Hr. pose proof (runs_represent _ _ Hr) as HR. split.
  - intros op Hop. destruct (op_represents st M op HR Hop) as (st' & E & _). exists st'. split; [done|]. by eapply runs_op.
  - intros l xs n Hl Hn. split_and!.
    + by eapply Len_represents.
    + unfold forward. erewrite run_step by by eapply Front_represents. by apply (walk_next st M l xs [] n).
    + unfold backward. erewrite run_step by by eapply Back_represents. apply (walk_prev st M l xs [] n); [done|by rewrite app_nil_r|done].
Qed.

End Runs.
(** *** Two lists and an element that moves *)

Definition sample_ops : list (list_op (A := Z)) :=
  [OpNewList; OpPushBack 1 10; OpPushBack 1 20; OpPushFront 1 5; OpInsertAfter 1 15 2; OpMoveToBack 1 4; OpRemove 1 3;
   OpPushBackList 1 1; OpMoveBefore 1 4 3].

Fixpoint after_ops (ops : list (list_op (A := Z))) (st : store Z) (M : gmap positive (list (positive * Z)))
  : store Z * gmap positive (list (positive * Z)) :=
  match ops with
  | [] => (st, M)
  | op :: ops =>
      match run_op 0 op st with
      | Ok (_, st') => after_ops ops st' (spec_op op (next_free st) M)
      | _ => (st, M)
      end
  end.

#[local] Instance op_ok_dec (st : store Z) M op : Decision (op_ok st M op).
Proof. destruct op; cbn; unfold has; apply _. Defined.

(** Whether all operations may be used when they are. *)
Fixpoint all_ok (ops : list (list_op (A := Z))) (st : store Z) (M : gmap positive (list (positive * Z))) : bool :=
  match ops with
  | [] => true
  | op :: ops =>
      bool_decide (op_ok st M op) &&
      match run_op 0 op st with Ok (_, st') => all_ok ops st' (spec_op op (next_free st) M) | _ => false end
  end.

Lemma after_ops_runs ops st M :
  runs 0 st M → all_ok ops st M = true → runs 0 (after_ops ops st M).1 (after_ops ops st M).2.
Proof.
  revert st M. induction ops as [|op ops IH]; intros st M Hr; [done|]. cbn. intros [Hop Hok]%andb_true_iff.
  apply bool_decide_eq_true in Hop. destruct (run_op 0 op st) as [[[] st']| |] eqn:E; [|done..]. apply IH; [|done]. by eapply runs_op.
Qed.

Definition sample_store : store Z * gmap positive (list (positive * Z)) := after_ops sample_ops (mkStore ∅ ∅ 1) ∅.

Example sample_forward : forward 1 9 sample_store.1 = Ok ([10; 15; 5; 10; 15; 5], sample_store.1).
Proof. vm_compute. reflexivity. Qed.

Lemma linked_lists_refine_witness :
  ∃ st', run_op 0 (OpMoveToFront 1 4) sample_store.1 = Ok (tt, st').
Proof.
  destruct (linked_lists_refine 0 sample_store.1 sample_store.2) as [Hop _].
  - apply after_ops_runs; [apply runs_start|by vm_compute].
  - destruct (Hop (OpMoveToFront 1 4)) as (st' & E & _); [by apply (bool_decide_unpack _); vm_compute|]. exists st'. exact E.
Defined.
