(* ===== verification/FrameSorter.v ===== *)
(** * Reassembly of stream data

    stream_frame_sorter.go and internal/utils/byteinterval_linkedlist.go.  The
    linked list of gaps is a list; an element of it is the position it splits
    the list at.  An element that [Push] has removed but still holds is a value
    outside the list. *)

From S2P Require Import Prelude Protocol StreamFrame.

Record ByteInterval : Type := mkInterval {
  Start : Z;
  End : Z;
}.

#[export] Instance ByteInterval_eq_dec : EqDecision ByteInterval.
Proof. solve_decision. Defined.

Record streamFrameSorter : Type := mkSorter {
  queuedFrames : gmap Z StreamFrame;
  readPosition : Z;
  gaps : list ByteInterval;
}.

Definition errTooManyGapsInReceivedStreamData : error :=
  ErrorString "Too many gaps in received StreamFrame data".
Definition errDuplicateStreamData : error := ErrorString "Duplicate Stream Data".
Definition errEmptyStreamData : error := ErrorString "Stream Data empty".
Definition errNoGap : error := ErrorString "StreamFrameSorter BUG: no gap found".
Definition errNoEndGap : error := ErrorString "StreamFrameSorter BUG: no end gap found".

Definition newStreamFrameSorter : streamFrameSorter :=
  mkSorter ∅ 0 [mkInterval 0 MaxByteCountConst].

Definition set_data (f : StreamFrame) (offset : Z) (data : list Z) : StreamFrame :=
  {| StreamID := StreamID f; FinBit := FinBit f; DataLenPresent := DataLenPresent f;
     Offset := offset; Data := data |}.

(** [data[n:]] and [data[:n]] *)
Definition slice_from (n : Z) (l : list Z) : result (list Z) :=
  if (0 <=? n) && (n <=? Z.of_nat (length l)) then Ok (drop (Z.to_nat n) l)
  else Panic "slice bounds out of range".
Definition slice_to (n : Z) (l : list Z) : result (list Z) :=
  if (0 <=? n) && (n <=? Z.of_nat (length l)) then Ok (take (Z.to_nat n) l)
  else Panic "slice bounds out of range".

(** The loop that skips the gaps before the frame: the gaps skipped, the gap found, the rest. *)
Fixpoint find_gap (start stop : Z) (gs : list ByteInterval)
  : result (list ByteInterval * ByteInterval * list ByteInterval) :=
  match gs with
  | [] => Err errNoGap
  | g :: gs =>
      if stop <=? Start g then Err errDuplicateStreamData
      else if (stop >? Start g) && (start <=? End g) then Ok ([], g, gs)
      else
        '(before, gap, after) ← find_gap start stop gs;
        Ok (g :: before, gap, after)
  end.

(** The element [endGap] points to: the gap itself, a later element still in the list, or an
    element already removed. *)
Inductive end_kind : Type := SameGap | LaterGap | RemovedGap.

(** The loop that finds the highest gap whose start lies before the end of the frame: the
    outcome, what [endGap] is, its value, the list after it, and the queued frames. *)
Fixpoint find_end_gap (stop : Z) (kind : end_kind) (endGap : ByteInterval)
    (after : list ByteInterval) (q : gmap Z StreamFrame)
  : result unit * (end_kind * ByteInterval * list ByteInterval * gmap Z StreamFrame) :=
  if stop >=? End endGap then
    match after with
    | [] => (Err errNoEndGap, (kind, endGap, [], q))
    | next :: after' =>
        let kind' := match kind with SameGap => SameGap | _ => RemovedGap end in
        if stop <=? Start next then (Ok tt, (kind', endGap, after, q))
        else find_end_gap stop LaterGap next after' (delete (End endGap) q)
    end
  else (Ok tt, (kind, endGap, after, q)).

(** The gap list after the frame [start, stop) has been taken out of it. *)
Definition adjust_gaps (start stop : Z) (gap : ByteInterval) (kind : end_kind)
    (endGap : ByteInterval) : list ByteInterval :=
  let later := match kind with LaterGap => [endGap] | _ => [] end in
  if start =? Start gap then
    (if stop >=? End gap then []
     else match kind with
          | SameGap => if stop <? End endGap then [mkInterval stop (End gap)] else [gap]
          | _ => [gap]
          end)
    ++ (if stop <? End endGap
        then match kind with LaterGap => [mkInterval stop (End endGap)] | _ => later end
        else later)
  else if stop =? End endGap then [mkInterval (Start gap) start] ++ later
  else match kind with
  | SameGap => [mkInterval (Start gap) start; mkInterval stop (End gap)]
  | LaterGap => [mkInterval (Start gap) start; mkInterval stop (End endGap)]
  | RemovedGap => [mkInterval (Start gap) start]
  end.

(** Push, from the frame whose offset has been moved past a queued frame at its offset on. *)
Definition push_cut (s : streamFrameSorter) (frame : StreamFrame)
  : result unit * streamFrameSorter :=
  let start := Offset frame in
  let stop := Offset frame +u64 DataLen frame in
  match find_gap start stop (gaps s) with
  | Err e => (Err e, s)
  | Panic w => (Panic w, s)
  | Ok (before, gap, after) =>
      let add := if start <? Start gap then Start gap - start else 0 in
      match slice_from add (Data frame) with
      | Err e => (Err e, s)
      | Panic w => (Panic w, s)
      | Ok data =>
          let start := start + add in
          let frame := set_data frame start data in
          let '(r, (kind, endGap, rest, q)) :=
            find_end_gap stop SameGap gap after (queuedFrames s) in
          let later := match kind with LaterGap => [endGap] | _ => [] end in
          match r with
          | Ok _ =>
              let cutLen := if stop >? End endGap then stop - End endGap else 0 in
              match slice_to (DataLen frame - cutLen) (Data frame) with
              | Err e => (Err e, s)
              | Panic w => (Panic w, s)
              | Ok data =>
                  let stop := stop - cutLen in
                  let frame := set_data frame start data in
                  let gaps' := before ++ adjust_gaps start stop gap kind endGap ++ rest in
                  if Z.of_nat (length gaps') >? MaxStreamFrameSorterGaps
                  then (Err errTooManyGapsInReceivedStreamData,
                        mkSorter q (readPosition s) gaps')
                  else (Ok tt, mkSorter (<[Offset frame := frame]> q) (readPosition s) gaps')
              end
          | r => (r, mkSorter q (readPosition s) (before ++ [gap] ++ later ++ rest))
          end
      end
  end.

Definition Push (s : streamFrameSorter) (frame : StreamFrame)
  : result unit * streamFrameSorter :=
  if DataLen frame =? 0 then
    if FinBit frame
    then (Ok tt, mkSorter (<[Offset frame := frame]> (queuedFrames s)) (readPosition s) (gaps s))
    else (Err errEmptyStreamData, s)
  else
    match queuedFrames s !! Offset frame with
    | Some oldFrame =>
        if DataLen frame <=? DataLen oldFrame then (Err errDuplicateStreamData, s)
        else push_cut s (set_data frame (Offset frame +u64 DataLen oldFrame)
                           (drop (length (Data oldFrame)) (Data frame)))
    | None => push_cut s frame
    end.

Definition Head (s : streamFrameSorter) : option StreamFrame :=
  queuedFrames s !! readPosition s.

Definition Pop (s : streamFrameSorter) : option StreamFrame * streamFrameSorter :=
  match Head s with
  | Some frame =>
      (Some frame,
       mkSorter (delete (Offset frame) (queuedFrames s))
         (readPosition s +u64 DataLen frame) (gaps s))
  | None => (None, s)
  end.

(** ** The gap list *)

(** Gaps from [lo] on: not empty, in order, with received data between them, the last one
    reaching up to the largest offset. *)
Fixpoint gaps_ok (lo : Z) (gs : list ByteInterval) : Prop :=
  match gs with
  | [] => lo = MaxByteCountConst + 1
  | g :: gs => lo <= Start g < End g ∧ gaps_ok (End g + 1) gs
  end.

Definition in_gap (gs : list ByteInterval) (p : Z) : Prop :=
  ∃ g, g ∈ gs ∧ Start g <= p < End g.

#[export] Instance in_gap_dec gs p : Decision (in_gap gs p).
Proof.
  refine (cast_if (decide (Exists (λ g, Start g <= p < End g) gs)));
    unfold in_gap; by rewrite <- Exists_exists.
Defined.

(** Reference: taking [a, b) out of every gap. *)
Definition cut1 (a b : Z) (g : ByteInterval) : list ByteInterval :=
  (if Start g <? Z.min a (End g) then [mkInterval (Start g) (Z.min a (End g))] else [])
  ++ (if Z.max b (Start g) <? End g then [mkInterval (Z.max b (Start g)) (End g)] else []).

Definition cut_gaps (a b : Z) (gs : list ByteInterval) : list ByteInterval :=
  mjoin (cut1 a b <$> gs).

Lemma gaps_ok_max lo gs : gaps_ok lo gs → lo <= MaxByteCountConst + 1.
Proof.
  revert lo. induction gs as [|g gs IH]; intros lo; simpl; [lia|]. intros [? H%IH]. lia.
Qed.

Lemma gaps_ok_bound lo gs g :
  gaps_ok lo gs → g ∈ gs → lo <= Start g < End g ∧ End g <= MaxByteCountConst.
Proof.
  revert lo. induction gs as [|g0 gs IH]; intros lo; simpl; [set_solver|].
  intros [? H] [->|Hg]%elem_of_cons.
  - apply gaps_ok_max in H. lia.
  - specialize (IH _ H Hg). lia.
Qed.

Lemma gaps_ok_weaken lo lo' gs : lo' <= lo → gaps_ok lo gs → gs <> [] → gaps_ok lo' gs.
Proof. destruct gs as [|g gs]; simpl; [done|]. intros ? [? ?] _. split; [lia|done]. Qed.

Lemma gaps_ok_app lo gs1 g gs2 :
  gaps_ok lo (gs1 ++ g :: gs2) →
  (∀ g', g' ∈ gs1 → End g' < Start g) ∧ (∃ lo', lo <= lo' ∧ gaps_ok lo' (g :: gs2)).
Proof.
  revert lo. induction gs1 as [|g1 gs1 IH]; intros lo H; simpl in H.
  { split; [set_solver|]. exists lo. split; [lia|done]. }
  destruct H as [Hg1 H]. destruct (IH _ H) as [H1 (lo' & Hle & H2)]. split.
  - intros g' [->|Hg']%elem_of_cons; [|auto]. simpl in H2. lia.
  - exists lo'. split; [lia|done].
Qed.

Lemma gaps_after lo g gs g' : gaps_ok lo (g :: gs) → g' ∈ gs → End g < Start g'.
Proof. intros [_ H] Hg'. pose proof (gaps_ok_bound _ _ _ H Hg'). lia. Qed.

Lemma in_gap_nil p : ¬ in_gap [] p.
Proof. unfold in_gap. set_solver. Qed.

Lemma in_gap_cons g gs p : in_gap (g :: gs) p ↔ Start g <= p < End g ∨ in_gap gs p.
Proof. unfold in_gap. setoid_rewrite elem_of_cons. naive_solver. Qed.

Lemma in_gap_app gs1 gs2 p : in_gap (gs1 ++ gs2) p ↔ in_gap gs1 p ∨ in_gap gs2 p.
Proof. unfold in_gap. setoid_rewrite elem_of_app. naive_solver. Qed.

Lemma in_gap_bound lo gs p : gaps_ok lo gs → in_gap gs p → lo <= p < MaxByteCountConst.
Proof. intros H (g & Hg & Hp). pose proof (gaps_ok_bound _ _ _ H Hg). lia. Qed.

Lemma in_cut1 a b g p :
  a < b → in_gap (cut1 a b g) p ↔ Start g <= p < End g ∧ ¬ (a <= p < b).
Proof.
  intros Hab. unfold cut1. rewrite in_gap_app.
  destruct (Z.ltb_spec (Start g) (Z.min a (End g))), (Z.ltb_spec (Z.max b (Start g)) (End g));
    rewrite ?in_gap_cons; simpl; pose proof (in_gap_nil p); intuition lia.
Qed.

Lemma in_cut_gaps a b gs p :
  a < b → in_gap (cut_gaps a b gs) p ↔ in_gap gs p ∧ ¬ (a <= p < b).
Proof.
  intros Hab. unfold cut_gaps. induction gs as [|g gs IH]; cbn.
  { pose proof (in_gap_nil p). tauto. }
  rewrite in_gap_app, in_gap_cons, in_cut1 by done. unfold cut_gaps in IH. rewrite IH. tauto.
Qed.

Lemma cut_gaps_app a b gs1 gs2 : cut_gaps a b (gs1 ++ gs2) = cut_gaps a b gs1 ++ cut_gaps a b gs2.
Proof. unfold cut_gaps. by rewrite fmap_app, join_app. Qed.

(** Gaps on either side of the cut stay as they are. *)
Lemma cut_gaps_id a b gs :
  a < b → (∀ g, g ∈ gs → Start g < End g ∧ (End g <= a ∨ b <= Start g)) → cut_gaps a b gs = gs.
Proof.
  intros Hab. induction gs as [|g gs IH]; intros H; [done|].
  change (cut1 a b g ++ cut_gaps a b gs = [g] ++ gs). rewrite IH by set_solver. f_equal.
  destruct (H g ltac:(set_solver)) as [Hg Hd]. unfold cut1. destruct g as [x y]; simpl in *.
  destruct (Z.ltb_spec x (Z.min a y)), (Z.ltb_spec (Z.max b x) y); simpl; try lia;
    do 2 f_equal; lia.
Qed.

Lemma cut_gaps_nil a b gs : (∀ g, g ∈ gs → a <= Start g ∧ End g <= b) → cut_gaps a b gs = [].
Proof.
  induction gs as [|g gs IH]; intros H; [done|].
  change (cut1 a b g ++ cut_gaps a b gs = []). rewrite IH by set_solver.
  destruct (H g ltac:(set_solver)) as [H1 H2]. unfold cut1.
  destruct (Z.ltb_spec (Start g) (Z.min a (End g))), (Z.ltb_spec (Z.max b (Start g)) (End g));
    simpl; done || lia.
Qed.

(** Bytes that were not missing do not matter for the cut. *)
Lemma cut_gaps_same_low a' a b gs :
  (∀ g, g ∈ gs → Start g < End g) → a' <= a < b → (∀ p, a' <= p < a → ¬ in_gap gs p) →
  cut_gaps a' b gs = cut_gaps a b gs.
Proof.
  intros Hpos Hab Hno. destruct (Z.eq_dec a' a) as [->|]; [done|].
  induction gs as [|g gs IH]; [done|]. change (cut1 a' b g ++ cut_gaps a' b gs = cut1 a b g ++ cut_gaps a b gs). f_equal.
  - specialize (Hpos g ltac:(set_solver)).
    assert (End g <= a' ∨ a <= Start g) as Hd.
    { destruct (Z.le_gt_cases (End g) a'); [by left|]. destruct (Z.le_gt_cases a (Start g)); [by right|].
      exfalso. apply (Hno (Z.max a' (Start g))); [lia|]. rewrite in_gap_cons. left. lia. }
    unfold cut1. f_equal. destruct (Z.ltb_spec (Start g) (Z.min a' (End g))),
      (Z.ltb_spec (Start g) (Z.min a (End g))); try lia; [|done]. do 2 f_equal. lia.
  - apply IH; [set_solver|]. intros p Hp Hin. apply (Hno p Hp). rewrite in_gap_cons. by right.
Qed.

Lemma gaps_pos lo gs g : gaps_ok lo gs → g ∈ gs → Start g < End g.
Proof. intros H Hg. pose proof (gaps_ok_bound _ _ _ H Hg). lia. Qed.

Lemma gaps_ok_cut lo a b gs :
  gaps_ok lo gs → a < b < MaxByteCountConst → gaps_ok lo (cut_gaps a b gs).
Proof.
  intros H Hab. revert lo H. induction gs as [|g gs IH]; intros lo; [done|]. intros [Hg H].
  pose proof (gaps_ok_max _ _ H) as Hmax. specialize (IH _ H).
  change (cut_gaps a b (g :: gs)) with (cut1 a b g ++ cut_gaps a b gs).
  assert (gaps_ok (End g + 1) (cut_gaps a b gs) → cut1 a b g = [] →
          gaps_ok lo (cut_gaps a b gs)) as Hnil.
  { intros H' E. destruct (cut_gaps a b gs) as [|g' gs'] eqn:Eq.
    - exfalso. simpl in H'. unfold cut1 in E.
      destruct (Z.ltb_spec (Start g) (Z.min a (End g))), (Z.ltb_spec (Z.max b (Start g)) (End g));
        simpl in E; done || lia.
    - eapply gaps_ok_weaken; [|done|done]. lia. }
  unfold cut1 in *.
  destruct (Z.ltb_spec (Start g) (Z.min a (End g))), (Z.ltb_spec (Z.max b (Start g)) (End g));
    cbn [app gaps_ok Start End] in *.
  - split; [lia|]. split; [lia|done].
  - split; [lia|]. destruct (Z.le_gt_cases (End g) a).
    + by rewrite Z.min_r by lia.
    + rewrite Z.min_l by lia. destruct (cut_gaps a b gs) as [|g' gs'] eqn:Eq; simpl in IH.
      * exfalso. lia.
      * simpl. split; [lia|]. tauto.
  - split; [lia|done].
  - auto.
Qed.

(** ** The two searches *)

Lemma find_gap_spec lo gs start stop :
  gaps_ok lo gs → start < stop < MaxByteCountConst → lo <= MaxByteCountConst →
  match find_gap start stop gs with
  | Ok (before, gap, after) =>
      gs = before ++ gap :: after ∧ (∀ g, g ∈ before → End g < start) ∧
      Start gap < stop ∧ start <= End gap
  | Err e => e = errDuplicateStreamData ∧ ∀ p, start <= p < stop → ¬ in_gap gs p
  | Panic _ => False
  end.
Proof.
  intros H Hs. revert lo H. induction gs as [|g gs IH]; intros lo H Hlo; simpl in H; [lia|].
  destruct H as [Hg H]. cbn [find_gap]. destruct (Z.leb_spec stop (Start g)) as [Hle|Hgt].
  { split; [done|]. intros p Hp. rewrite in_gap_cons. intros [?|Hin]; [lia|].
    pose proof (in_gap_bound _ _ _ H Hin). lia. }
  rewrite Z.gtb_ltb. destruct (Z.ltb_spec (Start g) stop); [|lia].
  destruct (Z.leb_spec start (End g)) as [|Hge]; cbn [andb].
  { split_and!; [done|set_solver|lia|lia]. }
  pose proof (gaps_ok_max _ _ H). specialize (IH _ H ltac:(lia)).
  destruct (find_gap start stop gs) as [[[before gap] after]|e|]; cbn [mbind result_bind];
    [|split|done].
  - destruct IH as (-> & Hb & ? & ?). split_and!; [done| |done|done].
    intros g' [->|?]%elem_of_cons; [lia|auto].
  - tauto.
  - intros p Hp. rewrite in_gap_cons. intros [?|Hin]; [lia|]. by apply IH in Hin.
Qed.

Lemma find_end_gap_spec stop kind endGap after q lo :
  gaps_ok lo (endGap :: after) → Start endGap < stop < MaxByteCountConst → kind <> RemovedGap →
  ∃ mid eg rest q',
    find_end_gap stop kind endGap after q
    = (Ok tt, (match mid, kind with
               | [], SameGap => SameGap
               | _, _ => if stop <? End eg then LaterGap else RemovedGap
               end, eg, rest, q')) ∧
    endGap :: after = mid ++ eg :: rest ∧ (∀ g, g ∈ mid → End g <= stop) ∧
    Start eg < stop ∧ (∀ g, g ∈ rest → stop <= Start g) ∧
    q' ⊆ q ∧ (∀ k, k < End endGap ∨ Start eg <= k → q' !! k = q !! k).
Proof.
  revert kind endGap q lo. induction after as [|next after IH]; intros kind g q lo H Hs Hk.
  - pose proof H as [? H1]. simpl in H1. cbn [find_end_gap]. rewrite Z.geb_leb.
    destruct (Z.leb_spec (End g) stop); [lia|].
    exists [], g, [], q. split_and!; [|done|set_solver|lia|set_solver|done|done].
    destruct (Z.ltb_spec stop (End g)); [|lia]. by destruct kind.
  - pose proof H as [? H1]. cbn [find_end_gap]. rewrite Z.geb_leb.
    destruct (Z.leb_spec (End g) stop) as [Hge|Hlt].
    2:{ exists [], g, (next :: after), q. split_and!; [|done|set_solver|lia| |done|done].
        - destruct (Z.ltb_spec stop (End g)); [|lia]. by destruct kind.
        - intros g' Hg'. pose proof (gaps_after _ _ _ _ H Hg'). lia. }
    destruct (Z.leb_spec stop (Start next)) as [Hnext|Hnext].
    { exists [], g, (next :: after), q. split_and!; [|done|set_solver|lia| |done|done].
      - destruct (Z.ltb_spec stop (End g)); [lia|]. by destruct kind.
      - intros g' [->|Hg']%elem_of_cons; [done|].
        pose proof (gaps_after _ _ _ _ H1 Hg'). destruct H1. lia. }
    destruct (IH LaterGap next (delete (End g) q) _ H1 ltac:(lia) ltac:(done))
      as (mid & eg & rest & q' & E & Hl & Hmid & Heg & Hrest & Hsub & Hq).
    exists (g :: mid), eg, rest, q'. split_and!; [|by rewrite Hl| |done|done|..].
    + rewrite E. by destruct mid, kind.
    + intros g' [->|?]%elem_of_cons; [done|auto].
    + etrans; [exact Hsub|apply delete_subseteq].
    + intros k Hkk. assert (Start next <= Start eg).
      { destruct mid as [|m mid]; simplify_eq/=; [lia|].
        assert (eg ∈ mid ++ eg :: rest) as Hin by set_solver.
        pose proof (gaps_after _ _ _ _ H1 Hin). destruct H1. lia. }
      destruct H1. rewrite Hq by lia. apply lookup_delete_ne. lia.
Qed.

(** The case analysis on the gaps is the reference cut. *)
Lemma adjust_gaps_cut start stop gap mid eg kind lo r :
  (∃ rest, mid ++ [eg] = gap :: rest) → gaps_ok lo (mid ++ eg :: r) →
  start < stop → start < End gap → (∀ g, g ∈ mid → End g <= stop) → Start eg < stop →
  kind = match mid with [] => SameGap | _ => if stop <? End eg then LaterGap else RemovedGap end →
  adjust_gaps (Z.max start (Start gap)) (Z.min stop (End eg)) gap kind eg
  = cut_gaps start stop (mid ++ [eg]).
Proof.
  intros [rest Hgap] Hok Hs Hg Hmid Heg ->. rewrite cut_gaps_app. destruct mid as [|g mid].
  - simplify_eq/=. assert (Start gap < End gap) as Hne by (destruct Hok; lia).
    unfold adjust_gaps, cut_gaps. cbn. rewrite app_nil_r. unfold cut1.
    destruct gap as [x y]; cbn [Start End] in *. rewrite Z.geb_leb.
    destruct (Z.eqb_spec (Z.max start x) x), (Z.leb_spec y (Z.min stop y)),
      (Z.ltb_spec (Z.min stop y) y), (Z.eqb_spec (Z.min stop y) y),
      (Z.ltb_spec x (Z.min start y)), (Z.ltb_spec (Z.max stop x) y); cbn; try lia;
      repeat (f_equal; try lia).
  - simplify_eq/=. assert (Start gap < End gap ∧ Start eg < End eg ∧ End gap < Start eg ∧
      ∀ g, g ∈ mid → End gap < Start g) as (Hne & Hne' & Hlt & Hm).
    { change (gaps_ok lo (gap :: mid ++ eg :: r)) in Hok.
      pose proof (gaps_ok_bound _ _ eg Hok ltac:(set_solver)).
      pose proof (gaps_after _ _ _ eg Hok ltac:(set_solver)).
      split_and!; [by destruct Hok as [? _]; lia|lia|done|].
      intros g Hg'. apply (gaps_after _ _ _ g Hok). set_solver. }
    pose proof (Hmid gap ltac:(set_solver)).
    change (cut_gaps start stop (gap :: mid)) with (cut1 start stop gap ++ cut_gaps start stop mid).
    rewrite (cut_gaps_nil start stop mid).
    2:{ intros g Hg'. specialize (Hm g Hg'). specialize (Hmid g ltac:(set_solver)). lia. }
    unfold adjust_gaps, cut_gaps. cbn. rewrite !app_nil_r. unfold cut1.
    destruct gap as [x y], eg as [x' y']; cbn [Start End] in *. rewrite Z.geb_leb.
    destruct (Z.ltb_spec stop y');
    destruct (Z.eqb_spec (Z.max start x) x), (Z.leb_spec y (Z.min stop y')),
      (Z.ltb_spec (Z.min stop y') y'), (Z.eqb_spec (Z.min stop y') y'),
      (Z.ltb_spec x (Z.min start y)), (Z.ltb_spec (Z.max stop x) y),
      (Z.ltb_spec x' (Z.min start y')), (Z.ltb_spec (Z.max stop x') y'); cbn; try lia;
      repeat (f_equal; try lia).
Qed.

(** ** The invariant *)

(** Frames of [q] that lead, without a hole, from [a] to [b]. *)
Inductive chain (q : gmap Z StreamFrame) : Z → Z → Prop :=
| chain_nil a : chain q a a
| chain_cons a b f : q !! a = Some f → Data f <> [] → chain q (a + DataLen f) b → chain q a b.

(** A frame's data is the part of the stream [content] at its offset. *)
Definition matches (content : Z → Z) (f : StreamFrame) : Prop :=
  ∀ i b, Data f !! i = Some b → b = content (Offset f + Z.of_nat i).

Definition frame_inv (content : Z → Z) (gs : list ByteInterval) (k : Z) (f : StreamFrame) : Prop :=
  Offset f = k ∧ Data f <> [] ∧ k + DataLen f <= MaxByteCountConst ∧ matches content f ∧
  ∀ p, k <= p < k + DataLen f → ¬ in_gap gs p.

(** From every position where received data starts, the queue leads to the next gap. *)
Definition paths_inv (q : gmap Z StreamFrame) (lo : Z) (gs : list ByteInterval) : Prop :=
  ∀ a, lo <= a < MaxByteCountConst → ¬ in_gap gs a → (a = lo ∨ in_gap gs (a - 1)) →
    ∃ b, chain q a b ∧ in_gap gs b.

Definition sorter_inv (content : Z → Z) (s : streamFrameSorter) : Prop :=
  0 <= readPosition s <= MaxByteCountConst ∧
  gaps_ok (readPosition s) (gaps s) ∧
  map_Forall (frame_inv content (gaps s)) (queuedFrames s) ∧
  paths_inv (queuedFrames s) (readPosition s) (gaps s).

(** The bytes of the stream that have arrived. *)
Definition received (s : streamFrameSorter) (p : Z) : Prop :=
  0 <= p < MaxByteCountConst ∧ ¬ in_gap (gaps s) p.

Lemma DataLen_pos f : Data f <> [] → 0 < DataLen f.
Proof. unfold DataLen. destruct (Data f); [done|]. simpl. lia. Qed.

Lemma chain_le q a b : chain q a b → a <= b.
Proof. induction 1 as [|a b f _ Hd _ IH]; [lia|]. pose proof (DataLen_pos f Hd). lia. Qed.

Lemma chain_trans q a b c : chain q a b → chain q b c → chain q a c.
Proof. induction 1; [done|]. intros. econstructor; eauto. Qed.

(** Only the keys between the two ends matter. *)
Lemma chain_ext q q' a b :
  (∀ k, a <= k < b → q' !! k = q !! k) → chain q a b → chain q' a b.
Proof.
  intros Hq H. induction H as [|a b f Hf Hd H IH]; [constructor|].
  pose proof (DataLen_pos f Hd). pose proof (chain_le _ _ _ H). econstructor; [|done|].
  - rewrite Hq by lia. done.
  - apply IH. intros k Hk. apply Hq. lia.
Qed.

(** A chain runs through received data only. *)
Lemma chain_received content gs q a b p :
  map_Forall (frame_inv content gs) q → chain q a b → a <= p < b → ¬ in_gap gs p.
Proof.
  intros Hq H. induction H as [|a b f Hf Hd H IH]; intros Hp; [lia|].
  destruct (Hq a f Hf) as (_ & _ & _ & _ & Hng).
  destruct (Z.lt_ge_cases p (a + DataLen f)); [apply Hng; lia|apply IH; lia].
Qed.

(** Filling [a, b), whose first and last bytes were missing, with one new frame. *)
Lemma paths_inv_insert content q q' lo gs gs' a b f :
  gaps_ok lo gs → map_Forall (frame_inv content gs) q → paths_inv q lo gs →
  (∀ p, in_gap gs' p ↔ in_gap gs p ∧ ¬ (a <= p < b)) →
  in_gap gs a → in_gap gs (b - 1) → a < b < MaxByteCountConst →
  q' !! a = Some f → Data f <> [] → DataLen f = b - a →
  (∀ k, k < a ∨ b <= k → q' !! k = q !! k) →
  paths_inv q' lo gs'.
Proof.
  intros Hgs Hfr Hpaths Hgs' Ha Hb Hab Hf Hd Hlen Hq.
  pose proof (in_gap_bound _ _ _ Hgs Ha) as Hlo.
  assert (∃ c, chain q' b c ∧ in_gap gs' c) as (c & Hc & Hgc).
  { destruct (decide (in_gap gs b)) as [Hin|Hout].
    - exists b. split; [constructor|]. apply Hgs'. split; [done|lia].
    - destruct (Hpaths b) as (c & Hc & Hgc); [lia|done|by right|].
      pose proof (chain_le _ _ _ Hc). exists c. split.
      + eapply chain_ext; [|exact Hc]. intros k Hk. apply Hq. lia.
      + apply Hgs'. split; [done|lia]. }
  assert (chain q' a c) as Hac.
  { econstructor; [exact Hf|done|]. rewrite Hlen. by replace (a + (b - a)) with b by lia. }
  intros x Hx Hnx Hstart. rewrite Hgs' in Hnx. destruct (Z.eq_dec x a) as [->|Hxa]; [by exists c|].
  destruct (Z.le_gt_cases a x) as [Hax|Hax].
  - assert (b <= x) as Hbx.
    { destruct (Z.le_gt_cases b x); [done|]. destruct Hstart as [->|Hs]; [lia|].
      apply Hgs' in Hs as [_ Hs]. lia. }
    destruct (Hpaths x) as (d & Hd' & Hgd); [done| | |].
    + intros ?. apply Hnx. split; [done|lia].
    + destruct Hstart as [->|Hs]; [by left|right]. apply Hgs' in Hs. tauto.
    + pose proof (chain_le _ _ _ Hd'). exists d. split.
      * eapply chain_ext; [|exact Hd']. intros k Hk. apply Hq. lia.
      * apply Hgs'. split; [done|lia].
  - destruct (Hpaths x) as (d & Hd' & Hgd); [done| | |].
    + intros ?. apply Hnx. split; [done|lia].
    + destruct Hstart as [->|Hs]; [by left|right]. apply Hgs' in Hs. tauto.
    + assert (d <= a) as Hda.
      { destruct (Z.le_gt_cases d a); [done|].
        exfalso. eapply (chain_received content gs q x d a); [done..|lia|done]. }
      assert (chain q' x d) as Hxd.
      { eapply chain_ext; [|exact Hd']. intros k Hk. apply Hq. lia. }
      destruct (Z.eq_dec d a) as [->|]; [|exists d; split; [done|apply Hgs'; split; [done|lia]]].
      exists c. split; [by eapply chain_trans|done].
Qed.

(** ** Push *)

Lemma slice_from_ok n l :
  0 <= n <= Z.of_nat (length l) → slice_from n l = Ok (drop (Z.to_nat n) l).
Proof.
  intros. unfold slice_from. destruct (Z.leb_spec 0 n), (Z.leb_spec n (Z.of_nat (length l)));
    done || lia.
Qed.

Lemma slice_to_ok n l :
  0 <= n <= Z.of_nat (length l) → slice_to n l = Ok (take (Z.to_nat n) l).
Proof.
  intros. unfold slice_to. destruct (Z.leb_spec 0 n), (Z.leb_spec n (Z.of_nat (length l)));
    done || lia.
Qed.

(** Cutting a frame at both ends keeps it a part of the stream. *)
Lemma matches_cut content f a n :
  matches content f → 0 <= a →
  matches content (set_data f (Offset f + a) (take n (drop (Z.to_nat a) (Data f)))).
Proof.
  intros Hm Ha i b. unfold matches, set_data in *. cbn [Data Offset].
  intros Hi. apply lookup_take_Some in Hi as [Hi _]. rewrite lookup_drop in Hi.
  apply Hm in Hi. rewrite Hi. f_equal. lia.
Qed.

(** The bytes of the frame that were missing lie between the two gaps that were found. *)
Lemma missing_between lo gs before mid eg rest gap start stop p :
  gaps_ok lo gs → gs = before ++ mid ++ eg :: rest → (∃ r, mid ++ [eg] = gap :: r) →
  (∀ g, g ∈ before → End g < start) → (∀ g, g ∈ mid → End g <= stop) →
  Start eg < stop → (∀ g, g ∈ rest → stop <= Start g) → in_gap gs p →
  start <= p < stop ↔ Z.max start (Start gap) <= p < Z.min stop (End eg).
Proof.
  intros Hok -> [r Hr] Hb Hm Heg Hrest (g & Hg & Hp).
  assert (∀ g, g ∈ mid ++ [eg] → Start gap <= Start g) as Hlow.
  { replace (before ++ mid ++ eg :: rest) with (before ++ (mid ++ [eg]) ++ rest) in Hok
      by (by rewrite <- !app_assoc).
    rewrite Hr in Hok |- *. cbn [app] in Hok. apply gaps_ok_app in Hok as [_ (lo' & _ & Hok)].
    intros g' [->|Hg']%elem_of_cons; [lia|].
    pose proof (gaps_after _ _ _ g' Hok ltac:(set_solver)). destruct Hok. lia. }
  pose proof (gaps_ok_bound _ _ eg Hok ltac:(set_solver)).
  rewrite app_assoc in Hok. apply gaps_ok_app in Hok as [Hlt _].
  apply elem_of_app in Hg as [Hg|Hg]; [specialize (Hb g Hg); lia|].
  apply elem_of_app in Hg as [Hg|Hg].
  - specialize (Hlow g ltac:(set_solver)). specialize (Hlt g ltac:(set_solver)).
    specialize (Hm g Hg). lia.
  - apply elem_of_cons in Hg as [->|Hg].
    + specialize (Hlow eg ltac:(set_solver)). lia.
    + specialize (Hrest g Hg). lia.
Qed.

(** The part [a, b) of the frame [f]. *)
Definition cut_frame (f : StreamFrame) (a b : Z) : StreamFrame :=
  set_data f a (take (Z.to_nat (b - a)) (drop (Z.to_nat (a - Offset f)) (Data f))).

Lemma cut_frame_len f a b :
  Offset f <= a <= b → b <= Offset f + DataLen f → DataLen (cut_frame f a b) = b - a.
Proof.
  intros. unfold DataLen, cut_frame, set_data in *. cbn [Data]. rewrite length_take, length_drop. lia.
Qed.

(** How [push_cut] changes a sorter that misses some byte of the frame: the gap list is the
    reference cut, and the frame is queued between its first and its last missing byte. *)
Definition cut_outcome (s : streamFrameSorter) (f : StreamFrame) (a b : Z)
    (q' : gmap Z StreamFrame) : result unit * streamFrameSorter :=
  let gs' := cut_gaps (Offset f) (Offset f + DataLen f) (gaps s) in
  if Z.of_nat (length gs') >? MaxStreamFrameSorterGaps
  then (Err errTooManyGapsInReceivedStreamData, mkSorter q' (readPosition s) gs')
  else (Ok tt, mkSorter (<[a := cut_frame f a b]> q') (readPosition s) gs').

Lemma adjust_all start stop lo gs before mid eg rest gap lo' :
  gaps_ok lo gs → gs = before ++ mid ++ eg :: rest → (∃ r, mid ++ [eg] = gap :: r) →
  gaps_ok lo' (mid ++ eg :: rest) →
  (∀ g, g ∈ before → End g < start) → (∀ g, g ∈ mid → End g <= stop) →
  Start eg < stop → (∀ g, g ∈ rest → stop <= Start g) → start < stop → start < End gap →
  before ++ adjust_gaps (Z.max start (Start gap)) (Z.min stop (End eg)) gap
    (match mid with [] => SameGap | _ => if stop <? End eg then LaterGap else RemovedGap end)
    eg ++ rest = cut_gaps start stop gs.
Proof.
  intros Hok Egs Hr Hok' Hb Hm Heg Hrest Hs Hlt.
  assert (∀ g, g ∈ gs → Start g < End g) as Hpos
    by (intros g Hg; pose proof (gaps_ok_bound _ _ g Hok Hg); lia).
  rewrite (adjust_gaps_cut start stop gap mid eg _ lo' rest) by done.
  rewrite Egs in *. replace (mid ++ eg :: rest) with ((mid ++ [eg]) ++ rest)
    by (by rewrite <- app_assoc).
  rewrite (cut_gaps_app start stop before), (cut_gaps_app start stop (mid ++ [eg])).
  rewrite (cut_gaps_id start stop before), (cut_gaps_id start stop rest); [done|lia| |lia|].
  - intros g Hg. specialize (Hrest g Hg). specialize (Hpos g ltac:(set_solver)). lia.
  - intros g Hg. specialize (Hb g Hg). specialize (Hpos g ltac:(set_solver)). lia.
Qed.

Lemma push_cut_shape s f lo :
  gaps_ok lo (gaps s) → lo <= MaxByteCountConst → Data f <> [] → 0 <= Offset f →
  Offset f + DataLen f < MaxByteCountConst → (∀ g, g ∈ gaps s → Offset f <> End g) →
  (push_cut s f = (Err errDuplicateStreamData, s) ∧
   ∀ p, Offset f <= p < Offset f + DataLen f → ¬ in_gap (gaps s) p) ∨
  ∃ a b q', push_cut s f = cut_outcome s f a b q' ∧ Offset f <= a < b ∧
    b <= Offset f + DataLen f ∧ in_gap (gaps s) a ∧ in_gap (gaps s) (b - 1) ∧
    (∀ p, in_gap (gaps s) p → Offset f <= p < Offset f + DataLen f ↔ a <= p < b) ∧
    q' ⊆ queuedFrames s ∧ (∀ k, k < a ∨ b <= k → q' !! k = queuedFrames s !! k).
Proof.
  intros Hgaps Hlo Hd Hoff Hmax Hne. pose proof (DataLen_pos f Hd) as Hlen.
  unfold push_cut. rewrite u64_id by (unfold is_u64, MaxByteCountConst in *; lia).
  pose proof (find_gap_spec _ _ (Offset f) (Offset f + DataLen f) Hgaps ltac:(lia) Hlo) as Hfind.
  destruct (find_gap _ _ (gaps s)) as [[[before gap] after]|e|]; [right|left|done].
  2:{ by destruct Hfind as [-> Hno]. }
  destruct Hfind as (Eg & Hbefore & Hgs & Hge).
  assert (Offset f < End gap) as Hlt by (specialize (Hne gap ltac:(rewrite Eg; set_solver)); lia).
  pose proof Hgaps as Hok. rewrite Eg in Hok. apply gaps_ok_app in Hok as [_ (lo' & Hlo' & Hok)].
  destruct (find_end_gap_spec (Offset f + DataLen f) SameGap gap after (queuedFrames s) lo' Hok)
    as (mid & eg & rest & q' & Efe & Hl & Hmid & Heg & Hrest & Hsub & Hq); [lia|done|].
  assert (∃ r, mid ++ [eg] = gap :: r) as Hr by (destruct mid; simplify_eq/=; eauto).
  assert (gaps s = before ++ mid ++ eg :: rest) as Egs by (by rewrite Eg, Hl).
  pose proof (gaps_ok_bound _ _ eg Hgaps ltac:(rewrite Egs; set_solver)) as Hegb.
  pose proof (gaps_ok_bound _ _ gap Hgaps ltac:(rewrite Eg; set_solver)) as Hgb.
  assert (Start gap <= Start eg ∧ (eg = gap ∨ End gap < Start eg)) as [Hge' Heq].
  { assert (eg ∈ gap :: after) as [->|Hin]%elem_of_cons by (rewrite Hl; set_solver).
    - split; [lia|by left].
    - pose proof (gaps_after _ _ _ _ Hok Hin). split; [lia|by right]. }
  set (a := Z.max (Offset f) (Start gap)). set (b := Z.min (Offset f + DataLen f) (End eg)).
  assert (a < b) as Hab by (destruct Heq as [->|?]; lia).
  set (add := if Offset f <? Start gap then Start gap - Offset f else 0).
  assert (add = a - Offset f) as Hadd
    by (unfold add, a; destruct (Z.ltb_spec (Offset f) (Start gap)); lia).
  rewrite slice_from_ok by (unfold DataLen in *; lia). rewrite Efe. cbv iota zeta.
  set (cutLen := if Offset f + DataLen f >? End eg then Offset f + DataLen f - End eg else 0).
  assert (Offset f + DataLen f - cutLen = b) as Hcl
    by (unfold cutLen, b; rewrite Z.gtb_ltb;
        destruct (Z.ltb_spec (End eg) (Offset f + DataLen f)); lia).
  assert (DataLen (set_data f (Offset f + add) (drop (Z.to_nat add) (Data f))) = DataLen f - add)
    as Hdl by (unfold DataLen, set_data; cbn [Data]; rewrite length_drop; unfold DataLen in *; lia).
  rewrite slice_to_ok by (rewrite Hdl; unfold DataLen, set_data in *; cbn [Data] in *; lia).
  rewrite Hdl, Hcl, Hadd. replace (Offset f + (a - Offset f)) with a by lia.
  exists a, b, q'. split_and!; [|lia|lia|lia|..|done|].
  - unfold cut_outcome. cbn [set_data Offset Data].
    rewrite <- (adjust_all _ _ lo (gaps s) before mid eg rest gap lo'); try done; [|by rewrite <- Hl|lia].
    fold a b. replace (DataLen f - (a - Offset f) - cutLen) with (b - a) by lia.
    unfold cut_frame, set_data. cbn. by destruct mid.
  - exists gap. split; [rewrite Eg; set_solver|]. lia.
  - exists eg. split; [rewrite Egs; set_solver|]. lia.
  - intros p Hp. by apply (missing_between lo (gaps s) before mid eg rest gap).
  - intros k Hk. apply Hq. destruct Heq as [->|?]; lia.
Qed.

(** The outcome of pushing a frame that covers [start, stop). *)
Definition push_post (content : Z → Z) (s : streamFrameSorter) (start stop : Z)
    (r : result unit * streamFrameSorter) : Prop :=
  match r with
  | (Ok _, s') =>
      sorter_inv content s' ∧ readPosition s' = readPosition s ∧
      gaps s' = cut_gaps start stop (gaps s) ∧
      (∀ h, Head s = Some h → Head s' = Some h) ∧
      ∀ p, received s' p ↔ received s p ∨ start <= p < stop
  | (Err e, s') =>
      (e = errDuplicateStreamData ∧ s' = s ∧ ∀ p, start <= p < stop → received s p) ∨
      (e = errTooManyGapsInReceivedStreamData ∧
       MaxStreamFrameSorterGaps < Z.of_nat (length (cut_gaps start stop (gaps s))))
  | (Panic _, _) => False
  end.

Lemma frame_inv_mono content gs gs' k f :
  (∀ p, in_gap gs' p → in_gap gs p) → frame_inv content gs k f → frame_inv content gs' k f.
Proof. intros Hg (?&?&?&?&H). split_and!; try done. intros p Hp Hin. by apply (H p), Hg. Qed.

Lemma cut_frame_inv content f a b gs :
  matches content f → Offset f <= a < b → b <= Offset f + DataLen f → b <= MaxByteCountConst →
  (∀ p, a <= p < b → ¬ in_gap gs p) → frame_inv content gs a (cut_frame f a b).
Proof.
  intros Hm Ha Hb Hmax Hng. pose proof (cut_frame_len f a b ltac:(lia) Hb) as Hl.
  split_and!; [done| |lia| |].
  - intros E. unfold DataLen in Hl. rewrite E in Hl. simpl in Hl. lia.
  - unfold cut_frame. replace a with (Offset f + (a - Offset f)) at 1 by lia.
    apply matches_cut; [done|lia].
  - intros p Hp. apply Hng. lia.
Qed.

Lemma push_cut_spec content s f start :
  sorter_inv content s → Data f <> [] → 0 <= start <= Offset f →
  Offset f + DataLen f < MaxByteCountConst → matches content f →
  (∀ g, g ∈ gaps s → Offset f <> End g) → (∀ p, start <= p < Offset f → ¬ in_gap (gaps s) p) →
  push_post content s start (Offset f + DataLen f) (push_cut s f).
Proof.
  intros (Hrp & Hgaps & Hfr & Hpaths) Hd Hoff Hmax Hmat Hne Hpre.
  pose proof (DataLen_pos f Hd). assert (Offset f + DataLen f < MaxByteCountConst) as Hm by lia.
  destruct (push_cut_shape s f _ Hgaps ltac:(lia) Hd ltac:(lia) Hm Hne)
    as [[-> Hdup]|(a & b & q' & -> & Ha & Hb & Hga & Hgb & Hiff & Hsub & Hq)].
  { left. split_and!; [done|done|]. intros p Hp. split; [lia|].
    destruct (Z.lt_ge_cases p (Offset f)); [apply Hpre; lia|apply Hdup; lia]. }
  assert (∀ p, in_gap (cut_gaps (Offset f) (Offset f + DataLen f) (gaps s)) p ↔
    in_gap (gaps s) p ∧ ¬ (a <= p < b)) as Hcut.
  { intros p. rewrite in_cut_gaps by lia. specialize (Hiff p). tauto. }
  unfold cut_outcome. rewrite Z.gtb_ltb.
  assert (cut_gaps start (Offset f + DataLen f) (gaps s)
          = cut_gaps (Offset f) (Offset f + DataLen f) (gaps s)) as Hsame.
  { apply cut_gaps_same_low; [|lia|done]. intros g. by eapply gaps_pos. }
  destruct (Z.ltb_spec MaxStreamFrameSorterGaps
    (Z.of_nat (length (cut_gaps (Offset f) (Offset f + DataLen f) (gaps s))))) as [Hlt|_].
  { right. split; [done|]. by rewrite Hsame. }
  split_and!; [|done|by rewrite Hsame| |].
  - split_and!; cbn [readPosition queuedFrames gaps].
    + lia.
    + lia.
    + apply gaps_ok_cut; [done|lia].
    + apply map_Forall_insert_2.
      * apply cut_frame_inv; [done|lia|lia|lia|]. intros p Hp [_ Hin]%Hcut. lia.
      * intros k f' Hf'. eapply frame_inv_mono; [|eapply Hfr, lookup_weaken; [exact Hf'|done]].
        intros p [? _]%Hcut. done.
    + eapply (paths_inv_insert content (queuedFrames s) _ _ (gaps s) _ a b (cut_frame f a b));
        try done; [lia|apply lookup_insert_eq| |apply cut_frame_len; lia|].
      * intros E. pose proof (cut_frame_len f a b ltac:(lia) Hb) as Hl.
        unfold DataLen in Hl. rewrite E in Hl. simpl in Hl. lia.
      * intros k Hk. rewrite lookup_insert_ne by lia. apply Hq. lia.
  - unfold Head. cbn [queuedFrames readPosition]. intros h Hh.
    destruct (Hfr _ _ Hh) as (_ & Hhd & _ & _ & Hng). pose proof (DataLen_pos h Hhd).
    pose proof (in_gap_bound _ _ _ Hgaps Hga).
    assert (a <> readPosition s) by (intros ->; apply (Hng (readPosition s)); [lia|done]).
    change (Offset (cut_frame f a b)) with a. rewrite lookup_insert_ne by lia.
    rewrite Hq by lia. done.
  - intros p. unfold received. cbn [gaps]. rewrite Hcut. specialize (Hiff p).
    destruct (decide (in_gap (gaps s) p)) as [Hin|Hout].
    + pose proof (in_gap_bound _ _ _ Hgaps Hin). specialize (Hiff Hin).
      assert (¬ (start <= p < Offset f)) as Hnp by (intros Hp; by apply (Hpre p Hp)).
      destruct (decide (a <= p < b)); intuition lia.
    + assert (¬ (in_gap (gaps s) p ∧ ¬ a <= p < b)) by tauto.
      split; [tauto|]. intros [?|?]; [tauto|]. split; [lia|done].
Qed.

(** Under the invariant no frame starts where a gap ends, unless one is queued there. *)
Lemma gap_end_queued content s g :
  sorter_inv content s → g ∈ gaps s → End g < MaxByteCountConst →
  ∃ f, queuedFrames s !! End g = Some f.
Proof.
  intros (Hrp & Hgaps & Hfr & Hpaths) Hg Hmax.
  pose proof (gaps_ok_bound _ _ _ Hgaps Hg) as Hb.
  assert (¬ in_gap (gaps s) (End g)) as Hnot.
  { intros (g' & Hg' & Hp). apply list_elem_of_split in Hg as (l1 & l2 & E).
    rewrite E in Hg', Hgaps. apply gaps_ok_app in Hgaps as [Hl (lo' & _ & Hok)].
    apply elem_of_app in Hg' as [Hg'|[->|Hg']%elem_of_cons]; [specialize (Hl g' Hg')|..]; try lia.
    pose proof (gaps_after _ _ _ _ Hok Hg'). lia. }
  destruct (Hpaths (End g)) as (b & Hc & Hgb); [lia|done| |].
  { right. exists g. split; [done|lia]. }
  inversion Hc as [|? ? f Hf]; subst; [done|eauto].
Qed.

Lemma Push_spec content s f :
  sorter_inv content s → Data f <> [] → 0 <= Offset f →
  Offset f + DataLen f < MaxByteCountConst → matches content f →
  push_post content s (Offset f) (Offset f + DataLen f) (Push s f).
Proof.
  intros Hinv Hd Hoff Hmax Hmat. pose proof (DataLen_pos f Hd) as Hlen. unfold Push.
  destruct (Z.eqb_spec (DataLen f) 0); [lia|].
  pose proof Hinv as (Hrp & Hgaps & Hfr & _).
  destruct (queuedFrames s !! Offset f) as [old|] eqn:Eq.
  - destruct (Hfr _ _ Eq) as (Hoo & Hod & Hom & _ & Hong).
    pose proof (DataLen_pos old Hod) as Holen.
    destruct (Z.leb_spec (DataLen f) (DataLen old)).
    { left. split_and!; [done|done|]. intros p Hp. split; [lia|]. apply Hong. lia. }
    rewrite u64_id by (unfold is_u64, MaxByteCountConst in *; lia).
    set (f' := set_data f _ _).
    assert (DataLen f' = DataLen f - DataLen old) as Hl'.
    { unfold f', DataLen, set_data in *. cbn [Data]. rewrite length_drop. lia. }
    replace (Offset f + DataLen f) with (Offset f' + DataLen f')
      by (rewrite Hl'; unfold f', set_data; simpl; lia).
    apply push_cut_spec; [done|..].
    + intros E. unfold DataLen in Hl', Hlen, Holen. unfold DataLen in H. rewrite E in Hl'. simpl in Hl'. lia.
    + unfold f', set_data. simpl. lia.
    + rewrite Hl'. unfold f', set_data. simpl. lia.
    + unfold f'. rewrite <- (firstn_all (drop _ (Data f))).
      replace (length (Data old)) with (Z.to_nat (DataLen old)) by (unfold DataLen; lia).
      apply matches_cut; [done|lia].
    + intros g Hg E. unfold f', set_data in E. simpl in E.
      apply (Hong (Offset f + DataLen old - 1)); [lia|]. exists g. split; [done|].
      pose proof (gaps_ok_bound _ _ _ Hgaps Hg). lia.
    + intros p Hp. apply Hong. unfold f', set_data in Hp. simpl in Hp. lia.
  - apply push_cut_spec; try done; [|intros; lia].
    intros g Hg E. destruct (gap_end_queued content s g Hinv Hg) as [f' Hf']; [lia|]. congruence.
Qed.

(** ** Pop *)

Lemma Pop_spec content s :
  sorter_inv content s →
  match Pop s with
  | (Some f, s') =>
      Offset f = readPosition s ∧ Data f <> [] ∧ matches content f ∧
      readPosition s' = readPosition s + DataLen f ∧ gaps s' = gaps s ∧ sorter_inv content s'
  | (None, s') => s' = s ∧ ¬ received s (readPosition s)
  end.
Proof.
  intros Hinv. pose proof Hinv as (Hrp & Hgaps & Hfr & Hpaths). unfold Pop, Head.
  destruct (queuedFrames s !! readPosition s) as [f|] eqn:Ef.
  - destruct (Hfr _ _ Ef) as (Ho & Hd & Hmax & Hm & Hng). pose proof (DataLen_pos f Hd).
    cbn [readPosition gaps]. rewrite u64_id by (unfold is_u64, MaxByteCountConst in *; lia).
    split_and!; [done..|]. rewrite Ho. split_and!; cbn [readPosition gaps queuedFrames]; [lia|lia|..].
    + destruct (gaps s) as [|g gs] eqn:Eg; [simpl in *; unfold MaxByteCountConst in *; lia|].
      destruct Hgaps as [Hg Hgs]. split; [|done]. split; [|lia].
      destruct (Z.le_gt_cases (readPosition s + DataLen f) (Start g)); [done|].
      exfalso. apply (Hng (Start g)); [lia|]. apply in_gap_cons. left. lia.
    + by apply map_Forall_delete.
    + assert (∀ a b, readPosition s + DataLen f <= a → chain (queuedFrames s) a b →
              chain (delete (readPosition s) (queuedFrames s)) a b) as Hdel.
      { intros a b Ha. apply chain_ext. intros k Hk. apply lookup_delete_ne. lia. }
      intros a Ha Hna Hstart. destruct Hstart as [->|Hs].
      * destruct (Hpaths (readPosition s)) as (b & Hc & Hb); [lia|apply Hng; lia|by left|].
        inversion Hc as [|? ? f' Hf' ? Hc']; subst; [exfalso; by apply (Hng (readPosition s)); [lia|]|].
        simplify_eq. eauto with lia.
      * destruct (Hpaths a) as (b & Hc & Hb); [lia|done|by right|]. eauto with lia.
  - split; [done|]. intros [Hr Hno].
    destruct (Hpaths (readPosition s)) as (b & Hc & Hb); [lia|done|by left|].
    inversion Hc; subst; [done|]. congruence.
Qed.

Lemma sorter_inv_new content : sorter_inv content newStreamFrameSorter.
Proof.
  unfold sorter_inv, newStreamFrameSorter. cbn [readPosition gaps queuedFrames].
  assert (0 < MaxByteCountConst) as Hmax by (unfold MaxByteCountConst; lia).
  split; [lia|]. split; [cbn; lia|]. split; [apply map_Forall_empty|].
  intros a Ha Hno. exfalso. apply Hno. rewrite in_gap_cons. left. simpl. lia.
Qed.

(** ** The end of the stream *)

(** A frame without data is queued only if it has the FIN bit.  The end of a stream of [size] bytes may be announced by
    such a frame, which holds the place behind the data in the queue: a sorter with the frame behaves as one without it. *)
Definition fin_frame (size : Z) (f : StreamFrame) : Prop := Data f = [] ∧ FinBit f = true ∧ Offset f = size.

Definition with_fin (size : Z) (o : option StreamFrame) (s : streamFrameSorter) : streamFrameSorter :=
  mkSorter (match o with Some f => <[size := f]> (queuedFrames s) | None => queuedFrames s end) (readPosition s) (gaps s).

Definition ended_inv (content : Z → Z) (size : Z) (s : streamFrameSorter) : Prop :=
  ∃ s0 o, s = with_fin size o s0 ∧ sorter_inv content s0 ∧ (∀ p, received s0 p → p < size) ∧
    ∀ f, o = Some f → fin_frame size f.

(** A frame with data of the stream [content], inside the offset space. *)
Definition data_frame_ok (content : Z → Z) (f : StreamFrame) : Prop :=
  Data f <> [] ∧ 0 <= Offset f ∧ Offset f + DataLen f < MaxByteCountConst ∧ matches content f.

Lemma with_fin_lookup size o s k :
  k <> size → queuedFrames (with_fin size o s) !! k = queuedFrames s !! k.
Proof. intros Hk. destruct o; [|done]. by apply lookup_insert_ne. Qed.

Lemma find_end_gap_fin size fin stop kind eg after q lo :
  gaps_ok lo (eg :: after) → stop <= size →
  find_end_gap stop kind eg after (<[size := fin]> q)
  = let '(r, (kind', eg', rest, q')) := find_end_gap stop kind eg after q in (r, (kind', eg', rest, <[size := fin]> q')).
Proof.
  revert kind eg q lo. induction after as [|next after IH]; intros kind eg q lo [Heg Hok] Hs; cbn [find_end_gap].
  { by destruct (stop >=? End eg). }
  destruct (stop >=? End eg); [|done]. destruct (Z.leb_spec stop (Start next)); [done|].
  destruct Hok as [Hnext Hok]. rewrite delete_insert_ne by lia. by apply (IH _ _ _ (End eg + 1)).
Qed.

Lemma push_cut_fin size fin s f lo :
  gaps_ok lo (gaps s) → lo <= MaxByteCountConst → Data f <> [] → 0 <= Offset f →
  Offset f + DataLen f < MaxByteCountConst → Offset f + DataLen f <= size →
  push_cut (with_fin size (Some fin) s) f = let '(r, s') := push_cut s f in (r, with_fin size (Some fin) s').
Proof.
  intros Hgaps Hlo Hd Hoff Hmax Hsize. pose proof (DataLen_pos f Hd) as Hlen.
  unfold push_cut. rewrite u64_id by (unfold is_u64, MaxByteCountConst in *; lia). cbn [with_fin gaps queuedFrames readPosition].
  pose proof (find_gap_spec _ _ (Offset f) (Offset f + DataLen f) Hgaps ltac:(lia) Hlo) as Hfind.
  destruct (find_gap _ _ (gaps s)) as [[[before gap] after]|e|]; [|done..].
  destruct Hfind as (Eg & _ & Hgs & _). rewrite Eg in Hgaps. apply gaps_ok_app in Hgaps as [_ (lo' & _ & Hok)].
  destruct (slice_from _ _) as [data|e|e]; [|done..]. rewrite (find_end_gap_fin _ _ _ _ _ _ _ lo' Hok Hsize).
  destruct (find_end_gap _ _ _ _ _) as [r [[[kind eg] rest] q]]. destruct r as [[]|e|e]; [|done..].
  destruct (slice_to _ _) as [data'|e|e]; [|done..]. destruct (_ >? _); [done|]. unfold with_fin. cbn [set_data Offset queuedFrames readPosition gaps].
  rewrite insert_insert_ne; [done|]. destruct (Z.ltb_spec (Offset f) (Start gap)); lia.
Qed.

(** Pushing data does not depend on the end. *)
Lemma Push_fin content size o s f :
  sorter_inv content s → data_frame_ok content f → Offset f + DataLen f <= size →
  Push (with_fin size o s) f = let '(r, s') := Push s f in (r, with_fin size o s').
Proof.
  intros (Hrp & Hgaps & Hfr & _) (Hd & Ho & Hm & _) Hs. pose proof (DataLen_pos f Hd) as Hlen.
  destruct o as [fin|]; cycle 1.
  { assert (∀ s, with_fin size None s = s) as Hw by (by intros []). rewrite Hw. destruct (Push s f). by rewrite Hw. }
  unfold Push. destruct (Z.eqb_spec (DataLen f) 0); [lia|]. rewrite with_fin_lookup by lia.
  destruct (queuedFrames s !! Offset f) as [old|] eqn:Eo; cycle 1.
  { by eapply push_cut_fin; [exact Hgaps|lia|..]. }
  destruct (Hfr _ _ Eo) as (_ & Hod & _). pose proof (DataLen_pos old Hod).
  destruct (Z.leb_spec (DataLen f) (DataLen old)); [done|]. set (f' := set_data f _ _).
  assert (Offset f' = Offset f + DataLen old) as Eo'.
  { unfold f'. cbn. apply u64_id. unfold is_u64, MaxByteCountConst in *. lia. }
  assert (DataLen f' = DataLen f - DataLen old) as Hl' by (unfold f', DataLen, set_data in *; cbn [Data]; rewrite length_drop; lia).
  eapply push_cut_fin; [exact Hgaps|lia| |lia..].
  intros E. unfold DataLen in *. rewrite E in Hl'. cbn in Hl'. lia.
Qed.

(** Nothing else is queued at the end. *)
Lemma end_free content size s :
  sorter_inv content s → (∀ p, received s p → p < size) → 0 <= size → queuedFrames s !! size = None.
Proof.
  intros (_ & _ & Hfr & _) Hrec H0. destruct (queuedFrames s !! size) as [f|] eqn:E; [|done]. exfalso.
  destruct (Hfr _ _ E) as (_ & Hd & Hmax & _ & Hng). pose proof (DataLen_pos f Hd).
  enough (size < size) by lia. apply Hrec. split; [lia|apply Hng; lia].
Qed.

(** What can arrive for a stream of [size] bytes: a part of its data, or the frame that announces its end. *)
Definition stream_part (content : Z → Z) (size : Z) (f : StreamFrame) : Prop :=
  data_frame_ok content f ∧ Offset f + DataLen f <= size ∨ fin_frame size f.

(** The outcome of pushing such a frame. *)
Definition part_post (content : Z → Z) (size : Z) (s : streamFrameSorter) (f : StreamFrame)
    (r : result unit * streamFrameSorter) : Prop :=
  match r with
  | (Ok _, s') =>
      ended_inv content size s' ∧ readPosition s' = readPosition s ∧
      (∀ h, Head s = Some h → Data h <> [] → Head s' = Some h) ∧
      ∀ p, received s' p ↔ received s p ∨ Offset f <= p < Offset f + DataLen f
  | (Err e, s') =>
      (e = errDuplicateStreamData ∧ s' = s ∧ ∀ p, Offset f <= p < Offset f + DataLen f → received s p) ∨
      (e = errTooManyGapsInReceivedStreamData ∧
       MaxStreamFrameSorterGaps < Z.of_nat (length (cut_gaps (Offset f) (Offset f + DataLen f) (gaps s))))
  | (Panic _, _) => False
  end.

Lemma head_with_fin size o s h :
  Head (with_fin size o s) = Some h → Data h <> [] → (∀ f, o = Some f → fin_frame size f) → Head s = Some h.
Proof.
  unfold Head. cbn [with_fin readPosition queuedFrames]. intros Hh Hd Ho. destruct o as [fin|]; [|done].
  destruct (Z.eq_dec (readPosition s) size) as [E|E]; [|by rewrite lookup_insert_ne in Hh].
  rewrite E, lookup_insert_eq in Hh. simplify_eq. by destruct (Ho h eq_refl) as [? _].
Qed.

Lemma Push_part content size s f :
  0 <= size → ended_inv content size s → stream_part content size f → part_post content size s f (Push s f).
Proof.
  intros H0 (s0 & o & -> & Hinv & Hrec & Ho) [[Hf Hs]|(Hd & Hfin & Hoff)].
  - rewrite (Push_fin content) by done. pose proof Hf as (Hd & Hf0 & Hm & Hmat).
    pose proof (Push_spec content s0 f Hinv Hd Hf0 Hm Hmat) as Hp.
    destruct (Push s0 f) as [[[]|e|e] s1]; [|destruct Hp as [(-> & -> & Hp)|Hp]; [by left|by right]|done].
    destruct Hp as (Hinv1 & Hrp & _ & Hhead & Hr1). split_and!; [|done| |done].
    + exists s1, o. split_and!; [done|done| |done]. intros p [?|?]%Hr1; [by apply Hrec|lia].
    + intros h Hh Hhd. assert (Head s1 = Some h) as Hh1 by (by eapply Hhead, head_with_fin).
      unfold Head in Hh1 |- *. cbn [with_fin readPosition]. rewrite with_fin_lookup; [done|]. intros E.
      rewrite E, (end_free content) in Hh1; [done|done| |done]. intros p [?|?]%Hr1; [by apply Hrec|lia].
  - unfold Push. assert (DataLen f = 0) as El by (unfold DataLen; by rewrite Hd). rewrite El, Hfin, Hoff. cbn [Z.eqb].
    assert (∀ s, mkSorter (<[size := f]> (queuedFrames (with_fin size o s))) (readPosition s) (gaps s) = with_fin size (Some f) s) as E.
    { intros s. unfold with_fin. cbn. destruct o; [|done]. by rewrite insert_insert_eq. }
    cbn [with_fin readPosition gaps]. rewrite E. split_and!; [|done| |].
    + exists s0, (Some f). split_and!; [done..|]. by intros ? [= <-].
    + intros h Hh Hhd. pose proof (head_with_fin _ _ _ _ Hh Hhd Ho) as Hh0. unfold Head in Hh0 |- *. cbn [with_fin readPosition].
      rewrite with_fin_lookup; [done|]. intros Es. rewrite Es in Hh0. by rewrite (end_free content) in Hh0.
    + intros p. rewrite El. split; [by left|]. intros [?|?]; [done|lia].
Qed.

(** Reading: a part of the data, the end, or nothing. *)
Lemma Pop_part content size s :
  0 <= size → ended_inv content size s →
  match Pop s with
  | (Some f, s') =>
      Offset f = readPosition s ∧ matches content f ∧ (Data f = [] → fin_frame size f) ∧
      readPosition s' = readPosition s + DataLen f ∧ gaps s' = gaps s ∧ ended_inv content size s'
  | (None, s') => s' = s ∧ ¬ received s (readPosition s)
  end.
Proof.
  intros H0 (s0 & o & -> & Hinv & Hrec & Ho). pose proof (Pop_spec content s0 Hinv) as Hp.
  pose proof (end_free content size s0 Hinv Hrec H0) as Hfree. pose proof Hinv as ([Hr0 Hr1] & _).
  unfold Pop, Head in *. cbn [with_fin readPosition gaps] in *.
  destruct (Z.eq_dec (readPosition s0) size) as [E|E].
  - rewrite E in *. rewrite Hfree in Hp. destruct o as [fin|]; cbn [with_fin queuedFrames]; [|rewrite Hfree; by destruct Hp].
    rewrite lookup_insert_eq. destruct (Ho fin eq_refl) as (Hd & Hfin & Hoff).
    assert (DataLen fin = 0) as El by (unfold DataLen; by rewrite Hd).
    cbn [readPosition gaps]. rewrite El, Hoff, Z.add_0_r, u64_id by (unfold is_u64, MaxByteCountConst in *; lia).
    split_and!; [done| |done|done|done|].
    + intros i b Hi. by rewrite Hd in Hi.
    + rewrite delete_insert_id by done. exists s0, None. split_and!; [|done..]. destruct s0. cbn in E. by rewrite <- E.
  - rewrite with_fin_lookup by done. destruct (queuedFrames s0 !! readPosition s0) as [f|]; [|by destruct Hp].
    cbn [readPosition gaps] in *. destruct Hp as (Hoff & Hd & Hm & Hrp & Hg & Hinv'). split_and!; [done|done|done|done|done|].
    eexists _, o. split_and!; [|exact Hinv'|done|done]. unfold with_fin. cbn [readPosition queuedFrames gaps].
    destruct o; [|done]. by rewrite delete_insert_ne by lia.
Qed.

Lemma ended_inv_new content size : 0 <= size → ended_inv content size newStreamFrameSorter.
Proof.
  intros H0. exists newStreamFrameSorter, None. split_and!; [done|apply sorter_inv_new| |done].
  intros p [? Hno]. exfalso. apply Hno. apply in_gap_cons. left. cbn. lia.
Qed.

Lemma ended_position content size s : ended_inv content size s → 0 <= readPosition s <= MaxByteCountConst.
Proof. by intros (s0 & o & -> & [H _] & _). Qed.

(** ** Runs *)

(** What the session does to a sorter: push a frame, or read. *)
Inductive sorter_op : Type :=
| OpPush (f : StreamFrame)
| OpPop.

(** A run collects the bytes it has read; it stops at an error other than a duplicate, which the
    session treats as fatal. *)
Fixpoint run_sorter (s : streamFrameSorter) (out : list Z) (ops : list sorter_op)
  : option (streamFrameSorter * list Z) :=
  match ops with
  | [] => Some (s, out)
  | OpPush f :: ops =>
      match Push s f with
      | (Ok _, s') => run_sorter s' out ops
      | (Err e, s') => if decide (e = errDuplicateStreamData) then run_sorter s' out ops else None
      | (Panic _, _) => None
      end
  | OpPop :: ops =>
      match Pop s with
      | (Some f, s') => run_sorter s' (out ++ Data f) ops
      | (None, s') => run_sorter s' out ops
      end
  end.

(** The frames of a stream of [size] bytes. *)
Definition op_ok (content : Z → Z) (size : Z) (op : sorter_op) : Prop :=
  match op with OpPush f => stream_part content size f | OpPop => True end.

(** The first [n] bytes of the stream. *)
Definition stream_prefix (content : Z → Z) (n : nat) : list Z :=
  (λ i, content (Z.of_nat i)) <$> seq 0 n.

Lemma prefix_snoc content n f :
  matches content f → Offset f = Z.of_nat n →
  stream_prefix content n ++ Data f = stream_prefix content (n + length (Data f)).
Proof.
  intros Hm Ho. unfold stream_prefix. rewrite seq_app, fmap_app. f_equal.
  apply list_eq. intros i. rewrite list_lookup_fmap.
  destruct (decide (i < length (Data f))%nat) as [Hi|Hi].
  - destruct (lookup_lt_is_Some_2 (Data f) i Hi) as [b Hb]. rewrite Hb.
    rewrite lookup_seq_lt by done. cbn. rewrite (Hm i b Hb), Ho. do 2 f_equal. lia.
  - rewrite (lookup_ge_None_2 (Data f)) by lia. rewrite lookup_seq_ge by lia. done.
Qed.

Lemma run_sorter_inv content size ops s out s' out' :
  0 <= size → ended_inv content size s → out = stream_prefix content (Z.to_nat (readPosition s)) →
  Forall (op_ok content size) ops → run_sorter s out ops = Some (s', out') →
  ended_inv content size s' ∧ out' = stream_prefix content (Z.to_nat (readPosition s')) ∧
  (∀ p, received s' p ↔
     received s p ∨ ∃ f, OpPush f ∈ ops ∧ Offset f <= p < Offset f + DataLen f).
Proof.
  intros H0 Hinv Hout Hops. revert s out Hinv Hout.
  induction Hops as [|op ops Hop Hops IH]; intros s out Hinv Hout Hrun; cbn [run_sorter] in Hrun.
  { simplify_eq. split_and!; [done|done|]. set_solver. }
  destruct op as [f|].
  - pose proof (Push_part content size s f H0 Hinv Hop) as Hp.
    destruct (Push s f) as [[[]|e|] s1]; [| |done].
    + destruct Hp as (Hinv1 & Hrp & _ & Hrec). rewrite <- Hrp in Hout.
      destruct (IH s1 out Hinv1 Hout Hrun) as (? & ? & Hr). split_and!; [done..|].
      intros p. rewrite Hr, Hrec. set_solver.
    + destruct (decide (e = errDuplicateStreamData)) as [->|]; [|done].
      destruct Hp as [(_ & -> & Hdup)|[? _]]; [|done].
      destruct (IH s out Hinv Hout Hrun) as (? & ? & Hr). split_and!; [done..|].
      intros p. rewrite Hr. set_solver.
  - pose proof (Pop_part content size s H0 Hinv) as Hp. pose proof (ended_position _ _ _ Hinv). destruct (Pop s) as [[f|] s1].
    + destruct Hp as (Ho & Hmat & _ & Hrp & Hg & Hinv1).
      destruct (IH s1 (out ++ Data f) Hinv1) as (? & ? & Hr); [|done|].
      * rewrite Hout, prefix_snoc by (done || lia). f_equal. rewrite Hrp. unfold DataLen. lia.
      * split_and!; [done..|]. intros p. rewrite Hr. unfold received. rewrite Hg. set_solver.
    + destruct Hp as [-> _]. destruct (IH s out Hinv Hout Hrun) as (? & ? & Hr).
      split_and!; [done..|]. intros p. rewrite Hr. set_solver.
Qed.

(** ** Properties *)

Lemma ended_received content size s p : ended_inv content size s → received s p → p < size.
Proof. intros (s0 & o & -> & _ & Hrec & _) Hp. by apply Hrec. Qed.

(** The data at the head of the queue has arrived. *)
Lemma head_data_received content size s f :
  0 <= size → ended_inv content size s → Head s = Some f → Data f <> [] →
  ∀ p, Offset f <= p < Offset f + DataLen f → received s p.
Proof.
  intros H0 (s0 & o & -> & Hinv & Hrec & Ho) Hh Hd p Hp. pose proof (head_with_fin _ _ _ _ Hh Hd Ho) as Hh0.
  destruct Hinv as (Hrp & _ & Hfr & _). destruct (Hfr _ _ Hh0) as (Hoff & _ & Hmax & _ & Hng).
  split; [lia|]. apply Hng. lia.
Qed.

(** Reading until at least [n] bytes, all of which have arrived, are delivered. *)
Lemma drain content size s out (n : nat) :
  0 <= size → ended_inv content size s → (∀ p, 0 <= p < Z.of_nat n → received s p) →
  ∀ k, Z.of_nat n <= readPosition s + Z.of_nat k →
  ∃ s' out', run_sorter s out (replicate k OpPop) = Some (s', out') ∧
    Z.of_nat n <= readPosition s'.
Proof.
  intros H0 Hinv Hrec k. revert s out Hinv Hrec. induction k as [|k IH]; intros s out Hinv Hrec Hk.
  { exists s, out. split; [done|lia]. }
  cbn [replicate run_sorter]. pose proof (Pop_part content size s H0 Hinv) as Hp. pose proof (ended_position _ _ _ Hinv).
  destruct (Pop s) as [[f|] s1].
  - destruct Hp as (Ho & _ & Hfin & Hrp & Hg & Hinv1).
    apply IH; [done|intros p Hp; unfold received; rewrite Hg; by apply Hrec|].
    destruct (decide (Data f = [])) as [Ed|Ed]; [|pose proof (DataLen_pos f Ed); lia].
    destruct (Hfin Ed) as (_ & _ & Hoff). assert (Z.of_nat n <= size); [|unfold DataLen in *; lia].
    destruct n as [|n]; [lia|]. pose proof (ended_received _ _ _ _ Hinv (Hrec (Z.of_nat n) ltac:(lia))). lia.
  - destruct Hp as [-> Hno].
    assert (Z.of_nat n <= readPosition s).
    { destruct (Z.le_gt_cases (Z.of_nat n) (readPosition s)); [done|].
      exfalso. apply Hno, Hrec. lia. }
    apply IH; [done|done|lia].
Qed.

(** C6: for a stream of any size, whatever parts of it arrive, in whatever order, overlapping, duplicated and split, with or
    without frames that have no data and announce its end, and whenever the reader reads: the bytes delivered are exactly the
    beginning of the stream, none twice and none out of order; the sorter knows exactly which bytes have arrived; and if the
    first [n] bytes have arrived, reading on delivers them all.  The parts end below the largest offset; a frame without data
    is only sent for the end of the stream (elsewhere it overwrites data, see [empty_fin_drops_data]); and the run has not been
    ended by the error of too many gaps. *)
Theorem sorter_delivers_stream (content : Z → Z) (size : Z) (ops : list sorter_op)
    (s : streamFrameSorter) (out : list Z) :
  0 <= size → Forall (op_ok content size) ops → run_sorter newStreamFrameSorter [] ops = Some (s, out) →
  out = stream_prefix content (length out) ∧ readPosition s = Z.of_nat (length out) ∧
  (∀ p, received s p ↔ ∃ f, OpPush f ∈ ops ∧ Offset f <= p < Offset f + DataLen f) ∧
  (∀ n : nat, (∀ p, 0 <= p < Z.of_nat n → received s p) →
     ∃ s' out', run_sorter s out (replicate n OpPop) = Some (s', out') ∧
       out' = stream_prefix content (length out') ∧ (n <= length out')%nat).
Proof.
  intros H0 Hops Hrun.
  destruct (run_sorter_inv content size ops newStreamFrameSorter [] s out) as (Hinv & Hout & Hrec);
    [done|by apply ended_inv_new|done..|].
  assert (∀ n, length (stream_prefix content n) = n) as Hlen.
  { intros n. unfold stream_prefix. by rewrite length_fmap, length_seq. }
  pose proof (ended_position _ _ _ Hinv) as [Hr0 _].
  assert (length out = Z.to_nat (readPosition s)) as Hl by (by rewrite Hout, Hlen).
  split_and!; [by rewrite Hl|lia| |].
  - intros p. rewrite Hrec. split; [|by right]. intros [[? Hno]|?]; [|done].
    exfalso. apply Hno. unfold newStreamFrameSorter. cbn [gaps]. rewrite in_gap_cons. left. simpl. lia.
  - intros n Hn. destruct (drain content size s out n H0 Hinv Hn n ltac:(lia)) as (s' & out' & Hrun' & Hge).
    exists s', out'. split; [done|].
    destruct (run_sorter_inv content size (replicate n OpPop) s out s' out') as (Hinv' & Hout' & _);
      [done|done|done| |done|].
    { apply Forall_replicate. done. }
    pose proof (ended_position _ _ _ Hinv') as [Hr0' _].
    assert (length out' = Z.to_nat (readPosition s')) as Hl' by (by rewrite Hout', Hlen).
    split; [by rewrite Hl'|lia].
Qed.

Definition sample_frame (off : Z) (data : list Z) : StreamFrame :=
  {| StreamID := 5; FinBit := false; DataLenPresent := true; Offset := off; Data := data |}.

Definition sample_fin (off : Z) : StreamFrame :=
  {| StreamID := 5; FinBit := true; DataLenPresent := true; Offset := off; Data := [] |}.

(** Out of order, overlapping and duplicated frames of the stream 0, 1, 2, ..., 9 and its end. *)
Definition sample_ops : list sorter_op :=
  [OpPush (sample_frame 4 [4; 5]); OpPop; OpPush (sample_fin 10); OpPush (sample_frame 8 [8; 9]);
   OpPush (sample_frame 0 [0; 1]); OpPop; OpPush (sample_frame 3 [3; 4; 5; 6; 7; 8]);
   OpPush (sample_frame 1 [1; 2; 3]); OpPush (sample_frame 4 [4; 5]); OpPop; OpPop; OpPop].

Lemma sorter_delivers_stream_witness :
  ∃ s out, run_sorter newStreamFrameSorter [] sample_ops = Some (s, out) ∧
    out = stream_prefix (λ p, p) (length out) ∧ readPosition s = Z.of_nat (length out).
Proof.
  eexists _, _. split; [vm_compute; reflexivity|].
  pose proof (λ s out, sorter_delivers_stream (λ p, p) 10 sample_ops s out) as H.
  edestruct H as (Hout & Hrp & _); [..|split; [exact Hout|exact Hrp]]; [lia| |vm_compute; reflexivity].
  unfold sample_ops. repeat apply Forall_cons_2; try done;
    first [by right|left; split; [|by vm_compute]; unfold data_frame_ok, DataLen, MaxByteCountConst; cbn;
      split_and!; try (done || lia); intros [|[|[|[|[|[|?]]]]]] b [= <-]; reflexivity].
Defined.

(** A frame without data elsewhere takes the place of the frame that is queued there: the bytes of that frame are gone, and
    as the sorter takes them for received, they are refused when they are sent again; the reader gets the end instead. *)
Theorem empty_fin_drops_data :
  let s := (Push newStreamFrameSorter (sample_frame 0 [0; 1; 2; 3])).2 in
  let s' := (Push s (sample_fin 0)).2 in
  Head s = Some (sample_frame 0 [0; 1; 2; 3]) ∧ Head s' = Some (sample_fin 0) ∧ received s' 3 ∧
  (Push (Pop s').2 (sample_frame 0 [0; 1; 2; 3])).1 = Err errDuplicateStreamData.
Proof.
  split; [done|]. split; [done|]. split; [|by vm_compute]. split; [by vm_compute|].
  vm_compute. intros (g & Hg & Hp). apply list_elem_of_In in Hg. destruct Hg as [<-|[]]. destruct Hp as [H1 _]. by apply H1.
Qed.

(** Pushing a frame of the stream either queues it and takes exactly its bytes out of the
    gaps -- the case analysis on the linked list is the reference cut of every gap -- or reports
    a duplicate and changes nothing, which happens only when every byte had arrived, or reports
    too many gaps, only when there are more than the limit; it never panics nor hits one of the
    internal errors. *)
Theorem sorter_push_correct (content : Z → Z) (s : streamFrameSorter) (f : StreamFrame) :
  sorter_inv content s → data_frame_ok content f →
  push_post content s (Offset f) (Offset f + DataLen f) (Push s f).
Proof. intros Hinv (Hd & Ho & Hm & Hmat). by apply Push_spec. Qed.

Lemma sorter_push_correct_witness :
  push_post (λ p, p) newStreamFrameSorter 4 6 (Push newStreamFrameSorter (sample_frame 4 [4; 5])).
Proof.
  apply (sorter_push_correct (λ p, p) newStreamFrameSorter (sample_frame 4 [4; 5])).
  - apply sorter_inv_new.
  - unfold data_frame_ok, DataLen, MaxByteCountConst. cbn. split_and!; try (done || lia).
    intros [|[|?]] b [= <-]; reflexivity.
Defined.

(** C39: a frame with FIN whose tail has arrived before is cut but keeps its FIN: the next frame
    the reader gets ends the stream early, although the byte after it has arrived.  (A peer may
    send overlapping frames.) *)
Theorem sorter_cut_keeps_fin (content : Z → Z) (s : streamFrameSorter) (f : StreamFrame) :
  sorter_inv content s → data_frame_ok content f → FinBit f = true →
  Offset f = readPosition s → in_gap (gaps s) (Offset f) →
  received s (Offset f + DataLen f - 1) →
  match Push s f with
  | (Ok _, s') =>
      ∃ f', Head s' = Some f' ∧ FinBit f' = true ∧ Offset f' = Offset f ∧
        DataLen f' < DataLen f ∧ received s' (Offset f' + DataLen f')
  | (Err e, _) => e = errTooManyGapsInReceivedStreamData
  | (Panic _, _) => False
  end.
Proof.
  intros Hinv (Hd & Ho & Hm & Hmat) Hfin Hrp Hgap [_ Hlast].
  pose proof (Push_spec content s f Hinv Hd Ho Hm Hmat) as Hpost. pose proof (DataLen_pos f Hd).
  pose proof Hinv as (Hb & Hgaps & Hfr & _).
  assert (queuedFrames s !! Offset f = None) as Hq.
  { destruct (queuedFrames s !! Offset f) as [f0|] eqn:E; [|done]. exfalso.
    destruct (Hfr _ _ E) as (_ & Hd0 & _ & _ & Hng). pose proof (DataLen_pos f0 Hd0).
    apply (Hng (Offset f)); [lia|done]. }
  assert (Push s f = push_cut s f) as Epush.
  { unfold Push. rewrite Hq. by destruct (Z.eqb_spec (DataLen f) 0); [lia|]. }
  destruct (push_cut_shape s f _ Hgaps ltac:(lia) Hd Ho Hm)
    as [[E Hdup]|(a & b & q' & E & Ha & Hbs & _ & Hgb & Hiff & _)].
  { intros g Hg Eg. destruct (gap_end_queued content s g Hinv Hg) as [? ?]; [lia|]. congruence. }
  { exfalso. apply (Hdup (Offset f)); [lia|done]. }
  specialize (Hiff (Offset f) Hgap). assert (a = Offset f) as -> by lia.
  assert (b < Offset f + DataLen f).
  { destruct (Z.eq_dec b (Offset f + DataLen f)) as [->|]; [done|lia]. }
  rewrite Epush, E in *. unfold cut_outcome in *. destruct (_ >? _).
  { destruct Hpost as [[? _]|[? _]]; done. }
  destruct Hpost as (_ & _ & _ & Hrec). exists (cut_frame f (Offset f) b).
  split_and!; [|done|done|rewrite cut_frame_len; lia|].
  - unfold Head. cbn [queuedFrames readPosition]. rewrite <- Hrp. apply lookup_insert_eq.
  - apply Hrec. right. rewrite cut_frame_len by lia. cbn. lia.
Qed.

Lemma sorter_cut_keeps_fin_witness :
  let s := (Push newStreamFrameSorter (sample_frame 4 [4; 5])).2 in
  let f := {| StreamID := 5; FinBit := true; DataLenPresent := true; Offset := 0;
              Data := [0; 1; 2; 3; 4; 5] |} in
  ∃ f', Head (Push s f).2 = Some f' ∧ FinBit f' = true ∧ Offset f' = 0 ∧ DataLen f' < 6 ∧
    received (Push s f).2 (Offset f' + DataLen f').
Proof.
  pose proof (sorter_cut_keeps_fin (λ p, p)
    (Push newStreamFrameSorter (sample_frame 4 [4; 5])).2
    {| StreamID := 5; FinBit := true; DataLenPresent := true; Offset := 0;
       Data := [0; 1; 2; 3; 4; 5] |}) as H.
  assert (data_frame_ok (λ p, p) (sample_frame 4 [4; 5])) as Hop.
  { unfold data_frame_ok, DataLen, MaxByteCountConst. cbn. split_and!; try (done || lia).
    intros [|[|?]] b [= <-]; reflexivity. }
  apply H.
  - pose proof (Push_spec (λ p, p) newStreamFrameSorter (sample_frame 4 [4; 5])
      (sorter_inv_new _)) as Hp. destruct Hop as (?&?&?&?). by apply Hp.
  - unfold data_frame_ok, DataLen, MaxByteCountConst. cbn. split_and!; try (done || lia).
    intros [|[|[|[|[|[|?]]]]]] b [= <-]; reflexivity.
  - reflexivity.
  - reflexivity.
  - exists (mkInterval 0 4). split; [|simpl; lia]. vm_compute. left.
  - split; [vm_compute; split; [discriminate|reflexivity]|].
    vm_compute. intros (g & Hg & Hp). apply list_elem_of_In in Hg. destruct Hg as [<-|[<-|[]]];
      destruct Hp as [H1 H2]; (by apply H1) || discriminate H2.
Defined.
