(* ===== verification/ReceivedPackets.v ===== *)
(** * Received packets

    ackhandler/received_packet_history.go and received_packet_handler.go.  The
    linked list of packet intervals is kept from Back to Front, the order in
    which [ReceivedPacket] and [GetAckRanges] walk it.  Times are nanoseconds,
    0 the zero [time.Time]; the current time is an argument. *)

From S2P Require Import Prelude ByteOrder Protocol Frames AckFrame ClosePathFrame.

Record PacketInterval : Type := mkPacketInterval {
  pi_Start : Z;
  pi_End : Z;
}.

#[export] Instance PacketInterval_eq_dec : EqDecision PacketInterval.
Proof. solve_decision. Defined.

Record receivedPacketHistory : Type := mkHistory {
  ranges : list PacketInterval;
  lowestInReceivedPacketNumbers : Z;
}.

Definition TooManyOutstandingReceivedPackets : Z := 69.
Definition errTooManyOutstandingReceivedAckRanges : error :=
  QuicError TooManyOutstandingReceivedPackets "Too many outstanding received ACK ranges".

Definition newReceivedPacketHistory : receivedPacketHistory := mkHistory [] 0.

(** A range that was extended may now touch the one before it. *)
Definition merge_prev (el : PacketInterval) (rest : list PacketInterval) : list PacketInterval :=
  match rest with
  | prev :: rest' =>
      if pi_End prev +u64 1 =? pi_Start el
      then mkPacketInterval (pi_Start prev) (pi_End el) :: rest' else el :: rest
  | [] => [el]
  end.

(** The loop of ReceivedPacket, from the highest range down. *)
Fixpoint insert_packet (p : Z) (l : list PacketInterval) : list PacketInterval :=
  match l with
  | [] => [mkPacketInterval p p]
  | el :: rest =>
      if (p >=? pi_Start el) && (p <=? pi_End el) then l
      else if pi_End el =? p -u64 1 then merge_prev (mkPacketInterval (pi_Start el) p) rest
      else if pi_Start el =? p +u64 1 then merge_prev (mkPacketInterval p (pi_End el)) rest
      else if p >? pi_End el then mkPacketInterval p p :: l
      else el :: insert_packet p rest
  end.

Definition history_ReceivedPacket (h : receivedPacketHistory) (p : Z)
  : result receivedPacketHistory :=
  if Z.of_nat (length (ranges h)) >=? MaxTrackedReceivedAckRanges
  then Err errTooManyOutstandingReceivedAckRanges
  else Ok (mkHistory (insert_packet p (ranges h)) (lowestInReceivedPacketNumbers h)).

(** The loop of DeleteUpTo, from the lowest range up. *)
Fixpoint delete_up_to (p : Z) (l : list PacketInterval) : list PacketInterval :=
  match l with
  | [] => []
  | el :: rest =>
      if (p >=? pi_Start el) && (p <? pi_End el)
      then mkPacketInterval (p +u64 1) (pi_End el) :: delete_up_to p rest
      else if pi_End el <=? p then delete_up_to p rest
      else l
  end.

Definition DeleteUpTo (h : receivedPacketHistory) (p : Z) : receivedPacketHistory :=
  mkHistory (reverse (delete_up_to p (reverse (ranges h))))
    (MaxPacketNumber (lowestInReceivedPacketNumbers h) (p +u64 1)).

Definition GetAckRanges (h : receivedPacketHistory) : list AckRange :=
  map (λ r, mkAckRange (pi_Start r) (pi_End r)) (ranges h).

Definition GetHighestAckRange (h : receivedPacketHistory) : AckRange :=
  match ranges h with
  | r :: _ => mkAckRange (pi_Start r) (pi_End r)
  | [] => mkAckRange 0 0
  end.

(** ** received_packet_handler.go *)

Definition errInvalidPacketNumber : error :=
  ErrorString "ReceivedPacketHandler: Invalid packet number".

Record receivedPacketHandler : Type := mkReceivedHandler {
  largestObserved : Z;
  lowerLimit : Z;
  largestObservedReceivedTime : Z;
  packetHistory : receivedPacketHistory;
  ackSendDelay : Z;
  packetsReceivedSinceLastAck : Z;
  retransmittablePacketsReceivedSinceLastAck : Z;
  ackQueued : bool;
  ackAlarm : Z;
  lastAck : option AckFrame;
  rph_version : Z;
  rph_packets : Z;
}.

Definition NewReceivedPacketHandler (version : Z) : receivedPacketHandler :=
  {| largestObserved := 0; lowerLimit := 0; largestObservedReceivedTime := 0;
     packetHistory := newReceivedPacketHistory; ackSendDelay := AckSendDelay;
     packetsReceivedSinceLastAck := 0; retransmittablePacketsReceivedSinceLastAck := 0;
     ackQueued := false; ackAlarm := 0; lastAck := None; rph_version := version;
     rph_packets := 0 |}.

Definition rph_GetStatistics (h : receivedPacketHandler) : Z := rph_packets h.

Definition maybeQueueAck (now : Z) (h : receivedPacketHandler) (packetNumber : Z)
    (shouldInstigateAck : bool) : receivedPacketHandler :=
  let since := packetsReceivedSinceLastAck h + 1 in
  let rsince := if shouldInstigateAck then retransmittablePacketsReceivedSinceLastAck h + 1
                else retransmittablePacketsReceivedSinceLastAck h in
  let queued := ackQueued h in
  let queued := match lastAck h with None => true | Some _ => queued end in
  let queued := if rph_version h <? Version39
                then if since >=? MaxPacketsReceivedBeforeAckSend then true else queued
                else queued in
  let queued := match lastAck h with
                | Some a => if packetNumber <? ack_LargestAcked a then true else queued
                | None => queued
                end in
  let queued := match lastAck h with
                | Some a => if First (GetHighestAckRange (packetHistory h)) >? ack_LargestAcked a
                            then true else queued
                | None => queued
                end in
  let '(queued, alarm) :=
    if negb queued && shouldInstigateAck then
      if rsince >=? RetransmittablePacketsBeforeAck then (true, ackAlarm h)
      else if ackAlarm h =? 0 then (queued, now + ackSendDelay h) else (queued, ackAlarm h)
    else (queued, ackAlarm h) in
  {| largestObserved := largestObserved h; lowerLimit := lowerLimit h;
     largestObservedReceivedTime := largestObservedReceivedTime h;
     packetHistory := packetHistory h; ackSendDelay := ackSendDelay h;
     packetsReceivedSinceLastAck := since; retransmittablePacketsReceivedSinceLastAck := rsince;
     ackQueued := queued; ackAlarm := if queued then 0 else alarm;
     lastAck := lastAck h; rph_version := rph_version h; rph_packets := rph_packets h |}.

(** The handler after the statistics and the largest observed packet are updated. *)
Definition observe (now : Z) (h : receivedPacketHandler) (packetNumber : Z)
  : receivedPacketHandler :=
  let bigger := packetNumber >? largestObserved h in
  {| largestObserved := if bigger then packetNumber else largestObserved h;
     lowerLimit := lowerLimit h;
     largestObservedReceivedTime := if bigger then now else largestObservedReceivedTime h;
     packetHistory := packetHistory h; ackSendDelay := ackSendDelay h;
     packetsReceivedSinceLastAck := packetsReceivedSinceLastAck h;
     retransmittablePacketsReceivedSinceLastAck := retransmittablePacketsReceivedSinceLastAck h;
     ackQueued := ackQueued h; ackAlarm := ackAlarm h; lastAck := lastAck h;
     rph_version := rph_version h; rph_packets := rph_packets h +u64 1 |}.

Definition set_history (h : receivedPacketHandler) (hist : receivedPacketHistory) (limit : Z)
  : receivedPacketHandler :=
  {| largestObserved := largestObserved h; lowerLimit := limit;
     largestObservedReceivedTime := largestObservedReceivedTime h;
     packetHistory := hist; ackSendDelay := ackSendDelay h;
     packetsReceivedSinceLastAck := packetsReceivedSinceLastAck h;
     retransmittablePacketsReceivedSinceLastAck := retransmittablePacketsReceivedSinceLastAck h;
     ackQueued := ackQueued h; ackAlarm := ackAlarm h; lastAck := lastAck h;
     rph_version := rph_version h; rph_packets := rph_packets h |}.

(** ReceivedPacket: the new state, and the error if there is one. *)
Definition rph_ReceivedPacket (now : Z) (h : receivedPacketHandler) (packetNumber : Z)
    (shouldInstigateAck : bool) : receivedPacketHandler * option error :=
  if packetNumber =? 0 then (h, Some errInvalidPacketNumber)
  else
    let h := observe now h packetNumber in
    if packetNumber <=? lowerLimit h then (h, None)
    else match history_ReceivedPacket (packetHistory h) packetNumber with
    | Ok hist =>
        (maybeQueueAck now (set_history h hist (lowerLimit h)) packetNumber shouldInstigateAck, None)
    | Err e => (h, Some e)
    | Panic _ => (h, None)
    end.

Definition SetLowerLimit (h : receivedPacketHandler) (p : Z) : receivedPacketHandler :=
  set_history h (DeleteUpTo (packetHistory h) p) p.

(** The frame that reports the history: its lowest and all its ranges. *)
Definition history_frame (h : receivedPacketHandler) : result (Z * list AckRange) :=
  let ackRanges := GetAckRanges (packetHistory h) in
  match List.rev ackRanges with
  | [] => Panic "index out of range"
  | lowest :: _ =>
      Ok (First lowest, if (1 <? length ackRanges)%nat then ackRanges else [])
  end.

Definition GetAckFrame (now : Z) (h : receivedPacketHandler)
  : result (option AckFrame * receivedPacketHandler) :=
  if negb (ackQueued h) && ((ackAlarm h =? 0) || (ackAlarm h >? now)) then Ok (None, h)
  else
    '(lowest, ackRanges) ← history_frame h;
    let ack := {| ack_PathID := 0; ack_LargestAcked := largestObserved h;
                  ack_LowestAcked := lowest; ack_AckRanges := ackRanges;
                  ack_PacketReceivedTime := largestObservedReceivedTime h;
                  ack_DelayTime := 0 |} in
    Ok (Some ack,
        {| largestObserved := largestObserved h; lowerLimit := lowerLimit h;
           largestObservedReceivedTime := largestObservedReceivedTime h;
           packetHistory := packetHistory h; ackSendDelay := ackSendDelay h;
           packetsReceivedSinceLastAck := 0; retransmittablePacketsReceivedSinceLastAck := 0;
           ackQueued := false; ackAlarm := 0; lastAck := Some ack;
           rph_version := rph_version h; rph_packets := rph_packets h |}).

Definition GetClosePathFrame (h : receivedPacketHandler) : result ClosePathFrame :=
  '(lowest, ackRanges) ← history_frame h;
  Ok {| cp_PathID := 0; cp_LargestAcked := largestObserved h; cp_LowestAcked := lowest;
        cp_AckRanges := ackRanges |}.

Definition rph_GetAlarmTimeout (h : receivedPacketHandler) : Z := ackAlarm h.

(** ** The history is a set *)

Definition in_history (l : list PacketInterval) (p : Z) : Prop :=
  ∃ r, r ∈ l ∧ pi_Start r <= p <= pi_End r.

(** Ranges below [hi], from high to low, with a missing packet between neighbours. *)
Fixpoint desc_ok (hi : Z) (l : list PacketInterval) : Prop :=
  match l with
  | [] => True
  | r :: l => 1 <= pi_Start r <= pi_End r ∧ pi_End r < hi ∧ desc_ok (pi_Start r - 1) l
  end.

Lemma in_history_nil p : ¬ in_history [] p.
Proof. unfold in_history. set_solver. Qed.

Lemma in_history_cons r l p :
  in_history (r :: l) p ↔ pi_Start r <= p <= pi_End r ∨ in_history l p.
Proof. unfold in_history. setoid_rewrite elem_of_cons. naive_solver. Qed.

Lemma in_history_app l1 l2 p : in_history (l1 ++ l2) p ↔ in_history l1 p ∨ in_history l2 p.
Proof. unfold in_history. setoid_rewrite elem_of_app. naive_solver. Qed.

Lemma desc_ok_weaken hi hi' l : hi <= hi' → desc_ok hi l → desc_ok hi' l.
Proof. destruct l as [|r l]; [done|]. intros ? (?&?&?). split_and!; try done; lia. Qed.

Lemma in_history_bound hi l p : desc_ok hi l → in_history l p → 1 <= p < hi.
Proof.
  revert hi. induction l as [|r l IH]; intros hi Hl Hp; [by apply in_history_nil in Hp|].
  destruct Hl as (? & ? & Hl). apply in_history_cons in Hp as [?|Hp]; [lia|].
  specialize (IH _ Hl Hp). lia.
Qed.

Lemma merge_prev_spec hi el rest :
  1 <= pi_Start el <= pi_End el → pi_End el < hi → hi < 2^64 → desc_ok (pi_Start el) rest →
  desc_ok hi (merge_prev el rest) ∧
  ∀ q, in_history (merge_prev el rest) q ↔ pi_Start el <= q <= pi_End el ∨ in_history rest q.
Proof.
  intros Hel Hhi H64 Hr. unfold merge_prev. destruct rest as [|prev rest].
  { split; [by simpl|]. intros q. by rewrite in_history_cons. }
  destruct Hr as (Hp & Hlt & Hr). rewrite u64_id by (unfold is_u64; lia).
  destruct (Z.eqb_spec (pi_End prev + 1) (pi_Start el)) as [E|Hne].
  - split; [simpl; split_and!; try done; lia|]. intros q. rewrite !in_history_cons. simpl.
    split; [intros [?|?]|intros [?|[?|?]]]; try (by auto); try (left; lia).
    destruct (Z.le_gt_cases (pi_Start el) q); [left; lia|right; left; lia].
  - split; [simpl; split_and!; try done; lia|]. intros q. by rewrite in_history_cons.
Qed.

Lemma insert_packet_spec hi l p :
  desc_ok hi l → 1 <= p < hi → hi < 2^64 - 1 →
  desc_ok hi (insert_packet p l) ∧
  (∀ q, in_history (insert_packet p l) q ↔ q = p ∨ in_history l q).
Proof.
  revert hi. induction l as [|el l IH]; intros hi Hl Hp Hhi.
  { cbn [insert_packet]. split; [simpl; lia|]. intros q. rewrite in_history_cons. simpl. pose proof (in_history_nil q).
    intuition lia. }
  pose proof Hl as (Hel & Hlt & Hl'). cbn [insert_packet].
  rewrite !Z.geb_leb, Z.gtb_ltb, (u64_id (p - 1)), (u64_id (p + 1)) by (unfold is_u64; lia).
  destruct (Z.leb_spec (pi_Start el) p), (Z.leb_spec p (pi_End el)); cbn [andb].
  { split; [done|]. intros q. rewrite in_history_cons. intuition lia. }
  all: destruct (Z.eqb_spec (pi_End el) (p - 1)) as [E|].
  all: try (edestruct (merge_prev_spec hi (mkPacketInterval (pi_Start el) p) l) as [Hm1 Hm2];
    [simpl; lia..|eapply desc_ok_weaken; [|exact Hl']; simpl; lia|];
    split; [exact Hm1|]; intros q; rewrite Hm2, in_history_cons; simpl; intuition lia).
  all: destruct (Z.eqb_spec (pi_Start el) (p + 1)) as [E'|].
  all: try (edestruct (merge_prev_spec hi (mkPacketInterval p (pi_End el)) l) as [Hm1 Hm2];
    [simpl; lia..|eapply desc_ok_weaken; [|exact Hl']; simpl; lia|];
    split; [exact Hm1|]; intros q; rewrite Hm2, in_history_cons; simpl; intuition lia).
  all: destruct (Z.ltb_spec (pi_End el) p); try lia.
  - split; [simpl; split_and!; try done; lia|]. intros q. rewrite !in_history_cons. simpl.
    intuition lia.
  - destruct (IH (pi_Start el - 1) Hl' ltac:(lia) ltac:(lia)) as [Hm1 Hm2].
    split; [simpl; split_and!; try done; lia|]. intros q. rewrite !in_history_cons, Hm2. intuition.
Qed.

(** What [DeleteUpTo] does to one range. *)
Definition trim (p : Z) (r : PacketInterval) : option PacketInterval :=
  if (p >=? pi_Start r) && (p <? pi_End r) then Some (mkPacketInterval (p +u64 1) (pi_End r))
  else if pi_End r <=? p then None else Some r.

Fixpoint asc_ok (lo : Z) (l : list PacketInterval) : Prop :=
  match l with
  | [] => True
  | r :: l => lo < pi_Start r <= pi_End r ∧ asc_ok (pi_End r) l
  end.

Lemma asc_ok_snoc lo l r :
  asc_ok lo l → lo < pi_Start r <= pi_End r → (∀ x, x ∈ l → pi_End x < pi_Start r) →
  asc_ok lo (l ++ [r]).
Proof.
  revert lo. induction l as [|x l IH]; intros lo Hl Hr Hx; simpl; [done|].
  destruct Hl as [? Hl]. split; [done|]. apply IH; [done| |set_solver].
  specialize (Hx x ltac:(set_solver)). lia.
Qed.

Lemma desc_bound hi l r : desc_ok hi l → r ∈ l → 1 <= pi_Start r <= pi_End r ∧ pi_End r < hi.
Proof.
  revert hi. induction l as [|r0 l IH]; intros hi Hl Hr; [set_solver|].
  destruct Hl as (? & ? & Hl). apply elem_of_cons in Hr as [->|Hr]; [lia|].
  destruct (IH _ Hl Hr). lia.
Qed.

Lemma desc_asc hi l : desc_ok hi l → asc_ok 0 (reverse l).
Proof.
  revert hi. induction l as [|r l IH]; intros hi; [done|]. intros (? & ? & Hl).
  rewrite reverse_cons. apply asc_ok_snoc; [by eapply IH|lia|].
  intros x Hx. rewrite elem_of_reverse in Hx. destruct (desc_bound _ _ _ Hl Hx). lia.
Qed.

Lemma trim_above p lo l : p <= lo → asc_ok lo l → omap (trim p) l = l.
Proof.
  revert lo. induction l as [|r l IH]; intros lo Hp Hl; [done|]. destruct Hl as [Hr Hl].
  cbn [omap list_omap]. unfold trim at 1. rewrite Z.geb_leb.
  destruct (Z.leb_spec (pi_Start r) p); [lia|]. cbn [andb].
  destruct (Z.leb_spec (pi_End r) p); [lia|]. f_equal. apply (IH (pi_End r)); [lia|done].
Qed.

Lemma delete_up_to_trim p lo l : asc_ok lo l → delete_up_to p l = omap (trim p) l.
Proof.
  revert lo. induction l as [|r l IH]; intros lo Hl; [done|]. pose proof Hl as [Hr Hl'].
  cbn [delete_up_to omap list_omap]. unfold trim at 1. rewrite Z.geb_leb.
  destruct (Z.leb_spec (pi_Start r) p), (Z.ltb_spec p (pi_End r)); cbn [andb].
  - f_equal. by eapply IH.
  - destruct (Z.leb_spec (pi_End r) p); [by eapply IH|lia].
  - destruct (Z.leb_spec (pi_End r) p); [by eapply IH|]. f_equal.
    symmetry. by eapply trim_above; [|done]; lia.
  - destruct (Z.leb_spec (pi_End r) p); [by eapply IH|lia].
Qed.

Lemma omap_reverse {A B} (f : A → option B) (l : list A) :
  omap f (reverse l) = reverse (omap f l).
Proof.
  induction l as [|x l IH]; [done|]. rewrite reverse_cons, omap_app, IH. cbn [omap list_omap].
  destruct (f x) as [y|]; [by rewrite reverse_cons|by rewrite app_nil_r].
Qed.

Lemma trim_spec hi l p :
  desc_ok hi l → hi < 2^64 - 1 → 0 <= p →
  desc_ok hi (omap (trim p) l) ∧
  (∀ q, in_history (omap (trim p) l) q ↔ in_history l q ∧ p < q).
Proof.
  revert hi. induction l as [|r l IH]; intros hi Hl Hhi Hp.
  { split; [done|]. intros q. pose proof (in_history_nil q). cbn. tauto. }
  destruct Hl as (Hr & Hlt & Hl). destruct (IH _ Hl ltac:(lia) Hp) as [H1 H2].
  cbn [omap list_omap]. unfold trim at 1 4. rewrite Z.geb_leb.
  destruct (Z.leb_spec (pi_Start r) p), (Z.ltb_spec p (pi_End r)); cbn [andb].
  - rewrite u64_id by (unfold is_u64; lia). split.
    + simpl. split_and!; [lia..|]. eapply desc_ok_weaken; [|exact H1]. lia.
    + intros q. rewrite !in_history_cons, H2. simpl. intuition lia.
  - destruct (Z.leb_spec (pi_End r) p); [|lia]. split.
    + eapply desc_ok_weaken; [|exact H1]. lia.
    + intros q. rewrite in_history_cons, H2. intuition lia.
  - destruct (Z.leb_spec (pi_End r) p); [lia|]. split; [done|].
    intros q. rewrite !in_history_cons, H2. intuition lia.
  - lia.
Qed.

Lemma DeleteUpTo_spec hi h p :
  desc_ok hi (ranges h) → hi < 2^64 - 1 → 0 <= p →
  desc_ok hi (ranges (DeleteUpTo h p)) ∧
  (∀ q, in_history (ranges (DeleteUpTo h p)) q ↔ in_history (ranges h) q ∧ p < q).
Proof.
  intros Hl Hhi Hp. unfold DeleteUpTo. cbn [ranges].
  rewrite (delete_up_to_trim p 0) by (by eapply desc_asc).
  rewrite omap_reverse, reverse_involutive. by apply trim_spec.
Qed.

(** ** The frame of a history *)

Lemma ack_ranges_below hi r l :
  desc_ok hi (r :: l) →
  ranges_below (mkAckRange (pi_Start r) (pi_End r))
    (map (λ r, mkAckRange (pi_Start r) (pi_End r)) l).
Proof.
  revert hi r. induction l as [|r' l IH]; intros hi r; [done|].
  intros (? & ? & Hl). pose proof Hl as (? & ? & _). cbn [map ranges_below First Last].
  split_and!; [lia|lia|]. by eapply IH.
Qed.

Lemma rev_last {A} (l : list A) x l' d : List.rev l = x :: l' → List.last l d = x.
Proof.
  intros E. rewrite <- (rev_involutive l), E. simpl. apply last_last.
Qed.

(** A history that contains the largest packet yields a well-formed frame of exactly its
    packets. *)
Lemma history_frame_spec h hi :
  desc_ok hi (ranges (packetHistory h)) → hi <= 2^48 →
  in_history (ranges (packetHistory h)) (largestObserved h) →
  (∀ q, in_history (ranges (packetHistory h)) q → q <= largestObserved h) →
  ∃ lowest rs, history_frame h = Ok (lowest, rs) ∧
    ∀ pathID t d, is_u8 pathID →
      let f := mkAckFrame pathID (largestObserved h) lowest rs t d in
      AckFrame_ok f ∧ 1 <= lowest ∧
      ∀ q, ack_set f q ↔ in_history (ranges (packetHistory h)) q.
Proof.
  intros Hok Hhi Hin Hmax. unfold history_frame, GetAckRanges.
  set (l := ranges (packetHistory h)) in *. clearbody l. set (n := largestObserved h) in *. clearbody n.
  destruct l as [|r l]; [by apply in_history_nil in Hin|].
  pose proof Hok as (Hr & Hlt & Hl).
  assert (pi_End r = n) as Hn.
  { specialize (Hmax (pi_End r)). apply in_history_cons in Hin as [?|Hin].
    - assert (pi_End r <= n); [|lia]. apply Hmax. apply in_history_cons. left. lia.
    - pose proof (in_history_bound _ _ _ Hl Hin). assert (pi_End r <= n); [|lia].
      apply Hmax, in_history_cons. left. lia. }
  set (g := λ r, mkAckRange (pi_Start r) (pi_End r)).
  assert (∀ q, (∃ x, x ∈ map g (r :: l) ∧ First x <= q <= Last x) ↔ in_history (r :: l) q) as Hset.
  { intros q. unfold in_history. split.
    - intros (x & Hx & Hq). apply list_elem_of_fmap in Hx as (y & -> & Hy). by exists y.
    - intros (y & Hy & Hq). exists (g y). split; [by apply list_elem_of_fmap_2|done]. }
  destruct (List.rev (map g (r :: l))) as [|low ?] eqn:Erev.
  { apply (f_equal length) in Erev. by rewrite length_rev in Erev. }
  pose proof (rev_last _ _ _ (g r) Erev) as Elast. eexists _, _. split; [done|].
  pose proof (ack_ranges_below hi r l Hok) as Hbel.
  pose proof (last_below (g r) (map g l) (g r) Hbel ltac:(simpl; lia)) as [Hlow _].
  change (g r :: map g l) with (map g (r :: l)) in Hlow. rewrite Elast in Hlow.
  assert (1 <= First low) as Hlow1.
  { assert (low ∈ map g (r :: l)) as Hx.
    { apply list_elem_of_In, in_rev. rewrite Erev. by left. }
    apply list_elem_of_fmap in Hx as (y & -> & Hy). simpl. destruct (desc_bound _ _ _ Hok Hy). lia. }
  intros pathID t d Hp. cbn [First g] in Hlow. unfold AckFrame_ok, ack_set. cbn. destruct l as [|r' l].
  - simpl in Erev. simplify_eq/=. split_and!; try done; try lia.
    intros q. rewrite in_history_cons. pose proof (in_history_nil q). intuition.
  - cbn [length map Nat.ltb Nat.leb]. split_and!; try done; try lia.
    + simpl. lia.
    + by rewrite <- Elast.
Qed.

(** ** The handler against an abstract receiver *)

(** What a receiver has to remember: the set of packets to acknowledge, the limit below which
    the peer does not care, and the largest packet number seen. *)
Record receiver : Type := mkReceiver {
  to_ack : gset Z;
  limit : Z;
  largest : Z;
}.

Definition receive (a : receiver) (p : Z) : receiver :=
  mkReceiver (if p <=? limit a then to_ack a else {[ p ]} ∪ to_ack a) (limit a)
    (Z.max p (largest a)).

Definition forget (a : receiver) (p : Z) : receiver :=
  mkReceiver (filter (λ q, p < q) (to_ack a)) p (largest a).

(** The handler represents the receiver; once a packet has arrived, the largest one is still
    to be acknowledged. *)
Definition represents (h : receivedPacketHandler) (a : receiver) : Prop :=
  desc_ok (2^48) (ranges (packetHistory h)) ∧
  (∀ q, in_history (ranges (packetHistory h)) q ↔ q ∈ to_ack a) ∧
  lowerLimit h = limit a ∧ largestObserved h = largest a ∧
  (∀ q, q ∈ to_ack a → q <= largest a) ∧ 0 <= limit a ∧
  (largest a = 0 ∧ limit a = 0 ∨ largest a ∈ to_ack a ∧ limit a < largest a).

(** An acknowledgment is only due when there is something to acknowledge. *)
Definition ack_due_ok (h : receivedPacketHandler) : Prop :=
  ackQueued h = true ∨ ackAlarm h <> 0 → largestObserved h <> 0.

Lemma represents_new v : represents (NewReceivedPacketHandler v) (mkReceiver ∅ 0 0).
Proof.
  split_and!; try done; [|by left]. intros q. pose proof (in_history_nil q). cbn. set_solver.
Qed.

Lemma maybeQueueAck_history now h p b :
  packetHistory (maybeQueueAck now h p b) = packetHistory h ∧
  lowerLimit (maybeQueueAck now h p b) = lowerLimit h ∧
  largestObserved (maybeQueueAck now h p b) = largestObserved h ∧
  lastAck (maybeQueueAck now h p b) = lastAck h.
Proof. unfold maybeQueueAck. by repeat case_match. Qed.

Lemma receive_represents now h a p b :
  represents h a → 1 <= p < 2^48 →
  match rph_ReceivedPacket now h p b with
  | (h', None) => represents h' (receive a p)
  | (_, Some e) => e = errTooManyOutstandingReceivedAckRanges ∧ limit a < p
  end.
Proof.
  intros (Hok & Hset & Hlim & Hlarge & Hmax & Hl0 & Hcase) Hp. unfold rph_ReceivedPacket.
  destruct (Z.eqb_spec p 0); [lia|]. cbn [observe lowerLimit packetHistory].
  assert (largestObserved (observe now h p) = Z.max p (largest a)) as Hlo.
  { unfold observe. cbn. rewrite Z.gtb_ltb, Hlarge. destruct (Z.ltb_spec (largest a) p); lia. }
  unfold receive. rewrite Hlim. destruct (Z.leb_spec p (limit a)) as [Hle|Hgt].
  - split_and!; cbn [to_ack limit largest]; try done.
    + intros q Hq. specialize (Hmax q Hq). lia.
    + right. destruct Hcase as [[? ?]|[? ?]]; [lia|]. by rewrite Z.max_r by lia.
  - unfold history_ReceivedPacket. destruct (_ >=? _); [done|].
    destruct (insert_packet_spec (2^48) _ p Hok ltac:(lia) ltac:(lia)) as [Hok' Hset'].
    set (h1 := set_history _ _ _).
    destruct (maybeQueueAck_history now h1 p b) as (E1 & E2 & E3 & _).
    unfold represents. rewrite E1, E2, E3. split_and!; cbn [to_ack limit largest]; try done.
    + intros q. unfold h1. cbn. rewrite Hset', Hset. set_solver.
    + intros q Hq. apply elem_of_union in Hq as [->%elem_of_singleton|Hq]; [lia|].
      specialize (Hmax q Hq). lia.
    + right. destruct (Z.le_gt_cases p (largest a)).
      * rewrite Z.max_r by lia. destruct Hcase as [[? ?]|[? ?]]; [lia|]. split; [set_solver|lia].
      * rewrite Z.max_l by lia. split; [set_solver|lia].
Qed.

Lemma forget_represents h a p :
  represents h a → 0 <= p < largest a → represents (SetLowerLimit h p) (forget a p).
Proof.
  intros (Hok & Hset & Hlim & Hlarge & Hmax & Hl0 & Hcase) Hp.
  destruct (DeleteUpTo_spec (2^48) (packetHistory h) p Hok ltac:(lia) ltac:(lia)) as [Hok' Hset'].
  unfold SetLowerLimit, represents, forget. cbn [set_history packetHistory lowerLimit largestObserved
    to_ack limit largest]. split_and!; try done; try lia.
  - intros q. rewrite Hset', Hset, elem_of_filter. tauto.
  - intros q. rewrite elem_of_filter. intros [_ Hq]. auto.
  - right. destruct Hcase as [[? ?]|[? ?]]; [lia|]. rewrite elem_of_filter. split; [split; [lia|done]|lia].
Qed.

Lemma represents_frame h a :
  represents h a → largest a <> 0 →
  ∃ lowest rs, history_frame h = Ok (lowest, rs) ∧
    ∀ pathID t d, is_u8 pathID →
      let f := mkAckFrame pathID (largestObserved h) lowest rs t d in
      AckFrame_ok f ∧ 1 <= lowest ∧ ∀ q, ack_set f q ↔ q ∈ to_ack a.
Proof.
  intros (Hok & Hset & Hlim & Hlarge & Hmax & Hl0 & Hcase) Hne.
  destruct Hcase as [[? _]|[Hin _]]; [done|].
  destruct (history_frame_spec h (2^48) Hok ltac:(lia)) as (lowest & rs & E & Hf).
  - rewrite Hset, Hlarge. done.
  - intros q Hq. rewrite Hlarge. apply Hmax. by apply Hset.
  - exists lowest, rs. split; [done|]. intros pathID t d Hp.
    destruct (Hf pathID t d Hp) as (? & ? & Hs). split_and!; try done.
    intros q. by rewrite Hs, Hset.
Qed.

(** ** Event sequences *)

Inductive receive_event : Type :=
| EvPacket (now pn : Z) (shouldInstigateAck : bool)
| EvLowerLimit (p : Z)
| EvGetAck (now : Z).

(** A step of the handler beside the abstract receiver; the frames it emits, each with the set
    it has to acknowledge. *)
Definition receive_step (st : receivedPacketHandler * receiver) (ev : receive_event)
  : result (receivedPacketHandler * receiver * option (AckFrame * gset Z)) :=
  let '(h, a) := st in
  match ev with
  | EvPacket now pn b =>
      match rph_ReceivedPacket now h pn b with
      | (h', None) => Ok (h', receive a pn, None)
      | (_, Some e) => Err e
      end
  | EvLowerLimit p => Ok (SetLowerLimit h p, forget a p, None)
  | EvGetAck now =>
      match GetAckFrame now h with
      | Ok (Some f, h') => Ok (h', a, Some (f, to_ack a))
      | Ok (None, h') => Ok (h', a, None)
      | Err e => Err e
      | Panic w => Panic w
      end
  end.

(** What the session guarantees: packet numbers below 2^48, and a STOP_WAITING frame never asks
    to forget the packet that carried it. *)
Definition event_ok (a : receiver) (ev : receive_event) : Prop :=
  match ev with
  | EvPacket _ pn _ => 1 <= pn < 2^48
  | EvLowerLimit p => 0 <= p < largest a
  | EvGetAck _ => True
  end.

Inductive receive_run : receivedPacketHandler * receiver → list (AckFrame * gset Z) → Prop :=
| run_start v : receive_run (NewReceivedPacketHandler v, mkReceiver ∅ 0 0) []
| run_step st ev st' out fs :
    receive_run st fs → event_ok st.2 ev → receive_step st ev = Ok (st', out) →
    receive_run st' (option_list out ++ fs).

Lemma maybeQueueAck_due now h p b :
  largestObserved h <> 0 → ack_due_ok (maybeQueueAck now h p b).
Proof. intros Hl _. by rewrite (proj1 (proj2 (proj2 (maybeQueueAck_history now h p b)))). Qed.

Lemma receive_step_inv h a ev :
  represents h a → ack_due_ok h → event_ok a ev →
  match receive_step (h, a) ev with
  | Ok (h', a', out) =>
      represents h' a' ∧ ack_due_ok h' ∧
      ∀ f X, out = Some (f, X) →
        AckFrame_ok f ∧ 1 <= ack_LowestAcked f ∧ ∀ q, ack_set f q ↔ q ∈ X
  | Err e => e = errTooManyOutstandingReceivedAckRanges
  | Panic _ => False
  end.
Proof.
  intros Hrep Hdue Hev. destruct ev as [now pn b|p|now]; cbn [receive_step].
  - pose proof (receive_represents now h a pn b Hrep Hev) as H.
    assert (ack_due_ok (rph_ReceivedPacket now h pn b).1) as Hd.
    { assert (largestObserved (observe now h pn) <> 0) as Hlo.
      { destruct Hrep as (_&_&_&Hl&Hm&_&Hc). unfold observe. cbn. rewrite Z.gtb_ltb, Hl.
        simpl in Hev. destruct (Z.ltb_spec (largest a) pn); lia. }
      unfold rph_ReceivedPacket. simpl in Hev. destruct (Z.eqb_spec pn 0); [lia|].
      destruct (_ <=? _); [by intros _|]. destruct (history_ReceivedPacket _ _); cbn [fst];
        [|by intros _..]. by apply maybeQueueAck_due. }
    destruct (rph_ReceivedPacket now h pn b) as [h' [e|]]; [by destruct H|].
    split_and!; [done|done|done].
  - split_and!; [by apply forget_represents| |done].
    intros H. apply Hdue in H. done.
  - unfold GetAckFrame. destruct (negb (ackQueued h) && _) eqn:Eq; cbn [mbind result_bind].
    { split_and!; done. }
    assert (largest a <> 0) as Hne.
    { destruct Hrep as (_&_&_&<-&_). apply Hdue. destruct (ackQueued h); [by left|right].
      simpl in Eq. apply orb_false_iff in Eq as [?%Z.eqb_neq _]. done. }
    destruct (represents_frame h a Hrep Hne) as (lowest & rs & -> & Hf).
    cbn [mbind result_bind]. split_and!; [done|by intros [|]|].
    intros f X [= <- <-]. by apply Hf.
Qed.

Lemma receive_run_inv st fs :
  receive_run st fs →
  represents st.1 st.2 ∧ ack_due_ok st.1 ∧
  Forall (λ '(f, X), AckFrame_ok f ∧ 1 <= ack_LowestAcked f ∧ ∀ q, ack_set f q ↔ q ∈ X) fs.
Proof.
  induction 1 as [v|[h a] ev [h' a'] out fs Hrun (Hrep & Hdue & Hfs) Hev Hstep].
  - split_and!; [apply represents_new|by intros [|]|constructor].
  - pose proof (receive_step_inv h a ev Hrep Hdue Hev) as H. rewrite Hstep in H.
    destruct H as (? & ? & Hout). split_and!; [done|done|].
    apply Forall_app. split; [|done]. destruct out as [[f X]|]; [|constructor].
    constructor; [|constructor]. by apply Hout.
Qed.

(** ** Properties *)

(** C20: however packets arrive -- reordered, duplicated, with limits raised in between -- every
    ACK frame the handler emits is well formed and acknowledges exactly the packets that the
    abstract receiver has to acknowledge; the next event is handled without a panic, and its
    only error is the one for too many outstanding ranges. *)
Theorem received_packets_acked (st : receivedPacketHandler * receiver)
    (fs : list (AckFrame * gset Z)) (ev : receive_event) :
  receive_run st fs → event_ok st.2 ev →
  Forall (λ '(f, X), AckFrame_ok f ∧ 1 <= ack_LowestAcked f ∧
            ∀ q, AcksPacket f q = true ↔ q ∈ X) fs ∧
  match receive_step st ev with
  | Ok _ => True
  | Err e => e = errTooManyOutstandingReceivedAckRanges
  | Panic _ => False
  end.
Proof.
  intros Hrun Hev. destruct (receive_run_inv st fs Hrun) as (Hrep & Hdue & Hfs). split.
  - eapply Forall_impl; [exact Hfs|]. intros [f X] (Hok & ? & Hs). split_and!; [done..|].
    intros q. by rewrite AcksPacket_spec, Hs.
  - destruct st as [h a]. pose proof (receive_step_inv h a ev Hrep Hdue Hev) as H.
    by destruct (receive_step (h, a) ev) as [[[h' a'] out]| |].
Qed.

Lemma received_packets_acked_witness :
  ∃ st fs, receive_run st fs ∧
    Forall (λ '(f, X), AckFrame_ok f ∧ 1 <= ack_LowestAcked f ∧
              ∀ q, AcksPacket f q = true ↔ q ∈ X) fs ∧
    match receive_step st (EvPacket 50 5 true) with
    | Ok _ => True
    | Err e => e = errTooManyOutstandingReceivedAckRanges
    | Panic _ => False
    end.
Proof.
  assert (∃ st fs, receive_run st fs) as (st & fs & Hrun).
  { pose proof (run_start 39) as H0.
    eassert (receive_run _ _) as H1.
    { eapply (run_step _ (EvPacket 10 1 true)); [exact H0|simpl; lia|vm_compute; reflexivity]. }
    eassert (receive_run _ _) as H2.
    { eapply (run_step _ (EvPacket 20 3 true)); [exact H1|simpl; lia|vm_compute; reflexivity]. }
    eassert (receive_run _ _) as H3.
    { eapply (run_step _ (EvLowerLimit 1)); [exact H2|simpl; lia|vm_compute; reflexivity]. }
    eassert (receive_run _ _) as H4.
    { eapply (run_step _ (EvGetAck 40)); [exact H3|exact I|vm_compute; reflexivity]. }
    eauto. }
  exists st, fs. split; [done|].
  apply (received_packets_acked st fs (EvPacket 50 5 true)); [done|simpl; lia].
Defined.

Lemma insert_packet_ne p l : insert_packet p l <> [].
Proof.
  destruct l as [|el l]; [done|]. cbn [insert_packet]. unfold merge_prev.
  repeat case_match; done.
Qed.

Lemma history_frame_ne h : ranges (packetHistory h) <> [] → ∃ x, history_frame h = Ok x.
Proof.
  intros Hne. unfold history_frame, GetAckRanges. destruct (ranges (packetHistory h)) as [|r l]; [done|].
  destruct (List.rev _) eqn:E; [|by eexists]. apply (f_equal length) in E. by rewrite length_rev in E.
Qed.

(** C24: a retransmittable packet above the limit is acknowledged in time: at the latest
    [ackSendDelay] after its arrival [GetAckFrame] returns a frame, and at once if it is the
    second one since the last ACK, if no ACK has been sent yet, or if it had been reported
    missing. *)
Theorem ack_sent_in_time (now t : Z) (h h' : receivedPacketHandler) (pn : Z) :
  0 < now → 0 <= ackSendDelay h → (ackAlarm h = 0 ∨ 0 < ackAlarm h <= now + ackSendDelay h) →
  lowerLimit h < pn → rph_ReceivedPacket now h pn true = (h', None) →
  now + ackSendDelay h <= t ∨
  (now <= t ∧ (1 <= retransmittablePacketsReceivedSinceLastAck h ∨ lastAck h = None ∨
               ∃ a, lastAck h = Some a ∧ pn < ack_LargestAcked a)) →
  ∃ f h'', GetAckFrame t h' = Ok (Some f, h'').
Proof.
  intros Hnow Hdelay Halarm Hlim Hrecv Ht. unfold rph_ReceivedPacket in Hrecv.
  destruct (Z.eqb_spec pn 0); [done|]. cbn [observe lowerLimit packetHistory] in Hrecv.
  destruct (Z.leb_spec pn (lowerLimit h)); [lia|]. unfold history_ReceivedPacket in Hrecv.
  destruct (_ >=? _); [done|]. injection Hrecv as <-.
  set (h1 := set_history _ _ _).
  assert (ackQueued (maybeQueueAck now h1 pn true) = true ∨
          0 < ackAlarm (maybeQueueAck now h1 pn true) <= t) as Hdue.
  { unfold maybeQueueAck. cbn [h1 set_history observe retransmittablePacketsReceivedSinceLastAck
      lastAck ackQueued rph_version packetHistory packetsReceivedSinceLastAck ackAlarm ackSendDelay].
    match goal with |- context [negb ?q && true] => destruct q eqn:Eq end; cbn [negb andb];
      [by left|]. rewrite Z.geb_leb. unfold RetransmittablePacketsBeforeAck.
    destruct (Z.leb_spec 2 (retransmittablePacketsReceivedSinceLastAck h + 1)); [by left|].
    right. destruct Ht as [Ht|[_ [Ht|[Ht|(a & Ha & Hlt)]]]]; [|lia|..].
    - destruct (Z.eqb_spec (ackAlarm h) 0); cbn; lia.
    - exfalso. rewrite Ht in Eq. by repeat case_match.
    - exfalso. rewrite Ha in Eq. apply Z.ltb_lt in Hlt. rewrite Hlt in Eq.
      by destruct (First _ >? _). }
  unfold GetAckFrame.
  assert (negb (ackQueued (maybeQueueAck now h1 pn true)) &&
    ((ackAlarm (maybeQueueAck now h1 pn true) =? 0) || (ackAlarm (maybeQueueAck now h1 pn true) >? t))
    = false) as ->.
  { destruct Hdue as [->|Hd]; [done|]. apply andb_false_iff. right. apply orb_false_iff.
    rewrite Z.gtb_ltb, Z.eqb_neq, Z.ltb_ge. lia. }
  destruct (history_frame_ne (maybeQueueAck now h1 pn true)) as [[low rs] ->].
  - rewrite (proj1 (maybeQueueAck_history now h1 pn true)). apply insert_packet_ne.
  - cbn [mbind result_bind]. eauto.
Qed.

Lemma ack_sent_in_time_witness :
  let h := NewReceivedPacketHandler 39 in
  ∃ f h'', GetAckFrame (AckSendDelay + 5) (rph_ReceivedPacket 5 h 1 true).1 = Ok (Some f, h'').
Proof.
  apply (ack_sent_in_time 5 (AckSendDelay + 5) (NewReceivedPacketHandler 39) _ 1).
  - lia.
  - vm_compute. discriminate.
  - by left.
  - simpl. lia.
  - vm_compute. reflexivity.
  - left. simpl. lia.
Defined.

(** Asking for a frame with nothing left to acknowledge panics: after a limit at or above
    every received packet, the pending ACK and the CLOSE_PATH frame index an empty list. *)
Theorem get_ack_empty_panics (now p : Z) (h : receivedPacketHandler) (a : receiver) :
  represents h a → largest a <= p → ackQueued h = true →
  GetAckFrame now (SetLowerLimit h p) = Panic "index out of range" ∧
  GetClosePathFrame (SetLowerLimit h p) = Panic "index out of range".
Proof.
  intros (Hok & Hset & Hlim & Hlarge & Hmax & Hl0 & Hcase) Hp Hq.
  assert (0 <= largest a) as Hnn by (destruct Hcase as [[-> _]|[_ ?]]; lia).
  destruct (DeleteUpTo_spec (2^48) (packetHistory h) p Hok ltac:(lia) ltac:(lia)) as [Hok' Hset'].
  assert (ranges (DeleteUpTo (packetHistory h) p) = []) as E.
  { destruct (ranges (DeleteUpTo (packetHistory h) p)) as [|r l]; [done|]. exfalso.
    destruct Hok' as (? & ? & _). specialize (Hset' (pi_End r)).
    rewrite in_history_cons, Hset in Hset'.
    assert (pi_End r ∈ to_ack a ∧ p < pi_End r) as [Hin ?] by (apply Hset'; left; lia).
    specialize (Hmax _ Hin). lia. }
  unfold GetAckFrame, GetClosePathFrame, history_frame, GetAckRanges, SetLowerLimit.
  cbn [set_history ackQueued packetHistory]. rewrite Hq, E. done.
Qed.

Lemma get_ack_empty_panics_witness :
  let h := (rph_ReceivedPacket 5 (NewReceivedPacketHandler 39) 1 true).1 in
  GetAckFrame 9 (SetLowerLimit h 1) = Panic "index out of range" ∧
  GetClosePathFrame (SetLowerLimit h 1) = Panic "index out of range".
Proof.
  apply (get_ack_empty_panics 9 1 _ (receive (mkReceiver ∅ 0 0) 1)).
  - pose proof (receive_represents 5 _ _ 1 true (represents_new 39) ltac:(lia)) as H. exact H.
  - vm_compute. discriminate.
  - reflexivity.
Defined.
