(* ===== verification/FlowControl.v ===== *)
(** * Flow control

    internal/flowcontrol/flow_controller.go and flow_control_manager.go.  The
    negotiated parameters, the smoothed RTT, the remote RTTs and the current
    time are arguments of the operations that ask for them (they live in other
    components and change between calls); times are nanoseconds, 0 the zero
    [time.Time].  The locking of the manager makes each of its methods atomic:
    one function each. *)

From stdpp Require Import pretty.
From S2P Require Import Prelude Protocol.

Definition StreamDataAfterTermination : Z := 2.
Definition FlowControlReceivedTooMuchData : Z := 59.

(** The getters of handshake.ConnectionParametersManager that flow control calls. *)
Record flowParameters : Type := mkFlowParameters {
  GetSendStreamFlowControlWindow : Z;
  GetSendConnectionFlowControlWindow : Z;
  GetReceiveStreamFlowControlWindow : Z;
  GetMaxReceiveStreamFlowControlWindow : Z;
  GetReceiveConnectionFlowControlWindow : Z;
  GetMaxReceiveConnectionFlowControlWindow : Z;
}.

Record flowController : Type := mkFlowController {
  fc_streamID : Z;
  contributesToConnection : bool;
  bytesSent : Z;
  sendWindow : Z;
  bytesRetrans : Z;
  lastWindowUpdateTime : Z;
  bytesRead : Z;
  highestReceived : Z;
  receiveWindow : Z;
  receiveWindowIncrement : Z;
  maxReceiveWindowIncrement : Z;
}.

Definition ErrReceivedSmallerByteOffset : error := ErrorString "Received a smaller byte offset".

Definition newFlowController (params : flowParameters) (streamID : Z) (contributes : bool)
  : flowController :=
  let '(win, maxInc) :=
    if streamID =? 0
    then (GetReceiveConnectionFlowControlWindow params, GetMaxReceiveConnectionFlowControlWindow params)
    else (GetReceiveStreamFlowControlWindow params, GetMaxReceiveStreamFlowControlWindow params) in
  {| fc_streamID := streamID; contributesToConnection := contributes; bytesSent := 0;
     sendWindow := 0; bytesRetrans := 0; lastWindowUpdateTime := 0; bytesRead := 0;
     highestReceived := 0; receiveWindow := win; receiveWindowIncrement := win;
     maxReceiveWindowIncrement := maxInc |}.

Definition getSendWindow (params : flowParameters) (c : flowController) : Z :=
  if sendWindow c =? 0 then
    if fc_streamID c =? 0 then GetSendConnectionFlowControlWindow params
    else GetSendStreamFlowControlWindow params
  else sendWindow c.

Definition set_sent (c : flowController) (sent retrans win : Z) : flowController :=
  {| fc_streamID := fc_streamID c; contributesToConnection := contributesToConnection c;
     bytesSent := sent; sendWindow := win; bytesRetrans := retrans;
     lastWindowUpdateTime := lastWindowUpdateTime c; bytesRead := bytesRead c;
     highestReceived := highestReceived c; receiveWindow := receiveWindow c;
     receiveWindowIncrement := receiveWindowIncrement c;
     maxReceiveWindowIncrement := maxReceiveWindowIncrement c |}.

Definition set_received (c : flowController) (time read highest window increment : Z)
  : flowController :=
  {| fc_streamID := fc_streamID c; contributesToConnection := contributesToConnection c;
     bytesSent := bytesSent c; sendWindow := sendWindow c; bytesRetrans := bytesRetrans c;
     lastWindowUpdateTime := time; bytesRead := read; highestReceived := highest;
     receiveWindow := window; receiveWindowIncrement := increment;
     maxReceiveWindowIncrement := maxReceiveWindowIncrement c |}.

Definition fc_AddBytesSent (c : flowController) (n : Z) : flowController :=
  set_sent c (bytesSent c +u64 n) (bytesRetrans c) (sendWindow c).
Definition fc_AddBytesRetrans (c : flowController) (n : Z) : flowController :=
  set_sent c (bytesSent c) (bytesRetrans c +u64 n) (sendWindow c).

Definition UpdateSendWindow (c : flowController) (newOffset : Z) : bool * flowController :=
  if newOffset >? sendWindow c
  then (true, set_sent c (bytesSent c) (bytesRetrans c) newOffset)
  else (false, c).

Definition fc_SendWindowSize (params : flowParameters) (c : flowController) : Z :=
  let sendWindow := getSendWindow params c in
  if bytesSent c >? sendWindow then 0 else sendWindow -u64 bytesSent c.

Definition SendWindowOffset (params : flowParameters) (c : flowController) : Z :=
  getSendWindow params c.

(** The increment, whether the offset was smaller, and the new state. *)
Definition fc_UpdateHighestReceived (c : flowController) (byteOffset : Z)
  : Z * option error * flowController :=
  if byteOffset =? highestReceived c then (0, None, c)
  else if byteOffset >? highestReceived c then
    (byteOffset -u64 highestReceived c, None,
     set_received c (lastWindowUpdateTime c) (bytesRead c) byteOffset (receiveWindow c)
       (receiveWindowIncrement c))
  else (0, Some ErrReceivedSmallerByteOffset, c).

Definition IncrementHighestReceived (c : flowController) (increment : Z) : flowController :=
  set_received c (lastWindowUpdateTime c) (bytesRead c) (highestReceived c +u64 increment)
    (receiveWindow c) (receiveWindowIncrement c).

Definition fc_AddBytesRead (now : Z) (c : flowController) (n : Z) : flowController :=
  set_received c (if bytesRead c =? 0 then now else lastWindowUpdateTime c)
    (bytesRead c +u64 n) (highestReceived c) (receiveWindow c) (receiveWindowIncrement c).

(** The increment after maybeAdjustWindowIncrement.  [rtt] is the smoothed RTT. *)
Definition maybeAdjustWindowIncrement (now rtt : Z) (remoteRTTs : list Z) (c : flowController) : Z :=
  if lastWindowUpdateTime c =? 0 then receiveWindowIncrement c
  else if rtt =? 0 then receiveWindowIncrement c
  else
    let timeSinceLastWindowUpdate := now - lastWindowUpdateTime c in
    let maxRemoteRTT := foldl Z.max 0 remoteRTTs in
    if timeSinceLastWindowUpdate >=? 2 * Z.max rtt maxRemoteRTT then receiveWindowIncrement c
    else MinByteCount (2 *u64 receiveWindowIncrement c) (maxReceiveWindowIncrement c).

(** Whether there is an update, the new increment (0 if unchanged), the offset, the state. *)
Definition MaybeUpdateWindow (now rtt : Z) (remoteRTTs : list Z) (c : flowController)
  : bool * Z * Z * flowController :=
  let diff := receiveWindow c -u64 bytesRead c in
  if diff <? receiveWindowIncrement c / 2 then
    let increment := maybeAdjustWindowIncrement now rtt remoteRTTs c in
    let newWindowIncrement :=
      if negb (increment =? receiveWindowIncrement c) then increment else 0 in
    let window := bytesRead c +u64 increment in
    (true, newWindowIncrement, window,
     set_received c now (bytesRead c) (highestReceived c) window increment)
  else (false, receiveWindowIncrement c, receiveWindow c, c).

Definition EnsureMinimumWindowIncrement (c : flowController) (inc : Z) : flowController :=
  if inc >? receiveWindowIncrement c
  then set_received c 0 (bytesRead c) (highestReceived c) (receiveWindow c)
         (MinByteCount inc (maxReceiveWindowIncrement c))
  else c.

Definition CheckFlowControlViolation (c : flowController) : bool :=
  highestReceived c >? receiveWindow c.

(** ** flow_control_manager.go *)

Record flowControlManager : Type := mkManager {
  streamFlowController : gmap Z flowController;
  connFlowController : flowController;
}.

Definition errMapAccess : error := ErrorString "Error accessing the flowController map.".

Record WindowUpdate : Type := mkWindowUpdate {
  wup_StreamID : Z;
  wup_Offset : Z;
}.

Definition NewFlowControlManager (params : flowParameters) : flowControlManager :=
  mkManager ∅ (newFlowController params 0 false).

Definition fcm_NewStream (params : flowParameters) (f : flowControlManager) (streamID : Z)
    (contributes : bool) : flowControlManager :=
  match streamFlowController f !! streamID with
  | Some _ => f
  | None => mkManager (<[streamID := newFlowController params streamID contributes]>
                         (streamFlowController f)) (connFlowController f)
  end.

Definition RemoveStream (f : flowControlManager) (streamID : Z) : flowControlManager :=
  mkManager (delete streamID (streamFlowController f)) (connFlowController f).

Definition getFlowController (f : flowControlManager) (streamID : Z) : result flowController :=
  match streamFlowController f !! streamID with
  | Some fc => Ok fc
  | None => Err errMapAccess
  end.

Definition set_stream (f : flowControlManager) (streamID : Z) (fc : flowController)
  : flowControlManager :=
  mkManager (<[streamID := fc]> (streamFlowController f)) (connFlowController f).

Definition set_conn (f : flowControlManager) (fc : flowController) : flowControlManager :=
  mkManager (streamFlowController f) fc.

Definition too_much_stream (byteOffset streamID : Z) (fc : flowController) : error :=
  QuicError FlowControlReceivedTooMuchData
    ("Received " ++ pretty byteOffset ++ " bytes on stream " ++ pretty streamID ++ ", allowed "
     ++ pretty (receiveWindow fc) ++ " bytes").
Definition too_much_conn (fc : flowController) : error :=
  QuicError FlowControlReceivedTooMuchData
    ("Received " ++ pretty (highestReceived fc) ++ " bytes for the connection, allowed "
     ++ pretty (receiveWindow fc) ++ " bytes").

(** The checks after a stream's highest offset was updated to [fc]. *)
Definition account_received (f : flowControlManager) (streamID byteOffset increment : Z)
    (fc : flowController) : option error * flowControlManager :=
  let f := set_stream f streamID fc in
  if CheckFlowControlViolation fc then (Some (too_much_stream byteOffset streamID fc), f)
  else if contributesToConnection fc then
    let conn := IncrementHighestReceived (connFlowController f) increment in
    let f := set_conn f conn in
    if CheckFlowControlViolation conn then (Some (too_much_conn conn), f) else (None, f)
  else (None, f).

Definition ResetStream (f : flowControlManager) (streamID byteOffset : Z)
  : option error * flowControlManager :=
  match streamFlowController f !! streamID with
  | None => (Some errMapAccess, f)
  | Some fc =>
      match fc_UpdateHighestReceived fc byteOffset with
      | (_, Some _, _) => (Some (ErrorCode StreamDataAfterTermination), f)
      | (increment, None, fc) => account_received f streamID byteOffset increment fc
      end
  end.

Definition fcm_UpdateHighestReceived (f : flowControlManager) (streamID byteOffset : Z)
  : option error * flowControlManager :=
  match streamFlowController f !! streamID with
  | None => (Some errMapAccess, f)
  | Some fc =>
      let '(increment, _, fc) := fc_UpdateHighestReceived fc byteOffset in
      account_received f streamID byteOffset increment fc
  end.

Definition fcm_AddBytesRead (now : Z) (f : flowControlManager) (streamID n : Z)
  : option error * flowControlManager :=
  match streamFlowController f !! streamID with
  | None => (Some errMapAccess, f)
  | Some fc =>
      let f := set_stream f streamID (fc_AddBytesRead now fc n) in
      (None, if contributesToConnection fc
             then set_conn f (fc_AddBytesRead now (connFlowController f) n) else f)
  end.

(** [ByteCount(float64(increment) * ConnectionFlowControlMultiplier)], the multiplier being 1.5:
    exact for increments below 2^51. *)
Definition connection_increment (increment : Z) : Z := 3 * increment / 2.

(** The loop over the streams, in the order [ids] in which the map is iterated. *)
Fixpoint stream_updates (now rtt : Z) (remoteRTTs : list Z) (force : bool) (ids : list Z)
    (f : flowControlManager) : list WindowUpdate * flowControlManager :=
  match ids with
  | [] => ([], f)
  | id :: ids =>
      match streamFlowController f !! id with
      | None => stream_updates now rtt remoteRTTs force ids f
      | Some fc =>
          let '(necessary, newIncrement, offset, fc) := MaybeUpdateWindow now rtt remoteRTTs fc in
          let f := set_stream f id fc in
          if force || necessary then
            let f := if contributesToConnection fc && negb (newIncrement =? 0)
                     then set_conn f (EnsureMinimumWindowIncrement (connFlowController f)
                                        (connection_increment newIncrement))
                     else f in
            let '(res, f) := stream_updates now rtt remoteRTTs force ids f in
            (mkWindowUpdate id offset :: res, f)
          else stream_updates now rtt remoteRTTs force ids f
      end
  end.

Definition GetWindowUpdates (now rtt : Z) (remoteRTTs : list Z) (force : bool) (ids : list Z)
    (f : flowControlManager) : list WindowUpdate * flowControlManager :=
  let '(res, f) := stream_updates now rtt remoteRTTs force ids f in
  let '(necessary, _, offset, conn) := MaybeUpdateWindow now rtt remoteRTTs (connFlowController f) in
  let f := set_conn f conn in
  (if force || necessary then res ++ [mkWindowUpdate 0 offset] else res, f).

Definition GetReceiveWindow (f : flowControlManager) (streamID : Z) : result Z :=
  if streamID =? 0 then Ok (receiveWindow (connFlowController f))
  else fc ← getFlowController f streamID; Ok (receiveWindow fc).

Definition fcm_AddBytesSent (f : flowControlManager) (streamID n : Z)
  : option error * flowControlManager :=
  match streamFlowController f !! streamID with
  | None => (Some errMapAccess, f)
  | Some fc =>
      let f := set_stream f streamID (fc_AddBytesSent fc n) in
      (None, if contributesToConnection fc
             then set_conn f (fc_AddBytesSent (connFlowController f) n) else f)
  end.

Definition fcm_GetBytesSent (f : flowControlManager) (streamID : Z) : result Z :=
  fc ← getFlowController f streamID; Ok (bytesSent fc).

Definition fcm_AddBytesRetrans (f : flowControlManager) (streamID n : Z)
  : option error * flowControlManager :=
  match streamFlowController f !! streamID with
  | None => (Some errMapAccess, f)
  | Some fc =>
      let f := set_stream f streamID (fc_AddBytesRetrans fc n) in
      (None, if contributesToConnection fc
             then set_conn f (fc_AddBytesRetrans (connFlowController f) n) else f)
  end.

Definition fcm_GetBytesRetrans (f : flowControlManager) (streamID : Z) : result Z :=
  fc ← getFlowController f streamID; Ok (bytesRetrans fc).

Definition fcm_SendWindowSize (params : flowParameters) (f : flowControlManager) (streamID : Z)
  : result Z :=
  fc ← getFlowController f streamID;
  let res := fc_SendWindowSize params fc in
  Ok (if contributesToConnection fc
      then MinByteCount res (fc_SendWindowSize params (connFlowController f)) else res).

Definition RemainingConnectionWindowSize (params : flowParameters) (f : flowControlManager) : Z :=
  fc_SendWindowSize params (connFlowController f).

Definition UpdateWindow (f : flowControlManager) (streamID offset : Z)
  : result (bool * flowControlManager) :=
  if streamID =? 0 then
    let '(b, fc) := UpdateSendWindow (connFlowController f) offset in Ok (b, set_conn f fc)
  else
    fc ← getFlowController f streamID;
    let '(b, fc) := UpdateSendWindow fc offset in Ok (b, set_stream f streamID fc).

(** ** Receiving: the accounts of the streams and of the connection *)

(** The sum of [g] over the streams that count towards the connection. *)
Definition share (g : flowController → Z) (fc : flowController) : Z :=
  if contributesToConnection fc then g fc else 0.

Definition total (g : flowController → Z) (m : gmap Z flowController) : Z :=
  map_fold (λ _ fc acc, share g fc + acc) 0 m.

Lemma total_insert g m id fc :
  m !! id = None → total g (<[id := fc]> m) = share g fc + total g m.
Proof. intros Hm. unfold total. rewrite map_fold_insert_L; [done|lia|done]. Qed.

Lemma total_delete g m id fc :
  m !! id = Some fc → total g m = share g fc + total g (delete id m).
Proof. intros Hm. unfold total. rewrite (map_fold_delete_L _ _ id fc); [done|lia|done]. Qed.

Lemma total_update g m id old new :
  m !! id = Some old → total g (<[id := new]> m) = total g m - share g old + share g new.
Proof.
  intros Hm. rewrite (total_delete g m id old Hm), <- insert_delete_eq, total_insert; [lia|].
  apply lookup_delete_eq.
Qed.

(** A controller whose peer respects the window.  The bounds keep the sums away from 2^64: less
    than 2^62 bytes are sent over the connection, and no increment is larger than that. *)
Definition fc_ok (c : flowController) : Prop :=
  0 <= bytesRead c <= highestReceived c ∧ highestReceived c <= receiveWindow c ∧
  highestReceived c < 2^62 ∧ receiveWindow c <= 2^63 ∧
  0 <= receiveWindowIncrement c <= maxReceiveWindowIncrement c ∧
  maxReceiveWindowIncrement c <= 2^62.

Definition manager_inv (f : flowControlManager) (closedHighest closedRead : Z) : Prop :=
  map_Forall (λ _ fc, fc_ok fc) (streamFlowController f) ∧ fc_ok (connFlowController f) ∧
  highestReceived (connFlowController f)
    = closedHighest + total highestReceived (streamFlowController f) ∧
  bytesRead (connFlowController f) = closedRead + total bytesRead (streamFlowController f).

Definition params_ok (params : flowParameters) : Prop :=
  0 <= GetReceiveStreamFlowControlWindow params <= GetMaxReceiveStreamFlowControlWindow params ∧
  0 <= GetReceiveConnectionFlowControlWindow params
    <= GetMaxReceiveConnectionFlowControlWindow params ∧
  GetMaxReceiveStreamFlowControlWindow params <= 2^62 ∧
  GetMaxReceiveConnectionFlowControlWindow params <= 2^62.

Lemma newFlowController_ok params id c : params_ok params → fc_ok (newFlowController params id c).
Proof.
  intros (?&?&?&?). unfold fc_ok, newFlowController. destruct (id =? 0); cbn; lia.
Qed.

Lemma adjust_increment now rtt rr c :
  fc_ok c →
  receiveWindowIncrement c <= maybeAdjustWindowIncrement now rtt rr c <= maxReceiveWindowIncrement c.
Proof.
  intros (?&?&?&?&?&?). unfold maybeAdjustWindowIncrement, MinByteCount.
  rewrite u64_id by (unfold is_u64; lia).
  repeat case_match; zbool; lia.
Qed.

(** What one window update does: the window never shrinks, and afterwards at least half an
    increment is open. *)
Lemma MaybeUpdateWindow_spec now rtt rr c :
  fc_ok c →
  let '(necessary, newInc, offset, c') := MaybeUpdateWindow now rtt rr c in
  fc_ok c' ∧ receiveWindow c <= offset ∧ receiveWindow c' = offset ∧
  (necessary = true → receiveWindow c < offset ∧
     offset = bytesRead c + receiveWindowIncrement c') ∧
  receiveWindowIncrement c' / 2 <= receiveWindow c' - bytesRead c' ∧
  bytesRead c' = bytesRead c ∧ highestReceived c' = highestReceived c ∧
  contributesToConnection c' = contributesToConnection c ∧ 0 <= newInc ∧
  receiveWindowIncrement c <= receiveWindowIncrement c'.
Proof.
  intros Hok. pose proof (adjust_increment now rtt rr c Hok) as Hadj.
  destruct Hok as (?&?&?&?&?&?). unfold MaybeUpdateWindow.
  rewrite (u64_id (receiveWindow c - bytesRead c)) by (unfold is_u64; lia).
  rewrite (u64_id (bytesRead c + _)) by (unfold is_u64; lia).
  destruct (Z.ltb_spec (receiveWindow c - bytesRead c) (receiveWindowIncrement c / 2)).
  - assert (bytesRead c + receiveWindowIncrement c / 2
            <= bytesRead c + maybeAdjustWindowIncrement now rtt rr c) by zwrap.
    unfold fc_ok; cbn. split_and!; try done; try lia; try (by zwrap).
    case_match; lia.
  - unfold fc_ok. split_and!; done || lia.
Qed.

Lemma EnsureMinimum_ok c inc : fc_ok c → fc_ok (EnsureMinimumWindowIncrement c inc).
Proof.
  intros (?&?&?&?&?&?). unfold EnsureMinimumWindowIncrement, MinByteCount.
  repeat case_match; zbool; unfold fc_ok; cbn; lia.
Qed.

Lemma EnsureMinimum_same c inc :
  bytesRead (EnsureMinimumWindowIncrement c inc) = bytesRead c ∧
  highestReceived (EnsureMinimumWindowIncrement c inc) = highestReceived c ∧
  receiveWindow (EnsureMinimumWindowIncrement c inc) = receiveWindow c ∧
  (fc_ok c → receiveWindowIncrement c <= receiveWindowIncrement (EnsureMinimumWindowIncrement c inc)).
Proof.
  unfold EnsureMinimumWindowIncrement. case_match; [|done]. split_and!; try done. cbn. unfold fc_ok, MinByteCount.
  intros (?&?&?&?&?&?). case_match; zbool; lia.
Qed.

(** *** Each operation keeps the accounts *)

Lemma total_same g m id old new :
  m !! id = Some old → share g old = share g new → total g (<[id := new]> m) = total g m.
Proof. intros Hm Hs. rewrite (total_update g m id old new Hm). lia. Qed.

Lemma account_received_inv f ch cr id off old inc fc :
  manager_inv f ch cr → streamFlowController f !! id = Some old →
  0 <= off → highestReceived (connFlowController f) + off < 2^62 →
  (inc, fc) = ((fc_UpdateHighestReceived old off).1.1, (fc_UpdateHighestReceived old off).2) →
  match account_received f id off inc fc with
  | (None, f') => manager_inv f' ch cr
  | (Some _, _) => True
  end.
Proof.
  intros (Hs & Hc & Hh & Hr) Hid Hoff Hmax Hupd. pose proof (Hs id old Hid) as Ho. cbv beta in Ho.
  pose proof Ho as (?&?&?&?&?&?). pose proof Hc as (?&?&?&?&?&?).
  assert (0 <= inc ∧ (highestReceived fc = highestReceived old + inc ∧
    highestReceived fc <= Z.max (highestReceived old) off) ∧ inc <= off ∧
    contributesToConnection fc = contributesToConnection old ∧ bytesRead fc = bytesRead old ∧
    receiveWindow fc = receiveWindow old ∧ receiveWindowIncrement fc = receiveWindowIncrement old ∧
    maxReceiveWindowIncrement fc = maxReceiveWindowIncrement old)
    as (Hi0 & [Hhf Hhm] & Hio & Hcc & Hrr & Hww & Hii & Hmm).
  { unfold fc_UpdateHighestReceived in Hupd. rewrite Z.gtb_ltb in Hupd.
    destruct (Z.eqb_spec off (highestReceived old)), (Z.ltb_spec (highestReceived old) off);
      simplify_eq/=; rewrite ?u64_id by (unfold is_u64; lia); split_and!; try done; lia. }
  unfold account_received, CheckFlowControlViolation. rewrite Z.gtb_ltb.
  destruct (Z.ltb_spec (receiveWindow fc) (highestReceived fc)); [done|].
  assert (fc_ok fc) as Hfc by (unfold fc_ok; lia).
  assert (total bytesRead (<[id:=fc]> (streamFlowController f))
          = total bytesRead (streamFlowController f)) as Htr.
  { apply (total_same _ _ _ old); [done|]. unfold share. by rewrite Hcc, Hrr. }
  destruct (contributesToConnection fc) eqn:Ec.
  - cbn [set_conn set_stream connFlowController streamFlowController].
    unfold IncrementHighestReceived. cbn [set_received highestReceived receiveWindow].
    rewrite u64_id by (unfold is_u64; lia). rewrite Z.gtb_ltb.
    destruct (Z.ltb_spec (receiveWindow (connFlowController f))
      (highestReceived (connFlowController f) + inc)); [done|].
    split_and!; cbn [streamFlowController connFlowController].
    + by apply map_Forall_insert_2.
    + unfold fc_ok; cbn; lia.
    + change (highestReceived (connFlowController f) + inc
        = ch + total highestReceived (<[id:=fc]> (streamFlowController f))).
      rewrite (total_update _ _ _ old) by done. unfold share. rewrite Ec, <- Hcc. lia.
    + change (bytesRead (connFlowController f)
        = cr + total bytesRead (<[id:=fc]> (streamFlowController f))). by rewrite Htr.
  - split_and!; cbn [set_stream streamFlowController connFlowController].
    + by apply map_Forall_insert_2.
    + done.
    + rewrite (total_same _ _ _ old); [done|done|]. unfold share. by rewrite Ec, <- Hcc.
    + by rewrite Htr.
Qed.

(** At least half an increment of the window is beyond what was read; once all that was received has been read, the peer may send it. *)
Definition window_open (c : flowController) : Prop :=
  receiveWindowIncrement c / 2 <= receiveWindow c - bytesRead c ∧
  (bytesRead c = highestReceived c → receiveWindowIncrement c / 2 <= receiveWindow c - highestReceived c).

Lemma window_open_intro c : receiveWindowIncrement c / 2 <= receiveWindow c - bytesRead c → window_open c.
Proof. intros H. split; [done|]. by intros <-. Qed.

(** How a round of updates may change a stream. *)
Definition updated (c c' : flowController) : Prop :=
  receiveWindow c <= receiveWindow c' ∧ receiveWindowIncrement c <= receiveWindowIncrement c' ∧ (window_open c → window_open c').

Lemma update_stream_inv f ch cr id fc fc1 conn' :
  manager_inv f ch cr → streamFlowController f !! id = Some fc → fc_ok fc1 → fc_ok conn' →
  bytesRead fc1 = bytesRead fc → highestReceived fc1 = highestReceived fc →
  contributesToConnection fc1 = contributesToConnection fc →
  bytesRead conn' = bytesRead (connFlowController f) →
  highestReceived conn' = highestReceived (connFlowController f) →
  manager_inv (mkManager (<[id:=fc1]> (streamFlowController f)) conn') ch cr.
Proof.
  intros (Hs & Hc & Hh & Hr) Hid Hok1 Hokc Hread Hhigh Hcon Hcr Hch.
  split_and!; cbn [streamFlowController connFlowController]; [by apply map_Forall_insert_2|done|..].
  - rewrite Hch, (total_same _ _ _ fc); [done|done|]. unfold share. by rewrite Hcon, Hhigh.
  - rewrite Hcr, (total_same _ _ _ fc); [done|done|]. unfold share. by rewrite Hcon, Hread.
Qed.

Lemma set_conn_inv f ch cr conn' :
  manager_inv f ch cr → fc_ok conn' → bytesRead conn' = bytesRead (connFlowController f) →
  highestReceived conn' = highestReceived (connFlowController f) →
  manager_inv (set_conn f conn') ch cr.
Proof. intros (Hs & Hc & Hh & Hr) Hok Hb Hh'. unfold manager_inv. cbn. by rewrite Hb, Hh'. Qed.

(** What a round over the streams [ids] does. *)
Definition round_ok (ids : list Z) (ch cr : Z) (f f' : flowControlManager) : Prop :=
  manager_inv f' ch cr ∧ receiveWindow (connFlowController f') = receiveWindow (connFlowController f) ∧
  receiveWindowIncrement (connFlowController f) <= receiveWindowIncrement (connFlowController f') ∧
  (∀ id fc, streamFlowController f !! id = Some fc →
     ∃ fc', streamFlowController f' !! id = Some fc' ∧ updated fc fc' ∧
       (id ∈ ids → window_open fc')).

(** One visit, before a round over the others. *)
Lemma round_visit id ids ch cr f f' fc fc1 conn :
  streamFlowController f !! id = Some fc → receiveWindow fc <= receiveWindow fc1 →
  receiveWindowIncrement fc <= receiveWindowIncrement fc1 → window_open fc1 →
  receiveWindow conn = receiveWindow (connFlowController f) →
  receiveWindowIncrement (connFlowController f) <= receiveWindowIncrement conn →
  round_ok ids ch cr (mkManager (<[id:=fc1]> (streamFlowController f)) conn) f' → round_ok (id :: ids) ch cr f f'.
Proof.
  intros Eid Hw1 Hi1 Ho1 Hw' Hi' (Hi & Hcw & Hci & Hws). cbn [connFlowController streamFlowController] in *.
  split_and!; [done|by rewrite Hcw|by etransitivity|].
  intros id0 fc0 Hid0. destruct (decide (id0 = id)) as [->|Hne].
  - rewrite Eid in Hid0. injection Hid0 as <-.
    destruct (Hws id fc1) as (fc' & ? & (? & ? & Hop) & _); [apply lookup_insert_eq|].
    exists fc'. split; [done|]. split; [split_and!; [lia|lia|auto]|auto].
  - destruct (Hws id0 fc0) as (fc' & ? & ? & Hop); [by rewrite lookup_insert_ne|].
    exists fc'. split; [done|]. split; [done|]. intros [?|?]%elem_of_cons; [done|auto].
Qed.

Lemma stream_updates_inv now rtt rr force ids f ch cr :
  manager_inv f ch cr → round_ok ids ch cr f (stream_updates now rtt rr force ids f).2.
Proof.
  revert f. induction ids as [|id ids IH]; intros f Hinv; cbn [stream_updates].
  { split_and!; [done|done|done|]. intros id fc Hid. exists fc. split; [done|]. split; [split_and!; done|set_solver]. }
  destruct (streamFlowController f !! id) as [fc|] eqn:Eid.
  2:{ destruct (IH f Hinv) as (? & ? & ? & Hw). split_and!; [done|done|done|]. intros id' fc' Hid'.
      destruct (Hw id' fc' Hid') as (fc'' & ? & ? & Hopen). exists fc''. split; [done|]. split; [done|].
      intros [->|?]%elem_of_cons; [congruence|auto]. }
  pose proof Hinv as (Hs & Hc & _). pose proof (Hs id fc Eid) as Hok.
  pose proof (MaybeUpdateWindow_spec now rtt rr fc Hok) as Hspec.
  destruct (MaybeUpdateWindow now rtt rr fc) as [[[nec newInc] off] fc1].
  destruct Hspec as (Hok1 & Hmono & Hoff & _ & Hopen1 & Hread & Hhigh & Hcon & _ & Hinc). apply window_open_intro in Hopen1.
  assert (∀ conn', fc_ok conn' → bytesRead conn' = bytesRead (connFlowController f) →
    highestReceived conn' = highestReceived (connFlowController f) →
    receiveWindow conn' = receiveWindow (connFlowController f) →
    receiveWindowIncrement (connFlowController f) <= receiveWindowIncrement conn' →
    round_ok (id :: ids) ch cr f (stream_updates now rtt rr force ids
                 (mkManager (<[id:=fc1]> (streamFlowController f)) conn')).2) as Hrest.
  { intros conn' Hc' Hb' Hh' Hw' Hi'. apply (round_visit id ids ch cr f _ fc fc1 conn'); [done|lia|done|done|done|done|].
    apply IH. by eapply update_stream_inv. }
  unfold set_stream, set_conn. cbn [streamFlowController connFlowController].
  destruct (force || nec); [|by apply Hrest].
  destruct (contributesToConnection fc1 && negb (newInc =? 0)).
  - destruct (EnsureMinimum_same (connFlowController f) (connection_increment newInc)) as (?&?&?&?).
    specialize (Hrest (EnsureMinimumWindowIncrement (connFlowController f)
      (connection_increment newInc)) (EnsureMinimum_ok _ _ Hc)).
    destruct (stream_updates _ _ _ _ ids _) as [res f']. apply Hrest; auto.
  - specialize (Hrest (connFlowController f) Hc).
    destruct (stream_updates _ _ _ _ ids _) as [res f']. by apply Hrest.
Qed.

Lemma stream_updates_other now rtt rr force ids f id :
  id ∉ ids →
  streamFlowController (stream_updates now rtt rr force ids f).2 !! id
  = streamFlowController f !! id.
Proof.
  revert f. induction ids as [|id' ids IH]; intros f Hid; cbn [stream_updates]; [done|].
  apply not_elem_of_cons in Hid as [Hne Hid].
  destruct (streamFlowController f !! id') as [fc|]; [|by apply IH].
  destruct (MaybeUpdateWindow now rtt rr fc) as [[[nec newInc] off] fc1].
  assert (∀ conn, streamFlowController
      (stream_updates now rtt rr force ids
         (mkManager (<[id':=fc1]> (streamFlowController f)) conn)).2 !! id
      = streamFlowController f !! id) as H.
  { intros conn. rewrite IH by done. cbn. by rewrite lookup_insert_ne. }
  unfold set_stream, set_conn. cbn [streamFlowController connFlowController].
  destruct (force || nec); [|apply H]. destruct (contributesToConnection fc1 && _).
  - specialize (H (EnsureMinimumWindowIncrement (connFlowController f) (connection_increment newInc))).
    by destruct (stream_updates _ _ _ _ ids _).
  - specialize (H (connFlowController f)). by destruct (stream_updates _ _ _ _ ids _).
Qed.

(** The updates [res] announce windows of the streams [ids] only, with their values in [m'], and
    every window that differs from [m]. *)
Definition announced (ids : list Z) (res : list WindowUpdate) (m m' : gmap Z flowController) : Prop :=
  (∀ u, u ∈ res → wup_StreamID u ∈ ids ∧
     ∃ fc', m' !! wup_StreamID u = Some fc' ∧ receiveWindow fc' = wup_Offset u) ∧
  (∀ id fc fc', m !! id = Some fc → m' !! id = Some fc' →
     receiveWindow fc <> receiveWindow fc' → mkWindowUpdate id (receiveWindow fc') ∈ res).

Lemma announced_weaken id ids res m m' : announced ids res m m' → announced (id :: ids) res m m'.
Proof.
  intros [H1 H2]. split; [|done]. intros u Hu. destruct (H1 u Hu). split; [set_solver|done].
Qed.

(** Stream [id] was visited first and not since: its window is announced unless it is the same. *)
Lemma announced_visit id ids res m m' fc fc1 :
  announced ids res (<[id:=fc1]> m) m' → m !! id = Some fc → m' !! id = Some fc1 →
  (receiveWindow fc = receiveWindow fc1 → announced (id :: ids) res m m') ∧
  announced (id :: ids) (mkWindowUpdate id (receiveWindow fc1) :: res) m m'.
Proof.
  intros [H1 H2] Hid Hid'.
  assert (∀ id0 fc0 fc', id0 <> id → m !! id0 = Some fc0 → m' !! id0 = Some fc' →
    receiveWindow fc0 <> receiveWindow fc' → mkWindowUpdate id0 (receiveWindow fc') ∈ res) as H2'.
  { intros id0 fc0 fc' Hne Hid0. apply H2. by rewrite lookup_insert_ne. }
  split; [intros Heq|]; (split; [|intros id0 fc0 fc' H0 H0' Hw; destruct (decide (id0 = id)) as [->|]]).
  - intros u Hu. destruct (H1 u Hu). split; [set_solver|done].
  - congruence.
  - by eapply H2'.
  - intros u [->|Hu]%elem_of_cons; [cbn; split; [set_solver|eauto]|].
    destruct (H1 u Hu). split; [set_solver|done].
  - simplify_eq. set_solver.
  - apply elem_of_cons. right. by eapply H2'.
Qed.

(** The updates announce exactly the new windows, and every window that has changed. *)
Lemma stream_updates_announced now rtt rr force ids f ch cr :
  NoDup ids → manager_inv f ch cr →
  let '(res, f') := stream_updates now rtt rr force ids f in
  announced ids res (streamFlowController f) (streamFlowController f').
Proof.
  intros Hnd. revert f. induction Hnd as [|id ids Hid Hnd IH]; intros f Hinv; cbn [stream_updates].
  { split; [set_solver|]. intros. congruence. }
  destruct (streamFlowController f !! id) as [fc|] eqn:Eid.
  2:{ specialize (IH f Hinv). destruct (stream_updates now rtt rr force ids f) as [res f'].
      by apply announced_weaken. }
  pose proof Hinv as (Hs & Hc & _). pose proof (Hs id fc Eid) as Hok.
  pose proof (MaybeUpdateWindow_spec now rtt rr fc Hok) as Hspec.
  destruct (MaybeUpdateWindow now rtt rr fc) as [[[nec newInc] off] fc1] eqn:Emu.
  destruct Hspec as (Hok1 & _ & Hoff & _ & _ & Hread & Hhigh & Hcon & _).
  assert (∀ conn', fc_ok conn' → bytesRead conn' = bytesRead (connFlowController f) →
    highestReceived conn' = highestReceived (connFlowController f) →
    let '(res, f') := stream_updates now rtt rr force ids
                 (mkManager (<[id:=fc1]> (streamFlowController f)) conn') in
    (receiveWindow fc = receiveWindow fc1 →
       announced (id :: ids) res (streamFlowController f) (streamFlowController f')) ∧
    announced (id :: ids) (mkWindowUpdate id off :: res)
      (streamFlowController f) (streamFlowController f')) as Hrest.
  { intros conn' Hc' Hb' Hh'. set (g := mkManager _ conn').
    specialize (IH g ltac:(by eapply update_stream_inv)).
    pose proof (stream_updates_other now rtt rr force ids g id Hid) as Ho.
    destruct (stream_updates _ _ _ _ ids _) as [res f']. cbn [snd g streamFlowController] in Ho, IH.
    rewrite lookup_insert_eq in Ho. rewrite <- Hoff. by apply (announced_visit _ _ _ _ _ fc). }
  unfold set_stream, set_conn. cbn [streamFlowController connFlowController].
  assert (force || nec = false → receiveWindow fc = receiveWindow fc1) as Hsame.
  { unfold MaybeUpdateWindow in Emu. destruct (_ <? _); simplify_eq; [|done].
    by rewrite orb_true_r. }
  destruct (EnsureMinimum_same (connFlowController f) (connection_increment newInc)) as (?&?&?).
  destruct (force || nec); [destruct (contributesToConnection fc1 && negb (newInc =? 0))|].
  - specialize (Hrest _ (EnsureMinimum_ok (connFlowController f) (connection_increment newInc) Hc)
      ltac:(done) ltac:(done)).
    destruct (stream_updates _ _ _ _ ids _). apply Hrest.
  - specialize (Hrest _ Hc eq_refl eq_refl). destruct (stream_updates _ _ _ _ ids _). apply Hrest.
  - specialize (Hrest _ Hc eq_refl eq_refl). destruct (stream_updates _ _ _ _ ids _).
    by apply Hrest, Hsame.
Qed.

(** ** Event sequences *)

Inductive flow_event : Type :=
| FNew (id : Z) (contributes : bool)
| FRemove (id : Z)
| FReceived (id off : Z)
| FReset (id off : Z)
| FRead (now id n : Z)
| FUpdates (now rtt : Z) (remoteRTTs : list Z) (force : bool) (ids : list Z).

(** The session beside the accounts of the streams already removed; no result after an error,
    which closes the connection. *)
Definition flow_step (params : flowParameters) (st : flowControlManager * Z * Z) (ev : flow_event)
  : option (flowControlManager * Z * Z) :=
  let '(f, ch, cr) := st in
  let keep r := match r with (None, f') => Some (f', ch, cr) | (Some _, _) => None end in
  match ev with
  | FNew id c => Some (fcm_NewStream params f id c, ch, cr)
  | FRemove id =>
      let '(h, r) := match streamFlowController f !! id with
                     | Some fc => (share highestReceived fc, share bytesRead fc)
                     | None => (0, 0)
                     end in
      Some (RemoveStream f id, ch + h, cr + r)
  | FReceived id off => keep (fcm_UpdateHighestReceived f id off)
  | FReset id off => keep (ResetStream f id off)
  | FRead now id n => keep (fcm_AddBytesRead now f id n)
  | FUpdates now rtt rr force ids => Some ((GetWindowUpdates now rtt rr force ids f).2, ch, cr)
  end.

(** Offsets stay below 2^62 in total, and a stream reads only what it has received: that the streams of a session do so is
    shown in Receiving, where runs of streams and manager together give such runs. *)
Definition flow_event_ok (f : flowControlManager) (ev : flow_event) : Prop :=
  match ev with
  | FReceived _ off | FReset _ off =>
      0 <= off ∧ highestReceived (connFlowController f) + off < 2^62
  | FRead _ id n =>
      0 <= n ∧ ∀ fc, streamFlowController f !! id = Some fc → bytesRead fc + n <= highestReceived fc
  | _ => True
  end.

Inductive flow_run (params : flowParameters) : flowControlManager * Z * Z → Prop :=
| flow_start : flow_run params (NewFlowControlManager params, 0, 0)
| flow_next st ev st' :
    flow_run params st → flow_event_ok st.1.1 ev → flow_step params st ev = Some st' →
    flow_run params st'.

Lemma total_nonneg m : map_Forall (λ _ fc, fc_ok fc) m → total bytesRead m <= total highestReceived m.
Proof.
  induction m as [|id fc m Hid IH] using map_ind; intros Hm; [done|].
  rewrite !total_insert by done. apply map_Forall_insert in Hm as [(?&?) Hm]; [|done].
  specialize (IH Hm). unfold share. destruct (contributesToConnection fc); lia.
Qed.

Lemma NewStream_inv params f id c ch cr :
  params_ok params → manager_inv f ch cr → manager_inv (fcm_NewStream params f id c) ch cr.
Proof.
  intros Hp (Hs & Hc & Hh & Hr). unfold fcm_NewStream.
  destruct (streamFlowController f !! id) eqn:E; [done|].
  pose proof (newFlowController_ok params id c Hp) as Hok.
  assert (∀ g, g = highestReceived ∨ g = bytesRead → share g (newFlowController params id c) = 0) as Hz.
  { intros g [-> | ->]; unfold share, newFlowController; destruct (id =? 0), c; done. }
  split_and!; cbn [streamFlowController connFlowController];
    [by apply map_Forall_insert_2|done|rewrite total_insert, Hz by auto; lia..].
Qed.

Lemma RemoveStream_inv f id fc ch cr :
  manager_inv f ch cr → streamFlowController f !! id = Some fc →
  manager_inv (RemoveStream f id) (ch + share highestReceived fc) (cr + share bytesRead fc).
Proof.
  intros (Hs & Hc & Hh & Hr) E.
  split_and!; cbn [RemoveStream streamFlowController connFlowController];
    [by apply map_Forall_delete|done|..].
  - rewrite Hh, (total_delete highestReceived _ id fc E). lia.
  - rewrite Hr, (total_delete bytesRead _ id fc E). lia.
Qed.

Lemma AddBytesRead_inv now f f' id n fc ch cr :
  manager_inv f ch cr → cr <= ch → streamFlowController f !! id = Some fc →
  0 <= n → bytesRead fc + n <= highestReceived fc →
  fcm_AddBytesRead now f id n = (None, f') → manager_inv f' ch cr.
Proof.
  intros (Hs & Hc & Hh & Hr) Hle E Hn Hread Hstep. unfold fcm_AddBytesRead in Hstep. rewrite E in Hstep.
  pose proof (Hs id fc E) as (?&?&?&?&?&?). pose proof Hc as (?&?&?&?&?&?).
  pose proof (total_nonneg _ Hs) as Htot.
  set (fc1 := fc_AddBytesRead now fc n) in *.
  assert (bytesRead fc1 = bytesRead fc + n) as Hb1.
  { unfold fc1, fc_AddBytesRead. cbn. apply u64_id. unfold is_u64. lia. }
  assert (fc_ok fc1) as Hok1.
  { unfold fc_ok. rewrite Hb1. unfold fc1, fc_AddBytesRead. cbn. lia. }
  assert (map_Forall (λ _ fc, fc_ok fc) (<[id:=fc1]> (streamFlowController f))) as Hs1
    by (by apply map_Forall_insert_2).
  assert (total highestReceived (<[id:=fc1]> (streamFlowController f))
          = total highestReceived (streamFlowController f)) as Hth
    by (by apply (total_same _ _ _ fc)).
  pose proof (total_update bytesRead (streamFlowController f) id fc fc1 E) as Htr.
  pose proof (total_nonneg _ Hs1) as Htot1. unfold share in Htr.
  change (contributesToConnection fc1) with (contributesToConnection fc) in Htr.
  destruct (contributesToConnection fc) eqn:Ec; injection Hstep as <-; split_and!;
    cbn [set_stream set_conn streamFlowController connFlowController]; try done.
  - unfold fc_ok, fc_AddBytesRead. cbn. rewrite u64_id by (unfold is_u64; lia). lia.
  - rewrite Hth. done.
  - rewrite Htr. unfold fc_AddBytesRead at 1. cbn [set_received bytesRead].
    change (bytesRead (connFlowController f) +u64 n = cr + (total bytesRead (streamFlowController f)
      - bytesRead fc + bytesRead fc1)). rewrite u64_id by (unfold is_u64; lia). lia.
  - by rewrite Hth.
  - rewrite Htr. lia.
Qed.

Lemma GetWindowUpdates_inv now rtt rr force ids f ch cr :
  manager_inv f ch cr → manager_inv (GetWindowUpdates now rtt rr force ids f).2 ch cr.
Proof.
  intros Hinv. unfold GetWindowUpdates.
  pose proof (stream_updates_inv now rtt rr force ids f ch cr Hinv) as (Hi & _ & _).
  destruct (stream_updates now rtt rr force ids f) as [res f']. cbn [snd] in Hi.
  pose proof Hi as (_ & Hc' & _).
  pose proof (MaybeUpdateWindow_spec now rtt rr (connFlowController f') Hc') as Hspec.
  destruct (MaybeUpdateWindow now rtt rr (connFlowController f')) as [[[nec newInc] off] c1].
  destruct Hspec as (Hok1 & _ & _ & _ & _ & Hread & Hhigh & _). by apply set_conn_inv.
Qed.

Lemma flow_step_inv params f ch cr ev st' :
  params_ok params → manager_inv f ch cr ∧ cr <= ch → flow_event_ok f ev →
  flow_step params (f, ch, cr) ev = Some st' →
  manager_inv st'.1.1 st'.1.2 st'.2 ∧ st'.2 <= st'.1.2.
Proof.
  intros Hp [Hinv Hle] Hev Hstep. pose proof Hinv as (Hs & Hc & Hh & Hr).
  destruct ev as [id c|id|id off|id off|now id n|now rtt rr force ids]; cbn [flow_step] in Hstep.
  - injection Hstep as <-. split; [by apply NewStream_inv|done].
  - destruct (streamFlowController f !! id) as [fc|] eqn:E; injection Hstep as <-; cbn [fst snd].
    + split; [by apply RemoveStream_inv|]. pose proof (Hs id fc E) as (?&?).
      unfold share. destruct (contributesToConnection fc); lia.
    + split; [|lia]. unfold RemoveStream. rewrite delete_id by done.
      split_and!; cbn [streamFlowController connFlowController]; [done|done|lia|lia].
  - destruct Hev as [Ho Hm]. unfold fcm_UpdateHighestReceived in Hstep.
    destruct (streamFlowController f !! id) as [fc|] eqn:E; [|done].
    destruct (fc_UpdateHighestReceived fc off) as [[inc e] fc'] eqn:Eu.
    pose proof (account_received_inv f ch cr id off fc inc fc' Hinv E Ho Hm ltac:(by rewrite Eu)) as H.
    destruct (account_received f id off inc fc') as [[e'|] f']; simplify_eq. done.
  - destruct Hev as [Ho Hm]. unfold ResetStream in Hstep.
    destruct (streamFlowController f !! id) as [fc|] eqn:E; [|done].
    destruct (fc_UpdateHighestReceived fc off) as [[inc [e|]] fc'] eqn:Eu; [done|].
    pose proof (account_received_inv f ch cr id off fc inc fc' Hinv E Ho Hm ltac:(by rewrite Eu)) as H.
    destruct (account_received f id off inc fc') as [[e'|] f']; simplify_eq. done.
  - destruct Hev as [Hn Hread].
    destruct (fcm_AddBytesRead now f id n) as [[e|] f'] eqn:E; [done|]. injection Hstep as <-.
    split; [|done]. destruct (streamFlowController f !! id) as [fc|] eqn:Ef.
    + by eapply AddBytesRead_inv; eauto.
    + unfold fcm_AddBytesRead in E. by rewrite Ef in E.
  - injection Hstep as <-. split; [by apply GetWindowUpdates_inv|done].
Qed.

Lemma GetReceiveWindow_stream (f : flowControlManager) (id : Z) (fc : flowController) :
  id <> 0 → streamFlowController f !! id = Some fc →
  GetReceiveWindow f id = Ok (receiveWindow fc).
Proof.
  intros Hid Hl. unfold GetReceiveWindow, getFlowController.
  destruct (Z.eqb_spec id 0); [done|]. by rewrite Hl.
Qed.

Definition counts (fc : flowController) : Z * Z := (bytesRead fc, highestReceived fc).

Lemma stream_updates_counts now rtt rr force ids f id :
  counts <$> streamFlowController (stream_updates now rtt rr force ids f).2 !! id = counts <$> streamFlowController f !! id.
Proof.
  revert f. induction ids as [|id' ids IH]; intros f; cbn [stream_updates]; [done|].
  destruct (streamFlowController f !! id') as [fc|] eqn:E; [|apply IH].
  assert (counts (MaybeUpdateWindow now rtt rr fc).2 = counts fc) as Hc by (unfold MaybeUpdateWindow; by destruct (_ <? _)).
  destruct (MaybeUpdateWindow now rtt rr fc) as [[[nec inc] off] fc1]. cbn [snd] in Hc.
  assert (counts <$> streamFlowController (set_stream f id' fc1) !! id = counts <$> streamFlowController f !! id) as Hs.
  { cbn [set_stream streamFlowController]. destruct (decide (id = id')) as [->|]; [|by rewrite lookup_insert_ne].
    rewrite lookup_insert_eq, E. cbn. by rewrite Hc. }
  destruct (force || nec); [|by rewrite IH].
  set (g := if contributesToConnection fc1 && _ then _ else _). specialize (IH g).
  destruct (stream_updates now rtt rr force ids g) as [res f']. cbn [snd] in *. rewrite IH, <- Hs.
  unfold g. by destruct (_ && _).
Qed.

(** Nor do the updates of the streams change the accounts of the connection. *)
Lemma stream_updates_conn now rtt rr force ids f :
  counts (connFlowController (stream_updates now rtt rr force ids f).2) = counts (connFlowController f).
Proof.
  revert f. induction ids as [|id' ids IH]; intros f; cbn [stream_updates]; [done|].
  destruct (streamFlowController f !! id') as [fc|] eqn:E; [|apply IH].
  destruct (MaybeUpdateWindow now rtt rr fc) as [[[nec inc] off] fc1].
  destruct (force || nec); [|by rewrite IH].
  set (g := if contributesToConnection fc1 && _ then _ else _). specialize (IH g).
  destruct (stream_updates now rtt rr force ids g) as [res f']. cbn [snd] in *. rewrite IH.
  unfold g. destruct (_ && _); [|done]. cbn. unfold EnsureMinimumWindowIncrement. by destruct (_ >? _).
Qed.

(** A window that has not moved back: the accounts are the same, the increment is not lower. *)
Definition moved_forward (c c' : flowController) : Prop :=
  counts c' = counts c ∧ receiveWindow c <= receiveWindow c' ∧ receiveWindowIncrement c <= receiveWindowIncrement c'.

Lemma updates_counts now rtt rr force ids f id :
  counts <$> streamFlowController (GetWindowUpdates now rtt rr force ids f).2 !! id = counts <$> streamFlowController f !! id.
Proof.
  rewrite <- (stream_updates_counts now rtt rr force ids f id). unfold GetWindowUpdates.
  destruct (stream_updates _ _ _ _ _ _) as [res f']. by destruct (MaybeUpdateWindow _ _ _ _) as [[[nec inc] off] c].
Qed.

(** ** Properties *)

(** The accounts after any events. *)
Lemma flow_run_inv params f ch cr : params_ok params → flow_run params (f, ch, cr) → manager_inv f ch cr ∧ cr <= ch.
Proof.
  intros Hp Hrun. enough (∀ st, flow_run params st → manager_inv st.1.1 st.1.2 st.2 ∧ st.2 <= st.1.2) as H
    by (by apply (H (f, ch, cr))).
  clear Hrun. induction 1 as [|[[f0 ch0] cr0] ev st' _ IH Hev Hstep].
  - split; [|done]. split_and!; [apply map_Forall_empty|by apply newFlowController_ok|done|done].
  - by eapply flow_step_inv.
Qed.

Definition sample_params : flowParameters := mkFlowParameters 1000 1500 1000 2000 1500 3000.

(** C36: a round of window updates, in any state with the accounts of streams and connection in order, changes no account; it
    only ever moves windows forward, and announces every window that moved, with its new value, and no other value; it
    never lowers an increment.  On every stream it visits and on the connection it leaves at least half an increment of the window beyond what was
    read.  So once the application has read everything received, the peer may send at least half an increment more, even if it had
    used up the window. *)
Theorem window_updates_open (now rtt : Z) (rr : list Z) (force : bool) (ids : list Z)
    (f : flowControlManager) (ch cr : Z) :
  manager_inv f ch cr → NoDup ids → 0 ∉ ids →
  let '(res, f') := GetWindowUpdates now rtt rr force ids f in
  manager_inv f' ch cr ∧
  moved_forward (connFlowController f) (connFlowController f') ∧ window_open (connFlowController f') ∧
  (∀ id fc, streamFlowController f !! id = Some fc →
     ∃ fc', streamFlowController f' !! id = Some fc' ∧ moved_forward fc fc' ∧
       (id ∈ ids → window_open fc') ∧
       (receiveWindow fc <> receiveWindow fc' → mkWindowUpdate id (receiveWindow fc') ∈ res)) ∧
  (receiveWindow (connFlowController f) <> receiveWindow (connFlowController f') →
     mkWindowUpdate 0 (receiveWindow (connFlowController f')) ∈ res) ∧
  (∀ u, u ∈ res → GetReceiveWindow f' (wup_StreamID u) = Ok (wup_Offset u)).
Proof.
  intros Hinv Hnd H0. pose proof (updates_counts now rtt rr force ids f) as Hcounts. unfold GetWindowUpdates in *.
  pose proof (stream_updates_inv now rtt rr force ids f ch cr Hinv) as (Hi & Hcw & Hci & Hws).
  pose proof (stream_updates_announced now rtt rr force ids f ch cr Hnd Hinv) as Hann.
  pose proof (stream_updates_conn now rtt rr force ids f) as Hcc.
  destruct (stream_updates now rtt rr force ids f) as [res f']. cbn [snd] in *.
  destruct Hann as [Ha1 Ha2]. pose proof Hi as (Hs' & Hc' & Hh' & Hr').
  pose proof (MaybeUpdateWindow_spec now rtt rr (connFlowController f') Hc') as Hspec.
  destruct (MaybeUpdateWindow now rtt rr (connFlowController f')) as [[[nec newInc] off] c1] eqn:Emu.
  destruct Hspec as (Hok1 & Hmono & Hoff & _ & Hopen & Hread & Hhigh & _ & _ & Hinc).
  cbn [set_conn streamFlowController connFlowController snd] in *.
  assert (∀ u, u ∈ res → u ∈ (if force || nec then res ++ [mkWindowUpdate 0 off] else res)) as Hincl
    by (intros u Hu; destruct (force || nec); set_solver).
  split; [by apply set_conn_inv|]. split; [|split; [by apply window_open_intro|split; [|split]]].
  - split; [unfold counts in *; congruence|lia].
  - intros id fc Hid. destruct (Hws id fc Hid) as (fc' & Hid' & (Hw & Hi' & _) & Hop).
    specialize (Hcounts id). rewrite Hid, Hid' in Hcounts. injection Hcounts as E1 E2.
    exists fc'. split; [done|]. split; [split; [unfold counts; congruence|lia]|]. split; [done|].
    intros Hne. apply Hincl. by eapply Ha2.
  - intros Hne. assert (force || nec = true) as ->; [|rewrite Hoff; set_solver].
    unfold MaybeUpdateWindow in Emu. destruct (_ <? _).
    + injection Emu as <- _ _ _. by rewrite orb_true_r.
    + injection Emu as _ _ _ <-. by rewrite Hcw in Hne.
  - intros u Hu. assert (u ∈ res ∨ u = mkWindowUpdate 0 off) as [Hu' | ->]
      by (destruct (force || nec); set_solver).
    + destruct (Ha1 u Hu') as [Hin (fc' & Hid' & <-)].
      apply GetReceiveWindow_stream; [|exact Hid']. intros E. by rewrite E in Hin.
    + unfold GetReceiveWindow. cbn. by rewrite Hoff.
Qed.

(** The peer has used up the window of a stream, and the application has read it all. *)
Definition sample_used_up : flowControlManager :=
  let f := fcm_NewStream sample_params (NewFlowControlManager sample_params) 5 true in
  (fcm_AddBytesRead 50 (fcm_UpdateHighestReceived f 5 1000).2 5 1000).2.

Lemma sample_used_up_inv : manager_inv sample_used_up 0 0.
Proof.
  assert (params_ok sample_params) as Hp by (unfold params_ok, sample_params; cbn; lia).
  enough (flow_run sample_params (sample_used_up, 0, 0)) as Hrun by (by apply flow_run_inv in Hrun as [? _]).
  set (f := fcm_NewStream sample_params (NewFlowControlManager sample_params) 5 true).
  apply (flow_next _ ((fcm_UpdateHighestReceived f 5 1000).2, 0, 0) (FRead 50 5 1000)); [| |vm_compute; reflexivity].
  - apply (flow_next _ (f, 0, 0) (FReceived 5 1000)); [|vm_compute; repeat split; congruence|vm_compute; reflexivity].
    apply (flow_next _ (NewFlowControlManager sample_params, 0, 0) (FNew 5 true)); [apply flow_start|exact I|reflexivity].
  - split; [lia|]. intros fc Hfc. vm_compute in Hfc. injection Hfc as <-. vm_compute. congruence.
Qed.

Lemma window_updates_open_witness :
  let '(res, f') := GetWindowUpdates 100 0 [] false [5] sample_used_up in
  (receiveWindow <$> streamFlowController sample_used_up !! 5) = Some 1000 ∧
  (receiveWindow <$> streamFlowController f' !! 5) = Some 2000 ∧
  moved_forward (connFlowController sample_used_up) (connFlowController f') ∧
  (∃ fc', streamFlowController f' !! 5 = Some fc' ∧ 500 <= receiveWindow fc' - highestReceived fc' ∧
     mkWindowUpdate 5 (receiveWindow fc') ∈ res).
Proof.
  pose proof (window_updates_open 100 0 [] false [5] sample_used_up 0 0 sample_used_up_inv
    (NoDup_singleton 5) ltac:(set_solver)) as H.
  destruct (GetWindowUpdates 100 0 [] false [5] sample_used_up) as [res f'] eqn:E.
  destruct H as (_ & Hm & _ & Hs & _). split; [reflexivity|]. split; [vm_compute in E; injection E as _ <-; reflexivity|].
  split; [exact Hm|]. destruct (Hs 5 _ eq_refl) as (fc' & Hl & (Hc & Hw & Hi) & Hop & Hann). exists fc'. split; [exact Hl|].
  destruct (Hop ltac:(set_solver)) as [Ho1 Ho2]. injection Hc as Er Eh.
  assert (receiveWindow fc' = 2000) as Hw' by (vm_compute in E; injection E as _ <-; vm_compute in Hl; by injection Hl as <-).
  split; [cbn in Eh; lia|]. apply Hann. rewrite Hw'. vm_compute. congruence.
Defined.

(** Sending at most [SendWindowSize] bytes never exceeds a window the peer has granted, neither
    the stream's nor, for a stream that counts towards it, the connection's. *)
Theorem send_within_windows (params : flowParameters) (f f' : flowControlManager)
    (fc : flowController) (id w n : Z) :
  streamFlowController f !! id = Some fc → fcm_SendWindowSize params f id = Ok w →
  0 <= bytesSent fc → 0 <= bytesSent (connFlowController f) →
  getSendWindow params fc < 2^64 → getSendWindow params (connFlowController f) < 2^64 →
  0 < n <= w → fcm_AddBytesSent f id n = (None, f') →
  ∃ fc', streamFlowController f' !! id = Some fc' ∧ bytesSent fc' = bytesSent fc + n ∧
    bytesSent fc' <= getSendWindow params fc' ∧
    (contributesToConnection fc = true →
       bytesSent (connFlowController f') = bytesSent (connFlowController f) + n ∧
       bytesSent (connFlowController f') <= getSendWindow params (connFlowController f')).
Proof.
  intros Hid Hw Hs Hc Hm Hmc Hn Hadd. unfold fcm_SendWindowSize, getFlowController in Hw.
  unfold fcm_AddBytesSent in Hadd. rewrite Hid in Hw, Hadd. cbn [mbind result_bind] in Hw.
  injection Hw as Hw. injection Hadd as <-.
  assert (∀ c, 0 <= bytesSent c → getSendWindow params c < 2^64 → n <= fc_SendWindowSize params c →
    bytesSent (fc_AddBytesSent c n) = bytesSent c + n ∧
    bytesSent (fc_AddBytesSent c n) <= getSendWindow params (fc_AddBytesSent c n)) as Hstep.
  { intros c Hb Hwin. unfold fc_SendWindowSize. rewrite Z.gtb_ltb.
    destruct (Z.ltb_spec (getSendWindow params c) (bytesSent c)); [lia|].
    rewrite u64_id by (unfold is_u64; lia). intros Hle. unfold fc_AddBytesSent at 1 2.
    cbn [set_sent bytesSent]. rewrite u64_id by (unfold is_u64; lia). split; [done|].
    change (getSendWindow params (fc_AddBytesSent c n)) with (getSendWindow params c). lia. }
  exists (fc_AddBytesSent fc n). unfold MinByteCount in Hw.
  destruct (contributesToConnection fc) eqn:Ec; cbn [set_conn set_stream streamFlowController connFlowController];
    rewrite lookup_insert_eq.
  - assert (n <= fc_SendWindowSize params fc ∧ n <= fc_SendWindowSize params (connFlowController f))
      as [Hn1 Hn2].
    { destruct (Z.ltb_spec (fc_SendWindowSize params fc)
        (fc_SendWindowSize params (connFlowController f))); lia. }
    destruct (Hstep fc Hs Hm Hn1), (Hstep _ Hc Hmc Hn2). split_and!; done.
  - destruct (Hstep fc Hs Hm ltac:(lia)). split_and!; done.
Qed.

Lemma send_within_windows_witness :
  let f := fcm_NewStream sample_params (NewFlowControlManager sample_params) 3 true in
  ∃ fc', streamFlowController (fcm_AddBytesSent f 3 1000).2 !! 3 = Some fc' ∧ bytesSent fc' = 1000 ∧
    bytesSent fc' <= getSendWindow sample_params fc'.
Proof.
  destruct (send_within_windows sample_params
    (fcm_NewStream sample_params (NewFlowControlManager sample_params) 3 true)
    (fcm_AddBytesSent
       (fcm_NewStream sample_params (NewFlowControlManager sample_params) 3 true) 3 1000).2
    (newFlowController sample_params 3 true) 3 1000 1000 eq_refl eq_refl) as (fc' & H1 & H2 & H3 & _);
    [vm_compute; repeat split; congruence..|reflexivity|]. exists fc'. split_and!; [exact H1|exact H2|exact H3].
Defined.

(** The first WINDOW_UPDATE of a stream may shrink its send window: it is compared with the
    stored window, still zero, and not with the negotiated one in force. *)
Theorem window_update_may_shrink (params : flowParameters) (c : flowController) (off : Z) :
  sendWindow c = 0 → 0 < off < getSendWindow params c →
  ∃ c', UpdateSendWindow c off = (true, c') ∧
    getSendWindow params c' < getSendWindow params c.
Proof.
  intros Hz Hoff. unfold UpdateSendWindow. rewrite Z.gtb_ltb, Hz.
  destruct (Z.ltb_spec 0 off); [|lia]. eexists. split; [done|].
  unfold getSendWindow at 1. cbn [set_sent sendWindow fc_streamID].
  destruct (Z.eqb_spec off 0); lia.
Qed.

Lemma window_update_may_shrink_witness :
  ∃ c', UpdateSendWindow (newFlowController sample_params 3 true) 10 = (true, c') ∧
    getSendWindow sample_params c' < 1000.
Proof. apply (window_update_may_shrink sample_params); [reflexivity|cbn; lia]. Defined.
