(* ===== verification/Stream.v ===== *)
(** * Streams

    stream.go: the sending and the receiving half of one stream.  The methods run under the
    stream's mutex or on the one goroutine that reads (or writes); a call that would wait on
    [readChan] or [writeChan] is a value [Blocks], to be resumed by calling again after another
    goroutine has changed the stream.  The clock is an argument; the callbacks [onData] (wake the
    session) and [onReset] (send a RST_STREAM) are outputs. *)

From stdpp Require Import pretty.
From S2P Require Import Prelude ByteOrder Protocol Frames StreamFrame FrameSorter FlowControl.

Record stream : Type := mkStream {
  streamID : Z;
  readPosInFrame : Z;
  writeOffset : Z;
  readOffset : Z;
  s_err : option error;
  cancelled : bool;
  finishedReading : bool;
  finishedWriting : bool;
  resetLocally : bool;
  resetRemotely : bool;
  frameQueue : streamFrameSorter;
  readDeadline : Z;
  dataForWriting : option (list Z);
  finSent : bool;
  rstSent : bool;
  writeDeadline : Z;
}.

Definition errDeadline : error := ErrorString "deadline exceeded".

Definition newStream (StreamID : Z) : stream :=
  {| streamID := StreamID; readPosInFrame := 0; writeOffset := 0; readOffset := 0; s_err := None;
     cancelled := false; finishedReading := false; finishedWriting := false;
     resetLocally := false; resetRemotely := false; frameQueue := newStreamFrameSorter;
     readDeadline := 0; dataForWriting := None; finSent := false; rstSent := false;
     writeDeadline := 0 |}.

(** The parts of the state each group of methods writes. *)
Definition set_reading (s : stream) (pos offset : Z) (fin : bool) (q : streamFrameSorter) : stream :=
  {| streamID := streamID s; readPosInFrame := pos; writeOffset := writeOffset s;
     readOffset := offset; s_err := s_err s; cancelled := cancelled s; finishedReading := fin;
     finishedWriting := finishedWriting s; resetLocally := resetLocally s;
     resetRemotely := resetRemotely s; frameQueue := q; readDeadline := readDeadline s;
     dataForWriting := dataForWriting s; finSent := finSent s; rstSent := rstSent s;
     writeDeadline := writeDeadline s |}.
Definition set_writing (s : stream) (offset : Z) (data : option (list Z)) (finished fin : bool)
  : stream :=
  {| streamID := streamID s; readPosInFrame := readPosInFrame s; writeOffset := offset;
     readOffset := readOffset s; s_err := s_err s; cancelled := cancelled s;
     finishedReading := finishedReading s; finishedWriting := finished;
     resetLocally := resetLocally s; resetRemotely := resetRemotely s; frameQueue := frameQueue s;
     readDeadline := readDeadline s; dataForWriting := data; finSent := fin; rstSent := rstSent s;
     writeDeadline := writeDeadline s |}.
Definition set_failed (s : stream) (err : option error) (cancel rl rr rst : bool) : stream :=
  {| streamID := streamID s; readPosInFrame := readPosInFrame s; writeOffset := writeOffset s;
     readOffset := readOffset s; s_err := err; cancelled := cancel;
     finishedReading := finishedReading s; finishedWriting := finishedWriting s;
     resetLocally := rl; resetRemotely := rr; frameQueue := frameQueue s;
     readDeadline := readDeadline s; dataForWriting := dataForWriting s; finSent := finSent s;
     rstSent := rst; writeDeadline := writeDeadline s |}.
Definition set_deadlines (s : stream) (rd wd : Z) : stream :=
  {| streamID := streamID s; readPosInFrame := readPosInFrame s; writeOffset := writeOffset s;
     readOffset := readOffset s; s_err := s_err s; cancelled := cancelled s;
     finishedReading := finishedReading s; finishedWriting := finishedWriting s;
     resetLocally := resetLocally s; resetRemotely := resetRemotely s; frameQueue := frameQueue s;
     readDeadline := rd; dataForWriting := dataForWriting s; finSent := finSent s;
     rstSent := rstSent s; writeDeadline := wd |}.

(** The deadline is set and not in the future. *)
Definition expired (now deadline : Z) : bool := negb (deadline =? 0) && negb (now <? deadline).

(** The conversion of a 64-bit unsigned number to [int]. *)
Definition int64 (z : Z) : Z := if u64 z <? 2^63 then u64 z else u64 z - 2^64.

(** ** Reading *)

Inductive read_outcome : Type :=
| Returned (p : list Z) (err : option error)
| Blocks
| ReadPanic.

(** What the wait for a frame ends with. *)
Inductive head_outcome : Type :=
| HeadFrame (frame : StreamFrame) (pos : Z)
| HeadErr (err : error)
| HeadWait
| HeadNil.

Definition read_head (now : Z) (s : stream) : head_outcome :=
  let frame := Head (frameQueue s) in
  let broken err :=
    match err, frame with
    | Some e, _ => HeadErr e
    | None, Some f => HeadFrame f (readPosInFrame s)
    | None, None => HeadNil
    end in
  if resetLocally s || cancelled s then broken (s_err s)
  else if expired now (readDeadline s) then HeadErr errDeadline
  else match frame with
  | Some f => HeadFrame f (int64 (readOffset s - Offset f))
  | None => HeadWait
  end.

Definition errReadPos (pos len : Z) : error :=
  ErrorString ("BUG: readPosInFrame (" ++ pretty pos ++ ") > frame.DataLen (" ++ pretty len
               ++ ") in stream.Read").

(** The loop of Read, with [n] bytes of the buffer left and [out] read; a round takes a byte or a
    frame away, so that many rounds and one more are enough. *)
Fixpoint read_loop (fuel : nat) (now : Z) (s : stream) (fcm : flowControlManager) (n : nat)
    (out : list Z) : read_outcome * stream * flowControlManager :=
  match fuel with
  | O => (ReadPanic, s, fcm)
  | S fuel =>
      match n with
      | O => (Returned out None, s, fcm)
      | _ =>
          if bool_decide (Head (frameQueue s) = None) && bool_decide (out <> [])
          then (Returned out (s_err s), s, fcm)
          else match read_head now s with
          | HeadErr e => (Returned out (Some e), s, fcm)
          | HeadWait => (Blocks, s, fcm)
          | HeadNil => (ReadPanic, s, fcm)
          | HeadFrame frame pos =>
              if pos >? DataLen frame
              then (Returned out (Some (errReadPos pos (DataLen frame))),
                    set_reading s pos (readOffset s) (finishedReading s) (frameQueue s), fcm)
              else if pos <? 0 then (ReadPanic, s, fcm)
              else
                let chunk := take n (drop (Z.to_nat pos) (Data frame)) in
                let m := Z.of_nat (length chunk) in
                let fcm := if resetRemotely s then fcm
                           else (fcm_AddBytesRead now fcm (streamID s) m).2 in
                let out := out ++ chunk in
                let offset := readOffset s +u64 m in
                if pos + m >=? DataLen frame then
                  let q := (Pop (frameQueue s)).2 in
                  if FinBit frame
                  then (Returned out (Some EOF), set_reading s (pos + m) offset true q, fcm)
                  else read_loop fuel now (set_reading s (pos + m) offset (finishedReading s) q)
                         fcm (n - length chunk) out
                else read_loop fuel now
                       (set_reading s (pos + m) offset (finishedReading s) (frameQueue s))
                       fcm (n - length chunk) out
          end
      end
  end.

Definition Read (now : Z) (s : stream) (fcm : flowControlManager) (n : nat)
  : read_outcome * stream * flowControlManager :=
  if cancelled s || resetLocally s then (Returned [] (s_err s), s, fcm)
  else if finishedReading s then (Returned [] (Some EOF), s, fcm)
  else read_loop (n + size (queuedFrames (frameQueue s)) + 1) now s fcm n [].

(** ** Writing *)

(** Write up to its wait: it returns at once, or has queued its data and waits. *)
Definition errWriteClosed (id : Z) : error :=
  ErrorString ("write on closed stream " ++ pretty id).

Definition Write_begin (s : stream) (p : list Z) : option (Z * option error) * stream :=
  if resetLocally s || bool_decide (s_err s <> None) then (Some (0, s_err s), s)
  else if finishedWriting s then (Some (0, Some (errWriteClosed (streamID s))), s)
  else match p with
  | [] => (Some (0, None), s)
  | _ => (None, set_writing s (writeOffset s) (Some p) (finishedWriting s) (finSent s))
  end.

(** A round of the wait of a Write of [n] bytes: [None] is to wait on. *)
Definition Write_poll (now : Z) (s : stream) (n : Z) : option (Z * option error) :=
  if expired now (writeDeadline s) then Some (0, Some errDeadline)
  else match dataForWriting s, s_err s with
  | data, Some e => Some (n - Z.of_nat (length (default [] data)), Some e)
  | None, None => Some (n, None)
  | Some _, None => None
  end.

Definition lenOfDataForWriting (s : stream) : Z :=
  match s_err s with
  | None => Z.of_nat (length (default [] (dataForWriting s)))
  | Some _ => 0
  end.

Definition getDataForWriting (s : stream) (maxBytes : Z) : option (list Z) * stream :=
  match s_err s, dataForWriting s with
  | None, Some data =>
      let '(ret, remaining) :=
        if Z.of_nat (length data) >? maxBytes
        then (take (Z.to_nat maxBytes) data, Some (drop (Z.to_nat maxBytes) data))
        else (data, None) in
      (Some ret,
       set_writing s (writeOffset s +u64 Z.of_nat (length ret)) remaining (finishedWriting s) (finSent s))
  | _, _ => (None, s)
  end.

Definition Close (s : stream) : stream :=
  set_writing s (writeOffset s) (dataForWriting s) true (finSent s).

Definition finishedWriteAndSentFin (s : stream) : bool := finishedWriting s && finSent s.

Definition shouldSendReset (s : stream) : bool :=
  if rstSent s then false
  else (resetLocally s || resetRemotely s) && negb (finishedWriteAndSentFin s).

Definition shouldSendFin (s : stream) : bool :=
  finishedWriting s && negb (finSent s) && bool_decide (s_err s = None)
  && bool_decide (dataForWriting s = None).

Definition sentFin (s : stream) : stream :=
  set_writing s (writeOffset s) (dataForWriting s) (finishedWriting s) true.

(** ** Received frames, deadlines, errors *)

Definition AddStreamFrame (s : stream) (fcm : flowControlManager) (frame : StreamFrame)
  : result unit * stream * flowControlManager :=
  let maxOffset := Offset frame +u64 DataLen frame in
  match fcm_UpdateHighestReceived fcm (streamID s) maxOffset with
  | (Some e, fcm) => (Err e, s, fcm)
  | (None, fcm) =>
      let '(r, q) := Push (frameQueue s) frame in
      let s := set_reading s (readPosInFrame s) (readOffset s) (finishedReading s) q in
      match r with
      | Err e => if decide (e = errDuplicateStreamData) then (Ok tt, s, fcm) else (Err e, s, fcm)
      | r => (r, s, fcm)
      end
  end.

Definition CloseRemote (s : stream) (fcm : flowControlManager) (offset : Z)
  : result unit * stream * flowControlManager :=
  AddStreamFrame s fcm {| StreamID := 0; FinBit := true; DataLenPresent := false;
                          Offset := offset; Data := [] |}.

Definition SetReadDeadline (s : stream) (t : Z) : stream := set_deadlines s t (writeDeadline s).
Definition SetWriteDeadline (s : stream) (t : Z) : stream := set_deadlines s (readDeadline s) t.
Definition SetDeadline (s : stream) (t : Z) : stream := SetWriteDeadline (SetReadDeadline s t) t.

(** Once set, the error does not change. *)
Definition keep_err (s : stream) (err : error) : option error :=
  match s_err s with Some e => Some e | None => Some err end.

Definition Cancel (s : stream) (err : error) : stream :=
  set_failed s (keep_err s err) true (resetLocally s) (resetRemotely s) (rstSent s).

(** The RST_STREAM that a reset sends, if any: the stream and its final offset. *)
Definition send_reset (s : stream) : option (Z * Z) * stream :=
  if shouldSendReset s
  then (Some (streamID s, writeOffset s),
        set_failed s (s_err s) (cancelled s) (resetLocally s) (resetRemotely s) true)
  else (None, s).

Definition Reset (s : stream) (err : error) : option (Z * Z) * stream :=
  if resetLocally s then (None, s)
  else send_reset (set_failed s (keep_err s err) (cancelled s) true (resetRemotely s) (rstSent s)).

Definition RegisterRemoteError (s : stream) (err : error) : option (Z * Z) * stream :=
  if resetRemotely s then (None, s)
  else send_reset (set_failed s (keep_err s err) (cancelled s) (resetLocally s) true (rstSent s)).

Definition finished (s : stream) : bool :=
  cancelled s || (finishedReading s && finishedWriteAndSentFin s)
  || (resetRemotely s && rstSent s) || (finishedReading s && rstSent s)
  || (finishedWriteAndSentFin s && resetRemotely s).

(** ** Reading in order *)






Section Reading.

(** The stream that is read: [size] bytes, where an [int] can index them. *)
Context (content : Z → Z) (size : Z) (Hsize : 0 <= size <= 2^63).
















End Reading.




(** ** Runs of the receiving half *)

Inductive stream_op : Type :=
| SAdd (f : StreamFrame)
| SRead (now : Z) (n : nat).

(** A run collects what the application reads; an error of a frame closes the connection. *)
Fixpoint run_stream (s : stream) (fcm : flowControlManager) (out : list Z) (ops : list stream_op)
  : option (stream * flowControlManager * list Z) :=
  match ops with
  | [] => Some (s, fcm, out)
  | SAdd f :: ops =>
      match AddStreamFrame s fcm f with
      | (Ok _, s', fcm') => run_stream s' fcm' out ops
      | _ => None
      end
  | SRead now n :: ops =>
      match Read now s fcm n with
      | (Returned p _, s', fcm') => run_stream s' fcm' (out ++ p) ops
      | (Blocks, s', fcm') => run_stream s' fcm' out ops
      | (ReadPanic, _, _) => None
      end
  end.








(** ** Properties *)


(** The end of a stream of six bytes arrives first. *)
Definition sample_stream_ops : list stream_op :=
  [SAdd (sample_fin 6); SAdd (sample_frame 2 [2; 3]); SRead 0 4; SAdd (sample_frame 0 [0; 1; 2]); SRead 0 1;
   SAdd (sample_frame 1 [1; 2; 3; 4; 5]); SRead 0 4].

Definition sample_flow_params : flowParameters := mkFlowParameters 1000 1500 1000 2000 1500 3000.

Definition sample_flow : flowControlManager :=
  fcm_NewStream sample_flow_params (NewFlowControlManager sample_flow_params) 5 true.


(** The next read gets the rest and then the end. *)
Example sample_stream_end :
  match run_stream (newStream 5) sample_flow [] sample_stream_ops with
  | Some (s, fcm, _) => (Read 0 s fcm 4).1.1 = Returned [5] (Some EOF)
  | None => False
  end.
Proof. by vm_compute. Qed.
