(* ===== verification/Receiving.v ===== *)
(** * Streams and flow control together

    What a session does with received data: its streams (stream.go) get frames and are read, and report both to the
    flow control manager (internal/flowcontrol).  The manager does not check that an application reads only what was received;
    here the streams are shown not to let it, whatever frames arrive, so that the accounts of the manager are right. *)

From S2P Require Import Prelude Protocol StreamFrame FrameSorter FlowControl Stream.

(** ** The session's streams *)








(** ** A stream holds nothing beyond the highest offset received *)










(** ** Reading *)


(** How the manager changes when a stream is read. *)
Definition read_only (id : Z) (fcm fcm' : flowControlManager) : Prop :=
  (∀ id', id' <> id → streamFlowController fcm' !! id' = streamFlowController fcm !! id') ∧
  (∀ fc', streamFlowController fcm' !! id = Some fc' →
     ∃ fc, streamFlowController fcm !! id = Some fc ∧ highestReceived fc' = highestReceived fc) ∧
  (is_Some (streamFlowController fcm !! id) → is_Some (streamFlowController fcm' !! id)).

#[local] Instance read_only_preorder id : PreOrder (read_only id).
Proof.
  split; [by intros fcm; split_and!; eauto|]. intros f1 f2 f3 (A1 & A2 & A3) (B1 & B2 & B3). split_and!.
  - intros id' Hne. by rewrite B1, A1.
  - intros fc' Hf. destruct (B2 _ Hf) as (fc2 & Hf2 & ->). by apply A2.
  - auto.
Qed.







(** ** All streams *)





Section Inv.
Context (params : flowParameters) (Hp : params_ok params).













End Inv.

(** ** Properties *)







