(* ===== verification/StreamScheduler.v ===== *)
(** * The stream scheduler

    stream_scheduler.go: a weighted round robin over the dependency tree of the streams.  The
    nodes point to their parent and their children, so the tree is a heap of nodes, keyed by
    pointer; the root is pointer 0.  A node's stream is the key of the stream in a store of
    streams.  A [nil] or dangling pointer, an index out of range and a division by zero panic.
    Recursion along pointers takes fuel; running out of it stands for the stack overflow of an
    endless recursion. *)

From stdpp Require Import pretty.
From S2P Require Import Prelude ByteOrder Protocol Frames StreamFrame FrameSorter FlowControl Stream.

Record Priority : Type := mkPriority {
  Dependency : Z;
  Weight : Z;
  Exclusive : bool;
}.

Definition ptr : Type := Z.

Record node : Type := mkNode {
  n_id : Z;
  n_stream : option Z;
  weight : Z;
  childrensWeight : Z;
  state : Z;
  activeChildren : Z;
  quantum : Z;
  parent : option ptr;
  children : list ptr;
  nextChild : Z;
  lowestQuantum : Z;
  numerator : Z;
  denominator : Z;
  waiting : Z;
}.

Definition nodeIdle : Z := 0.
Definition nodeActive : Z := 1.
Definition nodeClosed : Z := 2.

Record streamScheduler : Type := mkScheduler {
  heap : gmap ptr node;
  fresh : ptr;
  toSend : option ptr;
  openStreams : Z;
  nodeMap : gmap Z ptr;
}.

Definition root : ptr := 0.

Definition newNode (id : Z) (stream : option Z) (parent : option ptr) : node :=
  {| n_id := id; n_stream := stream; weight := DefaultStreamWeight; childrensWeight := 0;
     state := nodeIdle; activeChildren := 0; quantum := 0; parent := parent; children := [];
     nextChild := 0; lowestQuantum := 256; numerator := 1; denominator := 1; waiting := 0 |}.

Definition newStreamScheduler : streamScheduler :=
  mkScheduler {[ root := newNode 0 None None ]} 1 None 0 ∅.

(** ** Field updates *)

Definition set_state (n : node) (st : Z) (stream : option Z) : node :=
  {| n_id := n_id n; n_stream := stream; weight := weight n; childrensWeight := childrensWeight n;
     state := st; activeChildren := activeChildren n; quantum := quantum n; parent := parent n;
     children := children n; nextChild := nextChild n; lowestQuantum := lowestQuantum n;
     numerator := numerator n; denominator := denominator n; waiting := waiting n |}.
Definition set_children (n : node) (w active : Z) (cs : list ptr) (next : Z) : node :=
  {| n_id := n_id n; n_stream := n_stream n; weight := weight n; childrensWeight := w;
     state := state n; activeChildren := active; quantum := quantum n; parent := parent n;
     children := cs; nextChild := next; lowestQuantum := lowestQuantum n;
     numerator := numerator n; denominator := denominator n; waiting := waiting n |}.
Definition set_quantum (n : node) (q : Z) : node :=
  {| n_id := n_id n; n_stream := n_stream n; weight := weight n;
     childrensWeight := childrensWeight n; state := state n; activeChildren := activeChildren n;
     quantum := q; parent := parent n; children := children n; nextChild := nextChild n;
     lowestQuantum := lowestQuantum n; numerator := numerator n; denominator := denominator n;
     waiting := waiting n |}.
Definition set_next (n : node) (next : Z) : node :=
  set_children n (childrensWeight n) (activeChildren n) (children n) next.
Definition set_info (n : node) (lowest num denom : Z) : node :=
  {| n_id := n_id n; n_stream := n_stream n; weight := weight n;
     childrensWeight := childrensWeight n; state := state n; activeChildren := activeChildren n;
     quantum := quantum n; parent := parent n; children := children n; nextChild := nextChild n;
     lowestQuantum := lowest; numerator := num; denominator := denom; waiting := waiting n |}.
Definition set_weight (n : node) (w : Z) : node :=
  {| n_id := n_id n; n_stream := n_stream n; weight := w; childrensWeight := childrensWeight n;
     state := state n; activeChildren := activeChildren n; quantum := quantum n;
     parent := parent n; children := children n; nextChild := nextChild n;
     lowestQuantum := lowestQuantum n; numerator := numerator n; denominator := denominator n;
     waiting := waiting n |}.
Definition set_parent (n : node) (p : option ptr) : node :=
  {| n_id := n_id n; n_stream := n_stream n; weight := weight n;
     childrensWeight := childrensWeight n; state := state n; activeChildren := activeChildren n;
     quantum := quantum n; parent := p; children := children n; nextChild := nextChild n;
     lowestQuantum := lowestQuantum n; numerator := numerator n; denominator := denominator n;
     waiting := waiting n |}.
Definition set_waiting (n : node) (w : Z) : node :=
  {| n_id := n_id n; n_stream := n_stream n; weight := weight n;
     childrensWeight := childrensWeight n; state := state n; activeChildren := activeChildren n;
     quantum := quantum n; parent := parent n; children := children n; nextChild := nextChild n;
     lowestQuantum := lowestQuantum n; numerator := numerator n; denominator := denominator n;
     waiting := w |}.

Definition set_heap (sch : streamScheduler) (h : gmap ptr node) : streamScheduler :=
  mkScheduler h (fresh sch) (toSend sch) (openStreams sch) (nodeMap sch).

(** ** The heap *)

Definition deref (h : gmap ptr node) (p : ptr) : result node :=
  match h !! p with Some n => Ok n | None => Panic "nil pointer dereference" end.

(** [a % uint16(len)] *)
Definition mod_len (a : Z) (l : list ptr) : result Z :=
  let d := u16 (Z.of_nat (length l)) in
  if d =? 0 then Panic "integer divide by zero" else Ok (a mod d).

Definition overflow {A} : result A := Panic "stack overflow".

Fixpoint addWeight (fuel : nat) (h : gmap ptr node) (p child : ptr) : result (gmap ptr node) :=
  match fuel with
  | O => overflow
  | S fuel =>
      n ← deref h p;
      c ← deref h child;
      let n := set_children n (u32 (childrensWeight n + (weight c + 1)))
                 (u16 (activeChildren n + 1)) (children n ++ [child]) (nextChild n) in
      let h := <[p := n]> h in
      match parent n with
      | Some pp =>
          if negb (state n =? nodeActive) && (activeChildren n =? 1)
          then addWeight fuel h pp p else Ok h
      | None => Ok h
      end
  end.

(** The index removeWeight removes: the child's, or 0 if it is not there. *)
Fixpoint child_index (child : ptr) (cs : list ptr) : option nat :=
  match cs with
  | [] => None
  | c :: cs => if c =? child then Some O else S <$> child_index child cs
  end.

Definition remove_child (child : ptr) (cs : list ptr) : result (list ptr) :=
  match cs with
  | [] => Panic "slice bounds out of range"
  | _ => let index := default O (child_index child cs) in
         Ok (take index cs ++ drop (S index) cs)
  end.

Fixpoint removeWeight (fuel : nat) (h : gmap ptr node) (p child : ptr) : result (gmap ptr node) :=
  match fuel with
  | O => overflow
  | S fuel =>
      n ← deref h p;
      c ← deref h child;
      cs ← remove_child child (children n);
      next ← (match cs with [] => Ok 0 | _ => mod_len (nextChild n) cs end);
      let n := set_children n (u32 (childrensWeight n - u32 (weight c - 1)))
                 (u16 (activeChildren n - 1)) cs next in
      let h := <[p := n]> h in
      match parent n with
      | Some pp => if activeChildren n =? 0 then removeWeight fuel h pp p else Ok h
      | None => Ok h
      end
  end.

(** Fuel for a recursion along the parents: no path is longer than the heap. *)
Definition depth (h : gmap ptr node) : nat := S (size h).

Definition deactivateNode (h : gmap ptr node) (p : ptr) : result (gmap ptr node) :=
  n ← deref h p;
  let n := set_state n nodeClosed None in
  let h := <[p := n]> h in
  match parent n with
  | Some pp => if activeChildren n =? 0 then removeWeight (depth h) h pp p else Ok h
  | None => Ok h
  end.

Fixpoint skip_node (fuel : nat) (h : gmap ptr node) (p : ptr) : result (gmap ptr node) :=
  match fuel with
  | O => overflow
  | S fuel =>
      n ← deref h p;
      let n := set_quantum n 0 in
      let h := <[p := n]> h in
      match parent n with
      | Some pp =>
          pn ← deref h pp;
          next ← mod_len (u16 (nextChild pn + 1)) (children pn);
          skip_node fuel (<[pp := set_next pn next]> h) pp
      | None => Ok h
      end
  end.

Definition skip (sch : streamScheduler) (p : ptr) : result streamScheduler :=
  h ← skip_node (depth (heap sch)) (heap sch) p; Ok (set_heap sch h).

(** ** Adding and reprioritising streams *)

Definition errAddUnknown : error := ErrorString "attempt to add unknown node".

(** New nodes become children of the root, in the tree but not yet in its list. *)
Definition addNode (sch : streamScheduler) (child : option stream) : option error * streamScheduler :=
  match child with
  | None => (Some errAddUnknown, sch)
  | Some s =>
      if streamID s =? 1 then (None, sch)
      else if streamID s =? 3 then
        match heap sch !! root with
        | Some r =>
            (None, mkScheduler (<[root := set_state r nodeActive (Some 3)]> (heap sch))
                     (fresh sch) (toSend sch) (openStreams sch) (<[3 := root]> (nodeMap sch)))
        | None => (None, sch)
        end
      else
        let n := newNode (streamID s) (Some (streamID s)) (Some root) in
        (None, mkScheduler (<[fresh sch := n]> (heap sch)) (fresh sch + 1) (toSend sch)
                 (openStreams sch) (<[streamID s := fresh sch]> (nodeMap sch)))
  end.

Definition errWeightUnknown (id : Z) : error :=
  ErrorString ("setting weight of unknown stream " ++ pretty id).

(** A node that counts in its parent's list. *)
Definition counts (n : node) : bool := (state n =? nodeActive) || (activeChildren n >? 0).

Definition maybeSetWeight (sch : streamScheduler) (id w : Z)
  : result (option error * streamScheduler) :=
  if (id =? 1) || (id =? 3) then Ok (None, sch)
  else match nodeMap sch !! id with
  | None => Ok (Some (errWeightUnknown id), sch)
  | Some p =>
      n ← deref (heap sch) p;
      if weight n =? w then Ok (None, sch)
      else
        h ← (if counts n then
               match parent n with
               | Some pp =>
                   pn ← deref (heap sch) pp;
                   Ok (<[pp := set_children pn (u32 (childrensWeight pn + (w - weight n)))
                                 (activeChildren pn) (children pn) (nextChild pn)]> (heap sch))
               | None => Panic "nil pointer dereference"
               end
             else Ok (heap sch));
        n ← deref h p;
        Ok (None, set_heap sch (<[p := set_weight n w]> h))
  end.

Definition update_parent (h : gmap ptr node) (p : ptr) (par : option ptr) : result (gmap ptr node) :=
  n ← deref h p; Ok (<[p := set_parent n par]> h).

(** The loop over the ancestors [n] of the new parent: where the child is one of them, the new
    parent first moves up to the child's old parent. *)
Fixpoint detach_loop (fuel : nat) (h : gmap ptr node) (n : option ptr) (child newParent : ptr)
    (oldParent : option ptr) : result (gmap ptr node) :=
  match fuel with
  | O => Panic "endless loop"
  | S fuel =>
      match n with
      | None => Panic "nil pointer dereference"
      | Some p =>
          nn ← deref h p;
          match parent nn with
          | None => Ok h
          | Some _ =>
              h ← (if p =? child then
                     np ← deref h newParent;
                     h ← (if counts np then
                            match parent np with
                            | None => Panic "nil pointer dereference"
                            | Some npp =>
                                h ← removeWeight (depth h) h npp newParent;
                                match oldParent with
                                | Some op => addWeight (depth h) h op newParent
                                | None => Ok h
                                end
                            end
                          else Ok h);
                     update_parent h newParent oldParent
                   else Ok h);
              nn ← deref h p;
              detach_loop fuel h (parent nn) child newParent oldParent
          end
      end
  end.

(** The range loop of an exclusive dependency.  It ranges over the array [arr] behind the slice
    [newParent.children] at its start; removeWeight deletes in place, so the array shifts under
    the loop while its length stays. *)
Fixpoint exclusive_loop (k i : nat) (h : gmap ptr node) (arr : list ptr) (child newParent : ptr)
  : result (gmap ptr node) :=
  match k with
  | O => Ok h
  | S k =>
      match arr !! i with
      | None => Ok h
      | Some c =>
          if c =? newParent then exclusive_loop k (S i) h arr child newParent
          else
            cn ← deref h c;
            '(h, arr) ←
              (if counts cn then
                 h ← addWeight (depth h) h child c;
                 h ← removeWeight (depth h) h newParent c;
                 np ← deref h newParent;
                 Ok (h, children np ++ drop (length (children np)) arr)
               else Ok (h, arr));
            h ← update_parent h c (Some child);
            exclusive_loop k (S i) h arr child newParent
      end
  end.

Definition errOwnParent (id : Z) : error :=
  ErrorString ("setting stream " ++ pretty id ++ " as its own parent").
Definition errParentOfCrypto : error := ErrorString "setting parent of crypto stream".
Definition errParentOfHeader : error := ErrorString "setting parent of header stream".
Definition errParentToCrypto : error := ErrorString "setting parent to crypto stream".
Definition errUnknownChild (c p : Z) : error :=
  ErrorString ("setting unknown stream " ++ pretty c ++ " as exclusive child of stream " ++ pretty p).
Definition errUnknownParent (c p : Z) : error :=
  ErrorString ("setting stream " ++ pretty c ++ " as exclusive child of unknown stream " ++ pretty p).

(** The moves, once child and new parent are known. *)
Definition reparent (h : gmap ptr node) (child newParent : ptr) (exclusive : bool)
  : result (gmap ptr node) :=
  cn ← deref h child;
  let oldParent := parent cn in
  np ← deref h newParent;
  h ← detach_loop (depth h) h (parent np) child newParent oldParent;
  cn ← deref h child;
  h ← (match parent cn with
       | Some pp =>
           h ← (if counts cn then removeWeight (depth h) h pp child else Ok h);
           update_parent h child None
       | None => Ok h
       end);
  np ← deref h newParent;
  h ← (if exclusive
       then exclusive_loop (length (children np)) 0 h (children np) child newParent else Ok h);
  h ← update_parent h child (Some newParent);
  cn ← deref h child;
  if counts cn then addWeight (depth h) h newParent child else Ok h.

Definition maybeSetParent (sch : streamScheduler) (childID parentID : Z) (exclusive : bool)
  : result (option error * streamScheduler) :=
  if childID =? parentID then Ok (Some (errOwnParent childID), sch)
  else if childID =? 1 then Ok (Some errParentOfCrypto, sch)
  else if childID =? 3 then Ok (Some errParentOfHeader, sch)
  else if parentID =? 1 then Ok (Some errParentToCrypto, sch)
  else
    let parentID := if parentID =? 3 then 0 else parentID in
    match nodeMap sch !! childID with
    | None => Ok (Some (errUnknownChild childID parentID), sch)
    | Some child =>
        cn ← deref (heap sch) child;
        already ← (match parent cn with
                   | Some pp => pn ← deref (heap sch) pp; Ok (n_id pn =? parentID)
                   | None => Ok false
                   end);
        if negb exclusive && already then Ok (None, sch)
        else match nodeMap sch !! parentID with
        | None => Ok (Some (errUnknownParent childID parentID), sch)
        | Some newParent =>
            h ← reparent (heap sch) child newParent exclusive;
            Ok (None, set_heap sch h)
        end
    end.

Definition errActiveUnknown (id : Z) : error :=
  ErrorString ("setting unknown stream " ++ pretty id ++ " active").

Definition setActive (sch : streamScheduler) (id : Z) : result (option error * streamScheduler) :=
  if (id =? 1) || (id =? 3) then Ok (None, sch)
  else match nodeMap sch !! id with
  | None => Ok (Some (errActiveUnknown id), sch)
  | Some p =>
      n ← deref (heap sch) p;
      let h := <[p := set_state n nodeActive (n_stream n)]> (heap sch) in
      match parent n with
      | None => Panic "nil pointer dereference"
      | Some pp =>
          h ← addWeight (depth h) h pp p;
          Ok (None, mkScheduler h (fresh sch) (toSend sch) (openStreams sch + 1) (nodeMap sch))
      end
  end.

(** ** Scheduling *)

(** What the scheduler reads of the other components: the streams, and the send window of each
    (0 when the flow controller does not know the stream). *)
Record environment : Type := mkEnv {
  env_streams : gmap Z stream;
  env_window : Z → Z;
}.

Definition get_stream (env : environment) (id : Z) : result stream :=
  match env_streams env !! id with Some s => Ok s | None => Panic "nil pointer dereference" end.

Definition bytesUntilCompletion (env : environment) (sch : streamScheduler) (p : ptr) : result Z :=
  n ← deref (heap sch) p;
  match n_stream n with
  | None => Panic "nil pointer dereference"
  | Some id =>
      s ← get_stream env id;
      let L := MaxPacketSize in
      let len := lenOfDataForWriting s in
      let remaining := if L <? len then len - L else len in
      if (u64 (lowestQuantum n * L) >=? remaining) || (openStreams sch =? 1) then Ok len
      else
        let g := denominator n -u64 numerator n in
        let G := u64 (g * remaining) in
        if numerator n =? 0 then Panic "integer divide by zero"
        else Ok (G +u64 len / numerator n)
  end.

(** The loop over the children of [p]; [visit] is the recursive call. *)
Fixpoint child_loop (visit : streamScheduler → ptr → result (option ptr * streamScheduler))
    (k i : nat) (sch : streamScheduler) (p : ptr) : result (option ptr * streamScheduler) :=
  match k with
  | O => Ok (None, sch)
  | S k =>
      n ← deref (heap sch) p;
      if (i <? length (children n))%nat then
        match children n !! Z.to_nat (nextChild n) with
        | None => Panic "index out of range"
        | Some c =>
            '(strm, sch) ← visit sch c;
            match strm with
            | Some _ =>
                n ← deref (heap sch) p;
                Ok (strm, set_heap sch (<[p := set_quantum n (u16 (quantum n - 1))]> (heap sch)))
            | None => child_loop visit k (S i) sch p
            end
        end
      else Ok (None, sch)
  end.

(** The node when it is visited: a new quantum in a new round, and the share of the bandwidth,
    from its parent's. *)
Definition visited (n : node) (pn : option node) : node :=
  let n := if quantum n =? 0 then set_quantum n (u16 (weight n + 1)) else n in
  match pn with
  | None => n
  | Some pn =>
      let q := u16 (quantum n - 1) in
      set_info n
        (if activeChildren pn =? 1 then lowestQuantum pn
         else if q <? u16 (quantum n - 1) then q else lowestQuantum pn)
        (u64 (u8 (weight n + 1) * numerator pn))
        (u64 (childrensWeight pn * denominator pn))
  end.

(** The end of a visit: the next child's turn, if nothing was found or the quantum is used up. *)
Definition end_visit (sch : streamScheduler) (p : ptr) (strm : option ptr)
  : result (option ptr * streamScheduler) :=
  n ← deref (heap sch) p;
  match parent n with
  | None => Ok (strm, sch)
  | Some pp =>
      pn ← deref (heap sch) pp;
      if (bool_decide (strm = None) || (quantum n =? 0)) && negb (length (children pn) =? 0)%nat then
        next ← mod_len (u16 (nextChild pn + 1)) (children pn);
        Ok (strm, set_heap sch (<[pp := set_next pn next]> (heap sch)))
      else Ok (strm, sch)
  end.

(** The stream of a node, and its send window. *)
Definition node_stream (env : environment) (n : node) : result (option (stream * Z)) :=
  match n_stream n with
  | None => Ok None
  | Some id => s ← get_stream env id; Ok (Some (s, env_window env (streamID s)))
  end.

Definition has_finished (s : option (stream * Z)) : bool :=
  match s with Some (s, _) => finishedWriteAndSentFin s | None => false end.

(** The header stream's turn: it never closes, and is picked only when it has data. *)
Definition header_turn (n : node) (s : option (stream * Z)) : bool :=
  (n_id n =? 0) &&
  match s with Some (s, sw) => (lenOfDataForWriting s >? 0) && (sw >? 0) | None => false end.

(** Any other stream's turn. *)
Definition stream_turn (n : node) (s : option (stream * Z)) : bool :=
  negb (n_id n =? 0) && (state n =? nodeActive) && (quantum n >? 0) &&
  match s with Some (s, sw) => negb (finishedWriteAndSentFin s) && (sw >? 0) | None => false end.

Definition parent_node (h : gmap ptr node) (n : node) : result (option node) :=
  match parent n with
  | Some pp => pn ← deref h pp; Ok (Some pn)
  | None => Ok None
  end.

Fixpoint traverse (fuel : nat) (env : environment) (sch : streamScheduler) (p : ptr)
  : result (option ptr * streamScheduler) :=
  match fuel with
  | O => overflow
  | S fuel =>
      n ← deref (heap sch) p;
      pn ← parent_node (heap sch) n;
      let n := visited n pn in
      let sch := set_heap sch (<[p := n]> (heap sch)) in
      s ← node_stream env n;
      if has_finished s then
        h ← deactivateNode (heap sch) p;
        Ok (None, mkScheduler h (fresh sch) (toSend sch) (openStreams sch - 1) (nodeMap sch))
      else if header_turn n s then end_visit sch p (Some p)
      else if stream_turn n s then
        let sch := set_heap sch (<[p := set_quantum n (u16 (quantum n - 1))]> (heap sch)) in
        end_visit sch p (Some p)
      else if (activeChildren n >? 0) && (quantum n >? 0) then
        '(strm, sch) ← child_loop (traverse fuel env) (length (children n)) 0 sch p;
        end_visit sch p strm
      else end_visit sch p None
  end.

Definition schedule (env : environment) (sch : streamScheduler)
  : result (option ptr * streamScheduler) :=
  traverse (depth (heap sch)) env sch root.

(** ** Trees in the heap *)

#[local] Set Warnings "-register-all".

Inductive tree : Type := Node (p : ptr) (ts : list tree).

Definition tree_root (t : tree) : ptr := match t with Node p _ => p end.

Fixpoint ptrs (t : tree) : list ptr := match t with Node p ts => p :: flat_map ptrs ts end.

(** The fields of a node that scheduling never changes. *)
Definition static (n : node) : Z * option Z * Z * Z * Z * Z * option ptr * list ptr :=
  (n_id n, n_stream n, weight n, childrensWeight n, state n, activeChildren n, parent n, children n).

(** The heap holds the tree [t] below the parent [par]. *)
Inductive shape (h : gmap ptr node) : option ptr → tree → Prop :=
| shape_node par p ts n :
    h !! p = Some n → parent n = par → children n = tree_root <$> ts →
    Forall (shape h (Some p)) ts → shape h par (Node p ts).

(** The counters of a node agree with its list of children, and its turn is one of them. *)
Definition node_ok (n : node) : Prop :=
  0 <= quantum n < 2^16 ∧ 0 <= weight n < 2^8 ∧
  activeChildren n = Z.of_nat (length (children n)) ∧ activeChildren n < 2^16 ∧
  0 <= nextChild n ∧ (children n <> [] → nextChild n < activeChildren n).

#[export] Instance node_ok_dec (n : node) : Decision (node_ok n).
Proof. unfold node_ok. apply _. Defined.

Definition heap_ok (h : gmap ptr node) : Prop := map_Forall (λ _, node_ok) h.

#[export] Instance heap_ok_dec (h : gmap ptr node) : Decision (heap_ok h).
Proof. unfold heap_ok. apply _. Defined.

(** The stream of the node may be scheduled: it is active (the header stream: it has data) and
    its window is open. *)
Definition sendable (env : environment) (n : node) : bool :=
  match node_stream env n with
  | Ok (Some (s, sw)) =>
      (if n_id n =? 0 then lenOfDataForWriting s >? 0 else state n =? nodeActive) && (sw >? 0)
  | _ => false
  end.

(** The stream of the node exists and has not finished. *)
Definition live (env : environment) (n : node) : Prop :=
  match node_stream env n with
  | Ok (Some (s, _)) => finishedWriteAndSentFin s = false
  | Ok None => True
  | _ => False
  end.

Lemma static_fields n n' :
  static n = static n' →
  n_id n = n_id n' ∧ n_stream n = n_stream n' ∧ weight n = weight n' ∧
  childrensWeight n = childrensWeight n' ∧ state n = state n' ∧
  activeChildren n = activeChildren n' ∧ parent n = parent n' ∧ children n = children n'.
Proof. unfold static. intros. by simplify_eq. Qed.

Lemma static_sendable env n n' : static n = static n' → sendable env n = sendable env n'.
Proof.
  intros (E1 & E2 & _ & _ & E5 & _)%static_fields. unfold sendable, node_stream. by rewrite E1, E2, E5.
Qed.

Lemma static_live env n n' : static n = static n' → live env n → live env n'.
Proof. intros (_ & E2 & _)%static_fields. unfold live, node_stream. by rewrite E2. Qed.

(** Two heaps of the same shape have the same nodes, up to the fields scheduling changes. *)
Definition same_shape (h h' : gmap ptr node) : Prop := static <$> h' = static <$> h.

#[export] Instance same_shape_equiv : Equivalence same_shape.
Proof.
  unfold same_shape. split; [done|by intros h h'|]. intros h1 h2 h3 H1 H2. by rewrite H2, H1.
Qed.

Lemma same_shape_lookup h h' q n :
  same_shape h h' → h !! q = Some n → ∃ n', h' !! q = Some n' ∧ static n' = static n.
Proof.
  unfold same_shape. intros Hs Hq. assert ((static <$> h') !! q = Some (static n)) as H
    by (by rewrite Hs, lookup_fmap, Hq).
  rewrite lookup_fmap in H. destruct (h' !! q); [|done]. cbn in H. apply (inj Some) in H. eauto.
Qed.

Lemma same_shape_insert h p n n' :
  h !! p = Some n → static n' = static n → same_shape h (<[p:=n']> h).
Proof.
  intros Hp Hs. unfold same_shape. rewrite fmap_insert, Hs.
  apply insert_id. by rewrite lookup_fmap, Hp.
Qed.

Lemma shape_same h h' par t : same_shape h h' → shape h par t → shape h' par t.
Proof.
  intros Hs. remember (length (ptrs t)) as m eqn:Hm. revert par t Hm.
  induction (lt_wf m) as [m _ IH]. intros par t -> Ht. inversion Ht as [? p ts n Hp Hpar Hc Hts]. subst.
  destruct (same_shape_lookup h h' p n Hs Hp) as (n' & Hp' & E).
  apply static_fields in E as (_ & _ & _ & _ & _ & _ & E7 & E8).
  econstructor; [exact Hp'|done|congruence|].
  apply Forall_forall. intros t Hin. rewrite Forall_forall in Hts.
  eapply IH; [|reflexivity|by apply Hts]. cbn. apply list_elem_of_split in Hin as (l1 & l2 & ->).
  rewrite flat_map_app. cbn. rewrite !length_app. lia.
Qed.

(** ** What a visit does *)

(** A subtree [t] of the heap, below [par], whose streams are all live. *)
Definition visit_pre (env : environment) (h : gmap ptr node) (par : option ptr) (t : tree) : Prop :=
  shape h par t ∧ heap_ok h ∧ NoDup (ptrs t) ∧
  (∀ pp, par = Some pp → (pp ∉ ptrs t) ∧ ∃ pn, h !! pp = Some pn ∧ tree_root t ∈ children pn) ∧
  (∀ q n, q ∈ ptrs t → h !! q = Some n → live env n).

(** No node of [l] may be scheduled. *)
Definition none_sendable (env : environment) (h : gmap ptr node) (l : list ptr) : Prop :=
  ∀ q n, q ∈ l → h !! q = Some n → sendable env n = false.

(** [r] is a node of [l] that may be scheduled, or nothing if there is none. *)
Definition picked (env : environment) (h : gmap ptr node) (l : list ptr) (r : option ptr) : Prop :=
  match r with
  | Some q => q ∈ l ∧ ∃ n, h !! q = Some n ∧ sendable env n = true
  | None => none_sendable env h l
  end.

(** Beside the subtree only the parent's turn changes; it moves on when nothing was found. *)
Definition visit_post (env : environment) (h : gmap ptr node) (par : option ptr) (t : tree)
    (r : option ptr) (h' : gmap ptr node) : Prop :=
  same_shape h h' ∧ heap_ok h' ∧
  (∀ q, q ∉ ptrs t → par <> Some q → h' !! q = h !! q) ∧
  (∀ pp pn, par = Some pp → h !! pp = Some pn →
     ∃ x, h' !! pp = Some (set_next pn x) ∧
       (r = None → x = (nextChild pn + 1) mod activeChildren pn)) ∧
  picked env h (ptrs t) r.

Lemma none_sendable_same env h h' l :
  same_shape h h' → none_sendable env h l → none_sendable env h' l.
Proof.
  intros Hs Hn q n' Hq Hq'. symmetry in Hs.
  destruct (same_shape_lookup h' h q n' Hs Hq') as (n & Hn' & E).
  rewrite <- (static_sendable env n n' E). by eapply Hn.
Qed.

Lemma picked_same env h h' l r : same_shape h h' → picked env h' l r → picked env h l r.
Proof.
  intros Hs. destruct r as [q|]; cbn.
  - intros (Hq & n' & Hq' & Hsend). symmetry in Hs.
    destruct (same_shape_lookup h' h q n' Hs Hq') as (n & Hn & E).
    split; [done|]. exists n. split; [done|]. by rewrite (static_sendable env n n' E).
  - apply none_sendable_same. by symmetry.
Qed.

Lemma visit_pre_same env h h' par t :
  same_shape h h' → heap_ok h' → visit_pre env h par t → visit_pre env h' par t.
Proof.
  intros Hs Hok (Hsh & _ & Hnd & Hpar & Hlive). split_and!; [by eapply shape_same|done|done|..].
  - intros pp Hpp. destruct (Hpar pp Hpp) as (? & pn & Hpn & Hin). split; [done|].
    destruct (same_shape_lookup h h' pp pn Hs Hpn) as (pn' & Hpn' & E).
    apply static_fields in E as (_ & _ & _ & _ & _ & _ & _ & E). rewrite <- E in Hin. eauto.
  - intros q n' Hq Hq'. symmetry in Hs.
    destruct (same_shape_lookup h' h q n' Hs Hq') as (n & Hn & E).
    eapply static_live; [exact E|by eapply Hlive].
Qed.

Lemma visit_pre_child env h par p ts t :
  visit_pre env h par (Node p ts) → t ∈ ts → visit_pre env h (Some p) t.
Proof.
  intros (Hsh & Hok & Hnd & Hpar & Hlive) Hin.
  inversion Hsh as [? ? ? n Hp Hpn Hc Hts]. subst. rewrite Forall_forall in Hts.
  cbn [ptrs] in Hnd, Hlive. apply NoDup_cons in Hnd as [Hnp Hnd].
  assert (∀ q, q ∈ ptrs t → q ∈ flat_map ptrs ts) as Hsub.
  { intros q Hq. apply list_elem_of_In, in_flat_map. exists t. by rewrite <- !list_elem_of_In. }
  split_and!; [by apply Hts|done| | |].
  - apply list_elem_of_split in Hin as (l1 & l2 & ->). rewrite flat_map_app in Hnd. cbn in Hnd.
    apply NoDup_app in Hnd as (_ & _ & Hnd). by apply NoDup_app in Hnd as (Hnd & _).
  - intros pp [= <-]. split; [intros Hq; by apply Hnp, Hsub|]. exists n. split; [done|].
    rewrite Hc. by apply list_elem_of_fmap_2.
  - intros q m Hq. apply Hlive. apply elem_of_cons. right. by apply Hsub.
Qed.

Lemma set_heap_id sch : set_heap sch (heap sch) = sch.
Proof. by destruct sch. Qed.

Lemma mod_len_ok n a :
  node_ok n → children n <> [] → mod_len a (children n) = Ok (a mod activeChildren n).
Proof.
  intros (_ & _ & Hac & Hlt & _) Hne. unfold mod_len.
  assert (0 < length (children n))%nat by (destruct (children n); [done|cbn; lia]).
  rewrite u16_id by (unfold is_u16; lia). rewrite <- Hac.
  destruct (Z.eqb_spec (activeChildren n) 0); [lia|done].
Qed.

Lemma set_next_ok n x :
  node_ok n → children n <> [] → node_ok (set_next n (x mod activeChildren n)).
Proof.
  intros (? & ? & Hac & ? & ? & ?) Hne.
  assert (0 < length (children n))%nat by (destruct (children n); [done|cbn; lia]).
  pose proof (Z.mod_pos_bound x (activeChildren n) ltac:(lia)).
  split_and!; cbn [set_next set_children quantum weight activeChildren children nextChild];
    try done; lia.
Qed.

Lemma end_visit_spec sch p strm n :
  heap sch !! p = Some n → heap_ok (heap sch) →
  (∀ pp, parent n = Some pp → ∃ pn, heap sch !! pp = Some pn ∧ p ∈ children pn) →
  ∃ h', end_visit sch p strm = Ok (strm, set_heap sch h') ∧ same_shape (heap sch) h' ∧ heap_ok h' ∧
    (∀ q, parent n <> Some q → h' !! q = heap sch !! q) ∧
    (∀ pp pn, parent n = Some pp → heap sch !! pp = Some pn →
       ∃ x, h' !! pp = Some (set_next pn x) ∧
         (strm = None → x = (nextChild pn + 1) mod activeChildren pn)).
Proof.
  intros Hp Hok Hpar. unfold end_visit, deref. rewrite Hp. cbn [mbind result_bind].
  destruct (parent n) as [pp|].
  2:{ exists (heap sch). rewrite set_heap_id. by split_and!. }
  destruct (Hpar pp eq_refl) as (pn & Hpn & Hin). rewrite Hpn. cbn [mbind result_bind].
  pose proof (Hok pp pn Hpn) as Hpok.
  assert (children pn <> []) as Hne by (intros E; rewrite E in Hin; by apply elem_of_nil in Hin).
  pose proof Hpok as (_ & _ & Hac & Hlt & Hn0 & Hnx). specialize (Hnx Hne).
  rewrite mod_len_ok by done. rewrite (u16_id (nextChild pn + 1)) by (unfold is_u16; lia).
  destruct (_ && _) eqn:Eadv; cbn [mbind result_bind].
  - eexists. split; [done|]. split_and!.
    + by eapply same_shape_insert.
    + apply map_Forall_insert_2; [by apply set_next_ok|done].
    + intros q Hq. apply lookup_insert_ne. congruence.
    + intros pp' pn' [= <-] Hpn'. simplify_eq. rewrite lookup_insert_eq. eauto.
  - exists (heap sch). rewrite set_heap_id. split_and!; try done.
    intros pp' pn' [= <-] Hpn'. simplify_eq. exists (nextChild pn).
    split; [rewrite Hpn; by destruct pn|]. intros ->.
    destruct (length (children pn)) eqn:El; [by apply nil_length_inv in El|done].
Qed.

(** The visits of a loop over all children, from [c0] on, cover every child. *)
Lemma turns_cover (len c0 a : Z) :
  0 <= c0 < len → 0 <= a < len → ∃ j, 0 <= j < len ∧ (c0 + j) mod len = a.
Proof.
  intros Hc Ha. exists ((a - c0) mod len). split; [apply Z.mod_pos_bound; lia|].
  rewrite Z.add_mod_idemp_r by lia. replace (c0 + (a - c0)) with a by lia.
  apply Z.mod_small. lia.
Qed.

Section ChildLoop.
Context (env : environment) (visit : streamScheduler → ptr → result (option ptr * streamScheduler)).
Context (par : option ptr) (p : ptr) (ts : list tree).

(** The recursive calls do what a visit does. *)
Hypothesis visit_ok : ∀ sch t, t ∈ ts → visit_pre env (heap sch) (Some p) t →
  ∃ r h', visit sch (tree_root t) = Ok (r, set_heap sch h') ∧
    visit_post env (heap sch) (Some p) t r h'.

Lemma picked_flat h t r q :
  t ∈ ts → r = Some q → picked env h (ptrs t) r → picked env h (flat_map ptrs ts) r.
Proof.
  intros Hin -> (Hq & Hs). split; [|done].
  apply list_elem_of_In, in_flat_map. exists t. by rewrite <- !list_elem_of_In.
Qed.

(** The state of the loop after [i] visits without success: the turn has moved on by [i]. *)
Definition loop_inv (c0 : Z) (i : nat) (h : gmap ptr node) : Prop :=
  visit_pre env h par (Node p ts) ∧
  (∃ n, h !! p = Some n ∧ nextChild n = (c0 + Z.of_nat i) mod Z.of_nat (length ts)) ∧
  (∀ j t, 0 <= j < Z.of_nat i → ts !! Z.to_nat ((c0 + j) mod Z.of_nat (length ts)) = Some t →
     none_sendable env h (ptrs t)).

Lemma loop_inv_done c0 h :
  0 <= c0 < Z.of_nat (length ts) → loop_inv c0 (length ts) h →
  none_sendable env h (flat_map ptrs ts).
Proof.
  intros Hc (_ & _ & Hno) q n Hq Hn. apply list_elem_of_In, in_flat_map in Hq as (t & Ht & Hq).
  apply list_elem_of_In in Ht, Hq. apply list_elem_of_lookup in Ht as (a & Ha).
  pose proof (lookup_lt_Some _ _ _ Ha).
  destruct (turns_cover (Z.of_nat (length ts)) c0 (Z.of_nat a)) as (j & Hj & Hm); [lia|lia|].
  eapply (Hno j t); [lia| |exact Hq|exact Hn]. rewrite Hm. by rewrite Nat2Z.id.
Qed.

Lemma loop_inv_next c0 i h t h' :
  0 <= c0 → (i < length ts)%nat → loop_inv c0 i h →
  ts !! Z.to_nat ((c0 + Z.of_nat i) mod Z.of_nat (length ts)) = Some t →
  visit_post env h (Some p) t None h' → loop_inv c0 (S i) h'.
Proof.
  intros Hc Hi (Hpre & (n & Hp & Hnx) & Hno) Ht (Hs & Hok & _ & Hpar & Hpick).
  split_and!; [by eapply visit_pre_same|..].
  - destruct (Hpar p n eq_refl Hp) as (x & Hx & Hxn). rewrite Hxn in Hx by done.
    eexists. split; [exact Hx|]. cbn [set_next set_children nextChild].
    destruct Hpre as (Hsh & Hok0 & _). inversion Hsh as [? ? ? n' Hp' _ Hch _]. simplify_eq.
    destruct (Hok0 p n Hp) as (_ & _ & Hac & _). rewrite Hac, Hch, length_fmap, Hnx.
    rewrite Z.add_mod_idemp_l by lia. f_equal. lia.
  - intros j t' Hj Ht'. eapply none_sendable_same; [exact Hs|].
    destruct (Z.eq_dec j (Z.of_nat i)) as [->|]; [|by eapply (Hno j); [lia|]].
    simplify_eq. done.
Qed.

Definition loop_post (h : gmap ptr node) (r : option ptr) (h' : gmap ptr node) : Prop :=
  same_shape h h' ∧ heap_ok h' ∧ (∀ q, q ∉ ptrs (Node p ts) → h' !! q = h !! q) ∧
  picked env h (flat_map ptrs ts) r.

Lemma set_quantum_ok n q : node_ok n → node_ok (set_quantum n (u16 q)).
Proof.
  intros (_ & ? & ? & ? & ? & ?). pose proof (u16_range q). unfold is_u16 in *.
  split_and!; cbn [set_quantum quantum weight activeChildren children nextChild]; try done; lia.
Qed.

Lemma child_loop_spec c0 k i sch :
  0 <= c0 < Z.of_nat (length ts) → (i + k = length ts)%nat → loop_inv c0 i (heap sch) →
  ∃ r h', child_loop visit k i sch p = Ok (r, set_heap sch h') ∧ loop_post (heap sch) r h'.
Proof.
  revert i sch. induction k as [|k IH]; intros i sch Hc Hik Hinv; cbn [child_loop].
  { exists None, (heap sch). rewrite set_heap_id. split; [done|].
    split_and!; [done|apply Hinv|done|]. apply (loop_inv_done c0); [done|].
    by replace (length ts) with i by lia. }
  pose proof Hinv as (Hpre & (n & Hp & Hnx) & _). pose proof Hpre as (Hsh & _).
  inversion Hsh as [? ? ? n' Hp' _ Hch _]. simplify_eq.
  unfold deref. rewrite Hp. cbn [mbind result_bind].
  rewrite Hch, length_fmap. destruct (Nat.ltb_spec i (length ts)); [|lia].
  rewrite Hnx, list_lookup_fmap.
  set (a := (c0 + Z.of_nat i) mod Z.of_nat (length ts)) in *.
  assert (0 <= a < Z.of_nat (length ts)) as Ha by (apply Z.mod_pos_bound; lia).
  destruct (lookup_lt_is_Some_2 ts (Z.to_nat a)) as [t Ht]; [lia|].
  assert (t ∈ ts) as Hin by (by eapply list_elem_of_lookup_2). rewrite Ht. cbn [fmap option_fmap option_map].
  destruct (visit_ok sch t Hin (visit_pre_child env _ _ _ _ _ Hpre Hin)) as (r & h1 & -> & Hpost).
  cbn [mbind result_bind]. pose proof Hpost as (Hs & Hok & Hfr & Hpar & Hpick).
  assert (∀ q, q ∉ ptrs (Node p ts) → h1 !! q = heap sch !! q) as Hfr'.
  { intros q Hq. cbn in Hq. apply not_elem_of_cons in Hq as [Hqp Hq]. apply Hfr; [|congruence].
    intros Hq'. apply Hq, list_elem_of_In, in_flat_map. exists t. by rewrite <- !list_elem_of_In. }
  destruct r as [q|].
  - destruct (Hpar p n eq_refl Hp) as (x & Hx & _).
    cbn [set_heap heap]. rewrite Hx. cbn [mbind result_bind].
    eexists (Some q), _. split; [done|]. split_and!.
    + transitivity h1; [done|]. by eapply same_shape_insert.
    + apply map_Forall_insert_2; [|done]. apply set_quantum_ok. by apply (Hok p).
    + intros q' Hq'. rewrite lookup_insert_ne; [by apply Hfr'|]. intros <-. by apply Hq', elem_of_cons; left.
    + by eapply picked_flat.
  - destruct (IH (S i) (set_heap sch h1) Hc ltac:(lia)) as (r & h2 & -> & Hs2 & Hok2 & Hfr2 & Hpick2).
    { by eapply loop_inv_next; [lia|lia|exact Hinv|exact Ht|]. }
    exists r, h2. split; [done|]. cbn [set_heap heap] in *. split_and!; [by transitivity h1|done|..].
    + intros q Hq. rewrite Hfr2, Hfr' by done. done.
    + by eapply picked_same.
Qed.

End ChildLoop.

(** ** Work conservation *)

Lemma visited_static n pn : static (visited n pn) = static n.
Proof. unfold visited. destruct (quantum n =? 0), pn; done. Qed.

Lemma visited_ok n pn : node_ok n → node_ok (visited n pn) ∧ 0 < quantum (visited n pn).
Proof.
  intros Hok. pose proof Hok as (Hq & Hw & _).
  assert (u16 (weight n + 1) = weight n + 1) as Hu by (apply u16_id; unfold is_u16; lia).
  unfold visited. destruct (Z.eqb_spec (quantum n) 0) as [E|E].
  - pose proof (set_quantum_ok n (weight n + 1) Hok) as Hok'.
    destruct pn; (split; [exact Hok'|]); cbn; lia.
  - destruct pn; (split; [exact Hok|]); cbn; lia.
Qed.

(** The guards of a visit, for a live node: the node itself is picked exactly if it may be. *)
Lemma own_turn env n :
  live env n → 0 < quantum n →
  ∃ s, node_stream env n = Ok s ∧ has_finished s = false ∧
    sendable env n = header_turn n s || stream_turn n s.
Proof.
  intros Hl Hq. unfold live, sendable, header_turn, stream_turn in *.
  destruct (node_stream env n) as [[[s sw]|]| |]; try done; eexists; (split; [done|]).
  - split; [done|]. assert ((quantum n >? 0) = true) as -> by (apply Z.gtb_lt; lia). rewrite Hl.
    destruct (n_id n =? 0); cbn [negb andb orb]; [by rewrite orb_false_r|].
    by rewrite andb_true_r.
  - split; [done|]. by rewrite !andb_false_r.
Qed.

Lemma tree_parent env h par t n :
  visit_pre env h par t → h !! tree_root t = Some n →
  parent n = par ∧ ∀ pp, parent n = Some pp → ∃ pn, h !! pp = Some pn ∧ tree_root t ∈ children pn.
Proof.
  intros (Hsh & _ & _ & Hpar & _) Hn. inversion Hsh as [? p ts n' Hp Hpn Hc Hts]. subst.
  cbn [tree_root] in *. simplify_eq. split; [done|]. intros pp Hpp.
  destruct (Hpar pp Hpp) as (_ & pn & ?). eauto.
Qed.

(** The end of a visit keeps what the visit has found. *)
Lemma visit_post_end env h par t sch r n :
  visit_pre env h par t → same_shape h (heap sch) → heap_ok (heap sch) →
  (∀ q, q ∉ ptrs t → heap sch !! q = h !! q) → heap sch !! tree_root t = Some n →
  picked env h (ptrs t) r →
  ∃ h', end_visit sch (tree_root t) r = Ok (r, set_heap sch h') ∧ visit_post env h par t r h'.
Proof.
  intros Hpre Hs Hok Hfr Hn Hpick.
  pose proof (visit_pre_same env h (heap sch) par t Hs Hok Hpre) as Hpre'.
  destruct (tree_parent env (heap sch) par t n Hpre' Hn) as [Epar Hpar].
  destruct (end_visit_spec sch (tree_root t) r n Hn Hok Hpar) as (h' & -> & Hs' & Hok' & Hfr' & Hnx).
  exists h'. split; [done|]. split_and!; [by transitivity (heap sch)|done| | |done].
  - intros q Hq Hne. rewrite Hfr' by congruence. by apply Hfr.
  - intros pp pn -> Hpn. apply Hnx; [done|]. rewrite Hfr; [done|].
    destruct Hpre as (_ & _ & _ & Hp & _). by apply Hp.
Qed.

(** A visit of a live node that finds the node itself. *)
Lemma visit_own env sch par p ts n n2 :
  visit_pre env (heap sch) par (Node p ts) → heap sch !! p = Some n →
  static n2 = static n → node_ok n2 → sendable env n2 = true →
  ∃ h', end_visit (set_heap sch (<[p:=n2]> (heap sch))) p (Some p) = Ok (Some p, set_heap sch h') ∧
    visit_post env (heap sch) par (Node p ts) (Some p) h'.
Proof.
  intros Hpre Hp Hst Hok Hsend. pose proof Hpre as (_ & Hhok & _).
  apply (visit_post_end env (heap sch) par (Node p ts) (set_heap sch (<[p:=n2]> (heap sch)))
           (Some p) n2); cbn [set_heap heap tree_root].
  - done.
  - by eapply same_shape_insert.
  - by apply map_Forall_insert_2.
  - intros q Hq. apply lookup_insert_ne. intros <-. by apply Hq, elem_of_cons; left.
  - apply lookup_insert_eq.
  - split; [by apply elem_of_cons; left|]. exists n. split; [done|].
    by rewrite <- (static_sendable env n2 n Hst).
Qed.

(** A visit of a live node that may not be picked itself looks at its children. *)
Lemma visit_children env visit sch par p ts n :
  visit_pre env (heap sch) par (Node p ts) → heap sch !! p = Some n → sendable env n = false →
  (∀ sch t, t ∈ ts → visit_pre env (heap sch) (Some p) t →
     ∃ r h', visit sch (tree_root t) = Ok (r, set_heap sch h') ∧
       visit_post env (heap sch) (Some p) t r h') →
  ∃ r h', ('(strm, sch) ← child_loop visit (length (children n)) 0 sch p; end_visit sch p strm)
          = Ok (r, set_heap sch h') ∧ visit_post env (heap sch) par (Node p ts) r h'.
Proof.
  intros Hpre Hp Hsend Hvisit. pose proof Hpre as (Hsh & Hok & _).
  inversion Hsh as [? ? ? n' Hp' _ Hch _]. simplify_eq.
  assert (∀ h r, picked env h (flat_map ptrs ts) r → h !! p = Some n →
    picked env h (ptrs (Node p ts)) r) as Hcons.
  { intros h [q|] Hr Hh; cbn in *; [destruct Hr; split; [by apply elem_of_cons; right|done]|].
    intros q m [->|Hq]%elem_of_cons Hm; [congruence|by eapply Hr]. }
  rewrite Hch, length_fmap. destruct (decide (ts = [])) as [->|Hne].
  { cbn [length child_loop mbind result_bind]. exists None.
    apply (visit_post_end env (heap sch) par (Node p []) sch None n); try done.
    apply Hcons; [|done]. intros q m Hq. by apply elem_of_nil in Hq. }
  destruct (Hok p n Hp) as (_ & _ & Hac & _ & Hn0 & Hn1). rewrite Hch, length_fmap in Hac.
  assert (children n <> []) as Hcn by (rewrite Hch; by destruct ts).
  specialize (Hn1 Hcn).
  destruct (child_loop_spec env visit par p ts Hvisit (nextChild n) (length ts) 0 sch)
    as (r & h1 & -> & Hs & Hok1 & Hfr & Hpick); [lia|done| |].
  { split_and!; [done| |intros; lia]. exists n. split; [done|].
    rewrite Z.add_0_r, Z.mod_small by lia. done. }
  cbn [mbind result_bind]. destruct (same_shape_lookup _ _ _ _ Hs Hp) as (n1 & Hn1' & _).
  destruct (visit_post_end env (heap sch) par (Node p ts) (set_heap sch h1) r n1)
    as (h' & Hend & Hpost); cbn [set_heap heap tree_root]; try done; [by apply Hcons|].
  cbn [tree_root] in Hend. rewrite Hend. by exists r, h'.
Qed.

(** Restarting from the heap in which the node is marked as visited. *)
Lemma visit_post_marked env h par p ts n n1 r h' :
  visit_pre env h par (Node p ts) → h !! p = Some n → static n1 = static n →
  visit_post env (<[p:=n1]> h) par (Node p ts) r h' → visit_post env h par (Node p ts) r h'.
Proof.
  intros (_ & _ & _ & Hpar & _) Hp Hst (Hs & Hok & Hfr & Hnx & Hpick).
  assert (same_shape h (<[p:=n1]> h)) as Hs1 by (by eapply same_shape_insert).
  split_and!; [by transitivity (<[p:=n1]> h)|done| | |by eapply picked_same].
  - intros q Hq Hne. rewrite Hfr by done. apply lookup_insert_ne.
    intros <-. by apply Hq, elem_of_cons; left.
  - intros pp pn -> Hpn. apply Hnx; [done|]. rewrite lookup_insert_ne; [done|].
    intros <-. destruct (Hpar p eq_refl) as [Hno _]. by apply Hno, elem_of_cons; left.
Qed.

Lemma traverse_spec fuel env sch par t :
  visit_pre env (heap sch) par t → (length (ptrs t) <= fuel)%nat →
  ∃ r h', traverse fuel env sch (tree_root t) = Ok (r, set_heap sch h') ∧
    visit_post env (heap sch) par t r h'.
Proof.
  revert sch par t. induction fuel as [|fuel IH]; intros sch par [p ts] Hpre Hlen; [cbn in Hlen; lia|].
  pose proof Hpre as (Hsh & Hok & _ & _ & Hlive). inversion Hsh as [? ? ? n Hp Hpar Hch Hts]. subst.
  destruct (tree_parent env _ _ _ n Hpre Hp) as [_ Hpp].
  assert (∃ pn, parent_node (heap sch) n = Ok pn) as [pn Hpn].
  { unfold parent_node, deref. destruct (parent n) as [pp|]; [|eauto].
    destruct (Hpp pp eq_refl) as (pn & -> & _). cbn. eauto. }
  cbn [traverse tree_root]. unfold deref at 1. rewrite Hp. cbn [mbind result_bind].
  rewrite Hpn. cbn [mbind result_bind]. pose proof (visited_static n pn) as Hst.
  destruct (visited_ok n pn (Hok p n Hp)) as [Hok1 Hq1].
  set (n1 := visited n pn) in *. set (h1 := <[p:=n1]> (heap sch)).
  assert (visit_pre env h1 (parent n) (Node p ts)) as Hpre1.
  { eapply visit_pre_same; [by eapply same_shape_insert|by apply map_Forall_insert_2|done]. }
  assert (h1 !! p = Some n1) as Hp1 by apply lookup_insert_eq.
  destruct (own_turn env n1) as (s & Hns & Hfin & Hsend); [|done|].
  { apply Hpre1 with p; [by apply elem_of_cons; left|done]. }
  rewrite Hns. cbn [mbind result_bind]. rewrite Hfin. destruct (header_turn n1 s); [|destruct (stream_turn n1 s)].
  - destruct (visit_own env sch (parent n) p ts n n1) as (h' & Hend & Hpost); try done. eauto.
  - cbn [set_heap heap]. unfold h1. rewrite insert_insert_eq.
    destruct (visit_own env sch (parent n) p ts n (set_quantum n1 (u16 (quantum n1 - 1))))
      as (h' & Hend & Hpost); try done; [by apply set_quantum_ok|]. eauto.
  - assert (∀ r h', visit_post env h1 (parent n) (Node p ts) r h' →
      visit_post env (heap sch) (parent n) (Node p ts) r h') as Hmark.
    { intros r h'. by apply (visit_post_marked env _ _ _ _ n n1). }
    assert ((quantum n1 >? 0) = true) as -> by (apply Z.gtb_lt; lia). rewrite andb_true_r.
    destruct (activeChildren n1 >? 0) eqn:Eac.
    + destruct (visit_children env (traverse fuel env) (set_heap sch h1) (parent n) p ts n1)
        as (r & h' & -> & Hpost); try done; [|by exists r, h'; auto].
      intros sch' t Hin Hpre'. apply IH; [done|]. cbn [ptrs length] in Hlen.
      apply list_elem_of_split in Hin as (l1 & l2 & ->). rewrite flat_map_app in Hlen. cbn in Hlen.
      rewrite !length_app in Hlen. lia.
    + destruct (visit_post_end env h1 (parent n) (Node p ts) (set_heap sch h1) None n1)
        as (h' & Hend & Hpost); cbn [set_heap heap tree_root]; try done.
      * apply Hpre1.
      * assert (ts = []) as ->.
        { pose proof Hok1 as (_ & _ & Hac & _). pose proof (static_fields _ _ Hst) as (_&_&_&_&_&_&_&E).
          rewrite E, Hch, length_fmap in Hac. destruct ts; [done|]. cbn in Hac.
          rewrite Z.gtb_ltb in Eac. apply Z.ltb_ge in Eac. lia. }
        intros q m Hq Hm. cbn in Hq. apply list_elem_of_singleton in Hq as ->. by simplify_eq.
      * exists None, h'. split; [done|by apply Hmark].
Qed.

Lemma shape_dom h par t q : shape h par t → q ∈ ptrs t → is_Some (h !! q).
Proof.
  remember (length (ptrs t)) as m eqn:Hm. revert par t Hm.
  induction (lt_wf m) as [m _ IH]. intros par t -> Ht Hq. inversion Ht as [? p ts n Hp _ _ Hts]. subst.
  cbn in Hq. apply elem_of_cons in Hq as [->|Hq]; [by rewrite Hp|].
  apply list_elem_of_In, in_flat_map in Hq as (t & Hin & Hq). apply list_elem_of_In in Hin, Hq.
  rewrite Forall_forall in Hts. eapply IH; [|reflexivity|by apply Hts|done]. cbn.
  apply list_elem_of_split in Hin as (l1 & l2 & ->). rewrite flat_map_app. cbn. rewrite !length_app. lia.
Qed.

(** The fuel of [schedule] is enough for every tree in the heap. *)
Lemma shape_size h par t : shape h par t → NoDup (ptrs t) → (length (ptrs t) <= size h)%nat.
Proof.
  intros Hsh Hnd. rewrite <- size_dom, <- (size_list_to_set (C := gset ptr)) by done.
  apply subseteq_size. intros q Hq. apply elem_of_list_to_set in Hq. apply elem_of_dom.
  by eapply shape_dom.
Qed.

Lemma schedule_spec env sch ts :
  visit_pre env (heap sch) None (Node root ts) →
  ∃ r h', schedule env sch = Ok (r, set_heap sch h') ∧
    visit_post env (heap sch) None (Node root ts) r h'.
Proof.
  intros Hpre. unfold schedule. change root with (tree_root (Node root ts)) at 1.
  apply traverse_spec; [done|]. destruct Hpre as (Hsh & _ & Hnd & _).
  pose proof (shape_size _ _ _ Hsh Hnd). unfold depth. lia.
Qed.

(** ** Weighted round robin *)

(** The reference: serve stream [j] until its quantum of [weight + 1] turns is used up, then the
    next one. *)
Definition wrr_step (ws : list Z) (st : nat * list Z) : nat * (nat * list Z) :=
  let '(j, qs) := st in
  let q := default 0 (qs !! j) in
  let w := default 0 (ws !! j) in
  let q' := (if q =? 0 then w + 1 else q) - 1 in
  (j, (if q' =? 0 then (S j mod length ws)%nat else j, <[j:=q']> qs)).

Fixpoint wrr_run (n : nat) (ws : list Z) (st : nat * list Z) : list nat * (nat * list Z) :=
  match n with
  | O => ([], st)
  | S n => let '(j, st) := wrr_step ws st in
           let '(out, st) := wrr_run n ws st in (j :: out, st)
  end.

Fixpoint schedule_run (n : nat) (env : environment) (sch : streamScheduler)
  : result (list (option ptr) * streamScheduler) :=
  match n with
  | O => Ok ([], sch)
  | S n =>
      '(o, sch) ← schedule env sch;
      '(out, sch) ← schedule_run n env sch;
      Ok (o :: out, sch)
  end.

Lemma wrr_run_app n m ws st :
  wrr_run (n + m) ws st =
  let '(out, st) := wrr_run n ws st in let '(out', st) := wrr_run m ws st in (out ++ out', st).
Proof.
  revert st. induction n as [|n IH]; intros st; cbn [Nat.add wrr_run]; [by destruct (wrr_run m ws st)|].
  destruct (wrr_step ws st) as [j st1]. rewrite IH.
  destruct (wrr_run n ws st1) as [out st2]. by destruct (wrr_run m ws st2).
Qed.

Lemma wrr_run_S n ws st :
  wrr_run (S n) ws st =
  let '(j, st) := wrr_step ws st in let '(out, st) := wrr_run n ws st in (j :: out, st).
Proof. done. Qed.

(** A stream in the middle of its quantum. *)
Lemma wrr_serve ws j qs (q : nat) :
  (j < length qs)%nat → qs !! j = Some (Z.of_nat (S q)) →
  wrr_run (S q) ws (j, qs) = (replicate (S q) j, ((S j mod length ws)%nat, <[j:=0]> qs)).
Proof.
  revert qs. induction q as [|q IH]; intros qs Hj Hq; rewrite wrr_run_S; unfold wrr_step; rewrite Hq;
    cbn [default from_option id]; [done|].
  destruct (Z.eqb_spec (Z.of_nat (S (S q))) 0); [lia|].
  destruct (Z.eqb_spec (Z.of_nat (S (S q)) - 1) 0); [lia|].
  rewrite IH; [by rewrite list_insert_insert_eq|by rewrite length_insert|].
  rewrite list_lookup_insert_eq by done. f_equal. lia.
Qed.

(** A whole quantum. *)
Lemma wrr_quantum ws j qs w :
  (j < length qs)%nat → qs !! j = Some 0 → ws !! j = Some w → 0 <= w →
  wrr_run (Z.to_nat (w + 1)) ws (j, qs) = (replicate (Z.to_nat (w + 1)) j, ((S j mod length ws)%nat, qs)).
Proof.
  intros Hj Hq Hw Hw0. replace (Z.to_nat (w + 1)) with (S (Z.to_nat w)) by lia.
  rewrite wrr_run_S. unfold wrr_step. rewrite Hq, Hw. cbn [default from_option id].
  change (0 =? 0) with true. cbv iota. replace (w + 1 - 1) with w by lia.
  destruct (Z.eqb_spec w 0) as [->|Hne]; [by rewrite list_insert_id|].
  replace (Z.to_nat w) with (S (Z.to_nat w - 1)) at 1 by lia.
  rewrite wrr_serve; [|by rewrite length_insert|rewrite list_lookup_insert_eq by done; f_equal; lia].
  rewrite list_insert_insert_eq, list_insert_id by done.
  replace (S (Z.to_nat w - 1)) with (Z.to_nat w) by lia. done.
Qed.

(** The turns of a round, from stream [j] on. *)
Fixpoint round_turns (j : nat) (ws : list Z) : list nat :=
  match ws with
  | [] => []
  | w :: ws => replicate (Z.to_nat (w + 1)) j ++ round_turns (S j) ws
  end.

Lemma wrr_round_from ws pre rest :
  ws = pre ++ rest → rest <> [] → Forall (λ w, 0 <= w) ws →
  wrr_run (length (round_turns (length pre) rest)) ws (length pre, replicate (length ws) 0)
  = (round_turns (length pre) rest, (0%nat, replicate (length ws) 0)).
Proof.
  revert pre. induction rest as [|w rest IH]; intros pre Ews Hne Hpos; [done|].
  assert (ws !! length pre = Some w) as Hw by (rewrite Ews; by apply list_lookup_middle).
  assert (length pre < length ws)%nat as Hlt by (by eapply lookup_lt_Some).
  cbn [round_turns]. rewrite length_app, length_replicate, wrr_run_app.
  rewrite (wrr_quantum ws (length pre) _ w);
    [|by rewrite length_replicate|by apply lookup_replicate_2|done
     |by eapply Forall_lookup_1 in Hpos].
  destruct (decide (rest = [])) as [->|Hr].
  - cbn [round_turns length wrr_run]. rewrite app_nil_r. do 2 f_equal.
    rewrite Ews, length_app. cbn [length]. replace (length pre + 1)%nat with (S (length pre)) by lia.
    by apply Nat.Div0.mod_same.
  - assert (S (length pre) < length ws)%nat.
    { rewrite Ews, length_app. cbn. destruct rest; [done|cbn; lia]. }
    rewrite Nat.mod_small by done.
    specialize (IH (pre ++ [w])). rewrite length_app in IH. cbn [length] in IH.
    replace (length pre + 1)%nat with (S (length pre)) in IH by lia.
    rewrite IH; [done|by rewrite <- app_assoc|done|done].
Qed.

Lemma wrr_round ws :
  ws <> [] → Forall (λ w, 0 <= w) ws →
  wrr_run (length (round_turns 0 ws)) ws (0%nat, replicate (length ws) 0)
  = (round_turns 0 ws, (0%nat, replicate (length ws) 0)).
Proof. intros. by apply (wrr_round_from ws []). Qed.

(** Streams [cs], with weights [ws], all children of the root and all of them ready to send; the
    header stream has nothing to send. *)
Definition flat (env : environment) (h : gmap ptr node) (cs : list ptr) (ws : list Z) : Prop :=
  cs <> [] ∧ NoDup cs ∧ (root ∉ cs) ∧ length ws = length cs ∧
  (∃ r, h !! root = Some r ∧ parent r = None ∧ children r = cs ∧ node_ok r ∧ live env r ∧
     sendable env r = false) ∧
  (∀ i c, cs !! i = Some c → ∃ n, h !! c = Some n ∧ parent n = Some root ∧ n_id n <> 0 ∧
     node_ok n ∧ live env n ∧ sendable env n = true ∧ ws !! i = Some (weight n)).

(** The turn and the quanta in the heap. *)
Definition wrr_state (h : gmap ptr node) (cs : list ptr) (st : nat * list Z) : Prop :=
  (∃ r, h !! root = Some r ∧ nextChild r = Z.of_nat st.1) ∧ length st.2 = length cs ∧
  (∀ i c n, cs !! i = Some c → h !! c = Some n → st.2 !! i = Some (quantum n)).

(** The quantum a visit leaves a stream with. *)
Definition quantum_left (n : node) : Z := (if quantum n =? 0 then weight n + 1 else quantum n) - 1.

Lemma visited_quantum n pn : node_ok n → quantum (visited n pn) = quantum_left n + 1.
Proof.
  intros (_ & Hw & _). unfold visited, quantum_left.
  destruct (Z.eqb_spec (quantum n) 0), pn; cbn; rewrite ?u16_id by (unfold is_u16; lia); lia.
Qed.

(** A visit of a stream that is ready: it is picked, uses up one of its turns, and passes the
    parent's turn on when that was the last one. *)
Lemma traverse_ready fuel env sch c n pp pn :
  heap sch !! c = Some n → parent n = Some pp → c <> pp → heap sch !! pp = Some pn →
  node_ok n → node_ok pn → c ∈ children pn → live env n → sendable env n = true → n_id n <> 0 →
  traverse (S fuel) env sch c =
  let h := <[c := set_quantum (visited n (Some pn)) (quantum_left n)]> (heap sch) in
  Ok (Some c, set_heap sch
    (if quantum_left n =? 0
     then <[pp := set_next pn ((nextChild pn + 1) mod activeChildren pn)]> h else h)).
Proof.
  intros Hc Hp Hne Hpn Hok Hpok Hin Hl Hsend Hid.
  cbn [traverse]. unfold deref at 1. rewrite Hc. cbn [mbind result_bind].
  unfold parent_node, deref. rewrite Hp, Hpn. cbn [mbind result_bind].
  pose proof (visited_static n (Some pn)) as Hst. pose proof (visited_quantum n (Some pn) Hok) as Hq.
  destruct (visited_ok n (Some pn) Hok) as [Hok1 Hq1].
  destruct (own_turn env (visited n (Some pn))) as (s & Hns & Hfin & Hturn); [|done|].
  { by eapply static_live; [symmetry|]. }
  rewrite (static_sendable env _ n Hst), Hsend in Hturn.
  assert (header_turn (visited n (Some pn)) s = false) as Hh.
  { unfold header_turn. pose proof (static_fields _ _ Hst) as (-> & _).
    by rewrite (proj2 (Z.eqb_neq _ _) Hid). }
  rewrite Hh in Hturn. cbn [orb] in Hturn. rewrite Hns. cbn [mbind result_bind].
  rewrite Hfin, Hh, <- Hturn. cbn [set_heap heap]. rewrite insert_insert_eq, Hq.
  replace (u16 (quantum_left n + 1 - 1)) with (quantum_left n).
  2:{ rewrite u16_id; [lia|]. unfold is_u16. pose proof Hok1 as (? & _). lia. }
  unfold end_visit, deref. cbn [set_heap heap]. rewrite lookup_insert_eq. cbn [mbind result_bind].
  pose proof (static_fields _ _ Hst) as (_&_&_&_&_&_&E7&_). cbn [set_quantum parent quantum].
  rewrite E7, Hp, lookup_insert_ne by done. rewrite Hpn. cbn [mbind result_bind].
  assert (children pn <> []) as Hcn by (intros E; rewrite E in Hin; by apply elem_of_nil in Hin).
  assert (negb (length (children pn) =? 0)%nat = true) as -> by (by destruct (children pn)).
  rewrite mod_len_ok by done. pose proof Hpok as (_ & _ & Hac & Hlt & ? & Hnx). specialize (Hnx Hcn).
  rewrite (u16_id (nextChild pn + 1)) by (unfold is_u16; lia).
  rewrite bool_decide_false by done. cbn [orb]. rewrite andb_true_r.
  by destruct (quantum_left n =? 0).
Qed.

(** The heap after a visit of the root [r] that picks its child [c], whose node is [n]. *)
Definition served (h : gmap ptr node) (r : node) (c : ptr) (n : node) : gmap ptr node :=
  let r1 := visited r None in
  let next := if quantum_left n =? 0 then (nextChild r + 1) mod activeChildren r else nextChild r in
  <[root := set_quantum (set_next r1 next) (u16 (quantum r1 - 1))]>
    (<[c := set_quantum (visited n (Some r1)) (quantum_left n)]> h).

Lemma schedule_child env sch r c n :
  heap sch !! root = Some r → parent r = None → node_ok r → live env r → sendable env r = false →
  children r !! Z.to_nat (nextChild r) = Some c → c <> root →
  heap sch !! c = Some n → parent n = Some root → n_id n <> 0 → node_ok n → live env n →
  sendable env n = true →
  schedule env sch = Ok (Some c, set_heap sch (served (heap sch) r c n)).
Proof.
  intros Hr Hrp Hrok Hrl Hrs Hc Hcr Hn Hnp Hid Hnok Hnl Hns. unfold schedule, depth.
  destruct (size (heap sch)) as [|fuel] eqn:Es.
  { apply map_size_empty_iff in Es. rewrite Es in Hr. by apply lookup_empty_Some in Hr. }
  pose proof (visited_static r None) as Hst. destruct (visited_ok r None Hrok) as [Hok1 Hq1].
  pose proof (static_fields _ _ Hst) as (_&_&_&_&_&Eac&Epar&Ech).
  assert (nextChild (visited r None) = nextChild r) as Enx
    by (unfold visited; by destruct (quantum r =? 0)).
  assert (c ∈ children r) as Hin by (by eapply list_elem_of_lookup_2).
  remember (S fuel) as fuel1 eqn:Ef. cbn [traverse]. unfold deref at 1. rewrite Hr. cbn [mbind result_bind].
  unfold parent_node. rewrite Hrp. cbn [mbind result_bind].
  destruct (own_turn env (visited r None)) as (s & Hs & Hfin & Hturn); [|done|].
  { by eapply static_live; [symmetry|]. }
  rewrite (static_sendable env _ r Hst), Hrs in Hturn. symmetry in Hturn.
  apply orb_false_iff in Hturn as [Hh Ht]. rewrite Hs. cbn [mbind result_bind]. rewrite Hfin, Hh, Ht.
  assert (0 < length (children r))%nat as Hpos by (destruct (children r); [by apply elem_of_nil in Hin|cbn; lia]).
  pose proof Hrok as (_ & _ & Hac & _). rewrite Eac, Ech.
  rewrite (proj2 (Z.gtb_lt (activeChildren r) 0)), (proj2 (Z.gtb_lt _ 0)) by lia. cbn [andb].
  destruct (length (children r)) as [|len]; [lia|]. cbn [child_loop].
  unfold deref. cbn [set_heap heap]. rewrite lookup_insert_eq. cbn [mbind result_bind].
  rewrite Ech, Enx, Hc. destruct (Nat.ltb_spec 0 (length (children r))); [|destruct (children r); [by apply elem_of_nil in Hin|cbn in *; lia]].
  rewrite Ef, (traverse_ready fuel env _ c n root (visited r None)); cbn [set_heap heap]; try done;
    [|by rewrite lookup_insert_ne|by apply lookup_insert_eq|by rewrite Ech].
  cbn [mbind result_bind set_heap heap]. unfold served. rewrite Enx, Eac.
  assert (set_next (visited r None) (nextChild r) = visited r None) as Eid
    by (rewrite <- Enx; by destruct (visited r None)).
  unfold end_visit, deref. destruct (quantum_left n =? 0).
  - rewrite lookup_insert_eq. cbn [mbind result_bind set_heap heap].
    rewrite lookup_insert_eq. cbn [mbind result_bind set_quantum set_next set_children parent quantum].
    rewrite Epar, Hrp. unfold set_heap. cbn [fresh toSend openStreams nodeMap].
    by rewrite insert_insert_eq, (insert_insert_ne _ c root), insert_insert_eq by done.
  - rewrite (lookup_insert_ne _ c root), lookup_insert_eq by done.
    cbn [mbind result_bind set_heap heap]. rewrite lookup_insert_eq, Eid.
    cbn [mbind result_bind set_quantum parent quantum].
    rewrite Epar, Hrp. unfold set_heap. cbn [fresh toSend openStreams nodeMap].
    by rewrite (insert_insert_ne _ c root), insert_insert_eq by done.
Qed.

Lemma served_root h r c n :
  c <> root →
  ∃ q, served h r c n !! root = Some (set_quantum (set_next (visited r None)
    (if quantum_left n =? 0 then (nextChild r + 1) mod activeChildren r else nextChild r)) (u16 q)).
Proof. intros. unfold served. rewrite lookup_insert_eq. eauto. Qed.

Lemma served_child h r c n :
  c <> root →
  served h r c n !! c = Some (set_quantum (visited n (Some (visited r None))) (quantum_left n)).
Proof. intros. unfold served. by rewrite lookup_insert_ne, lookup_insert_eq by done. Qed.

Lemma served_other h r c n q : q <> root → q <> c → served h r c n !! q = h !! q.
Proof. intros. unfold served. by rewrite !lookup_insert_ne by done. Qed.

Lemma quantum_left_range n : node_ok n → 0 <= quantum_left n < 2^16.
Proof.
  intros ((? & ?) & ? & _). unfold quantum_left. destruct (Z.eqb_spec (quantum n) 0); lia.
Qed.

(** A served child keeps what [flat] says of it. *)
Lemma served_flat env h cs ws r c n j :
  flat env h cs ws → h !! root = Some r → cs !! j = Some c → h !! c = Some n →
  flat env (served h r c n) cs ws.
Proof.
  intros (Hne & Hnd & Hrt & Hlen & (r' & Hr & Hrp & Hrc & Hrok & Hrl & Hrs) & Hcs) Hr' Hj Hn.
  assert (r' = r) as -> by congruence. subst cs.
  assert (c <> root) as Hcr by (intros ->; by apply Hrt; eapply list_elem_of_lookup_2).
  split_and!; try done.
  - destruct (served_root h r c n Hcr) as [q Hq]. eexists. split; [exact Hq|].
    pose proof (visited_static r None) as Hst. destruct (visited_ok r None Hrok) as [Hok1 _].
    pose proof (static_fields _ _ Hst) as (_&_&_&_&_&Eac&Epar&Ech).
    split_and!; cbn [set_quantum set_next set_children parent children]; [congruence|done| | |].
    + apply set_quantum_ok. destruct (quantum_left n =? 0); [rewrite <- Eac; apply set_next_ok; [done|]|].
      * rewrite Ech. by destruct (children r).
      * assert (nextChild (visited r None) = nextChild r) as <-
          by (unfold visited; by destruct (quantum r =? 0)).
        by destruct (visited r None).
    + eapply (static_live env r); [|done]. by rewrite <- Hst.
    + rewrite <- Hrs. apply static_sendable. by rewrite <- Hst.
  - intros i c' Hi. destruct (Hcs i c' Hi) as (n' & Hn' & Hp & Hid & Hok & Hl & Hs & Hw).
    assert (c' <> root) as Hcr' by (intros ->; by apply Hrt; eapply list_elem_of_lookup_2).
    destruct (decide (c' = c)) as [->|Hcc]; [|exists n'; by rewrite served_other].
    assert (n' = n) as -> by congruence. rewrite served_child by done. eexists. split; [done|].
    pose proof (visited_static n (Some (visited r None))) as Hst.
    pose proof (static_fields _ _ Hst) as (Eid&_&Ew&_&_&_&Epar&_).
    split_and!; cbn [set_quantum parent n_id weight]; [congruence|congruence| | | |congruence].
    + pose proof (quantum_left_range n Hok). rewrite <- (u16_id (quantum_left n)) by (unfold is_u16; lia).
      apply set_quantum_ok, visited_ok, Hok.
    + eapply (static_live env n); [|done]. by rewrite <- Hst.
    + rewrite <- Hs. apply static_sendable. by rewrite <- Hst.
Qed.

(** A run of the scheduler on such streams is a step of the reference. *)
Lemma schedule_flat env sch cs ws st :
  flat env (heap sch) cs ws → wrr_state (heap sch) cs st →
  let '(j, st') := wrr_step ws st in
  ∃ c h', cs !! j = Some c ∧ schedule env sch = Ok (Some c, set_heap sch h') ∧
    flat env h' cs ws ∧ wrr_state h' cs st'.
Proof.
  intros Hflat Hst. pose proof Hflat as
    (Hne & Hnd & Hrt & Hlen & (r & Hr & Hrp & Hrc & Hrok & Hrl & Hrs) & Hcs).
  destruct st as [j qs]. destruct Hst as ((r' & Hr' & Hnx) & Hql & Hqs). cbn [fst snd] in *.
  assert (r' = r) as -> by congruence. subst cs.
  pose proof Hrok as (_ & _ & Hac & _ & _ & Hlt). specialize (Hlt Hne).
  destruct (lookup_lt_is_Some_2 (children r) j) as [c Hc]; [lia|].
  destruct (Hcs j c Hc) as (n & Hn & Hp & Hid & Hok & Hl & Hs & Hw).
  assert (c <> root) as Hcr by (intros ->; by apply Hrt; eapply list_elem_of_lookup_2).
  unfold wrr_step. rewrite (Hqs j c n Hc Hn), Hw. cbn [default from_option id].
  fold (quantum_left n). exists c, (served (heap sch) r c n). split_and!; [done| | |].
  - apply schedule_child; try done. by rewrite Hnx, Nat2Z.id.
  - by eapply served_flat.
  - destruct (served_root (heap sch) r c n Hcr) as [q Hq]. split_and!; cbn [fst snd].
    + eexists. split; [exact Hq|]. cbn [set_quantum set_next set_children nextChild].
      rewrite Hnx, Hac. destruct (quantum_left n =? 0); [|done].
      rewrite Nat2Z.inj_mod, Hlen. f_equal. lia.
    + by rewrite length_insert.
    + intros i c' n' Hi Hn'. destruct (decide (i = j)) as [->|Hij].
      * simplify_eq. rewrite served_child in Hn' by done. simplify_eq.
        rewrite list_lookup_insert_eq by (rewrite Hql; by eapply lookup_lt_Some). done.
      * rewrite list_lookup_insert_ne by done. apply (Hqs i c' n' Hi). rewrite <- Hn'.
        symmetry. apply served_other.
        -- intros ->. by apply Hrt; eapply list_elem_of_lookup_2.
        -- intros ->. apply Hij. by eapply (NoDup_lookup (children r)).
Qed.

(** Simulation of a whole run. *)
Lemma schedule_run_flat env n sch cs ws st :
  flat env (heap sch) cs ws → wrr_state (heap sch) cs st →
  let '(out, st') := wrr_run n ws st in
  ∃ sch', schedule_run n env sch = Ok ((λ j, cs !! j) <$> out, sch') ∧
    flat env (heap sch') cs ws ∧ wrr_state (heap sch') cs st'.
Proof.
  revert sch st. induction n as [|n IH]; intros sch st Hf Hs; cbn [schedule_run].
  - exists sch. done.
  - rewrite wrr_run_S. pose proof (schedule_flat env sch cs ws st Hf Hs) as H.
    destruct (wrr_step ws st) as [j st1]. destruct H as (c & h' & Hc & -> & Hf1 & Hs1).
    cbn [mbind result_bind]. specialize (IH (set_heap sch h') st1 Hf1 Hs1).
    destruct (wrr_run n ws st1) as [out st2]. destruct IH as (sch' & -> & Hf2 & Hs2).
    exists sch'. cbn. by rewrite Hc.
Qed.

Lemma wrr_rounds k ws :
  ws <> [] → Forall (λ w, 0 <= w) ws →
  wrr_run (k * length (round_turns 0 ws)) ws (0%nat, replicate (length ws) 0)
  = (mjoin (replicate k (round_turns 0 ws)), (0%nat, replicate (length ws) 0)).
Proof.
  intros Hne Hpos. induction k as [|k IH]; [done|].
  cbn [Nat.mul replicate]. by rewrite wrr_run_app, wrr_round, IH.
Qed.

(** ** Properties *)

(** C15: as long as no stream of the dependency tree has finished, scheduling is safe and work
    conserving: it terminates without a panic within its fuel, picks a stream that is active and
    not blocked by flow control whenever the tree has one, anywhere, and reports none otherwise;
    and it leaves a tree of the same shape, so that the next call is safe again. *)
Theorem schedule_work_conserving (env : environment) (sch : streamScheduler) (ts : list tree) :
  visit_pre env (heap sch) None (Node root ts) →
  ∃ r sch', schedule env sch = Ok (r, sch') ∧ openStreams sch' = openStreams sch ∧
    visit_pre env (heap sch') None (Node root ts) ∧ same_shape (heap sch) (heap sch') ∧
    match r with
    | Some p => p ∈ ptrs (Node root ts) ∧ ∃ n, heap sch' !! p = Some n ∧ sendable env n = true
    | None => ∀ p n, p ∈ ptrs (Node root ts) → heap sch' !! p = Some n → sendable env n = false
    end.
Proof.
  intros Hpre. destruct (schedule_spec env sch ts Hpre) as (r & h' & Hs & Hshape & Hok & _ & _ & Hpick).
  exists r, (set_heap sch h'). split_and!; try done; [by eapply visit_pre_same|].
  cbn [set_heap heap]. symmetry in Hshape. pose proof (picked_same env h' (heap sch) _ r Hshape Hpick) as H.
  by destruct r.
Qed.

(** C16: streams that are all children of the root and all ready to send are served in weighted
    round robin: in every round each stream gets [weight + 1] turns in a row, in the order of the
    children, round after round -- the walk through the tree refines the reference scheduler. *)
Theorem weighted_round_robin (env : environment) (sch : streamScheduler) (cs : list ptr)
    (ws : list Z) (rounds : nat) :
  flat env (heap sch) cs ws → wrr_state (heap sch) cs (0%nat, replicate (length cs) 0) →
  ∃ sch', schedule_run (rounds * length (round_turns 0 ws)) env sch
          = Ok ((λ j, cs !! j) <$> mjoin (replicate rounds (round_turns 0 ws)), sch') ∧
    flat env (heap sch') cs ws ∧ wrr_state (heap sch') cs (0%nat, replicate (length cs) 0).
Proof.
  intros Hf Hs. pose proof Hf as (Hne & _ & _ & Hlen & _ & Hcs). rewrite <- Hlen in Hs |- *.
  pose proof (schedule_run_flat env (rounds * length (round_turns 0 ws)) sch cs ws _ Hf Hs) as H.
  rewrite wrr_rounds in H; [by destruct H as (sch' & H); exists sch'|..].
  - intros ->. by destruct cs.
  - apply Forall_lookup. intros i w Hi.
    destruct (lookup_lt_is_Some_2 cs i) as [c Hc]; [rewrite <- Hlen; by eapply lookup_lt_Some|].
    destruct (Hcs i c Hc) as (n & _ & _ & _ & Hok & _ & _ & Hw). simplify_eq. apply Hok.
Qed.

(** Streams with data to send and open windows. *)
Definition ready_stream (id : Z) : stream := set_writing (newStream id) 0 (Some [0]) false false.
Definition ready_env (ids : list Z) : environment :=
  mkEnv (list_to_map ((λ id, (id, ready_stream id)) <$> ids)) (λ _, 100).

Definition with_streams (ids : list Z) : streamScheduler :=
  foldl (λ sch id, (addNode sch (Some (newStream id))).2) newStreamScheduler ids.

Definition activate (ids : list Z) (sch : streamScheduler) : result streamScheduler :=
  foldl (λ r id, sch ← r; '(_, sch) ← setActive sch id; Ok sch) (Ok sch) ids.

(** Streams 5, 7 and 9 with weights 0, 1 and 15. *)
Definition sample_scheduler : result streamScheduler :=
  sch ← activate [5; 7; 9] (with_streams [5; 7; 9]);
  '(_, sch) ← maybeSetWeight sch 5 0;
  '(_, sch) ← maybeSetWeight sch 7 1;
  Ok sch.

Definition the_scheduler (r : result streamScheduler) : streamScheduler :=
  match r with Ok sch => sch | _ => newStreamScheduler end.

(** A tree and a flat tree, checked by evaluation. *)
Ltac heap_tac :=
  repeat match goal with
  | |- shape _ _ _ => econstructor; [vm_compute; reflexivity|reflexivity|reflexivity|]
  | |- Forall _ _ => constructor
  | |- _ ∧ _ => split
  end; try (vm_compute; (done || congruence || (repeat split; congruence))).

Lemma sample_scheduler_flat :
  flat (ready_env [5; 7; 9]) (heap (the_scheduler sample_scheduler)) [1; 2; 3] [0; 1; 15] ∧
  wrr_state (heap (the_scheduler sample_scheduler)) [1; 2; 3] (0%nat, replicate 3 0).
Proof.
  split.
  - split_and!; [done| |set_solver|done|eexists; split; [vm_compute; reflexivity|heap_tac]|].
    + repeat constructor; set_solver.
    + intros [|[|[|i]]] c Hi; cbn in Hi; simplify_eq;
        (eexists; split; [vm_compute; reflexivity|heap_tac]).
  - split_and!; [eexists; split; [vm_compute; reflexivity|done]|done|].
    intros [|[|[|i]]] c n Hi Hn; cbn in Hi; simplify_eq;
      vm_compute in Hn; injection Hn as <-; reflexivity.
Qed.

Lemma weighted_round_robin_witness :
  ∃ sch', schedule_run (2 * 19) (ready_env [5; 7; 9]) (the_scheduler sample_scheduler)
    = Ok (Some <$> (mjoin (replicate 2 ([1; 2; 2] ++ replicate 16 3))), sch').
Proof.
  destruct sample_scheduler_flat as [Hf Hs].
  destruct (weighted_round_robin _ _ _ _ 2 Hf Hs) as (sch' & Hrun & _).
  exists sch'. exact Hrun.
Defined.

(** Whether a stream is finished does not depend on the windows. *)
Lemma visit_pre_env env env' h par t :
  env_streams env = env_streams env' → visit_pre env h par t → visit_pre env' h par t.
Proof.
  intros He (H1 & H2 & H3 & H4 & H5). split_and!; try done. intros q n Hq Hn. specialize (H5 q n Hq Hn).
  unfold live, node_stream, get_stream in *. rewrite <- He.
  destruct (n_stream n) as [id|]; [|done]. by destruct (env_streams env !! id).
Qed.

Lemma sample_visit_pre env :
  env_streams env = env_streams (ready_env [5; 7; 9]) →
  visit_pre env (heap (the_scheduler sample_scheduler)) None (Node root [Node 1 []; Node 2 []; Node 3 []]).
Proof.
  intros He. eapply (visit_pre_env (ready_env [5; 7; 9])); [done|].
  split_and!; [heap_tac| |repeat constructor; set_solver|done|].
  - apply (bool_decide_unpack (heap_ok _)). vm_compute. exact I.
  - intros q n Hq Hn. cbn in Hq. repeat (apply elem_of_cons in Hq as [->|Hq]);
      [vm_compute in Hn; simplify_eq; vm_compute; done..|by apply elem_of_nil in Hq].
Qed.

Lemma schedule_work_conserving_witness :
  ∃ r sch', schedule (ready_env [5; 7; 9]) (the_scheduler sample_scheduler) = Ok (r, sch') ∧
    openStreams sch' = 3.
Proof.
  destruct (schedule_work_conserving (ready_env [5; 7; 9]) (the_scheduler sample_scheduler)
    [Node 1 []; Node 2 []; Node 3 []]) as (r & sch' & Hs & Ho & _); [by apply sample_visit_pre|].
  exists r, sch'. split; [exact Hs|]. rewrite Ho. reflexivity.
Defined.

Lemma child_index_spec c cs :
  match child_index c cs with
  | Some i => cs !! i = Some c
  | None => c ∉ cs
  end.
Proof.
  induction cs as [|x cs IH]; cbn; [apply not_elem_of_nil|].
  destruct (Z.eqb_spec x c) as [->|Hne]; [done|].
  destruct (child_index c cs); cbn; [done|]. apply not_elem_of_cons. by split.
Qed.

Lemma remove_child_spec c cs :
  NoDup cs → c ∈ cs → ∃ cs', remove_child c cs = Ok cs' ∧ (c ∉ cs') ∧ cs ≡ₚ c :: cs'.
Proof.
  intros Hnd Hin. pose proof (child_index_spec c cs) as H.
  destruct (child_index c cs) as [i|] eqn:Ei; [|done].
  exists (take i cs ++ drop (S i) cs). split; [unfold remove_child; rewrite Ei; by destruct cs|].
  assert (cs ≡ₚ c :: take i cs ++ drop (S i) cs) as Hp.
  { rewrite <- (take_drop_middle cs i c H) at 1. by rewrite Permutation_middle. }
  split; [|done]. rewrite Hp in Hnd. by apply NoDup_cons in Hnd as [? _].
Qed.

(** C40: closing the last child of a stream drops the stream itself: a stream that is active leaves
    its parent's list as soon as its only child closes, so that it is not scheduled any more,
    although it is still active.  The stream's parent is the root of the tree. *)
Theorem closing_child_drops_parent (h : gmap ptr node) (q p c : ptr) (nq np nc : node) :
  h !! q = Some nq → parent nq = None → NoDup (children nq) → p ∈ children nq →
  0 < activeChildren nq < 2^16 → activeChildren nq = Z.of_nat (length (children nq)) →
  h !! p = Some np → parent np = Some q → state np = nodeActive → children np = [c] →
  activeChildren np = 1 →
  h !! c = Some nc → parent nc = Some p → activeChildren nc = 0 → p <> q → c <> p → c <> q →
  ∃ h' nq' np', deactivateNode h c = Ok h' ∧ h' !! p = Some np' ∧ state np' = nodeActive ∧
    h' !! q = Some nq' ∧ (p ∉ children nq').
Proof.
  intros Hq Hqp Hnd Hin Hqa Hql Hp Hpp Hps Hpc Hpa Hc Hcp Hca Hpq Hcpn Hcq.
  unfold deactivateNode, deref. rewrite Hc. cbn [mbind result_bind set_state parent activeChildren].
  rewrite Hcp, Hca. change (0 =? 0) with true. cbv iota.
  set (h1 := <[c:=_]> h). unfold depth.
  assert (∃ k, size h1 = S k) as [k ->].
  { destruct (size h1) eqn:E; [|eauto]. apply map_size_empty_iff in E.
    assert (h1 !! c = None) as E' by (rewrite E; apply lookup_empty).
    unfold h1 in E'. by rewrite lookup_insert_eq in E'. }
  assert (h1 !! p = Some np) as Hp1 by (unfold h1; by rewrite lookup_insert_ne).
  assert (h1 !! q = Some nq) as Hq1 by (unfold h1; by rewrite lookup_insert_ne).
  destruct (h1 !! c) as [nc1|] eqn:Hc1; [|unfold h1 in Hc1; by rewrite lookup_insert_eq in Hc1].
  cbn [removeWeight]. unfold deref. rewrite Hp1. cbn [mbind result_bind]. rewrite Hc1.
  cbn [mbind result_bind]. rewrite Hpc. cbn [remove_child child_index]. rewrite Z.eqb_refl.
  cbn [default from_option id take drop app mbind result_bind set_children parent activeChildren].
  rewrite Hpa, Hpp. change (u16 (1 - 1) =? 0) with true. cbv iota.
  rewrite (lookup_insert_ne _ p q) by done. rewrite Hq1. cbn [mbind result_bind].
  rewrite lookup_insert_eq. cbn [mbind result_bind].
  destruct (remove_child_spec p (children nq) Hnd Hin) as (cs & -> & Hno & Hperm).
  cbn [mbind result_bind].
  assert (∃ x, (match cs with [] => Ok 0 | _ => mod_len (nextChild nq) cs end) = Ok x) as [x ->].
  { destruct cs as [|c0 cs]; [eauto|]. unfold mod_len.
    apply Permutation_length in Hperm. cbn [length] in Hperm.
    rewrite u16_id by (unfold is_u16; cbn [length]; lia). cbn [length].
    destruct (Z.eqb_spec (Z.of_nat (S (length cs))) 0); [lia|eauto]. }
  cbn [mbind result_bind set_children parent]. rewrite Hqp.
  eexists _, _, _. split_and!; [done|rewrite lookup_insert_ne, lookup_insert_eq by done; done|done
    |apply lookup_insert_eq|done].
Qed.

(** Stream 7 depends on stream 5; both are active. *)
Definition parent_and_child : result streamScheduler :=
  '(_, sch) ← maybeSetParent (with_streams [5; 7]) 7 5 false;
  activate [5; 7] sch.

Lemma closing_child_drops_parent_witness :
  ∃ h' nq' np', deactivateNode (heap (the_scheduler parent_and_child)) 2 = Ok h' ∧
    h' !! 1 = Some np' ∧ state np' = nodeActive ∧ h' !! root = Some nq' ∧ (1 ∉ children nq').
Proof.
  eapply (closing_child_drops_parent (heap (the_scheduler parent_and_child)) root 1 2);
    try (vm_compute; done).
  - vm_compute. repeat constructor; set_solver.
  - vm_compute. set_solver.
Defined.

(** Streams 7, 9 and 11 depend on stream 5; stream 13 is beside it; all are active. *)
Definition family : result streamScheduler :=
  '(_, sch) ← maybeSetParent (with_streams [5; 7; 9; 11; 13]) 7 5 false;
  '(_, sch) ← maybeSetParent sch 9 5 false;
  '(_, sch) ← maybeSetParent sch 11 5 false;
  activate [5; 7; 9; 11; 13] sch.

Definition family_exclusive : result streamScheduler :=
  sch ← family; '(_, sch) ← maybeSetParent sch 13 5 true; Ok sch.

(** An exclusive dependency may stop the connection: five streams are active with data and open
    windows and one of them is scheduled; after one of them is made the exclusive child of a stream
    with three children -- a call that reports no error -- all five are still ready, and the
    scheduler never picks a stream again. *)
Theorem exclusive_dependency_stops :
  let env := ready_env [5; 7; 9; 11; 13] in
  let ready sch := ∀ p, p ∈ [1; 2; 3; 4; 5] → ∃ n, heap sch !! p = Some n ∧ sendable env n = true in
  ∃ sch sch1 p sch2, family = Ok sch ∧ ready sch ∧ schedule env sch = Ok (Some p, sch1) ∧
    family_exclusive = Ok sch2 ∧ openStreams sch2 = 5 ∧ ready sch2 ∧
    ∃ sch3, schedule env sch2 = Ok (None, sch3) ∧ schedule env sch3 = Ok (None, sch3).
Proof.
  cbv zeta. do 4 eexists. split; [vm_compute; reflexivity|].
  assert (∀ sch, forallb (λ p, match heap sch !! p with
    | Some n => sendable (ready_env [5; 7; 9; 11; 13]) n | None => false end) [1; 2; 3; 4; 5] = true →
    ∀ p, p ∈ [1; 2; 3; 4; 5] → ∃ n, heap sch !! p = Some n ∧
      sendable (ready_env [5; 7; 9; 11; 13]) n = true) as Hready.
  { intros sch H p Hp. apply list_elem_of_In in Hp. rewrite forallb_forall in H. specialize (H p Hp).
    destruct (heap sch !! p) as [n|]; [eauto|done]. }
  split; [apply Hready; vm_compute; reflexivity|]. split; [vm_compute; reflexivity|].
  split; [vm_compute; reflexivity|]. split; [reflexivity|].
  split; [apply Hready; vm_compute; reflexivity|].
  eexists. split; [vm_compute; reflexivity|]. vm_compute. reflexivity.
Qed.

(** A child that is added and removed again leaves its parent's weight 2 too high. *)
Lemma weight_leaks (fuel : nat) (h h1 h2 : gmap ptr node) (p c : ptr) (n cn : node) :
  h !! p = Some n → parent n = None → h !! c = Some cn → p <> c → 0 <= weight cn < 2^8 →
  0 <= childrensWeight n < 2^31 → children n = [] →
  addWeight (S fuel) h p c = Ok h1 → removeWeight (S fuel) h1 p c = Ok h2 →
  ∃ n2, h2 !! p = Some n2 ∧ children n2 = [] ∧ childrensWeight n2 = childrensWeight n + 2.
Proof.
  intros Hp Hpar Hc Hne Hw Hcw Hch Hadd Hrem. cbn [addWeight] in Hadd. unfold deref in Hadd.
  rewrite Hp in Hadd. cbn [mbind result_bind] in Hadd. rewrite Hc in Hadd.
  cbn [mbind result_bind set_children parent] in Hadd. rewrite Hpar in Hadd. injection Hadd as <-.
  cbn [removeWeight] in Hrem. unfold deref in Hrem. rewrite lookup_insert_eq in Hrem.
  cbn [mbind result_bind] in Hrem. rewrite lookup_insert_ne, Hc in Hrem by done.
  cbn [mbind result_bind set_children children] in Hrem. rewrite Hch in Hrem.
  cbn [app remove_child child_index] in Hrem. rewrite Z.eqb_refl in Hrem.
  cbn [default from_option id take drop app mbind result_bind set_children parent] in Hrem.
  rewrite Hpar in Hrem. injection Hrem as <-. rewrite lookup_insert_eq. eexists. split_and!; [done|done|].
  cbn [set_children childrensWeight]. zwrap.
Qed.

(** With weight 255 the share of a stream wraps around to 0, and estimating the completion of a
    long stream divides by it. *)
Lemma weight_255_panics (env : environment) (sch : streamScheduler) (p : ptr) (n pn : node)
    (id : Z) (s : stream) :
  heap sch !! p = Some (visited n (Some pn)) → weight n = 255 → n_stream n = Some id →
  env_streams env !! id = Some s → openStreams sch <> 1 →
  MaxPacketSize < lenOfDataForWriting s →
  u64 (lowestQuantum (visited n (Some pn)) * MaxPacketSize) < lenOfDataForWriting s - MaxPacketSize →
  bytesUntilCompletion env sch p = Panic "integer divide by zero".
Proof.
  intros Hp Hw Hid Hs Ho Hlen Hlow. unfold bytesUntilCompletion, deref. rewrite Hp.
  pose proof (static_fields _ _ (visited_static n (Some pn))) as (_ & E & _). cbn [mbind result_bind].
  rewrite E, Hid. unfold get_stream. rewrite Hs. cbn [mbind result_bind].
  destruct (Z.ltb_spec MaxPacketSize (lenOfDataForWriting s)); [|lia].
  rewrite Z.geb_leb. destruct (Z.leb_spec (lenOfDataForWriting s - MaxPacketSize)
    (u64 (lowestQuantum (visited n (Some pn)) * MaxPacketSize))); [lia|].
  destruct (Z.eqb_spec (openStreams sch) 1); [done|]. cbn [orb].
  assert (numerator (visited n (Some pn)) = 0) as ->; [|done].
  unfold visited. destruct (quantum n =? 0); cbn; by rewrite Hw.
Qed.
