(* ===== verification/StreamsMap.v ===== *)
(** * The map of open streams

    streams_map.go: which streams are open, opening streams from both sides, and the round-robin
    iteration over them.  The stream objects live in a store of their own ([store]), which keeps
    an object after the map has dropped it, as the pointers of the stream scheduler do.  The
    limits of the negotiated connection parameters are arguments; a call that waits on a condition
    variable returns [None]. *)

From stdpp Require Import pretty.
From S2P Require Import Prelude ByteOrder Protocol Frames StreamFrame FrameSorter FlowControl Stream.
From S2P Require Import StreamScheduler.

Definition InvalidStreamID : Z := 17.
Definition TooManyOpenStreams : Z := 18.
Definition MaxStreamsPerConnection : Z := 1000.
Definition MaxNewStreamIDDelta : Z := 4 * MaxStreamsPerConnection.

Record streamsMap : Type := mkStreamsMap {
  perspective : Perspective;
  sm_streams : gset Z;
  sm_openStreams : list Z;
  roundRobinIndex : Z;
  nextStream : Z;
  highestStreamOpenedByPeer : Z;
  closeErr : option error;
  nextStreamToAccept : Z;
  numOutgoingStreams : Z;
  numIncomingStreams : Z;
  store : gmap Z stream;
  sm_scheduler : option streamScheduler;
}.

Definition errMapAccess : error := ErrorString "streamsMap: Error accessing the streams map".

(** The limits of the connection parameters manager. *)
Record streamLimits : Type := mkLimits {
  GetMaxOutgoingStreams : Z;
  GetMaxIncomingStreams : Z;
}.

Definition newStreamsMap (pers : Perspective) (sched : option streamScheduler) : streamsMap :=
  let client := match pers with PerspectiveClient => true | PerspectiveServer => false end in
  {| perspective := pers; sm_streams := ∅; sm_openStreams := []; roundRobinIndex := 0;
     nextStream := if client then 1 else 2; highestStreamOpenedByPeer := 0; closeErr := None;
     nextStreamToAccept := if client then 2 else 1; numOutgoingStreams := 0;
     numIncomingStreams := 0; store := ∅; sm_scheduler := sched |}.

Definition is_server (m : streamsMap) : bool :=
  match perspective m with PerspectiveServer => true | PerspectiveClient => false end.

(** The state after the bookkeeping of a stream that is opened: by the peer, or by us. *)
Definition set_open (m : streamsMap) (next highest out inc : Z) : streamsMap :=
  {| perspective := perspective m; sm_streams := sm_streams m; sm_openStreams := sm_openStreams m;
     roundRobinIndex := roundRobinIndex m; nextStream := next; highestStreamOpenedByPeer := highest;
     closeErr := closeErr m; nextStreamToAccept := nextStreamToAccept m; numOutgoingStreams := out;
     numIncomingStreams := inc; store := store m; sm_scheduler := sm_scheduler m |}.

Definition set_streams (m : streamsMap) (ids : gset Z) (l : list Z) (index : Z)
    (st : gmap Z stream) (sched : option streamScheduler) : streamsMap :=
  {| perspective := perspective m; sm_streams := ids; sm_openStreams := l;
     roundRobinIndex := index; nextStream := nextStream m;
     highestStreamOpenedByPeer := highestStreamOpenedByPeer m;
     closeErr := closeErr m; nextStreamToAccept := nextStreamToAccept m;
     numOutgoingStreams := numOutgoingStreams m; numIncomingStreams := numIncomingStreams m;
     store := st; sm_scheduler := sched |}.

Definition set_accept (m : streamsMap) (next : Z) (err : option error) : streamsMap :=
  {| perspective := perspective m; sm_streams := sm_streams m; sm_openStreams := sm_openStreams m;
     roundRobinIndex := roundRobinIndex m; nextStream := nextStream m;
     highestStreamOpenedByPeer := highestStreamOpenedByPeer m;
     closeErr := err; nextStreamToAccept := next; numOutgoingStreams := numOutgoingStreams m;
     numIncomingStreams := numIncomingStreams m; store := store m; sm_scheduler := sm_scheduler m |}.

(** ** Opening streams *)

(** The callers of putStream ignore its error. *)
Definition putStream (m : streamsMap) (s : stream) : option error * streamsMap :=
  let id := streamID s in
  if bool_decide (id ∈ sm_streams m)
  then (Some (ErrorString ("a stream with ID " ++ pretty id ++ " already exists")), m)
  else
    let '(err, sched) :=
      match sm_scheduler m with
      | Some sch => let '(err, sch) := addNode sch (Some s) in (err, Some sch)
      | None => (None, None)
      end in
    (err, set_streams m ({[id]} ∪ sm_streams m) (sm_openStreams m ++ [id]) (roundRobinIndex m)
            (<[id := s]> (store m)) sched).

Definition errFarBelow (id highest : Z) : error :=
  QuicError InvalidStreamID
    ("attempted to open stream " ++ pretty id
     ++ ", which is a lot smaller than the highest opened stream, " ++ pretty highest).

Definition openRemoteStream (limits : streamLimits) (m : streamsMap) (id : Z)
  : option error * streamsMap :=
  if numIncomingStreams m >=? GetMaxIncomingStreams limits
  then (Some (ErrorCode TooManyOpenStreams), m)
  else if u32 (id + MaxNewStreamIDDelta) <? highestStreamOpenedByPeer m
  then (Some (errFarBelow id (highestStreamOpenedByPeer m)), m)
  else
    let out := if is_server m then numOutgoingStreams m else u32 (numOutgoingStreams m + 1) in
    let inc := if is_server m then u32 (numIncomingStreams m + 1) else numIncomingStreams m in
    let highest := if id >? highestStreamOpenedByPeer m then id else highestStreamOpenedByPeer m in
    (None, (putStream (set_open m (nextStream m) highest out inc) (newStream id)).2).

(** The loop that opens all streams up to [id]. *)
Fixpoint open_up_to (fuel : nat) (limits : streamLimits) (m : streamsMap) (sid id : Z)
  : result unit * streamsMap :=
  match fuel with
  | O => (Panic "endless loop", m)
  | S fuel =>
      if sid <=? id then
        match openRemoteStream limits m sid with
        | (Some e, m) => (Err e, m)
        | (None, m) => open_up_to fuel limits m (u32 (sid + 2)) id
        end
      else (Ok tt, m)
  end.

Definition errFromWrongSide (id : Z) (side : string) : error :=
  QuicError InvalidStreamID ("attempted to open stream " ++ pretty id ++ " from " ++ side).

(** The stream, or [None] for a stream that is already closed. *)
Definition GetOrOpenStream (limits : streamLimits) (m : streamsMap) (id : Z)
  : result (option Z) * streamsMap :=
  if bool_decide (id ∈ sm_streams m) then (Ok (Some id), m)
  else
    let ours := if is_server m then id mod 2 =? 0 else id mod 2 =? 1 in
    if ours then
      if id <=? nextStream m then (Ok None, m)
      else (Err (errFromWrongSide id (if is_server m then "client-side" else "server-side")), m)
    else if id <=? highestStreamOpenedByPeer m then (Ok None, m)
    else
      let sid := u32 (highestStreamOpenedByPeer m + 2) in
      let sid := if (sid =? 2) && is_server m then 1 else sid in
      match open_up_to (Z.to_nat ((id - sid) / 2 + 3)) limits m sid id with
      | (Ok _, m) => (Ok (if bool_decide (id ∈ sm_streams m) then Some id else None), m)
      | (Err e, m) => (Err e, m)
      | (Panic w, m) => (Panic w, m)
      end.

Definition openStreamImpl (limits : streamLimits) (m : streamsMap) : result Z * streamsMap :=
  let id := nextStream m in
  if numOutgoingStreams m >=? GetMaxOutgoingStreams limits
  then (Err (ErrorCode TooManyOpenStreams), m)
  else
    let out := if is_server m then u32 (numOutgoingStreams m + 1) else numOutgoingStreams m in
    let inc := if is_server m then numIncomingStreams m else u32 (numIncomingStreams m + 1) in
    (Ok id, (putStream (set_open m (u32 (nextStream m + 2)) (highestStreamOpenedByPeer m) out inc)
               (newStream id)).2).

Definition OpenStream (limits : streamLimits) (m : streamsMap) : result Z * streamsMap :=
  match closeErr m with
  | Some e => (Err e, m)
  | None => openStreamImpl limits m
  end.

(** [None]: the call waits. *)
Definition OpenStreamSync (limits : streamLimits) (m : streamsMap) : option (result Z) * streamsMap :=
  match closeErr m with
  | Some e => (Some (Err e), m)
  | None =>
      match openStreamImpl limits m with
      | (Err e, m) => if decide (e = ErrorCode TooManyOpenStreams) then (None, m) else (Some (Err e), m)
      | (r, m) => (Some r, m)
      end
  end.

Definition AcceptStream (m : streamsMap) : option (result Z) * streamsMap :=
  match closeErr m with
  | Some e => (Some (Err e), m)
  | None =>
      let id := nextStreamToAccept m in
      if bool_decide (id ∈ sm_streams m)
      then (Some (Ok id), set_accept m (u32 (id + 2)) (closeErr m))
      else (None, m)
  end.

(** ** Removing and closing *)

Definition errRemoveUnknown (id : Z) : error :=
  ErrorString ("attempted to remove non-existing stream: " ++ pretty id).

Fixpoint index_of (id : Z) (l : list Z) : option nat :=
  match l with
  | [] => None
  | x :: l => if x =? id then Some O else S <$> index_of id l
  end.

Definition sm_RemoveStream (m : streamsMap) (id : Z) : option error * streamsMap :=
  if negb (bool_decide (id ∈ sm_streams m)) then (Some (errRemoveUnknown id), m)
  else
    let out := if id mod 2 =? 0 then u32 (numOutgoingStreams m - 1) else numOutgoingStreams m in
    let inc := if id mod 2 =? 0 then numIncomingStreams m else u32 (numIncomingStreams m - 1) in
    let '(l, index) :=
      match index_of id (sm_openStreams m) with
      | Some i => (take i (sm_openStreams m) ++ drop (S i) (sm_openStreams m),
                   if Z.of_nat i <? roundRobinIndex m then roundRobinIndex m - 1
                   else roundRobinIndex m)
      | None => (sm_openStreams m, roundRobinIndex m)
      end in
    (None, set_streams (set_open m (nextStream m) (highestStreamOpenedByPeer m) out inc)
             (sm_streams m ∖ {[id]}) l index (store m) (sm_scheduler m)).

(** All open streams are cancelled. *)
Definition CloseWithError (m : streamsMap) (err : error) : streamsMap :=
  let m := set_accept m (nextStreamToAccept m) (Some err) in
  set_streams m (sm_streams m) (sm_openStreams m) (roundRobinIndex m)
    (foldr (λ id, alter (λ s, Cancel s err) id) (store m) (sm_openStreams m)) (sm_scheduler m).

(** ** Iteration *)

(** A function called on a stream: whether to go on, an error, and its effect on a state [St]. *)
Definition stream_lambda (St : Type) : Type := Z → St → bool * option error * St.

Section Iteration.
Context {St : Type}.

Definition iterateFunc (m : streamsMap) (id : Z) (fn : stream_lambda St) (st : St)
  : bool * option error * St :=
  if bool_decide (id ∈ sm_streams m) then fn id st else (true, Some errMapAccess, st).

(** The loop of Iterate over a copy of the list; the function may change the map, which is part
    of its state. *)
Fixpoint iterate_loop (map_of : St → streamsMap) (fn : stream_lambda St) (ids : list Z) (st : St)
  : option error * St :=
  match ids with
  | [] => (None, st)
  | id :: ids =>
      match iterateFunc (map_of st) id fn st with
      | (_, Some e, st) => (Some e, st)
      | (cont, None, st) => if cont then iterate_loop map_of fn ids st else (None, st)
      end
  end.

Definition Iterate (map_of : St → streamsMap) (fn : stream_lambda St) (st : St) : option error * St :=
  iterate_loop map_of fn (sm_openStreams (map_of st)) st.

(** The streams 1 and 3 first; [None] in the last component: return now. *)
Fixpoint priority_loop (m : streamsMap) (fn : stream_lambda St) (ids : list Z) (st : St)
  : option (option error) * St :=
  match ids with
  | [] => (None, st)
  | id :: ids =>
      let '(cont, err, st) := iterateFunc m id fn st in
      match err with
      | Some e => if decide (e = errMapAccess)
                  then (if cont then priority_loop m fn ids st else (Some None, st))
                  else (Some (Some e), st)
      | None => if cont then priority_loop m fn ids st else (Some None, st)
      end
  end.

(** [k] rounds are left of the [numStreams], the next one has index [i]. *)
Fixpoint round_robin_loop (k : nat) (i startIndex numStreams : Z) (m : streamsMap)
    (fn : stream_lambda St) (st : St) : result (option error * streamsMap * St) :=
  match k with
  | O => Ok (None, m, st)
  | S k =>
      match sm_openStreams m !! Z.to_nat (u32 (i + startIndex) mod numStreams) with
      | None => Panic "index out of range"
      | Some id =>
          if (id =? 1) || (id =? 3) then round_robin_loop k (i + 1) startIndex numStreams m fn st
          else
            match iterateFunc m id fn st with
            | (_, Some e, st) => Ok (Some e, m, st)
            | (cont, None, st) =>
                let m := set_streams m (sm_streams m) (sm_openStreams m)
                           (u32 (roundRobinIndex m + 1) mod numStreams) (store m) (sm_scheduler m) in
                if cont then round_robin_loop k (i + 1) startIndex numStreams m fn st
                else Ok (None, m, st)
            end
      end
  end.

Definition RoundRobinIterate (m : streamsMap) (fn : stream_lambda St) (st : St)
  : result (option error * streamsMap * St) :=
  let numStreams := Z.of_nat (size (sm_streams m)) in
  let startIndex := roundRobinIndex m in
  match priority_loop m fn [1; 3] st with
  | (Some err, st) => Ok (err, m, st)
  | (None, st) => round_robin_loop (Z.to_nat numStreams) 0 startIndex numStreams m fn st
  end.

End Iteration.

(** ** The invariant *)

(** The parity of the streams we open, and of those the peer opens. *)
Definition own_parity (m : streamsMap) : Z := if is_server m then 0 else 1.
Definition peer_parity (m : streamsMap) : Z := if is_server m then 1 else 0.

Definition num_parity (par : Z) (l : list Z) : Z :=
  Z.of_nat (length (filter (λ id, id mod 2 = par) l)).

(** Every stream that exists was opened by the side its ID belongs to; the list, the set and the
    counters describe the same open streams. *)
Definition sm_inv (m : streamsMap) : Prop :=
  NoDup (sm_openStreams m) ∧ sm_streams m = list_to_set (sm_openStreams m) ∧
  (∀ id, id ∈ sm_openStreams m → is_Some (store m !! id)) ∧
  (∀ id, is_Some (store m !! id) → 1 <= id < 2^32 ∧
     (id mod 2 = own_parity m ∧ id < nextStream m ∨
      id mod 2 = peer_parity m ∧ id <= highestStreamOpenedByPeer m)) ∧
  nextStream m mod 2 = own_parity m ∧ 1 <= nextStream m ∧
  0 <= highestStreamOpenedByPeer m ∧
  (highestStreamOpenedByPeer m = 0 ∨ highestStreamOpenedByPeer m mod 2 = peer_parity m) ∧
  numOutgoingStreams m = num_parity 0 (sm_openStreams m) ∧
  numIncomingStreams m = num_parity 1 (sm_openStreams m).

Lemma num_parity_snoc par l id :
  num_parity par (l ++ [id]) = num_parity par l + (if decide (id mod 2 = par) then 1 else 0).
Proof.
  unfold num_parity. rewrite filter_app, length_app, filter_cons, filter_nil.
  destruct (decide (id mod 2 = par)); cbn; lia.
Qed.

Lemma num_parity_perm par l l' : l ≡ₚ l' → num_parity par l = num_parity par l'.
Proof. intros H. unfold num_parity. by rewrite H. Qed.

Lemma num_parity_cons par l id :
  num_parity par (id :: l) = num_parity par l + (if decide (id mod 2 = par) then 1 else 0).
Proof.
  rewrite <- num_parity_snoc. apply num_parity_perm. by rewrite Permutation_cons_append.
Qed.

(** Distinct numbers of an interval are no more than its length. *)
Lemma NoDup_bounded (l : list Z) (n : Z) :
  0 <= n → NoDup l → (∀ x, x ∈ l → 0 <= x < n) → Z.of_nat (length l) <= n.
Proof.
  intros Hn Hnd Hb. assert (l ⊆+ seqZ 0 n) as H.
  { apply NoDup_submseteq; [done|]. intros x Hx. apply elem_of_seqZ. specialize (Hb x Hx). lia. }
  apply submseteq_length in H. rewrite length_seqZ in H. lia.
Qed.

Lemma num_parity_bound m par id :
  sm_inv m → 1 <= id < 2^32 → store m !! id = None → 0 <= num_parity par (sm_openStreams m) < 2^32 - 1.
Proof.
  intros (Hnd & _ & Hst & Hids & _) Hid Hno. unfold num_parity. split; [lia|].
  assert (Z.of_nat (length (0 :: id :: sm_openStreams m)) <= 2^32) as H.
  { apply NoDup_bounded; [lia| |].
    - apply NoDup_cons. split.
      + intros [?|H]%elem_of_cons; [lia|]. destruct (Hids _ (Hst _ H)). lia.
      + apply NoDup_cons. split; [|done]. intros H. destruct (Hst _ H). congruence.
    - intros x [->|[->|Hx]%elem_of_cons]%elem_of_cons; [lia|lia|]. destruct (Hids x (Hst x Hx)). lia. }
  cbn [length] in H. pose proof (length_filter (λ id, id mod 2 = par) (sm_openStreams m)). lia.
Qed.

(** A new stream is put into the map. *)
Lemma putStream_new m s :
  streamID s ∉ sm_streams m →
  let m' := (putStream m s).2 in
  sm_streams m' = {[streamID s]} ∪ sm_streams m ∧
  sm_openStreams m' = sm_openStreams m ++ [streamID s] ∧
  store m' = <[streamID s := s]> (store m) ∧ perspective m' = perspective m ∧
  nextStream m' = nextStream m ∧ highestStreamOpenedByPeer m' = highestStreamOpenedByPeer m ∧
  numOutgoingStreams m' = numOutgoingStreams m ∧ numIncomingStreams m' = numIncomingStreams m ∧
  roundRobinIndex m' = roundRobinIndex m.
Proof.
  intros Hno m'. unfold m', putStream. rewrite bool_decide_false by done.
  destruct (sm_scheduler m) as [sch|]; [destruct (addNode sch (Some s))|]; done.
Qed.

(** Opening stream [id], by us ([own]) or by the peer. *)
Lemma open_inv m id next highest :
  sm_inv m → 1 <= id < 2^32 → store m !! id = None →
  nextStream m <= next → highestStreamOpenedByPeer m <= highest →
  next mod 2 = own_parity m → (highest = 0 ∨ highest mod 2 = peer_parity m) →
  (id mod 2 = own_parity m ∧ id < next ∨ id mod 2 = peer_parity m ∧ id <= highest) →
  sm_inv (putStream (set_open m next highest
    (if id mod 2 =? 0 then u32 (numOutgoingStreams m + 1) else numOutgoingStreams m)
    (if id mod 2 =? 0 then numIncomingStreams m else u32 (numIncomingStreams m + 1)))
    (newStream id)).2.
Proof.
  intros Hinv Hid Hno Hnext Hhigh Hpn Hph Hside.
  pose proof (num_parity_bound m 0 id Hinv Hid Hno) as Hb0.
  pose proof (num_parity_bound m 1 id Hinv Hid Hno) as Hb1.
  destruct Hinv as (Hnd & Hset & Hst & Hids & Hpar & Hn1 & Hh0 & Hhp & Hout & Hin).
  assert (id ∉ sm_openStreams m) as Hnl by (intros H; destruct (Hst id H); congruence).
  set (out := if id mod 2 =? 0 then u32 _ else _).
  set (inc := if id mod 2 =? 0 then numIncomingStreams m else _).
  destruct (putStream_new (set_open m next highest out inc) (newStream id))
    as (E1 & E2 & E3 & E4 & E5 & E6 & E7 & E8 & _).
  { cbn [set_open sm_streams newStream streamID]. rewrite Hset. by rewrite elem_of_list_to_set. }
  cbn [set_open sm_streams sm_openStreams store nextStream highestStreamOpenedByPeer
       numOutgoingStreams numIncomingStreams newStream streamID perspective] in *.
  unfold sm_inv, own_parity, peer_parity, is_server in *. rewrite E1, E2, E3, E4, E5, E6, E7, E8.
  split_and!; try done; [| | | |lia|lia|..].
  - apply NoDup_app. split_and!; [done| |apply NoDup_singleton].
    intros x Hx Hx'. by apply list_elem_of_singleton in Hx' as ->.
  - rewrite list_to_set_app_L, Hset. set_solver.
  - intros x [Hx|Hx]%elem_of_app; [|apply list_elem_of_singleton in Hx as ->].
    + destruct (decide (x = id)) as [->|]; [rewrite lookup_insert_eq; eauto|].
      rewrite lookup_insert_ne by done. by apply Hst.
    + rewrite lookup_insert_eq. eauto.
  - intros x Hx. destruct (decide (x = id)) as [->|]; [done|].
    rewrite lookup_insert_ne in Hx by done. destruct (Hids x Hx) as [? [[? ?]|[? ?]]];
      (split; [done|]); [left|right]; split; (done || lia).
  - unfold out, inc. rewrite num_parity_snoc. pose proof (Z.mod_pos_bound id 2 ltac:(lia)).
    destruct (Z.eqb_spec (id mod 2) 0), (decide (id mod 2 = 0)); try lia.
    rewrite u32_id by (unfold is_u32; lia). lia.
  - unfold out, inc. rewrite num_parity_snoc. pose proof (Z.mod_pos_bound id 2 ltac:(lia)).
    destruct (Z.eqb_spec (id mod 2) 0), (decide (id mod 2 = 1)); try lia.
    rewrite u32_id by (unfold is_u32; lia). lia.
Qed.

(** [m'] has opened streams that satisfy [P], none of which ever existed. *)
Definition opens (m m' : streamsMap) (P : Z → Prop) : Prop :=
  perspective m' = perspective m ∧ store m ⊆ store m' ∧ sm_streams m ⊆ sm_streams m' ∧
  (∀ x, x ∈ sm_streams m' → x ∈ sm_streams m ∨ store m !! x = None ∧ P x).

Lemma opens_refl m P : opens m m P.
Proof. split_and!; try done. by left. Qed.

Lemma opens_trans m1 m2 m3 (P Q R : Z → Prop) :
  (∀ x, P x → R x) → (∀ x, Q x → R x) → opens m1 m2 P → opens m2 m3 Q → opens m1 m3 R.
Proof.
  intros HP HQ (E1 & S1 & I1 & O1) (E2 & S2 & I2 & O2).
  split_and!; [congruence|by trans (store m2)|set_solver|].
  intros x Hx. destruct (O2 x Hx) as [Hx2|[Hn Hq]].
  - destruct (O1 x Hx2) as [?|[? ?]]; [by left|right; auto].
  - right. split; [|auto]. by eapply lookup_weaken_None.
Qed.

Lemma openRemoteStream_spec limits m id e m' :
  sm_inv m → id mod 2 = peer_parity m → highestStreamOpenedByPeer m < id < 2^32 →
  openRemoteStream limits m id = (e, m') →
  sm_inv m' ∧ opens m m' (λ x, x = id) ∧ nextStream m' = nextStream m ∧
  match e with
  | None => highestStreamOpenedByPeer m' = id ∧ id ∈ sm_streams m'
  | Some _ => m' = m
  end.
Proof.
  intros Hinv Hpar Hid Ho. unfold openRemoteStream in Ho.
  destruct (_ >=? _); [simplify_eq; split_and!; [done|apply opens_refl|done|done]|].
  destruct (_ <? _); [simplify_eq; split_and!; [done|apply opens_refl|done|done]|].
  rewrite Z.gtb_ltb in Ho. destruct (Z.ltb_spec (highestStreamOpenedByPeer m) id); [|lia].
  pose proof Hinv as (_ & Hset & Hst & Hids & Hnp & Hn1 & Hh0 & _).
  assert (store m !! id = None) as Hno.
  { destruct (store m !! id) eqn:E; [|done]. destruct (Hids id) as [_ [[? ?]|[? ?]]]; [eauto| |lia].
    unfold own_parity, peer_parity in *. destruct (is_server m); lia. }
  pose proof (open_inv m id (nextStream m) id Hinv ltac:(lia) Hno ltac:(lia) ltac:(lia) Hnp
    ltac:(by right) ltac:(right; split; [done|lia])) as Hinv'.
  set (out := if is_server m then numOutgoingStreams m else u32 _) in *.
  set (inc := if is_server m then u32 _ else _) in *.
  assert ((if id mod 2 =? 0 then u32 (numOutgoingStreams m + 1) else numOutgoingStreams m) = out) as Eo
    by (unfold out, peer_parity in *; rewrite Hpar; by destruct (is_server m)).
  assert ((if id mod 2 =? 0 then numIncomingStreams m else u32 (numIncomingStreams m + 1)) = inc) as Ei
    by (unfold inc, peer_parity in *; rewrite Hpar; by destruct (is_server m)).
  rewrite Eo, Ei in Hinv'.
  assert (id ∉ sm_streams m) as Hni.
  { rewrite Hset, elem_of_list_to_set. intros H'. destruct (Hst id H'). congruence. }
  destruct (putStream_new (set_open m (nextStream m) id out inc) (newStream id) Hni)
    as (E1 & E2 & E3 & E4 & E5 & E6 & _).
  injection Ho as <- <-. cbn [set_open sm_streams store perspective nextStream
    highestStreamOpenedByPeer newStream streamID] in *.
  split_and!; [done| |done|done|rewrite E1; set_solver].
  split_and!; [done|rewrite E3; by apply insert_subseteq|rewrite E1; set_solver|].
  intros x Hx. rewrite E1 in Hx. apply elem_of_union in Hx as [Hx|?]; [right|by left].
  apply elem_of_singleton in Hx as ->. done.
Qed.

Lemma open_up_to_spec limits fuel m sid id r m' :
  sm_inv m → sid mod 2 = peer_parity m → highestStreamOpenedByPeer m < sid →
  id < 2^32 - 2 → sid <= id + 2 → id mod 2 = peer_parity m → (id - sid) / 2 + 1 < Z.of_nat fuel →
  open_up_to fuel limits m sid id = (r, m') →
  sm_inv m' ∧ nextStream m' = nextStream m ∧
  opens m m' (λ x, x mod 2 = peer_parity m ∧ sid <= x <= id) ∧
  match r with
  | Ok _ => sid <= id → id ∈ sm_streams m'
  | Err _ => True
  | Panic _ => False
  end.
Proof.
  revert m sid. induction fuel as [|fuel IH]; intros m sid Hinv Hpar Hhigh Hid Hsid Hip Hfuel Ho.
  { assert (-1 <= (id - sid) / 2) by (apply Z.div_le_lower_bound; lia). lia. }
  cbn [open_up_to] in Ho. destruct (Z.leb_spec sid id).
  2:{ simplify_eq. split_and!; [done|done|apply opens_refl|lia]. }
  destruct (openRemoteStream limits m sid) as [e m1] eqn:Er.
  destruct (openRemoteStream_spec limits m sid e m1 Hinv Hpar ltac:(lia) Er) as (Hinv1 & Hop & Hn & He).
  assert (peer_parity m1 = peer_parity m) as Epp
    by (unfold peer_parity, is_server; by rewrite (proj1 Hop)).
  destruct e as [e|].
  { simplify_eq. split_and!; [done|done|apply opens_refl|done]. }
  destruct He as [He Hin]. rewrite u32_id in Ho by (unfold is_u32; pose proof Hinv as (_&_&_&_&_&_&?&_); lia).
  destruct (IH m1 (sid + 2)) as (Hinv2 & Hn2 & Hop2 & Hr); try done.
  - rewrite Epp, <- Hpar, <- (Z.add_mod_idemp_r sid 2 2) by lia. by rewrite Z.add_0_r.
  - lia.
  - assert (sid <> id - 1) by (intros ->; unfold peer_parity in *; destruct (is_server m); zwrap). lia.
  - by rewrite Epp.
  - replace (id - (sid + 2)) with (id - sid + (-1) * 2) by lia. rewrite Z.div_add by lia. lia.
  - split_and!; [done|congruence| |].
    + eapply opens_trans; [..|exact Hop|exact Hop2]; cbn.
      * intros x ->. split; [done|lia].
      * intros x [? ?]. rewrite <- Epp. split; [done|lia].
    + destruct r as [[]|?|?]; try done. intros _. destruct (Z.le_gt_cases (sid + 2) id); [by apply Hr|].
      assert (sid = id) as ->; [|by apply Hop2].
      unfold peer_parity in *; destruct (is_server m); zwrap.
Qed.

Lemma GetOrOpenStream_spec limits m id r m' :
  sm_inv m → 0 <= id < 2^32 - 2 → GetOrOpenStream limits m id = (r, m') →
  sm_inv m' ∧ nextStream m' = nextStream m ∧
  opens m m' (λ x, x mod 2 = peer_parity m ∧ highestStreamOpenedByPeer m < x <= id) ∧
  match r with
  | Ok (Some i) => i = id ∧ id ∈ sm_streams m'
  | Ok None => m' = m ∧ (id ∉ sm_streams m)
  | Err _ => True
  | Panic _ => False
  end.
Proof.
  intros Hinv Hid Hg. unfold GetOrOpenStream in Hg.
  destruct (decide (id ∈ sm_streams m)) as [Hin|Hni].
  { rewrite bool_decide_true in Hg by done. simplify_eq. split_and!; try done. apply opens_refl. }
  rewrite bool_decide_false in Hg by done. pose proof Hinv as (_&_&_&_&_&_&Hh0&Hhp&_).
  set (ours := if is_server m then id mod 2 =? 0 else id mod 2 =? 1) in Hg.
  destruct ours eqn:Eours; unfold ours in Eours.
  { destruct (id <=? nextStream m); simplify_eq; split_and!; try done; apply opens_refl. }
  assert (id mod 2 = peer_parity m) as Hpar.
  { unfold peer_parity. pose proof (Z.mod_pos_bound id 2 ltac:(lia)).
    destruct (is_server m); apply Z.eqb_neq in Eours; lia. }
  destruct (Z.leb_spec id (highestStreamOpenedByPeer m)) as [|Hgt].
  { simplify_eq; split_and!; try done; apply opens_refl. }
  rewrite u32_id in Hg by (unfold is_u32; lia).
  set (sid := if (highestStreamOpenedByPeer m + 2 =? 2) && is_server m then 1 else _) in Hg.
  assert (sid mod 2 = peer_parity m ∧ highestStreamOpenedByPeer m < sid <= id) as [Hsp Hsid].
  { unfold sid, peer_parity in *. destruct (Z.eqb_spec (highestStreamOpenedByPeer m + 2) 2) as [E|E];
      destruct (is_server m); cbn [andb]; (split; [|zwrap]); zwrap. }
  destruct (open_up_to _ limits m sid id) as [r1 m1] eqn:Eo.
  destruct (open_up_to_spec limits (Z.to_nat ((id - sid) / 2 + 3)) m sid id r1 m1 Hinv Hsp ltac:(lia) ltac:(lia) ltac:(lia) Hpar)
    as (Hinv1 & Hn1 & Hop & Hr); [|exact Eo|].
  { rewrite Z2Nat.id; [lia|]. assert (0 <= (id - sid) / 2) by (apply Z.div_pos; lia). lia. }
  assert (opens m m1 (λ x, x mod 2 = peer_parity m ∧ highestStreamOpenedByPeer m < x <= id)) as Hop'.
  { eapply opens_trans; [..|exact Hop|apply (opens_refl _ (λ _, False))]; [|done].
    cbn. intros x [? ?]. split; [done|lia]. }
  destruct r1 as [[]|e|w]; simplify_eq; split_and!; try done.
  rewrite bool_decide_true by (apply Hr; lia). split; [done|apply Hr; lia].
Qed.

Lemma openStreamImpl_spec limits m r m' :
  sm_inv m → nextStream m < 2^32 - 2 → openStreamImpl limits m = (r, m') →
  sm_inv m' ∧ opens m m' (λ x, x = nextStream m ∧ r = Ok x) ∧
  highestStreamOpenedByPeer m' = highestStreamOpenedByPeer m ∧
  match r with Ok id => id = nextStream m ∧ id ∈ sm_streams m' | _ => m' = m end.
Proof.
  intros Hinv Hlt Ho. unfold openStreamImpl in Ho.
  destruct (_ >=? _); [simplify_eq; split_and!; [done|apply opens_refl|done|done]|].
  pose proof Hinv as (_ & Hset & Hst & Hids & Hnp & Hn1 & Hh0 & Hhp & _).
  set (id := nextStream m) in *.
  assert (store m !! id = None) as Hno.
  { destruct (store m !! id) eqn:E; [|done]. destruct (Hids id) as [_ [[? ?]|[? ?]]]; [eauto|lia|].
    unfold own_parity, peer_parity in *. destruct (is_server m); lia. }
  rewrite (u32_id (id + 2)) in Ho by (unfold is_u32; lia).
  assert ((id + 2) mod 2 = own_parity m) as Hnp'
    by (unfold own_parity in *; destruct (is_server m); zwrap).
  pose proof (open_inv m id (id + 2) (highestStreamOpenedByPeer m) Hinv ltac:(lia) Hno ltac:(lia)
    ltac:(lia) Hnp' Hhp ltac:(left; split; [done|lia])) as Hinv'.
  set (out := if is_server m then u32 _ else _) in *.
  set (inc := if is_server m then numIncomingStreams m else _) in *.
  assert ((if id mod 2 =? 0 then u32 (numOutgoingStreams m + 1) else numOutgoingStreams m) = out) as Eo
    by (unfold out, own_parity in *; rewrite Hnp; by destruct (is_server m)).
  assert ((if id mod 2 =? 0 then numIncomingStreams m else u32 (numIncomingStreams m + 1)) = inc) as Ei
    by (unfold inc, own_parity in *; rewrite Hnp; by destruct (is_server m)).
  rewrite Eo, Ei in Hinv'.
  assert (id ∉ sm_streams m) as Hni.
  { rewrite Hset, elem_of_list_to_set. intros H'. destruct (Hst id H'). congruence. }
  destruct (putStream_new (set_open m (id + 2) (highestStreamOpenedByPeer m) out inc) (newStream id) Hni)
    as (E1 & E2 & E3 & E4 & E5 & E6 & _).
  injection Ho as <- <-. cbn [set_open sm_streams store perspective nextStream
    highestStreamOpenedByPeer newStream streamID] in *.
  split_and!; [done| |done|done|rewrite E1; set_solver].
  split_and!; [done|rewrite E3; by apply insert_subseteq|rewrite E1; set_solver|].
  intros x Hx. rewrite E1 in Hx. apply elem_of_union in Hx as [Hx|?]; [right|by left].
  apply elem_of_singleton in Hx as ->. done.
Qed.

Lemma index_of_spec id l :
  match index_of id l with Some i => l !! i = Some id | None => id ∉ l end.
Proof.
  induction l as [|x l IH]; cbn; [apply not_elem_of_nil|].
  destruct (Z.eqb_spec x id) as [->|Hne]; [done|].
  destruct (index_of id l); cbn; [done|]. apply not_elem_of_cons. by split.
Qed.

Lemma RemoveStream_spec m id e m' :
  sm_inv m → sm_RemoveStream m id = (e, m') →
  sm_inv m' ∧ sm_streams m' = sm_streams m ∖ {[id]} ∧ store m' = store m ∧
  perspective m' = perspective m ∧ nextStream m' = nextStream m ∧
  highestStreamOpenedByPeer m' = highestStreamOpenedByPeer m ∧ (e = None ↔ id ∈ sm_streams m) ∧
  nextStreamToAccept m' = nextStreamToAccept m ∧ numOutgoingStreams m' <= numOutgoingStreams m ∧
  numIncomingStreams m' <= numIncomingStreams m.
Proof.
  intros Hinv Hr. unfold sm_RemoveStream in Hr. destruct (decide (id ∈ sm_streams m)) as [Hin|Hni].
  2:{ rewrite bool_decide_false in Hr by done. cbn in Hr. simplify_eq. split_and!; try done. set_solver. }
  rewrite bool_decide_true in Hr by done. cbn [negb] in Hr.
  pose proof Hinv as (Hnd & Hset & Hst & Hids & Hnp & Hn1 & Hh0 & Hhp & Hout & Hinc).
  pose proof (index_of_spec id (sm_openStreams m)) as Hi.
  destruct (index_of id (sm_openStreams m)) as [i|].
  2:{ rewrite Hset, elem_of_list_to_set in Hin. done. }
  set (l := take i (sm_openStreams m) ++ drop (S i) (sm_openStreams m)) in *.
  assert (sm_openStreams m ≡ₚ id :: l) as Hperm.
  { rewrite <- (take_drop_middle _ _ _ Hi) at 1. unfold l. by rewrite Permutation_middle. }
  pose proof Hnd as Hnd'. rewrite Hperm in Hnd'. apply NoDup_cons in Hnd' as [Hno Hndl].
  assert (∀ x, x ∈ l → x ∈ sm_openStreams m) as Hsub by (intros x Hx; rewrite Hperm; set_solver).
  assert (sm_streams m = {[id]} ∪ list_to_set l) as Hset'
    by (rewrite Hset, Hperm; done).
  assert (∀ par, num_parity par (sm_openStreams m)
    = num_parity par l + (if decide (id mod 2 = par) then 1 else 0)) as Hnum.
  { intros par. rewrite (num_parity_perm par _ _ Hperm). apply num_parity_cons. }
  assert (∀ par, 0 <= num_parity par l < 2^32) as Hb.
  { intros par. unfold num_parity. split; [lia|].
    pose proof (length_filter (λ id, id mod 2 = par) l).
    assert (Z.of_nat (length (0 :: l)) <= 2^32) as Hl; [|cbn in Hl; lia]. apply NoDup_bounded; [lia| |].
    - apply NoDup_cons. split; [|done]. intros Hx. destruct (Hids 0 (Hst 0 (Hsub 0 Hx))). lia.
    - intros x [->|Hx]%elem_of_cons; [lia|]. destruct (Hids x (Hst x (Hsub x Hx))). lia. }
  pose proof (Z.mod_pos_bound id 2 ltac:(lia)).
  set (out := if id mod 2 =? 0 then u32 (numOutgoingStreams m - 1) else _) in Hr.
  set (inc := if id mod 2 =? 0 then numIncomingStreams m else _) in Hr.
  assert (out = num_parity 0 l) as Eout.
  { unfold out. rewrite Hout, Hnum. destruct (Z.eqb_spec (id mod 2) 0), (decide (id mod 2 = 0)); try lia.
    rewrite Z.add_simpl_r. apply u32_id, Hb. }
  assert (inc = num_parity 1 l) as Einc.
  { unfold inc. rewrite Hinc, Hnum. destruct (Z.eqb_spec (id mod 2) 0), (decide (id mod 2 = 1)); try lia.
    rewrite Z.add_simpl_r. apply u32_id, Hb. }
  injection Hr as <- <-. cbn [set_streams set_open sm_streams sm_openStreams store nextStream
    highestStreamOpenedByPeer numOutgoingStreams numIncomingStreams perspective nextStreamToAccept].
  split_and!; try done.
  - unfold sm_inv, own_parity, peer_parity, is_server in *.
    cbn [set_streams set_open sm_streams sm_openStreams store nextStream highestStreamOpenedByPeer
         numOutgoingStreams numIncomingStreams perspective].
    split_and!; try done; [|by auto]. rewrite Hset'. set_solver.
  - rewrite Eout, Hout, Hnum. case_decide; lia.
  - rewrite Einc, Hinc, Hnum. case_decide; lia.
Qed.

(** ** Runs of the map *)

Inductive map_event : Type :=
  | evOpenStream
  | evGetOrOpenStream (id : Z)
  | evAcceptStream
  | evRemoveStream (id : Z)
  | evCloseWithError (err : error).

Definition sm_step (limits : streamLimits) (m : streamsMap) (ev : map_event) : streamsMap :=
  match ev with
  | evOpenStream => (OpenStream limits m).2
  | evGetOrOpenStream id => (GetOrOpenStream limits m id).2
  | evAcceptStream => (AcceptStream m).2
  | evRemoveStream id => (sm_RemoveStream m id).2
  | evCloseWithError err => CloseWithError m err
  end.

(** The streams a step opens, and the stream it accepts. *)
Definition step_opened (m m' : streamsMap) : list Z :=
  filter (λ id, id ∉ sm_streams m) (sm_openStreams m').

Definition step_accepted (m : streamsMap) (ev : map_event) : list Z :=
  match ev with
  | evAcceptStream => match (AcceptStream m).1 with Some (Ok id) => [id] | _ => [] end
  | _ => []
  end.

(** The streams opened, with the side ([true]: the peer) whose call opened them, the streams
    accepted, and the state after the events. *)
Fixpoint sm_run (limits : streamLimits) (m : streamsMap) (evs : list map_event)
  : list (bool * Z) * list Z * streamsMap :=
  match evs with
  | [] => ([], [], m)
  | ev :: evs =>
      let m1 := sm_step limits m ev in
      let peer := match ev with evGetOrOpenStream _ => true | _ => false end in
      let '(opened, accepted, m2) := sm_run limits m1 evs in
      (map (pair peer) (step_opened m m1) ++ opened, step_accepted m ev ++ accepted, m2)
  end.

(** The stream IDs the peer names are not the last two of the 32-bit range. *)
Definition event_ok (ev : map_event) : Prop :=
  match ev with evGetOrOpenStream id => 0 <= id < 2^32 - 2 | _ => True end.

(** A server's open streams are within the limits. *)
Definition within (limits : streamLimits) (m : streamsMap) : Prop :=
  is_server m = true →
  numIncomingStreams m <= GetMaxIncomingStreams limits ∧
  numOutgoingStreams m <= GetMaxOutgoingStreams limits.

(** What opening a stream does not change. *)
Lemma putStream_fields m s :
  let m' := (putStream m s).2 in
  perspective m' = perspective m ∧ numOutgoingStreams m' = numOutgoingStreams m ∧
  numIncomingStreams m' = numIncomingStreams m ∧ nextStreamToAccept m' = nextStreamToAccept m ∧
  closeErr m' = closeErr m ∧ roundRobinIndex m' = roundRobinIndex m.
Proof.
  intros m'. unfold m', putStream. case_bool_decide; [done|].
  destruct (sm_scheduler m) as [sch|]; [destruct (addNode sch (Some s))|]; done.
Qed.

(** The limits, with counters that are not negative. *)
Definition bounded (limits : streamLimits) (m : streamsMap) : Prop :=
  0 <= numIncomingStreams m ∧ 0 <= numOutgoingStreams m ∧ within limits m.

Lemma u32_succ x : 0 <= x → 0 <= u32 (x + 1) <= x + 1.
Proof. intros. unfold u32. split; [apply Z.mod_pos_bound; lia|apply Z.mod_le; lia]. Qed.

Lemma openRemoteStream_bounded limits m id :
  bounded limits m →
  let m' := (openRemoteStream limits m id).2 in
  bounded limits m' ∧ nextStreamToAccept m' = nextStreamToAccept m.
Proof.
  intros (Hi & Ho & Hw) m'. unfold m', openRemoteStream.
  destruct (Z.geb_spec (numIncomingStreams m) (GetMaxIncomingStreams limits)); [done|].
  destruct (_ <? _); [done|]. cbv zeta. cbn [snd].
  match goal with |- context [putStream ?a ?b] =>
    generalize (putStream_fields a b); generalize (putStream a b).2 end.
  cbn [set_open perspective numIncomingStreams numOutgoingStreams nextStreamToAccept].
  intros m2 (Ep & Eo & Ei & Ea & _). unfold bounded, within, is_server in *. rewrite Ep, Eo, Ei, Ea.
  pose proof (u32_succ _ Hi). pose proof (u32_succ _ Ho).
  destruct (perspective m); split_and!; try lia; intros H'; try done; specialize (Hw eq_refl); lia.
Qed.

Lemma open_up_to_bounded fuel limits m sid id :
  bounded limits m →
  let m' := (open_up_to fuel limits m sid id).2 in
  bounded limits m' ∧ nextStreamToAccept m' = nextStreamToAccept m.
Proof.
  revert m sid. induction fuel as [|fuel IH]; intros m sid Hb; [done|]. cbn [open_up_to].
  destruct (_ <=? _); [|done]. destruct (openRemoteStream_bounded limits m sid Hb) as [Hb1 Ha1].
  destruct (openRemoteStream limits m sid) as [[e|] m1]; [done|]. cbn [snd] in *.
  destruct (IH m1 (u32 (sid + 2)) Hb1) as [Hb2 Ha2]. split; [done|congruence].
Qed.

Lemma GetOrOpenStream_bounded limits m id :
  bounded limits m →
  let m' := (GetOrOpenStream limits m id).2 in
  bounded limits m' ∧ nextStreamToAccept m' = nextStreamToAccept m.
Proof.
  intros Hb. unfold GetOrOpenStream. case_bool_decide; [done|].
  destruct (if is_server m then _ else _); [by destruct (_ <=? _)|].
  destruct (id <=? _); [done|]. cbv zeta.
  match goal with |- context [open_up_to ?f ?l ?m0 ?s ?i] =>
    pose proof (open_up_to_bounded f l m0 s i Hb) as H'; destruct (open_up_to f l m0 s i) as [[?|?|?] ?] end;
    exact H'.
Qed.

Lemma openStreamImpl_bounded limits m :
  bounded limits m →
  let m' := (openStreamImpl limits m).2 in
  bounded limits m' ∧ nextStreamToAccept m' = nextStreamToAccept m.
Proof.
  intros (Hi & Ho & Hw) m'. unfold m', openStreamImpl.
  destruct (Z.geb_spec (numOutgoingStreams m) (GetMaxOutgoingStreams limits)); [done|].
  cbv zeta. cbn [snd].
  match goal with |- context [putStream ?a ?b] =>
    generalize (putStream_fields a b); generalize (putStream a b).2 end.
  cbn [set_open perspective numIncomingStreams numOutgoingStreams nextStreamToAccept].
  intros m2 (Ep & Eo & Ei & Ea & _). unfold bounded, within, is_server in *. rewrite Ep, Eo, Ei, Ea.
  pose proof (u32_succ _ Hi). pose proof (u32_succ _ Ho).
  destruct (perspective m); split_and!; try lia; intros H'; try done; specialize (Hw eq_refl); lia.
Qed.

(** The state between events: the streams exist below the last IDs, and the accepted streams are
    the peer's. *)
Definition run_inv (limits : streamLimits) (m : streamsMap) : Prop :=
  sm_inv m ∧ bounded limits m ∧ (∀ x, x ∈ sm_streams m → x < 2^32 - 2).

Definition side_parity (m : streamsMap) (ev : map_event) : Z :=
  match ev with evGetOrOpenStream _ => peer_parity m | _ => own_parity m end.

(** The IDs a step opens never existed, and belong to the side that opens them. *)
Definition step_post (limits : streamLimits) (ev : map_event) (m m' : streamsMap) : Prop :=
  run_inv limits m' ∧ perspective m' = perspective m ∧ dom (store m) ⊆ dom (store m') ∧
  (∀ x, x ∈ sm_streams m' → x ∈ sm_streams m ∨ (x ∉ dom (store m)) ∧ x mod 2 = side_parity m ev) ∧
  nextStream m' <= nextStream m + 2 ∧
  nextStreamToAccept m' = nextStreamToAccept m + 2 * Z.of_nat (length (step_accepted m ev)).

Lemma opens_post limits ev m m' P :
  run_inv limits m → sm_inv m' → bounded limits m' ∧ nextStreamToAccept m' = nextStreamToAccept m →
  opens m m' P → (∀ x, P x → x < 2^32 - 2 ∧ x mod 2 = side_parity m ev) →
  step_accepted m ev = [] → nextStream m' <= nextStream m + 2 → step_post limits ev m m'.
Proof.
  intros (_ & _ & Hlt) Hinv' [Hb' Ha] (Ep & Hst & Hsub & Hop) HP Hacc Hn.
  unfold step_post. rewrite Hacc, Ha, Z.add_0_r. split_and!; try done.
  - split_and!; [done|done|]. intros x Hx. destruct (Hop x Hx) as [?|[_ ?]]; [auto|by apply HP].
  - by apply subseteq_dom.
  - intros x Hx. destruct (Hop x Hx) as [?|[Hno ?]]; [by left|right].
    split; [by apply not_elem_of_dom|by apply HP].
Qed.

Lemma step_post_refl limits ev m :
  run_inv limits m → step_accepted m ev = [] → step_post limits ev m m.
Proof.
  intros Hr Hacc. eapply (opens_post limits ev m m (λ _, False)); try done; [apply Hr|split; [apply Hr|done]|
    apply opens_refl|lia].
Qed.

(** Cancelling streams changes the objects, not which exist. *)
Lemma dom_cancel (f : stream → stream) (st : gmap Z stream) ids :
  dom (foldr (λ id, alter f id) st ids) = dom st.
Proof. induction ids as [|id ids IH]; cbn; [done|]. by rewrite dom_alter_L. Qed.

Lemma close_inv m err : sm_inv m → sm_inv (CloseWithError m err).
Proof.
  intros (Hnd & Hset & Hst & Hids & Hrest). unfold sm_inv, CloseWithError.
  cbn [set_streams set_accept sm_streams sm_openStreams store nextStream highestStreamOpenedByPeer
       numOutgoingStreams numIncomingStreams].
  assert (∀ id, is_Some (foldr (λ id, alter (λ s, Cancel s err) id) (store m) (sm_openStreams m) !! id)
    ↔ is_Some (store m !! id)) as He by (intros id; by rewrite <- !elem_of_dom, dom_cancel).
  split_and!; try done; [|intros id Hid; apply Hids, He, Hid|apply Hrest..].
  intros id Hid. apply He. auto.
Qed.

Lemma step_spec limits m ev :
  run_inv limits m → event_ok ev → nextStream m < 2^32 - 2 →
  step_post limits ev m (sm_step limits m ev).
Proof.
  intros Hr Hok Hlt. pose proof Hr as (Hinv & Hb & Hids). destruct ev as [|id| |id|err]; cbn [sm_step].
  - unfold OpenStream. destruct (closeErr m); [by apply step_post_refl|].
    destruct (openStreamImpl limits m) as [r m'] eqn:E.
    destruct (openStreamImpl_spec limits m r m' Hinv Hlt E) as (Hinv' & Hop & Hh & Hres).
    pose proof (openStreamImpl_bounded limits m Hb) as Hb'. rewrite E in Hb'. cbn [snd] in *.
    eapply opens_post; [done|done|done|exact Hop| |done|].
    + intros x [-> _]. split; [done|]. apply Hinv.
    + unfold openStreamImpl in E. destruct (_ >=? _); [simplify_eq; lia|].
      injection E as _ <-.
      match goal with |- context [putStream ?a ?b] =>
        destruct (putStream_new a b) as (_ & _ & _ & _ & En & _) end.
      { cbn [set_open sm_streams newStream streamID]. pose proof Hinv as (_ & Hset & Hst & Hd & Hnp & _).
        rewrite Hset, elem_of_list_to_set. intros Hx. destruct (Hd _ (Hst _ Hx)) as [_ [[_ ?]|[? _]]]; [lia|].
        unfold own_parity, peer_parity in *. destruct (is_server m); lia. }
      rewrite En. cbn [set_open nextStream]. pose proof Hinv as (_ & _ & _ & _ & _ & ? & _).
      rewrite u32_id; [lia|]. unfold is_u32. lia.
  - cbn in Hok. destruct (GetOrOpenStream limits m id) as [r m'] eqn:E.
    destruct (GetOrOpenStream_spec limits m id r m' Hinv Hok E) as (Hinv' & Hn & Hop & _).
    pose proof (GetOrOpenStream_bounded limits m id Hb) as Hb'. rewrite E in Hb'. cbn [snd] in *.
    eapply opens_post; [done|done|done|exact Hop| |done|lia].
    intros x [? ?]. split; [lia|done].
  - unfold step_post, AcceptStream, step_accepted, AcceptStream.
    destruct (closeErr m); [cbn; split_and!; try done; [by left|lia|lia]|].
    case_bool_decide as Hin; [|cbn; split_and!; try done; [by left|lia|lia]].
    cbn. split_and!; try done; try apply Hb; try lia; [by left|]. rewrite u32_id; [lia|].
    pose proof Hinv as (_ & Hset & Hst & Hd & _). pose proof (Hids _ Hin).
    rewrite Hset, elem_of_list_to_set in Hin. destruct (Hd _ (Hst _ Hin)). unfold is_u32. lia.
  - destruct (sm_RemoveStream m id) as [e m'] eqn:E.
    destruct (RemoveStream_spec m id e m' Hinv E)
      as (Hinv' & Hset & Hst & Hp & Hn & _ & _ & Ha & Ho & Hi). cbn [snd].
    unfold step_post. cbn [step_accepted length]. rewrite Hst, Hset.
    split_and!; try done; [|set_solver|lia|lia].
    pose proof Hinv' as (_ & _ & _ & _ & _ & _ & _ & _ & Eo & Ei).
    destruct Hb as (? & ? & Hw). unfold run_inv, bounded, within, is_server in *.
    rewrite Hp, Hset. split_and!; [done|rewrite Ei; unfold num_parity; lia|rewrite Eo; unfold num_parity; lia| |].
    + intros Hs. specialize (Hw Hs). lia.
    + intros x Hx. apply Hids. set_solver.
  - unfold step_post. split_and!; try done; [|cbn; by rewrite dom_cancel|by left|cbn; lia|cbn; lia].
    split; [by apply close_inv|]. by split.
Qed.

(** The streams a step opens are distinct, new, and exist afterwards. *)
Lemma step_opened_spec limits m ev m' x :
  step_post limits ev m m' → x ∈ step_opened m m' →
  (x ∉ dom (store m)) ∧ x ∈ dom (store m') ∧ x mod 2 = side_parity m ev.
Proof.
  intros (((_ & Hset & Hst & _) & _) & _ & _ & Hop & _) [Hno Hx]%list_elem_of_filter.
  destruct (Hop x) as [?|[? ?]]; [rewrite Hset; by apply elem_of_list_to_set|done|].
  split_and!; [done|by apply elem_of_dom, Hst|done].
Qed.

Lemma step_accepted_spec limits m ev m' :
  step_post limits ev m m' → step_accepted m ev = [] ∧ nextStreamToAccept m' = nextStreamToAccept m ∨
  step_accepted m ev = [nextStreamToAccept m] ∧ nextStreamToAccept m' = nextStreamToAccept m + 2.
Proof.
  intros (_ & _ & _ & _ & _ & Ha). unfold step_accepted in *. destruct ev; cbn in Ha; try (left; split; [done|lia]).
  unfold AcceptStream in *. destruct (closeErr m); cbn in *; [left; split; [done|lia]|].
  case_bool_decide; cbn in *; [right|left]; (split; [done|lia]).
Qed.

(** The invariant of runs. *)
Lemma sm_run_spec limits evs m opened accepted m' :
  run_inv limits m → Forall event_ok evs → nextStream m + 2 * Z.of_nat (length evs) < 2^32 →
  sm_run limits m evs = (opened, accepted, m') →
  run_inv limits m' ∧ perspective m' = perspective m ∧ dom (store m) ⊆ dom (store m') ∧
  NoDup (map snd opened) ∧
  (∀ peer x, (peer, x) ∈ opened → (x ∉ dom (store m)) ∧ x ∈ dom (store m') ∧
     x mod 2 = if peer : bool then peer_parity m else own_parity m) ∧
  (∀ i x, accepted !! i = Some x → x = nextStreamToAccept m + 2 * Z.of_nat i).
Proof.
  revert m opened accepted. induction evs as [|ev evs IH]; intros m opened accepted Hr Hok Hlen Hrun.
  { cbn in Hrun. simplify_eq. split_and!; try done; [constructor|by intros ? ? ?%elem_of_nil]. }
  apply Forall_cons in Hok as [Hev Hok]. cbn [length] in Hlen. cbn [sm_run] in Hrun. set (m1 := sm_step limits m ev) in *.
  pose proof (step_spec limits m ev Hr Hev ltac:(lia)) as Hstep. fold m1 in Hstep.
  destruct (sm_run limits m1 evs) as [[op2 acc2] m2] eqn:E2.
  injection Hrun as <- <- <-. pose proof Hstep as (Hr1 & Hp1 & Hd1 & _ & Hn1 & _).
  destruct (IH m1 op2 acc2 Hr1 Hok ltac:(lia) E2) as (Hr2 & Hp2 & Hd2 & Hnd & Hops & Hacc).
  pose proof (step_opened_spec limits m ev m1) as Hso. specialize (λ x, Hso x Hstep).
  split_and!; [done|congruence|by etrans| | |].
  - rewrite map_app, map_map. cbn [snd]. rewrite map_id. apply NoDup_app. split_and!; [| |done].
    + apply NoDup_filter. apply Hr1.
    + intros x Hx1 Hx2. apply list_elem_of_In, in_map_iff in Hx2 as ([peer y] & <- & Hy%list_elem_of_In). cbn in *.
      destruct (Hops peer y Hy). by destruct (Hso y Hx1) as (_ & ? & _).
  - intros peer x [Hx|Hx]%elem_of_app.
    + apply list_elem_of_In, in_map_iff in Hx as (y & [= <- <-] & Hy%list_elem_of_In). destruct (Hso y Hy) as (? & ? & Hpar).
      split_and!; [done|by apply Hd2|]. by destruct ev.
    + destruct (Hops peer x Hx) as (? & ? & Hpar). unfold peer_parity, own_parity, is_server in *.
      rewrite Hp1 in Hpar. split_and!; [by intros ?%Hd1|done|done].
  - intros i x Hi. destruct (step_accepted_spec limits m ev m1 Hstep) as [[Es Ea]|[Es Ea]];
      rewrite Es in Hi.
    + rewrite <- Ea. by apply Hacc.
    + destruct i as [|i]; cbn in Hi; [simplify_eq; lia|]. rewrite (Hacc i x Hi). lia.
Qed.

Lemma new_run_inv limits pers sched :
  0 <= GetMaxIncomingStreams limits → 0 <= GetMaxOutgoingStreams limits →
  run_inv limits (newStreamsMap pers sched).
Proof.
  intros. unfold run_inv, bounded, within, sm_inv, own_parity, peer_parity, is_server, newStreamsMap; cbn.
  split_and!; try done; try lia; try (by destruct pers); try set_solver.
  - constructor.
  - intros id [? Hx]. by rewrite lookup_empty in Hx.
Qed.

(** C17: whatever the events (streams opened by the application, streams the peer names, streams
    accepted, removed, cancelled), every stream ID is opened at most once, even after its stream
    was removed, and by the side it belongs to; the peer's streams are accepted in the order of
    their IDs, each once; the list of open streams, the map and the two counters agree; and a
    server keeps both directions within the negotiated limits.  The peer names no stream above [2^32 - 3] -- the
    last two IDs are left out -- and there are fewer than [2^31 - 1] events. *)
Theorem streams_opened_once limits pers sched evs opened accepted m :
  0 <= GetMaxIncomingStreams limits → 0 <= GetMaxOutgoingStreams limits →
  Forall event_ok evs → Z.of_nat (length evs) < 2^31 - 1 →
  sm_run limits (newStreamsMap pers sched) evs = (opened, accepted, m) →
  NoDup (map snd opened) ∧
  (∀ peer x, (peer, x) ∈ opened →
     x mod 2 = match pers with PerspectiveServer => Z.b2z peer | PerspectiveClient => Z.b2z (negb peer) end) ∧
  (∀ i x, accepted !! i = Some x →
     x = match pers with PerspectiveServer => 1 | PerspectiveClient => 2 end + 2 * Z.of_nat i) ∧
  NoDup (sm_openStreams m) ∧ sm_streams m = list_to_set (sm_openStreams m) ∧
  numOutgoingStreams m = num_parity 0 (sm_openStreams m) ∧
  numIncomingStreams m = num_parity 1 (sm_openStreams m) ∧
  (pers = PerspectiveServer → num_parity 1 (sm_openStreams m) <= GetMaxIncomingStreams limits ∧
     num_parity 0 (sm_openStreams m) <= GetMaxOutgoingStreams limits).
Proof.
  intros Hi Ho Hev Hlen Hrun.
  destruct (sm_run_spec limits evs _ opened accepted m (new_run_inv limits pers sched Hi Ho) Hev)
    as ((Hinv & (_ & _ & Hw) & _) & Hp & _ & Hnd & Hop & Hacc); [destruct pers; cbn; lia|exact Hrun|].
  destruct Hinv as (? & ? & _ & _ & _ & _ & _ & _ & Hno & Hni).
  rewrite <- Hno, <- Hni. split_and!; try done.
  - intros peer x Hx. destruct (Hop peer x Hx) as (_ & _ & ->). by destruct pers, peer.
  - intros i x Hx. rewrite (Hacc i x Hx). by destruct pers.
  - intros ->. apply Hw. unfold is_server. by rewrite Hp.
Qed.

(** A server whose peer names streams 5 and 1, with stream 3 removed and named again. *)
Lemma streams_opened_once_witness :
  let evs := [evGetOrOpenStream 5; evOpenStream; evAcceptStream; evRemoveStream 3;
              evGetOrOpenStream 3; evOpenStream; evAcceptStream; evCloseWithError errMapAccess] in
  ∃ m, sm_run (mkLimits 2 3) (newStreamsMap PerspectiveServer None) evs
       = ([(true, 1); (true, 3); (true, 5); (false, 2); (false, 4)], [1], m) ∧
    numIncomingStreams m = 2 ∧ numIncomingStreams m = num_parity 1 (sm_openStreams m).
Proof.
  intros evs. eexists. split; [vm_compute; reflexivity|]. split; [reflexivity|].
  eapply (streams_opened_once (mkLimits 2 3) PerspectiveServer None evs); [cbn; lia|cbn; lia| | |].
  - unfold evs. repeat constructor; cbn; lia.
  - cbn. lia.
  - vm_compute. reflexivity.
Defined.

(** ** The limits of a client *)

(** A client counts the streams it opens and the streams its peer opens in each other's counter, so
    neither limit binds: with limits of one stream, the peer opens four streams and so does the
    client. *)
Lemma client_limits_not_enforced :
  let '(opened, _, m) := sm_run (mkLimits 5 1) (newStreamsMap PerspectiveClient None)
                           [evGetOrOpenStream 8] in
  opened = [(true, 2); (true, 4); (true, 6); (true, 8)] ∧
  let '(opened, _, m) := sm_run (mkLimits 1 5) (newStreamsMap PerspectiveClient None)
                           [evOpenStream; evOpenStream; evOpenStream; evOpenStream] in
  opened = [(false, 1); (false, 3); (false, 5); (false, 7)].
Proof. vm_compute. done. Qed.

(** ** Round robin *)

(** The order in which [RoundRobinIterate] visits the open streams: 1 and 3 if they are open, then
    the others in the order of the list, from the round-robin index on. *)
Definition rotated (m : streamsMap) : list Z :=
  let s := Z.to_nat (roundRobinIndex m) in drop s (sm_openStreams m) ++ take s (sm_openStreams m).

Definition prioritised (id : Z) : Prop := id = 1 ∨ id = 3.
#[export] Instance prioritised_dec id : Decision (prioritised id).
Proof. unfold prioritised. apply _. Defined.

Definition visit_order (m : streamsMap) : list Z :=
  filter (λ id, id ∈ sm_streams m) [1; 3] ++ filter (λ id, ¬ prioritised id) (rotated m).

Definition with_index (m : streamsMap) (i : Z) : streamsMap :=
  set_streams m (sm_streams m) (sm_openStreams m) i (store m) (sm_scheduler m).

(** The round-robin index is an index of the list, or its end after the last stream was removed. *)
Definition index_inv (m : streamsMap) : Prop :=
  0 <= roundRobinIndex m <= Z.of_nat (length (sm_openStreams m)) ∧
  Z.of_nat (length (sm_openStreams m)) < 2^31.

Lemma size_open m : sm_inv m → size (sm_streams m) = length (sm_openStreams m).
Proof. intros (Hnd & Hset & _). rewrite Hset. by apply size_list_to_set. Qed.

Lemma rotated_perm m : rotated m ≡ₚ sm_openStreams m.
Proof. unfold rotated. by rewrite Permutation_app_comm, take_drop. Qed.

Lemma rotated_lookup m i :
  index_inv m → 0 <= i < Z.of_nat (length (sm_openStreams m)) →
  sm_openStreams m !! Z.to_nat (u32 (i + roundRobinIndex m) mod Z.of_nat (length (sm_openStreams m)))
  = rotated m !! Z.to_nat i.
Proof.
  intros [Hr Hl] Hi. set (l := sm_openStreams m) in *. set (s := roundRobinIndex m) in *.
  unfold rotated. fold l s. rewrite u32_id by (unfold is_u32; lia).
  destruct (Z.lt_ge_cases (i + s) (Z.of_nat (length l))).
  - rewrite Z.mod_small by lia. rewrite lookup_app_l by (rewrite length_drop; lia).
    rewrite lookup_drop. f_equal. lia.
  - rewrite <- (Z.mod_unique (i + s) (Z.of_nat (length l)) 1 (i + s - Z.of_nat (length l))) by lia.
    rewrite lookup_app_r by (rewrite length_drop; lia). rewrite length_drop, lookup_take_lt by lia.
    f_equal. lia.
Qed.

Section RoundRobin.
Context {St : Type} (start : Z) (ids : gset Z) (l rot : list Z).
Hypothesis (Hset : ids = list_to_set l).
Hypothesis (Hlook : ∀ i, 0 <= i < Z.of_nat (length l) →
  l !! Z.to_nat (u32 (i + start) mod Z.of_nat (length l)) = rot !! Z.to_nat i).
Hypothesis (Hrot : rot ≡ₚ l).

(** No step of the loop is out of range, whatever the function does. *)
Lemma round_robin_total (fn : stream_lambda St) k i m st :
  sm_streams m = ids → sm_openStreams m = l → 0 <= i → i + Z.of_nat k = Z.of_nat (length l) →
  0 <= roundRobinIndex m <= Z.of_nat (length l) →
  ∃ e idx st', round_robin_loop k i start (Z.of_nat (length l)) m fn st = Ok (e, with_index m idx, st') ∧
    0 <= idx <= Z.of_nat (length l).
Proof.
  revert i m st. induction k as [|k IH]; intros i m st Hs Hl Hi Hk Hr; cbn [round_robin_loop].
  { exists None, (roundRobinIndex m), st. split; [|lia]. by destruct m. }
  rewrite Hl, Hlook by lia. pose proof (Permutation_length Hrot).
  destruct (lookup_lt_is_Some_2 rot (Z.to_nat i)) as [id ->]; [lia|].
  destruct (_ || _); [apply IH; (done || lia)|].
  destruct (iterateFunc m id fn st) as [[cont [e|]] st1] eqn:Ef.
  { exists (Some e), (roundRobinIndex m), st1. split; [|lia]. by destruct m. }
  set (idx := u32 (roundRobinIndex m + 1) mod Z.of_nat (length l)).
  assert (0 <= idx < Z.of_nat (length l)) by (apply Z.mod_pos_bound; lia).
  assert (set_streams m (sm_streams m) l idx (store m) (sm_scheduler m) = with_index m idx) as ->
    by (unfold with_index; by rewrite Hl).
  destruct cont; [|exists None, idx, st1; split; [done|lia]].
  destruct (IH (i + 1) (with_index m idx) st1) as (e & idx' & st' & -> & Hidx); try (done || cbn; lia).
  by exists e, idx', st'.
Qed.

(** A function that always continues sees every stream of the rotation, 1 and 3 apart. *)
Lemma round_robin_visits (f : St → Z → St) k i m st :
  sm_streams m = ids → sm_openStreams m = l → 0 <= i → i + Z.of_nat k = Z.of_nat (length l) →
  ∃ idx, round_robin_loop k i start (Z.of_nat (length l)) m (λ id st, (true, None, f st id)) st
  = Ok (None, with_index m idx, foldl f st (filter (λ id, ¬ prioritised id) (drop (Z.to_nat i) rot))).
Proof.
  revert i m st. induction k as [|k IH]; intros i m st Hs Hl Hi Hk; cbn [round_robin_loop];
    pose proof (Permutation_length Hrot).
  { exists (roundRobinIndex m). rewrite drop_ge by lia. by destruct m. }
  rewrite Hl, Hlook by lia.
  destruct (lookup_lt_is_Some_2 rot (Z.to_nat i)) as [id Hid]; [lia|]. rewrite Hid.
  rewrite (drop_S rot id (Z.to_nat i) Hid). replace (S (Z.to_nat i)) with (Z.to_nat (i + 1)) by lia.
  rewrite filter_cons. destruct (Z.eqb_spec id 1), (Z.eqb_spec id 3);
    try (rewrite decide_False by (unfold prioritised; tauto); apply IH; (done || lia)).
  rewrite decide_True by (unfold prioritised; tauto). cbn [orb foldl].
  unfold iterateFunc. rewrite bool_decide_true.
  2:{ rewrite Hs, Hset, elem_of_list_to_set, <- Hrot. by eapply list_elem_of_lookup_2. }
  set (idx := u32 (roundRobinIndex m + 1) mod Z.of_nat (length l)).
  assert (set_streams m (sm_streams m) l idx (store m) (sm_scheduler m) = with_index m idx) as ->
    by (unfold with_index; by rewrite Hl).
  destruct (IH (i + 1) (with_index m idx) (f st id)) as (idx' & ->); try (done || lia).
  by exists idx'.
Qed.

End RoundRobin.

(** The streams 1 and 3, if they are open. *)
Lemma priority_visits {St} (f : St → Z → St) m ids st :
  priority_loop m (λ id st, (true, None, f st id)) ids st
  = (None, foldl f st (filter (λ id, id ∈ sm_streams m) ids)).
Proof.
  revert st. induction ids as [|id ids IH]; intros st; [done|]. cbn [priority_loop]. unfold iterateFunc.
  rewrite filter_cons. case_bool_decide as Hin.
  - rewrite decide_True by done. apply IH.
  - rewrite (decide_True (P := errMapAccess = errMapAccess)), decide_False by done. apply IH.
Qed.

Lemma visit_order_perm m : sm_inv m → visit_order m ≡ₚ sm_openStreams m.
Proof.
  intros (Hnd & Hset & _). apply NoDup_Permutation; [|done|].
  - apply NoDup_app. split_and!; [apply NoDup_filter; repeat constructor; set_solver| |].
    + intros x [_ Hx]%list_elem_of_filter [Hp _]%list_elem_of_filter. apply Hp. unfold prioritised. set_solver.
    + apply NoDup_filter. by rewrite rotated_perm.
  - intros x. unfold visit_order. rewrite elem_of_app, !list_elem_of_filter, rotated_perm, Hset, elem_of_list_to_set.
    destruct (decide (prioritised x)) as [Hp|Hp]; [|tauto].
    assert (x ∈ [1; 3]) by (destruct Hp as [->| ->]; set_solver). tauto.
Qed.

Lemma round_robin_safe {St} m (fn : stream_lambda St) st :
  sm_inv m → index_inv m →
  ∃ e idx st', RoundRobinIterate m fn st = Ok (e, with_index m idx, st') ∧
    0 <= idx <= Z.of_nat (length (sm_openStreams m)).
Proof.
  intros Hinv Hidx. unfold RoundRobinIterate. rewrite (size_open m Hinv), Nat2Z.id.
  destruct (priority_loop m fn [1; 3] st) as [[e|] st1].
  { exists e, (roundRobinIndex m), st1. split; [by destruct m|apply Hidx]. }
  apply (round_robin_total _ (sm_streams m) _ (rotated m) (λ i, rotated_lookup m i Hidx) (rotated_perm m) fn);
    try done; try lia. apply Hidx.
Qed.

(** RoundRobinIterate never indexes the list of open streams out of range, whatever the
    callback does, and leaves everything but the round-robin index as it was; a callback that
    never stops the iteration is called exactly once on every open stream: on 1 and 3 first, then
    on the others from the round-robin index on. *)
Theorem round_robin_visits_all {St} m :
  sm_inv m → index_inv m →
  (∀ (fn : stream_lambda St) st, ∃ e idx st', RoundRobinIterate m fn st = Ok (e, with_index m idx, st') ∧
     0 <= idx <= Z.of_nat (length (sm_openStreams m))) ∧
  (∀ (f : St → Z → St) st, ∃ idx, RoundRobinIterate m (λ id st, (true, None, f st id)) st
     = Ok (None, with_index m idx, foldl f st (visit_order m))) ∧
  visit_order m ≡ₚ sm_openStreams m.
Proof.
  intros Hinv Hidx. pose proof (size_open m Hinv) as Hsize. pose proof Hinv as (_ & Hset & _).
  split_and!; [| |by apply visit_order_perm].
  - intros fn st. by apply round_robin_safe.
  - intros f st. unfold RoundRobinIterate. rewrite Hsize, Nat2Z.id, priority_visits.
    unfold visit_order. rewrite foldl_app.
    by apply (round_robin_visits _ _ _ (rotated m) Hset (λ i, rotated_lookup m i Hidx) (rotated_perm m)).
Qed.

(** The streams 1, 3, 5, 7 of a server; the visit starts at the third. *)
Lemma round_robin_visits_all_witness :
  let m := with_index (GetOrOpenStream (mkLimits 100 100) (newStreamsMap PerspectiveServer None) 7).2 3 in
  visit_order m = [1; 3; 7; 5] ∧ visit_order m ≡ₚ sm_openStreams m.
Proof.
  intros m. split; [vm_compute; reflexivity|].
  apply (round_robin_visits_all (St := unit) m).
  - assert (∃ m1, GetOrOpenStream (mkLimits 100 100) (newStreamsMap PerspectiveServer None) 7 = (Ok (Some 7), m1))
      as [m1 E] by (eexists; vm_compute; reflexivity).
    unfold m. rewrite E. cbn [snd]. change (sm_inv m1).
    eapply (GetOrOpenStream_spec (mkLimits 100 100)); [|..|exact E]; [|lia].
    apply (new_run_inv (mkLimits 100 100)); cbn; lia.
  - split; [vm_compute; split; discriminate|vm_compute; reflexivity].
Defined.

(** Removing a stream keeps the round-robin index in range. *)
Lemma remove_index_inv m id e m' :
  sm_inv m → index_inv m → sm_RemoveStream m id = (e, m') → index_inv m'.
Proof.
  intros (_ & Hset & _) [Hr Hl] He. unfold sm_RemoveStream in He. case_bool_decide as Hin; cbn [negb] in He;
    [|injection He as _ <-; by split].
  pose proof (index_of_spec id (sm_openStreams m)) as Hi.
  rewrite Hset, elem_of_list_to_set in Hin.
  destruct (index_of id (sm_openStreams m)) as [i|]; [|done]. injection He as _ <-.
  unfold index_inv. cbn [set_streams roundRobinIndex sm_openStreams].
  pose proof (lookup_lt_Some _ _ _ Hi). rewrite length_app, length_take, length_drop.
  destruct (Z.ltb_spec (Z.of_nat i) (roundRobinIndex m)); lia.
Qed.

(** The index counts visited streams but is used as a position of a list that also holds 1 and 3:
    with 1, 3, 5 and 7 open and a callback that takes one stream of the application per call, four
    calls take 5 three times and 7 once. *)
Lemma round_robin_not_fair :
  let m := (GetOrOpenStream (mkLimits 100 100) (newStreamsMap PerspectiveServer None) 7).2 in
  let take_one (id : Z) (st : list Z) := (bool_decide (prioritised id), @None error, st ++ [id]) in
  let call '(m, seen) :=
    match RoundRobinIterate m take_one [] with
    | Ok (_, m, st) => (m, seen ++ filter (λ id, ¬ prioritised id) st)
    | _ => (m, [])
    end in
  (call (call (call (call (m, []))))).2 = [5; 5; 5; 7].
Proof. vm_compute. reflexivity. Qed.
