(* ===== verification/PathScheduler.v ===== *)
(** * The path scheduler

    path_scheduler.go: which path sends the next packet.  Round robin, lowest latency, earliest
    completion first (ECF) and its stream-aware version (SA-ECF), which asks the stream scheduler
    which stream would send next and waits for the fast path if that completes the stream earlier.
    A path is what the scheduler reads of it.  The session's paths are a Go map, whose iteration
    order is arbitrary: every loop gets its order as an argument, and the theorems hold for every
    order.  Durations are in nanoseconds, products are uint64 products. *)

From S2P Require Import Prelude ByteOrder Protocol Frames StreamFrame FrameSorter FlowControl Stream.
From S2P Require Import StreamScheduler StreamsMap.

(** ** Paths and the session *)

Record path : Type := mkPath {
  pathID : Z;
  p_open : bool;
  handlerAllows : bool;
  SmoothedRTT : Z;
  MeanDeviation : Z;
  GetCongestionWindow : Z;
  potentiallyFailed : bool;
}.

Definition SendingAllowed (p : path) : bool := p_open p && handlerAllows p.

Record session : Type := mkSession {
  s_paths : gmap Z path;
  s_streamsMap : streamsMap;
  s_streamScheduler : option streamScheduler;
  s_window : Z → Z;
}.

Definition beta : Z := 4.

Inductive pathSchedulerKind : Type := RoundRobin | ECF | SA_ECF | LowLatency.

Record scheduler : Type := mkPathScheduler {
  quotas : gmap Z Z;
  pathScheduler : pathSchedulerKind;
  sch_waiting : Z;
}.

Definition setup (sch : scheduler) (name : string) : scheduler :=
  {| quotas := ∅;
     pathScheduler :=
       if String.eqb name "RoundRobin" then RoundRobin
       else if String.eqb name "ECF" then ECF
       else if String.eqb name "SA-ECF" then SA_ECF
       else LowLatency;
     sch_waiting := sch_waiting sch |}.

(** Reading a quota that is not in the map gives 0. *)
Definition quota (q : gmap Z Z) (id : Z) : Z := default 0 (q !! id).

Definition set_quotas (sch : scheduler) (q : gmap Z Z) : scheduler :=
  mkPathScheduler q (pathScheduler sch) (sch_waiting sch).

Definition set_sch_waiting (sch : scheduler) (w : Z) : scheduler :=
  mkPathScheduler (quotas sch) (pathScheduler sch) w.

(** A quota that is not in the map is added. *)
Definition touch_quota (q : gmap Z Z) (id : Z) : gmap Z Z :=
  match q !! id with Some _ => q | None => <[id := 0]> q end.

(** With at most one path, the initial path is the only choice. *)
Definition only_path (s : session) (hasRetransmission : bool) : result (option path) :=
  match s_paths s !! InitialPathID with
  | Some p => Ok (if negb hasRetransmission && negb (SendingAllowed p) then None else Some p)
  | None => if hasRetransmission then Ok None else Panic "nil pointer dereference"
  end.

(** ** Round robin *)

Definition round_robin_visit (hasRetransmission : bool)
    (st : option path * Z * gmap Z Z) (e : Z * path) : option path * Z * gmap Z Z :=
  let '(selectedPath, lowerQuota, q) := st in
  let '(id, pth) := e in
  if negb hasRetransmission && negb (SendingAllowed pth) then st
  else if potentiallyFailed pth then st
  else if id =? InitialPathID then st
  else
    let currentQuota := quota q id in
    let q := touch_quota q id in
    if currentQuota <? lowerQuota then (Some pth, currentQuota, q) else (selectedPath, lowerQuota, q).

Definition selectPathRoundRobin (sch : scheduler) (s : session) (hasRetransmission : bool)
    (order : list (Z * path)) : result (option path * scheduler) :=
  if (size (s_paths s) <=? 1)%nat then p ← only_path s hasRetransmission; Ok (p, sch)
  else
    let '(selectedPath, _, q) :=
      foldl (round_robin_visit hasRetransmission) (None, 2^64 - 1, quotas sch) order in
    Ok (selectedPath, set_quotas sch q).

(** ** Lowest latency *)

(** A retransmission from a path without RTT sample goes to another path that has sent less. *)
Definition duplicate_path (q : gmap Z Z) (from : path) (order : list (Z * path)) : option path :=
  snd <$> List.find (λ e, negb ((e.1 =? InitialPathID) || (e.1 =? pathID from))
                          && (quota q e.1 <? quota q (pathID from))) order.

(** The test for such a retransmission, and its path; the path the packet comes from is read only
    if there is a retransmission. *)
Definition duplicate (q : gmap Z Z) (hasRetransmission hasStreamRetransmission : bool)
    (fromPth : option path) (order : list (Z * path)) : result (option path) :=
  if hasRetransmission && hasStreamRetransmission then
    match fromPth with
    | None => Panic "nil pointer dereference"
    | Some from => Ok (if SmoothedRTT from =? 0 then duplicate_path q from order else None)
    end
  else Ok None.

Record latency_state : Type := mkLatency {
  ll_selected : option path;
  ll_lowerRTT : Z;
  ll_selectedID : Z;
  ll_quotas : gmap Z Z;
}.

Definition latency_visit (hasRetransmission : bool) (st : latency_state) (e : Z * path) : latency_state :=
  let '(id, pth) := e in
  if negb hasRetransmission && negb (SendingAllowed pth) then st
  else if potentiallyFailed pth then st
  else if id =? InitialPathID then st
  else
    let currentRTT := SmoothedRTT pth in
    if negb (ll_lowerRTT st =? 0) && (currentRTT =? 0) then st
    else
      let currentQuota := quota (ll_quotas st) id in
      let q := if currentRTT =? 0 then touch_quota (ll_quotas st) id else ll_quotas st in
      let lowerQuota := quota q (ll_selectedID st) in
      let selected := bool_decide (ll_selected st <> None) in
      if ((currentRTT =? 0) && selected && (currentQuota >? lowerQuota))
         || (negb (currentRTT =? 0) && negb (ll_lowerRTT st =? 0) && selected
             && (currentRTT >=? ll_lowerRTT st))
      then mkLatency (ll_selected st) (ll_lowerRTT st) (ll_selectedID st) q
      else mkLatency (Some pth) currentRTT id q.

Definition selectPathLowLatency (sch : scheduler) (s : session)
    (hasRetransmission hasStreamRetransmission : bool) (fromPth : option path)
    (order1 order2 : list (Z * path)) : result (option path * scheduler) :=
  if (size (s_paths s) <=? 1)%nat then p ← only_path s hasRetransmission; Ok (p, sch)
  else
    dup ← duplicate (quotas sch) hasRetransmission hasStreamRetransmission fromPth order1;
    match dup with
    | Some p => Ok (Some p, sch)
    | None =>
        let st := foldl (latency_visit hasRetransmission) (mkLatency None 0 255 (quotas sch)) order2 in
        Ok (ll_selected st, set_quotas sch (ll_quotas st))
    end.

(** ** Earliest completion first *)

Record ecf_state : Type := mkEcf {
  bestPath : option path;
  secondBestPath : option path;
  lowerRTT : Z;
  secondLowerRTT : Z;
  bestPathID : Z;
  ecf_quotas : gmap Z Z;
}.

Definition ecf_start (q : gmap Z Z) : ecf_state := mkEcf None None 0 0 255 q.

Definition ecf_visit (st : ecf_state) (e : Z * path) : ecf_state :=
  let '(id, pth) := e in
  if potentiallyFailed pth then st
  else if id =? InitialPathID then st
  else
    let currentRTT := SmoothedRTT pth in
    if negb (lowerRTT st =? 0) && (currentRTT =? 0) then st
    else
      let currentQuota := quota (ecf_quotas st) id in
      let q := if currentRTT =? 0 then touch_quota (ecf_quotas st) id else ecf_quotas st in
      let lowerQuota := quota q (bestPathID st) in
      let best := bool_decide (bestPath st <> None) in
      if (currentRTT =? 0) && best && (currentQuota >? lowerQuota)
      then mkEcf (bestPath st) (secondBestPath st) (lowerRTT st) (secondLowerRTT st) (bestPathID st) q
      else
        let slower := currentRTT >=? lowerRTT st in
        let '(second, secondRTT) :=
          if slower && ((secondLowerRTT st =? 0) || (currentRTT <? secondLowerRTT st)) && SendingAllowed pth
          then (Some pth, currentRTT)
          else (secondBestPath st, secondLowerRTT st) in
        if slower && negb (currentRTT =? 0) && negb (lowerRTT st =? 0) && best
        then mkEcf (bestPath st) second (lowerRTT st) secondRTT (bestPathID st) q
        else mkEcf (Some pth) second currentRTT secondRTT id q.

(** The bytes queued on all open streams. *)
Definition queueSize (m : streamsMap) : Z :=
  (Iterate (λ _, m)
     (λ id size, (true, None,
        match store m !! id with Some s => size +u64 lenOfDataForWriting s | None => size end)) 0).2.

(** The decision whether to wait for the fast path, with the new waiting flag. *)
Definition ecf_waits (st : ecf_state) (best second : path) (queue w : Z) : bool * Z :=
  let cwndBest := u64 (GetCongestionWindow best) in
  let cwndSecond := u64 (GetCongestionWindow second) in
  let deviationBest := u64 (MeanDeviation best) in
  let deviationSecond := u64 (MeanDeviation second) in
  let delta := if deviationBest <? deviationSecond then deviationSecond else deviationBest in
  let xBest := if queue >? cwndBest then cwndBest else queue in
  let lhs := u64 (u64 (lowerRTT st) * (xBest +u64 cwndBest)) in
  let rhs := u64 (cwndBest * (u64 (secondLowerRTT st) +u64 delta)) in
  if u64 (beta * lhs) <? u64 (beta * rhs) +u64 u64 (w * rhs) then
    let xSecond := if queue <? cwndSecond then cwndSecond else queue in
    let lhsSecond := u64 (u64 (secondLowerRTT st) * xSecond) in
    let rhsSecond := u64 (cwndSecond * (u64 (2 * u64 (lowerRTT st)) +u64 delta)) in
    if lhsSecond >? rhsSecond then (true, 1) else (false, w)
  else (false, 0).

(** What the loop over the paths found, up to the decision: a path or none at once, or the best and
    the second best path to decide between. *)
Definition ecf_choice (st : ecf_state) (hasRetransmission : bool) : option path + path * path :=
  match bestPath st with
  | None => inl (secondBestPath st)
  | Some best =>
      if hasRetransmission || SendingAllowed best then inl (Some best)
      else match secondBestPath st with
      | None => inl None
      | Some second => inr (best, second)
      end
  end.

Definition selectPathEarliestCompletionFirst (sch : scheduler) (s : session)
    (hasRetransmission hasStreamRetransmission : bool) (fromPth : option path)
    (order1 order2 : list (Z * path)) : result (option path * scheduler) :=
  if (size (s_paths s) <=? 1)%nat then p ← only_path s hasRetransmission; Ok (p, sch)
  else
    dup ← duplicate (quotas sch) hasRetransmission hasStreamRetransmission fromPth order1;
    match dup with
    | Some p => Ok (Some p, sch)
    | None =>
        let st := foldl ecf_visit (ecf_start (quotas sch)) order2 in
        let sch := set_quotas sch (ecf_quotas st) in
        match ecf_choice st hasRetransmission with
        | inl p => Ok (p, sch)
        | inr (best, second) =>
            let '(wait, w) := ecf_waits st best second (queueSize (s_streamsMap s)) (sch_waiting sch) in
            Ok (if wait then None else Some second, set_sch_waiting sch w)
        end
    end.

(** ** Stream-aware ECF *)

Definition env_of (s : session) : environment := mkEnv (store (s_streamsMap s)) (s_window s).

(** The loop over the streams in the order of the stream scheduler: [i] rounds are done, the streams
    [seen] were considered.  [Ok (None, _)] waits for the fast path. *)
Fixpoint sa_loop (fuel : nat) (env : environment) (st : ecf_state) (best second : path)
    (i : Z) (seen : gset Z) (queue : Z) (sch : streamScheduler)
  : result (option path * streamScheduler) :=
  match fuel with
  | O => Panic "endless loop"
  | S fuel =>
      if (Z.of_nat (size seen) <? openStreams sch) && (i <? openStreams sch) then
        '(strm, sch) ← schedule env sch;
        match strm with
        | None => Ok (None, sch)
        | Some p =>
            n ← deref (heap sch) p;
            if bool_decide (n_id n ∈ seen) then
              sch ← skip sch p;
              sa_loop fuel env st best second (i + 1) seen queue sch
            else
              let seen := {[n_id n]} ∪ seen in
              k ← bytesUntilCompletion env sch p;
              let queue := if queue >? k then k else queue in
              let '(wait, w) := ecf_waits st best second queue (waiting n) in
              let sch := set_heap sch (<[p := set_waiting n w]> (heap sch)) in
              if wait then sa_loop fuel env st best second (i + 1) seen queue sch
              else Ok (Some second, sch)
        end
      else Ok (None, sch)
  end.

Definition selectPathStreamAwareEarliestCompletionFirst (sch : scheduler) (s : session)
    (hasRetransmission hasStreamRetransmission : bool) (fromPth : option path)
    (order1 order2 : list (Z * path)) : result (option path * scheduler * option streamScheduler) :=
  match s_streamScheduler s with
  | None =>
      '(p, sch) ← selectPathEarliestCompletionFirst sch s hasRetransmission hasStreamRetransmission
                    fromPth order1 order2;
      Ok (p, sch, None)
  | Some ss =>
      let ss := mkScheduler (heap ss) (fresh ss) None (openStreams ss) (nodeMap ss) in
      if (size (s_paths s) <=? 1)%nat then p ← only_path s hasRetransmission; Ok (p, sch, Some ss)
      else
        dup ← duplicate (quotas sch) hasRetransmission hasStreamRetransmission fromPth order1;
        match dup with
        | Some p => Ok (Some p, sch, Some ss)
        | None =>
            let st := foldl ecf_visit (ecf_start (quotas sch)) order2 in
            let sch := set_quotas sch (ecf_quotas st) in
            match ecf_choice st hasRetransmission with
            | inl p => Ok (p, sch, Some ss)
            | inr (best, second) =>
                '(p, ss) ← sa_loop (S (Z.to_nat (openStreams ss))) (env_of s) st best second 0 ∅
                             (queueSize (s_streamsMap s)) ss;
                Ok (p, sch, Some ss)
            end
        end
  end.

(** The flag for stream retransmissions that selectPath is given is not passed on: the schedulers
    get [hasRetransmission] twice. *)
Definition selectPath (sch : scheduler) (s : session)
    (hasRetransmission hasStreamRetransmission : bool) (fromPth : option path)
    (order1 order2 : list (Z * path)) : result (option path * scheduler * option streamScheduler) :=
  match pathScheduler sch with
  | RoundRobin =>
      '(p, sch) ← selectPathRoundRobin sch s hasRetransmission order2; Ok (p, sch, s_streamScheduler s)
  | LowLatency =>
      '(p, sch) ← selectPathLowLatency sch s hasRetransmission hasRetransmission fromPth order1 order2;
      Ok (p, sch, s_streamScheduler s)
  | ECF =>
      '(p, sch) ← selectPathEarliestCompletionFirst sch s hasRetransmission hasRetransmission
                    fromPth order1 order2;
      Ok (p, sch, s_streamScheduler s)
  | SA_ECF =>
      selectPathStreamAwareEarliestCompletionFirst sch s hasRetransmission hasRetransmission
        fromPth order1 order2
  end.

(** ** The stream scheduler's part *)

(** The ancestors of a node: [k] steps up to the root, every one with a child. *)
Inductive chain (h : gmap ptr node) : ptr → nat → Prop :=
| chain_root p n : h !! p = Some n → parent n = None → chain h p 1
| chain_step p n pp pn k :
    h !! p = Some n → parent n = Some pp → h !! pp = Some pn → children pn <> [] →
    chain h pp k → chain h p (S k).

Lemma chain_same h h' p k : same_shape h h' → chain h p k → chain h' p k.
Proof.
  intros Hs. induction 1 as [p n Hp Hpar|p n pp pn k Hp Hpar Hpp Hch _ IH].
  - destruct (same_shape_lookup h h' p n Hs Hp) as (n' & Hp' & E). apply static_fields in E as (_&_&_&_&_&_&E&_).
    eapply chain_root; [exact Hp'|congruence].
  - destruct (same_shape_lookup h h' p n Hs Hp) as (n' & Hp' & E). apply static_fields in E as (_&_&_&_&_&_&E&_).
    destruct (same_shape_lookup h h' pp pn Hs Hpp) as (pn' & Hpp' & E'). apply static_fields in E' as (_&_&_&_&_&_&_&E').
    apply (chain_step h' p n' pp pn' k); congruence || done.
Qed.

Lemma shape_chain h par t k q :
  shape h par t →
  match par with
  | None => k = O
  | Some pp => chain h pp k ∧ ∃ pn, h !! pp = Some pn ∧ children pn <> []
  end →
  q ∈ ptrs t → ∃ k', chain h q k' ∧ (k' <= k + length (ptrs t))%nat.
Proof.
  remember (length (ptrs t)) as m eqn:Hm. revert par t k Hm.
  induction (lt_wf m) as [m _ IH]. intros par t k -> Ht Hpar Hq.
  inversion Ht as [? p ts n Hp Hpn Hch Hts]. subst.
  assert (chain h p (S k)) as Hc.
  { destruct (parent n) as [pp|] eqn:E; [|subst k; by eapply chain_root].
    destruct Hpar as (Hk & pn & Hpn & Hne). by eapply chain_step. }
  cbn [ptrs length] in *. apply elem_of_cons in Hq as [->|Hq]; [exists (S k); split; [done|lia]|].
  apply list_elem_of_In, in_flat_map in Hq as (t & Hin & Hq). apply list_elem_of_In in Hin, Hq.
  rewrite Forall_forall in Hts. assert (length (ptrs t) <= length (flat_map ptrs ts))%nat as Hl.
  { apply list_elem_of_split in Hin as (l1 & l2 & ->). rewrite flat_map_app. cbn. rewrite !length_app. lia. }
  destruct (IH (length (ptrs t)) ltac:(lia) (Some p) t (S k) eq_refl (Hts t Hin)) as (k' & Hk' & Hle); [|done|].
  - split; [done|]. exists n. split; [done|]. rewrite Hch. destruct ts; [by apply elem_of_nil in Hin|done].
  - exists k'. split; [done|lia].
Qed.

(** Skipping a node of the tree is safe and changes no shape. *)
Lemma skip_node_spec h p k fuel :
  chain h p k → heap_ok h → (k <= fuel)%nat →
  ∃ h', skip_node fuel h p = Ok h' ∧ same_shape h h' ∧ heap_ok h'.
Proof.
  revert h p k. induction fuel as [|fuel IH]; intros h p k Hc Hok Hk; [inversion Hc; lia|].
  assert (∃ n, h !! p = Some n) as [n Hp] by (inversion Hc; eauto).
  cbn [skip_node]. unfold deref. rewrite Hp. cbn [mbind result_bind].
  set (h1 := <[p:=set_quantum n 0]> h).
  assert (same_shape h h1) as Hs1 by (by eapply same_shape_insert).
  assert (heap_ok h1) as Hok1.
  { apply map_Forall_insert_2; [|done]. apply (set_quantum_ok n 0), (Hok p n Hp). }
  pose proof (chain_same h h1 p k Hs1 Hc) as Hc1. cbn [set_quantum parent].
  destruct (parent n) as [pp|] eqn:Epar; [|by exists h1].
  assert (h1 !! p = Some (set_quantum n 0)) as Hp1 by apply lookup_insert_eq.
  inversion Hc1 as [? n' Hp' Hno|? n' pp' pn k' Hp' Hpp Hpn Hne Hck]; subst; simplify_eq; cbn in *; [congruence|].
  assert (pp' = pp) as -> by congruence.
  unfold deref. rewrite Hpn. cbn [mbind result_bind].
  pose proof (Hok1 pp pn Hpn) as Hpok. rewrite mod_len_ok by done. cbn [mbind result_bind].
  set (h2 := <[pp:=_]> h1).
  assert (same_shape h1 h2) as Hs2 by (by eapply same_shape_insert).
  assert (heap_ok h2) as Hok2 by (apply map_Forall_insert_2; [by apply set_next_ok|done]).
  destruct (IH h2 pp k' (chain_same _ _ _ _ Hs2 Hck) Hok2 ltac:(lia)) as (h' & -> & Hs3 & Hok3).
  exists h'. split_and!; [done|by transitivity h1; [|transitivity h2]|done].
Qed.

Lemma skip_spec env sch ts q :
  visit_pre env (heap sch) None (Node root ts) → q ∈ ptrs (Node root ts) →
  ∃ h', skip sch q = Ok (set_heap sch h') ∧ same_shape (heap sch) h' ∧ heap_ok h'.
Proof.
  intros (Hsh & Hok & Hnd & _) Hq. destruct (shape_chain _ _ _ O q Hsh eq_refl Hq) as (k & Hk & Hle).
  pose proof (shape_size _ _ _ Hsh Hnd).
  destruct (skip_node_spec _ q k (depth (heap sch)) Hk Hok) as (h' & E & Hs & Hok'); [unfold depth; lia|].
  exists h'. unfold skip. rewrite E. by split_and!.
Qed.

(** The share of every node is positive and does not wrap: eight levels of weights below 255. *)
Definition shares_ok (rank : ptr → nat) (h : gmap ptr node) : Prop :=
  map_Forall (λ q n, 0 <= weight n < 255 ∧ 1 <= numerator n <= 255 ^ Z.of_nat (rank q) ∧
    (rank q <= 8)%nat ∧ ∀ pp, parent n = Some pp → rank q = S (rank pp)) h.

Section Shares.
Context (rank : ptr → nat).

Lemma shares_insert h q n n' :
  shares_ok rank h → h !! q = Some n → weight n' = weight n → numerator n' = numerator n →
  parent n' = parent n → shares_ok rank (<[q:=n']> h).
Proof.
  intros Hs Hq E1 E2 E3. apply map_Forall_insert_2; [|done]. rewrite E1, E2, E3. by apply Hs.
Qed.

Lemma shares_visited h q n pn :
  shares_ok rank h → h !! q = Some n → parent_node h n = Ok pn →
  shares_ok rank (<[q:=visited n pn]> h).
Proof.
  intros Hs Hq Hpn. pose proof (Hs q n Hq) as (Hw & Hn & Hr & Hp). unfold parent_node, deref in Hpn.
  destruct pn as [pn|]; [|eapply shares_insert; [done|done|..]; unfold visited; by destruct (quantum n =? 0)].
  destruct (parent n) as [pp|] eqn:Epar; [|done]. destruct (h !! pp) as [pn'|] eqn:Epp; [|done].
  cbn in Hpn. injection Hpn as ->. pose proof (Hs pp pn Epp) as (_ & Hpn & _ & _).
  apply map_Forall_insert_2; [|done].
  assert (weight (visited n (Some pn)) = weight n ∧ parent (visited n (Some pn)) = parent n) as [-> ->]
    by (unfold visited; by destruct (quantum n =? 0)).
  assert (numerator (visited n (Some pn)) = u64 (u8 (weight n + 1) * numerator pn)) as ->
    by (unfold visited; by destruct (quantum n =? 0)).
  rewrite Epar. pose proof (Hp pp eq_refl) as Er. rewrite Er, Nat2Z.inj_succ, Z.pow_succ_r by lia.
  rewrite u8_id by (unfold is_u8; lia).
  assert (255 ^ Z.of_nat (rank pp) <= 255 ^ 7) by (apply Z.pow_le_mono_r; lia).
  change (255 ^ 7) with 70110209207109375 in *.
  rewrite u64_id by (unfold is_u64; nia). split_and!; [lia|lia|nia|nia|lia|].
  intros pp' [= <-]. done.
Qed.

Lemma removeWeight_shares fuel h p c h' :
  removeWeight fuel h p c = Ok h' → shares_ok rank h → shares_ok rank h'.
Proof.
  revert h p c. induction fuel as [|fuel IH]; intros h p c; cbn [removeWeight]; [done|].
  unfold deref. destruct (h !! p) as [n|] eqn:Hp; [|done]. cbn [mbind result_bind]. intros H Hs.
  res_inv. cbv zeta in *. cbn [set_children parent activeChildren] in *.
  match goal with H : context [<[p:=?m]> h] |- _ =>
    assert (shares_ok rank (<[p:=m]> h)) by (by eapply shares_insert) end.
  destruct (parent n); [destruct (_ =? 0)|]; by simplify_eq || eauto.
Qed.

Lemma deactivate_shares h p h' : deactivateNode h p = Ok h' → shares_ok rank h → shares_ok rank h'.
Proof.
  unfold deactivateNode, deref. destruct (h !! p) as [n|] eqn:Hp; [|done]. cbn [mbind result_bind].
  cbv zeta. cbn [set_state parent activeChildren]. intros H Hs.
  assert (shares_ok rank (<[p:=set_state n nodeClosed None]> h)) by (by eapply shares_insert).
  destruct (parent n); [destruct (_ =? 0)|]; simplify_eq; eauto using removeWeight_shares.
Qed.

Lemma end_visit_shares sch p strm r sch' :
  end_visit sch p strm = Ok (r, sch') → shares_ok rank (heap sch) → shares_ok rank (heap sch').
Proof.
  unfold end_visit, deref. destruct (heap sch !! p) as [n|]; [|done]. cbn [mbind result_bind].
  destruct (parent n) as [pp|]; [|by intros [= <- <-]].
  destruct (heap sch !! pp) as [pn|] eqn:Hpp; [|done]. cbn [mbind result_bind].
  destruct (_ && _); [|by intros [= <- <-]]. intros H Hs. res_inv. simplify_eq. by eapply shares_insert.
Qed.

Lemma child_loop_shares visit k i sch p r sch' :
  (∀ sch c r sch', visit sch c = Ok (r, sch') → shares_ok rank (heap sch) → shares_ok rank (heap sch')) →
  child_loop visit k i sch p = Ok (r, sch') → shares_ok rank (heap sch) → shares_ok rank (heap sch').
Proof.
  intros Hv. revert i sch. induction k as [|k IH]; intros i sch; cbn [child_loop]; [by intros [= <- <-]|].
  unfold deref. destruct (heap sch !! p) as [n|]; [|done]. cbn [mbind result_bind].
  destruct (_ <? _)%nat; [|by intros [= <- <-]]. destruct (_ !! _) as [c|]; [|done]. intros H Hs.
  apply result_bind_inv in H as ([strm sch1] & E1 & H). pose proof (Hv _ _ _ _ E1 Hs) as Hs1.
  destruct strm as [q|]; [|by eapply IH].
  destruct (heap sch1 !! p) as [n1|] eqn:Hp1; [|done]. cbn in H. simplify_eq. by eapply shares_insert.
Qed.

Lemma traverse_shares fuel env sch p r sch' :
  traverse fuel env sch p = Ok (r, sch') → shares_ok rank (heap sch) → shares_ok rank (heap sch').
Proof.
  revert sch p r sch'. induction fuel as [|fuel IH]; intros sch p r sch'; cbn [traverse]; [done|].
  unfold deref. destruct (heap sch !! p) as [n|] eqn:Hp; [|done]. cbn [mbind result_bind]. intros H Hs.
  apply result_bind_inv in H as (pn & Epn & H). apply result_bind_inv in H as (s & _ & H).
  pose proof (shares_visited _ p n pn Hs Hp Epn) as Hs1. cbv zeta in H.
  destruct (has_finished s).
  { apply result_bind_inv in H as (h1 & Ed & H). simplify_eq. by eapply deactivate_shares. }
  destruct (header_turn _ _); [by eapply end_visit_shares|].
  destruct (stream_turn _ _).
  { eapply end_visit_shares; [exact H|]. cbn [set_heap heap]. eapply shares_insert; [done|apply lookup_insert_eq|done..]. }
  destruct (_ && _); [|by eapply end_visit_shares].
  apply result_bind_inv in H as ([strm sch1] & Ec & H).
  eapply end_visit_shares; [exact H|]. eapply child_loop_shares; [|exact Ec|done]. eauto.
Qed.

Lemma skip_node_shares fuel h p h' :
  skip_node fuel h p = Ok h' → shares_ok rank h → shares_ok rank h'.
Proof.
  revert h p. induction fuel as [|fuel IH]; intros h p; cbn [skip_node]; [done|].
  unfold deref. destruct (h !! p) as [n|] eqn:Hp; [|done]. cbn [mbind result_bind]. intros H Hs.
  assert (shares_ok rank (<[p:=set_quantum n 0]> h)) by (by eapply shares_insert).
  cbn [set_quantum parent] in H. destruct (parent n) as [pp|]; [|by simplify_eq].
  apply result_bind_inv in H as (pn & Epn & H). apply result_bind_inv in H as (x & _ & H).
  eapply IH; [exact H|]. unfold deref in Epn. destruct (_ !! pp) eqn:Epp; [|done].
  simplify_eq. by eapply shares_insert.
Qed.

End Shares.

(** A tree of streams the stream-aware scheduler may ask for. *)
Definition sa_pre (env : environment) (rank : ptr → nat) (ts : list tree) (sch : streamScheduler) : Prop :=
  visit_pre env (heap sch) None (Node root ts) ∧ shares_ok rank (heap sch).

Lemma sa_pre_same env rank ts sch h :
  sa_pre env rank ts sch → same_shape (heap sch) h → heap_ok h → shares_ok rank h →
  sa_pre env rank ts (set_heap sch h).
Proof. intros [Hpre _] Hs Hok Hsh. split; [by eapply visit_pre_same|done]. Qed.

Lemma bytesUntilCompletion_ok env sch p n :
  heap sch !! p = Some n → sendable env n = true → numerator n <> 0 →
  ∃ k, bytesUntilCompletion env sch p = Ok k.
Proof.
  intros Hp Hsend Hnum. unfold bytesUntilCompletion, deref. rewrite Hp. cbn [mbind result_bind].
  unfold sendable, node_stream in Hsend. destruct (n_stream n) as [id|]; [|done].
  destruct (get_stream env id) as [s| |]; [|done|done]. cbn [mbind result_bind]. cbv zeta.
  destruct (_ || _); [eauto|]. destruct (Z.eqb_spec (numerator n) 0); [done|eauto].
Qed.

(** A round of the loop: the scheduler answers, with a stream of the tree or none. *)
Lemma sa_schedule env rank ts sch :
  sa_pre env rank ts sch →
  ∃ r h', schedule env sch = Ok (r, set_heap sch h') ∧ sa_pre env rank ts (set_heap sch h') ∧
    ∀ p, r = Some p → p ∈ ptrs (Node root ts) ∧
      ∃ n, h' !! p = Some n ∧ sendable env n = true ∧ numerator n <> 0 ∧ node_ok n.
Proof.
  intros [Hpre Hsh]. destruct (schedule_spec env sch ts Hpre) as (r & h' & E & Hs & Hok & _ & _ & Hpick).
  pose proof (traverse_shares rank _ _ _ _ _ _ E Hsh) as Hsh'. cbn in Hsh'.
  exists r, h'. split_and!; [done|by apply sa_pre_same; [split|..]|].
  intros p ->. symmetry in Hs.
  destruct (picked_same env h' (heap sch) _ (Some p) Hs Hpick) as (Hin & n & Hn & Hsend).
  split; [done|]. exists n. split_and!; [done|done| |by apply (Hok p n)].
  destruct (Hsh' p n Hn) as (_ & ? & _). lia.
Qed.

Lemma sa_loop_spec fuel env rank ts st best second i seen queue sch :
  sa_pre env rank ts sch → Z.max 0 (openStreams sch - i) < Z.of_nat fuel →
  ∃ r sch', sa_loop fuel env st best second i seen queue sch = Ok (r, sch') ∧
    (r = None ∨ r = Some second) ∧ sa_pre env rank ts sch'.
Proof.
  revert i seen queue sch. induction fuel as [|fuel IH]; intros i seen queue sch Hpre Hfuel; [lia|].
  cbn [sa_loop]. destruct (_ && _) eqn:Econd; [|by exists None, sch; eauto].
  apply andb_true_iff in Econd as [_ Hi%Z.ltb_lt].
  destruct (sa_schedule env rank ts sch Hpre) as (r & h' & -> & Hpre' & Hr). cbn [mbind result_bind].
  destruct r as [p|]; [|by exists None, (set_heap sch h'); eauto].
  destruct (Hr p eq_refl) as (Hin & n & Hn & Hsend & Hnum & Hnok). clear Hr.
  unfold deref. cbn [set_heap heap]. rewrite Hn. cbn [mbind result_bind].
  case_bool_decide.
  - destruct (skip_spec env (set_heap sch h') ts p) as (h2 & E & Hs2 & Hok2); [apply Hpre'|done|].
    rewrite E. cbn [mbind result_bind]. apply IH; [|cbn; lia].
    apply sa_pre_same; [done..|]. unfold skip in E. apply result_bind_inv in E as (h3 & E & [= ->]).
    by apply (skip_node_shares rank _ _ _ _ E), Hpre'.
  - destruct (bytesUntilCompletion_ok env (set_heap sch h') p n) as [k ->]; [done..|].
    cbn [mbind result_bind]. cbv zeta. destruct (ecf_waits _ _ _ _ _) as [wait w].
    assert (sa_pre env rank ts (set_heap sch (<[p:=set_waiting n w]> h'))) as Hpre2.
    { apply (sa_pre_same env rank ts (set_heap sch h')); [done|..].
      - by eapply same_shape_insert.
      - apply map_Forall_insert_2; [exact Hnok|apply Hpre'].
      - eapply shares_insert; [apply Hpre'|exact Hn|done..]. }
    destruct wait; [|by eauto 6]. apply IH; [exact Hpre2|cbn; lia].
Qed.

(** ** Selecting a path *)

(** The paths that may be selected when the initial path is not the only one. *)
Definition usable (hasRetransmission : bool) (e : Z * path) : Prop :=
  potentiallyFailed e.2 = false ∧ e.1 <> InitialPathID ∧
  (hasRetransmission = true ∨ SendingAllowed e.2 = true).

(** Each visit of a path, case by case on what the scheduler tests of it. *)
Lemma usable_dec hasRetransmission id p :
  usable hasRetransmission (id, p) ∨
  (negb hasRetransmission && negb (SendingAllowed p) = true ∨ potentiallyFailed p = true ∨ id = InitialPathID).
Proof.
  unfold usable. cbn. destruct hasRetransmission, (SendingAllowed p), (potentiallyFailed p),
    (Z.eq_dec id InitialPathID); cbn; auto 6.
Qed.

Lemma quota_touch q id id' : quota (touch_quota q id) id' = quota q id'.
Proof.
  unfold touch_quota, quota. destruct (q !! id) eqn:E; [done|].
  destruct (decide (id' = id)) as [->|]; [by rewrite lookup_insert_eq, E|by rewrite lookup_insert_ne].
Qed.

(** The path a retransmission is duplicated on is one of the session's, not the initial one. *)
Lemma duplicate_path_spec q from order p :
  duplicate_path q from order = Some p → ∃ id, (id, p) ∈ order ∧ id <> InitialPathID.
Proof.
  unfold duplicate_path. destruct (List.find _ order) as [[id p']|] eqn:E; [|done]. intros [= <-].
  apply find_some in E as [Hin Hc]. cbn in Hc. exists id. split; [by apply list_elem_of_In|].
  intros ->. by rewrite Z.eqb_refl in Hc.
Qed.

(** ** Lowest latency *)

(** What the loop knows after the paths [visited_paths]. *)
Definition latency_inv (hasRetransmission : bool) (q0 : gmap Z Z) (st : latency_state)
    (seen : list (Z * path)) : Prop :=
  (∀ id, quota (ll_quotas st) id = quota q0 id) ∧
  match ll_selected st with
  | None => ll_lowerRTT st = 0 ∧ ∀ e, e ∈ seen → ¬ usable hasRetransmission e
  | Some p =>
      (ll_selectedID st, p) ∈ seen ∧ usable hasRetransmission (ll_selectedID st, p) ∧
      ll_lowerRTT st = SmoothedRTT p ∧
      ∀ e, e ∈ seen → usable hasRetransmission e →
        (SmoothedRTT e.2 <> 0 → 0 < SmoothedRTT p <= SmoothedRTT e.2) ∧
        (SmoothedRTT p = 0 → quota q0 (ll_selectedID st) <= quota q0 e.1)
  end.

Lemma latency_inv_skip hasRetransmission q0 st seen e :
  latency_inv hasRetransmission q0 st seen → ¬ usable hasRetransmission e →
  latency_inv hasRetransmission q0 st (seen ++ [e]).
Proof.
  intros [Hq Hst] Hno. split; [done|]. destruct (ll_selected st) as [p|].
  - destruct Hst as (Hin & Hu & Hl & Hmin). split_and!; [by apply elem_of_app; left|done|done|].
    intros e' [He|He]%elem_of_app Hu'; [by apply Hmin|]. by apply list_elem_of_singleton in He as ->.
  - destruct Hst as [Hl Hnone]. split; [done|]. intros e' [He|He]%elem_of_app; [by apply Hnone|].
    by apply list_elem_of_singleton in He as ->.
Qed.

Lemma usable_tests hasRetransmission id p :
  usable hasRetransmission (id, p) →
  negb hasRetransmission && negb (SendingAllowed p) = false ∧ potentiallyFailed p = false ∧
  (id =? InitialPathID) = false.
Proof.
  intros (Hf & Hid & Hs). cbn in *. split_and!; [|done|by apply Z.eqb_neq].
  destruct Hs as [-> | ->]; [done|by rewrite andb_false_r].
Qed.

Section LatencyVisit.
Context (hasRetransmission : bool) (q0 : gmap Z Z).

(** Path [p] is no worse than [e]: it is faster or, if it has no sample, has sent no more. *)
Definition preferred (id : Z) (p : path) (e : Z * path) : Prop :=
  (SmoothedRTT e.2 <> 0 → 0 < SmoothedRTT p <= SmoothedRTT e.2) ∧
  (SmoothedRTT p = 0 → quota q0 id <= quota q0 e.1).

Lemma latency_keep st seen sel e q :
  latency_inv hasRetransmission q0 st seen → ll_selected st = Some sel →
  (∀ id, quota q id = quota q0 id) → preferred (ll_selectedID st) sel e →
  latency_inv hasRetransmission q0 (mkLatency (Some sel) (ll_lowerRTT st) (ll_selectedID st) q) (seen ++ [e]).
Proof.
  intros [_ Hst] Esel Hq Hpref. rewrite Esel in Hst. destruct Hst as (Hin & Hu & Hl & Hmin).
  split; [done|]. cbn. split_and!; [by apply elem_of_app; left|done|done|].
  intros e' [He|He]%elem_of_app Hue; [by apply Hmin|]. by apply list_elem_of_singleton in He as ->.
Qed.

Lemma latency_take id p seen q :
  usable hasRetransmission (id, p) → 0 <= SmoothedRTT p → (∀ id, quota q id = quota q0 id) →
  (∀ e, e ∈ seen → usable hasRetransmission e → preferred id p e) →
  latency_inv hasRetransmission q0 (mkLatency (Some p) (SmoothedRTT p) id q) (seen ++ [(id, p)]).
Proof.
  intros Hu Hrtt Hq Hall. split; [done|]. cbn.
  split_and!; [apply elem_of_app; right; by apply list_elem_of_singleton|done|done|].
  intros e [He|He]%elem_of_app Hue; [by apply Hall|]. apply list_elem_of_singleton in He as ->. cbn.
  split; [lia|done].
Qed.

Lemma latency_visit_inv st seen id p :
  0 <= SmoothedRTT p → latency_inv hasRetransmission q0 st seen →
  latency_inv hasRetransmission q0 (latency_visit hasRetransmission st (id, p)) (seen ++ [(id, p)]).
Proof.
  intros Hrtt Hinv. unfold latency_visit. destruct (usable_dec hasRetransmission id p) as [Hu|Hno].
  2:{ assert (¬ usable hasRetransmission (id, p)) as Hnu
        by (intros (E1 & E2 & E3)%usable_tests; apply Z.eqb_neq in E3;
            destruct Hno as [?|[?|?]]; congruence).
      pose proof (latency_inv_skip _ _ _ _ _ Hinv Hnu).
      destruct (_ && _) eqn:E1; [done|]. destruct (potentiallyFailed p) eqn:E2; [done|].
      destruct Hno as [?|[?|E3]]; [done|done|]. by rewrite (proj2 (Z.eqb_eq _ _) E3). }
  destruct (usable_tests _ _ _ Hu) as (-> & -> & ->). cbv zeta.
  set (q := if SmoothedRTT p =? 0 then _ else _). pose proof Hinv as [Hq Hst].
  assert (∀ id, quota q id = quota q0 id) as Hq'
    by (intros id'; unfold q; destruct (_ =? 0); by rewrite ?quota_touch).
  destruct (ll_selected st) as [sel|] eqn:Esel.
  - pose proof Hst as (Hin & Hus & Hl & Hmin). rewrite bool_decide_true by done. rewrite !Hq', !Hq.
    destruct (Z.eqb_spec (ll_lowerRTT st) 0) as [E0|E0], (Z.eqb_spec (SmoothedRTT p) 0) as [Ep|Ep]; cbn [negb andb orb].
    + destruct (Z.gtb_spec (quota q0 id) (quota q0 (ll_selectedID st))).
      * apply latency_keep; [done|done|done|]. split; [done|cbn; lia].
      * apply latency_take; [done|lia|done|]. intros e He Hue. destruct (Hmin e He Hue) as [Hm1 Hm2].
        split; [intros Hne; specialize (Hm1 Hne); lia|]. intros _. specialize (Hm2 ltac:(lia)). lia.
    + apply latency_take; [done|lia|done|]. intros e He Hue. destruct (Hmin e He Hue) as [Hm1 Hm2].
      split; [intros Hne; specialize (Hm1 Hne); lia|done].
    + assert (st = mkLatency (Some sel) (ll_lowerRTT st) (ll_selectedID st) (ll_quotas st)) as E
        by (rewrite <- Esel; by destruct st).
      rewrite E. apply latency_keep; [done|done|done|]. split; [done|lia].
    + destruct (Z.geb_spec (SmoothedRTT p) (ll_lowerRTT st)).
      * apply latency_keep; [done|done|done|]. destruct (Hmin _ Hin Hus) as [Hm _].
        split; cbn in *; lia.
      * apply latency_take; [done|lia|done|]. intros e He Hue. destruct (Hmin e He Hue) as [Hm1 Hm2].
        split; [intros Hne; specialize (Hm1 Hne); lia|done].
  - destruct Hst as [Hl Hnone]. rewrite bool_decide_false by (intros H'; by apply H').
    rewrite Hl, !andb_false_r. cbn [negb Z.eqb andb orb]. apply latency_take; [done|done|done|].
    intros e He Hue. by destruct (Hnone e He).
Qed.

Lemma latency_loop_inv order :
  Forall (λ e, 0 <= SmoothedRTT e.2) order →
  latency_inv hasRetransmission q0 (foldl (latency_visit hasRetransmission) (mkLatency None 0 255 q0) order) order.
Proof.
  induction order as [|[id p] order IH] using rev_ind; intros Hrtt.
  - split; [done|]. split; [done|]. by intros e ?%elem_of_nil.
  - apply Forall_app in Hrtt as [Hrtt [Hp _]%Forall_cons]. rewrite foldl_app. cbn [foldl].
    apply latency_visit_inv; [done|auto].
Qed.

End LatencyVisit.

(** ** Earliest completion first *)

(** ECF looks for its best path as the lowest-latency scheduler does that may use every path. *)
Definition ecf_best (st : ecf_state) : latency_state :=
  mkLatency (bestPath st) (lowerRTT st) (bestPathID st) (ecf_quotas st).

Lemma ecf_best_visit st e : ecf_best (ecf_visit st e) = latency_visit true (ecf_best st) e.
Proof.
  destruct e as [id p]. unfold ecf_visit, latency_visit, ecf_best. cbn [negb andb ll_selected ll_lowerRTT ll_selectedID ll_quotas].
  destruct (potentiallyFailed p); [done|]. destruct (id =? InitialPathID); [done|]. cbv zeta.
  destruct (SmoothedRTT p =? 0), (lowerRTT st =? 0), (bool_decide (bestPath st ≠ None)),
    (SmoothedRTT p >=? lowerRTT st); cbn [negb andb orb]; try done;
    repeat match goal with |- context [?a >? ?b] => destruct (a >? b) end; cbn [negb andb orb];
    repeat (match goal with |- context [if ?b then _ else _] => destruct b end); done.
Qed.

Lemma ecf_best_loop q order :
  ecf_best (foldl ecf_visit (ecf_start q) order)
  = foldl (latency_visit true) (mkLatency None 0 255 q) order.
Proof.
  induction order as [|e order IH] using rev_ind; [done|]. rewrite !foldl_app. cbn [foldl].
  by rewrite ecf_best_visit, IH.
Qed.

(** The second best path may send. *)
Lemma ecf_second_visit st e p :
  secondBestPath (ecf_visit st e) = Some p →
  secondBestPath st = Some p ∧ secondLowerRTT (ecf_visit st e) = secondLowerRTT st ∨
  e.2 = p ∧ usable false e ∧ secondLowerRTT (ecf_visit st e) = SmoothedRTT p.
Proof.
  destruct e as [id p']. unfold ecf_visit, usable. cbn [fst snd].
  destruct (potentiallyFailed p'); [by left|]. destruct (Z.eqb_spec id InitialPathID); [by left|]. cbv zeta.
  destruct (_ && _); [by left|]. destruct (_ && _); [by left|].
  destruct (SendingAllowed p'); rewrite ?andb_true_r, ?andb_false_r;
    repeat match goal with |- context [if ?b then _ else _] => destruct b end; cbn;
    first [by left | intros [= <-]; right; split_and!; auto].
Qed.

(** RTTs and deviations below 17 seconds, windows up to 64 MB: no product of the decision wraps. *)
Definition path_ok (p : path) : Prop :=
  0 <= SmoothedRTT p < 2^34 ∧ 0 <= MeanDeviation p < 2^34 ∧ 0 <= GetCongestionWindow p <= 2^26.

(** The rule of ECF: with [k] bytes queued, the fast path [f] finishes before the slow path [s]
    would ([RTT_f (1 + k / cwnd_f) < (1 + w / beta) (RTT_s + delta)], the windows bounding [k]),
    and the slow path is so slow that waiting for the fast one pays off. *)
Definition ecf_delta (f s : path) : Z := Z.max (MeanDeviation f) (MeanDeviation s).

Definition ecf_earlier (f s : path) (k w : Z) : Prop :=
  beta * (SmoothedRTT f * (Z.min k (GetCongestionWindow f) + GetCongestionWindow f))
  < (beta + w) * (GetCongestionWindow f * (SmoothedRTT s + ecf_delta f s)).

Definition ecf_slower (f s : path) (k : Z) : Prop :=
  GetCongestionWindow s * (2 * SmoothedRTT f + ecf_delta f s)
  < SmoothedRTT s * Z.max k (GetCongestionWindow s).

#[export] Instance ecf_earlier_dec f s k w : Decision (ecf_earlier f s k w).
Proof. unfold ecf_earlier. apply _. Defined.
#[export] Instance ecf_slower_dec f s k : Decision (ecf_slower f s k).
Proof. unfold ecf_slower. apply _. Defined.

Definition ecf_rule (f s : path) (k w : Z) : bool * Z :=
  if bool_decide (ecf_earlier f s k w)
  then if bool_decide (ecf_slower f s k) then (true, 1) else (false, w)
  else (false, 0).

Lemma mul_bound a b m n : 0 <= a <= m → 0 <= b <= n → 0 <= a * b <= m * n.
Proof. intros. split; [lia|]. apply Z.mul_le_mono_nonneg; lia. Qed.

Lemma ecf_waits_exact st f s k w :
  path_ok f → path_ok s → lowerRTT st = SmoothedRTT f → secondLowerRTT st = SmoothedRTT s →
  0 <= k < 2^29 → 0 <= w <= 1 → ecf_waits st f s k w = ecf_rule f s k w.
Proof.
  intros (Hf1 & Hf2 & Hf3) (Hs1 & Hs2 & Hs3) El Es Hk Hw. unfold ecf_waits, ecf_rule.
  rewrite El, Es, !(u64_id (GetCongestionWindow _)), !(u64_id (MeanDeviation _)), !(u64_id (SmoothedRTT _))
    by (unfold is_u64; lia).
  assert ((if MeanDeviation f <? MeanDeviation s then MeanDeviation s else MeanDeviation f) = ecf_delta f s) as ->
    by (unfold ecf_delta; destruct (Z.ltb_spec (MeanDeviation f) (MeanDeviation s)); lia).
  assert ((if k >? GetCongestionWindow f then GetCongestionWindow f else k) = Z.min k (GetCongestionWindow f)) as ->
    by (destruct (Z.gtb_spec k (GetCongestionWindow f)); lia).
  assert ((if k <? GetCongestionWindow s then GetCongestionWindow s else k) = Z.max k (GetCongestionWindow s)) as ->
    by (destruct (Z.ltb_spec k (GetCongestionWindow s)); lia).
  unfold ecf_earlier, ecf_slower, beta in *.
  assert (0 <= ecf_delta f s < 2^34) as Hd by (unfold ecf_delta; lia).
  set (cf := GetCongestionWindow f) in *. set (cs := GetCongestionWindow s) in *.
  set (rf := SmoothedRTT f) in *. set (rs := SmoothedRTT s) in *. set (d := ecf_delta f s) in *.
  pose proof (mul_bound rf (Z.min k cf + cf) (2^34) (2^27) ltac:(lia) ltac:(lia)) as B1.
  pose proof (mul_bound cf (rs + d) (2^26) (2^35) ltac:(lia) ltac:(lia)) as B2.
  pose proof (mul_bound rs (Z.max k cs) (2^34) (2^29) ltac:(lia) ltac:(lia)) as B3.
  pose proof (mul_bound cs (2 * rf + d) (2^26) (2^36) ltac:(lia) ltac:(lia)) as B4.
  pose proof (mul_bound w (cf * (rs + d)) 1 (2^26 * 2^35) ltac:(lia) ltac:(lia)) as B5.
  rewrite (u64_id (Z.min k cf + cf)), (u64_id (rs + d)), (u64_id (2 * rf)), (u64_id (2 * rf + d))
    by (unfold is_u64; lia).
  rewrite (u64_id (rf * _)), (u64_id (cf * _)), (u64_id (rs * _)), (u64_id (cs * _)) by (unfold is_u64; lia).
  rewrite (u64_id (w * _)), (u64_id (4 * (cf * _))), (u64_id (4 * (rf * _))) by (unfold is_u64; lia).
  rewrite (u64_id (_ + w * _)) by (unfold is_u64; lia). rewrite Z.gtb_ltb.
  destruct (Z.ltb_spec (4 * (rf * (Z.min k cf + cf))) (4 * (cf * (rs + d)) + w * (cf * (rs + d))));
    [|by rewrite bool_decide_false by lia].
  rewrite (bool_decide_true (_ < (4 + w) * _)) by lia.
  destruct (Z.ltb_spec (cs * (2 * rf + d)) (rs * Z.max k cs));
    [by rewrite bool_decide_true by lia|by rewrite bool_decide_false by lia].
Qed.

(** The paths ECF considers. *)
Definition candidate (e : Z * path) : Prop := potentiallyFailed e.2 = false ∧ e.1 <> InitialPathID.
#[export] Instance candidate_dec e : Decision (candidate e).
Proof. unfold candidate. apply _. Defined.

Lemma ecf_candidates st order :
  foldl ecf_visit st order = foldl ecf_visit st (filter candidate order).
Proof.
  revert st. induction order as [|[id p] order IH]; intros st; [done|]. rewrite filter_cons.
  case_decide as Hc; [apply IH|]. cbn [foldl]. rewrite IH. f_equal. unfold ecf_visit.
  destruct (potentiallyFailed p) eqn:E; [done|]. destruct (Z.eqb_spec id InitialPathID); [done|].
  by destruct Hc.
Qed.

(** Two candidates, a fast one and a slow one, in either order. *)
Lemma ecf_two_candidates q order i j f s :
  filter candidate order ≡ₚ [(i, f); (j, s)] → 0 < SmoothedRTT f < SmoothedRTT s →
  let st := foldl ecf_visit (ecf_start q) order in
  bestPath st = Some f ∧ ecf_quotas st = q ∧ lowerRTT st = SmoothedRTT f ∧
  (SendingAllowed f = false →
   secondBestPath st = (if SendingAllowed s then Some s else None) ∧
   (SendingAllowed s = true → secondLowerRTT st = SmoothedRTT s)).
Proof.
  intros Hperm Hrtt st. unfold st. rewrite ecf_candidates.
  assert (Forall candidate [(i, f); (j, s)]) as Hc.
  { rewrite <- Hperm. apply Forall_forall. by intros e [? _]%list_elem_of_filter. }
  apply Forall_cons in Hc as [[Hf Hi] [[Hs Hj] _]%Forall_cons]. cbn in *.
  assert (filter candidate order = [(i, f); (j, s)] ∨ filter candidate order = [(j, s); (i, f)]) as [->| ->].
  { symmetry in Hperm. apply Permutation_length_2_inv in Hperm. tauto. }
  all: assert ((SmoothedRTT f =? 0) = false ∧ (SmoothedRTT s =? 0) = false ∧ (SmoothedRTT f >=? 0) = true ∧
      (SmoothedRTT s >=? 0) = true ∧ (SmoothedRTT s >=? SmoothedRTT f) = true ∧
      (SmoothedRTT f >=? SmoothedRTT s) = false ∧ (SmoothedRTT s <? SmoothedRTT f) = false)
    as (E1 & E2 & E3 & E4 & E5 & E6 & E7) by (rewrite !Z.geb_leb; repeat split; lia).
  all: cbn [foldl]; unfold ecf_start, ecf_visit; rewrite Hf, Hs, (proj2 (Z.eqb_neq _ _) Hi), (proj2 (Z.eqb_neq _ _) Hj).
  all: cbn [lowerRTT secondLowerRTT bestPath secondBestPath bestPathID ecf_quotas Z.eqb negb andb orb];
    rewrite E1, E2; cbn [negb andb orb]; rewrite ?E3, ?E4; cbn [andb];
    destruct (SendingAllowed f), (SendingAllowed s);
    cbn [lowerRTT secondLowerRTT bestPath secondBestPath bestPathID ecf_quotas Z.eqb negb andb orb];
    rewrite ?E1, ?E2, ?E5, ?E6, ?E7; cbn; rewrite ?E1, ?E2; cbn; by split_and!.
Qed.

(** ** Every scheduler selects a path that may be used *)

(** What a selected path satisfies: it is one of the session's and may send, or a packet is to be
    retransmitted; it is not the initial path if there is another one. *)
Definition selection_ok (s : session) (hasRetransmission : bool) (r : option path) : Prop :=
  ∀ p, r = Some p → ∃ id, s_paths s !! id = Some p ∧
    (hasRetransmission = true ∨ SendingAllowed p = true) ∧
    ((size (s_paths s) <= 1)%nat ∨
     id <> InitialPathID ∧ (hasRetransmission = false → potentiallyFailed p = false)).

Section Selection.
Context (s : session) (hasRetransmission : bool) (order : list (Z * path)).
Hypothesis (Horder : order ≡ₚ map_to_list (s_paths s)).

Lemma order_lookup id p : (id, p) ∈ order → s_paths s !! id = Some p.
Proof. rewrite Horder. apply elem_of_map_to_list. Qed.

Lemma usable_selection e r :
  e ∈ order → usable hasRetransmission e → r = Some e.2 → selection_ok s hasRetransmission r.
Proof.
  destruct e as [id p]. intros Hin (Hf & Hid & Hs) -> p' [= <-]. exists id.
  split_and!; [by apply order_lookup|done|]. right. by split.
Qed.

Lemma only_path_ok :
  is_Some (s_paths s !! InitialPathID) → (size (s_paths s) <= 1)%nat →
  ∃ r, only_path s hasRetransmission = Ok r ∧ selection_ok s hasRetransmission r.
Proof.
  intros [p Hp] Hsize. unfold only_path. rewrite Hp. eexists. split; [done|].
  intros p' Hsel. exists InitialPathID.
  destruct hasRetransmission, (SendingAllowed p) eqn:E; cbn in Hsel; simplify_eq; eauto 6.
Qed.

(** The path of a duplicated packet is not the initial one. *)
Lemma duplicate_ok q hasStream from :
  (hasRetransmission = true → from <> None) →
  ∃ r, duplicate q hasRetransmission hasStream from order = Ok r ∧ selection_ok s hasRetransmission r.
Proof.
  intros Hfrom. unfold duplicate. destruct hasRetransmission; cbn [andb]; [|by exists None].
  destruct hasStream; [|by exists None]. destruct from as [from|]; [|by destruct Hfrom].
  eexists. split; [done|]. intros p Hp. destruct (_ =? 0); [|done].
  apply duplicate_path_spec in Hp as (id & Hin & Hid). exists id.
  split_and!; [by apply order_lookup|by left|]. right. done.
Qed.

Lemma round_robin_loop_ok lower q :
  let '(r, _, q') := foldl (round_robin_visit hasRetransmission) (None, lower, q) order in
  selection_ok s hasRetransmission r ∧ ∀ id, quota q' id = quota q id.
Proof.
  enough (∀ seen r0 lower q0, (∀ e, e ∈ seen → e ∈ order) → selection_ok s hasRetransmission r0 →
    (∀ id, quota q0 id = quota q id) →
    let '(r, _, q') := foldl (round_robin_visit hasRetransmission) (r0, lower, q0) seen in
    selection_ok s hasRetransmission r ∧ ∀ id, quota q' id = quota q id) as H by (by apply H).
  induction seen as [|[id p] seen IH]; intros r0 l0 q0 Hsub Hr Hq; cbn [foldl]; [done|].
  assert (∀ e, e ∈ seen → e ∈ order) as Hsub' by (intros; apply Hsub, elem_of_cons; by right).
  unfold round_robin_visit at 2.
  destruct (negb hasRetransmission && _) eqn:E1; [by apply IH|].
  destruct (potentiallyFailed p) eqn:E2; [by apply IH|]. destruct (Z.eqb_spec id InitialPathID); [by apply IH|].
  destruct (_ <? _); apply IH; try done; try (intros; by rewrite quota_touch).
  apply (usable_selection (id, p)); [apply Hsub, elem_of_cons; by left| |done].
  split_and!; [done|done|]. cbn. destruct hasRetransmission, (SendingAllowed p); cbn in E1; auto.
Qed.

Hypothesis (Hrtt : Forall (λ e, 0 <= SmoothedRTT e.2) order).

Lemma latency_loop_ok q :
  let st := foldl (latency_visit hasRetransmission) (mkLatency None 0 255 q) order in
  selection_ok s hasRetransmission (ll_selected st) ∧ ∀ id, quota (ll_quotas st) id = quota q id.
Proof.
  intros st. destruct (latency_loop_inv hasRetransmission q order Hrtt) as [Hq Hst]. fold st in Hq, Hst.
  split; [|done]. destruct (ll_selected st) as [p|]; [|done].
  destruct Hst as (Hin & Hu & _). by eapply usable_selection.
Qed.

Lemma ecf_second_ok q p :
  secondBestPath (foldl ecf_visit (ecf_start q) order) = Some p →
  ∃ id, (id, p) ∈ order ∧ usable false (id, p).
Proof.
  clear Horder Hrtt. induction order as [|e l IH] using rev_ind; [done|]. rewrite foldl_app. cbn [foldl].
  intros [[Hs _]|(<- & Hu & _)]%ecf_second_visit.
  - destruct (IH Hs) as (id & Hin & Hu). exists id. split; [by apply elem_of_app; left|done].
  - destruct e as [id p]. exists id. split; [apply elem_of_app; right; by apply list_elem_of_singleton|done].
Qed.

Lemma ecf_choice_ok q :
  let st := foldl ecf_visit (ecf_start q) order in
  (∀ id, quota (ecf_quotas st) id = quota q id) ∧
  match ecf_choice st hasRetransmission with
  | inl r => selection_ok s hasRetransmission r
  | inr (best, second) => selection_ok s hasRetransmission (Some second)
  end.
Proof.
  intros st. destruct (latency_loop_inv true q order Hrtt) as [Hq Hst].
  pose proof (ecf_second_ok q) as Hsec. rewrite <- ecf_best_loop in Hq, Hst. fold st in Hq, Hst, Hsec.
  unfold ecf_best in Hq, Hst. cbn in Hq, Hst. split; [done|]. unfold ecf_choice.
  assert (∀ p, secondBestPath st = Some p → selection_ok s hasRetransmission (Some p)) as Hsec'.
  { intros p Hp. destruct (Hsec p Hp) as (id & Hin & Hf & Hid & Hs).
    apply (usable_selection (id, p)); [done| |done]. split_and!; [done|done|]. right. by destruct Hs. }
  destruct (bestPath st) as [best|]; [|destruct (secondBestPath st); [auto|done]].
  destruct Hst as (Hin & (Hf & Hid & _) & _).
  destruct (hasRetransmission || SendingAllowed best) eqn:E; [|destruct (secondBestPath st); [auto|done]].
  apply (usable_selection (bestPathID st, best)); [done| |done]. split_and!; [done|done|].
  by apply orb_true_iff in E.
Qed.

End Selection.

(** What a session needs for its paths to be scheduled: an initial path, RTTs that are durations,
    and, with the stream scheduler, a well-formed tree of unfinished streams, at most eight levels
    deep with weights below 255. *)
Definition session_ok (s : session) : Prop :=
  is_Some (s_paths s !! InitialPathID) ∧ map_Forall (λ _ p, 0 <= SmoothedRTT p) (s_paths s) ∧
  ∀ ss, s_streamScheduler s = Some ss → ∃ rank ts, sa_pre (env_of s) rank ts ss.

Lemma order_rtt s order :
  map_Forall (λ _ p, 0 <= SmoothedRTT p) (s_paths s) → order ≡ₚ map_to_list (s_paths s) →
  Forall (λ e, 0 <= SmoothedRTT e.2) order.
Proof.
  intros Hrtt Horder. rewrite Horder. apply Forall_forall. intros [id p] Hin%elem_of_map_to_list.
  by apply (Hrtt id).
Qed.

Section SelectPath.
Context (sch : scheduler) (s : session) (hasRetransmission : bool) (from : option path).
Context (order1 order2 : list (Z * path)).
Hypothesis (Hs : session_ok s).
Hypothesis (Hfrom : hasRetransmission = true → from <> None).
Hypothesis (Ho1 : order1 ≡ₚ map_to_list (s_paths s)) (Ho2 : order2 ≡ₚ map_to_list (s_paths s)).

(** A selection that is safe and keeps the quotas. *)
Definition selects (m : result (option path * scheduler)) : Prop :=
  ∃ r sch', m = Ok (r, sch') ∧ selection_ok s hasRetransmission r ∧
    ∀ id, quota (quotas sch') id = quota (quotas sch) id.

Lemma only_path_selects :
  (size (s_paths s) <= 1)%nat → selects (p ← only_path s hasRetransmission; Ok (p, sch)).
Proof.
  intros Hsize. destruct (only_path_ok s hasRetransmission) as (r & -> & Hr); [apply Hs|done|].
  by exists r, sch.
Qed.

Lemma round_robin_selects : selects (selectPathRoundRobin sch s hasRetransmission order2).
Proof.
  unfold selectPathRoundRobin. destruct (Nat.leb_spec (size (s_paths s)) 1); [by apply only_path_selects|].
  pose proof (round_robin_loop_ok s hasRetransmission order2 Ho2 (2^64 - 1) (quotas sch)) as H'.
  destruct (foldl _ _ order2) as [[r l] q]. eexists _, _. split; [done|]. by destruct H'.
Qed.

Lemma low_latency_selects hasStream :
  selects (selectPathLowLatency sch s hasRetransmission hasStream from order1 order2).
Proof.
  unfold selectPathLowLatency. destruct (Nat.leb_spec (size (s_paths s)) 1); [by apply only_path_selects|].
  destruct (duplicate_ok s hasRetransmission order1 Ho1 (quotas sch) hasStream from Hfrom) as (dup & -> & Hd).
  cbn [mbind result_bind]. destruct dup as [p|]; [by exists (Some p), sch|].
  destruct (latency_loop_ok s hasRetransmission order2 Ho2 (order_rtt s order2 (proj1 (proj2 Hs)) Ho2) (quotas sch)) as [Hsel Hq].
  by eexists _, _.
Qed.

Lemma ecf_selects hasStream :
  selects (selectPathEarliestCompletionFirst sch s hasRetransmission hasStream from order1 order2).
Proof.
  unfold selectPathEarliestCompletionFirst.
  destruct (Nat.leb_spec (size (s_paths s)) 1); [by apply only_path_selects|].
  destruct (duplicate_ok s hasRetransmission order1 Ho1 (quotas sch) hasStream from Hfrom) as (dup & -> & Hd).
  cbn [mbind result_bind]. destruct dup as [p|]; [by exists (Some p), sch|].
  destruct (ecf_choice_ok s hasRetransmission order2 Ho2 (order_rtt s order2 (proj1 (proj2 Hs)) Ho2) (quotas sch)) as [Hq Hc].
  cbv zeta. set (st := foldl ecf_visit _ order2) in *.
  destruct (ecf_choice st hasRetransmission) as [r|[best second]]; [by eexists _, _|].
  destruct (ecf_waits _ _ _ _ _) as [[] w]; eexists _, _; (split; [done|]); by split.
Qed.

Lemma sa_ecf_selects hasStream :
  ∃ r sch' ss', selectPathStreamAwareEarliestCompletionFirst sch s hasRetransmission hasStream
      from order1 order2 = Ok (r, sch', ss') ∧ selection_ok s hasRetransmission r ∧
    (∀ id, quota (quotas sch') id = quota (quotas sch) id) ∧
    ∀ ss, ss' = Some ss → ∃ rank ts, sa_pre (env_of s) rank ts ss.
Proof.
  unfold selectPathStreamAwareEarliestCompletionFirst.
  destruct (s_streamScheduler s) as [ss|] eqn:Ess.
  2:{ destruct (ecf_selects hasStream) as (r & sch' & -> & Hr & Hq). by exists r, sch', None. }
  destruct Hs as (_ & _ & Htree). destruct (Htree ss Ess) as (rank & ts & Hpre). clear Htree.
  cbv zeta. set (ss0 := mkScheduler _ _ _ _ _).
  assert (∀ ss', Some ss0 = Some ss' → ∃ rank ts, sa_pre (env_of s) rank ts ss') as Hss0
    by (intros ss' [= <-]; eauto).
  destruct (Nat.leb_spec (size (s_paths s)) 1) as [Hsize|Hsize].
  { destruct (only_path_ok s hasRetransmission) as (r & -> & Hr); [apply Hs|done|]. by exists r, sch, (Some ss0). }
  destruct (duplicate_ok s hasRetransmission order1 Ho1 (quotas sch) hasStream from Hfrom) as (dup & -> & Hd).
  cbn [mbind result_bind]. destruct dup as [p|]; [by exists (Some p), sch, (Some ss0)|].
  destruct (ecf_choice_ok s hasRetransmission order2 Ho2 (order_rtt s order2 (proj1 (proj2 Hs)) Ho2) (quotas sch)) as [Hq Hc].
  set (st := foldl ecf_visit _ order2) in *.
  destruct (ecf_choice st hasRetransmission) as [r|[best second]]; [by eexists _, _, (Some ss0)|].
  destruct (sa_loop_spec (S (Z.to_nat (openStreams ss0))) (env_of s) rank ts st best second 0 ∅
    (queueSize (s_streamsMap s)) ss0) as (r & ss' & -> & Hr & Hpre'); [exact Hpre|cbn; lia|].
  cbn [mbind result_bind]. eexists _, _, (Some ss'). split; [done|]. split_and!; [|done|].
  - destruct Hr as [->| ->]; [done|exact Hc].
  - intros ss1 [= <-]. eauto.
Qed.

End SelectPath.

(** ** Properties *)

(** C12: for a session with an initial path and durations for RTTs -- and, if it has a stream scheduler, a well-formed tree of
    at most eight levels, of streams that are not finished and have weights below 255 (a weight of 255 makes the stream
    scheduler divide by zero, [weight_255_panics]) -- and a path to retransmit from if there is something to retransmit:
    whichever path scheduler is configured, and in whatever order the session's paths are visited, selecting a path terminates
    without a panic, the stream-aware scheduler's loop over the streams included.  It selects only a path of the session: for new
    data one that may send and, if there are several paths, has not potentially failed; for a retransmission possibly
    one that may not send or has potentially failed; never the initial path when there are others.  Reading quotas
    never changes their values, and the stream tree stays well formed. *)
Theorem select_path_total (sch : scheduler) (s : session) (hasRetransmission hasStreamRetransmission : bool)
    (from : option path) (order1 order2 : list (Z * path)) :
  session_ok s → (hasRetransmission = true → from <> None) →
  order1 ≡ₚ map_to_list (s_paths s) → order2 ≡ₚ map_to_list (s_paths s) →
  ∃ r sch' ss', selectPath sch s hasRetransmission hasStreamRetransmission from order1 order2
                = Ok (r, sch', ss') ∧
    selection_ok s hasRetransmission r ∧ (∀ id, quota (quotas sch') id = quota (quotas sch) id) ∧
    ∀ ss, ss' = Some ss → ∃ rank ts, sa_pre (env_of s) rank ts ss.
Proof.
  intros Hs Hfrom Ho1 Ho2. unfold selectPath.
  destruct (pathScheduler sch).
  1: destruct (round_robin_selects sch s hasRetransmission order2 Hs Ho2) as (r & sch' & -> & Hr & Hq).
  2: destruct (ecf_selects sch s hasRetransmission from order1 order2 Hs Hfrom Ho1 Ho2 hasRetransmission)
       as (r & sch' & -> & Hr & Hq).
  3: by apply sa_ecf_selects.
  3: destruct (low_latency_selects sch s hasRetransmission from order1 order2 Hs Hfrom Ho1 Ho2 hasRetransmission)
       as (r & sch' & -> & Hr & Hq).
  all: cbn [mbind result_bind]; exists r, sch', (s_streamScheduler s); split_and!; [done|done|done|apply Hs].
Qed.

(** In every iteration order, the lowest-latency scheduler finds a path exactly if one may be
    used, and selects the one with the lowest smoothed RTT; only if no usable path has an RTT
    sample yet, it selects one without, and then one that has sent the fewest packets. *)
Theorem low_latency_selects_fastest (sch : scheduler) (s : session) (hasRetransmission hasStream : bool)
    (from : option path) (order1 order2 : list (Z * path)) :
  (1 < size (s_paths s))%nat → map_Forall (λ _ p, 0 <= SmoothedRTT p) (s_paths s) →
  order2 ≡ₚ map_to_list (s_paths s) →
  duplicate (quotas sch) hasRetransmission hasStream from order1 = Ok None →
  ∃ r sch', selectPathLowLatency sch s hasRetransmission hasStream from order1 order2 = Ok (r, sch') ∧
  match r with
  | None => ∀ id p, s_paths s !! id = Some p → ¬ usable hasRetransmission (id, p)
  | Some p => ∃ id, s_paths s !! id = Some p ∧ usable hasRetransmission (id, p) ∧
      ∀ id' p', s_paths s !! id' = Some p' → usable hasRetransmission (id', p') →
        (SmoothedRTT p' <> 0 → 0 < SmoothedRTT p <= SmoothedRTT p') ∧
        (SmoothedRTT p = 0 → quota (quotas sch) id <= quota (quotas sch) id')
  end.
Proof.
  intros Hsize Hrtt Ho2 Hdup. unfold selectPathLowLatency.
  destruct (Nat.leb_spec (size (s_paths s)) 1); [lia|]. rewrite Hdup. cbn [mbind result_bind].
  eexists _, _. split; [done|].
  destruct (latency_loop_inv hasRetransmission (quotas sch) order2) as [_ Hst];
    [by eapply order_rtt|].
  assert (∀ id p, (id, p) ∈ order2 ↔ s_paths s !! id = Some p) as Hin
    by (intros; rewrite Ho2; apply elem_of_map_to_list).
  destruct (ll_selected _) as [p|].
  - destruct Hst as (Hp & Hu & _ & Hmin). eexists. split; [by apply Hin|]. split; [done|].
    intros id' p' Hp' Hu'. apply (Hmin (id', p')); [by apply Hin|done].
  - destruct Hst as [_ Hnone]. intros id p Hp. by apply Hnone, Hin.
Qed.

(** C13: with two candidate paths -- not failed and not the initial one -- that have RTT samples, a fast and a slow one, and in every
    iteration order, ECF retransmits on the fast path, even if that may not send; new data it sends on the fast path
    whenever that may send; otherwise on the slow path if that may send, unless the rule of ECF says that waiting for the fast
    path completes earlier, with the hysteresis of the waiting flag; and it waits if neither may send.  The RTTs
    and their deviations are below 2^34 ns (17 s), the windows at most 64 MB and the queues below 512 MB, so that the
    rule is computed without overflow; a stream frame that is retransmitted was lost on a path with an RTT sample. *)
Theorem ecf_two_paths (sch : scheduler) (s : session) (order1 order2 : list (Z * path))
    (hasRetransmission hasStream : bool) (from : option path) (i j : Z) (f sl : path) :
  (1 < size (s_paths s))%nat → order2 ≡ₚ map_to_list (s_paths s) →
  filter candidate (map_to_list (s_paths s)) ≡ₚ [(i, f); (j, sl)] →
  0 < SmoothedRTT f < SmoothedRTT sl → path_ok f → path_ok sl →
  0 <= queueSize (s_streamsMap s) < 2^29 → 0 <= sch_waiting sch <= 1 →
  (hasRetransmission && hasStream = true → ∃ p, from = Some p ∧ SmoothedRTT p <> 0) →
  selectPathEarliestCompletionFirst sch s hasRetransmission hasStream from order1 order2
  = Ok (if hasRetransmission || SendingAllowed f then (Some f, sch)
        else if SendingAllowed sl then
          let '(wait, w) := ecf_rule f sl (queueSize (s_streamsMap s)) (sch_waiting sch) in
          (if wait then None else Some sl, set_sch_waiting sch w)
        else (None, sch)).
Proof.
  intros Hsize Ho2 Hcand Hrtt Hf Hsl Hq Hw Hfrom. unfold selectPathEarliestCompletionFirst.
  destruct (Nat.leb_spec (size (s_paths s)) 1); [lia|].
  assert (duplicate (quotas sch) hasRetransmission hasStream from order1 = Ok None) as ->.
  { unfold duplicate. destruct (hasRetransmission && hasStream); [|done]. destruct (Hfrom eq_refl) as (p & -> & Hp).
    by rewrite (proj2 (Z.eqb_neq _ _) Hp). }
  cbn [mbind result_bind].
  destruct (ecf_two_candidates (quotas sch) order2 i j f sl) as (Eb & Eq & El & Es); [by rewrite Ho2|done|].
  cbv zeta. set (st := foldl ecf_visit _ order2) in *. rewrite Eq.
  assert (set_quotas sch (quotas sch) = sch) as -> by (by destruct sch).
  unfold ecf_choice. rewrite Eb. destruct hasRetransmission; [done|]. cbn [orb]. destruct (SendingAllowed f); [done|].
  destruct (Es eq_refl) as [-> Es2]. destruct (SendingAllowed sl); [|done].
  rewrite ecf_waits_exact by auto. by destruct (ecf_rule _ _ _ _) as [[] w].
Qed.

(** ** A session with a fast path that is blocked and a slow one that is not *)

#[export] Instance path_eq_dec : EqDecision path.
Proof. solve_decision. Defined.

Definition sample_path (id rtt : Z) (allowed : bool) : path := mkPath id true allowed rtt 5000 15000 false.
Definition fast_path : path := sample_path 1 20000000 false.
Definition slow_path : path := sample_path 3 200000000 true.

Definition sample_session (streams : option streamScheduler) : session :=
  mkSession (list_to_map [(0, sample_path 0 0 true); (1, fast_path); (3, slow_path)])
    (set_streams (newStreamsMap PerspectiveServer None) {[5; 7; 9]} [5; 7; 9] 0
       (env_streams (ready_env [5; 7; 9])) None)
    streams (λ _, 100).

Definition sample_order : list (Z * path) := [(3, slow_path); (0, sample_path 0 0 true); (1, fast_path)].

Lemma sample_order_ok streams : sample_order ≡ₚ map_to_list (s_paths (sample_session streams)).
Proof.
  apply (bool_decide_unpack (_ ≡ₚ _)). vm_compute. exact I.
Qed.

Lemma sample_session_ok : session_ok (sample_session (Some (the_scheduler sample_scheduler))).
Proof.
  split_and!; [vm_compute; eauto| |].
  - apply map_Forall_to_list, (bool_decide_unpack (Forall _ _)). vm_compute. exact I.
  - intros ss [= <-]. exists (λ p, if p =? root then 0%nat else 1%nat), [Node 1 []; Node 2 []; Node 3 []]. split.
    + by apply sample_visit_pre.
    + intros q n Hn. apply elem_of_map_to_list in Hn. vm_compute in Hn.
      repeat (apply elem_of_cons in Hn as [[= -> ->]|Hn]); [..|by apply elem_of_nil in Hn];
        cbn; (split_and!; try lia; intros pp; try (intros [= <-]; reflexivity); done).
Qed.

Definition sample_sch (k : pathSchedulerKind) : scheduler := mkPathScheduler ∅ k 0.

(** The stream-aware scheduler considers every stream and waits for the fast path. *)
Lemma select_path_total_witness :
  let s := sample_session (Some (the_scheduler sample_scheduler)) in
  ∃ sch' ss', selectPath (sample_sch SA_ECF) s false false None sample_order sample_order
              = Ok (None, sch', ss') ∧ ∀ ss, ss' = Some ss → ∃ rank ts, sa_pre (env_of s) rank ts ss.
Proof.
  intros s.
  destruct (select_path_total (sample_sch SA_ECF) s false false None sample_order sample_order
    sample_session_ok ltac:(discriminate) (sample_order_ok _) (sample_order_ok _))
    as (r & sch' & ss' & E & _ & _ & Hss).
  exists sch', ss'. split; [|exact Hss]. rewrite E. f_equal. f_equal. f_equal.
  assert (E' : (λ x, match x with Ok (r, _, _) => Some r | _ => None end)
    (selectPath (sample_sch SA_ECF) s false false None sample_order sample_order) = Some None)
    by (vm_compute; reflexivity).
  rewrite E in E'. by injection E'.
Defined.

(** The slow path is the fastest that may send. *)
Lemma low_latency_selects_fastest_witness :
  let s := sample_session None in
  usable false (3, slow_path) ∧
  ∃ r sch', selectPathLowLatency (sample_sch LowLatency) s false false None sample_order sample_order
            = Ok (r, sch') ∧ r = Some slow_path.
Proof.
  intros s. split; [split_and!; [done|done|by right]|].
  destruct (low_latency_selects_fastest (sample_sch LowLatency) s false false None sample_order sample_order)
    as (r & sch' & E & Hr).
  - vm_compute. lia.
  - apply map_Forall_to_list, (bool_decide_unpack (Forall _ _)). vm_compute. exact I.
  - apply sample_order_ok.
  - reflexivity.
  - exists r, sch'. split; [exact E|]. destruct r as [p|].
    + destruct Hr as (id & Hp & (Hf & Hid & Hs) & _). apply elem_of_map_to_list in Hp. vm_compute in Hp.
      repeat (apply elem_of_cons in Hp as [[= -> ->]|Hp]); [..|by apply elem_of_nil in Hp]; cbn in *;
        try done; by destruct Hs.
    + destruct (Hr 3 slow_path); [reflexivity|]. split_and!; [done|done|by right].
Defined.

(** The fast path is blocked; waiting for it beats the slow path. *)
Lemma ecf_two_paths_witness :
  selectPathEarliestCompletionFirst (sample_sch ECF) (sample_session None) false false None
    sample_order sample_order = Ok (None, set_sch_waiting (sample_sch ECF) 1).
Proof.
  rewrite (ecf_two_paths (sample_sch ECF) (sample_session None) sample_order sample_order false false None
    1 3 fast_path slow_path).
  - reflexivity.
  - vm_compute. lia.
  - apply sample_order_ok.
  - apply (bool_decide_unpack (_ ≡ₚ _)). vm_compute. exact I.
  - cbn. lia.
  - unfold path_ok. cbn. lia.
  - unfold path_ok. cbn. lia.
  - vm_compute. split; [discriminate|reflexivity].
  - cbn. lia.
  - discriminate.
Defined.

(** ** Three paths *)

(** With three candidates the second best path ECF keeps depends on the order in which the map is
    iterated: a path that was the best for a while is never remembered as second best, so ECF may
    find no path at all although one may send. *)
Lemma ecf_second_depends_on_order :
  let a := (1, sample_path 1 300 false) in let b := (2, sample_path 2 200 true) in
  let c := (3, sample_path 3 100 false) in
  ecf_choice (foldl ecf_visit (ecf_start ∅) [c; a; b]) false = inr (c.2, b.2) ∧
  ecf_choice (foldl ecf_visit (ecf_start ∅) [a; b; c]) false = inl None.
Proof. split; reflexivity. Qed.
