(* ===== verification/StreamFramer.v ===== *)
(** * The stream framer

    stream_framer.go, and send of stream_scheduler.go, which is its copy for one stream: turning the
    data of the streams into STREAM frames that fit a packet and the flow control windows, splitting
    frames that are retransmitted, and the queues of the other frames the framer hands to the packer.
    The framer shares the streams map, the flow controllers and the stream scheduler with the
    session; here they are parts of its state.  The negotiated limits and windows are arguments. *)

From S2P Require Import Prelude ByteOrder Protocol Frames StreamFrame AckFrame ClosePathFrame FrameSorter FlowControl.
From S2P Require Import Stream StreamScheduler StreamsMap PathScheduler.

Record streamFramer : Type := mkFramer {
  sf_streamsMap : streamsMap;
  sf_fcm : flowControlManager;
  retransmissionQueue : list StreamFrame;
  blockedFrameQueue : list BlockedFrame;
  addAddressFrameQueue : list AddAddressFrame;
  closePathFrameQueue : list ClosePathFrame;
  pathsFrame : option PathsFrame;
}.

Definition newStreamFramer (m : streamsMap) (fcm : flowControlManager) : streamFramer :=
  mkFramer m fcm [] [] [] [] None.

(** The parts of the state that framing stream data writes, and the queues. *)
Definition set_data (f : streamFramer) (m : streamsMap) (fcm : flowControlManager)
    (rq : list StreamFrame) (bq : list BlockedFrame) : streamFramer :=
  mkFramer m fcm rq bq (addAddressFrameQueue f) (closePathFrameQueue f) (pathsFrame f).

Definition set_queues (f : streamFramer) (aq : list AddAddressFrame) (cq : list ClosePathFrame)
    (pf : option PathsFrame) : streamFramer :=
  mkFramer (sf_streamsMap f) (sf_fcm f) (retransmissionQueue f) (blockedFrameQueue f) aq cq pf.

(** ** The queues *)

Definition AddFrameForRetransmission (f : streamFramer) (frame : StreamFrame) : streamFramer :=
  set_data f (sf_streamsMap f) (sf_fcm f) (retransmissionQueue f ++ [frame]) (blockedFrameQueue f).

Definition PopBlockedFrame (f : streamFramer) : option BlockedFrame * streamFramer :=
  match blockedFrameQueue f with
  | [] => (None, f)
  | frame :: q => (Some frame, set_data f (sf_streamsMap f) (sf_fcm f) (retransmissionQueue f) q)
  end.

Definition AddAddressForTransmission (f : streamFramer) (ipVersion : Z) (ip : list Z) (port : Z)
  : streamFramer :=
  set_queues f (addAddressFrameQueue f ++ [{| aa_IPVersion := ipVersion; aa_IP := ip; aa_Port := port |}])
    (closePathFrameQueue f) (pathsFrame f).

Definition PopAddAddressFrame (f : streamFramer) : option AddAddressFrame * streamFramer :=
  match addAddressFrameQueue f with
  | [] => (None, f)
  | frame :: q => (Some frame, set_queues f q (closePathFrameQueue f) (pathsFrame f))
  end.

Definition Hour : Z := 3600 * 1000000000.

(** The paths in the order of the iteration over the session's map. *)
Definition AddPathsFrameForTransmission (f : streamFramer) (order : list (Z * path)) : streamFramer :=
  set_queues f (addAddressFrameQueue f) (closePathFrameQueue f)
    (Some {| pf_MaxNumPaths := 255; pf_NumPaths := u8 (Z.of_nat (length order));
             pf_PathIDs := order.*1;
             pf_RemoteRTTs := (λ e, if potentiallyFailed e.2 then Hour else SmoothedRTT e.2) <$> order |}).

Definition PopPathsFrame (f : streamFramer) : option PathsFrame * streamFramer :=
  (pathsFrame f, set_queues f (addAddressFrameQueue f) (closePathFrameQueue f) None).

Definition AddClosePathFrameForTransmission (f : streamFramer) (frame : ClosePathFrame) : streamFramer :=
  set_queues f (addAddressFrameQueue f) (closePathFrameQueue f ++ [frame]) (pathsFrame f).

Definition PopClosePathFrame (f : streamFramer) : option ClosePathFrame * streamFramer :=
  match closePathFrameQueue f with
  | [] => (None, f)
  | frame :: q => (Some frame, set_queues f (addAddressFrameQueue f) q (pathsFrame f))
  end.

Definition HasFramesForRetransmission (f : streamFramer) : bool :=
  (0 <? length (retransmissionQueue f))%nat.

(** ** The crypto stream *)

(** The crypto stream is opened if it is not; its error is ignored, so that there is no stream to
    ask then. *)
Definition crypto_stream (limits : streamLimits) (f : streamFramer) : result stream * streamFramer :=
  let '(r, m) := GetOrOpenStream limits (sf_streamsMap f) 1 in
  let f := set_data f m (sf_fcm f) (retransmissionQueue f) (blockedFrameQueue f) in
  (match r with
   | Ok (Some id) => match store m !! id with Some s => Ok s | None => Panic "nil pointer dereference" end
   | Ok None | Err _ => Panic "nil pointer dereference"
   | Panic w => Panic w
   end, f).

Definition HasCryptoStreamFrame (limits : streamLimits) (f : streamFramer) : result bool * streamFramer :=
  let '(r, f) := crypto_stream limits f in
  (s ← r; Ok (lenOfDataForWriting s >? 0), f).

Definition put_stream (f : streamFramer) (s : stream) : streamFramer :=
  let m := sf_streamsMap f in
  set_data f (set_streams m (sm_streams m) (sm_openStreams m) (roundRobinIndex m)
                (<[streamID s := s]> (store m)) (sm_scheduler m))
    (sf_fcm f) (retransmissionQueue f) (blockedFrameQueue f).

Definition header_len (frame : StreamFrame) : Z :=
  match StreamFrame_MinLength frame 0 with Ok n => n | _ => 0 end.

Definition PopCryptoStreamFrame (limits : streamLimits) (f : streamFramer) (maxLen : Z)
  : result (option StreamFrame) * streamFramer :=
  match HasCryptoStreamFrame limits f with
  | (Ok false, f) => (Ok None, f)
  | (Ok true, f) =>
      let '(r, f) := crypto_stream limits f in
      match r with
      | Ok cs =>
          let frame := {| StreamID := 1; FinBit := false; DataLenPresent := false;
                          Offset := writeOffset cs; Data := [] |} in
          let '(data, cs) := getDataForWriting cs (maxLen -u64 header_len frame) in
          (Ok (Some {| StreamID := 1; FinBit := false; DataLenPresent := false;
                       Offset := Offset frame; Data := default [] data |}), put_stream f cs)
      | Err e => (Err e, f)
      | Panic w => (Panic w, f)
      end
  | (Err e, f) => (Err e, f)
  | (Panic w, f) => (Panic w, f)
  end.

(** ** Retransmissions *)

(** The first [n] bytes as a frame of their own, and what is left of the frame. *)
Definition maybeSplitOffFrame (frame : StreamFrame) (n : Z) : option (StreamFrame * StreamFrame) :=
  if n >=? DataLen frame then None
  else Some
    ({| StreamID := StreamID frame; FinBit := false; DataLenPresent := DataLenPresent frame;
        Offset := Offset frame; Data := take (Z.to_nat n) (Data frame) |},
     {| StreamID := StreamID frame; FinBit := FinBit frame; DataLenPresent := DataLenPresent frame;
        Offset := Offset frame +u64 n; Data := drop (Z.to_nat n) (Data frame) |}).

Definition with_data_len (frame : StreamFrame) : StreamFrame :=
  {| StreamID := StreamID frame; FinBit := FinBit frame; DataLenPresent := true;
     Offset := Offset frame; Data := Data frame |}.

(** The loop over the queue: the frames, their length, the rest of the queue. *)
Fixpoint pop_retransmissions (maxLen currentLen : Z) (queue : list StreamFrame)
    (fcm : flowControlManager) : list StreamFrame * Z * list StreamFrame * flowControlManager :=
  match queue with
  | [] => ([], currentLen, [], fcm)
  | frame :: queue =>
      let frame := with_data_len frame in
      let frameHeaderLen := header_len frame in
      if currentLen +u64 frameHeaderLen >=? maxLen then ([], currentLen, frame :: queue, fcm)
      else
        let currentLen := currentLen +u64 frameHeaderLen in
        match maybeSplitOffFrame frame (maxLen -u64 currentLen) with
        | Some (splitFrame, frame) =>
            ([splitFrame], currentLen +u64 DataLen splitFrame, frame :: queue,
             (fcm_AddBytesRetrans fcm (StreamID splitFrame) (DataLen splitFrame)).2)
        | None =>
            let fcm := (fcm_AddBytesRetrans fcm (StreamID frame) (DataLen frame)).2 in
            let '(res, currentLen, queue, fcm) :=
              pop_retransmissions maxLen (currentLen +u64 DataLen frame) queue fcm in
            (frame :: res, currentLen, queue, fcm)
        end
  end.

Definition maybePopFramesForRetransmission (f : streamFramer) (maxLen : Z)
  : list StreamFrame * Z * streamFramer :=
  let '(res, currentLen, queue, fcm) := pop_retransmissions maxLen 0 (retransmissionQueue f) (sf_fcm f) in
  (res, currentLen, set_data f (sf_streamsMap f) fcm queue (blockedFrameQueue f)).

(** ** New data *)

(** The frame of a stream before it has data. *)
Definition empty_frame (s : stream) : StreamFrame :=
  {| StreamID := streamID s; FinBit := false; DataLenPresent := true;
     Offset := writeOffset s; Data := [] |}.

(** What framing a stream's data works on, next to the stream: the flow controllers, the BLOCKED
    frames to send, and the length of the frames so far. *)
Record framing : Type := mkFraming {
  fr_fcm : flowControlManager;
  fr_blocked : list BlockedFrame;
  fr_len : Z;
}.

(** A stream's turn: its frame if it has one, whether to go on with the next stream. *)
Definition pop_stream (params : flowParameters) (maxBytes : Z) (s : stream) (st : framing)
  : option StreamFrame * bool * stream * framing :=
  if streamID s =? 1 then (None, true, s, st)
  else
    let frame := empty_frame s in
    let frameHeaderBytes := header_len frame in
    if fr_len st +u64 frameHeaderBytes >? maxBytes then (None, false, s, st)
    else
      let maxLen := (maxBytes -u64 fr_len st) -u64 frameHeaderBytes in
      let lenStreamData := lenOfDataForWriting s in
      let sendWindowSize :=
        if lenStreamData =? 0 then 0
        else match fcm_SendWindowSize params (fr_fcm st) (streamID s) with Ok w => w | _ => 0 end in
      let maxLen := if lenStreamData =? 0 then maxLen else MinByteCount maxLen sendWindowSize in
      if maxLen =? 0 then (None, true, s, st)
      else
        let '(data, s) := if lenStreamData =? 0 then (None, s) else getDataForWriting s maxLen in
        let fin := shouldSendFin s in
        if bool_decide (data = None) && negb fin then (None, true, s, st)
        else
          let s := if fin then sentFin s else s in
          let frame := {| StreamID := streamID s; FinBit := fin; DataLenPresent := true;
                          Offset := Offset frame; Data := default [] data |} in
          let fcm := (fcm_AddBytesSent (fr_fcm st) (streamID s) (DataLen frame)).2 in
          let blocked :=
            if RemainingConnectionWindowSize params fcm =? 0
            then fr_blocked st ++ [{| blk_StreamID := 0 |}]
            else if negb fin && (sendWindowSize -u64 DataLen frame =? 0)
            then fr_blocked st ++ [{| blk_StreamID := streamID s |}]
            else fr_blocked st in
          let currentLen := fr_len st +u64 (frameHeaderBytes +u64 DataLen frame) in
          (Some frame, negb (currentLen =? maxBytes), s, mkFraming fcm blocked currentLen).

(** The stream scheduler's send: one stream, in an empty packet. *)
Definition send (params : flowParameters) (s : option stream) (maxBytes : Z)
    (fcm : flowControlManager) (blocked : list BlockedFrame)
  : option StreamFrame * Z * bool * option stream * flowControlManager * list BlockedFrame :=
  match s with
  | None => (None, 0, true, None, fcm, blocked)
  | Some s =>
      let '(frame, cont, s, st) := pop_stream params maxBytes s (mkFraming fcm blocked 0) in
      (frame, fr_len st, cont, Some s, fr_fcm st, fr_blocked st)
  end.

(** The callback of the iteration over the open streams: the state is the streams, the frames so
    far and the framing state. *)
Definition pop_callback (params : flowParameters) (maxBytes : Z)
  : stream_lambda (gmap Z stream * list StreamFrame * framing) :=
  λ id st,
    let '(streams, res, fr) := st in
    match streams !! id with
    | None => (true, None, st)
    | Some s =>
        let '(frame, cont, s, fr) := pop_stream params maxBytes s fr in
        (cont, None, (<[id := s]> streams, res ++ option_list frame, fr))
    end.

(** The environment of the stream scheduler. *)
Definition framer_env (params : flowParameters) (f : streamFramer) : environment :=
  mkEnv (store (sf_streamsMap f))
    (λ id, match fcm_SendWindowSize params (sf_fcm f) id with Ok w => w | _ => 0 end).

Definition with_store (m : streamsMap) (st : gmap Z stream) (sched : option streamScheduler) : streamsMap :=
  set_streams m (sm_streams m) (sm_openStreams m) (roundRobinIndex m) st sched.

Definition maybePopNormalFrames (params : flowParameters) (f : streamFramer) (maxBytes : Z)
  : result (list StreamFrame * streamFramer) :=
  let m := sf_streamsMap f in
  match sm_scheduler m with
  | None =>
      '(_, m, (streams, res, fr)) ←
        RoundRobinIterate m (pop_callback params maxBytes)
          (store m, [], mkFraming (sf_fcm f) (blockedFrameQueue f) 0);
      Ok (res, set_data f (with_store m streams None) (fr_fcm fr) (retransmissionQueue f) (fr_blocked fr))
  | Some sch =>
      '(p, sch) ← match toSend sch with
                  | None => schedule (framer_env params f) sch
                  | Some p => Ok (Some p, sch)
                  end;
      n ← match p with Some p => n ← deref (heap sch) p; Ok (n_stream n) | None => Ok None end;
      match n with
      | None => Ok ([], set_data f (with_store m (store m) (Some sch)) (sf_fcm f)
                          (retransmissionQueue f) (blockedFrameQueue f))
      | Some id =>
          s ← get_stream (framer_env params f) id;
          let '(frame, _, _, s, fcm, blocked) := send params (Some s) maxBytes (sf_fcm f) (blockedFrameQueue f) in
          let streams := match s with Some s => <[id := s]> (store m) | None => store m end in
          Ok (option_list frame,
              set_data f (with_store m streams (Some sch)) fcm (retransmissionQueue f) blocked)
      end
  end.

Definition PopStreamFrames (params : flowParameters) (f : streamFramer) (maxLen : Z)
  : result (list StreamFrame * streamFramer) :=
  let '(fs, currentLen, f) := maybePopFramesForRetransmission f maxLen in
  '(res, f) ← maybePopNormalFrames params f (maxLen -u64 currentLen);
  Ok (fs ++ res, f).

(** ** The length of frames *)

Definition frame_len (frame : StreamFrame) : Z := header_len frame + DataLen frame.

Fixpoint frames_len (l : list StreamFrame) : Z :=
  match l with [] => 0 | f :: l => frame_len f + frames_len l end.

Lemma frames_len_app l1 l2 : frames_len (l1 ++ l2) = frames_len l1 + frames_len l2.
Proof. induction l1 as [|f l1 IH]; cbn [app frames_len]; lia. Qed.

Lemma header_len_range f : 2 <= header_len f <= 15.
Proof.
  unfold header_len, StreamFrame_MinLength, calculateStreamIDLength, getOffsetLength.
  repeat match goal with |- context [if ?b then _ else _] => destruct b end; lia.
Qed.

(** The header does not depend on the data. *)
Lemma header_len_data f g :
  StreamID f = StreamID g → Offset f = Offset g → DataLenPresent f = DataLenPresent g →
  header_len f = header_len g.
Proof.
  unfold header_len, StreamFrame_MinLength, calculateStreamIDLength, getOffsetLength.
  by intros -> -> ->.
Qed.

Lemma DataLen_nonneg f : 0 <= DataLen f.
Proof. unfold DataLen. lia. Qed.

Lemma frames_len_nonneg l : 0 <= frames_len l.
Proof.
  induction l as [|f l IH]; cbn; [done|]. unfold frame_len.
  pose proof (header_len_range f). pose proof (DataLen_nonneg f). lia.
Qed.

(** ** A stream's turn *)

(** The data taken is a prefix of the data waiting, no longer than allowed. *)
Lemma getDataForWriting_spec s maxBytes data s' :
  0 < maxBytes → getDataForWriting s maxBytes = (Some data, s') →
  s_err s = None ∧ ∃ pending, dataForWriting s = Some pending ∧
  Z.of_nat (length data) <= maxBytes ∧ (pending <> [] → data <> []) ∧
  pending = data ++ default [] (dataForWriting s') ∧
  dataForWriting s' = (if Z.of_nat (length pending) >? maxBytes
                       then Some (drop (Z.to_nat maxBytes) pending) else None) ∧
  s' = set_writing s (writeOffset s +u64 Z.of_nat (length data)) (dataForWriting s') (finishedWriting s) (finSent s).
Proof.
  intros Hmax. unfold getDataForWriting. destruct (s_err s); [done|].
  destruct (dataForWriting s) as [pending|]; [|done]. intros Hg. split; [done|].
  exists pending. split; [done|]. rewrite Z.gtb_ltb in *.
  destruct (Z.ltb_spec maxBytes (Z.of_nat (length pending))); injection Hg as <- <-;
    cbn [set_writing dataForWriting from_option id].
  - rewrite length_take. split_and!; [lia| |by rewrite (take_drop (Z.to_nat maxBytes) pending)|done|done].
    intros _ Hnil. apply (f_equal length) in Hnil. rewrite length_take in Hnil. cbn in Hnil. lia.
  - split_and!; [lia|done|by rewrite app_nil_r|done|done].
Qed.

Lemma lenOfDataForWriting_pos s :
  lenOfDataForWriting s <> 0 → s_err s = None ∧ ∃ b pending, dataForWriting s = Some (b :: pending).
Proof.
  unfold lenOfDataForWriting. destruct (s_err s); [done|].
  destruct (dataForWriting s) as [[|b pending]|]; cbn; intros; [done|eauto|done].
Qed.

(** What a turn with a frame has done: the frame starts where the stream was, its data is the next
    data of the stream, within the window and the packet, and it has the FIN exactly if the stream
    is closed and all its data sent. *)
Definition turn_post (params : flowParameters) (maxBytes : Z) (s : stream) (st : framing)
    (frame : StreamFrame) (s' : stream) (st' : framing) : Prop :=
  StreamID frame = streamID s ∧ Offset frame = writeOffset s ∧ DataLenPresent frame = true ∧
  s_err s = None ∧
  default [] (dataForWriting s) = Data frame ++ default [] (dataForWriting s') ∧
  (dataForWriting s' = Some [] → dataForWriting s = Some []) ∧
  s' = set_writing s (writeOffset s +u64 DataLen frame) (dataForWriting s') (finishedWriting s) (FinBit frame || finSent s) ∧
  (FinBit frame = true ↔ finishedWriting s = true ∧ finSent s = false ∧ dataForWriting s' = None) ∧
  (FinBit frame = true ∨ Data frame <> []) ∧
  (Data frame <> [] → ∃ w, fcm_SendWindowSize params (fr_fcm st) (streamID s) = Ok w ∧ DataLen frame <= w) ∧
  fr_fcm st' = (fcm_AddBytesSent (fr_fcm st) (streamID s) (DataLen frame)).2 ∧
  fr_len st' = fr_len st + frame_len frame ∧ fr_len st' <= maxBytes.

(** The length of a frame that fits, added without overflow. *)
Lemma turn_len params maxBytes s st frame s' len fcm blocked :
  StreamID frame = streamID s → Offset frame = writeOffset s → DataLenPresent frame = true →
  0 <= fr_len st → fr_len st + header_len (empty_frame s) + DataLen frame <= maxBytes → maxBytes < 2^32 →
  len = fr_len st +u64 (header_len (empty_frame s) +u64 DataLen frame) →
  s_err s = None →
  default [] (dataForWriting s) = Data frame ++ default [] (dataForWriting s') →
  (dataForWriting s' = Some [] → dataForWriting s = Some []) →
  s' = set_writing s (writeOffset s +u64 DataLen frame) (dataForWriting s') (finishedWriting s) (FinBit frame || finSent s) →
  (FinBit frame = true ↔ finishedWriting s = true ∧ finSent s = false ∧ dataForWriting s' = None) →
  (FinBit frame = true ∨ Data frame <> []) →
  (Data frame <> [] → ∃ w, fcm_SendWindowSize params (fr_fcm st) (streamID s) = Ok w ∧ DataLen frame <= w) →
  fcm = (fcm_AddBytesSent (fr_fcm st) (streamID s) (DataLen frame)).2 →
  turn_post params maxBytes s st frame s' (mkFraming fcm blocked len).
Proof.
  intros E1 E2 E3 Hl Hfit Hmax ->. intros. pose proof (header_len_range (empty_frame s)).
  pose proof (DataLen_nonneg frame).
  rewrite (u64_id (header_len _ + _)), (u64_id (fr_len st + _)) by (unfold is_u64; lia).
  split_and!; try done; cbn [fr_len]; [|lia].
  unfold frame_len. rewrite (header_len_data frame (empty_frame s)); [done|by rewrite E1|by rewrite E2|by rewrite E3].
Qed.

Lemma shouldSendFin_true s :
  shouldSendFin s = true ↔
  finishedWriting s = true ∧ finSent s = false ∧ s_err s = None ∧ dataForWriting s = None.
Proof.
  unfold shouldSendFin. rewrite !andb_true_iff, !bool_decide_eq_true, negb_true_iff. tauto.
Qed.

Lemma SendWindowSize_nonneg params fcm id w : fcm_SendWindowSize params fcm id = Ok w → 0 <= w.
Proof.
  assert (∀ c, 0 <= fc_SendWindowSize params c) as Hc.
  { intros c. unfold fc_SendWindowSize. destruct (_ >? _); [lia|apply u64_range]. }
  unfold fcm_SendWindowSize. intros H. apply result_bind_inv in H as (fc & _ & [= <-]).
  pose proof (Hc fc). pose proof (Hc (connFlowController fcm)).
  destruct (contributesToConnection fc); [|done]. unfold MinByteCount. by destruct (_ <? _).
Qed.

(** A positive number of bytes to send is within a known window. *)
Lemma turn_window params fcm id space :
  0 <= space →
  let win := match fcm_SendWindowSize params fcm id with Ok w => w | _ => 0 end in
  let n := MinByteCount space win in
  n <> 0 → 0 < n ∧ n <= space ∧ fcm_SendWindowSize params fcm id = Ok win ∧ n <= win.
Proof.
  intros Hs. unfold MinByteCount. destruct (fcm_SendWindowSize params fcm id) as [w|e|e] eqn:E; cbv zeta.
  - pose proof (SendWindowSize_nonneg _ _ _ _ E). destruct (Z.ltb_spec space w); intros; split_and!; lia || done.
  - destruct (Z.ltb_spec space 0); lia.
  - destruct (Z.ltb_spec space 0); lia.
Qed.

Lemma pop_stream_spec params maxBytes s st r cont s' st' :
  pop_stream params maxBytes s st = (r, cont, s', st') → is_u64 (writeOffset s) →
  0 <= fr_len st <= maxBytes → maxBytes < 2^32 →
  match r with
  | None => s' = s ∧ st' = st
  | Some frame => turn_post params maxBytes s st frame s' st'
  end.
Proof.
  intros Hp Hoff Hlen Hmax. unfold pop_stream in Hp.
  destruct (streamID s =? 1); [by injection Hp as <- _ <- <-|].
  pose proof (header_len_range (empty_frame s)) as Hh. cbv zeta in Hp. set (h := header_len (empty_frame s)) in *.
  rewrite (u64_id (fr_len st + h)), Z.gtb_ltb in Hp by (unfold is_u64; lia).
  destruct (Z.ltb_spec maxBytes (fr_len st + h)); [by injection Hp as <- _ <- <-|].
  rewrite (u64_id (maxBytes - fr_len st)), (u64_id (maxBytes - fr_len st - h)) in Hp by (unfold is_u64; lia).
  destruct (Z.eqb_spec (lenOfDataForWriting s) 0) as [E0|E0].
  - destruct (Z.eqb_spec (maxBytes - fr_len st - h) 0); [by injection Hp as <- _ <- <-|].
    destruct (shouldSendFin s) eqn:Efin; [|by injection Hp as <- _ <- <-].
    apply shouldSendFin_true in Efin as (Ef1 & Ef2 & Ef3 & Ef4). injection Hp as <- _ <- <-.
    apply turn_len; cbn [StreamID Offset DataLenPresent Data FinBit empty_frame sentFin set_writing streamID
      dataForWriting default orb]; try done; rewrite ?Ef4; try done; try (by left).
    + lia.
    + unfold DataLen. cbn [Data length]. fold h. lia.
    + unfold sentFin, DataLen. cbn. rewrite Z.add_0_r, u64_id by done. by rewrite Ef4.
  - destruct (lenOfDataForWriting_pos s E0) as (He & b & pend & Hpend).
    set (win := match fcm_SendWindowSize _ _ _ with Ok w => w | _ => 0 end) in Hp.
    set (n := MinByteCount _ win) in Hp. destruct (Z.eqb_spec n 0) as [|Hn0]; [by injection Hp as <- _ <- <-|].
    destruct (turn_window params (fr_fcm st) (streamID s) (maxBytes - fr_len st - h)) as (Hn & Hnmax & Ew & Hnw);
      [lia|done|]. fold win in Hn, Hnmax, Ew, Hnw. fold n in Hn, Hnmax, Hnw.
    clearbody n win. destruct (getDataForWriting s n) as [[data|] s1] eqn:Eg.
    2:{ unfold getDataForWriting in Eg. rewrite He, Hpend in Eg. by destruct (_ >? _). }
    destruct (getDataForWriting_spec s n data s1 Hn Eg) as (_ & pending & Hp1 & Hlen1 & Hne & Hcat & Hd1 & Hs1).
    assert (s_err s1 = None ∧ finishedWriting s1 = finishedWriting s ∧ finSent s1 = finSent s ∧
      streamID s1 = streamID s) as (Es1 & Es2 & Es3 & Es4) by (rewrite Hs1; done).
    rewrite bool_decide_false in Hp by done. cbn [andb default] in Hp. injection Hp as <- _ <- <-.
    assert (streamID (if shouldSendFin s1 then sentFin s1 else s1) = streamID s) as ->
      by (by destruct (shouldSendFin s1)).
    assert (dataForWriting (if shouldSendFin s1 then sentFin s1 else s1) = dataForWriting s1) as Ed
      by (by destruct (shouldSendFin s1)).
    pose proof (shouldSendFin_true s1) as Hfin. rewrite Es1, Es2, Es3 in Hfin.
    apply turn_len; cbn [StreamID Offset DataLenPresent Data FinBit empty_frame]; rewrite ?Ed; try done.
    + lia.
    + unfold DataLen. cbn [Data]. fold h. lia.
    + by rewrite Hp1.
    + rewrite Hd1. destruct (Z.gtb_spec (Z.of_nat (length pending)) n); [|done]. intros [= Hnil].
      apply (f_equal length) in Hnil. rewrite length_drop in Hnil. cbn in Hnil. lia.
    + change (DataLen _) with (Z.of_nat (length data)). destruct (shouldSendFin s1); cbn [orb]; [|exact Hs1].
      apply (f_equal sentFin) in Hs1. exact Hs1.
    + tauto.
    + right. apply Hne. rewrite Hp1 in Hpend. by injection Hpend as ->.
    + intros _. exists win. split; [done|]. unfold DataLen. cbn [Data]. lia.
Qed.

(** ** What a stream sends *)

(** What happens to the sending half of a stream: the application writes and closes, and the stream
    gets a turn in a packet, with whatever window and space there is. *)
Inductive send_op : Type :=
  | SWrite (p : list Z)
  | STurn (params : flowParameters) (maxBytes : Z) (st : framing)
  | SClose.

Definition send_op_ok (op : send_op) : Prop :=
  match op with STurn _ maxBytes st => 0 <= fr_len st <= maxBytes ∧ maxBytes < 2^32 | _ => True end.

(** The stream, what the application has written, and the frames sent.  A second Write waits for
    the first one, so it is no step while data is left. *)
Definition send_step (st : stream * list Z * list StreamFrame) (op : send_op)
  : stream * list Z * list StreamFrame :=
  let '(s, written, sent) := st in
  match op with
  | SWrite p =>
      match dataForWriting s with
      | Some _ => st
      | None =>
          match Write_begin s p with
          | (None, s') => (s', written ++ p, sent)
          | (Some _, s') => (s', written, sent)
          end
      end
  | STurn params maxBytes fr =>
      let '(frame, _, s', _) := pop_stream params maxBytes s fr in (s', written, sent ++ option_list frame)
  | SClose => (Close s, written, sent)
  end.

Definition sent_bytes (sent : list StreamFrame) : list Z := flat_map Data sent.

(** Frames follow each other without a hole, and the FIN is on the last one only. *)
Fixpoint frames_in_order (id offset : Z) (sent : list StreamFrame) : Prop :=
  match sent with
  | [] => True
  | f :: sent =>
      StreamID f = id ∧ Offset f = offset ∧ (FinBit f = true → sent = []) ∧
      (FinBit f = true ∨ Data f <> []) ∧ frames_in_order id (offset + DataLen f) sent
  end.

Definition has_fin (sent : list StreamFrame) : bool := existsb FinBit sent.

Definition send_inv (id : Z) (st : stream * list Z * list StreamFrame) : Prop :=
  let '(s, written, sent) := st in
  streamID s = id ∧ s_err s = None ∧ resetLocally s = false ∧
  written = sent_bytes sent ++ default [] (dataForWriting s) ∧
  dataForWriting s <> Some [] ∧
  writeOffset s = Z.of_nat (length (sent_bytes sent)) ∧
  frames_in_order id 0 sent ∧ has_fin sent = finSent s ∧
  (finSent s = true → finishedWriting s = true ∧ dataForWriting s = None).

Lemma sent_bytes_snoc sent f : sent_bytes (sent ++ [f]) = sent_bytes sent ++ Data f.
Proof. unfold sent_bytes. rewrite flat_map_app. cbn. by rewrite app_nil_r. Qed.

Lemma has_fin_snoc sent f : has_fin (sent ++ [f]) = has_fin sent || FinBit f.
Proof. unfold has_fin. rewrite existsb_app. cbn. by rewrite orb_false_r. Qed.

Lemma frames_in_order_snoc id offset sent f :
  frames_in_order id offset sent → has_fin sent = false → StreamID f = id →
  Offset f = offset + Z.of_nat (length (sent_bytes sent)) → (FinBit f = true ∨ Data f <> []) →
  frames_in_order id offset (sent ++ [f]).
Proof.
  revert offset. induction sent as [|g sent IH]; intros offset; cbn [frames_in_order app].
  - intros _ _ ? ? ?. cbn in *. split_and!; [done|lia|done|done|done].
  - intros (? & -> & _ & ? & Hs) Hf ? Ho ?. cbn in Hf. apply orb_false_iff in Hf as [Hg Hf].
    split_and!; [done|done|congruence|done|]. apply IH; [done|done|done| |done].
    rewrite Ho. unfold sent_bytes, DataLen. cbn. rewrite length_app. lia.
Qed.

(** The stream after a Write and after a turn. *)
Lemma send_write_inv id s written sent p :
  send_inv id (s, written, sent) → send_inv id (send_step (s, written, sent) (SWrite p)).
Proof.
  intros Hinv. pose proof Hinv as (Hid & He & Hr & Hw & Hd & Ho & Hord & Hf & Hfin). cbn [send_step].
  destruct (dataForWriting s) as [d|] eqn:Ed; [done|]. unfold Write_begin.
  rewrite Hr, He. cbn [orb]. rewrite bool_decide_false by (intros H; by apply H).
  destruct (finishedWriting s) eqn:Efw; [done|]. destruct p as [|b p]; [done|].
  cbn [default] in Hw. rewrite app_nil_r in Hw. subst written.
  split_and!; try done. cbn. intros Hs. destruct (Hfin Hs). congruence.
Qed.

Lemma send_turn_inv id s written sent params maxBytes fr :
  send_inv id (s, written, sent) → send_op_ok (STurn params maxBytes fr) →
  Z.of_nat (length written) < 2^64 →
  send_inv id (send_step (s, written, sent) (STurn params maxBytes fr)).
Proof.
  intros Hinv [Hfr Hmax] Hlen. pose proof Hinv as (Hid & He & Hr & Hw & Hd & Ho & Hord & Hf & Hfin).
  cbn [send_step]. destruct (pop_stream params maxBytes s fr) as [[[frame cont] s'] fr'] eqn:Ep.
  assert (is_u64 (writeOffset s)) as Hoff.
  { rewrite Ho. rewrite Hw, length_app in Hlen. unfold is_u64. lia. }
  pose proof (pop_stream_spec _ _ _ _ _ _ _ _ Ep Hoff Hfr Hmax) as Hpost.
  destruct frame as [frame|]; [|destruct Hpost as [-> _]; by rewrite app_nil_r].
  change (option_list (Some frame)) with [frame].
  destruct Hpost as (T1 & T2 & _ & _ & T3 & T4 & T5 & T6 & T7 & _).
  assert (finSent s = false) as Efs.
  { destruct (finSent s) eqn:E; [|done]. destruct (Hfin eq_refl) as [_ Hn]. rewrite Hn in T3. cbn in T3.
    symmetry in T3. apply app_eq_nil in T3 as [T3 _].
    destruct T7 as [T7|T7]; [|done]. by apply T6 in T7 as (_ & ? & _). }
  rewrite Efs, orb_false_r in T5. rewrite Efs in Hf.
  assert (streamID s' = streamID s ∧ s_err s' = s_err s ∧ resetLocally s' = resetLocally s ∧
    writeOffset s' = writeOffset s +u64 DataLen frame ∧ finSent s' = FinBit frame ∧
    finishedWriting s' = finishedWriting s) as (S1 & S2 & S3 & S4 & S5 & S6) by (rewrite T5; done).
  unfold send_inv. rewrite S1, S2, S3, S4, S5, S6, sent_bytes_snoc, has_fin_snoc, Hf.
  split_and!; try done.
  - rewrite Hw, T3. by rewrite app_assoc.
  - intros E. by apply Hd, T4.
  - rewrite Ho, length_app. unfold DataLen. rewrite u64_id; [lia|].
    rewrite Hw, T3, !length_app in Hlen. unfold is_u64. lia.
  - apply frames_in_order_snoc; [done|done|congruence|lia|done].
  - intros (? & _ & ?)%T6. done.
Qed.

Lemma send_step_written st op : ∃ p, (send_step st op).1.2 = st.1.2 ++ p.
Proof.
  destruct st as [[s written] sent], op as [p|params maxBytes fr|]; cbn.
  - destruct (dataForWriting s); [exists []; by rewrite app_nil_r|].
    destruct (Write_begin s p) as [[|] s']; [exists []; by rewrite app_nil_r|by exists p].
  - destruct (pop_stream params maxBytes s fr) as [[[frame cont] s'] fr']. exists []. by rewrite app_nil_r.
  - exists []. by rewrite app_nil_r.
Qed.

Lemma send_run_written st ops : ∃ p, (foldl send_step st ops).1.2 = st.1.2 ++ p.
Proof.
  revert st. induction ops as [|op ops IH]; intros st; [exists []; by rewrite app_nil_r|].
  destruct (IH (send_step st op)) as [p Hp], (send_step_written st op) as [q Hq]. cbn [foldl].
  exists (q ++ p). by rewrite Hp, Hq, app_assoc.
Qed.

Lemma send_run_inv id st ops :
  send_inv id st → Forall send_op_ok ops → Z.of_nat (length (foldl send_step st ops).1.2) < 2^64 →
  send_inv id (foldl send_step st ops).
Proof.
  revert st. induction ops as [|op ops IH]; intros st Hinv Hok Hlen; [done|].
  apply Forall_cons in Hok as [Hop Hok]. cbn [foldl] in *. apply IH; [|done|done].
  destruct (send_run_written (send_step st op) ops) as [p Hp], (send_step_written st op) as [q Hq].
  assert (Z.of_nat (length st.1.2) < 2^64) as Hl by (rewrite Hp, Hq, !length_app in Hlen; lia).
  destruct st as [[s written] sent]. destruct op as [p'|params maxBytes fr|].
  - by apply send_write_inv.
  - by apply send_turn_inv.
  - destruct Hinv as (? & ? & ? & ? & ? & ? & ? & ? & Hfin). unfold send_inv. cbn.
    split_and!; try done. intros [? ?]%Hfin. done.
Qed.

(** C14: whatever the application writes, in however many pieces, and whatever turns the stream gets
    in packets, with whatever space and windows: the frames it sends carry, in order and without a
    hole or an overlap, exactly the bytes written that are no longer waiting; every frame carries
    data or the FIN, the FIN is on the last frame only, and only after the stream was closed and
    all its data sent. *)
Theorem stream_sent_in_order (id : Z) (ops : list send_op) (s : stream) (written : list Z)
    (sent : list StreamFrame) :
  Forall send_op_ok ops → foldl send_step (newStream id, [], []) ops = (s, written, sent) →
  Z.of_nat (length written) < 2^64 →
  sent_bytes sent ++ default [] (dataForWriting s) = written ∧ frames_in_order id 0 sent ∧
  (has_fin sent = true → finishedWriting s = true ∧ sent_bytes sent = written).
Proof.
  intros Hok Hrun Hlen.
  pose proof (send_run_inv id (newStream id, [], []) ops) as Hinv. rewrite Hrun in Hinv.
  destruct Hinv as (_ & _ & _ & Hw & _ & _ & Hord & Hf & Hfin); [by split_and!|done|done|].
  split_and!; [done|done|]. rewrite Hf. intros [? Hn]%Hfin. split; [done|]. rewrite Hw, Hn. cbn.
  by rewrite app_nil_r.
Qed.

(** ** Retransmissions *)

(** The bytes of the streams that frames carry, with their offsets, and the ends they mark. *)
Definition frame_bytes (f : StreamFrame) : list (Z * Z * Z) :=
  imap (λ i b, (StreamID f, Offset f + Z.of_nat i, b)) (Data f).
Definition all_bytes (l : list StreamFrame) : list (Z * Z * Z) := flat_map frame_bytes l.
Definition all_fins (l : list StreamFrame) : list (Z * Z) :=
  flat_map (λ f, if FinBit f then [(StreamID f, Offset f + DataLen f)] else []) l.

Definition sendable_frame (f : StreamFrame) : Prop := 0 <= Offset f ∧ Offset f + DataLen f < 2^64.

Lemma split_frame_spec f n f1 f2 :
  sendable_frame f → 0 <= n → maybeSplitOffFrame f n = Some (f1, f2) →
  frame_bytes f = frame_bytes f1 ++ frame_bytes f2 ∧ all_fins [f] = all_fins [f1; f2] ∧
  header_len f1 = header_len f ∧ DataLen f1 = n ∧ sendable_frame f2.
Proof.
  intros [Ho Hd] Hn. unfold maybeSplitOffFrame. rewrite Z.geb_leb.
  destruct (Z.leb_spec (DataLen f) n) as [|Hlt]; [done|]. intros [= <- <-].
  assert (length (take (Z.to_nat n) (Data f)) = Z.to_nat n) as Hl
    by (rewrite length_take; unfold DataLen in Hlt; lia).
  assert (Offset f +u64 n = Offset f + n) as Eo by (apply u64_id; unfold is_u64; lia).
  unfold sendable_frame, frame_bytes, all_fins, DataLen in *. cbn [StreamID Offset Data FinBit flat_map].
  rewrite Eo, length_drop, Hl. split_and!; [| | |lia|lia|lia].
  - rewrite <- (take_drop (Z.to_nat n) (Data f)) at 1. rewrite imap_app, Hl. f_equal.
    apply imap_ext. intros i x _. cbn. f_equal. f_equal. lia.
  - destruct (FinBit f); [|done]. cbn. do 2 f_equal. lia.
  - by apply header_len_data.
Qed.

Lemma pop_retransmissions_spec maxLen cur queue fcm res cur' queue' fcm' :
  Forall sendable_frame queue → 0 <= cur <= maxLen → maxLen < 2^32 →
  pop_retransmissions maxLen cur queue fcm = (res, cur', queue', fcm') →
  all_bytes (res ++ queue') = all_bytes queue ∧ all_fins (res ++ queue') = all_fins queue ∧
  cur' = cur + frames_len res ∧ cur' <= maxLen ∧ Forall sendable_frame queue' ∧
  (queue <> [] → cur + 15 < maxLen → res <> []).
Proof.
  revert cur fcm res cur' queue' fcm'. induction queue as [|f queue IH];
    intros cur fcm res cur' queue' fcm' Hq Hcur Hmax; cbn [pop_retransmissions].
  { intros [= <- <- <- <-]. cbn [frames_len]. split_and!; try done; lia. }
  apply Forall_cons in Hq as [Hf Hq]. set (g := with_data_len f).
  assert (sendable_frame g) as Hg by done. assert (frame_bytes g = frame_bytes f) as Eb by done.
  assert (all_fins [g] = all_fins [f]) as Efin by done. clearbody g.
  pose proof (header_len_range g) as Hh. pose proof (DataLen_nonneg g) as Hd0.
  rewrite (u64_id (cur + header_len g)), Z.geb_leb by (unfold is_u64; lia).
  assert (∀ l1 l2, all_fins (l1 :: l2) = all_fins [l1] ++ all_fins l2) as Hcons
    by (intros; unfold all_fins; cbn [flat_map]; by rewrite app_nil_r).
  destruct (Z.leb_spec maxLen (cur + header_len g)).
  { intros [= <- <- <- <-]. unfold all_bytes. cbn [app flat_map frames_len]. rewrite Eb, Hcons, Efin, <- Hcons.
    split_and!; [done|done|lia|lia|by constructor|intros; lia]. }
  rewrite (u64_id (maxLen - _)) by (unfold is_u64; lia).
  destruct (maybeSplitOffFrame g (maxLen - (cur + header_len g))) as [[g1 g2]|] eqn:Es.
  - destruct (split_frame_spec g (maxLen - (cur + header_len g)) g1 g2 Hg ltac:(lia) Es) as (S1 & S2 & S3 & S4 & S5).
    intros [= <- <- <- <-]. rewrite u64_id by (unfold is_u64; lia). unfold all_bytes.
    cbn [app flat_map frames_len]. rewrite app_assoc, <- S1, Eb. unfold frame_len. rewrite S3, S4.
    split_and!; [done| |lia|lia|by constructor|done].
    rewrite (Hcons f), <- Efin, S2. unfold all_fins. cbn [flat_map]. by rewrite app_nil_r, app_assoc.
  - assert (DataLen g <= maxLen - (cur + header_len g)) as Hle.
    { unfold maybeSplitOffFrame in Es. rewrite Z.geb_leb in Es. by destruct (Z.leb_spec (DataLen g) (maxLen - (cur + header_len g))). }
    rewrite (u64_id (cur + header_len g + DataLen g)) by (unfold is_u64; lia).
    destruct (pop_retransmissions maxLen _ queue _) as [[[res1 cur1] queue1] fcm1] eqn:Er.
    destruct (IH (cur + header_len g + DataLen g) _ res1 cur1 queue1 fcm1 Hq ltac:(lia) Hmax Er) as (I1 & I2 & I3 & I4 & I5 & _).
    intros [= <- <- <- <-]. unfold all_bytes in *. cbn [app flat_map frames_len]. rewrite I1, Eb.
    rewrite (Hcons g), Efin, I2, <- Hcons. unfold frame_len. split_and!; (done || lia).
Qed.

(** Frames that are retransmitted are split only as needed: the frames popped and the frames
    left in the queue carry exactly the bytes, at the same offsets and in the same order, and mark
    exactly the ends of streams that the queue did; the popped frames fit the packet, and some
    frame is popped whenever there is one and the space is larger than the largest header. *)
Theorem retransmission_keeps_bytes (f : streamFramer) (maxLen : Z) (res : list StreamFrame)
    (len : Z) (f' : streamFramer) :
  Forall sendable_frame (retransmissionQueue f) → 0 <= maxLen < 2^32 →
  maybePopFramesForRetransmission f maxLen = (res, len, f') →
  all_bytes (res ++ retransmissionQueue f') = all_bytes (retransmissionQueue f) ∧
  all_fins (res ++ retransmissionQueue f') = all_fins (retransmissionQueue f) ∧
  len = frames_len res ∧ len <= maxLen ∧
  (HasFramesForRetransmission f = true → 15 < maxLen → res <> []).
Proof.
  intros Hq Hmax. unfold maybePopFramesForRetransmission.
  destruct (pop_retransmissions maxLen 0 _ _) as [[[res1 cur1] queue1] fcm1] eqn:Er.
  destruct (pop_retransmissions_spec maxLen 0 _ _ _ _ _ _ Hq ltac:(lia) ltac:(lia) Er)
    as (I1 & I2 & I3 & I4 & _ & I6).
  intros [= <- <- <-]. cbn [set_data retransmissionQueue]. split_and!; [done|done|lia|done|].
  unfold HasFramesForRetransmission. intros Hl%Nat.ltb_lt Hm. apply I6; [|lia].
  by destruct (retransmissionQueue f); [cbn in Hl; lia|].
Qed.

(** ** Whole packets *)

Lemma pop_callback_fits params maxBytes id (st : gmap Z stream * list StreamFrame * framing) base :
  map_Forall (λ _ s, is_u64 (writeOffset s)) st.1.1 →
  0 <= fr_len st.2 <= maxBytes → maxBytes < 2^32 → fr_len st.2 = base + frames_len st.1.2 →
  let st' := (pop_callback params maxBytes id st).2 in
  map_Forall (λ _ s, is_u64 (writeOffset s)) st'.1.1 ∧
  0 <= fr_len st'.2 <= maxBytes ∧ fr_len st'.2 = base + frames_len st'.1.2.
Proof.
  destruct st as [[streams res] fr]. cbn [fst snd]. intros Hoff Hlen Hmax Heq. unfold pop_callback.
  destruct (streams !! id) as [s|] eqn:Es; [|done].
  destruct (pop_stream params maxBytes s fr) as [[[frame cont] s'] fr'] eqn:Ep. cbn [fst snd].
  pose proof (pop_stream_spec _ _ _ _ _ _ _ _ Ep (Hoff id s Es) Hlen Hmax) as Hpost.
  destruct frame as [frame|].
  - destruct Hpost as (_ & _ & _ & _ & _ & _ & T5 & _ & _ & _ & _ & T8 & T9).
    pose proof (header_len_range frame). pose proof (DataLen_nonneg frame).
    assert (frames_len (res ++ option_list (Some frame)) = frames_len res + frame_len frame) as ->
      by (rewrite frames_len_app; cbn; lia).
    unfold frame_len in *. split_and!; [|lia|lia|lia].
    apply map_Forall_insert_2; [|done]. rewrite T5. apply u64_range.
  - destruct Hpost as [-> ->]. cbn [option_list option_rect]. rewrite app_nil_r. split_and!; [|lia|lia|lia].
    by rewrite insert_id.
Qed.

(** What every call of the callback keeps, an iteration keeps. *)
Section IterationKeeps.
Context {St : Type} (I : St → Prop) (fn : stream_lambda St).
Hypothesis (Hfn : ∀ id st, I st → I (fn id st).2).

Lemma iterateFunc_keeps m id st : I st → I (iterateFunc m id fn st).2.
Proof. intros Hst. unfold iterateFunc. case_bool_decide; [by apply Hfn|done]. Qed.

Lemma priority_loop_keeps m ids st : I st → I (priority_loop m fn ids st).2.
Proof.
  revert st. induction ids as [|id ids IH]; intros st Hst; cbn [priority_loop]; [done|].
  pose proof (iterateFunc_keeps m id st Hst) as Hk.
  destruct (iterateFunc m id fn st) as [[cont [e|]] st1]; cbn [snd] in Hk.
  - case_decide; [|done]. destruct cont; [by apply IH|done].
  - destruct cont; [by apply IH|done].
Qed.

Lemma round_robin_loop_keeps k i start n m st e m' st' :
  round_robin_loop k i start n m fn st = Ok (e, m', st') → I st → I st'.
Proof.
  revert i m st. induction k as [|k IH]; intros i m st; cbn [round_robin_loop]; [by intros [= <- <- <-]|].
  destruct (sm_openStreams m !! _) as [id|]; [|done]. destruct (_ || _); [apply IH|].
  intros H Hst. pose proof (iterateFunc_keeps m id st Hst) as Hk.
  destruct (iterateFunc m id fn st) as [[cont [e1|]] st1]; cbn [snd] in Hk; [by simplify_eq|].
  destruct cont; [by eapply IH|by simplify_eq].
Qed.

Lemma round_robin_keeps m st e m' st' :
  RoundRobinIterate m fn st = Ok (e, m', st') → I st → I st'.
Proof.
  unfold RoundRobinIterate. intros H Hst. pose proof (priority_loop_keeps m [1; 3] st Hst) as Hk.
  destruct (priority_loop m fn [1; 3] st) as [[e1|] st1]; cbn [snd] in Hk; [by simplify_eq|].
  by eapply round_robin_loop_keeps.
Qed.

End IterationKeeps.

Definition offsets_ok (f : streamFramer) : Prop :=
  map_Forall (λ _ s, is_u64 (writeOffset s)) (store (sf_streamsMap f)).

(** The framer may pop frames: its map or its stream tree is well formed. *)
Definition framer_ok (params : flowParameters) (f : streamFramer) : Prop :=
  offsets_ok f ∧ Forall sendable_frame (retransmissionQueue f) ∧
  match sm_scheduler (sf_streamsMap f) with
  | None => sm_inv (sf_streamsMap f) ∧ index_inv (sf_streamsMap f)
  | Some sch => toSend sch = None ∧ ∃ ts, visit_pre (framer_env params f) (heap sch) None (Node root ts)
  end.

Lemma sendable_stream env n :
  sendable env n = true → ∃ id s, n_stream n = Some id ∧ get_stream env id = Ok s.
Proof.
  unfold sendable, node_stream. destruct (n_stream n) as [id|]; [|done].
  destruct (get_stream env id) as [s| |] eqn:E; [eauto|done|done].
Qed.

Lemma normal_frames_fit params f maxBytes :
  framer_ok params f → 0 <= maxBytes < 2^32 →
  ∃ res f', maybePopNormalFrames params f maxBytes = Ok (res, f') ∧ frames_len res <= maxBytes.
Proof.
  intros (Hoff & _ & Hok) Hmax. unfold maybePopNormalFrames.
  destruct (sm_scheduler (sf_streamsMap f)) as [sch|].
  - destruct Hok as (Ht & ts & Hpre). rewrite Ht.
    destruct (schedule_spec _ sch ts Hpre) as (r & h' & -> & Hs & _ & _ & _ & Hpick). cbn [mbind result_bind].
    destruct r as [q|]; [|eexists _, _; split; [done|cbn; lia]].
    symmetry in Hs. destruct (picked_same _ _ _ _ (Some q) Hs Hpick) as (_ & n & Hn & Hsend).
    unfold deref. cbn [set_heap heap]. rewrite Hn. cbn [mbind result_bind].
    destruct (sendable_stream _ n Hsend) as (id & s & -> & Hg). rewrite Hg. cbn [mbind result_bind send].
    destruct (pop_stream params maxBytes s _) as [[[frame cont] s'] fr'] eqn:Ep.
    assert (is_u64 (writeOffset s)) as Hw.
    { unfold get_stream, framer_env in Hg. cbn in Hg.
      destruct (store (sf_streamsMap f) !! id) as [s0|] eqn:Es; [|done]. simplify_eq. by apply (Hoff id). }
    eexists _, _. split; [done|].
    pose proof (pop_stream_spec _ _ _ _ _ _ _ _ Ep Hw ltac:(cbn; lia) ltac:(lia)) as Hpost.
    destruct frame as [frame|]; [|cbn; lia].
    destruct Hpost as (_ & _ & _ & _ & _ & _ & _ & _ & _ & _ & _ & E1 & E2). cbn [option_list option_rect frames_len fr_len] in *. lia.
  - destruct Hok as [Hinv Hidx].
    set (st0 := (store (sf_streamsMap f), [], mkFraming (sf_fcm f) (blockedFrameQueue f) 0)).
    destruct (round_robin_safe (sf_streamsMap f) (pop_callback params maxBytes) st0 Hinv Hidx)
      as (e & idx & [[streams res] fr] & E & _).
    rewrite E. cbn [mbind result_bind]. eexists _, _. split; [done|].
    apply (round_robin_keeps (λ st : gmap Z stream * list StreamFrame * framing,
      map_Forall (λ _ s, is_u64 (writeOffset s)) st.1.1 ∧
      0 <= fr_len st.2 <= maxBytes ∧ fr_len st.2 = 0 + frames_len st.1.2)) in E.
    + cbn in E. lia.
    + intros id st (H1 & H2 & H3). apply pop_callback_fits; (done || lia).
    + unfold st0. cbn. split_and!; [done|lia|lia|lia].
Qed.

Lemma PopStreamFrames_fits params f maxLen :
  framer_ok params f → 0 <= maxLen < 2^32 →
  ∃ res f', PopStreamFrames params f maxLen = Ok (res, f') ∧ frames_len res <= maxLen.
Proof.
  intros Hok Hmax. pose proof Hok as (Hoff & Hq & Hsch). unfold PopStreamFrames, maybePopFramesForRetransmission.
  destruct (pop_retransmissions maxLen 0 _ _) as [[[res1 cur1] queue1] fcm1] eqn:Er.
  destruct (pop_retransmissions_spec maxLen 0 _ _ _ _ _ _ Hq ltac:(lia) ltac:(lia) Er)
    as (_ & _ & I3 & I4 & I5 & _).
  pose proof (frames_len_nonneg res1). rewrite u64_id by (unfold is_u64; lia).
  set (f1 := set_data f _ fcm1 queue1 _).
  assert (framer_ok params f1) as Hok1.
  { split_and!; [done|done|]. unfold f1. cbn. destruct (sm_scheduler (sf_streamsMap f)) as [sch|]; [|done].
    destruct Hsch as (Ht & ts & Hpre). split; [done|]. exists ts. eapply visit_pre_env; [|exact Hpre]. done. }
  destruct (normal_frames_fit params f1 (maxLen - cur1) Hok1 ltac:(lia)) as (res2 & f2 & -> & Hfit).
  cbn [mbind result_bind]. eexists _, _. split; [done|]. rewrite frames_len_app. lia.
Qed.

(** Popping the STREAM frames of a packet is safe -- with the stream scheduler, and without it
    by round robin over the open streams -- and the frames, retransmissions and new data together,
    with their headers, fit the space the packet has. *)
Theorem stream_frames_fit (params : flowParameters) (f : streamFramer) (maxLen : Z) :
  framer_ok params f → 0 <= maxLen < 2^32 →
  ∃ res f', PopStreamFrames params f maxLen = Ok (res, f') ∧ frames_len res <= maxLen.
Proof. apply PopStreamFrames_fits. Qed.

(** Frames that can be written, with their length: what a packet is filled with. *)
Definition ready (f : StreamFrame) : Prop := StreamFrame_ok f ∧ DataLenPresent f = true.

(** The stream's data, and its offsets, fit the wire format. *)
Definition stream_wf (s : stream) : Prop :=
  is_u32 (streamID s) ∧ 0 <= writeOffset s ∧ bytes_ok (default [] (dataForWriting s)) ∧
  writeOffset s + Z.of_nat (length (default [] (dataForWriting s))) < 2^64.

Lemma pop_stream_ready params maxBytes s st r cont s' st' :
  pop_stream params maxBytes s st = (r, cont, s', st') → stream_wf s →
  0 <= fr_len st <= maxBytes → maxBytes < 2^32 →
  Forall ready (option_list r) ∧ stream_wf s' ∧ 0 <= fr_len st' <= maxBytes.
Proof.
  intros Hp (Hid & Hoff & Hb & Hend) Hlen Hmax.
  assert (is_u64 (writeOffset s)) as Hw by (unfold is_u64; lia).
  pose proof (pop_stream_spec _ _ _ _ _ _ _ _ Hp Hw Hlen Hmax) as Hpost.
  destruct r as [frame|]; [|destruct Hpost as [-> ->]; split_and!; [constructor|done..|lia|lia]].
  destruct Hpost as (E1 & E2 & E3 & _ & Ed & _ & Es & _ & Hne & _ & _ & E8 & E9).
  rewrite Ed in Hb, Hend. apply Forall_app in Hb as [Hb1 Hb2]. rewrite length_app in Hend.
  pose proof (header_len_range frame). pose proof (DataLen_nonneg frame). unfold frame_len in E8.
  cbn [option_list option_rect]. unfold stream_wf, is_u32. split_and!; [| | | | | |lia|lia].
  - apply Forall_singleton. unfold ready, StreamFrame_ok, DataLen in *. rewrite E1, E2. split_and!; (done || lia).
  - rewrite Es. apply Hid.
  - rewrite Es. apply Hid.
  - rewrite Es. cbn. apply u64_range.
  - done.
  - rewrite Es. cbn [writeOffset set_writing dataForWriting]. unfold DataLen in *. rewrite u64_id by (unfold is_u64; lia). lia.
Qed.

Lemma pop_retransmissions_ready maxLen cur queue fcm res cur' queue' fcm' :
  Forall StreamFrame_ok queue → 0 <= cur <= maxLen → maxLen < 2^32 →
  pop_retransmissions maxLen cur queue fcm = (res, cur', queue', fcm') → Forall ready res.
Proof.
  revert cur fcm res cur' queue' fcm'. induction queue as [|f queue IH];
    intros cur fcm res cur' queue' fcm' Hq Hcur Hmax; cbn [pop_retransmissions]; [by intros [= <- <- <- <-]|].
  apply Forall_cons in Hq as [Hf Hq]. set (g := with_data_len f).
  assert (ready g) as Hg by done. clearbody g. clear f Hf.
  pose proof (header_len_range g) as Hh. pose proof (DataLen_nonneg g).
  rewrite (u64_id (cur + header_len g)), Z.geb_leb by (unfold is_u64; lia).
  destruct (Z.leb_spec maxLen (cur + header_len g)); [by intros [= <- <- <- <-]|].
  rewrite (u64_id (maxLen - _)) by (unfold is_u64; lia). set (n := maxLen - (cur + header_len g)).
  assert (0 < n) as Hn by lia. unfold maybeSplitOffFrame. rewrite Z.geb_leb.
  destruct (Z.leb_spec (DataLen g) n) as [Hle|Hlt].
  - rewrite (u64_id (cur + header_len g + DataLen g)) by (unfold is_u64; lia).
    destruct (pop_retransmissions maxLen _ queue _) as [[[res1 cur1] queue1] fcm1] eqn:Er.
    intros [= <- <- <- <-]. constructor; [done|]. eapply IH; [done| |done|exact Er]. lia.
  - intros [= <- <- <- <-]. apply Forall_singleton. destruct Hg as ((Hid & Ho & Hb & He & _) & Hp).
    unfold ready, StreamFrame_ok, DataLen in *. cbn [StreamID Offset Data FinBit DataLenPresent].
    rewrite length_take. split_and!; [done|done|by apply Forall_take|lia| |done].
    right. intros E. apply (f_equal length) in E. rewrite length_take in E. cbn in E. lia.
Qed.

(** What the packer needs of the framer: it may pop frames, and they can be written. *)
Definition framer_ready (params : flowParameters) (f : streamFramer) : Prop :=
  framer_ok params f ∧ Forall StreamFrame_ok (retransmissionQueue f) ∧
  map_Forall (λ _ s, stream_wf s) (store (sf_streamsMap f)).

Lemma normal_frames_ready params f maxBytes res f' :
  map_Forall (λ _ s, stream_wf s) (store (sf_streamsMap f)) → 0 <= maxBytes < 2^32 →
  maybePopNormalFrames params f maxBytes = Ok (res, f') → Forall ready res.
Proof.
  intros Hst Hmax. unfold maybePopNormalFrames. destruct (sm_scheduler (sf_streamsMap f)) as [sch|]; intros E; res_inv.
  - destruct x as [p sch']. res_inv. destruct x as [id|]; [|by simplify_eq; constructor]. res_inv. cbn [send] in *.
    destruct (pop_stream params maxBytes _ _) as [[[frame cont] s'] fr'] eqn:Ep. simplify_eq.
    eapply pop_stream_ready in Ep as [Hr _]; [exact Hr| |cbn; lia|lia].
    match goal with Hg : get_stream _ _ = Ok _ |- _ => unfold get_stream, framer_env in Hg; cbn in Hg;
      destruct (store (sf_streamsMap f) !! id) as [s0|] eqn:Es; [|done]; simplify_eq; by apply (Hst id) end.
  - destruct x as [[e m'] [[streams res'] fr]]. simplify_eq.
    match goal with H : RoundRobinIterate _ _ _ = _ |- _ =>
      apply (round_robin_keeps (λ st : gmap Z stream * list StreamFrame * framing,
        map_Forall (λ _ s, stream_wf s) st.1.1 ∧ Forall ready st.1.2 ∧ 0 <= fr_len st.2 <= maxBytes)) in H;
      [by apply H| |cbn; split_and!; [done|constructor|lia|lia]] end.
    intros id [[st r] fr0] (H1 & H2 & H3). unfold pop_callback. cbn [fst snd] in *.
    destruct (st !! id) as [s|] eqn:Es; [|done].
    destruct (pop_stream params maxBytes s fr0) as [[[frame cont] s'] fr'] eqn:Ep. cbn [fst snd].
    eapply pop_stream_ready in Ep as (Hr & Hs & Hl); [|by apply (H1 id)|done|lia].
    split_and!; [by apply map_Forall_insert_2|by apply Forall_app|lia|lia].
Qed.

Lemma PopStreamFrames_ready params f maxLen :
  framer_ready params f → 0 <= maxLen < 2^32 →
  ∃ res f', PopStreamFrames params f maxLen = Ok (res, f') ∧ frames_len res <= maxLen ∧ Forall ready res.
Proof.
  intros (Hok & Hq & Hst) Hmax. destruct (PopStreamFrames_fits params f maxLen Hok Hmax) as (res & f' & E & Hfit).
  exists res, f'. split_and!; [done|done|]. unfold PopStreamFrames, maybePopFramesForRetransmission in E.
  destruct (pop_retransmissions maxLen 0 _ _) as [[[res1 cur1] queue1] fcm1] eqn:Er.
  destruct (pop_retransmissions_spec maxLen 0 _ _ _ _ _ _ (proj1 (proj2 Hok)) ltac:(lia) ltac:(lia) Er)
    as (_ & _ & I3 & I4 & _ & _).
  apply pop_retransmissions_ready in Er; [|done|lia|lia]. pose proof (frames_len_nonneg res1).
  rewrite u64_id in E by (unfold is_u64; lia). res_inv. destruct x as [res2 f2]. simplify_eq.
  apply Forall_app. split; [done|]. eapply normal_frames_ready; [..|done]; [done|lia].
Qed.

(** ** Examples *)

(** Streams 5, 7 and 9 with a byte of data each and the stream scheduler, and a frame to retransmit. *)
Definition sample_framer : streamFramer :=
  let fcm := foldr (λ id fcm, fcm_NewStream sample_params fcm id true) (NewFlowControlManager sample_params) [5; 7; 9] in
  AddFrameForRetransmission
    (newStreamFramer
       (set_streams (newStreamsMap PerspectiveServer None) {[5; 7; 9]} [5; 7; 9] 0
          (env_streams (ready_env [5; 7; 9])) (Some (the_scheduler sample_scheduler))) fcm)
    {| StreamID := 9; FinBit := true; DataLenPresent := false; Offset := 300; Data := [6; 7; 8; 9] |}.

Lemma sample_frame_sendable : Forall sendable_frame (retransmissionQueue sample_framer).
Proof. apply Forall_singleton. unfold sendable_frame, DataLen. cbn. lia. Qed.

(** The frame is split after two bytes: 6 bytes of header in a packet of 8. *)
Lemma retransmission_keeps_bytes_witness :
  ∃ res len f', maybePopFramesForRetransmission sample_framer 8 = (res, len, f') ∧
    len = 8 ∧ length (retransmissionQueue f') = 1%nat ∧
    all_bytes (res ++ retransmissionQueue f') = [(9, 300, 6); (9, 301, 7); (9, 302, 8); (9, 303, 9)].
Proof.
  destruct (maybePopFramesForRetransmission sample_framer 8) as [[res len] f'] eqn:E.
  exists res, len, f'. split; [reflexivity|].
  destruct (retransmission_keeps_bytes sample_framer 8 res len f') as (Hb & _); [apply sample_frame_sendable|lia|exact E|].
  split_and!; [vm_compute in E; by injection E as _ <- _|vm_compute in E; by injection E as _ _ <-|].
  rewrite Hb. reflexivity.
Defined.

(** The frame that is retransmitted, and a frame of stream 5, which has the first turn. *)
Lemma stream_frames_fit_witness :
  ∃ res f', PopStreamFrames sample_params sample_framer 20 = Ok (res, f') ∧ frames_len res <= 20.
Proof.
  destruct (stream_frames_fit sample_params sample_framer 20) as (res & f' & E & Hfit); [|lia|].
  - split_and!.
    + apply map_Forall_to_list, (bool_decide_unpack (Forall _ _)). vm_compute. exact I.
    + apply sample_frame_sendable.
    + split; [reflexivity|]. eexists. by apply sample_visit_pre.
  - exists res, f'. split; [exact E|exact Hfit].
Defined.

(** Two writes and a close, in turns of 8 and 20 bytes, of which a header takes 4 or 6. *)
Lemma stream_sent_in_order_witness :
  let fcm := fcm_NewStream sample_params (NewFlowControlManager sample_params) 5 true in
  let turn n := STurn sample_params n (mkFraming fcm [] 0) in
  let ops := [SWrite [1; 2; 3; 4]; turn 8; turn 8; SWrite [5]; SClose; turn 20] in
  ∃ s sent, foldl send_step (newStream 5, [], []) ops = (s, [1; 2; 3; 4; 5], sent) ∧
    map Offset sent = [0; 4] ∧ has_fin sent = true ∧ sent_bytes sent = [1; 2; 3; 4; 5].
Proof.
  intros fcm turn ops.
  destruct (foldl send_step (newStream 5, [], []) ops) as [[s written] sent] eqn:E.
  assert (written = [1; 2; 3; 4; 5] ∧ map Offset sent = [0; 4] ∧ has_fin sent = true) as (Ew & Eo & Ef).
  { unfold ops in E. vm_compute in E. injection E as _ <- <-. by split_and!. }
  exists s, sent. subst written. split_and!; [reflexivity|exact Eo|exact Ef|].
  apply (stream_sent_in_order 5 ops s [1; 2; 3; 4; 5] sent); [|exact E|cbn; lia|exact Ef].
  unfold ops, turn. repeat (constructor; [cbn; lia|]). constructor.
Defined.
