(* ===== verification/Congestion.v ===== *)
(** * RTT statistics, slow start exit and rate reduction

    The parts of congestion/ that every sender uses: rtt_stats.go, hybrid_slow_start.go and
    prr_sender.go, and the interface of a congestion controller (interface.go).  Durations and times
    are nanoseconds, the zero time is 0.  The smoothing of RTTStats is float32 arithmetic: the
    numbers there are integers scaled by 8, since every constant is a multiple of 1/8, and every
    operation rounds to 24 significant bits, half to even. *)

From S2P Require Import Prelude ByteOrder Protocol.

(** ** Durations *)

Definition Microsecond : Z := 1000.
Definition Millisecond : Z := 1000 * Microsecond.
Definition Second : Z := 1000 * Millisecond.
Definition InfDuration : Z := 2^63 - 1.

Definition MaxDuration (a b : Z) : Z := if a >? b then a else b.
Definition MinDuration (a b : Z) : Z := if a >? b then b else a.
Definition AbsDuration (d : Z) : Z := if d >=? 0 then d else - d.

Definition DefaultTCPMSS : Z := 1460.

(** ** float32 *)

(** The nearest multiple of [2^e], half to even, of a number that is not negative. *)
Definition round_even (m e : Z) : Z :=
  let q := Z.shiftr m e in
  let r := m - Z.shiftl q e in
  let half := 2^(e - 1) in
  let q := if (r >? half) || ((r =? half) && Z.odd q) then q + 1 else q in
  Z.shiftl q e.

(** Rounding to 24 significant bits. *)
Definition f32 (m : Z) : Z :=
  let a := Z.abs m in
  let v := if a <? 2^24 then a else round_even a (Z.log2 a - 23) in
  if m <? 0 then - v else v.

(** ** RTT statistics *)

Record rttSample : Type := mkSample { sample_rtt : Z; sample_time : Z }.

Record RTTStats : Type := mkRTTStats {
  initialRTTus : Z;
  recentMinRTTwindow : Z;
  minRTT : Z;
  latestRTT : Z;
  smoothedRTT : Z;
  meanDeviation : Z;
  numMinRTTsamplesRemaining : Z;
  newMinRTT : rttSample;
  recentMinRTT : rttSample;
  halfWindowRTT : rttSample;
  quarterWindowRTT : rttSample;
}.

Definition initialRTT_us : Z := 100 * 1000.
Definition no_sample : rttSample := mkSample 0 0.

(** The zero value, which the paths use. *)
Definition zeroRTTStats : RTTStats := mkRTTStats 0 0 0 0 0 0 0 no_sample no_sample no_sample no_sample.

Definition NewRTTStats : RTTStats :=
  mkRTTStats initialRTT_us InfDuration 0 0 0 0 0 no_sample no_sample no_sample no_sample.

Definition set_rtts (r : RTTStats) (mn latest smoothed dev : Z) : RTTStats :=
  mkRTTStats (initialRTTus r) (recentMinRTTwindow r) mn latest smoothed dev (numMinRTTsamplesRemaining r)
    (newMinRTT r) (recentMinRTT r) (halfWindowRTT r) (quarterWindowRTT r).

Definition set_samples (r : RTTStats) (n : Z) (new recent half quarter : rttSample) : RTTStats :=
  mkRTTStats (initialRTTus r) (recentMinRTTwindow r) (minRTT r) (latestRTT r) (smoothedRTT r)
    (meanDeviation r) n new recent half quarter.

Definition SetRecentMinRTTwindow (r : RTTStats) (window : Z) : RTTStats :=
  mkRTTStats (initialRTTus r) window (minRTT r) (latestRTT r) (smoothedRTT r) (meanDeviation r)
    (numMinRTTsamplesRemaining r) (newMinRTT r) (recentMinRTT r) (halfWindowRTT r) (quarterWindowRTT r).

(** [time.Duration(float32(window/time.Microsecond)*factor) * time.Microsecond] for a factor of
    [k] eighths. *)
Definition window_part (window k : Z) : Z :=
  Z.quot (f32 (k * f32 (Z.quot window Microsecond))) 8 * Microsecond.

(** Forced sampling, the three recent samples, and their expiry. *)
Definition forced_sample (r : RTTStats) (sample now : Z) : RTTStats :=
  if numMinRTTsamplesRemaining r >? 0 then
    let n := numMinRTTsamplesRemaining r - 1 in
    let new := if (sample_rtt (newMinRTT r) =? 0) || (sample <=? sample_rtt (newMinRTT r))
               then mkSample sample now else newMinRTT r in
    if n =? 0 then set_samples r n new new new new
    else set_samples r n new (recentMinRTT r) (halfWindowRTT r) (quarterWindowRTT r)
  else r.

Definition recent_samples (r : RTTStats) (sample now : Z) : RTTStats :=
  let new := mkSample sample now in
  let n := numMinRTTsamplesRemaining r in
  if (sample_rtt (recentMinRTT r) =? 0) || (sample <=? sample_rtt (recentMinRTT r))
  then set_samples r n (newMinRTT r) new new new
  else if sample <=? sample_rtt (halfWindowRTT r)
  then set_samples r n (newMinRTT r) (recentMinRTT r) new new
  else if sample <=? sample_rtt (quarterWindowRTT r)
  then set_samples r n (newMinRTT r) (recentMinRTT r) (halfWindowRTT r) new
  else r.

Definition expire_samples (r : RTTStats) (sample now : Z) : RTTStats :=
  let new := mkSample sample now in
  let n := numMinRTTsamplesRemaining r in
  if sample_time (recentMinRTT r) <? now - recentMinRTTwindow r
  then set_samples r n (newMinRTT r) (halfWindowRTT r) (quarterWindowRTT r) new
  else if sample_time (halfWindowRTT r) <? now - window_part (recentMinRTTwindow r) 4
  then set_samples r n (newMinRTT r) (recentMinRTT r) (quarterWindowRTT r) new
  else if sample_time (quarterWindowRTT r) <? now - window_part (recentMinRTTwindow r) 2
  then set_samples r n (newMinRTT r) (recentMinRTT r) (halfWindowRTT r) new
  else r.

Definition updateRecentMinRTT (r : RTTStats) (sample now : Z) : RTTStats :=
  expire_samples (recent_samples (forced_sample r sample now) sample now) sample now.

(** A weighted mean in float32, of durations in microseconds: [a/8] of [x] and [b/8] of [y]. *)
Definition float_mean (a x b y : Z) : Z :=
  Z.quot (f32 (f32 (a * f32 (Z.quot x Microsecond)) + f32 (b * f32 (Z.quot y Microsecond)))) 8 * Microsecond.

Definition UpdateRTT (r : RTTStats) (sendDelta ackDelay now : Z) : RTTStats :=
  if (sendDelta =? InfDuration) || (sendDelta <=? 0) then r
  else
    let mn := if (minRTT r =? 0) || (minRTT r >? sendDelta) then sendDelta else minRTT r in
    let r := updateRecentMinRTT (set_rtts r mn (latestRTT r) (smoothedRTT r) (meanDeviation r)) sendDelta now in
    let sample := if sendDelta >? ackDelay then sendDelta - ackDelay else sendDelta in
    if smoothedRTT r =? 0 then set_rtts r (minRTT r) sample sample (Z.quot sample 2)
    else
      let dev := float_mean 6 (meanDeviation r) 2 (AbsDuration (smoothedRTT r - sample)) in
      let smoothed := float_mean 7 (smoothedRTT r) 1 sample in
      set_rtts r (minRTT r) sample smoothed dev.

Definition SampleNewRecentMinRTT (r : RTTStats) (numSamples : Z) : RTTStats :=
  set_samples r numSamples no_sample (recentMinRTT r) (halfWindowRTT r) (quarterWindowRTT r).

Definition rtt_OnConnectionMigration (r : RTTStats) : RTTStats :=
  mkRTTStats initialRTT_us InfDuration 0 0 0 0 0 (newMinRTT r) no_sample no_sample no_sample.

Definition ExpireSmoothedMetrics (r : RTTStats) : RTTStats :=
  set_rtts r (minRTT r) (latestRTT r) (MaxDuration (smoothedRTT r) (latestRTT r))
    (MaxDuration (meanDeviation r) (AbsDuration (smoothedRTT r - latestRTT r))).

Definition UpdateSessionRTT (r : RTTStats) (smoothed : Z) : RTTStats :=
  set_rtts r (minRTT r) (latestRTT r) smoothed (meanDeviation r).

(** ** Hybrid slow start *)

Definition hybridStartLowWindow : Z := 16.
Definition hybridStartMinSamples : Z := 8.
Definition hybridStartDelayFactorExp : Z := 3.
Definition hybridStartDelayMinThresholdUs : Z := 4000.
Definition hybridStartDelayMaxThresholdUs : Z := 16000.

Record HybridSlowStart : Type := mkHybrid {
  endPacketNumber : Z;
  hs_lastSentPacketNumber : Z;
  started : bool;
  currentMinRTT : Z;
  rttSampleCount : Z;
  hystartFound : bool;
}.

Definition StartReceiveRound (s : HybridSlowStart) (lastSent : Z) : HybridSlowStart :=
  mkHybrid lastSent (hs_lastSentPacketNumber s) true 0 0 (hystartFound s).

Definition IsEndOfRound (s : HybridSlowStart) (ack : Z) : bool := endPacketNumber s <? ack.

Definition MinInt64 (a b : Z) : Z := if a <? b then a else b.
Definition MaxInt64 (a b : Z) : Z := if a >? b then a else b.

(** The increase of the RTT that ends slow start. *)
Definition rtt_threshold (mn : Z) : Z :=
  let us := Z.shiftr (Z.quot mn Microsecond) hybridStartDelayFactorExp in
  MaxInt64 (MinInt64 us hybridStartDelayMaxThresholdUs) hybridStartDelayMinThresholdUs * Microsecond.

Definition ShouldExitSlowStart (s : HybridSlowStart) (latest mn congestionWindow : Z)
  : bool * HybridSlowStart :=
  let s := if started s then s else StartReceiveRound s (hs_lastSentPacketNumber s) in
  if hystartFound s then (true, s)
  else
    let count := u32 (rttSampleCount s + 1) in
    let current :=
      if (count <=? hybridStartMinSamples) && ((currentMinRTT s =? 0) || (currentMinRTT s >? latest))
      then latest else currentMinRTT s in
    let found := (count =? hybridStartMinSamples) && (current >? mn + rtt_threshold mn) in
    ((congestionWindow >=? hybridStartLowWindow) && found,
     mkHybrid (endPacketNumber s) (hs_lastSentPacketNumber s) (started s) current count found).

Definition hs_OnPacketSent (s : HybridSlowStart) (packetNumber : Z) : HybridSlowStart :=
  mkHybrid (endPacketNumber s) packetNumber (started s) (currentMinRTT s) (rttSampleCount s) (hystartFound s).

Definition hs_OnPacketAcked (s : HybridSlowStart) (acked : Z) : HybridSlowStart :=
  if IsEndOfRound s acked
  then mkHybrid (endPacketNumber s) (hs_lastSentPacketNumber s) false (currentMinRTT s) (rttSampleCount s) (hystartFound s)
  else s.

Definition Restart (s : HybridSlowStart) : HybridSlowStart :=
  mkHybrid (endPacketNumber s) (hs_lastSentPacketNumber s) false (currentMinRTT s) (rttSampleCount s) false.

(** ** Proportional rate reduction *)

Record PrrSender : Type := mkPrr {
  bytesSentSinceLoss : Z;
  bytesDeliveredSinceLoss : Z;
  ackCountSinceLoss : Z;
  bytesInFlightBeforeLoss : Z;
}.

Definition prr_OnPacketSent (p : PrrSender) (sentBytes : Z) : PrrSender :=
  mkPrr (bytesSentSinceLoss p +u64 sentBytes) (bytesDeliveredSinceLoss p) (ackCountSinceLoss p)
    (bytesInFlightBeforeLoss p).

Definition prr_OnPacketLost (p : PrrSender) (bytesInFlight : Z) : PrrSender := mkPrr 0 0 0 bytesInFlight.

Definition prr_OnPacketAcked (p : PrrSender) (ackedBytes : Z) : PrrSender :=
  mkPrr (bytesSentSinceLoss p) (bytesDeliveredSinceLoss p +u64 ackedBytes) (ackCountSinceLoss p +u64 1)
    (bytesInFlightBeforeLoss p).

Definition prr_TimeUntilSend (p : PrrSender) (congestionWindow bytesInFlight slowstartThreshold : Z) : Z :=
  if (bytesSentSinceLoss p =? 0) || (bytesInFlight <? DefaultTCPMSS) then 0
  else if congestionWindow >? bytesInFlight then
    if bytesDeliveredSinceLoss p +u64 u64 (ackCountSinceLoss p * DefaultTCPMSS) <=? bytesSentSinceLoss p
    then InfDuration else 0
  else if u64 (bytesDeliveredSinceLoss p * slowstartThreshold)
          >? u64 (bytesSentSinceLoss p * bytesInFlightBeforeLoss p) then 0
  else InfDuration.

(** ** The interface of a congestion controller *)

(** What the sent packet handler uses of a controller with state [C].  A controller shares the RTT
    statistics with the handler and reads a clock: both are arguments. *)
Class SendAlgorithm (C : Type) : Type := {
  OnPacketSent : C → RTTStats → Z → Z → Z → Z → bool → C;
  GetCongestionWindow : C → Z;
  GetSlowStartThreshold : C → Z;
  MaybeExitSlowStart : C → RTTStats → C;
  OnPacketAcked : C → RTTStats → Z → Z → Z → Z → C;
  OnPacketLost : C → RTTStats → Z → Z → Z → Z → C;
  OnRetransmissionTimeout : C → bool → C;
  RetransmissionDelay : C → RTTStats → Z;
  cong_SmoothedRTT : C → RTTStats → Z;
}.

(** What the handler relies on: the RTT a controller reports is not negative. *)
Class SendAlgorithmLaws (C : Type) `{SendAlgorithm C} : Prop := {
  cong_SmoothedRTT_nonneg c r : 0 <= smoothedRTT r → 0 <= cong_SmoothedRTT c r;
}.

(** ** The smoothed RTT *)

(** Numbers of at most 24 bits are exact. *)
Lemma f32_exact m : 0 <= m < 2^24 → f32 m = m.
Proof.
  intros Hm. unfold f32. rewrite Z.abs_eq by lia.
  destruct (Z.ltb_spec m (2^24)); [|lia]. destruct (Z.ltb_spec m 0); lia.
Qed.

Definition us (d : Z) : Z := d / Microsecond.

Lemma us_nonneg d : 0 <= d → 0 <= us d.
Proof. intros. apply Z.div_pos; [done|reflexivity]. Qed.

(** Below two seconds the smoothing is exact: the weighted mean in microseconds, rounded down. *)
Lemma float_mean_exact a x b y :
  0 <= a → 0 <= b → a + b = 8 → 0 <= x → 0 <= y → us x < 2^21 → us y < 2^21 →
  float_mean a x b y = (a * us x + b * us y) / 8 * Microsecond.
Proof.
  intros Ha Hb Hab Hx Hy Hx' Hy'. unfold float_mean. rewrite (Z.quot_div_nonneg x), (Z.quot_div_nonneg y) by (done || reflexivity).
  fold (us x) (us y). assert (0 <= us x ∧ 0 <= us y) as [? ?] by (by split; apply us_nonneg).
  assert (0 <= a * us x <= a * (2^21 - 1) ∧ 0 <= b * us y <= b * (2^21 - 1)) as [Hax Hby]
    by (split; split; (apply Z.mul_nonneg_nonneg || apply Z.mul_le_mono_nonneg_l); lia).
  rewrite (f32_exact (us x)), (f32_exact (us y)), (f32_exact (a * _)), (f32_exact (b * _)) by lia.
  rewrite f32_exact by lia. by rewrite Z.quot_div_nonneg by lia.
Qed.

(** A mean lies between its arguments. *)
Lemma mean_between a b x y lo hi :
  0 <= a → 0 <= b → a + b = 8 → lo <= x <= hi → lo <= y <= hi → lo <= (a * x + b * y) / 8 <= hi.
Proof.
  intros. split; [apply Z.div_le_lower_bound; nia|].
  apply Z.lt_succ_r, Z.div_lt_upper_bound; nia.
Qed.

Lemma us_mul z : us (z * Microsecond) = z.
Proof. unfold us. by rewrite Z.div_mul. Qed.

(** The sample of an update: the measured delay without the peer's delay, if that is smaller. *)
Definition rtt_sample (sendDelta ackDelay : Z) : Z :=
  if sendDelta >? ackDelay then sendDelta - ackDelay else sendDelta.

Lemma updateRecentMinRTT_keeps r sample now :
  let r' := updateRecentMinRTT r sample now in
  minRTT r' = minRTT r ∧ latestRTT r' = latestRTT r ∧ smoothedRTT r' = smoothedRTT r ∧
  meanDeviation r' = meanDeviation r.
Proof.
  unfold updateRecentMinRTT, expire_samples, recent_samples, forced_sample.
  repeat match goal with |- context [if ?b then _ else _] => destruct b end; done.
Qed.

(** Rounding and means keep the sign. *)
Lemma f32_nonneg m : 0 <= m → 0 <= f32 m.
Proof.
  intros Hm. unfold f32, round_even. rewrite Z.abs_eq by lia. destruct (Z.ltb_spec m 0); [lia|].
  destruct (Z.ltb_spec m (2^24)); [lia|]. apply Z.shiftl_nonneg.
  assert (0 <= Z.shiftr m (Z.log2 m - 23)) by (by apply Z.shiftr_nonneg). case_ifs; lia.
Qed.

Lemma float_mean_nonneg a x b y : 0 <= a → 0 <= x → 0 <= b → 0 <= y → 0 <= float_mean a x b y.
Proof.
  intros. unfold float_mean, Microsecond.
  assert (∀ c z, 0 <= c → 0 <= z → 0 <= f32 (c * f32 (Z.quot z 1000))) as Hc.
  { intros c z Hc Hz. apply f32_nonneg, Z.mul_nonneg_nonneg; [done|]. by apply f32_nonneg, Z.quot_pos. }
  apply Z.mul_nonneg_nonneg; [|lia]. apply Z.quot_pos; [|lia]. apply f32_nonneg.
  apply Z.add_nonneg_nonneg; by apply Hc.
Qed.

Lemma UpdateRTT_nonneg r sendDelta ackDelay now :
  0 <= smoothedRTT r → 0 <= smoothedRTT (UpdateRTT r sendDelta ackDelay now).
Proof.
  intros Hr. unfold UpdateRTT. destruct ((_ =? _) || _) eqn:E; [done|]. zbool.
  set (r1 := set_rtts r _ _ _ _). destruct (updateRecentMinRTT_keeps r1 sendDelta now) as (_ & _ & E3 & _).
  cbv zeta. rewrite E3. change (smoothedRTT r1) with (smoothedRTT r).
  fold (rtt_sample sendDelta ackDelay). assert (0 <= rtt_sample sendDelta ackDelay) as Hx.
  { unfold rtt_sample. destruct (Z.gtb_spec sendDelta ackDelay); lia. }
  destruct (smoothedRTT r =? 0); [exact Hx|].
  change (0 <= float_mean 7 (smoothedRTT r) 1 (rtt_sample sendDelta ackDelay)). by apply float_mean_nonneg.
Qed.

(** The statistics after samples between [lo] and [hi] microseconds. *)
Definition rtt_within (lo hi : Z) (r : RTTStats) : Prop :=
  lo <= us (smoothedRTT r) <= hi ∧ lo <= us (latestRTT r) <= hi ∧ lo <= us (minRTT r) ∧
  0 <= us (meanDeviation r) <= hi ∧ 0 < smoothedRTT r ∧ 0 < minRTT r ∧ 0 <= meanDeviation r.

Definition sample_ok (lo hi : Z) (s : Z * Z) : Prop :=
  0 < s.1 < InfDuration ∧ 0 <= s.2 ∧ lo <= us (rtt_sample s.1 s.2) <= hi.

Lemma us_mono a b : a <= b → us a <= us b.
Proof. intros. apply Z.div_le_mono; [reflexivity|done]. Qed.

Lemma update_rtt_within lo hi r sendDelta ackDelay now :
  1 <= lo → hi < 2^21 → (smoothedRTT r = 0 ∨ rtt_within lo hi r) → 0 <= minRTT r →
  (minRTT r = 0 ∨ lo <= us (minRTT r)) → sample_ok lo hi (sendDelta, ackDelay) →
  rtt_within lo hi (UpdateRTT r sendDelta ackDelay now) ∧
  minRTT (UpdateRTT r sendDelta ackDelay now)
  = (if minRTT r =? 0 then sendDelta else Z.min (minRTT r) sendDelta).
Proof.
  intros Hlo Hhi Hr Hm0 Hmin (Hd & Ha & Hs). cbn [fst snd] in *. unfold UpdateRTT.
  destruct (Z.eqb_spec sendDelta InfDuration); [lia|]. destruct (Z.leb_spec sendDelta 0); [lia|]. cbn [orb].
  set (mn := if (minRTT r =? 0) || _ then sendDelta else minRTT r).
  assert (mn = if minRTT r =? 0 then sendDelta else Z.min (minRTT r) sendDelta) as Emn.
  { unfold mn. destruct (minRTT r =? 0); [done|]. cbn [orb]. destruct (Z.gtb_spec (minRTT r) sendDelta); lia. }
  destruct (updateRecentMinRTT_keeps (set_rtts r mn (latestRTT r) (smoothedRTT r) (meanDeviation r)) sendDelta now)
    as (E1 & E2 & E3 & E4). cbn [set_rtts minRTT smoothedRTT meanDeviation] in *.
  cbv zeta. rewrite E1, E3, E4. fold (rtt_sample sendDelta ackDelay). set (x := rtt_sample sendDelta ackDelay) in *.
  assert (0 < x ∧ x <= sendDelta) as [Hx Hxd]
    by (unfold x, rtt_sample; destruct (Z.gtb_spec sendDelta ackDelay); lia).
  assert (lo <= us mn ∧ 0 < mn) as [Hmn Hmn0].
  { pose proof (us_mono _ _ Hxd). rewrite Emn. destruct (Z.eqb_spec (minRTT r) 0); [lia|].
    destruct (Z.min_spec (minRTT r) sendDelta) as [[? ->]|[? ->]]; lia. }
  destruct (Z.eqb_spec (smoothedRTT r) 0) as [E0|E0].
  - split; [|exact Emn]. unfold rtt_within. cbn [set_rtts smoothedRTT latestRTT minRTT meanDeviation].
    rewrite Z.quot_div_nonneg by lia. assert (0 <= x / 2 <= x) by (split; [apply Z.div_pos; lia|apply Z.div_le_upper_bound; lia]).
    pose proof (us_nonneg (x / 2)). pose proof (us_mono (x / 2) x). split_and!; lia.
  - destruct Hr as [|(R1 & R2 & R3 & R4 & R5 & R6 & R7)]; [done|].
    split; [|exact Emn]. unfold rtt_within. cbn [set_rtts smoothedRTT latestRTT minRTT meanDeviation].
    assert (us (AbsDuration (smoothedRTT r - x)) <= hi ∧ 0 <= AbsDuration (smoothedRTT r - x)) as [Hdev Hdev0].
    { unfold AbsDuration. destruct (Z.geb_spec (smoothedRTT r - x) 0); (split; [|lia]).
      - etrans; [apply (us_mono _ (smoothedRTT r)); lia|lia].
      - etrans; [apply (us_mono _ x); lia|lia]. }
    pose proof (us_nonneg (AbsDuration (smoothedRTT r - x)) Hdev0).
    rewrite !float_mean_exact by lia. rewrite !us_mul.
    pose proof (mean_between 7 1 (us (smoothedRTT r)) (us x) lo hi).
    pose proof (mean_between 6 2 (us (meanDeviation r)) (us (AbsDuration (smoothedRTT r - x))) 0 hi).
    unfold Microsecond. split_and!; lia.
Qed.

(** The statistics after a sequence of samples (delay, the peer's delay, the time). *)
Definition rtt_run (r : RTTStats) (samples : list (Z * Z * Z)) : RTTStats :=
  foldl (λ r s, UpdateRTT r s.1.1 s.1.2 s.2) r samples.

(** Whatever RTT samples a path sees, all between [lo] and [hi] (at least a microsecond, below
    two seconds): the smoothed RTT and the latest one stay between the samples to the microsecond --
    the float32 smoothing is exact there --, the mean deviation stays below the largest sample, and
    the minimum is exactly the smallest delay measured; in particular a path that has seen a sample
    never again looks like a path without one. *)
Theorem rtt_stats_within_samples (lo hi : Z) (s0 : Z * Z * Z) (samples : list (Z * Z * Z)) :
  1 <= lo → hi < 2^21 → Forall (λ s, sample_ok lo hi s.1) (s0 :: samples) →
  let r := rtt_run zeroRTTStats (s0 :: samples) in
  lo <= us (smoothedRTT r) <= hi ∧ lo <= us (latestRTT r) <= hi ∧ 0 <= us (meanDeviation r) <= hi ∧
  smoothedRTT r <> 0 ∧ minRTT r = foldr (λ s, Z.min s.1.1) s0.1.1 samples.
Proof.
  intros Hlo Hhi Hs.
  enough (rtt_within lo hi (rtt_run zeroRTTStats (s0 :: samples)) ∧
    minRTT (rtt_run zeroRTTStats (s0 :: samples)) = foldr (λ s, Z.min s.1.1) s0.1.1 samples)
    as [(? & ? & ? & ? & ? & ? & ?) ?] by (cbv zeta; split_and!; lia).
  induction samples as [|s samples IH] using rev_ind.
  - apply Forall_cons in Hs as [Hs0 _]. unfold rtt_run. cbn [foldl foldr]. destruct s0 as [[d a] now]. cbn [fst snd] in *.
    apply (update_rtt_within lo hi zeroRTTStats d a now Hlo Hhi); [by left|done|by left|done].
  - rewrite app_comm_cons in *. apply Forall_app in Hs as [Hs [Hn _]%Forall_cons].
    destruct (IH Hs) as [Hw Hm]. unfold rtt_run in *. rewrite foldl_app.
    set (r := foldl _ zeroRTTStats (s0 :: samples)) in *. cbn [foldl]. destruct s as [[d a] now]. cbn [fst snd] in *.
    pose proof Hw as (_ & _ & W1 & _ & _ & W2 & _).
    destruct (update_rtt_within lo hi r d a now Hlo Hhi) as [Hw' Hm']; [by right|lia|by right|done|].
    split; [done|]. rewrite Hm'. destruct (Z.eqb_spec (minRTT r) 0); [lia|]. rewrite Hm, foldr_snoc. cbn.
    clear. induction samples as [|s l IH]; cbn; lia.
Qed.

Lemma rtt_stats_within_samples_witness :
  let r := rtt_run zeroRTTStats [(50000000, 0, 1); (70000000, 5000000, 2); (40000000, 60000000, 3)] in
  smoothedRTT r = 50390000 ∧ minRTT r = 40000000 ∧ smoothedRTT r <> 0.
Proof.
  split; [vm_compute; reflexivity|].
  destruct (rtt_stats_within_samples 40000 70000 (50000000, 0, 1)
    [(70000000, 5000000, 2); (40000000, 60000000, 3)]) as (_ & _ & _ & H0 & Hm); [lia|lia| |].
  - repeat (constructor; [unfold sample_ok, InfDuration; vm_compute; repeat split; congruence|]). constructor.
  - split; [rewrite Hm; reflexivity|exact H0].
Defined.

(** The increase of the RTT that ends slow start is between 4 and 16 milliseconds. *)
Lemma rtt_threshold_range mn : 4 * Millisecond <= rtt_threshold mn <= 16 * Millisecond.
Proof.
  unfold rtt_threshold, MaxInt64, MinInt64, hybridStartDelayMinThresholdUs, hybridStartDelayMaxThresholdUs, Millisecond.
  repeat match goal with
  | |- context [?a <? ?b] => destruct (Z.ltb_spec a b)
  | |- context [?a >? ?b] => destruct (Z.gtb_spec a b)
  end; unfold Microsecond in *; lia.
Qed.
