(* ===== verification/SentPackets.v ===== *)
(** * Sent packets

    ackhandler/sent_packet_handler.go, packet.go, retransmittable.go and stop_waiting_manager.go:
    the history of the packets sent on a path, what an ACK acknowledges, loss detection, the alarm
    and the queue of packets to retransmit.  The handler is written against the interface of a
    congestion controller ([SendAlgorithm]), whatever its state.  The elements of the history, a
    linked list, are identified by their packet numbers, which SentPacket keeps distinct.  The clock
    does not advance during an operation; the callback for a retransmission timeout is an argument. *)

From stdpp Require Import pretty sorting.
From S2P Require Import Prelude ByteOrder Protocol Frames StreamFrame AckFrame ClosePathFrame PublicHeader Unpacker.
From S2P Require Import Congestion.

(** ** Packets *)

Record Packet : Type := mkPacket {
  PacketNumber : Z;
  p_Frames : list frame;
  p_Length : Z;
  EncryptionLevel : Z;
  SendTime : Z;
}.

Definition IsFrameRetransmittable (f : frame) : bool :=
  match f with FStopWaiting _ | FAck _ => false | _ => true end.

Definition stripNonRetransmittableFrames (fs : list frame) : list frame :=
  List.filter IsFrameRetransmittable fs.

Definition HasRetransmittableFrames (fs : list frame) : bool := existsb IsFrameRetransmittable fs.

Definition GetFramesForRetransmission (p : Packet) : list frame :=
  List.filter IsFrameRetransmittable (p_Frames p).

Definition IsRetransmittable (p : Packet) : bool :=
  existsb (λ f, match f with
    | FStream _ | FRstStream _ | FWindowUpdate _ | FBlocked _ | FPing _ | FGoaway _
    | FAddAddress _ | FPaths _ => true
    | _ => false
    end) (p_Frames p).

(** ** The STOP_WAITING manager *)

Record stopWaitingManager : Type := mkStopWaiting {
  largestLeastUnackedSent : Z;
  nextLeastUnacked : Z;
  lastStopWaitingFrame : option StopWaitingFrame;
}.

Definition stop_waiting_frame (leastUnacked : Z) : StopWaitingFrame :=
  {| sw_LeastUnacked := leastUnacked; sw_PacketNumberLen := 0; sw_PacketNumber := 0 |}.

Definition sw_GetStopWaitingFrame (s : stopWaitingManager) (force : bool)
  : option StopWaitingFrame * stopWaitingManager :=
  if nextLeastUnacked s <=? largestLeastUnackedSent s then
    if force then
      match lastStopWaitingFrame s with
      | None =>
          if largestLeastUnackedSent s >? 0 then
            let swf := stop_waiting_frame (nextLeastUnacked s) in
            (Some swf, mkStopWaiting (largestLeastUnackedSent s) (nextLeastUnacked s) (Some swf))
          else (None, s)
      | Some swf => (Some swf, s)
      end
    else (None, s)
  else
    let swf := stop_waiting_frame (nextLeastUnacked s) in
    (Some swf, mkStopWaiting (nextLeastUnacked s) (nextLeastUnacked s) (Some swf)).

Definition sw_ReceivedAck (s : stopWaitingManager) (largestAcked : Z) : stopWaitingManager :=
  if largestAcked >=? nextLeastUnacked s
  then mkStopWaiting (largestLeastUnackedSent s) (largestAcked +u64 1) (lastStopWaitingFrame s) else s.

Definition QueuedRetransmissionForPacketNumber (s : stopWaitingManager) (p : Z) : stopWaitingManager :=
  if p >=? nextLeastUnacked s
  then mkStopWaiting (largestLeastUnackedSent s) (p +u64 1) (lastStopWaitingFrame s) else s.

(** ** The handler *)

Definition defaultRTOTimeout : Z := 500 * Millisecond.
Definition minRTOTimeout : Z := 200 * Millisecond.
Definition maxRTOTimeout : Z := 60 * Second.
Definition maxTailLossProbes : Z := 2.
Definition minRetransmissionTime : Z := 200 * Millisecond.
Definition minTailLossProbeTimeout : Z := 10 * Millisecond.
Definition MaxTrackedSentPackets : Z := 2 * DefaultMaxCongestionWindow.
Definition MaxTrackedSkippedPackets : Z := 10.
Definition MaxNonRetransmittablePackets : Z := 19.

Definition ErrDuplicateOrOutOfOrderAck : error :=
  ErrorString "SentPacketHandler: Duplicate or out-of-order ACK".
Definition ErrTooManyTrackedSentPackets : error :=
  ErrorString "Too many outstanding non-acked and non-retransmitted packets".
Definition ErrAckForSkippedPacket : error :=
  QuicError InvalidAckData "Received an ACK for a skipped packet number".
Definition errAckForUnsentPacket : error :=
  QuicError InvalidAckData "Received ACK for an unsent package".
Definition errPacketNumberNotIncreasing : error :=
  ErrorString "Already sent a packet with a higher packet number".

Record sentPacketHandler (C : Type) : Type := mkHandler {
  lastSentPacketNumber : Z;
  skippedPackets : list Z;
  numNonRetransmittablePackets : Z;
  LargestAcked : Z;
  largestReceivedPacketWithAck : Z;
  packetHistory : list Packet;
  stopWaiting : stopWaitingManager;
  sph_queue : list Packet;
  bytesInFlight : Z;
  congestion : C;
  rttStats : RTTStats;
  rtoCount : Z;
  tlpCount : Z;
  lossTime : Z;
  lastSentTime : Z;
  alarm : Z;
  packets : Z;
  retransmissions : Z;
  losses : Z;
}.

Arguments mkHandler {C}.
Arguments lastSentPacketNumber {C}.
Arguments skippedPackets {C}.
Arguments numNonRetransmittablePackets {C}.
Arguments LargestAcked {C}.
Arguments largestReceivedPacketWithAck {C}.
Arguments packetHistory {C}.
Arguments stopWaiting {C}.
Arguments sph_queue {C}.
Arguments bytesInFlight {C}.
Arguments congestion {C}.
Arguments rttStats {C}.
Arguments rtoCount {C}.
Arguments tlpCount {C}.
Arguments lossTime {C}.
Arguments lastSentTime {C}.
Arguments alarm {C}.
Arguments packets {C}.
Arguments retransmissions {C}.
Arguments losses {C}.

Section Handler.
Context {C : Type} `{SendAlgorithm C}.

Implicit Types h : sentPacketHandler C.

Definition NewSentPacketHandler (r : RTTStats) (cong : C) : sentPacketHandler C :=
  mkHandler 0 [] 0 0 0 [] (mkStopWaiting 0 0 None) [] 0 cong r 0 0 0 0 0 0 0 0.

(** *** Field updates *)

Definition set_numbers h (last : Z) (skipped : list Z) (nonRetransmittable largest withAck : Z)
  : sentPacketHandler C :=
  mkHandler last skipped nonRetransmittable largest withAck (packetHistory h) (stopWaiting h) (sph_queue h)
    (bytesInFlight h) (congestion h) (rttStats h) (rtoCount h) (tlpCount h) (lossTime h) (lastSentTime h)
    (alarm h) (packets h) (retransmissions h) (losses h).

Definition set_history h (hist : list Packet) (sw : stopWaitingManager) (queue : list Packet) (inFlight : Z)
  : sentPacketHandler C :=
  mkHandler (lastSentPacketNumber h) (skippedPackets h) (numNonRetransmittablePackets h) (LargestAcked h)
    (largestReceivedPacketWithAck h) hist sw queue inFlight (congestion h) (rttStats h) (rtoCount h)
    (tlpCount h) (lossTime h) (lastSentTime h) (alarm h) (packets h) (retransmissions h) (losses h).

Definition set_congestion h (c : C) (r : RTTStats) : sentPacketHandler C :=
  mkHandler (lastSentPacketNumber h) (skippedPackets h) (numNonRetransmittablePackets h) (LargestAcked h)
    (largestReceivedPacketWithAck h) (packetHistory h) (stopWaiting h) (sph_queue h) (bytesInFlight h) c r
    (rtoCount h) (tlpCount h) (lossTime h) (lastSentTime h) (alarm h) (packets h) (retransmissions h) (losses h).

Definition set_timers h (rto tlp loss lastSent al : Z) : sentPacketHandler C :=
  mkHandler (lastSentPacketNumber h) (skippedPackets h) (numNonRetransmittablePackets h) (LargestAcked h)
    (largestReceivedPacketWithAck h) (packetHistory h) (stopWaiting h) (sph_queue h) (bytesInFlight h)
    (congestion h) (rttStats h) rto tlp loss lastSent al (packets h) (retransmissions h) (losses h).

Definition set_statistics h (sent retrans lost : Z) : sentPacketHandler C :=
  mkHandler (lastSentPacketNumber h) (skippedPackets h) (numNonRetransmittablePackets h) (LargestAcked h)
    (largestReceivedPacketWithAck h) (packetHistory h) (stopWaiting h) (sph_queue h) (bytesInFlight h)
    (congestion h) (rttStats h) (rtoCount h) (tlpCount h) (lossTime h) (lastSentTime h) (alarm h)
    sent retrans lost.

(** *** The history *)

Definition largestInOrderAcked h : Z :=
  match packetHistory h with p :: _ => PacketNumber p -u64 1 | [] => LargestAcked h end.

Definition GetLeastUnacked h : Z := largestInOrderAcked h +u64 1.

Definition ShouldSendRetransmittablePacket h : bool :=
  numNonRetransmittablePackets h >=? MaxNonRetransmittablePackets.

(** The history without packet [n]. *)
Fixpoint remove_packet (n : Z) (l : list Packet) : list Packet :=
  match l with
  | [] => []
  | p :: l => if PacketNumber p =? n then l else p :: remove_packet n l
  end.

Definition hasOutstandingRetransmittablePacket h : bool := existsb IsRetransmittable (packetHistory h).

Definition hasMultipleOutstandingRetransmittablePackets h : bool :=
  match packetHistory h with _ :: _ :: _ => true | _ => false end.

(** *** Timeouts *)

Definition computeRTOTimeout h : Z :=
  let rto := RetransmissionDelay (congestion h) (rttStats h) in
  let rto := if rto =? 0 then defaultRTOTimeout else rto in
  let rto := MaxDuration rto minRTOTimeout in
  MinDuration (i64 (Z.shiftl rto (rtoCount h))) maxRTOTimeout.

Definition computeTLPTimeout h : Z :=
  let rtt := cong_SmoothedRTT (congestion h) (rttStats h) in
  if hasMultipleOutstandingRetransmittablePackets h
  then MaxDuration (2 * rtt) (Z.quot (rtt * 3) 2 + minRetransmissionTime / 2)
  else MaxDuration (2 * rtt) minTailLossProbeTimeout.

Definition set_alarm h (t : Z) : sentPacketHandler C :=
  set_timers h (rtoCount h) (tlpCount h) (lossTime h) (lastSentTime h) t.

Definition updateLossDetectionAlarm h : sentPacketHandler C :=
  match packetHistory h with
  | [] => set_alarm h 0
  | _ =>
      if negb (lossTime h =? 0) then set_alarm h (lossTime h)
      else if negb (smoothedRTT (rttStats h) =? 0) && (tlpCount h <? maxTailLossProbes)
      then set_alarm h (lastSentTime h + computeTLPTimeout h)
      else set_alarm h (lastSentTime h + MaxDuration (computeRTOTimeout h) minRetransmissionTime)
  end.

(** *** Sending *)

Definition skip_packet (skipped : list Z) (p : Z) : list Z :=
  let skipped := skipped ++ [p] in
  if Z.of_nat (length skipped) >? MaxTrackedSkippedPackets then drop 1 skipped else skipped.

Definition SentPacket (now : Z) h (packet : Packet) : option error * sentPacketHandler C :=
  if PacketNumber packet <=? lastSentPacketNumber h then (Some errPacketNumberNotIncreasing, h)
  else if Z.of_nat (length (sph_queue h) + length (packetHistory h) + 1) >? MaxTrackedSentPackets
  then (Some ErrTooManyTrackedSentPackets, h)
  else
    let skipped := foldl skip_packet (skippedPackets h)
      (seqZ (lastSentPacketNumber h + 1) (PacketNumber packet - lastSentPacketNumber h - 1)) in
    let frames := stripNonRetransmittableFrames (p_Frames packet) in
    let isRetransmittable := negb (length frames =? 0)%nat in
    let sent := mkPacket (PacketNumber packet) frames (p_Length packet) (EncryptionLevel packet) now in
    let h := set_numbers h (PacketNumber packet) skipped
               (if isRetransmittable then 0 else numNonRetransmittablePackets h + 1)
               (LargestAcked h) (largestReceivedPacketWithAck h) in
    let h := set_statistics h (packets h +u64 1) (retransmissions h) (losses h) in
    let h := set_timers h (rtoCount h) (tlpCount h) (lossTime h) now (alarm h) in
    let h := if isRetransmittable
             then set_history h (packetHistory h ++ [sent]) (stopWaiting h) (sph_queue h)
                    (bytesInFlight h +u64 p_Length packet)
             else h in
    let h := set_congestion h
               (OnPacketSent (congestion h) (rttStats h) now (bytesInFlight h) (PacketNumber packet)
                  (p_Length packet) isRetransmittable) (rttStats h) in
    (None, updateLossDetectionAlarm h).

(** *** Retransmissions *)

Definition queuePacketForRetransmission h (p : Packet) : sentPacketHandler C :=
  set_history h (remove_packet (PacketNumber p) (packetHistory h))
    (QueuedRetransmissionForPacketNumber (stopWaiting h) (PacketNumber p))
    (sph_queue h ++ [p]) (bytesInFlight h -u64 p_Length p).

(** A packet is lost: it is queued, and the controller is told. *)
Definition lose (now : Z) h (p : Packet) : sentPacketHandler C :=
  let h := queuePacketForRetransmission h p in
  set_congestion h
    (OnPacketLost (congestion h) (rttStats h) now (PacketNumber p) (p_Length p) (bytesInFlight h)) (rttStats h).

Definition add_losses h (n : nat) : sentPacketHandler C :=
  set_statistics h (packets h) (retransmissions h) (losses h +u64 Z.of_nat n).

Definition queueRTO (now : Z) h (p : Packet) : sentPacketHandler C := lose now (add_losses h 1) p.

Definition DequeuePacketForRetransmission h : option Packet * sentPacketHandler C :=
  match sph_queue h with
  | [] => (None, h)
  | p :: queue =>
      (Some p, set_statistics (set_history h (packetHistory h) (stopWaiting h) queue (bytesInFlight h))
                 (packets h) (retransmissions h +u64 1) (losses h))
  end.

Definition DuplicatePacket h (p : Packet) : sentPacketHandler C :=
  set_history h (packetHistory h) (stopWaiting h) (sph_queue h ++ [p]) (bytesInFlight h).

Definition SendingAllowed h : bool :=
  let congestionLimited := bytesInFlight h >? GetCongestionWindow (congestion h) in
  let maxTrackedLimited :=
    Z.of_nat (length (sph_queue h) + length (packetHistory h)) >=? MaxTrackedSentPackets in
  let haveRetransmissions := (0 <? length (sph_queue h))%nat in
  negb maxTrackedLimited && (negb congestionLimited || haveRetransmissions).

(** *** Losses *)

(** The packets up to the largest acknowledged that are older than the delay, and the time at which
    the first of the others will be lost. *)
Fixpoint lost_packets (now delay largestAcked : Z) (hist : list Packet) (loss : Z) : list Packet * Z :=
  match hist with
  | [] => ([], loss)
  | p :: hist =>
      if PacketNumber p >? largestAcked then ([], loss)
      else
        let timeSinceSent := now - SendTime p in
        if timeSinceSent >? delay then
          let '(lost, loss) := lost_packets now delay largestAcked hist loss in (p :: lost, loss)
        else lost_packets now delay largestAcked hist
               (if loss =? 0 then now + (delay - timeSinceSent) else loss)
  end.

(** [time.Duration((1.0 + 1.0/8) * maxRTT)], exact for RTTs below [2^49]. *)
Definition delay_until_lost (maxRTT : Z) : Z := maxRTT * 9 / 8.

Definition detectLostPackets (now : Z) h : sentPacketHandler C :=
  let delay := delay_until_lost (MaxDuration (latestRTT (rttStats h)) (smoothedRTT (rttStats h))) in
  let '(lost, loss) := lost_packets now delay (LargestAcked h) (packetHistory h) 0 in
  let h := set_timers h (rtoCount h) (tlpCount h) loss (lastSentTime h) (alarm h) in
  foldl (lose now) (add_losses h (length lost)) lost.

Fixpoint acked_prefix (largestAcked : Z) (hist : list Packet) : list Packet :=
  match hist with
  | [] => []
  | p :: hist => if PacketNumber p >? largestAcked then [] else p :: acked_prefix largestAcked hist
  end.

Definition SetInflightAsLost (now : Z) h : sentPacketHandler C :=
  let lost := acked_prefix (LargestAcked h) (packetHistory h) in
  foldl (lose now) (add_losses h (length lost)) lost.

(** *** The alarm *)

Definition retransmitTLP h : sentPacketHandler C :=
  match last (packetHistory h) with
  | Some p => queuePacketForRetransmission h p
  | None => h
  end.

Definition on_timeout h : sentPacketHandler C :=
  set_congestion h (OnRetransmissionTimeout (congestion h) true) (rttStats h).

(** The loop that empties the history; each round takes the oldest packet out of it. *)
Fixpoint retransmit_all (now : Z) (k : nat) h : sentPacketHandler C :=
  match k with
  | O => h
  | S k => match packetHistory h with
           | [] => h
           | p :: _ => retransmit_all now k (queueRTO now h p)
           end
  end.

Definition retransmitAllPackets (now : Z) h : sentPacketHandler C :=
  on_timeout (retransmit_all now (length (packetHistory h)) h).

Definition retransmitOldestPacket (now : Z) h : sentPacketHandler C :=
  match packetHistory h with p :: _ => queueRTO now h p | [] => h end.

Definition retransmitOldestTwoPackets (now : Z) h : sentPacketHandler C :=
  on_timeout (retransmitOldestPacket now (retransmitOldestPacket now h)).

Definition OnAlarm (now : Z) (onRTO : option (Z → bool)) h : sentPacketHandler C :=
  if negb (hasOutstandingRetransmittablePacket h) then set_alarm h 0
  else
    let h :=
      if negb (lossTime h =? 0) then detectLostPackets now h
      else if tlpCount h <? maxTailLossProbes then
        let h := retransmitTLP h in
        set_timers h (rtoCount h) (u32 (tlpCount h + 1)) (lossTime h) (lastSentTime h) (alarm h)
      else
        let potentiallyFailed := match onRTO with Some f => f (lastSentTime h) | None => false end in
        let h := if potentiallyFailed then retransmitAllPackets now h else retransmitOldestTwoPackets now h in
        set_timers h (u32 (rtoCount h + 1)) (tlpCount h) (lossTime h) (lastSentTime h) (alarm h) in
    updateLossDetectionAlarm h.

(** *** Acknowledgements *)

(** A number in hexadecimal. *)
Fixpoint hex_digits (fuel : nat) (n : Z) (acc : string) : string :=
  match fuel with
  | O => acc
  | S fuel =>
      let d := n mod 16 in
      let acc := String (Ascii.ascii_of_nat (Z.to_nat (if d <? 10 then 48 + d else 87 + d))) acc in
      if n / 16 =? 0 then acc else hex_digits fuel (n / 16) acc
  end.
Definition hex (n : Z) : string := hex_digits 16 n "".

Definition errWrongPacket (p : Z) (r : AckRange) (suffix : string) : error :=
  ErrorString ("BUG: ackhandler would have acked wrong packet 0x" ++ hex p
               ++ ", while evaluating range 0x" ++ hex (First r) ++ " -> 0x" ++ hex (Last r) ++ suffix).

(** The ACK ranges from the lowest one up: those below packet [p] are passed, but not the last. *)
Fixpoint advance_ranges (p : Z) (ranges : list AckRange) : list AckRange :=
  match ranges with
  | r :: ((_ :: _) as rest) => if p >? Last r then advance_ranges p rest else ranges
  | _ => ranges
  end.

(** The packets of the history that a frame acknowledges, by one scan of the history and of the
    ranges, which are given from the lowest one up. *)
Fixpoint newly_acked (lowest largest : Z) (ranges : list AckRange) (suffix : string) (hist : list Packet)
  : result (list Packet) :=
  match hist with
  | [] => Ok []
  | p :: hist =>
      let n := PacketNumber p in
      if n <? lowest then newly_acked lowest largest ranges suffix hist
      else if n >? largest then Ok []
      else
        match advance_ranges n ranges with
        | [] => acked ← newly_acked lowest largest [] suffix hist; Ok (p :: acked)
        | (r :: _) as ranges =>
            if n >=? First r then
              if n >? Last r then Err (errWrongPacket n r suffix)
              else acked ← newly_acked lowest largest ranges suffix hist; Ok (p :: acked)
            else newly_acked lowest largest ranges suffix hist
        end
  end.

Definition determineNewlyAckedPackets h (f : AckFrame) : result (list Packet) :=
  newly_acked (ack_LowestAcked f) (ack_LargestAcked f) (rev (ack_AckRanges f)) "" (packetHistory h).

Definition determineNewlyAckedPacketsClosePath h (f : ClosePathFrame) : result (list Packet) :=
  newly_acked (cp_LowestAcked f) (cp_LargestAcked f) (rev (cp_AckRanges f)) " with ClosePath frame"
    (packetHistory h).

(** The packet the RTT is measured with. *)
Fixpoint find_packet (n : Z) (hist : list Packet) : option Packet :=
  match hist with
  | [] => None
  | p :: hist =>
      if PacketNumber p =? n then Some p
      else if PacketNumber p >? n then None else find_packet n hist
  end.

Definition maybeUpdateRTT (now : Z) h (largestAcked ackDelay rcvTime : Z) : bool * sentPacketHandler C :=
  match find_packet largestAcked (packetHistory h) with
  | Some p =>
      (true, set_congestion h (congestion h) (UpdateRTT (rttStats h) (rcvTime - SendTime p) ackDelay now))
  | None => (false, h)
  end.

Definition onPacketAcked h (p : Packet) : sentPacketHandler C :=
  let h := set_history h (remove_packet (PacketNumber p) (packetHistory h)) (stopWaiting h) (sph_queue h)
             (bytesInFlight h -u64 p_Length p) in
  set_timers h 0 0 (lossTime h) (lastSentTime h) (alarm h).

(** A packet is acknowledged: it leaves the history, and the controller is told. *)
Definition acknowledge (now : Z) h (p : Packet) : sentPacketHandler C :=
  let h := onPacketAcked h p in
  set_congestion h
    (OnPacketAcked (congestion h) (rttStats h) now (PacketNumber p) (p_Length p) (bytesInFlight h)) (rttStats h).

(** The index after the last skipped packet that is not above [lioa]. *)
Fixpoint delete_index (lioa : Z) (skipped : list Z) : nat :=
  match skipped with
  | [] => O
  | p :: skipped =>
      match delete_index lioa skipped with
      | O => if p <=? lioa then 1%nat else O
      | S k => S (S k)
      end
  end.

Definition garbageCollectSkippedPackets h : sentPacketHandler C :=
  let skipped := drop (delete_index (largestInOrderAcked h) (skippedPackets h)) (skippedPackets h) in
  set_numbers h (lastSentPacketNumber h) skipped (numNonRetransmittablePackets h) (LargestAcked h)
    (largestReceivedPacketWithAck h).

Definition skippedPacketsAcked h (f : AckFrame) : bool := existsb (AcksPacket f) (skippedPackets h).
Definition skippedPacketsAckedClosePath h (f : ClosePathFrame) : bool :=
  existsb (ClosePathFrame_AcksPacket f) (skippedPackets h).

Definition ReceivedAck (now : Z) h (f : AckFrame) (withPacketNumber rcvTime : Z)
  : option error * sentPacketHandler C :=
  if ack_LargestAcked f >? lastSentPacketNumber h then (Some errAckForUnsentPacket, h)
  else if withPacketNumber <=? largestReceivedPacketWithAck h then (Some ErrDuplicateOrOutOfOrderAck, h)
  else
    let h := set_numbers h (lastSentPacketNumber h) (skippedPackets h) (numNonRetransmittablePackets h)
               (LargestAcked h) withPacketNumber in
    if ack_LargestAcked f <=? largestInOrderAcked h then (None, h)
    else
      let h := set_numbers h (lastSentPacketNumber h) (skippedPackets h) (numNonRetransmittablePackets h)
                 (ack_LargestAcked f) withPacketNumber in
      if skippedPacketsAcked h f then (Some ErrAckForSkippedPacket, h)
      else
        let '(rttUpdated, h) := maybeUpdateRTT now h (ack_LargestAcked f) (ack_DelayTime f) rcvTime in
        let h := if rttUpdated
                 then set_congestion h (MaybeExitSlowStart (congestion h) (rttStats h)) (rttStats h) else h in
        match determineNewlyAckedPackets h f with
        | Err e => (Some e, h)
        | Panic w => (Some (ErrorString w), h)
        | Ok acked =>
            let h := foldl (acknowledge now) h acked in
            let h := updateLossDetectionAlarm (detectLostPackets now h) in
            let h := garbageCollectSkippedPackets h in
            (None, set_history h (packetHistory h) (sw_ReceivedAck (stopWaiting h) (ack_LargestAcked f))
                     (sph_queue h) (bytesInFlight h))
        end.

Definition ReceivedClosePath (now : Z) h (f : ClosePathFrame) (withPacketNumber : Z)
  : option error * sentPacketHandler C :=
  if cp_LargestAcked f >? lastSentPacketNumber h then (Some errAckForUnsentPacket, h)
  else if withPacketNumber <=? largestReceivedPacketWithAck h then (Some ErrDuplicateOrOutOfOrderAck, h)
  else
    let h := set_numbers h (lastSentPacketNumber h) (skippedPackets h) (numNonRetransmittablePackets h)
               (LargestAcked h) withPacketNumber in
    if skippedPacketsAckedClosePath h f then (Some ErrAckForSkippedPacket, h)
    else
      match determineNewlyAckedPacketsClosePath h f with
      | Err e => (Some e, h)
      | Panic w => (Some (ErrorString w), h)
      | Ok acked =>
          let h := foldl (acknowledge now) h acked in
          let h := SetInflightAsLost now h in
          (None, garbageCollectSkippedPackets h)
      end.

Definition GetStopWaitingFrame h (force : bool) : option StopWaitingFrame * sentPacketHandler C :=
  let '(swf, sw) := sw_GetStopWaitingFrame (stopWaiting h) force in
  (swf, set_history h (packetHistory h) sw (sph_queue h) (bytesInFlight h)).

End Handler.

(** ** What an ACK acknowledges *)

(** The packets of a history are in the order in which they were sent. *)
Definition sent_before (p q : Packet) : Prop := PacketNumber p < PacketNumber q.

Definition in_range (n : Z) (r : AckRange) : bool := (n >=? First r) && (n <=? Last r).

(** The ranges of a frame from the lowest one up. *)
Definition range_before (r s : AckRange) : Prop := Last r < First s.

Lemma ranges_below_sorted r0 l :
  First r0 <= Last r0 → ranges_below r0 l →
  StronglySorted (flip range_before) (r0 :: l) ∧ Forall (λ r, First r <= Last r) (r0 :: l).
Proof.
  revert r0. induction l as [|r l IH]; intros r0 H0 Hb; [by repeat constructor|].
  destruct Hb as (Hr & Hgap & Hb). destruct (IH r Hr Hb) as [Hs Hf]. split; [|by constructor].
  constructor; [done|]. apply Forall_forall. intros s Hs'. unfold flip, range_before.
  rewrite elem_of_cons in Hs'. destruct Hs' as [->|Hin]; [lia|].
  pose proof (below_bounds r l s Hr Hb). apply StronglySorted_inv in Hs as [_ Hs].
  rewrite Forall_forall in Hs. specialize (Hs s Hin). unfold flip, range_before in Hs. lia.
Qed.

Lemma StronglySorted_rev {A} (R : A → A → Prop) l : StronglySorted (flip R) l → StronglySorted R (rev l).
Proof.
  induction 1 as [|x l _ IH Hx]; simpl; [constructor|].
  apply StronglySorted_app_2; [|done|by repeat constructor].
  intros a b Ha Hb. apply list_elem_of_singleton in Hb as ->. rewrite Forall_forall in Hx.
  apply Hx. by rewrite list_elem_of_In, <- in_rev, <- list_elem_of_In in Ha.
Qed.

(** Passing ranges loses nothing of what is at or above [n]. *)
Lemma advance_ranges_spec n rs :
  rs <> [] →
  ∃ passed r rest, advance_ranges n rs = r :: rest ∧ rs = passed ++ r :: rest ∧
    Forall (λ r, Last r < n) passed ∧ (n <= Last r ∨ rest = []).
Proof.
  induction rs as [|r rs IH]; [done|]. intros _. destruct rs as [|r' rs].
  - exists [], r, []. by repeat split; [..|right].
  - change (advance_ranges n (r :: r' :: rs))
      with (if n >? Last r then advance_ranges n (r' :: rs) else r :: r' :: rs). rewrite Z.gtb_ltb. destruct (Z.ltb_spec (Last r) n) as [Hn|Hn].
    + destruct IH as (passed & s & rest & -> & -> & Hp & Hs); [done|].
      exists (r :: passed), s, rest. by repeat split; [constructor|].
    + exists [], r, (r' :: rs). by repeat split; [|left].
Qed.

Lemma existsb_passed n passed rs :
  Forall (λ r, Last r < n) passed → existsb (in_range n) (passed ++ rs) = existsb (in_range n) rs.
Proof.
  intros Hp. induction Hp as [|r passed Hr _ IH]; [done|]. simpl. rewrite IH. unfold in_range at 1.
  destruct (Z.leb_spec n (Last r)); [lia|]. by rewrite andb_false_r.
Qed.

Lemma existsb_above n r rs :
  n < First r → StronglySorted range_before (r :: rs) → Forall (λ r, First r <= Last r) (r :: rs) →
  existsb (in_range n) (r :: rs) = false.
Proof.
  intros Hn Hs Hf. apply not_true_is_false. rewrite existsb_exists. intros (s & Hin & Hr).
  apply andb_prop in Hr as [H1 H2]. zbool. apply StronglySorted_inv in Hs as [_ Hs].
  inversion Hf as [|? ? Hr _]; subst. destruct Hin as [<-|Hin]; [lia|].
  rewrite Forall_forall in Hs. apply list_elem_of_In in Hin. specialize (Hs s Hin).
  unfold range_before in Hs. lia.
Qed.

Definition acked_by (lowest largest : Z) (ranges : list AckRange) (p : Packet) : bool :=
  (lowest <=? PacketNumber p) && (PacketNumber p <=? largest) && existsb (in_range (PacketNumber p)) ranges.

Lemma filter_none {A} (f : A → bool) l : Forall (λ x, f x = false) l → List.filter f l = [].
Proof. induction 1 as [|x l Hx _ IH]; simpl; [done|]. by rewrite Hx. Qed.

(** One scan finds the packets of the history that lie in one of the ranges. *)
Lemma newly_acked_ranges lowest largest suffix hist rs rl :
  StronglySorted sent_before hist →
  StronglySorted range_before (rs ++ [rl]) → Forall (λ r, First r <= Last r) (rs ++ [rl]) →
  Last rl = largest →
  newly_acked lowest largest (rs ++ [rl]) suffix hist
  = Ok (List.filter (acked_by lowest largest (rs ++ [rl])) hist).
Proof.
  intros Hh. revert rs. induction Hh as [|p hist Hh IH Hp]; intros rs Hs Hf Hl; [done|].
  cbn [newly_acked List.filter]. unfold acked_by at 1. rewrite Z.gtb_ltb.
  destruct (Z.ltb_spec (PacketNumber p) lowest) as [Hlo|Hlo].
  { rewrite (proj2 (Z.leb_gt lowest _)) by lia. by apply IH. }
  rewrite (proj2 (Z.leb_le lowest _)) by lia.
  destruct (Z.ltb_spec largest (PacketNumber p)) as [Hla|Hla].
  { rewrite (proj2 (Z.leb_gt _ largest)) by lia. cbn [andb]. rewrite filter_none; [done|].
    eapply Forall_impl; [exact Hp|]. intros q Hq. unfold sent_before in Hq. unfold acked_by.
    rewrite (proj2 (Z.leb_gt _ largest)) by lia. by rewrite andb_false_r. }
  rewrite (proj2 (Z.leb_le _ largest)) by lia. cbn [andb].
  destruct (advance_ranges_spec (PacketNumber p) (rs ++ [rl])) as (passed & r & rest & -> & E & Hpas & Hend);
    [by destruct rs|].
  destruct (exists_last (l := r :: rest)) as (rs' & rl' & E'); [done|].
  rewrite E' in E. rewrite app_assoc in E. apply app_inj_tail in E as [-> <-].
  rewrite <- app_assoc in Hs, Hf |- *. rewrite <- E' in *. rewrite existsb_passed by done.
  apply StronglySorted_app_1_r in Hs. apply Forall_app in Hf as [_ Hf].
  assert (List.filter (acked_by lowest largest (passed ++ r :: rest)) hist
          = List.filter (acked_by lowest largest (r :: rest)) hist) as ->.
  { apply filter_ext_in. intros q Hq. unfold acked_by. rewrite existsb_passed; [done|].
    apply list_elem_of_In in Hq. rewrite Forall_forall in Hp. specialize (Hp q Hq).
    unfold sent_before in Hp. eapply Forall_impl; [exact Hpas|]. simpl. lia. }
  assert (PacketNumber p <= Last r) as Hle.
  { destruct Hend as [?| ->]; [done|]. destruct rs' as [|? [|]]; simplify_eq/=. lia. }
  rewrite Z.gtb_ltb, (proj2 (Z.ltb_ge (Last r) _)) by done.
  rewrite Z.geb_leb. destruct (Z.leb_spec (First r) (PacketNumber p)) as [Hr|Hr].
  - rewrite E', IH, <- E' by (rewrite <- ?E'; done). cbn [existsb]. unfold in_range at 1.
    rewrite Z.geb_leb, (proj2 (Z.leb_le _ _) Hr), (proj2 (Z.leb_le _ _) Hle). done.
  - rewrite existsb_above by done. rewrite E'. apply IH; rewrite <- ?E'; done.
Qed.

(** The scan for the ranges of a frame, which are given from the highest one down. *)
Lemma newly_acked_frame lowest largest ranges suffix hist :
  StronglySorted sent_before hist →
  match ranges with
  | [] => True
  | r0 :: l => l <> [] ∧ Last r0 = largest ∧ First r0 <= Last r0 ∧ ranges_below r0 l ∧
               lowest = First (List.last (r0 :: l) r0)
  end →
  newly_acked lowest largest (rev ranges) suffix hist
  = Ok (List.filter (λ p, let n := PacketNumber p in
      if (n <? lowest) || (n >? largest) then false
      else if negb (length ranges =? 0)%nat then existsb (in_range n) ranges
      else (n >=? lowest) && (n <=? largest)) hist).
Proof.
  intros Hh Hr. destruct ranges as [|r0 l].
  - clear Hr. induction Hh as [|p hist Hh IH Hp]; [done|].
    cbn [newly_acked List.filter rev app length Nat.eqb negb] in *.
    cbv zeta. rewrite Z.gtb_ltb, Z.geb_leb. destruct (Z.ltb_spec (PacketNumber p) lowest); [exact IH|].
    destruct (Z.ltb_spec largest (PacketNumber p)); cbn [orb].
    + rewrite filter_none; [done|]. eapply Forall_impl; [exact Hp|]. intros q Hq. unfold sent_before in Hq.
      simpl. rewrite Z.gtb_ltb, (proj2 (Z.ltb_lt largest (PacketNumber q))) by lia. by rewrite orb_true_r.
    + rewrite (proj2 (Z.leb_le lowest _)), (proj2 (Z.leb_le _ largest)) by lia. cbn [andb].
      cbn [advance_ranges]. by rewrite IH.
  - destruct Hr as (_ & Hl & H0 & Hb & _). destruct (ranges_below_sorted r0 l H0 Hb) as [Hs Hf].
    cbn [rev]. rewrite newly_acked_ranges; [|done|by apply (StronglySorted_rev _ (r0 :: l))| |done].
    2:{ by apply (List.Forall_rev (l := r0 :: l)). }
    f_equal. apply filter_ext. intros p. unfold acked_by. cbn [length Nat.eqb negb]. cbv zeta.
    rewrite Z.gtb_ltb, (Z.ltb_antisym lowest), (Z.ltb_antisym _ largest), <- negb_andb.
    destruct ((lowest <=? PacketNumber p) && (PacketNumber p <=? largest)); [|done]. cbn [negb andb].
    apply eq_iff_eq_true. rewrite !existsb_exists. change (rev l ++ [r0]) with (rev (r0 :: l)).
    by setoid_rewrite <- in_rev.
Qed.

Section Acknowledgement.
Context {C : Type} `{SendAlgorithm C}.

(** C10: the single scan over the history and the ACK ranges is equivalent to testing every packet of
    the history on its own: for a well-formed frame it never reports its internal error, and it
    returns exactly the outstanding packets that the frame acknowledges, in the order in which they
    were sent -- for ACK frames and for CLOSE_PATH frames. *)
Theorem newly_acked_packets (h : sentPacketHandler C) (f : AckFrame) (g : ClosePathFrame) :
  StronglySorted sent_before (packetHistory h) → AckFrame_ok f → ClosePathFrame_ok g →
  determineNewlyAckedPackets h f
  = Ok (List.filter (λ p, AcksPacket f (PacketNumber p)) (packetHistory h)) ∧
  determineNewlyAckedPacketsClosePath h g
  = Ok (List.filter (λ p, ClosePathFrame_AcksPacket g (PacketNumber p)) (packetHistory h)).
Proof.
  intros Hs (_ & _ & _ & Hf) (_ & _ & _ & Hg).
  by split; [apply (newly_acked_frame _ _ (ack_AckRanges f))|apply (newly_acked_frame _ _ (cp_AckRanges g))].
Qed.

End Acknowledgement.

(** ** The ledger of the packets sent *)

Definition total_length (l : list Packet) : Z := foldr (λ p s, p_Length p + s) 0 l.

(** What the history of a handler satisfies. *)
Record ledger_ok (lastSent : Z) (hist : list Packet) (inFlight : Z) : Prop := {
  history_sorted : StronglySorted sent_before hist;
  history_sent : Forall (λ p, PacketNumber p <= lastSent) hist;
  history_lengths : Forall (λ p, 0 <= p_Length p < 2^32) hist;
  history_bounded : Z.of_nat (length hist) <= MaxTrackedSentPackets;
  history_in_flight : inFlight = total_length hist;
}.

Lemma total_length_perm l k : l ≡ₚ k → total_length l = total_length k.
Proof. induction 1; simpl; lia. Qed.

Lemma total_length_app l k : total_length (l ++ k) = total_length l + total_length k.
Proof. induction l; simpl; lia. Qed.

Lemma total_length_bound l :
  Forall (λ p, 0 <= p_Length p < 2^32) l → 0 <= total_length l <= Z.of_nat (length l) * (2^32 - 1).
Proof. induction 1; cbn [total_length foldr length]; [lia|]. fold (total_length l). lia. Qed.

Lemma ledger_u64 last hist b : ledger_ok last hist b → 0 <= b < 2^63.
Proof.
  intros [_ _ Hl Hb ->]. pose proof (total_length_bound hist Hl).
  unfold MaxTrackedSentPackets, DefaultMaxCongestionWindow in Hb. lia.
Qed.

Lemma remove_packet_sublist n l : sublist (remove_packet n l) l.
Proof.
  induction l as [|p l IH]; simpl; [constructor|].
  destruct (_ =? _); [apply sublist_cons; reflexivity|by apply sublist_skip].
Qed.

Lemma Forall_in_sublist {A} (P : A → Prop) l k : sublist l k → Forall P k → Forall P l.
Proof. induction 1; [done|..]; intros [? ?]%Forall_cons; auto. Qed.

Lemma StronglySorted_sublist {A} (R : A → A → Prop) l k :
  sublist l k → StronglySorted R k → StronglySorted R l.
Proof.
  induction 1 as [|x l k Hs IH|x l k Hs IH]; [done|..]; intros [Hk Hx]%StronglySorted_inv.
  - constructor; [by apply IH|]. by eapply Forall_in_sublist.
  - by apply IH.
Qed.

(** Packet numbers identify the packets of a history. *)
Lemma remove_packet_perm p l :
  StronglySorted sent_before l → p ∈ l → l ≡ₚ p :: remove_packet (PacketNumber p) l.
Proof.
  intros Hs. induction Hs as [|q l Hs IH Hq]; intros Hp; [by apply not_elem_of_nil in Hp|].
  simpl. apply elem_of_cons in Hp as [->|Hp]; [by rewrite Z.eqb_refl|].
  rewrite Forall_forall in Hq. specialize (Hq p Hp). unfold sent_before in Hq.
  rewrite (proj2 (Z.eqb_neq _ _)) by lia. rewrite (IH Hp) at 1. constructor.
Qed.

Lemma remove_packet_ok last p hist b :
  ledger_ok last hist b → p ∈ hist →
  ledger_ok last (remove_packet (PacketNumber p) hist) (b -u64 p_Length p).
Proof.
  intros Hl Hp. pose proof (ledger_u64 _ _ _ Hl) as Hb. destruct Hl as [Hs Hn Hlen Hmax Hb'].
  pose proof (remove_packet_sublist (PacketNumber p) hist) as Hsub.
  pose proof (remove_packet_perm p hist Hs Hp) as Hperm. pose proof (total_length_perm _ _ Hperm) as Ht.
  cbn [total_length foldr] in Ht. fold (total_length (remove_packet (PacketNumber p) hist)) in Ht.
  assert (Forall (λ p, 0 <= p_Length p < 2^32) (remove_packet (PacketNumber p) hist)) as Hlen'
    by (by eapply Forall_in_sublist).
  split; [by eapply StronglySorted_sublist|by eapply Forall_in_sublist|done|..].
  - apply sublist_length in Hsub. lia.
  - pose proof (total_length_bound _ Hlen'). rewrite Forall_forall in Hlen. specialize (Hlen p Hp).
    rewrite Hb'. rewrite u64_id by (unfold is_u64; lia). lia.
Qed.

Lemma submseteq_uncons {A} (x : A) l k :
  x :: l ⊆+ k → x ∈ k ∧ ∀ k', k ≡ₚ x :: k' → l ⊆+ k'.
Proof.
  intros (k0 & E & Hl)%submseteq_cons_l. split; [rewrite E; by left|].
  intros k' E'. rewrite E in E'. apply Permutation_cons_inv in E'. by rewrite <- E'.
Qed.

Section Ledger.
Context {C : Type} `{SendAlgorithm C}.
Implicit Types h : sentPacketHandler C.

Definition handler_ok h : Prop := ledger_ok (lastSentPacketNumber h) (packetHistory h) (bytesInFlight h).

(** [h'] follows [h] when the packets [acked] were taken out and [queued] were moved to the queue. *)
Record moved h h' (acked queued : list Packet) : Prop := {
  moved_ok : handler_ok h';
  moved_history : packetHistory h ≡ₚ acked ++ queued ++ packetHistory h';
  moved_queue : sph_queue h' = sph_queue h ++ queued;
  moved_last : lastSentPacketNumber h' = lastSentPacketNumber h;
}.

(** A step that does not touch the ledger. *)
Lemma moved_same h h' :
  handler_ok h → lastSentPacketNumber h' = lastSentPacketNumber h → packetHistory h' = packetHistory h →
  sph_queue h' = sph_queue h → bytesInFlight h' = bytesInFlight h → moved h h' [] [].
Proof.
  intros Hok E1 E2 E3 E4. split; [unfold handler_ok; by rewrite E1, E2, E4|by rewrite E2|by rewrite E3, app_nil_r|done].
Qed.

Lemma moved_trans h h1 h2 a1 q1 a2 q2 :
  moved h h1 a1 q1 → moved h1 h2 a2 q2 → moved h h2 (a1 ++ a2) (q1 ++ q2).
Proof.
  intros [_ P1 Q1 L1] [Hok P2 Q2 L2]. split; [done| |by rewrite Q2, Q1, app_assoc|by rewrite L2].
  rewrite P1, P2. rewrite <- !app_assoc. f_equiv. rewrite !app_assoc. f_equiv. f_equiv. apply Permutation_app_comm.
Qed.

Lemma moved_then_same h h1 h2 a q :
  moved h h1 a q → lastSentPacketNumber h2 = lastSentPacketNumber h1 → packetHistory h2 = packetHistory h1 →
  sph_queue h2 = sph_queue h1 → bytesInFlight h2 = bytesInFlight h1 → moved h h2 a q.
Proof.
  intros Hm E1 E2 E3 E4. rewrite <- (app_nil_r a), <- (app_nil_r q). eapply moved_trans; [exact Hm|].
  apply moved_same; [by destruct Hm|done..].
Qed.

Lemma queue_moved h p : handler_ok h → p ∈ packetHistory h → moved h (queuePacketForRetransmission h p) [] [p].
Proof.
  intros Hok Hp. split; [by apply remove_packet_ok| |done..]. apply remove_packet_perm; [apply Hok|done].
Qed.

Lemma lose_moved now h p : handler_ok h → p ∈ packetHistory h → moved h (lose now h p) [] [p].
Proof. intros. eapply moved_then_same; [by apply queue_moved|done..]. Qed.

Lemma acknowledge_moved now h p : handler_ok h → p ∈ packetHistory h → moved h (acknowledge now h p) [p] [].
Proof.
  intros Hok Hp. split; [by apply remove_packet_ok| |by rewrite app_nil_r|done].
  apply remove_packet_perm; [apply Hok|done].
Qed.

(** Taking packets of the history one after the other. *)
Lemma losses_moved now ps h : handler_ok h → ps ⊆+ packetHistory h → moved h (foldl (lose now) h ps) [] ps.
Proof.
  revert h. induction ps as [|p ps IH]; intros h Hok Hs; [by apply moved_same|].
  apply submseteq_uncons in Hs as [Hp Hs].
  pose proof (lose_moved now h p Hok Hp) as Hm. simpl.
  apply (moved_trans _ _ _ [] [p] [] ps Hm). apply IH; [apply Hm|apply Hs, Hm].
Qed.

Lemma acks_moved now ps h : handler_ok h → ps ⊆+ packetHistory h → moved h (foldl (acknowledge now) h ps) ps [].
Proof.
  revert h. induction ps as [|p ps IH]; intros h Hok Hs; [by apply moved_same|].
  apply submseteq_uncons in Hs as [Hp Hs].
  pose proof (acknowledge_moved now h p Hok Hp) as Hm. simpl.
  apply (moved_trans _ _ _ [p] [] ps [] Hm). apply IH; [apply Hm|apply Hs, Hm].
Qed.

Lemma lost_packets_sublist now delay largest hist loss :
  sublist (lost_packets now delay largest hist loss).1 hist.
Proof.
  revert loss. induction hist as [|p hist IH]; intros loss; simpl; [constructor|].
  destruct (_ >? _); [apply sublist_nil_l|]. destruct (_ >? delay).
  - specialize (IH loss). destruct (lost_packets _ _ _ _ loss). by apply sublist_skip.
  - by apply sublist_cons.
Qed.

Lemma acked_prefix_sublist largest hist : sublist (acked_prefix largest hist) hist.
Proof.
  induction hist as [|p hist IH]; simpl; [constructor|].
  destruct (_ >? _); [apply sublist_nil_l|by apply sublist_skip].
Qed.

Lemma inflight_lost_moved now h : handler_ok h → ∃ q, moved h (SetInflightAsLost now h) [] q.
Proof.
  intros Hok. eexists. eapply (moved_trans _ _ _ [] [] []);
    [|apply losses_moved; [done|apply sublist_submseteq, acked_prefix_sublist]].
  by apply moved_same.
Qed.

Lemma queueRTO_moved now h p : handler_ok h → p ∈ packetHistory h → moved h (queueRTO now h p) [] [p].
Proof.
  intros Hok Hp. apply (moved_trans _ (add_losses h 1) _ [] [] [] [p]); [by apply moved_same|by apply lose_moved].
Qed.

Lemma alarm_update_moved h h' a q : moved h h' a q → moved h (updateLossDetectionAlarm h') a q.
Proof.
  intros Hm. unfold updateLossDetectionAlarm.
  repeat match goal with |- context [match ?x with _ => _ end] => destruct x end;
    (eapply moved_then_same; [exact Hm|done..]).
Qed.

(** *** What an alarm queues *)

(** The age at which a packet up to the largest acknowledged one is lost. *)
Definition loss_delay h : Z := delay_until_lost (MaxDuration (latestRTT (rttStats h)) (smoothedRTT (rttStats h))).

Definition overdue (now : Z) h (p : Packet) : bool := now - SendTime p >? loss_delay h.

(** With a loss time the overdue packets; else, for two probes, the newest packet; then the two oldest packets, or all if the
    path may have failed. *)
Definition alarm_due (now : Z) (onRTO : option (Z → bool)) h : list Packet :=
  if negb (lossTime h =? 0)
  then List.filter (λ p, (PacketNumber p <=? LargestAcked h) && overdue now h p) (packetHistory h)
  else if tlpCount h <? maxTailLossProbes then option_list (last (packetHistory h))
  else if match onRTO with Some f => f (lastSentTime h) | None => false end then packetHistory h
  else take 2 (packetHistory h).

(** The history is in the order of packet numbers, so that the scan misses no packet when it stops. *)
Lemma lost_packets_filter now delay largest hist loss :
  StronglySorted sent_before hist →
  (lost_packets now delay largest hist loss).1
  = List.filter (λ p, (PacketNumber p <=? largest) && (now - SendTime p >? delay)) hist.
Proof.
  intros Hs. revert loss. induction Hs as [|p hist Hs IH Hp]; intros loss; cbn [lost_packets List.filter]; [done|].
  destruct (Z.gtb_spec (PacketNumber p) largest) as [Hg|Hg].
  - rewrite (proj2 (Z.leb_gt _ _)) by lia. cbn [andb]. symmetry. apply filter_none.
    eapply Forall_impl; [exact Hp|]. intros q Hq. unfold sent_before in Hq. cbv beta. by rewrite (proj2 (Z.leb_gt _ _)) by lia.
  - rewrite (proj2 (Z.leb_le _ _)) by lia. cbn [andb]. destruct (_ >? delay); [|apply IH].
    specialize (IH loss). destruct (lost_packets _ _ _ _ loss). cbn [fst] in *. by rewrite IH.
Qed.

Lemma detect_due now h :
  handler_ok h →
  moved h (detectLostPackets now h) [] (List.filter (λ p, (PacketNumber p <=? LargestAcked h) && overdue now h p) (packetHistory h)).
Proof.
  intros Hok. unfold detectLostPackets. fold (loss_delay h).
  pose proof (lost_packets_sublist now (loss_delay h) (LargestAcked h) (packetHistory h) 0) as Hs.
  pose proof (lost_packets_filter now (loss_delay h) (LargestAcked h) (packetHistory h) 0 (history_sorted _ _ _ Hok)) as Hf.
  unfold overdue. rewrite <- Hf. clear Hf. destruct (lost_packets _ _ _ _ _) as [lost loss]. cbn [fst].
  eapply (moved_trans _ _ _ [] [] [] lost); [|apply losses_moved; [done|by apply sublist_submseteq]].
  by apply moved_same.
Qed.

Lemma detect_moved now h : handler_ok h → ∃ q, moved h (detectLostPackets now h) [] q.
Proof. intros Hok. eexists. by apply detect_due. Qed.

Lemma remove_head p l : remove_packet (PacketNumber p) (p :: l) = l.
Proof. cbn. by rewrite Z.eqb_refl. Qed.

Lemma queueRTO_head now h p hist :
  handler_ok h → packetHistory h = p :: hist →
  moved h (queueRTO now h p) [] [p] ∧ packetHistory (queueRTO now h p) = hist.
Proof.
  intros Hok E. split; [apply queueRTO_moved; [done|rewrite E; by left]|].
  change (packetHistory (queueRTO now h p)) with (remove_packet (PacketNumber p) (packetHistory h)). rewrite E. apply remove_head.
Qed.

Lemma oldest_two_due now h :
  handler_ok h → moved h (retransmitOldestPacket now (retransmitOldestPacket now h)) [] (take 2 (packetHistory h)).
Proof.
  intros Hok. unfold retransmitOldestPacket at 2. destruct (packetHistory h) as [|p hist] eqn:E.
  { unfold retransmitOldestPacket. rewrite E. by apply moved_same. }
  destruct (queueRTO_head now h p hist Hok E) as [Hm E1]. unfold retransmitOldestPacket. rewrite E1.
  destruct hist as [|p2 hist]; [done|]. destruct (queueRTO_head now _ p2 hist (moved_ok _ _ _ _ Hm) E1) as [Hm2 _].
  exact (moved_trans _ _ _ [] [p] [] [p2] Hm Hm2).
Qed.

Lemma all_due now k h :
  handler_ok h → length (packetHistory h) = k → moved h (retransmit_all now k h) [] (packetHistory h).
Proof.
  revert h. induction k as [|k IH]; intros h Hok Hk; cbn [retransmit_all].
  - destruct (packetHistory h) eqn:E; [|done]. by apply moved_same.
  - destruct (packetHistory h) as [|p hist] eqn:E; [done|]. destruct (queueRTO_head now h p hist Hok E) as [Hm E1].
    pose proof (IH (queueRTO now h p) (moved_ok _ _ _ _ Hm) ltac:(rewrite E1; cbn in Hk; lia)) as Hq. rewrite E1 in Hq.
    exact (moved_trans _ _ _ [] [p] [] hist Hm Hq).
Qed.

Lemma OnAlarm_due now onRTO h :
  handler_ok h → hasOutstandingRetransmittablePacket h = true → moved h (OnAlarm now onRTO h) [] (alarm_due now onRTO h).
Proof.
  intros Hok Ho. unfold OnAlarm, alarm_due. rewrite Ho. cbn [negb]. apply alarm_update_moved.
  destruct (negb (lossTime h =? 0)); [by apply detect_due|]. destruct (tlpCount h <? maxTailLossProbes).
  - unfold retransmitTLP. destruct (last (packetHistory h)) as [p|] eqn:El; [|by apply moved_same].
    eapply moved_then_same; [apply (queue_moved h p Hok)|done..]. by apply last_Some_elem_of.
  - destruct (match onRTO with Some f => _ | None => _ end).
    + eapply moved_then_same; [exact (all_due now _ h Hok eq_refl)|done..].
    + eapply moved_then_same; [exact (oldest_two_due now h Hok)|done..].
Qed.

Lemma OnAlarm_moved now onRTO h : handler_ok h → ∃ q, moved h (OnAlarm now onRTO h) [] q.
Proof.
  intros Hok. destruct (hasOutstandingRetransmittablePacket h) eqn:Ho; [eexists; by apply OnAlarm_due|].
  exists []. unfold OnAlarm. rewrite Ho. by apply moved_same.
Qed.

Lemma filter_submseteq {A} (f : A → bool) l : List.filter f l ⊆+ l.
Proof.
  induction l as [|x l IH]; simpl; [constructor|]. destruct (f x); [by apply submseteq_skip|by apply submseteq_cons].
Qed.

(** What an acknowledgement does to the ledger: it takes out the packets it acknowledges. *)
Lemma received_acks_moved now h (acks : Z → bool) acked :
  handler_ok h → acked = List.filter (λ p, acks (PacketNumber p)) (packetHistory h) →
  moved h (foldl (acknowledge now) h acked) acked [] ∧ Forall (λ p, acks (PacketNumber p) = true) acked.
Proof.
  intros Hok ->. split; [by apply acks_moved, filter_submseteq|].
  apply Forall_forall. intros p Hp. by apply list_elem_of_In, filter_In in Hp as [_ ?].
Qed.

Lemma ReceivedAck_moved now h f n rcvTime :
  handler_ok h → AckFrame_ok f →
  ∃ a q, moved h (ReceivedAck now h f n rcvTime).2 a q ∧ Forall (λ p, AcksPacket f (PacketNumber p) = true) a.
Proof.
  intros Hok (_ & _ & _ & Hf). unfold ReceivedAck.
  destruct (_ >? _); [exists [], []; by split; [apply moved_same|]|].
  destruct (n <=? _); [exists [], []; by split; [apply moved_same|]|].
  destruct (_ <=? largestInOrderAcked _); [exists [], []; by split; [apply moved_same|]|].
  destruct (skippedPacketsAcked _ f); [exists [], []; by split; [apply moved_same|]|].
  set (h0 := set_numbers (set_numbers h _ _ _ _ _) _ _ _ _ _).
  unfold maybeUpdateRTT. destruct (find_packet _ _) as [p|]; cbv iota beta;
  match goal with |- context [determineNewlyAckedPackets ?g f] => set (h1 := g) in * end;
  unfold determineNewlyAckedPackets; rewrite newly_acked_frame by (apply Hok || exact Hf);
  (destruct (received_acks_moved now h1 (AcksPacket f) _ Hok eq_refl) as [Ha Hacks];
   destruct (detect_moved now _ (moved_ok _ _ _ _ Ha)) as [q Hq];
   eexists _, q; split; [|exact Hacks];
   pose proof (moved_trans _ _ _ _ _ [] q Ha Hq) as Hm; rewrite app_nil_r in Hm;
   apply alarm_update_moved in Hm; eapply (moved_trans h h1 _ [] [] _ q); [by apply moved_same|];
   eapply moved_then_same; [exact Hm|done..]).
Qed.

Lemma ReceivedClosePath_moved now h f n :
  handler_ok h → ClosePathFrame_ok f →
  ∃ a q, moved h (ReceivedClosePath now h f n).2 a q ∧
    Forall (λ p, ClosePathFrame_AcksPacket f (PacketNumber p) = true) a.
Proof.
  intros Hok (_ & _ & _ & Hf). unfold ReceivedClosePath.
  destruct (_ >? _); [exists [], []; by split; [apply moved_same|]|].
  destruct (n <=? _); [exists [], []; by split; [apply moved_same|]|].
  destruct (skippedPacketsAckedClosePath _ f); [exists [], []; by split; [apply moved_same|]|].
  match goal with |- context [determineNewlyAckedPacketsClosePath ?g f] => set (h1 := g) in * end.
  unfold determineNewlyAckedPacketsClosePath. rewrite newly_acked_frame by (apply Hok || exact Hf).
  destruct (received_acks_moved now h1 (ClosePathFrame_AcksPacket f) _ Hok eq_refl) as [Ha Hacks].
  destruct (inflight_lost_moved now _ (moved_ok _ _ _ _ Ha)) as [q Hq].
  eexists _, q. split; [|exact Hacks]. pose proof (moved_trans _ _ _ _ _ [] q Ha Hq) as Hm. rewrite app_nil_r in Hm.
  eapply (moved_trans h h1 _ [] [] _ q); [by apply moved_same|].
  eapply moved_then_same; [exact Hm|done..].
Qed.

(** The packet as the history keeps it. *)
Definition sent_record (now : Z) (p : Packet) : Packet :=
  mkPacket (PacketNumber p) (GetFramesForRetransmission p) (p_Length p) (EncryptionLevel p) now.

Definition kept_record (now : Z) (p : Packet) : list Packet :=
  if HasRetransmittableFrames (p_Frames p) then [sent_record now p] else [].

Lemma HasRetransmittableFrames_strip fs :
  HasRetransmittableFrames fs = negb (length (stripNonRetransmittableFrames fs) =? 0)%nat.
Proof.
  unfold HasRetransmittableFrames, stripNonRetransmittableFrames.
  induction fs as [|f fs IH]; [done|]. cbn. rewrite IH. by destruct (IsFrameRetransmittable f).
Qed.

Lemma alarm_update_keeps h :
  let h' := updateLossDetectionAlarm h in
  lastSentPacketNumber h' = lastSentPacketNumber h ∧ packetHistory h' = packetHistory h ∧
  sph_queue h' = sph_queue h ∧ bytesInFlight h' = bytesInFlight h.
Proof.
  unfold updateLossDetectionAlarm.
  repeat match goal with |- context [match ?x with _ => _ end] => destruct x eqn:? end; simpl; split_and!; congruence.
Qed.

Lemma ledger_push lastSent hist b p :
  ledger_ok lastSent hist b → lastSent < PacketNumber p → 0 <= p_Length p < 2^32 →
  Z.of_nat (length hist) + 1 <= MaxTrackedSentPackets →
  ledger_ok (PacketNumber p) (hist ++ [p]) (b +u64 p_Length p).
Proof.
  intros Hl Hn Hlen Hmax. pose proof (ledger_u64 _ _ _ Hl) as Hb. destruct Hl as [Hs Hsent Hls _ Hb'].
  rewrite Forall_forall in Hsent. split.
  - apply StronglySorted_app_2; [|done|by repeat constructor].
    intros q r Hq ->%list_elem_of_singleton. specialize (Hsent q Hq). unfold sent_before. simpl in *. lia.
  - apply Forall_app. split; [|by repeat constructor]. apply Forall_forall. intros q Hq.
    specialize (Hsent q Hq). simpl in *. lia.
  - apply Forall_app. by split; [|apply Forall_singleton].
  - rewrite length_app. simpl. lia.
  - rewrite total_length_app. simpl. rewrite u64_id by (unfold is_u64; lia). lia.
Qed.

Lemma ledger_number lastSent hist b n : ledger_ok lastSent hist b → lastSent < n → ledger_ok n hist b.
Proof. intros [? Hs ? ? ?] Hn. split; try done. eapply Forall_impl; [exact Hs|]. simpl. lia. Qed.

Lemma SentPacket_ok now h p e h' :
  handler_ok h → 0 <= p_Length p < 2^32 → SentPacket now h p = (e, h') →
  handler_ok h' ∧ sph_queue h' = sph_queue h ∧
  packetHistory h' = packetHistory h ++
    match e with Some _ => [] | None => kept_record now p end.
Proof.
  intros Hok Hlen. unfold SentPacket.
  destruct (Z.leb_spec (PacketNumber p) (lastSentPacketNumber h)) as [Hn|Hn];
    [intros [= <- <-]; by rewrite app_nil_r|].
  rewrite Z.gtb_ltb. destruct (Z.ltb_spec MaxTrackedSentPackets
    (Z.of_nat (length (sph_queue h) + length (packetHistory h) + 1))) as [Hm|Hm];
    [intros [= <- <-]; by rewrite app_nil_r|].
  intros [= <- <-]. match goal with |- context [updateLossDetectionAlarm ?g] =>
    destruct (alarm_update_keeps g) as (E1 & E2 & E3 & E4) end.
  unfold handler_ok. rewrite E1, E2, E3, E4.
  unfold kept_record. rewrite HasRetransmittableFrames_strip.
  destruct (negb _); simpl; (split; [|split; [done|by rewrite ?app_nil_r]]).
  - apply (ledger_push _ _ _ (sent_record now p) Hok); simpl; lia.
  - by eapply ledger_number.
Qed.

(** *** Runs of a handler *)

Inductive handler_op : Type :=
  | OpSent (now : Z) (p : Packet)
  | OpAck (now : Z) (f : AckFrame) (withPacketNumber rcvTime : Z)
  | OpClosePath (now : Z) (f : ClosePathFrame) (withPacketNumber : Z)
  | OpAlarm (now : Z) (onRTO : option (Z → bool))
  | OpInflightLost (now : Z)
  | OpDequeue
  | OpDuplicate (p : Packet)
  | OpStopWaiting (force : bool).

(** A handler with the record of what happened: the packets given to it that have to be kept, the
    packets it handed out for retransmission, and the acknowledgements it received. *)
Record handler_run : Type := mkRun {
  run_handler : sentPacketHandler C;
  run_sent : list Packet;
  run_handed : list Packet;
  run_acks : list (Z → bool);
}.

Definition run_op (t : handler_run) (o : handler_op) : handler_run :=
  let h := run_handler t in
  match o with
  | OpSent now p =>
      let '(e, h) := SentPacket now h p in
      mkRun h (run_sent t ++ match e with Some _ => [] | None => kept_record now p end)
        (run_handed t) (run_acks t)
  | OpAck now f n rcv => mkRun (ReceivedAck now h f n rcv).2 (run_sent t) (run_handed t) (AcksPacket f :: run_acks t)
  | OpClosePath now f n =>
      mkRun (ReceivedClosePath now h f n).2 (run_sent t) (run_handed t) (ClosePathFrame_AcksPacket f :: run_acks t)
  | OpAlarm now onRTO => mkRun (OnAlarm now onRTO h) (run_sent t) (run_handed t) (run_acks t)
  | OpInflightLost now => mkRun (SetInflightAsLost now h) (run_sent t) (run_handed t) (run_acks t)
  | OpDequeue =>
      let '(p, h) := DequeuePacketForRetransmission h in
      mkRun h (run_sent t) (run_handed t ++ option_list p) (run_acks t)
  | OpDuplicate p => mkRun (DuplicatePacket h p) (run_sent t) (run_handed t) (run_acks t)
  | OpStopWaiting force => mkRun (GetStopWaitingFrame h force).2 (run_sent t) (run_handed t) (run_acks t)
  end.

Definition op_ok (o : handler_op) : Prop :=
  match o with
  | OpSent _ p => 0 <= p_Length p < 2^32
  | OpAck _ f _ _ => AckFrame_ok f
  | OpClosePath _ f _ => ClosePathFrame_ok f
  | _ => True
  end.

Definition initial_run (cong : C) (r : RTTStats) : handler_run := mkRun (NewSentPacketHandler r cong) [] [] [].
Definition run_ops (t : handler_run) (ops : list handler_op) : handler_run := foldl run_op t ops.

(** Where a packet that was sent is. *)
Definition accounted (t : handler_run) (p : Packet) : Prop :=
  p ∈ packetHistory (run_handler t) ∨ p ∈ sph_queue (run_handler t) ∨ p ∈ run_handed t ∨
  Exists (λ acks, acks (PacketNumber p) = true) (run_acks t).

Definition run_ok (t : handler_run) : Prop :=
  handler_ok (run_handler t) ∧ Forall (accounted t) (run_sent t).

Lemma run_moved t h' a q acks :
  run_ok t → moved (run_handler t) h' a q →
  Forall (λ p, Exists (λ f, f (PacketNumber p) = true) acks) a → (∀ f, f ∈ run_acks t → f ∈ acks) →
  run_ok (mkRun h' (run_sent t) (run_handed t) acks).
Proof.
  intros [_ Hacc] [Hok Hh Hq _] Ha Hinc. split; [done|]. eapply Forall_impl; [exact Hacc|].
  intros p Hp. unfold accounted in *. cbn [run_handler run_handed run_acks]. rewrite Hq, elem_of_app.
  rewrite Hh, !elem_of_app in Hp. destruct Hp as [[Hp|[Hp|Hp]]|[Hp|[Hp|Hp]]]; auto.
  - rewrite Forall_forall in Ha. by right; right; right; apply Ha.
  - right. right. right. rewrite !Exists_exists in *. destruct Hp as (f & Hf & Hp). eauto.
Qed.

Lemma run_op_ok t o : op_ok o → run_ok t → run_ok (run_op t o).
Proof.
  intros Ho Ht. pose proof Ht as [Hok Hacc].
  destruct o as [now p|now f n rcv|now f n|now onRTO|now| |p|force]; cbn [run_op].
  - destruct (SentPacket now (run_handler t) p) as [e h'] eqn:E.
    destruct (SentPacket_ok now _ p e h' Hok Ho E) as (Hok' & Hq & Hh).
    split; [done|]. apply Forall_app. unfold accounted. cbn [run_handler run_handed run_acks run_sent].
    rewrite Hh, Hq. split.
    + eapply Forall_impl; [exact Hacc|]. intros p0 Hp0. rewrite elem_of_app. unfold accounted in Hp0. tauto.
    + apply Forall_forall. intros p0 Hp0. rewrite elem_of_app. tauto.
  - destruct (ReceivedAck_moved now _ f n rcv Hok Ho) as (a & q & Hm & Ha).
    eapply run_moved; [done|exact Hm| |by constructor]. eapply Forall_impl; [exact Ha|]. by constructor.
  - destruct (ReceivedClosePath_moved now _ f n Hok Ho) as (a & q & Hm & Ha).
    eapply run_moved; [done|exact Hm| |by constructor]. eapply Forall_impl; [exact Ha|]. by constructor.
  - destruct (OnAlarm_moved now onRTO _ Hok) as [q Hq]. by eapply run_moved.
  - destruct (inflight_lost_moved now _ Hok) as [q Hq]. by eapply run_moved.
  - unfold DequeuePacketForRetransmission. destruct (sph_queue (run_handler t)) as [|p queue] eqn:E.
    + cbn. rewrite app_nil_r. by destruct t.
    + split; [exact Hok|]. eapply Forall_impl; [exact Hacc|]. intros p0. unfold accounted. rewrite E. simpl.
      rewrite elem_of_app, elem_of_cons, list_elem_of_singleton. tauto.
  - split; [exact Hok|]. eapply Forall_impl; [exact Hacc|]. intros p0. unfold accounted. simpl.
    rewrite elem_of_app. tauto.
  - assert ((GetStopWaitingFrame (run_handler t) force).2
      = set_history (run_handler t) (packetHistory (run_handler t))
          (sw_GetStopWaitingFrame (stopWaiting (run_handler t)) force).2 (sph_queue (run_handler t))
          (bytesInFlight (run_handler t))) as ->.
    { unfold GetStopWaitingFrame. by destruct (sw_GetStopWaitingFrame _ force). }
    eapply run_moved; [done|by apply moved_same|done..].
Qed.

Lemma run_ops_ok cong r ops : Forall op_ok ops → run_ok (run_ops (initial_run cong r) ops).
Proof.
  intros Ho. assert (run_ok (initial_run cong r)) as Hinit.
  { split; [|constructor]. by split; try constructor. }
  revert Hinit. generalize (initial_run cong r). induction Ho as [|o ops Ho _ IH]; intros t Ht; [done|].
  by apply IH, run_op_ok.
Qed.

(** C9: whatever sequence of operations a handler sees -- packets sent, ACK and CLOSE_PATH frames
    with any well-formed content, alarms with any outcome of the callback, losses, retransmissions --
    the history of outstanding packets is in strictly increasing order of packet numbers, holds only
    numbers that were sent and at most MaxTrackedSentPackets packets, and the bytes in flight are
    exactly the sum of the lengths of the outstanding packets: the unsigned counter never wraps. *)
Theorem bytes_in_flight_exact (cong : C) (r : RTTStats) (ops : list handler_op) :
  Forall op_ok ops →
  let h := run_handler (run_ops (initial_run cong r) ops) in
  StronglySorted sent_before (packetHistory h) ∧
  Forall (λ p, PacketNumber p <= lastSentPacketNumber h) (packetHistory h) ∧
  Z.of_nat (length (packetHistory h)) <= MaxTrackedSentPackets ∧
  bytesInFlight h = total_length (packetHistory h) ∧ 0 <= bytesInFlight h < 2^63.
Proof.
  intros Ho h. destruct (run_ops_ok cong r ops Ho) as [Hok _].
  pose proof (ledger_u64 _ _ _ Hok). by destruct Hok.
Qed.

(** C8: no packet with retransmittable frames is forgotten: after any sequence of operations every
    such packet that was sent is still outstanding, or waits in the retransmission queue, or was
    handed out for retransmission -- with the same retransmittable frames --, or was acknowledged by
    a frame the peer sent. *)
Theorem no_packet_forgotten (cong : C) (r : RTTStats) (ops : list handler_op) (p : Packet) :
  Forall op_ok ops →
  let t := run_ops (initial_run cong r) ops in
  p ∈ run_sent t →
  p ∈ packetHistory (run_handler t) ∨ p ∈ sph_queue (run_handler t) ∨ p ∈ run_handed t ∨
  ∃ acks, acks ∈ run_acks t ∧ acks (PacketNumber p) = true.
Proof.
  intros Ho t Hp. destruct (run_ops_ok cong r ops Ho) as [_ Hacc]. rewrite Forall_forall in Hacc.
  destruct (Hacc p Hp) as [?|[?|[?|Ha]]]; [by auto..|]. rewrite Exists_exists in Ha. by auto.
Qed.

End Ledger.

(** ** The alarm *)

Section Alarm.
Context {C : Type} `{SendAlgorithmLaws C}.
Implicit Types h : sentPacketHandler C.

Definition times_ok h : Prop := 0 <= lossTime h ∧ 0 <= lastSentTime h ∧ 0 <= smoothedRTT (rttStats h).

Definition same_times h h' : Prop :=
  lossTime h' = lossTime h ∧ lastSentTime h' = lastSentTime h ∧ rttStats h' = rttStats h ∧ alarm h' = alarm h.

Lemma times_ok_same h h' : times_ok h → same_times h h' → times_ok h'.
Proof. intros Hok (E1 & E2 & E3 & _). unfold times_ok. by rewrite E1, E2, E3. Qed.

Lemma same_times_refl h : same_times h h.
Proof. done. Qed.

Lemma same_times_trans h1 h2 h3 : same_times h1 h2 → same_times h2 h3 → same_times h1 h3.
Proof. unfold same_times. intuition congruence. Qed.

Lemma foldl_same_times (f : sentPacketHandler C → Packet → sentPacketHandler C) ps h :
  (∀ h p, same_times h (f h p)) → same_times h (foldl f h ps).
Proof.
  intros Hf. revert h. induction ps as [|p ps IH]; intros h; [done|]. simpl. by eapply same_times_trans.
Qed.

(** An update sets the alarm whenever a packet is outstanding. *)
Lemma alarm_update_armed h :
  times_ok h → times_ok (updateLossDetectionAlarm h) ∧
  (packetHistory h <> [] → 0 < alarm (updateLossDetectionAlarm h)).
Proof.
  intros Hok. pose proof Hok as (Hl & Ht & Hr).
  pose proof (cong_SmoothedRTT_nonneg (congestion h) (rttStats h) Hr) as Hs.
  unfold updateLossDetectionAlarm. destruct (packetHistory h) as [|p hist] eqn:E; [by split|].
  destruct (Z.eqb_spec (lossTime h) 0) as [E0|E0]; cbn [negb].
  2:{ split; [done|]. intros _. change (0 < lossTime h). lia. }
  destruct (_ && _); (split; [done|]); intros _; cbn [alarm set_alarm set_timers].
  - assert (0 < computeTLPTimeout h); [|lia].
    unfold computeTLPTimeout, MaxDuration, minTailLossProbeTimeout, minRetransmissionTime, Millisecond, Microsecond.
    assert (0 <= Z.quot (cong_SmoothedRTT (congestion h) (rttStats h) * 3) 2) by (apply Z.quot_pos; lia).
    change (200 * (1000 * 1000) / 2) with 100000000.
    destruct (hasMultipleOutstandingRetransmittablePackets h);
      match goal with |- context [?a >? ?b] => destruct (Z.gtb_spec a b) end; lia.
  - assert (0 < MaxDuration (computeRTOTimeout h) minRetransmissionTime); [|lia].
    unfold MaxDuration, minRetransmissionTime, Millisecond, Microsecond.
    match goal with |- context [?a >? ?b] => destruct (Z.gtb_spec a b) end; lia.
Qed.

Lemma lost_packets_time now delay largest hist loss :
  0 <= now → 0 <= loss → 0 <= (lost_packets now delay largest hist loss).2.
Proof.
  intros Hn. revert loss. induction hist as [|p hist IH]; intros loss Hl; simpl; [done|].
  destruct (_ >? largest); [done|]. destruct (Z.gtb_spec (now - SendTime p) delay).
  - specialize (IH loss Hl). by destruct (lost_packets _ _ _ _ loss).
  - apply IH. destruct (loss =? 0); lia.
Qed.

Lemma detect_times now h : 0 <= now → times_ok h → times_ok (detectLostPackets now h).
Proof.
  intros Hn (Hl & Ht & Hr). unfold detectLostPackets. set (delay := delay_until_lost _).
  pose proof (lost_packets_time now delay (LargestAcked h) (packetHistory h) 0 Hn) as Hloss.
  destruct (lost_packets _ _ _ _ _) as [lost loss]. simpl in Hloss.
  eapply times_ok_same; [|by apply foldl_same_times]. split_and!; [by apply Hloss|done..].
Qed.

Lemma retransmit_all_times now k h : same_times h (retransmit_all now k h).
Proof.
  revert h. induction k as [|k IH]; intros h; simpl; [done|]. destruct (packetHistory h); [done|].
  eapply same_times_trans; [|apply IH]. done.
Qed.

Lemma oldest_times now h : same_times h (retransmitOldestPacket now h).
Proof. unfold retransmitOldestPacket. by destruct (packetHistory h). Qed.

(** The invariant: the clock values are not negative, and the alarm is set as long as a packet with
    a frame to retransmit is outstanding. *)
Definition alarm_ok h : Prop := times_ok h ∧ (hasOutstandingRetransmittablePacket h = true → 0 < alarm h).

Lemma outstanding_nonempty h : hasOutstandingRetransmittablePacket h = true → packetHistory h <> [].
Proof. unfold hasOutstandingRetransmittablePacket. by destruct (packetHistory h). Qed.

Lemma alarm_ok_update h : times_ok h → alarm_ok (updateLossDetectionAlarm h).
Proof.
  intros Hok. destruct (alarm_update_armed h Hok) as [Ht Ha]. split; [done|].
  intros Ho%outstanding_nonempty. apply Ha. destruct (alarm_update_keeps h) as (_ & E & _). by rewrite E in Ho.
Qed.

(** Taking packets out keeps a set alarm good. *)
Lemma alarm_ok_moved h h' a q : alarm_ok h → moved h h' a q → same_times h h' → alarm_ok h'.
Proof.
  intros [Ht Ha] Hm Hs. split; [by eapply times_ok_same|]. destruct Hs as (_ & _ & _ & ->).
  intros Ho. apply Ha. unfold hasOutstandingRetransmittablePacket in *. rewrite existsb_exists in *.
  destruct Ho as (p & Hp & Hr). exists p. split; [|done]. rewrite <- list_elem_of_In in *.
  rewrite (moved_history _ _ _ _ Hm), !elem_of_app. auto.
Qed.

Lemma OnAlarm_alarm now onRTO h : 0 <= now → alarm_ok h → alarm_ok (OnAlarm now onRTO h).
Proof.
  intros Hn [Ht _]. unfold OnAlarm. destruct (hasOutstandingRetransmittablePacket h) eqn:Eo; cbn [negb].
  2:{ split; [done|]. intros Ho. change (hasOutstandingRetransmittablePacket h = true) in Ho. congruence. }
  apply alarm_ok_update. destruct (negb (lossTime h =? 0)); [by apply detect_times|].
  destruct (_ <? _); [|destruct (match onRTO with Some f => _ | None => _ end)].
  - unfold retransmitTLP. by destruct (last (packetHistory h)).
  - apply (times_ok_same h); [done|]. apply retransmit_all_times.
  - apply (times_ok_same h); [done|].
    apply (same_times_trans _ (retransmitOldestPacket now h)); apply oldest_times.
Qed.

Lemma SentPacket_alarm now h p : 0 <= now → alarm_ok h → alarm_ok (SentPacket now h p).2.
Proof.
  intros Hn Hok. pose proof Hok as [(Hl & Ht & Hr) _]. unfold SentPacket.
  destruct (_ <=? _); [done|]. destruct (_ >? _); [done|]. cbn [snd]. apply alarm_ok_update.
  by destruct (negb _).
Qed.

Lemma ReceivedAck_alarm now h f n rcvTime :
  0 <= now → handler_ok h → alarm_ok h → AckFrame_ok f → alarm_ok (ReceivedAck now h f n rcvTime).2.
Proof.
  intros Hn Hh Hok (_ & _ & _ & Hf). pose proof Hok as [(Hl & Ht & Hr) _]. unfold ReceivedAck.
  destruct (_ >? _); [done|]. destruct (n <=? _); [done|].
  destruct (_ <=? largestInOrderAcked _); [done|]. destruct (skippedPacketsAcked _ f); [done|].
  set (h0 := set_numbers (set_numbers h _ _ _ _ _) _ _ _ _ _).
  unfold maybeUpdateRTT. destruct (find_packet _ _) as [p|]; cbv iota beta;
  match goal with |- context [determineNewlyAckedPackets ?g f] => set (h1 := g) in * end;
  (assert (times_ok h1) as Ht1 by (split_and!; [done|done|try apply UpdateRTT_nonneg; exact Hr]));
  unfold determineNewlyAckedPackets; rewrite newly_acked_frame by (apply Hh || exact Hf); cbn [snd];
  match goal with |- context [updateLossDetectionAlarm ?g] => change (alarm_ok (updateLossDetectionAlarm g)) end;
  apply alarm_ok_update, detect_times, (times_ok_same h1); try done; by apply foldl_same_times.
Qed.

Lemma inflight_lost_alarm now h : handler_ok h → alarm_ok h → alarm_ok (SetInflightAsLost now h).
Proof.
  intros Hh Hok. destruct (inflight_lost_moved now h Hh) as [q Hq].
  eapply alarm_ok_moved; [exact Hok|exact Hq|].
  apply (same_times_trans _ (add_losses h (length (acked_prefix (LargestAcked h) (packetHistory h))))); [done|].
  by apply foldl_same_times.
Qed.

Lemma ReceivedClosePath_alarm now h f n :
  handler_ok h → alarm_ok h → ClosePathFrame_ok f → alarm_ok (ReceivedClosePath now h f n).2.
Proof.
  intros Hh Hok (_ & _ & _ & Hf). unfold ReceivedClosePath.
  destruct (_ >? _); [done|]. destruct (n <=? _); [done|]. destruct (skippedPacketsAckedClosePath _ f); [done|].
  match goal with |- context [determineNewlyAckedPacketsClosePath ?g f] => set (h1 := g) in * end.
  unfold determineNewlyAckedPacketsClosePath. rewrite newly_acked_frame by (apply Hh || exact Hf). cbn [snd].
  destruct (received_acks_moved now h1 (ClosePathFrame_AcksPacket f) _ Hh eq_refl) as [Ha _].
  match goal with |- context [SetInflightAsLost now ?g] => change (alarm_ok (SetInflightAsLost now g)) end.
  apply inflight_lost_alarm; [apply Ha|]. assert (alarm_ok h1) as Hok1 by exact Hok.
  eapply (alarm_ok_moved h1); [exact Hok1|exact Ha|]. by apply foldl_same_times.
Qed.

(** The time of an operation is not before the zero time. *)
Definition op_time_ok (o : handler_op) : Prop :=
  match o with
  | OpSent now _ | OpAck now _ _ _ | OpClosePath now _ _ | OpAlarm now _ | OpInflightLost now => 0 <= now
  | _ => True
  end.

Lemma run_op_alarm t o :
  op_ok o → op_time_ok o → run_ok t → alarm_ok (run_handler t) → alarm_ok (run_handler (run_op t o)).
Proof.
  intros Ho Hn [Hh _] Hok. destruct o as [now p|now f n rcv|now f n|now onRTO|now| |p|force]; cbn [run_op].
  - pose proof (SentPacket_alarm now (run_handler t) p Hn Hok). by destruct (SentPacket _ _ _).
  - by apply ReceivedAck_alarm.
  - by apply ReceivedClosePath_alarm.
  - by apply OnAlarm_alarm.
  - by apply inflight_lost_alarm.
  - unfold DequeuePacketForRetransmission. by destruct (sph_queue (run_handler t)).
  - done.
  - unfold GetStopWaitingFrame. by destruct (sw_GetStopWaitingFrame _ force).
Qed.

(** The loss time after a scan is that of the first packet up to the largest acknowledged one that is not lost yet. *)
Lemma lost_packets_loss now delay largest hist :
  0 < now → StronglySorted sent_before hist →
  (lost_packets now delay largest hist 0).2
  = match List.filter (λ p, (PacketNumber p <=? largest) && negb (now - SendTime p >? delay)) hist with
    | [] => 0 | p :: _ => SendTime p + delay end.
Proof.
  intros Hn Hs. assert (∀ hist loss, 0 < loss → (lost_packets now delay largest hist loss).2 = loss) as Hkeep.
  { clear hist Hs. induction hist as [|p hist IH]; intros loss Hl; cbn [lost_packets]; [done|].
    destruct (_ >? largest); [done|]. destruct (_ >? delay); [|rewrite (proj2 (Z.eqb_neq _ _)) by lia; by apply IH].
    specialize (IH loss Hl). by destruct (lost_packets _ _ _ _ loss). }
  induction Hs as [|p hist Hs IH Hp]; cbn [lost_packets List.filter]; [done|].
  destruct (Z.gtb_spec (PacketNumber p) largest) as [Hg|Hg].
  - rewrite (proj2 (Z.leb_gt _ _)) by lia. cbn [andb]. rewrite filter_none; [done|].
    eapply Forall_impl; [exact Hp|]. intros q Hq. unfold sent_before in Hq. cbv beta. by rewrite (proj2 (Z.leb_gt _ _)) by lia.
  - rewrite (proj2 (Z.leb_le _ _)) by lia. cbn [andb]. destruct (Z.gtb_spec (now - SendTime p) delay); cbn [negb].
    + rewrite <- IH. by destruct (lost_packets _ _ _ _ 0).
    + rewrite Hkeep by (destruct (0 =? 0) eqn:E; [lia|done]). cbn. lia.
Qed.

Lemma detect_loss_time now h :
  0 < now → handler_ok h →
  lossTime (detectLostPackets now h)
  = match List.filter (λ p, (PacketNumber p <=? LargestAcked h) && negb (overdue now h p)) (packetHistory h) with
    | [] => 0 | p :: _ => SendTime p + loss_delay h end.
Proof.
  intros Hn Hok. unfold detectLostPackets. fold (loss_delay h).
  pose proof (lost_packets_loss now (loss_delay h) (LargestAcked h) (packetHistory h) Hn (history_sorted _ _ _ Hok)) as Hl.
  unfold overdue. rewrite <- Hl. clear Hl. destruct (lost_packets _ _ _ _ _) as [lost loss]. cbn [snd].
  match goal with |- lossTime (foldl (lose now) ?h0 lost) = _ =>
    destruct (foldl_same_times (lose now) lost h0) as (-> & _); done end.
Qed.

Lemma run_alarm_ok cong r ops :
  0 <= smoothedRTT r → Forall op_ok ops → Forall op_time_ok ops → alarm_ok (run_handler (run_ops (initial_run cong r) ops)).
Proof.
  intros Hr Ho Ht. induction ops as [|o ops IH] using rev_ind; [by split|].
  apply Forall_app in Ho as [Ho [Hol _]%Forall_cons]. apply Forall_app in Ht as [Ht [Htl _]%Forall_cons].
  unfold run_ops. rewrite foldl_app. apply run_op_alarm; [done|done|by apply run_ops_ok|by apply IH].
Qed.

Lemma alarm_update_loss h : lossTime (updateLossDetectionAlarm h) = lossTime h.
Proof.
  unfold updateLossDetectionAlarm. by repeat match goal with |- context [match ?x with _ => _ end] => destruct x end.
Qed.

(** The alarm is set to the loss time, if there is one. *)
Lemma alarm_update_fires h :
  lossTime h <> 0 → packetHistory (updateLossDetectionAlarm h) <> [] →
  alarm (updateLossDetectionAlarm h) = lossTime (updateLossDetectionAlarm h).
Proof.
  intros Hl Hne. destruct (alarm_update_keeps h) as (_ & E & _). rewrite E in Hne. unfold updateLossDetectionAlarm.
  destruct (packetHistory h); [done|]. by rewrite (proj2 (Z.eqb_neq (lossTime h) 0) Hl).
Qed.

(** C25: a path does not wait forever for an acknowledgement.  After any sequence of operations, whatever the congestion controller
    (of which only a non-negative RTT is required), the loss detection alarm is set whenever a packet with a frame to
    retransmit is outstanding.  When the alarm fires, [alarm_due] is moved from the history to the end of the retransmission queue, and
    nothing else.  Without a loss time that is the newest packet, for the first two alarms, and then the two oldest packets, or all if
    the path may have failed: at least one packet.  With a loss time it is every packet up to the largest acknowledged one that was sent more than 9/8 of the
    RTT ago; and the new loss time, to which the alarm is set, is when the first of the others reaches that age, or none if there are no others,
    so that the next alarm retransmits. *)
Theorem alarm_armed_while_outstanding (cong : C) (r : RTTStats) (ops : list handler_op) (now : Z) (onRTO : option (Z → bool)) :
  0 <= smoothedRTT r → Forall op_ok ops → Forall op_time_ok ops → 0 < now →
  let h := run_handler (run_ops (initial_run cong r) ops) in
  let h' := OnAlarm now onRTO h in
  hasOutstandingRetransmittablePacket h = true →
  0 < alarm h ∧
  sph_queue h' = sph_queue h ++ alarm_due now onRTO h ∧ packetHistory h ≡ₚ alarm_due now onRTO h ++ packetHistory h' ∧
  (lossTime h = 0 → alarm_due now onRTO h <> []) ∧
  (lossTime h <> 0 → lossTime h' =
     match List.filter (λ p, (PacketNumber p <=? LargestAcked h) && negb (overdue now h p)) (packetHistory h) with
     | [] => 0 | p :: _ => SendTime p + loss_delay h end) ∧
  (hasOutstandingRetransmittablePacket h' = true → 0 < alarm h' ∧ (lossTime h' <> 0 → alarm h' = lossTime h')).
Proof.
  intros Hr Ho Ht Hn h h' Hout. destruct (run_ops_ok cong r ops Ho) as [Hok _]. fold h in Hok.
  pose proof (run_alarm_ok cong r ops Hr Ho Ht) as Hal. fold h in Hal.
  pose proof (OnAlarm_due now onRTO h Hok Hout) as Hm. pose proof (OnAlarm_alarm now onRTO h ltac:(lia) Hal) as [_ Hal'].
  split; [by apply Hal|]. split; [apply Hm|]. split; [apply Hm|]. split; [|split].
  - intros E. unfold alarm_due. rewrite E. cbn. pose proof (outstanding_nonempty h Hout) as Hne.
    destruct (tlpCount h <? _); [|destruct (match onRTO with Some f => _ | None => _ end); [done|by destruct (packetHistory h)]].
    destruct (last (packetHistory h)) eqn:El; [done|]. by apply last_None in El.
  - intros E. unfold h', OnAlarm. rewrite Hout, (proj2 (Z.eqb_neq (lossTime h) 0) E). cbn [negb]. rewrite alarm_update_loss. by apply detect_loss_time.
  - intros Hout'. split; [by apply Hal'|]. intros Hl. unfold h', OnAlarm in *. rewrite Hout in *. cbn [negb] in *.
    apply alarm_update_fires; [|by apply outstanding_nonempty in Hout'].
    by rewrite alarm_update_loss in Hl.
Qed.

End Alarm.

(** ** Examples *)

(** A controller with a fixed window, which reports the RTT of the path. *)
Definition fixed_window : SendAlgorithm Z := {|
  OnPacketSent := λ w _ _ _ _ _ _, w;
  GetCongestionWindow := λ w, w;
  GetSlowStartThreshold := λ w, w;
  MaybeExitSlowStart := λ w _, w;
  OnPacketAcked := λ w _ _ _ _ _, w;
  OnPacketLost := λ w _ _ _ _ _, w;
  OnRetransmissionTimeout := λ w _, w;
  RetransmissionDelay := λ _ r, smoothedRTT r + 4 * meanDeviation r;
  cong_SmoothedRTT := λ _ r, smoothedRTT r;
|}.

Lemma fixed_window_laws : @SendAlgorithmLaws Z fixed_window.
Proof. by split. Qed.

Definition ping : frame := FPing mkPingFrame.

Definition sample_packet (n : Z) : Packet := mkPacket n [ping] 100 0 0.

(** ACK for 3 and 1: packet 2 is missing. *)
Definition sample_handler_ack : AckFrame := mkAckFrame 0 3 1 [mkAckRange 3 3; mkAckRange 1 1] 0 0.

Definition sample_ops : list handler_op :=
  [OpSent 1000 (sample_packet 1); OpSent 2000 (sample_packet 2); OpSent 3000 (sample_packet 3);
   OpSent 4000 (sample_packet 4); OpAck 9000 sample_handler_ack 1 8000; OpDequeue].

Definition sample_run : handler_run := @run_ops Z fixed_window (initial_run 10000 zeroRTTStats) sample_ops.

Lemma sample_handler_ack_ok : AckFrame_ok sample_handler_ack.
Proof. unfold AckFrame_ok, is_u8. simpl. split_and!; done || lia. Qed.

Lemma sample_ops_ok : Forall op_ok sample_ops.
Proof. repeat (constructor; [first [exact sample_handler_ack_ok|cbn; lia|done]|]). constructor. Qed.

Lemma sample_ops_times : Forall op_time_ok sample_ops.
Proof. repeat (constructor; [first [cbn; lia|done]|]). constructor. Qed.

Lemma newly_acked_packets_witness :
  let h := NewSentPacketHandler zeroRTTStats 10000 in
  let h := @set_history Z h (map sample_packet [1; 2; 3; 4]) (mkStopWaiting 0 0 None) [] 400 in
  determineNewlyAckedPackets h sample_handler_ack = Ok [sample_packet 1; sample_packet 3].
Proof.
  cbv zeta. match goal with |- determineNewlyAckedPackets ?h _ = _ =>
    assert (StronglySorted sent_before (packetHistory h)) as Hs by (vm_compute; repeat constructor);
    rewrite (proj1 (newly_acked_packets h sample_handler_ack (ack_cp sample_handler_ack) Hs
      sample_handler_ack_ok sample_handler_ack_ok)) end.
  reflexivity.
Defined.

Lemma bytes_in_flight_exact_witness :
  map PacketNumber (packetHistory (run_handler sample_run)) = [4] ∧
  bytesInFlight (run_handler sample_run) = total_length (packetHistory (run_handler sample_run)) ∧
  bytesInFlight (run_handler sample_run) = 100.
Proof.
  split; [vm_compute; reflexivity|]. split; [|vm_compute; reflexivity].
  apply (@bytes_in_flight_exact Z fixed_window 10000 zeroRTTStats sample_ops sample_ops_ok).
Defined.

Lemma no_packet_forgotten_witness :
  map PacketNumber (run_sent sample_run) = [1; 2; 3; 4] ∧ map PacketNumber (run_handed sample_run) = [2] ∧
  (let p := sent_record 2000 (sample_packet 2) in
   p ∈ packetHistory (run_handler sample_run) ∨ p ∈ sph_queue (run_handler sample_run) ∨
   p ∈ run_handed sample_run ∨ ∃ acks, acks ∈ run_acks sample_run ∧ acks (PacketNumber p) = true).
Proof.
  split; [vm_compute; reflexivity|]. split; [vm_compute; reflexivity|].
  apply (@no_packet_forgotten Z fixed_window 10000 zeroRTTStats sample_ops _ sample_ops_ok).
  vm_compute. do 1 right. left.
Defined.

Lemma alarm_armed_while_outstanding_witness :
  let h := run_handler (@run_ops Z fixed_window (initial_run 10000 zeroRTTStats) sample_ops) in
  let h' := @OnAlarm Z fixed_window 400000000 None h in
  hasOutstandingRetransmittablePacket h = true ∧ 0 < alarm h ∧ lossTime h = 0 ∧
  map PacketNumber (alarm_due 400000000 None h) = [4] ∧
  sph_queue h' = sph_queue h ++ alarm_due 400000000 None h ∧ alarm_due 400000000 None h <> [].
Proof.
  pose proof (@alarm_armed_while_outstanding Z fixed_window fixed_window_laws 10000 zeroRTTStats sample_ops 400000000 None) as H.
  cbv zeta in H |- *. set (h := run_handler _) in *.
  assert (hasOutstandingRetransmittablePacket h = true) as Ho by (vm_compute; reflexivity).
  assert (lossTime h = 0) as Hl by (vm_compute; reflexivity).
  assert (map PacketNumber (alarm_due 400000000 None h) = [4]) as Hd by (vm_compute; reflexivity).
  clearbody h. destruct H as (H1 & H2 & _ & H4 & _);
    [vm_compute; congruence|exact sample_ops_ok|exact sample_ops_times|reflexivity|exact Ho|].
  split_and!; auto.
Defined.

(** *** Two observations *)

(** After 35 timeouts in a row the exponential backoff leaves the range of the duration: the shift
    gives a negative number, and the alarm falls back from 60 seconds to the 200 ms minimum. *)
Lemma rto_backoff_collapses :
  let timeout k := MaxDuration (@computeRTOTimeout Z fixed_window
    (set_timers (NewSentPacketHandler zeroRTTStats 10000) k 2 0 0 0)) minRetransmissionTime in
  timeout 0 = 500 * Millisecond ∧ timeout 7 = maxRTOTimeout ∧ timeout 34 = maxRTOTimeout ∧
  timeout 35 = minRetransmissionTime.
Proof. by vm_compute. Qed.

(** After a tail loss probe the STOP_WAITING frame announces a number above packets that are still
    outstanding. *)
Lemma stop_waiting_above_outstanding :
  let t := @run_ops Z fixed_window (initial_run 10000 zeroRTTStats)
    [OpSent 1000 (sample_packet 1); OpSent 2000 (sample_packet 2); OpSent 3000 (sample_packet 3);
     OpAlarm 600000000 None] in
  map PacketNumber (packetHistory (run_handler t)) = [1; 2] ∧ GetLeastUnacked (run_handler t) = 1 ∧
  sw_LeastUnacked <$> (GetStopWaitingFrame (run_handler t) false).1 = Some 4.
Proof. by vm_compute. Qed.
