(* ===== verification/Cubic.v ===== *)
(** * The Cubic congestion controller

    congestion/cubic.go, cubic_sender.go, stats.go and bandwidth.go: the controller of a path unless
    another one is given, as an instance of [SendAlgorithm].  Times are nanoseconds, the zero time is
    0, and the clock is an argument.  A float32 is a fraction; every operation is rounded to 24
    significant bits, half to even (the numbers here are far from the ends of its range).
    [math.Cbrt] is taken at its integer part, which is all that the source keeps of it; its argument
    is below [2^53] for windows of up to two million packets. *)

From S2P Require Import Prelude ByteOrder Protocol Congestion.

(** ** float32 *)

(** Rounding of a fraction to the nearest integer, half to even. *)
Definition round_div (a b : Z) : Z :=
  let q := a / b in
  let r := a mod b in
  if (2 * r >? b) || ((2 * r =? b) && Z.odd q) then q + 1 else q.

(** The exponent of a positive fraction. *)
Definition exponent (n d : Z) : Z :=
  let e := Z.log2 n - Z.log2 d in
  if Z.shiftl n (Z.max 0 (- e)) <? Z.shiftl d (Z.max 0 e) then e - 1 else e.

Definition float32 : Type := Z * Z.

Definition to_float32 (n d : Z) : float32 :=
  if n <=? 0 then (0, 1)
  else
    let s := exponent n d - 23 in
    if 0 <=? s then (round_div n (d * 2^s) * 2^s, 1) else (round_div (n * 2^(- s)) d, 2^(- s)).

Definition fmul (x y : float32) : float32 := to_float32 (x.1 * y.1) (x.2 * y.2).
Definition fdiv (x y : float32) : float32 := to_float32 (x.1 * y.2) (x.2 * y.1).
Definition fadd (x y : float32) : float32 := to_float32 (x.1 * y.2 + y.1 * x.2) (x.2 * y.2).
Definition fsub (x y : float32) : float32 := to_float32 (x.1 * y.2 - y.1 * x.2) (x.2 * y.2).
Definition float_of (z : Z) : float32 := to_float32 z 1.
Definition trunc (x : float32) : Z := x.1 / x.2.

(** ** Cubic *)

Definition cubeScale : Z := 40.
Definition cubeCongestionWindowScale : Z := 410.
Definition cubeFactor : Z := Z.shiftl 1 cubeScale / cubeCongestionWindowScale.
Definition defaultNumConnections : Z := 2.
Definition cubic_beta0 : float32 := to_float32 7 10.
Definition betaLastMax : float32 := to_float32 85 100.
Definition maxCubicTimeInterval : Z := 30 * Millisecond.

Record Cubic : Type := mkCubic {
  cubic_numConnections : Z;
  epoch : Z;
  appLimitedStartTime : Z;
  lastUpdateTime : Z;
  lastCongestionWindow : Z;
  lastMaxCongestionWindow : Z;
  ackedPacketsCount : Z;
  estimatedTCPcongestionWindow : Z;
  originPointCongestionWindow : Z;
  timeToOriginPoint : Z;
  lastTargetCongestionWindow : Z;
}.

Definition cubic_Reset (c : Cubic) : Cubic := mkCubic (cubic_numConnections c) 0 0 0 0 0 0 0 0 0 0.

Definition NewCubic : Cubic := mkCubic defaultNumConnections 0 0 0 0 0 0 0 0 0 0.

Definition connection_beta (beta : float32) (n : Z) : float32 :=
  fdiv (fadd (fsub (float_of n) (float_of 1)) beta) (float_of n).

Definition cubic_beta (c : Cubic) : float32 := connection_beta cubic_beta0 (cubic_numConnections c).

Definition cubic_alpha (c : Cubic) : float32 :=
  let b := cubic_beta c in
  let n := float_of (cubic_numConnections c) in
  fdiv (fmul (fmul (fmul (float_of 3) n) n) (fsub (float_of 1) b)) (fadd (float_of 1) b).

Definition OnApplicationLimited (c : Cubic) (now : Z) : Cubic :=
  if appLimitedStartTime c =? 0
  then mkCubic (cubic_numConnections c) (epoch c) now (lastUpdateTime c) (lastCongestionWindow c)
         (lastMaxCongestionWindow c) (ackedPacketsCount c) (estimatedTCPcongestionWindow c)
         (originPointCongestionWindow c) (timeToOriginPoint c) (lastTargetCongestionWindow c)
  else c.

Definition CongestionWindowAfterPacketLoss (c : Cubic) (current : Z) : Z * Cubic :=
  let lastMax := if current <? lastMaxCongestionWindow c then trunc (fmul betaLastMax (float_of current))
                 else current in
  (trunc (fmul (float_of current) (cubic_beta c)),
   mkCubic (cubic_numConnections c) 0 (appLimitedStartTime c) (lastUpdateTime c) (lastCongestionWindow c)
     lastMax (ackedPacketsCount c) (estimatedTCPcongestionWindow c) (originPointCongestionWindow c)
     (timeToOriginPoint c) (lastTargetCongestionWindow c)).

(** The integer part of the cube root, one bit at a time. *)
Fixpoint cbrt_bits (k : nat) (x r : Z) : Z :=
  match k with
  | O => r
  | S k => let r' := r + 2^Z.of_nat k in cbrt_bits k x (if r' * r' * r' <=? x then r' else r)
  end.

Definition cbrt (x : Z) : Z := cbrt_bits 22 x 0.

(** The ACKs the Reno estimate needs to grow by one packet. *)
Definition requiredAckCount (c : Cubic) (estimated : Z) : Z :=
  trunc (fdiv (float_of estimated) (cubic_alpha c)).

(** The loop that updates the Reno estimate.  A round uses at least one ACK up, so one round more than the ACKs is
    enough ([reno_loop_spec]: the loop ends by its own test). *)
Fixpoint reno_loop (fuel : nat) (c : Cubic) (acked estimated : Z) : Z * Z :=
  match fuel with
  | O => (acked, estimated)
  | S fuel =>
      if acked <? requiredAckCount c estimated then (acked, estimated)
      else reno_loop fuel c (acked -u64 requiredAckCount c estimated) (estimated +u64 1)
  end.

(** Time.Sub: the difference of two times, saturated at the limits of a Duration. *)
Definition time_Sub (t u : Z) : Z := Z.max (- 2^63) (Z.min (2^63 - 1) (t - u)).

(** The epoch: its start, the count of ACKs, the Reno estimate, the origin of the curve. *)
Definition start_epoch (c : Cubic) (current now : Z) : Cubic :=
  if epoch c =? 0 then
    let '(toOrigin, origin) :=
      if lastMaxCongestionWindow c <=? current then (0, current)
      else (u32 (cbrt (u64 (cubeFactor * (lastMaxCongestionWindow c -u64 current)))), lastMaxCongestionWindow c) in
    mkCubic (cubic_numConnections c) now (appLimitedStartTime c) (lastUpdateTime c) (lastCongestionWindow c)
      (lastMaxCongestionWindow c) 1 current origin toOrigin (lastTargetCongestionWindow c)
  else if negb (appLimitedStartTime c =? 0) then
    mkCubic (cubic_numConnections c) (epoch c + time_Sub now (appLimitedStartTime c)) 0 (lastUpdateTime c)
      (lastCongestionWindow c) (lastMaxCongestionWindow c) (ackedPacketsCount c)
      (estimatedTCPcongestionWindow c) (originPointCongestionWindow c) (timeToOriginPoint c)
      (lastTargetCongestionWindow c)
  else c.

(** The window on the cubic curve. *)
Definition cubic_target (c : Cubic) (now delayMin : Z) : Z :=
  let elapsedTime := Z.quot (i64 (Z.shiftl (Z.quot (time_Sub (now + delayMin) (epoch c)) Microsecond) 10)) 1000000 in
  let offset := i64 (timeToOriginPoint c - elapsedTime) in
  let offset := if offset <? 0 then i64 (- offset) else offset in
  let delta := u64 (Z.shiftr (i64 (cubeCongestionWindowScale * offset * offset * offset)) cubeScale) in
  if elapsedTime >? timeToOriginPoint c then originPointCongestionWindow c +u64 delta
  else originPointCongestionWindow c -u64 delta.

Definition CongestionWindowAfterAck (c : Cubic) (current delayMin now : Z) : Z * Cubic :=
  let acked := ackedPacketsCount c +u64 1 in
  if (lastCongestionWindow c =? current) && (time_Sub now (lastUpdateTime c) <=? maxCubicTimeInterval) then
    (MaxPacketNumber (lastTargetCongestionWindow c) (estimatedTCPcongestionWindow c),
     mkCubic (cubic_numConnections c) (epoch c) (appLimitedStartTime c) (lastUpdateTime c)
       (lastCongestionWindow c) (lastMaxCongestionWindow c) acked (estimatedTCPcongestionWindow c)
       (originPointCongestionWindow c) (timeToOriginPoint c) (lastTargetCongestionWindow c))
  else
    let c := mkCubic (cubic_numConnections c) (epoch c) (appLimitedStartTime c) now current
               (lastMaxCongestionWindow c) acked (estimatedTCPcongestionWindow c)
               (originPointCongestionWindow c) (timeToOriginPoint c) (lastTargetCongestionWindow c) in
    let c := start_epoch c current now in
    let target := cubic_target c now delayMin in
    let '(acked, estimated) := reno_loop (S (Z.to_nat (ackedPacketsCount c + cubic_numConnections c))) c (ackedPacketsCount c)
                                 (estimatedTCPcongestionWindow c) in
    (if target <? estimated then estimated else target,
     mkCubic (cubic_numConnections c) (epoch c) (appLimitedStartTime c) (lastUpdateTime c)
       (lastCongestionWindow c) (lastMaxCongestionWindow c) acked estimated
       (originPointCongestionWindow c) (timeToOriginPoint c) target).

Definition SetNumConnections (c : Cubic) (n : Z) : Cubic :=
  mkCubic n (epoch c) (appLimitedStartTime c) (lastUpdateTime c) (lastCongestionWindow c)
    (lastMaxCongestionWindow c) (ackedPacketsCount c) (estimatedTCPcongestionWindow c)
    (originPointCongestionWindow c) (timeToOriginPoint c) (lastTargetCongestionWindow c).

(** ** The sender *)

Definition maxBurstBytes : Z := 3 * DefaultTCPMSS.
Definition defaultMinimumCongestionWindow : Z := 2.
Definition renoBeta : float32 := to_float32 7 10.
Definition InitialCongestionWindow : Z := 32.

Record connectionStats : Type := mkStats {
  slowstartPacketsLost : Z;
  slowstartBytesLost : Z;
}.

Record cubicSender : Type := mkSender {
  hybridSlowStart : HybridSlowStart;
  prr : PrrSender;
  stats : connectionStats;
  cubic : Cubic;
  reno : bool;
  largestSentPacketNumber : Z;
  largestAckedPacketNumber : Z;
  largestSentAtLastCutback : Z;
  congestionWindow : Z;
  slowstartThreshold : Z;
  lastCutbackExitedSlowstart : bool;
  slowStartLargeReduction : bool;
  minCongestionWindow : Z;
  maxTCPCongestionWindow : Z;
  numConnections : Z;
  congestionWindowCount : Z;
  initialCongestionWindow : Z;
  initialMaxCongestionWindow : Z;
}.

Definition NewCubicSender (useReno : bool) (initial initialMax : Z) : cubicSender :=
  mkSender (mkHybrid 0 0 false 0 0 false) (mkPrr 0 0 0 0) (mkStats 0 0) NewCubic useReno 0 0 0 initial initialMax
    false false defaultMinimumCongestionWindow initialMax defaultNumConnections 0 initial initialMax.

(** *** Field updates *)

Definition set_parts (c : cubicSender) (h : HybridSlowStart) (p : PrrSender) (s : connectionStats) (cu : Cubic)
  : cubicSender :=
  mkSender h p s cu (reno c) (largestSentPacketNumber c) (largestAckedPacketNumber c)
    (largestSentAtLastCutback c) (congestionWindow c) (slowstartThreshold c) (lastCutbackExitedSlowstart c)
    (slowStartLargeReduction c) (minCongestionWindow c) (maxTCPCongestionWindow c) (numConnections c)
    (congestionWindowCount c) (initialCongestionWindow c) (initialMaxCongestionWindow c).

Definition set_largest (c : cubicSender) (sent acked cutback : Z) : cubicSender :=
  mkSender (hybridSlowStart c) (prr c) (stats c) (cubic c) (reno c) sent acked cutback (congestionWindow c)
    (slowstartThreshold c) (lastCutbackExitedSlowstart c) (slowStartLargeReduction c) (minCongestionWindow c)
    (maxTCPCongestionWindow c) (numConnections c) (congestionWindowCount c) (initialCongestionWindow c)
    (initialMaxCongestionWindow c).

Definition set_window (c : cubicSender) (window threshold : Z) (exited : bool) (count : Z) : cubicSender :=
  mkSender (hybridSlowStart c) (prr c) (stats c) (cubic c) (reno c) (largestSentPacketNumber c)
    (largestAckedPacketNumber c) (largestSentAtLastCutback c) window threshold exited
    (slowStartLargeReduction c) (minCongestionWindow c) (maxTCPCongestionWindow c) (numConnections c) count
    (initialCongestionWindow c) (initialMaxCongestionWindow c).

(** *** Queries *)

Definition cs_GetCongestionWindow (c : cubicSender) : Z := congestionWindow c *u64 DefaultTCPMSS.
Definition cs_GetSlowStartThreshold (c : cubicSender) : Z := slowstartThreshold c *u64 DefaultTCPMSS.

Definition InRecovery (c : cubicSender) : bool :=
  (largestAckedPacketNumber c <=? largestSentAtLastCutback c) && negb (largestAckedPacketNumber c =? 0).

Definition InSlowStart (c : cubicSender) : bool := cs_GetCongestionWindow c <? cs_GetSlowStartThreshold c.

Definition TimeUntilSend (c : cubicSender) (bytesInFlight : Z) : Z :=
  if InRecovery c then prr_TimeUntilSend (prr c) (cs_GetCongestionWindow c) bytesInFlight (cs_GetSlowStartThreshold c)
  else if cs_GetCongestionWindow c >? bytesInFlight then 0 else InfDuration.

Definition isCwndLimited (c : cubicSender) (bytesInFlight : Z) : bool :=
  let window := cs_GetCongestionWindow c in
  if bytesInFlight >=? window then true
  else
    let availableBytes := window -u64 bytesInFlight in
    let slowStartLimited := InSlowStart c && (bytesInFlight >? window / 2) in
    slowStartLimited || (availableBytes <=? maxBurstBytes).

Definition RenoBeta (c : cubicSender) : float32 := connection_beta renoBeta (numConnections c).

(** The bandwidth in bits per second. *)
Definition BandwidthFromDelta (bytes delta : Z) : Z :=
  u64 (u64 (bytes *u64 Second / u64 delta) * 8).

Definition BandwidthEstimate (c : cubicSender) (r : RTTStats) : Z :=
  if smoothedRTT r =? 0 then 0 else BandwidthFromDelta (cs_GetCongestionWindow c) (smoothedRTT r).

Definition cs_RetransmissionDelay (c : cubicSender) (r : RTTStats) : Z :=
  if smoothedRTT r =? 0 then 0 else smoothedRTT r + meanDeviation r * 4.

(** *** Operations *)

Definition cs_OnPacketSent (c : cubicSender) (packetNumber bytes : Z) (isRetransmittable : bool) : cubicSender :=
  if negb isRetransmittable then c
  else
    let p := if InRecovery c then prr_OnPacketSent (prr c) bytes else prr c in
    set_largest (set_parts c (hs_OnPacketSent (hybridSlowStart c) packetNumber) p (stats c) (cubic c))
      packetNumber (largestAckedPacketNumber c) (largestSentAtLastCutback c).

Definition ExitSlowstart (c : cubicSender) : cubicSender :=
  set_window c (congestionWindow c) (congestionWindow c) (lastCutbackExitedSlowstart c) (congestionWindowCount c).

Definition cs_MaybeExitSlowStart (c : cubicSender) (r : RTTStats) : cubicSender :=
  if InSlowStart c then
    let '(exit, h) := ShouldExitSlowStart (hybridSlowStart c) (latestRTT r) (minRTT r)
                        (cs_GetCongestionWindow c / DefaultTCPMSS) in
    let c := set_parts c h (prr c) (stats c) (cubic c) in
    if exit then ExitSlowstart c else c
  else c.

Definition maybeIncreaseCwnd (c : cubicSender) (r : RTTStats) (now bytesInFlight : Z) : cubicSender :=
  if negb (isCwndLimited c bytesInFlight)
  then set_parts c (hybridSlowStart c) (prr c) (stats c) (OnApplicationLimited (cubic c) now)
  else if congestionWindow c >=? maxTCPCongestionWindow c then c
  else if InSlowStart c
  then set_window c (congestionWindow c +u64 1) (slowstartThreshold c) (lastCutbackExitedSlowstart c)
         (congestionWindowCount c)
  else if reno c then
    let count := congestionWindowCount c +u64 1 in
    if count *u64 numConnections c >=? congestionWindow c
    then set_window c (congestionWindow c +u64 1) (slowstartThreshold c) (lastCutbackExitedSlowstart c) 0
    else set_window c (congestionWindow c) (slowstartThreshold c) (lastCutbackExitedSlowstart c) count
  else
    let '(w, cu) := CongestionWindowAfterAck (cubic c) (congestionWindow c) (minRTT r) now in
    set_window (set_parts c (hybridSlowStart c) (prr c) (stats c) cu)
      (MinPacketNumber (maxTCPCongestionWindow c) w) (slowstartThreshold c) (lastCutbackExitedSlowstart c)
      (congestionWindowCount c).

Definition cs_OnPacketAcked (c : cubicSender) (r : RTTStats) (now acked ackedBytes bytesInFlight : Z) : cubicSender :=
  let c := set_largest c (largestSentPacketNumber c) (MaxPacketNumber acked (largestAckedPacketNumber c))
             (largestSentAtLastCutback c) in
  if InRecovery c
  then set_parts c (hybridSlowStart c) (prr_OnPacketAcked (prr c) ackedBytes) (stats c) (cubic c)
  else
    let c := maybeIncreaseCwnd c r now bytesInFlight in
    if InSlowStart c
    then set_parts c (hs_OnPacketAcked (hybridSlowStart c) acked) (prr c) (stats c) (cubic c) else c.

(** A loss of a packet sent before the last cutback. *)
Definition repeated_loss (c : cubicSender) (lostBytes : Z) : cubicSender :=
  if lastCutbackExitedSlowstart c then
    let s := mkStats (slowstartPacketsLost (stats c) +u64 1) (slowstartBytesLost (stats c) +u64 lostBytes) in
    let c := set_parts c (hybridSlowStart c) (prr c) s (cubic c) in
    if slowStartLargeReduction c then
      let w := if (slowstartPacketsLost s =? 1)
                  || (slowstartBytesLost s / DefaultTCPMSS
                      >? (slowstartBytesLost s -u64 lostBytes) / DefaultTCPMSS)
               then MaxPacketNumber (congestionWindow c -u64 1) (minCongestionWindow c) else congestionWindow c in
      set_window c w w (lastCutbackExitedSlowstart c) (congestionWindowCount c)
    else c
  else c.

Definition cs_OnPacketLost (c : cubicSender) (packetNumber lostBytes bytesInFlight : Z) : cubicSender :=
  if packetNumber <=? largestSentAtLastCutback c then repeated_loss c lostBytes
  else
    let exited := InSlowStart c in
    let s := if exited then mkStats (slowstartPacketsLost (stats c) +u64 1) (slowstartBytesLost (stats c))
             else stats c in
    let '(w, cu) :=
      if slowStartLargeReduction c && exited then (congestionWindow c -u64 1, cubic c)
      else if reno c then (trunc (fmul (float_of (congestionWindow c)) (RenoBeta c)), cubic c)
      else CongestionWindowAfterPacketLoss (cubic c) (congestionWindow c) in
    let w := if w <? minCongestionWindow c then minCongestionWindow c else w in
    let c := set_parts c (hybridSlowStart c) (prr_OnPacketLost (prr c) bytesInFlight) s cu in
    set_largest (set_window c w w exited 0) (largestSentPacketNumber c) (largestAckedPacketNumber c)
      (largestSentPacketNumber c).

Definition cs_OnRetransmissionTimeout (c : cubicSender) (packetsRetransmitted : bool) : cubicSender :=
  let c := set_largest c (largestSentPacketNumber c) (largestAckedPacketNumber c) 0 in
  if negb packetsRetransmitted then c
  else
    let c := set_parts c (Restart (hybridSlowStart c)) (prr c) (stats c) (cubic_Reset (cubic c)) in
    set_window c (minCongestionWindow c) (congestionWindow c / 2) (lastCutbackExitedSlowstart c)
      (congestionWindowCount c).

Definition cs_OnConnectionMigration (c : cubicSender) : cubicSender :=
  mkSender (Restart (hybridSlowStart c)) (mkPrr 0 0 0 0) (stats c) (cubic_Reset (cubic c)) (reno c) 0 0 0
    (initialCongestionWindow c) (initialMaxCongestionWindow c) false (slowStartLargeReduction c)
    (minCongestionWindow c) (initialMaxCongestionWindow c) (numConnections c) 0 (initialCongestionWindow c)
    (initialMaxCongestionWindow c).

Definition SetNumEmulatedConnections (c : cubicSender) (n : Z) : cubicSender :=
  let n := Z.max n 1 in
  let c := set_parts c (hybridSlowStart c) (prr c) (stats c) (SetNumConnections (cubic c) n) in
  mkSender (hybridSlowStart c) (prr c) (stats c) (cubic c) (reno c) (largestSentPacketNumber c)
    (largestAckedPacketNumber c) (largestSentAtLastCutback c) (congestionWindow c) (slowstartThreshold c)
    (lastCutbackExitedSlowstart c) (slowStartLargeReduction c) (minCongestionWindow c) (maxTCPCongestionWindow c)
    n (congestionWindowCount c) (initialCongestionWindow c) (initialMaxCongestionWindow c).

Definition SetSlowStartLargeReduction (c : cubicSender) (enabled : bool) : cubicSender :=
  mkSender (hybridSlowStart c) (prr c) (stats c) (cubic c) (reno c) (largestSentPacketNumber c)
    (largestAckedPacketNumber c) (largestSentAtLastCutback c) (congestionWindow c) (slowstartThreshold c)
    (lastCutbackExitedSlowstart c) enabled (minCongestionWindow c) (maxTCPCongestionWindow c)
    (numConnections c) (congestionWindowCount c) (initialCongestionWindow c) (initialMaxCongestionWindow c).

#[export] Instance cubicSender_algorithm : SendAlgorithm cubicSender := {|
  OnPacketSent := λ c _ _ _ packetNumber bytes isRetransmittable, cs_OnPacketSent c packetNumber bytes isRetransmittable;
  GetCongestionWindow := cs_GetCongestionWindow;
  GetSlowStartThreshold := cs_GetSlowStartThreshold;
  MaybeExitSlowStart := cs_MaybeExitSlowStart;
  OnPacketAcked := cs_OnPacketAcked;
  OnPacketLost := λ c _ _ packetNumber lostBytes bytesInFlight, cs_OnPacketLost c packetNumber lostBytes bytesInFlight;
  OnRetransmissionTimeout := cs_OnRetransmissionTimeout;
  RetransmissionDelay := cs_RetransmissionDelay;
  cong_SmoothedRTT := λ _ r, smoothedRTT r;
|}.

#[export] Instance cubicSender_laws : SendAlgorithmLaws cubicSender.
Proof. by split. Qed.

(** ** Rounding *)

(** The value of a float is at most, or at least, an integer. *)
Definition fle (x : float32) (k : Z) : Prop := x.1 <= k * x.2.
Definition fge (x : float32) (k : Z) : Prop := k * x.2 <= x.1.

Lemma round_div_le a b k : 0 < b → a <= k * b → round_div a b <= k.
Proof.
  intros Hb Ha. unfold round_div. pose proof (Z.div_mod a b). pose proof (Z.mod_pos_bound a b Hb).
  assert (a / b <= k) as Hq by (apply Z.div_le_upper_bound; lia).
  destruct (Z.eq_dec (a / b) k) as [E|E].
  - assert (a mod b = 0) as -> by nia. destruct (Z.gtb_spec (2 * 0) b); [lia|].
    destruct (Z.eqb_spec (2 * 0) b); [lia|]. simpl. lia.
  - destruct (_ || _); lia.
Qed.

Lemma round_div_ge a b k : 0 < b → k * b <= a → k <= round_div a b.
Proof.
  intros Hb Ha. unfold round_div. assert (k <= a / b) by (apply Z.div_le_lower_bound; lia).
  destruct (_ || _); lia.
Qed.

(** The exponent of a fraction that is at least 1 bounds it from below. *)
Lemma exponent_lower n d : 0 < n → 0 < d → 0 <= exponent n d → d * 2^exponent n d <= n.
Proof.
  intros Hn Hd. unfold exponent. set (e := Z.log2 n - Z.log2 d).
  destruct (Z.ltb_spec (Z.shiftl n (Z.max 0 (- e))) (Z.shiftl d (Z.max 0 e))) as [Hlt|Hge]; intros He.
  - pose proof (Z.log2_spec n Hn) as [Hn1 _]. pose proof (Z.log2_spec d Hd) as [_ Hd2].
    pose proof (Z.log2_nonneg d). etrans; [|exact Hn1].
    replace (Z.log2 n) with (Z.succ (Z.log2 d) + (e - 1)) by (unfold e; lia).
    rewrite Z.pow_add_r by lia. apply Z.mul_le_mono_nonneg_r; [apply Z.pow_nonneg; lia|lia].
  - rewrite !Z.shiftl_mul_pow2 in Hge by lia. rewrite (Z.max_l 0 (- e)), (Z.max_r 0 e) in Hge by lia. lia.
Qed.

Lemma to_float32_pos n d : 0 < d → 0 <= (to_float32 n d).1 ∧ 0 < (to_float32 n d).2.
Proof.
  intros Hd. unfold to_float32. destruct (Z.leb_spec n 0); [done|].
  set (s := exponent n d - 23). destruct (Z.leb_spec 0 s); cbn [fst snd].
  - split; [|lia]. apply Z.mul_nonneg_nonneg; [|apply Z.pow_nonneg; lia].
    apply round_div_ge; [|lia]. apply Z.mul_pos_pos; [done|apply Z.pow_pos_nonneg; lia].
  - pose proof (Z.pow_pos_nonneg 2 (- s)). split; [apply round_div_ge; nia|lia].
Qed.

(** Rounding does not cross an integer of at most 24 bits. *)
Lemma to_float32_le n d k : 0 < d → 0 <= k < 2^24 → n <= k * d → fle (to_float32 n d) k.
Proof.
  intros Hd Hk Hn. unfold to_float32, fle. destruct (Z.leb_spec n 0); [simpl; lia|].
  set (s := exponent n d - 23). destruct (Z.leb_spec 0 s) as [Hs|Hs]; cbn [fst snd].
  - pose proof (exponent_lower n d) as Hl. assert (exponent n d = s + 23) as E by (unfold s; lia).
    rewrite E, Z.pow_add_r in Hl by lia. assert (s = 0) as ->.
    { destruct (Z.eq_dec s 0) as [|Hs0]; [done|]. assert (2^1 <= 2^s) by (apply Z.pow_le_mono_r; lia). nia. }
    rewrite Z.pow_0_r, !Z.mul_1_r. apply round_div_le; lia.
  - pose proof (Z.pow_pos_nonneg 2 (- s)). apply round_div_le; nia.
Qed.

Lemma to_float32_ge n d k : 0 < d → 0 <= k < 2^24 → k * d <= n → fge (to_float32 n d) k.
Proof.
  intros Hd Hk Hn. unfold to_float32, fge. destruct (Z.leb_spec n 0); [simpl; nia|].
  set (s := exponent n d - 23). destruct (Z.leb_spec 0 s) as [Hs|Hs]; cbn [fst snd].
  - pose proof (exponent_lower n d) as Hl. assert (exponent n d = s + 23) as E by (unfold s; lia).
    rewrite E, Z.pow_add_r in Hl by lia. pose proof (Z.pow_pos_nonneg 2 s).
    assert (2^23 <= round_div n (d * 2^s)) as Hr by (apply round_div_ge; nia).
    destruct (Z.eq_dec s 0) as [->|Hs0].
    + rewrite Z.pow_0_r, !Z.mul_1_r. apply round_div_ge; lia.
    + assert (2^1 <= 2^s) by (apply Z.pow_le_mono_r; lia). nia.
  - pose proof (Z.pow_pos_nonneg 2 (- s)). apply round_div_ge; nia.
Qed.

(** Integers of at most 24 bits are exact. *)
Lemma float_of_exact w : 0 <= w < 2^24 → (float_of w).1 = w * (float_of w).2 ∧ 0 < (float_of w).2.
Proof.
  intros Hw. unfold float_of. pose proof (to_float32_pos w 1) as Hp.
  pose proof (to_float32_le w 1 w) as H1. pose proof (to_float32_ge w 1 w) as H2. unfold fle, fge in *. lia.
Qed.

Lemma float_of_ge w k : 0 <= k < 2^24 → k <= w → fge (float_of w) k ∧ 0 < (float_of w).2.
Proof. intros Hk Hw. split; [apply to_float32_ge; lia|]. apply to_float32_pos. lia. Qed.

Lemma trunc_le x k : 0 < x.2 → fle x k → trunc x <= k.
Proof. intros Hx H. unfold trunc. unfold fle in H. apply Z.div_le_upper_bound; lia. Qed.

Lemma trunc_ge x k : 0 < x.2 → fge x k → k <= trunc x.
Proof. intros Hx H. unfold trunc. unfold fge in H. apply Z.div_le_lower_bound; lia. Qed.

(** Nor does it cross a multiple of [2^-j] of at most 24 bits. *)
Lemma to_float32_le_frac n d k j :
  0 < d → 0 <= k < 2^24 → 0 < j <= 23 → n * 2^j <= k * d → (to_float32 n d).1 * 2^j <= k * (to_float32 n d).2.
Proof.
  intros Hd Hk Hj Hn. unfold to_float32. destruct (Z.leb_spec n 0); [simpl; lia|].
  set (s := exponent n d - 23).
  assert (j <= - s) as Hs.
  { destruct (Z.lt_ge_cases (exponent n d) 0) as [He|He]; [lia|].
    pose proof (exponent_lower n d ltac:(lia) Hd He) as Hl. pose proof (Z.pow_pos_nonneg 2 j).
    assert (2^(exponent n d + j) < 2^24) as Hp by (rewrite Z.pow_add_r by lia; nia).
    apply Z.pow_lt_mono_r_iff in Hp; lia. }
  destruct (Z.leb_spec 0 s); [lia|]. cbn [fst snd].
  assert (2^(- s) = 2^(- s - j) * 2^j) as E by (rewrite <-Z.pow_add_r by lia; f_equal; lia).
  pose proof (Z.pow_pos_nonneg 2 (- s - j)). pose proof (Z.pow_pos_nonneg 2 j).
  assert (round_div (n * 2^(- s)) d <= k * 2^(- s - j)) by (apply round_div_le; rewrite ?E; nia). nia.
Qed.

(** A product with a factor between [lo/den] and [hi/den]. *)
Lemma scaled_window w b den lo hi :
  0 <= w < 2^24 → 0 < b.2 → 0 <= lo → hi <= den → 0 < den → lo * b.2 <= den * b.1 → den * b.1 <= hi * b.2 →
  lo * w / den <= trunc (fmul (float_of w) b) <= (hi * w + (den - 1)) / den.
Proof.
  intros Hw Hb Hlo Hhi Hden H1 H2. destruct (float_of_exact w Hw) as [E Hd]. unfold fmul. rewrite E.
  assert (0 < (float_of w).2 * b.2) as Hpos by (apply Z.mul_pos_pos; lia).
  assert (0 <= (float_of w).2 * w) by nia. assert (lo <= hi) by nia.
  destruct (to_float32_pos (w * (float_of w).2 * b.1) ((float_of w).2 * b.2) Hpos) as [_ Hp].
  split; [apply trunc_ge|apply trunc_le]; [done| |done|].
  - pose proof (Z.mul_div_le (lo * w) den Hden). apply to_float32_ge; [done| |].
    + split; [apply Z.div_pos; nia|]. apply Z.div_lt_upper_bound; nia.
    + apply (Z.mul_le_mono_pos_r _ _ den); [lia|].
      transitivity (lo * w * ((float_of w).2 * b.2)); [nia|]. nia.
  - apply to_float32_le; [done| |].
    + split; [apply Z.div_pos; nia|]. apply Z.div_lt_upper_bound; nia.
    + assert (hi * w <= (hi * w + (den - 1)) / den * den) as Hq.
      { pose proof (Z.div_mod (hi * w + (den - 1)) den ltac:(lia)). pose proof (Z.mod_pos_bound (hi * w + (den - 1)) den Hden). lia. }
      apply (Z.mul_le_mono_pos_r _ _ den); [lia|].
      transitivity (hi * w * ((float_of w).2 * b.2)); nia.
Qed.

(** ** The Reno estimate *)

(** With the default of two connections the growth factor is at most 1. *)
Lemma default_alpha c : cubic_numConnections c = 2 → 0 < (cubic_alpha c).1 <= (cubic_alpha c).2.
Proof.
  intros E. unfold cubic_alpha, cubic_beta. rewrite E. vm_compute. split; congruence.
Qed.

Lemma requiredAckCount_pos c estimated :
  cubic_numConnections c = 2 → 1 <= estimated → 1 <= requiredAckCount c estimated.
Proof.
  intros Hc He. pose proof (default_alpha c Hc) as Ha.
  destruct (float_of_ge estimated 1) as [Hf Hd]; [lia|done|]. unfold fge in Hf.
  unfold requiredAckCount, fdiv. assert (0 < (float_of estimated).2 * (cubic_alpha c).1) as Hden by nia.
  apply trunc_ge; [by apply to_float32_pos|]. apply to_float32_ge; [done|lia|nia].
Qed.

(** The loop ends by its own test: every round uses an ACK up. *)
Lemma reno_loop_spec fuel c acked estimated :
  cubic_numConnections c = 2 → 0 <= acked < Z.of_nat fuel → 1 <= estimated → estimated + acked < 2^64 →
  let '(a, e) := reno_loop fuel c acked estimated in
  0 <= a < requiredAckCount c e ∧ estimated <= e ∧ e + a <= estimated + acked.
Proof.
  intros Hc. revert acked estimated. induction fuel as [|fuel IH]; intros acked estimated Ha He Hs; [lia|].
  cbn [reno_loop]. pose proof (requiredAckCount_pos c estimated Hc He) as Hr.
  destruct (Z.ltb_spec acked (requiredAckCount c estimated)); [lia|].
  rewrite !u64_id by (unfold is_u64; lia).
  specialize (IH (acked - requiredAckCount c estimated) (estimated + 1)).
  destruct (reno_loop _ _ _ _) as [a e]. lia.
Qed.

(** ** The window *)

(** [limit] bounds the Reno estimate, which no ACK raises by more than one. *)
Record cubic_ok (limit : Z) (c : Cubic) : Prop := {
  cubic_connections : cubic_numConnections c = 2;
  cubic_acked : 0 <= ackedPacketsCount c;
  cubic_estimate : 0 <= estimatedTCPcongestionWindow c;
  cubic_limit : estimatedTCPcongestionWindow c + ackedPacketsCount c <= limit;
  cubic_started : epoch c <> 0 ∨ lastCongestionWindow c <> 0 → 2 <= estimatedTCPcongestionWindow c;
}.

Lemma cubic_Reset_ok limit c : cubic_ok limit c → 0 <= limit → cubic_ok limit (cubic_Reset c).
Proof. intros [? ? ? ? ?] Hl. split; simpl; [done|lia|lia|lia|]. intros [?|?]; done. Qed.

Lemma start_epoch_ok limit c current now :
  cubic_numConnections c = 2 → 0 <= ackedPacketsCount c → 0 <= estimatedTCPcongestionWindow c →
  estimatedTCPcongestionWindow c + ackedPacketsCount c <= limit →
  (epoch c <> 0 → 2 <= estimatedTCPcongestionWindow c) → 2 <= current → current + 1 <= limit →
  cubic_ok limit (start_epoch c current now) ∧ 2 <= estimatedTCPcongestionWindow (start_epoch c current now).
Proof.
  intros H1 H2 H3 H4 H5 Hc Hl. unfold start_epoch. destruct (Z.eqb_spec (epoch c) 0) as [E|E].
  - destruct (_ <=? _); cbv iota beta; (split; [split|]; simpl; lia).
  - assert (2 <= estimatedTCPcongestionWindow c) by auto.
    destruct (negb _); (split; [split|]; simpl; auto).
Qed.

(** An ACK: the new window is not below the Reno estimate, which is at least 2. *)
Lemma AfterAck_ok limit c current delayMin now :
  cubic_ok limit c → 2 <= current → current + 1 <= limit → limit < 2^63 →
  2 <= (CongestionWindowAfterAck c current delayMin now).1 ∧
  cubic_ok (limit + 1) (CongestionWindowAfterAck c current delayMin now).2.
Proof.
  intros [H1 H2 H3 H4 H5] Hc Hl Hm. unfold CongestionWindowAfterAck.
  assert (ackedPacketsCount c +u64 1 = ackedPacketsCount c + 1) as -> by (apply u64_id; unfold is_u64; lia).
  destruct ((_ =? _) && _) eqn:Et; cbn [fst snd].
  - zbool. assert (2 <= estimatedTCPcongestionWindow c) by (apply H5; right; lia). split.
    + unfold MaxPacketNumber. destruct (_ >? _) eqn:E; zbool; lia.
    + split; simpl; [done|lia|lia|lia|done].
  - set (c1 := mkCubic _ _ _ _ current _ _ _ _ _ _).
    destruct (start_epoch_ok (limit + 1) c1 current now) as [[S1 S2 S3 S4 S5] S6]; [simpl; auto; lia..|].
    set (c2 := start_epoch c1 current now) in *.
    pose proof (reno_loop_spec (S (Z.to_nat (ackedPacketsCount c2 + cubic_numConnections c2))) c2
      (ackedPacketsCount c2) (estimatedTCPcongestionWindow c2) S1) as Hr.
    destruct (reno_loop _ _ _ _) as [a e]. destruct Hr as (R1 & R2 & R3); [lia..|]. split.
    + cbn [fst]. destruct (Z.ltb_spec (cubic_target c2 now delayMin) e); lia.
    + split; simpl; [done|lia..].
Qed.

Record sender_ok (limit : Z) (c : cubicSender) : Prop := {
  sender_cubic : cubic_ok limit (cubic c);
  sender_window : 2 <= congestionWindow c <= maxTCPCongestionWindow c;
  sender_min : minCongestionWindow c = 2;
  sender_max : maxTCPCongestionWindow c = initialMaxCongestionWindow c;
  sender_initial : 2 <= initialCongestionWindow c <= initialMaxCongestionWindow c;
  sender_bound : initialMaxCongestionWindow c < 2^24;
  sender_connections : numConnections c = 2;
}.

(** The backoff factor is 0.85, rounded up to a float32. *)
Lemma default_beta :
  let b := connection_beta cubic_beta0 2 in 0 < b.2 ∧ 85 * b.2 <= 100 * b.1 ∧ 10^8 * b.1 <= 85000003 * b.2.
Proof. vm_compute. split_and!; congruence. Qed.

(** The window after a loss: 85 percent, in whole packets; a very large window can come out two packets larger. *)
Lemma backoff_window w (t := trunc (fmul (float_of w) (connection_beta cubic_beta0 2))) :
  0 <= w < 2^24 → 85 * w / 100 <= t <= 85 * w / 100 + 2 ∧ (w < 2^19 → t = 85 * w / 100).
Proof.
  intros Hw. destruct default_beta as (H1 & H2 & H3). set (b := connection_beta cubic_beta0 2) in *.
  destruct (scaled_window w b (10^8) 85000000 85000003) as [L U]; [lia..|]. fold t in L, U.
  assert (85 * w / 100 = 85000000 * w / 10^8) as E by (apply Z.div_unique_pos with ((85 * w mod 100) * 10^6);
    Z.div_mod_to_equations; lia).
  split; [Z.div_mod_to_equations; lia|]. intros Hs. enough (t < 85 * w / 100 + 1) by lia.
  destruct (float_of_exact w Hw) as [Ew Hd]. set (k := 85 * w / 100) in *.
  assert (0 < (float_of w).2 * b.2) as Hpos by (apply Z.mul_pos_pos; lia).
  unfold t, fmul, trunc. rewrite Ew. destruct (to_float32_pos (w * (float_of w).2 * b.1) ((float_of w).2 * b.2) Hpos) as [_ Hp].
  assert (85000003 * w * 32 <= (32 * k + 31) * 10^8) as Hk by (subst k; Z.div_mod_to_equations; lia).
  apply Z.div_lt_upper_bound; [done|].
  enough ((to_float32 (w * (float_of w).2 * b.1) ((float_of w).2 * b.2)).1 * 2^5
          <= (32 * k + 31) * (to_float32 (w * (float_of w).2 * b.1) ((float_of w).2 * b.2)).2) by lia.
  apply to_float32_le_frac; [done|subst k; Z.div_mod_to_equations; lia|lia|].
  apply (Z.mul_le_mono_pos_r _ _ (10^8)); [lia|].
  transitivity (85000003 * w * 32 * ((float_of w).2 * b.2)); nia.
Qed.

Lemma backoff_le w : 0 <= w < 2^24 → trunc (fmul (float_of w) (connection_beta cubic_beta0 2)) <= w.
Proof.
  intros Hw. destruct (backoff_window w ltac:(lia)) as [Hb He]. destruct (Z.lt_ge_cases w (2^19)) as [Hs|Hs]; [rewrite He by done|];
    Z.div_mod_to_equations; lia.
Qed.

Lemma clamp_window w m : 2 <= m → w <= m → 2 <= (if w <? 2 then 2 else w) <= m.
Proof. intros. destruct (Z.ltb_spec w 2); lia. Qed.

(** Every operation keeps the window between 2 packets and the maximum. *)
Lemma cubic_weaken limit limit' c : cubic_ok limit c → limit <= limit' → cubic_ok limit' c.
Proof. intros [? ? ? ? ?] ?. split; auto; lia. Qed.

Lemma maybeIncrease_ok limit c r now inFlight :
  sender_ok limit c → initialMaxCongestionWindow c <= limit → limit < 2^63 →
  sender_ok (limit + 1) (maybeIncreaseCwnd c r now inFlight).
Proof.
  intros [Hc Hw H1 H2 H3 H4 H5] Hl Hm. pose proof (cubic_weaken limit (limit + 1) (cubic c) Hc) as Hc1.
  specialize (Hc1 ltac:(lia)). unfold maybeIncreaseCwnd. destruct (negb (isCwndLimited c inFlight)).
  { split; try done. simpl. unfold OnApplicationLimited. destruct (_ =? 0); [|done].
    destruct Hc1. by split. }
  destruct (Z.geb_spec (congestionWindow c) (maxTCPCongestionWindow c)) as [Hg|Hg]; [by split|].
  assert (congestionWindow c +u64 1 = congestionWindow c + 1) as Eu by (apply u64_id; unfold is_u64; lia).
  destruct (InSlowStart c); [|destruct (reno c)].
  - split; simpl; rewrite ?Eu; done || lia.
  - destruct (_ >=? _); split; simpl; rewrite ?Eu; done || lia.
  - destruct (AfterAck_ok limit (cubic c) (congestionWindow c) (minRTT r) now) as [Ha Hb]; [done|lia|lia|done|].
    destruct (CongestionWindowAfterAck _ _ _ _) as [w cu]. simpl in Ha, Hb. split; simpl; try done.
    unfold MinPacketNumber. destruct (_ <? w) eqn:E; zbool; lia.
Qed.

Lemma OnPacketLost_ok limit c n bytes inFlight : sender_ok limit c → sender_ok limit (cs_OnPacketLost c n bytes inFlight).
Proof.
  intros [Hc Hw H1 H2 H3 H4 H5]. unfold cs_OnPacketLost.
  assert (congestionWindow c -u64 1 = congestionWindow c - 1) as Eu by (apply u64_id; unfold is_u64; lia).
  destruct (n <=? _).
  - unfold repeated_loss. destruct (lastCutbackExitedSlowstart c); [|by split].
    destruct (slowStartLargeReduction _); split; simpl; try done.
    destruct (_ || _); [|done]. rewrite H1, Eu. unfold MaxPacketNumber. destruct (_ >? 2) eqn:E; zbool; lia.
  - pose proof (backoff_le (congestionWindow c) ltac:(lia)) as Hb.
    destruct (_ && _); [|destruct (reno c)]; cbv iota beta.
    + split; simpl; try done. rewrite H1, Eu. apply clamp_window; lia.
    + split; simpl; try done. rewrite H1. unfold RenoBeta. rewrite H5. apply clamp_window; [lia|].
      change renoBeta with cubic_beta0. lia.
    + unfold CongestionWindowAfterPacketLoss. cbv iota beta. destruct Hc as [C1 C2 C3 C4 C5]. split; simpl; try done.
      * split; simpl; try done. intros [?|?]; [done|auto].
      * rewrite H1. unfold cubic_beta. rewrite C1. apply clamp_window; lia.
Qed.

(** *** Runs of a controller *)

Inductive controller_op : Type :=
  | CSent (packetNumber bytes : Z) (isRetransmittable : bool)
  | CAcked (r : RTTStats) (now packetNumber bytes bytesInFlight : Z)
  | CLost (packetNumber bytes bytesInFlight : Z)
  | CMaybeExit (r : RTTStats)
  | CTimeout (packetsRetransmitted : bool)
  | CMigration
  | CLargeReduction (enabled : bool).

Definition controller_step (c : cubicSender) (o : controller_op) : cubicSender :=
  match o with
  | CSent n bytes retransmittable => cs_OnPacketSent c n bytes retransmittable
  | CAcked r now n bytes inFlight => cs_OnPacketAcked c r now n bytes inFlight
  | CLost n bytes inFlight => cs_OnPacketLost c n bytes inFlight
  | CMaybeExit r => cs_MaybeExitSlowStart c r
  | CTimeout retransmitted => cs_OnRetransmissionTimeout c retransmitted
  | CMigration => cs_OnConnectionMigration c
  | CLargeReduction enabled => SetSlowStartLargeReduction c enabled
  end.

Definition controller_run (c : cubicSender) (ops : list controller_op) : cubicSender :=
  foldl controller_step c ops.

Lemma sender_weaken limit limit' c : sender_ok limit c → limit <= limit' → sender_ok limit' c.
Proof. intros [? ? ? ? ? ? ?] ?. split; auto. by eapply cubic_weaken. Qed.

Lemma OnPacketAcked_ok limit c r now n bytes inFlight :
  sender_ok limit c → initialMaxCongestionWindow c <= limit → limit < 2^63 →
  sender_ok (limit + 1) (cs_OnPacketAcked c r now n bytes inFlight).
Proof.
  intros Hok Hl Hm. unfold cs_OnPacketAcked. set (c1 := set_largest c _ _ _).
  assert (sender_ok limit c1) as Hok1 by (by destruct Hok). destruct (InRecovery c1).
  - apply (sender_weaken limit); [by destruct Hok1|lia].
  - pose proof (maybeIncrease_ok limit c1 r now inFlight Hok1 Hl Hm) as H2.
    destruct (InSlowStart _); [by destruct H2|done].
Qed.

(** The configuration, which no operation of a run changes. *)
Definition configuration (c : cubicSender) : Z * bool := (initialMaxCongestionWindow c, reno c).

Lemma maybeIncrease_configuration c r now inFlight :
  configuration (maybeIncreaseCwnd c r now inFlight) = configuration c.
Proof.
  unfold maybeIncreaseCwnd. destruct (negb _); [done|]. destruct (_ >=? maxTCPCongestionWindow c); [done|].
  destruct (InSlowStart c); [done|]. destruct (reno c) eqn:E; [by destruct (_ >=? _)|].
  by destruct (CongestionWindowAfterAck _ _ _ _).
Qed.

Lemma controller_step_ok limit c o :
  sender_ok limit c → initialMaxCongestionWindow c <= limit → limit < 2^63 →
  sender_ok (limit + 1) (controller_step c o) ∧
  configuration (controller_step c o) = configuration c.
Proof.
  intros Hok Hl Hm. pose proof (sender_weaken limit (limit + 1) c Hok ltac:(lia)) as Hok1.
  destruct o as [n bytes retransmittable|r now n bytes inFlight|n bytes inFlight|r|retransmitted| |enabled]; cbn [controller_step].
  - unfold cs_OnPacketSent. destruct (negb _); [done|]. split; [by destruct Hok1|done].
  - split; [by apply OnPacketAcked_ok|]. unfold cs_OnPacketAcked. destruct (InRecovery _); [done|].
    destruct (InSlowStart _); apply (maybeIncrease_configuration (set_largest c _ _ _)).
  - split; [by apply OnPacketLost_ok|]. unfold cs_OnPacketLost, repeated_loss.
    destruct (n <=? _); [by destruct (lastCutbackExitedSlowstart c); [destruct (slowStartLargeReduction _)|]|].
    by destruct (_ && _); [|destruct (reno c) eqn:E].
  - unfold cs_MaybeExitSlowStart. destruct (InSlowStart c); [|done].
    destruct (ShouldExitSlowStart _ _ _ _) as [[|] h]; (split; [by destruct Hok1|done]).
  - unfold cs_OnRetransmissionTimeout. destruct (negb retransmitted); (split; [|done]); [by destruct Hok1|].
    destruct Hok1 as [Hc Hw H1 H2 H3 H4 H5]. split; simpl; try done; [|lia]. apply cubic_Reset_ok; [done|]. lia.
  - destruct Hok1 as [Hc Hw H1 H2 H3 H4 H5]. split; [|done]. split; simpl; try done. apply cubic_Reset_ok; [done|]. lia.
  - split; [by destruct Hok1|done].
Qed.

Lemma controller_run_ok limit c ops :
  sender_ok limit c → initialMaxCongestionWindow c <= limit → limit + Z.of_nat (length ops) < 2^63 →
  sender_ok (limit + Z.of_nat (length ops)) (controller_run c ops) ∧
  configuration (controller_run c ops) = configuration c.
Proof.
  revert limit c. induction ops as [|o ops IH]; intros limit c Hok Hl Hm.
  - simpl. by rewrite Z.add_0_r.
  - cbn [length] in *. destruct (controller_step_ok limit c o Hok Hl) as [Hok1 E]; [lia|].
    assert (initialMaxCongestionWindow (controller_step c o) = initialMaxCongestionWindow c)
      by (by injection E).
    destruct (IH (limit + 1) (controller_step c o) Hok1) as [H1 H2]; [lia|lia|].
    replace (limit + Z.of_nat (S (length ops))) with (limit + 1 + Z.of_nat (length ops)) by lia.
    split; [done|]. by rewrite <- E.
Qed.

Lemma NewCubicSender_ok useReno initial initialMax :
  2 <= initial <= initialMax → initialMax < 2^24 →
  sender_ok initialMax (NewCubicSender useReno initial initialMax).
Proof.
  intros Hi Hm. split; simpl; try done; try lia. split; simpl; try done; try lia.
Qed.

(** C26: whatever a Cubic (or Reno) sender sees -- packets sent, acknowledged in any order and at any
    time, lost, retransmission timeouts, the migration of the connection, the large-reduction
    experiment -- its congestion window stays between 2 packets and the configured maximum, and the
    product with the packet size does not wrap.  The initial window is at least 2 packets and at most the
    maximum, the maximum is below [2^24] packets, and the run has fewer than [2^62] operations. *)
Theorem cubic_window_bounds (useReno : bool) (initial initialMax : Z) (ops : list controller_op) :
  2 <= initial <= initialMax → initialMax < 2^24 → Z.of_nat (length ops) < 2^62 →
  let c := controller_run (NewCubicSender useReno initial initialMax) ops in
  2 * DefaultTCPMSS <= GetCongestionWindow c <= initialMax * DefaultTCPMSS ∧
  GetCongestionWindow c = congestionWindow c * DefaultTCPMSS.
Proof.
  intros Hi Hm Hn c. destruct (controller_run_ok initialMax _ ops (NewCubicSender_ok useReno initial initialMax Hi Hm))
    as [[_ Hw _ H2 _ _ _] E]; [done|lia|]. fold c in Hw, H2, E. injection E as E _. rewrite H2, E in Hw.
  assert (GetCongestionWindow c = congestionWindow c * DefaultTCPMSS) as ->
    by (apply u64_id; unfold is_u64, DefaultTCPMSS; lia).
  unfold DefaultTCPMSS. lia.
Qed.

(** C27: a loss event after any history of a Cubic sender (with the default of two emulated
    connections and without the large-reduction experiment) lowers the window to 85 percent, rounded down to a
    packet, but not below 2 packets, and ends slow start; the losses of other packets that were sent before it
    belong to the same event and leave the window as it is.  Of a window of [2^19] packets or more the rounding of
    float32 can leave up to two packets more.  The windows configured and the length of the run are those of
    [cubic_window_bounds]. *)
Theorem cubic_loss_backoff (initial initialMax : Z) (ops : list controller_op)
    (n bytes inFlight n' bytes' inFlight' : Z) :
  2 <= initial <= initialMax → initialMax < 2^24 → Z.of_nat (length ops) < 2^62 →
  let c := controller_run (NewCubicSender false initial initialMax) ops in
  let c' := cs_OnPacketLost c n bytes inFlight in
  let w := congestionWindow c in
  slowStartLargeReduction c = false → largestSentAtLastCutback c < n → n' <= largestSentPacketNumber c →
  Z.max 2 (85 * w / 100) <= congestionWindow c' <= Z.max 2 (85 * w / 100 + 2) ∧
  (w < 2^19 → congestionWindow c' = Z.max 2 (85 * w / 100)) ∧
  InSlowStart c' = false ∧ congestionWindow (cs_OnPacketLost c' n' bytes' inFlight') = congestionWindow c'.
Proof.
  intros Hi Hm Hn c c' w Hlr Hlost Hn'.
  destruct (controller_run_ok initialMax _ ops (NewCubicSender_ok false initial initialMax Hi Hm))
    as [[[C1 _ _ _ _] Hw H1 H2 _ H4 _] E]; [done|lia|]. fold c in C1, Hw, H1, H2, H4, E. injection E as _ Er.
  assert (congestionWindow c' = let w' := trunc (fmul (float_of w) (connection_beta cubic_beta0 2)) in
    if w' <? 2 then 2 else w') as Ew.
  { unfold c', cs_OnPacketLost. destruct (Z.leb_spec n (largestSentAtLastCutback c)); [lia|].
    rewrite Hlr, Er. cbn [andb]. unfold CongestionWindowAfterPacketLoss, cubic_beta. rewrite C1. simpl. by rewrite H1. }
  assert (InSlowStart c' = false ∧ slowStartLargeReduction c' = false ∧
          largestSentAtLastCutback c' = largestSentPacketNumber c) as (Es & Elr & Ec).
  { unfold c', cs_OnPacketLost. destruct (Z.leb_spec n (largestSentAtLastCutback c)); [lia|].
    rewrite Hlr, Er. cbn [andb]. unfold CongestionWindowAfterPacketLoss. cbv iota beta.
    split; [|done]. apply Z.ltb_irrefl. }
  destruct (backoff_window w ltac:(lia)) as [Hb Hb'].
  cbv zeta in Ew. assert (congestionWindow c' = Z.max 2 (trunc (fmul (float_of w) (connection_beta cubic_beta0 2)))) as Em
    by (rewrite Ew; destruct (Z.ltb_spec (trunc (fmul (float_of w) (connection_beta cubic_beta0 2))) 2); lia).
  split; [lia|]. split; [intros Hs; by rewrite Em, Hb'|]. split; [done|].
  unfold cs_OnPacketLost at 1. rewrite Ec, (proj2 (Z.leb_le n' _) Hn').
  unfold repeated_loss. destruct (lastCutbackExitedSlowstart c'); [|done]. simpl. by rewrite Elr.
Qed.

(** ** Examples *)

Definition sample_rtt_stats : RTTStats := UpdateRTT zeroRTTStats (50 * Millisecond) 0 1.

(** Slow start, a loss, recovery, then growth on the curve. *)
Definition sample_controller_ops : list controller_op :=
  map (λ n, CSent n 1460 true) (seqZ 1 40)
  ++ map (λ n, CAcked sample_rtt_stats (Millisecond * n) n 1460 50000) (seqZ 1 10)
  ++ [CLost 11 1460 50000; CLost 12 1460 50000]
  ++ map (λ n, CSent n 1460 true) (seqZ 41 40)
  ++ map (λ n, CAcked sample_rtt_stats (Second * n) n 1460 60000) (seqZ 41 3).

Definition sample_sender : cubicSender :=
  controller_run (NewCubicSender false InitialCongestionWindow DefaultMaxCongestionWindow) sample_controller_ops.

Lemma cubic_window_bounds_witness :
  congestionWindow sample_sender = 42 ∧
  2 * DefaultTCPMSS <= GetCongestionWindow sample_sender <= DefaultMaxCongestionWindow * DefaultTCPMSS.
Proof.
  split; [vm_compute; reflexivity|].
  apply (cubic_window_bounds false InitialCongestionWindow DefaultMaxCongestionWindow sample_controller_ops);
    vm_compute; first [reflexivity|congruence|split; congruence].
Defined.

Lemma cubic_loss_backoff_witness :
  congestionWindow (cs_OnPacketLost sample_sender 50 1460 1460) = 35 ∧
  congestionWindow (cs_OnPacketLost sample_sender 50 1460 1460) = Z.max 2 (85 * 42 / 100).
Proof.
  split; [vm_compute; reflexivity|].
  destruct (cubic_loss_backoff InitialCongestionWindow DefaultMaxCongestionWindow sample_controller_ops
    50 1460 1460 51 1460 1460) as (_ & H & _);
    [vm_compute; first [reflexivity|congruence|split; congruence]..|].
  apply H. vm_compute. reflexivity.
Defined.
