(* ===== verification/Handshake.v ===== *)
(** * Handshake messages and the public reset

    internal/handshake/handshake_message.go and tags.go, and internal/wire/public_reset.go.  A
    message is a tag and a map from tags to values; it is written with an index of the tags in
    ascending order and the end of each value, and the values after it. *)

From stdpp Require Import sorting.
From S2P Require Import Prelude ByteOrder Protocol Frames StreamFrame PublicHeader.

(** ** Tags *)

(** A tag spells up to four characters, the first in the lowest byte. *)
Definition tag (s : string) : Z :=
  le_combine (map (λ c, Z.of_nat (Ascii.nat_of_ascii c)) (String.list_ascii_of_string s)).

Definition TagCHLO : Z := tag "CHLO".
Definition TagREJ : Z := tag "REJ".
Definition TagSCFG : Z := tag "SCFG".
Definition TagPAD : Z := tag "PAD".
Definition TagSNI : Z := tag "SNI".
Definition TagVER : Z := tag "VER".
Definition TagCCS : Z := tag "CCS".
Definition TagCCRT : Z := tag "CCRT".
Definition TagMSPC : Z := tag "MSPC".
Definition TagMIDS : Z := tag "MIDS".
Definition TagUAID : Z := tag "UAID".
Definition TagSVID : Z := tag "SVID".
Definition TagTCID : Z := tag "TCID".
Definition TagPDMD : Z := tag "PDMD".
Definition TagSRBF : Z := tag "SRBF".
Definition TagICSL : Z := tag "ICSL".
Definition TagNONP : Z := tag "NONP".
Definition TagSCLS : Z := tag "SCLS".
Definition TagCSCT : Z := tag "CSCT".
Definition TagCOPT : Z := tag "COPT".
Definition TagCFCW : Z := tag "CFCW".
Definition TagSFCW : Z := tag "SFCW".
Definition TagFHL2 : Z := tag "FHL2".
Definition TagNSTP : Z := tag "NSTP".
Definition TagSTK : Z := tag "STK".
Definition TagSNO : Z := tag "SNO".
Definition TagPROF : Z := tag "PROF".
Definition TagNONC : Z := tag "NONC".
Definition TagXLCT : Z := tag "XLCT".
Definition TagSCID : Z := tag "SCID".
Definition TagKEXS : Z := tag "KEXS".
Definition TagAEAD : Z := tag "AEAD".
Definition TagPUBS : Z := tag "PUBS".
Definition TagOBIT : Z := tag "OBIT".
Definition TagEXPY : Z := tag "EXPY".
Definition TagCERT : Z := 0xff545243.
Definition TagSHLO : Z := tag "SHLO".
Definition TagPRST : Z := tag "PRST".
Definition TagRSEQ : Z := tag "RSEQ".
Definition TagRNON : Z := tag "RNON".

(** ** Messages *)

Definition CryptoMaxParams : Z := 128.
Definition CryptoParameterMaxLength : Z := 4000.
Definition CryptoTooManyEntries : Z := 30.
Definition CryptoInvalidValueLength : Z := 31.

Definition ErrValueTooLong : error := QuicError CryptoInvalidValueLength "value too long".

Record HandshakeMessage : Type := mkMessage {
  hm_Tag : Z;
  hm_Data : gmap Z (list Z);
}.

(** The loop over the index: a tag and the end of its value in eight bytes each. *)
Fixpoint parse_entries (nPairs : nat) (index : list Z) (dataStart : Z) (resultMap : gmap Z (list Z))
  : reader (gmap Z (list Z)) :=
  match nPairs with
  | O => mret resultMap
  | S nPairs =>
      let t := le_combine (take 4 index) in
      let dataEnd := le_combine (take 4 (drop 4 index)) in
      let dataLen := u32 (dataEnd - dataStart) in
      if dataLen >? CryptoParameterMaxLength then fail ErrValueTooLong
      else
        data ← ReadFull (Z.to_nat dataLen);
        parse_entries nPairs (drop 8 index) dataEnd (<[t := data]> resultMap)
  end.

Definition ParseHandshakeMessage : reader HandshakeMessage :=
  slice4 ← ReadFull 4;
  let messageTag := le_combine slice4 in
  slice4 ← ReadFull 4;
  let nPairs := le_combine slice4 in
  if nPairs >? CryptoMaxParams then fail (ErrorCode CryptoTooManyEntries)
  else
    index ← ReadFull (Z.to_nat (nPairs * 8));
    data ← parse_entries (Z.to_nat nPairs) index 0 ∅;
    mret (mkMessage messageTag data).

Definition getTagsSorted (h : HandshakeMessage) : list Z := merge_sort Z.le (map fst (map_to_list (hm_Data h))).

(** The index entries and the values, for the tags in order. *)
Fixpoint write_entries (data : gmap Z (list Z)) (offset : Z) (tags : list Z) : list Z * list Z :=
  match tags with
  | [] => ([], [])
  | t :: tags =>
      let v := default [] (data !! t) in
      let offset := u32 (offset + Z.of_nat (length v)) in
      let '(index, values) := write_entries data offset tags in
      (le_split 4 t ++ le_split 4 offset ++ index, v ++ values)
  end.

Definition HandshakeMessage_Write (h : HandshakeMessage) : list Z :=
  let '(index, values) := write_entries (hm_Data h) 0 (getTagsSorted h) in
  WriteUint32 LittleEndian (hm_Tag h) ++ WriteUint16 LittleEndian (u16 (Z.of_nat (size (hm_Data h))))
  ++ WriteUint16 LittleEndian 0 ++ index ++ values.

(** ** The public reset *)

Record PublicReset : Type := mkPublicReset {
  RejectedPacketNumber : Z;
  pr_Nonce : Z;
}.

Definition WritePublicReset (connectionID rejectedPacketNumber nonceProof : Z) : list Z :=
  [10] ++ WriteUint64 LittleEndian connectionID ++ WriteUint32 LittleEndian TagPRST
  ++ WriteUint32 LittleEndian 2 ++ WriteUint32 LittleEndian TagRNON ++ WriteUint32 LittleEndian 8
  ++ WriteUint32 LittleEndian TagRSEQ ++ WriteUint32 LittleEndian 16
  ++ WriteUint64 LittleEndian nonceProof ++ WriteUint64 LittleEndian rejectedPacketNumber.

Definition ParsePublicReset : reader PublicReset :=
  msg ← ParseHandshakeMessage;
  if negb (hm_Tag msg =? TagPRST) then fail (ErrorString "wrong public reset tag")
  else match hm_Data msg !! TagRSEQ with
  | None => fail (ErrorString "RSEQ missing")
  | Some rseq =>
      if negb (length rseq =? 8)%nat then fail (ErrorString "invalid RSEQ tag")
      else match hm_Data msg !! TagRNON with
      | None => fail (ErrorString "RNON missing")
      | Some rnon =>
          if negb (length rnon =? 8)%nat then fail (ErrorString "invalid RNON tag")
          else mret (mkPublicReset (le_combine rseq) (le_combine rnon))
      end
  end.

(** ** Round trips *)

(** What can be written: tags are 32-bit numbers, and the limits of the parser hold. *)
Definition entry_ok (t : Z) (v : list Z) : Prop :=
  is_u32 t ∧ bytes_ok v ∧ Z.of_nat (length v) <= CryptoParameterMaxLength.

Definition message_ok (h : HandshakeMessage) : Prop :=
  is_u32 (hm_Tag h) ∧ Z.of_nat (size (hm_Data h)) <= CryptoMaxParams ∧ map_Forall entry_ok (hm_Data h).

Definition value_at (data : gmap Z (list Z)) (t : Z) : list Z := default [] (data !! t).

(** The values of some tags, put back into a map. *)
Definition restore (data : gmap Z (list Z)) (acc : gmap Z (list Z)) (tags : list Z) : gmap Z (list Z) :=
  foldl (λ m t, <[t := value_at data t]> m) acc tags.

Lemma restore_lookup data acc tags k :
  restore data acc tags !! k = if bool_decide (k ∈ tags) then Some (value_at data k) else acc !! k.
Proof.
  revert acc. induction tags as [|t tags IH]; intros acc; [done|]. simpl. rewrite IH.
  destruct (bool_decide_reflect (k ∈ tags)) as [Hin|Hin].
  - rewrite bool_decide_eq_true_2; [done|by right].
  - destruct (decide (k = t)) as [->|Hne].
    + rewrite lookup_insert_eq, bool_decide_eq_true_2 by (by left). done.
    + rewrite lookup_insert_ne by done. rewrite bool_decide_eq_false_2; [done|]. rewrite elem_of_cons. tauto.
Qed.

Lemma write_entries_index data offset tags :
  length (write_entries data offset tags).1 = (8 * length tags)%nat ∧
  (Forall (λ t, bytes_ok (value_at data t)) tags →
   bytes_ok (write_entries data offset tags).1 ∧ bytes_ok (write_entries data offset tags).2).
Proof.
  revert offset. induction tags as [|t tags IH]; intros offset; [by split; [|repeat constructor]|].
  cbn [write_entries]. destruct (IH (u32 (offset + Z.of_nat (length (value_at data t))))) as [IHl IHb].
  fold (value_at data t). destruct (write_entries _ _ tags) as [index values]. cbn [fst snd] in *. split.
  - rewrite !length_app, !length_le_split, IHl. simpl. lia.
  - intros [Ht Hts]%Forall_cons. destruct (IHb Hts) as [H1 H2].
    auto using bytes_ok_app, le_split_bytes.
Qed.

(** The parser's loop reads what the writer's loop wrote. *)
Lemma parse_write_entries data tags offset acc s :
  Forall (λ t, entry_ok t (value_at data t)) tags → 0 <= offset →
  offset + 4000 * Z.of_nat (length tags) < 2^32 →
  parse_entries (length tags) (write_entries data offset tags).1 offset acc
    ((write_entries data offset tags).2 ++ s) = Ok (restore data acc tags, s).
Proof.
  revert offset acc. induction tags as [|t tags IH]; intros offset acc Hts Ho Hb; [done|].
  apply Forall_cons in Hts as [(Ht & Hv & Hl) Hts]. cbn [write_entries length] in *.
  fold (value_at data t). set (v := value_at data t) in *. unfold CryptoParameterMaxLength in Hl.
  assert (u32 (offset + Z.of_nat (length v)) = offset + Z.of_nat (length v)) as -> by (apply u32_id; unfold is_u32; lia).
  specialize (IH (offset + Z.of_nat (length v)) (<[t := v]> acc) Hts).
  destruct (write_entries data (offset + Z.of_nat (length v)) tags) as [index values]. cbn [fst snd parse_entries] in *.
  rewrite (take_app_length' (le_split 4 t)) by (by rewrite length_le_split).
  rewrite (drop_app_length' (le_split 4 t)) by (by rewrite length_le_split).
  rewrite (take_app_length' (le_split 4 _)) by (by rewrite length_le_split).
  rewrite !le_combine_split by (unfold is_u32 in Ht; simpl; lia).
  replace (offset + Z.of_nat (length v) - offset) with (Z.of_nat (length v)) by lia.
  rewrite u32_id by (unfold is_u32; lia).
  rewrite Z.gtb_ltb, (proj2 (Z.ltb_ge _ _)) by (unfold CryptoParameterMaxLength; lia).
  rewrite Nat2Z.id, <- app_assoc. erewrite rbind_ok by (by apply ReadFull_app).
  rewrite app_assoc, drop_app_length' by (by rewrite length_app, !length_le_split).
  apply IH; lia.
Qed.

Lemma getTagsSorted_perm h : getTagsSorted h ≡ₚ map fst (map_to_list (hm_Data h)).
Proof. apply merge_sort_Permutation. Qed.

Lemma getTagsSorted_elem h k : k ∈ getTagsSorted h ↔ is_Some (hm_Data h !! k).
Proof.
  rewrite getTagsSorted_perm, list_elem_of_In, in_map_iff. split.
  - intros ([k' v] & <- & Hin). rewrite <- list_elem_of_In in Hin. apply elem_of_map_to_list in Hin. eauto.
  - intros [v Hv]. exists (k, v). split; [done|]. by apply list_elem_of_In, elem_of_map_to_list.
Qed.

Lemma getTagsSorted_length h : length (getTagsSorted h) = size (hm_Data h).
Proof. rewrite getTagsSorted_perm, length_map. apply length_map_to_list. Qed.

Lemma restore_all h : restore (hm_Data h) ∅ (getTagsSorted h) = hm_Data h.
Proof.
  apply map_eq. intros k. rewrite restore_lookup. unfold value_at.
  destruct (bool_decide_reflect (k ∈ getTagsSorted h)) as [Hk|Hk]; rewrite getTagsSorted_elem in Hk.
  - by destruct Hk as [v ->].
  - rewrite lookup_empty. by destruct (hm_Data h !! k) eqn:E; [destruct Hk|].
Qed.

Lemma message_entries h :
  map_Forall entry_ok (hm_Data h) → Forall (λ t, entry_ok t (value_at (hm_Data h) t)) (getTagsSorted h).
Proof.
  intros Hm. apply Forall_forall. intros t [v Hv]%getTagsSorted_elem. unfold value_at. rewrite Hv. by apply Hm.
Qed.

Lemma ParseHandshakeMessage_Write h s :
  message_ok h → ParseHandshakeMessage (HandshakeMessage_Write h ++ s) = Ok (h, s).
Proof.
  intros (Ht & Hn & Hm). unfold ParseHandshakeMessage, HandshakeMessage_Write, CryptoMaxParams in *.
  pose proof (message_entries h Hm) as He. pose proof (getTagsSorted_length h) as Hlen.
  destruct (write_entries_index (hm_Data h) 0 (getTagsSorted h)) as [Hi _].
  pose proof (parse_write_entries (hm_Data h) (getTagsSorted h) 0 ∅ s He) as Hp.
  destruct (write_entries _ _ _) as [index values]. cbn [fst snd] in *.
  rewrite write_32, !write_16, <- !app_assoc. unfold enc, LittleEndian_laws.
  erewrite rbind_ok by (apply ReadFull_app, length_le_split). rewrite le_combine_split by done.
  rewrite (u16_id (Z.of_nat _)) by (unfold is_u16; lia). rewrite (app_assoc (le_split 2 _)).
  erewrite rbind_ok by (apply ReadFull_app; by rewrite length_app, !length_le_split).
  rewrite le_combine_app, length_le_split, !le_combine_split by (simpl; lia). rewrite Z.mul_0_r, Z.add_0_r.
  rewrite Z.gtb_ltb, (proj2 (Z.ltb_ge _ _)) by lia.
  erewrite rbind_ok by (apply ReadFull_app; lia).
  erewrite rbind_ok by (rewrite Nat2Z.id, <- Hlen; apply Hp; lia).
  rewrite restore_all. by destruct h.
Qed.

(** Accepted messages keep the limits. *)
Lemma parse_entries_ensures n index dataStart acc k :
  bytes_ok index → length index = (8 * n)%nat → (size acc <= k)%nat → map_Forall entry_ok acc →
  ensures (parse_entries n index dataStart acc) (λ m, (size m <= k + n)%nat ∧ map_Forall entry_ok m).
Proof.
  revert index dataStart acc k. induction n as [|n IH]; intros index dataStart acc k Hb Hl Hk Ha; cbn [parse_entries].
  { apply ensures_ret. by rewrite Nat.add_0_r. }
  destruct (Z.gtb_spec (u32 (le_combine (take 4 (drop 4 index)) - dataStart)) CryptoParameterMaxLength) as [|Hd];
    [apply ensures_fail|].
  set (t := le_combine (take 4 index)). set (len := u32 _) in *.
  apply (ensures_bind _ _ (λ v, bytes_ok v ∧ length v = Z.to_nat len)).
  - intros s Hs. pose proof (safe_ReadFull (Z.to_nat len) s Hs) as Hsf.
    destruct (ReadFull (Z.to_nat len) s) as [[v s']| |] eqn:E; [|done..]. split; [done|].
    apply ReadFull_inv in E as [-> El]. apply Forall_app in Hs as [? _]. done.
  - intros v [Hv Hvl]. apply (ensures_weaken _ (λ m, (size m <= S k + n)%nat ∧ map_Forall entry_ok m)).
    + apply IH; [by apply Forall_drop|rewrite length_drop; lia| |].
      * rewrite map_size_insert. destruct (acc !! t); simpl; lia.
      * apply map_Forall_insert_2; [|done]. split_and!; [|done|].
        -- unfold t, is_u32. pose proof (le_combine_bound (take 4 index)) as Hbd.
           rewrite length_take, Hl in Hbd. replace (4 `min` (8 * S n))%nat with 4%nat in Hbd by lia.
           apply Hbd. by apply Forall_take.
        -- pose proof (u32_range (le_combine (take 4 (drop 4 index)) - dataStart)) as Hr. fold len in Hr.
           unfold is_u32 in Hr. lia.
    + intros m [? ?]. split; [lia|done].
Qed.

Lemma ensures_ReadFull n : ensures (ReadFull n) (λ l, bytes_ok l ∧ length l = n).
Proof.
  intros s Hs. pose proof (safe_ReadFull n s Hs) as Hsf.
  destruct (ReadFull n s) as [[v s']| |] eqn:E; [|done..]. split; [done|].
  apply ReadFull_inv in E as [-> El]. apply Forall_app in Hs as [? _]. done.
Qed.

Lemma ParseHandshakeMessage_ensures : ensures ParseHandshakeMessage message_ok.
Proof.
  unfold ParseHandshakeMessage. eapply ensures_bind; [apply (ensures_ReadFull 4)|]. intros l4 [Hb4 Hl4].
  eapply ensures_bind; [apply (ensures_ReadFull 4)|]. intros n4 [Hbn Hln].
  pose proof (le_combine_bound _ Hb4) as Ht. rewrite Hl4 in Ht.
  pose proof (le_combine_bound _ Hbn) as Hn. rewrite Hln in Hn.
  destruct (Z.gtb_spec (le_combine n4) CryptoMaxParams) as [|Hmax]; [apply ensures_fail|].
  eapply ensures_bind; [apply ensures_ReadFull|]. intros index [Hbi Hli].
  eapply ensures_bind; [apply (parse_entries_ensures _ _ _ ∅ 0); [done|lia|by rewrite map_size_empty|apply map_Forall_empty]|].
  intros m [Hs Hm]. apply ensures_ret. split_and!; [done|simpl; lia|done].
Qed.

(** C37: a handshake message with at most 128 values of at most 4000 bytes, written with its index of
    sorted tags and value ends, is read back exactly, and the bytes after it are left alone; on any
    bytes whatever the parser returns an error or a message within these limits, and it never panics. *)
Theorem handshake_message_roundtrip (h : HandshakeMessage) (s : list Z) :
  (message_ok h → ParseHandshakeMessage (HandshakeMessage_Write h ++ s) = Ok (h, s)) ∧
  (bytes_ok s →
   match ParseHandshakeMessage s with
   | Ok (h', s') => (∃ pre, s = pre ++ s') ∧ message_ok h'
   | Err _ => True
   | Panic _ => False
   end).
Proof. split; [apply ParseHandshakeMessage_Write|apply ParseHandshakeMessage_ensures]. Qed.

(** The range of a concrete tag. *)
Ltac concrete_u32 := vm_compute; split; congruence.

Definition sample_message : HandshakeMessage :=
  mkMessage TagCHLO (<[TagSNI := [97; 98; 99]]> (<[TagVER := [48; 48; 51; 57]]> (<[TagPAD := []]> ∅))).

Lemma sample_message_ok : message_ok sample_message.
Proof.
  split; [concrete_u32|]. split; [vm_compute; congruence|].
  repeat apply map_Forall_insert_2; [..|apply map_Forall_empty];
    (split; [concrete_u32|split; [bytes_tac|vm_compute; congruence]]).
Qed.

Lemma handshake_message_roundtrip_witness :
  getTagsSorted sample_message = [TagPAD; TagSNI; TagVER] ∧
  ParseHandshakeMessage (HandshakeMessage_Write sample_message ++ [1]) = Ok (sample_message, [1]).
Proof.
  split; [vm_compute; reflexivity|].
  apply (handshake_message_roundtrip sample_message [1]). exact sample_message_ok.
Defined.

(** A reset is the header of a packet and a handshake message. *)
Definition reset_message (rejectedPacketNumber nonceProof : Z) : HandshakeMessage :=
  mkMessage TagPRST (<[TagRNON := le_split 8 nonceProof]> (<[TagRSEQ := le_split 8 rejectedPacketNumber]> ∅)).

Lemma reset_message_Write rejected nonceProof :
  HandshakeMessage_Write (reset_message rejected nonceProof)
  = le_split 4 TagPRST ++ le_split 4 2 ++ le_split 4 TagRNON ++ le_split 4 8 ++ le_split 4 TagRSEQ
    ++ le_split 4 16 ++ le_split 8 nonceProof ++ le_split 8 rejected.
Proof. reflexivity. Qed.

Lemma reset_message_ok rejected nonceProof : message_ok (reset_message rejected nonceProof).
Proof.
  split; [concrete_u32|]. split; [unfold reset_message, hm_Data; rewrite !map_size_insert_None by done; done|].
  repeat apply map_Forall_insert_2; [..|apply map_Forall_empty];
    (split; [concrete_u32|split; [apply le_split_bytes|by rewrite length_le_split]]).
Qed.

(** A public reset, as a server writes it, is recognised by the client: the public header parses
    with the reset flag and the connection ID, whatever version is known, and the rest of the packet
    parses to the rejected packet number and the nonce. *)
Theorem public_reset_roundtrip (version connectionID rejected nonceProof : Z) :
  is_u64 connectionID → connectionID <> 0 → is_u64 rejected → is_u64 nonceProof →
  ∃ h rest, ParsePublicHeader PerspectiveServer version (WritePublicReset connectionID rejected nonceProof)
            = Ok (h, rest) ∧
    ResetFlag h = true ∧ ConnectionID h = connectionID ∧
    ParsePublicReset rest = Ok (mkPublicReset rejected nonceProof, []).
Proof.
  intros Hc Hc0 Hr Hn. unfold WritePublicReset. rewrite !write_32, !write_64. unfold enc, LittleEndian_laws.
  set (rest := le_split 4 TagPRST ++ _).
  assert (rest = HandshakeMessage_Write (reset_message rejected nonceProof)) as Erest by (by rewrite reset_message_Write).
  exists {| Raw := []; ConnectionID := connectionID; hdr_PathID := 0; VersionFlag := false;
     ResetFlag := true; TruncateConnectionID := false; MultipathFlag := false;
     PacketNumberLen := 0; PacketNumber := 0; VersionNumber := 0;
     SupportedVersions := []; DiversificationNonce := [] |}, rest.
  split_and!; [|done..|].
  - unfold ParsePublicHeader. cbn [app]. rstep. change (Z.land 10 2 >? 0) with true. change (Z.land 10 1 >? 0) with false.
    change (Z.land 10 8 =? 0) with false. rewrite orb_true_r. rewrite andb_false_r.
    cbn [negb andb orb]. cbv zeta.
    assert (ReadUint64 LittleEndian (le_split 8 connectionID ++ rest) = Ok (connectionID, rest)) as Hread.
    { apply (ReadUint64_enc LittleEndian (L := LittleEndian_laws)); [done|].
      unfold rest. repeat apply bytes_ok_app; apply le_split_bytes. }
    erewrite rbind_ok by exact Hread.
    rewrite (proj2 (Z.eqb_neq connectionID 0)) by done. rewrite !andb_false_r.
    reflexivity.
  - rewrite Erest, <- (app_nil_r (HandshakeMessage_Write _)). unfold ParsePublicReset.
    erewrite rbind_ok by (apply ParseHandshakeMessage_Write, reset_message_ok).
    cbn [hm_Tag hm_Data reset_message]. rewrite Z.eqb_refl. cbn [negb].
    rewrite lookup_insert_ne, lookup_insert_eq by done. rewrite length_le_split. cbn [negb Nat.eqb].
    rewrite lookup_insert_eq, length_le_split. cbn [negb Nat.eqb].
    by rewrite !le_combine_split.
Qed.

Lemma public_reset_roundtrip_witness :
  ∃ h rest, ParsePublicHeader PerspectiveServer VersionUnknown (WritePublicReset 7 42 99) = Ok (h, rest) ∧
    ResetFlag h = true ∧ ConnectionID h = 7 ∧ ParsePublicReset rest = Ok (mkPublicReset 42 99, []).
Proof. apply (public_reset_roundtrip VersionUnknown 7 42 99); done. Defined.
