(* ===== verification/ConnectionParameters.v ===== *)
(** * Connection parameters

    internal/handshake/connection_parameters_manager.go: the parameters each side announces in its
    hello message, and what it takes over from the other side's.  The flow controllers and the
    streams map read them through the records [flowParameters] and [streamLimits]. *)

From S2P Require Import Prelude ByteOrder Protocol Handshake FlowControl Stream StreamScheduler StreamsMap Congestion.

Definition InvalidCryptoMessageParameter : Z := 34.
Definition InitialStreamFlowControlWindow : Z := Z.shiftl 1 14.
Definition InitialConnectionFlowControlWindow : Z := Z.shiftl 1 14.
Definition ReceiveStreamFlowControlWindow : Z := Z.shiftl 1 10 * 32.
Definition ReceiveConnectionFlowControlWindow : Z := Z.shiftl 1 10 * 48.
Definition MaxIncomingDynamicStreamsPerConnection : Z := 1000.
Definition MaxStreamsMinimumIncrement : Z := 10.

Definition ErrMalformedTag : error := QuicError InvalidCryptoMessageParameter "malformed Tag value".
Definition ErrFlowControlRenegotiationNotSupported : error :=
  QuicError InvalidCryptoMessageParameter "renegotiation of flow control parameters not supported".

Record connectionParametersManager : Type := mkParameters {
  cp_version : Z;
  cp_perspective : Perspective;
  flowControlNegotiated : bool;
  truncateConnectionID : bool;
  maxStreamsPerConnection : Z;
  maxIncomingDynamicStreamsPerConnection : Z;
  idleConnectionStateLifetime : Z;
  sendStreamFlowControlWindow : Z;
  sendConnectionFlowControlWindow : Z;
  receiveStreamFlowControlWindow : Z;
  receiveConnectionFlowControlWindow : Z;
  maxReceiveStreamFlowControlWindow : Z;
  maxReceiveConnectionFlowControlWindow : Z;
}.

Definition NewConnectionParamatersManager (pers : Perspective) (v maxStream maxConnection idleTimeout : Z)
  : connectionParametersManager :=
  mkParameters v pers false false MaxStreamsPerConnection MaxStreamsPerConnection idleTimeout
    InitialStreamFlowControlWindow InitialConnectionFlowControlWindow ReceiveStreamFlowControlWindow
    ReceiveConnectionFlowControlWindow maxStream maxConnection.

(** ** Field updates *)

Definition set_truncate (h : connectionParametersManager) (b : bool) : connectionParametersManager :=
  mkParameters (cp_version h) (cp_perspective h) (flowControlNegotiated h) b (maxStreamsPerConnection h)
    (maxIncomingDynamicStreamsPerConnection h) (idleConnectionStateLifetime h) (sendStreamFlowControlWindow h)
    (sendConnectionFlowControlWindow h) (receiveStreamFlowControlWindow h) (receiveConnectionFlowControlWindow h)
    (maxReceiveStreamFlowControlWindow h) (maxReceiveConnectionFlowControlWindow h).

Definition set_limits (h : connectionParametersManager) (streams incoming idle : Z) : connectionParametersManager :=
  mkParameters (cp_version h) (cp_perspective h) (flowControlNegotiated h) (truncateConnectionID h) streams
    incoming idle (sendStreamFlowControlWindow h) (sendConnectionFlowControlWindow h)
    (receiveStreamFlowControlWindow h) (receiveConnectionFlowControlWindow h)
    (maxReceiveStreamFlowControlWindow h) (maxReceiveConnectionFlowControlWindow h).

Definition set_send_windows (h : connectionParametersManager) (negotiated : bool) (stream connection : Z)
  : connectionParametersManager :=
  mkParameters (cp_version h) (cp_perspective h) negotiated (truncateConnectionID h) (maxStreamsPerConnection h)
    (maxIncomingDynamicStreamsPerConnection h) (idleConnectionStateLifetime h) stream connection
    (receiveStreamFlowControlWindow h) (receiveConnectionFlowControlWindow h)
    (maxReceiveStreamFlowControlWindow h) (maxReceiveConnectionFlowControlWindow h).

(** ** Reading the other side's parameters *)

Definition MinUint32 (a b : Z) : Z := if a <? b then a else b.
Definition MaxUint32 (a b : Z) : Z := if a <? b then b else a.

Definition negotiateMaxStreamsPerConnection (clientValue : Z) : Z := MinUint32 clientValue MaxStreamsPerConnection.
Definition negotiateMaxIncomingDynamicStreamsPerConnection (clientValue : Z) : Z :=
  MinUint32 clientValue MaxIncomingDynamicStreamsPerConnection.
Definition negotiateIdleConnectionStateLifetime (h : connectionParametersManager) (clientValue : Z) : Z :=
  MinDuration clientValue (idleConnectionStateLifetime h).

(** One parameter: if it is there, its value is read and used; the manager keeps what it has taken
    over before an error. *)
Definition param (params : gmap Z (list Z)) (t : Z) (allowed : connectionParametersManager → option error)
    (use : connectionParametersManager → Z → connectionParametersManager)
    (st : option error * connectionParametersManager) : option error * connectionParametersManager :=
  match st, params !! t with
  | (None, h), Some value =>
      match allowed h with
      | Some e => (Some e, h)
      | None => match ReadUint32 LittleEndian value with
                | Ok (v, _) => (None, use h v)
                | _ => (Some ErrMalformedTag, h)
                end
      end
  | st, _ => st
  end.

Definition always (h : connectionParametersManager) : option error := None.
Definition unless_negotiated (h : connectionParametersManager) : option error :=
  if flowControlNegotiated h then Some ErrFlowControlRenegotiationNotSupported else None.

Definition read_limits (params : gmap Z (list Z)) (h : connectionParametersManager)
  : option error * connectionParametersManager :=
  let st := match cp_perspective h with
            | PerspectiveServer => param params TagTCID always (λ h v, set_truncate h (v =? 0)) (None, h)
            | PerspectiveClient => (None, h)
            end in
  let st := param params TagMSPC always (λ h v, set_limits h (negotiateMaxStreamsPerConnection v)
              (maxIncomingDynamicStreamsPerConnection h) (idleConnectionStateLifetime h)) st in
  let st := param params TagMIDS always (λ h v, set_limits h (maxStreamsPerConnection h)
              (negotiateMaxIncomingDynamicStreamsPerConnection v) (idleConnectionStateLifetime h)) st in
  param params TagICSL always (λ h v, set_limits h (maxStreamsPerConnection h)
    (maxIncomingDynamicStreamsPerConnection h) (negotiateIdleConnectionStateLifetime h (v * Second))) st.

Definition SetFromMap (h : connectionParametersManager) (params : gmap Z (list Z))
  : option error * connectionParametersManager :=
  let st := read_limits params h in
  let st := param params TagSFCW unless_negotiated (λ h v, set_send_windows h (flowControlNegotiated h) v
              (sendConnectionFlowControlWindow h)) st in
  let st := param params TagCFCW unless_negotiated (λ h v, set_send_windows h (flowControlNegotiated h)
              (sendStreamFlowControlWindow h) v) st in
  match st with
  | (None, h) =>
      if bool_decide (is_Some (params !! TagCFCW)) || bool_decide (is_Some (params !! TagSFCW))
      then (None, set_send_windows h true (sendStreamFlowControlWindow h) (sendConnectionFlowControlWindow h))
      else (None, h)
  | st => st
  end.

(** ** Announcing one's own parameters *)

Definition GetHelloMap (h : connectionParametersManager) : gmap Z (list Z) :=
  let icsl := WriteUint32 LittleEndian (u32 (Z.quot (idleConnectionStateLifetime h) Second)) in
  let mspc := WriteUint32 LittleEndian (maxStreamsPerConnection h) in
  let mids := WriteUint32 LittleEndian MaxIncomingDynamicStreamsPerConnection in
  let cfcw := WriteUint32 LittleEndian (u32 (receiveConnectionFlowControlWindow h)) in
  let sfcw := WriteUint32 LittleEndian (u32 (receiveStreamFlowControlWindow h)) in
  <[TagICSL := icsl]> (<[TagMSPC := mspc]> (<[TagMIDS := mids]> (<[TagCFCW := cfcw]> (<[TagSFCW := sfcw]> ∅)))).

(** ** What the other components read *)

Definition flow_parameters (h : connectionParametersManager) : flowParameters :=
  mkFlowParameters (sendStreamFlowControlWindow h) (sendConnectionFlowControlWindow h)
    (receiveStreamFlowControlWindow h) (maxReceiveStreamFlowControlWindow h)
    (receiveConnectionFlowControlWindow h) (maxReceiveConnectionFlowControlWindow h).

Definition cpm_GetMaxOutgoingStreams (h : connectionParametersManager) : Z :=
  maxIncomingDynamicStreamsPerConnection h.

(** [uint32(float64(1000) * 1.1)] is exact. *)
Definition cpm_GetMaxIncomingStreams : Z :=
  let maxStreams := MaxIncomingDynamicStreamsPerConnection in
  MaxUint32 (u32 (u32 maxStreams + MaxStreamsMinimumIncrement)) (maxStreams * 11 / 10).

Definition stream_limits (h : connectionParametersManager) : streamLimits :=
  mkLimits (cpm_GetMaxOutgoingStreams h) cpm_GetMaxIncomingStreams.

Definition cpm_TruncateConnectionID (h : connectionParametersManager) : bool :=
  match cp_perspective h with PerspectiveClient => false | PerspectiveServer => truncateConnectionID h end.

(** ** Negotiation *)

Lemma read_written v : is_u32 v → ReadUint32 LittleEndian (le_split 4 v) = Ok (v, []).
Proof.
  intros Hv. rewrite <- (app_nil_r (le_split 4 v)).
  apply (ReadUint32_enc LittleEndian (L := LittleEndian_laws)); [done|constructor].
Qed.

Lemma param_present params t allowed use h v :
  params !! t = Some (le_split 4 v) → is_u32 v → allowed h = None →
  param params t allowed use (None, h) = (None, use h v).
Proof. intros Ht Hv Ha. unfold param. by rewrite Ht, Ha, read_written. Qed.

Lemma param_refused params t allowed use h v e :
  params !! t = Some v → allowed h = Some e → param params t allowed use (None, h) = (Some e, h).
Proof. intros Ht Ha. unfold param. by rewrite Ht, Ha. Qed.

Lemma param_failed params t allowed use e h : param params t allowed use (Some e, h) = (Some e, h).
Proof. done. Qed.

Lemma param_absent params t allowed use st : params !! t = None → param params t allowed use st = st.
Proof. intros Ht. unfold param. rewrite Ht. by destruct st as [[e|] h]. Qed.

(** A manager whose parameters fit their fields. *)
Definition parameters_ok (h : connectionParametersManager) : Prop :=
  is_u32 (maxStreamsPerConnection h) ∧ 0 <= idleConnectionStateLifetime h < 2^32 * Second ∧
  is_u32 (receiveStreamFlowControlWindow h) ∧ is_u32 (receiveConnectionFlowControlWindow h).

Definition idle_seconds (h : connectionParametersManager) : Z := idleConnectionStateLifetime h / Second.

Lemma idle_seconds_u32 h : parameters_ok h → is_u32 (idle_seconds h).
Proof.
  intros (_ & Hi & _). unfold is_u32, idle_seconds.
  split; [apply Z.div_pos; [lia|reflexivity]|]. apply Z.div_lt_upper_bound; [reflexivity|lia].
Qed.

Lemma GetHelloMap_lookups h :
  parameters_ok h →
  let m := GetHelloMap h in
  m !! TagICSL = Some (le_split 4 (idle_seconds h)) ∧ m !! TagMSPC = Some (le_split 4 (maxStreamsPerConnection h)) ∧
  m !! TagMIDS = Some (le_split 4 MaxIncomingDynamicStreamsPerConnection) ∧
  m !! TagCFCW = Some (le_split 4 (receiveConnectionFlowControlWindow h)) ∧
  m !! TagSFCW = Some (le_split 4 (receiveStreamFlowControlWindow h)) ∧ m !! TagTCID = None.
Proof.
  intros Hok. pose proof (idle_seconds_u32 h Hok) as Hsec. destruct Hok as (_ & Hi & Hs & Hc).
  unfold GetHelloMap. rewrite !write_32. unfold enc, LittleEndian_laws. cbv zeta.
  rewrite (u32_id (receiveConnectionFlowControlWindow h)), (u32_id (receiveStreamFlowControlWindow h)) by done.
  rewrite Z.quot_div_nonneg by (reflexivity || lia). fold (idle_seconds h).
  rewrite (u32_id (idle_seconds h)) by done.
  split_and!; repeat (rewrite lookup_insert_ne by (vm_compute; congruence)); apply lookup_insert_eq || apply lookup_empty.
Qed.

(** What a side has taken over from the hello of [from]. *)
Definition taken_over (h from : connectionParametersManager) : connectionParametersManager :=
  mkParameters (cp_version h) (cp_perspective h) true (truncateConnectionID h)
    (Z.min (maxStreamsPerConnection from) MaxStreamsPerConnection)
    MaxIncomingDynamicStreamsPerConnection
    (Z.min (idle_seconds from * Second) (idleConnectionStateLifetime h))
    (receiveStreamFlowControlWindow from) (receiveConnectionFlowControlWindow from)
    (receiveStreamFlowControlWindow h) (receiveConnectionFlowControlWindow h)
    (maxReceiveStreamFlowControlWindow h) (maxReceiveConnectionFlowControlWindow h).

Lemma MinUint32_min a b : MinUint32 a b = Z.min a b.
Proof. unfold MinUint32. destruct (Z.ltb_spec a b); lia. Qed.

Lemma MinDuration_min a b : MinDuration a b = Z.min a b.
Proof. unfold MinDuration. destruct (Z.gtb_spec a b); lia. Qed.

Lemma read_limits_hello h from :
  parameters_ok from →
  read_limits (GetHelloMap from) h
  = (None, set_limits h (Z.min (maxStreamsPerConnection from) MaxStreamsPerConnection)
             MaxIncomingDynamicStreamsPerConnection
             (Z.min (idle_seconds from * Second) (idleConnectionStateLifetime h))).
Proof.
  intros Hok. pose proof (GetHelloMap_lookups from Hok) as (L1 & L2 & L3 & _ & _ & L6).
  pose proof (idle_seconds_u32 from Hok) as Hsec. destruct Hok as (Hm & _). unfold read_limits.
  assert (match cp_perspective h with
          | PerspectiveServer => param (GetHelloMap from) TagTCID always (λ h v, set_truncate h (v =? 0)) (None, h)
          | PerspectiveClient => (None, h) end = (None, h)) as ->.
  { destruct (cp_perspective h); [by rewrite param_absent|done]. }
  cbv zeta. rewrite (param_present _ _ _ _ _ _ L2), (param_present _ _ _ _ _ _ L3), (param_present _ _ _ _ _ _ L1)
    by done.
  unfold negotiateMaxStreamsPerConnection, negotiateMaxIncomingDynamicStreamsPerConnection,
    negotiateIdleConnectionStateLifetime. rewrite !MinUint32_min, MinDuration_min. done.
Qed.

Lemma SetFromMap_hello h from :
  parameters_ok from → flowControlNegotiated h = false →
  SetFromMap h (GetHelloMap from) = (None, taken_over h from).
Proof.
  intros Hok Hneg. unfold SetFromMap. rewrite read_limits_hello by done.
  pose proof (GetHelloMap_lookups from Hok) as (_ & _ & _ & L4 & L5 & _). destruct Hok as (_ & _ & Hs & Hc).
  cbv zeta. rewrite (param_present _ _ _ _ _ _ L5) by (done || by unfold unless_negotiated; simpl; rewrite Hneg).
  rewrite (param_present _ _ _ _ _ _ L4) by (done || by unfold unless_negotiated; simpl; rewrite Hneg).
  by rewrite L4, bool_decide_eq_true_2 by eauto.
Qed.

Lemma SetFromMap_again h from :
  parameters_ok from → flowControlNegotiated h = true →
  ∃ h', SetFromMap h (GetHelloMap from) = (Some ErrFlowControlRenegotiationNotSupported, h') ∧
    flow_parameters h' = flow_parameters h.
Proof.
  intros Hok Hneg. unfold SetFromMap. rewrite read_limits_hello by done.
  pose proof (GetHelloMap_lookups from Hok) as (_ & _ & _ & _ & L5 & _).
  cbv zeta. rewrite (param_refused _ _ _ _ _ _ ErrFlowControlRenegotiationNotSupported L5)
    by (unfold unless_negotiated; simpl; by rewrite Hneg).
  rewrite param_failed. by eexists.
Qed.

(** The hello of a side, on the wire. *)
Definition hello_bytes (t : Z) (h : connectionParametersManager) : list Z :=
  HandshakeMessage_Write (mkMessage t (GetHelloMap h)).

Lemma hello_parses t h s :
  is_u32 t → ParseHandshakeMessage (hello_bytes t h ++ s) = Ok (mkMessage t (GetHelloMap h), s).
Proof.
  intros Ht. apply ParseHandshakeMessage_Write. split; [done|].
  unfold GetHelloMap. rewrite !write_32. unfold enc, LittleEndian_laws. cbv zeta. cbn [hm_Data]. split.
  - rewrite !map_size_insert_None; [done|..]; repeat (rewrite lookup_insert_ne by (vm_compute; congruence));
      apply lookup_empty.
  - repeat apply map_Forall_insert_2; [..|apply map_Forall_empty];
      (split; [concrete_u32|split; [apply le_split_bytes|by rewrite length_le_split]]).
Qed.

(** The messages of a negotiation: the client's hello, read by the server, and the server's hello,
    read by the client. *)
Definition negotiate (client server : connectionParametersManager)
  : result (connectionParametersManager * connectionParametersManager) :=
  '(chlo, _) ← ParseHandshakeMessage (hello_bytes TagCHLO client);
  match SetFromMap server (hm_Data chlo) with
  | (Some e, _) => Err e
  | (None, server) =>
      '(shlo, _) ← ParseHandshakeMessage (hello_bytes TagSHLO server);
      match SetFromMap client (hm_Data shlo) with
      | (Some e, _) => Err e
      | (None, client) => Ok (client, server)
      end
  end.

(** C28: two sides that negotiate by their hello messages, over the wire, end up with matching
    parameters, whatever idle timeouts and maximum windows they were configured with: each side's
    send windows, for streams and for the connection, are the windows the other side receives with;
    the numbers of streams are within the limits; neither idle timeout exceeds what either side was
    configured with, and they differ by less than a second; and the client's hello, sent a second time, cannot change the
    windows. *)
Theorem negotiation_agrees (v maxS maxC maxS' maxC' idle idle' : Z) :
  0 <= idle < 2^32 * Second → 0 <= idle' < 2^32 * Second →
  let client := NewConnectionParamatersManager PerspectiveClient v maxS maxC idle in
  let server := NewConnectionParamatersManager PerspectiveServer v maxS' maxC' idle' in
  ∃ c s, negotiate client server = Ok (c, s) ∧
    GetSendStreamFlowControlWindow (flow_parameters c) = GetReceiveStreamFlowControlWindow (flow_parameters s) ∧
    GetSendConnectionFlowControlWindow (flow_parameters c) = GetReceiveConnectionFlowControlWindow (flow_parameters s) ∧
    GetSendStreamFlowControlWindow (flow_parameters s) = GetReceiveStreamFlowControlWindow (flow_parameters c) ∧
    GetSendConnectionFlowControlWindow (flow_parameters s) = GetReceiveConnectionFlowControlWindow (flow_parameters c) ∧
    GetMaxOutgoingStreams (stream_limits c) <= GetMaxIncomingStreams (stream_limits s) ∧
    GetMaxOutgoingStreams (stream_limits s) <= GetMaxIncomingStreams (stream_limits c) ∧
    idleConnectionStateLifetime c <= idleConnectionStateLifetime s <= Z.min idle idle' ∧
    idleConnectionStateLifetime s - idleConnectionStateLifetime c < Second ∧
    (SetFromMap s (GetHelloMap client)).1 = Some ErrFlowControlRenegotiationNotSupported ∧
    flow_parameters (SetFromMap s (GetHelloMap client)).2 = flow_parameters s.
Proof.
  intros Hi Hi' client server.
  assert (parameters_ok client) as Hc by (unfold parameters_ok, is_u32; split_and!; first [exact (proj1 Hi)|exact (proj2 Hi)|vm_compute; congruence]).
  set (s := taken_over server client). set (c := taken_over client s).
  assert (0 <= idleConnectionStateLifetime s <= idle' ∧ idleConnectionStateLifetime s <= idle) as [Hs1 Hs2].
  { pose proof (Z.mul_div_le idle Second). assert (0 <= idle / Second) by (apply Z.div_pos; [lia|reflexivity]).
    unfold s, taken_over. simpl. unfold idle_seconds. simpl. unfold Second, Millisecond, Microsecond in *. lia. }
  assert (parameters_ok s) as Hs.
  { unfold parameters_ok, is_u32. split_and!; first [lia|vm_compute; congruence]. }
  exists c, s. split.
  - unfold negotiate. rewrite <- (app_nil_r (hello_bytes TagCHLO client)), hello_parses by concrete_u32.
    cbn [mbind result_bind hm_Data]. rewrite SetFromMap_hello by done. fold s.
    rewrite <- (app_nil_r (hello_bytes TagSHLO s)), hello_parses by concrete_u32.
    cbn [mbind result_bind hm_Data]. by rewrite SetFromMap_hello.
  - do 4 (split; [done|]). split; [vm_compute; congruence|]. split; [vm_compute; congruence|].
    destruct (SetFromMap_again s client Hc) as (h' & -> & Hf); [done|].
    assert (idleConnectionStateLifetime c = Z.min (idleConnectionStateLifetime s / Second * Second) idle) as -> by done.
    pose proof (Z.div_mod (idleConnectionStateLifetime s) Second) as Hdm.
    pose proof (Z.mod_pos_bound (idleConnectionStateLifetime s) Second) as Hmod.
    split; [|split; [|done]]; unfold Second, Millisecond, Microsecond in *; lia.
Qed.

Lemma negotiation_agrees_witness :
  ∃ c s, negotiate (NewConnectionParamatersManager PerspectiveClient 512 1000000 1000000 (30 * Second))
           (NewConnectionParamatersManager PerspectiveServer 512 1000000 1000000 (25 * Second + 7)) = Ok (c, s) ∧
    idleConnectionStateLifetime c <= idleConnectionStateLifetime s <= Z.min (30 * Second) (25 * Second + 7).
Proof.
  destruct (negotiation_agrees 512 1000000 1000000 1000000 1000000 (30 * Second) (25 * Second + 7))
    as (c & s & Hn & _ & _ & _ & _ & _ & _ & Hi & _); [vm_compute; split; congruence..|].
  exists c, s. split; [exact Hn|exact Hi].
Defined.
