(* ===== verification/Packer.v ===== *)
(** * The packet packer

    packet_number_generator.go and packet_packer.go: the packet numbers of a path, and the assembly
    of packets from the queued STOP_WAITING and ACK frames of a path, the control frames and the
    stream data, written behind a public header and sealed.  A packer works on its own state and on
    the path the packet is for; both are the state of a small monad with errors.  What the crypto
    setup offers -- sealers for an encryption level, the diversification nonce -- is a record of
    operations with the laws of an AEAD. *)

From stdpp Require Import pretty.
From S2P Require Import Prelude ByteOrder Protocol Frames StreamFrame AckFrame ClosePathFrame FrameSorter FlowControl.
From S2P Require Import Stream StreamScheduler StreamsMap PathScheduler StreamFramer Congestion SentPackets.
From S2P Require Import Handshake ConnectionParameters PublicHeader Unpacker.

(** ** Packet numbers *)

Record packetNumberGenerator : Type := mkGenerator {
  averagePeriod : Z;
  pn_next : Z;
  nextToSkip : Z;
}.

Definition SkipPacketAveragePeriodLength : Z := 500.

Definition newPacketNumberGenerator (averagePeriod : Z) : packetNumberGenerator :=
  mkGenerator averagePeriod 1 0.

Definition Peek (p : packetNumberGenerator) : Z := pn_next p.

(** The two bytes the source of randomness gives, if it does. *)
Definition random_bytes : Type := option (Z * Z).

Definition getRandomNumber (b : random_bytes) : option Z :=
  '(b0, b1) ← b; Some (u16 (u16 (Z.shiftl b0 8) + b1)).

Definition generateNewSkip (b : random_bytes) (p : packetNumberGenerator) : packetNumberGenerator :=
  match getRandomNumber b with
  | None => p
  | Some num =>
      let skip := u64 (num * (averagePeriod p -u64 1)) / 32767 in
      mkGenerator (averagePeriod p) (pn_next p) ((pn_next p +u64 2) +u64 skip)
  end.

Definition Pop (b : random_bytes) (p : packetNumberGenerator) : Z * packetNumberGenerator :=
  let next := pn_next p in
  let p := mkGenerator (averagePeriod p) (pn_next p +u64 1) (nextToSkip p) in
  if pn_next p =? nextToSkip p
  then (next, generateNewSkip b (mkGenerator (averagePeriod p) (pn_next p +u64 1) (nextToSkip p)))
  else (next, p).

(** ** The packer *)

(** internal/handshake/interface.go: a sealer, and what the packer asks of the crypto setup. *)
Record Sealer : Type := mkSealer {
  Seal : list Z → Z → list Z → list Z;
  Overhead : Z;
}.

Record CryptoSetup : Type := mkCryptoSetup {
  GetSealer : Z * Sealer;
  GetSealerForCryptoStream : Z * Sealer;
  GetSealerWithEncryptionLevel : Z → result Sealer;
  cs_DiversificationNonce : list Z;
}.

Record packedPacket : Type := mkPacked {
  pk_number : Z;
  pk_raw : list Z;
  pk_frames : list frame;
  pk_encryptionLevel : Z;
}.

(** What the packer uses of a path; whether its session exists and has completed the handshake. *)
Record packetPath : Type := mkPacketPath {
  pth_pathID : Z;
  pth_generator : packetNumberGenerator;
  pth_leastUnacked : Z;
  pth_handshakeComplete : bool;
}.

Definition SetLeastUnacked (pth : packetPath) (leastUnacked : Z) : packetPath :=
  mkPacketPath (pth_pathID pth) (pth_generator pth) leastUnacked (pth_handshakeComplete pth).

Definition set_generator (pth : packetPath) (g : packetNumberGenerator) : packetPath :=
  mkPacketPath (pth_pathID pth) g (pth_leastUnacked pth) (pth_handshakeComplete pth).

Record packetPacker : Type := mkPacker {
  pp_connectionID : Z;
  pp_perspective : Perspective;
  pp_version : Z;
  pp_cryptoSetup : CryptoSetup;
  pp_connectionParameters : connectionParametersManager;
  pp_streamFramer : streamFramer;
  controlFrames : list frame;
  pp_stopWaiting : gmap Z StopWaitingFrame;
  pp_ackFrame : gmap Z AckFrame;
}.

Definition newPacketPacker (connectionID : Z) (cryptoSetup : CryptoSetup)
    (connectionParameters : connectionParametersManager) (framer : streamFramer)
    (perspective : Perspective) (version : Z) : packetPacker :=
  mkPacker connectionID perspective version cryptoSetup connectionParameters framer [] ∅ ∅.

Definition set_framer (p : packetPacker) (f : streamFramer) : packetPacker :=
  mkPacker (pp_connectionID p) (pp_perspective p) (pp_version p) (pp_cryptoSetup p)
    (pp_connectionParameters p) f (controlFrames p) (pp_stopWaiting p) (pp_ackFrame p).

Definition set_control (p : packetPacker) (c : list frame) : packetPacker :=
  mkPacker (pp_connectionID p) (pp_perspective p) (pp_version p) (pp_cryptoSetup p)
    (pp_connectionParameters p) (pp_streamFramer p) c (pp_stopWaiting p) (pp_ackFrame p).

Definition set_path_frames (p : packetPacker) (sw : gmap Z StopWaitingFrame) (ack : gmap Z AckFrame)
  : packetPacker :=
  mkPacker (pp_connectionID p) (pp_perspective p) (pp_version p) (pp_cryptoSetup p)
    (pp_connectionParameters p) (pp_streamFramer p) (controlFrames p) sw ack.

Definition QueueControlFrame (p : packetPacker) (f : frame) (pathID : Z) : packetPacker :=
  match f with
  | FStopWaiting f => set_path_frames p (<[pathID := f]> (pp_stopWaiting p)) (pp_ackFrame p)
  | FAck f => set_path_frames p (pp_stopWaiting p) (<[pathID := f]> (pp_ackFrame p))
  | f => set_control p (controlFrames p ++ [f])
  end.

Definition canSendData (p : packetPacker) (encLevel : Z) : bool :=
  match pp_perspective p with
  | PerspectiveClient => encLevel >=? EncryptionSecure
  | PerspectiveServer => encLevel =? EncryptionForwardSecure
  end.

Definition getPublicHeader (p : packetPacker) (encLevel : Z) (pth : packetPath) : PublicHeader :=
  let pnum := Peek (pth_generator pth) in
  let packetNumberLen := GetPacketNumberLengthForPublicHeader pnum (pth_leastUnacked pth) in
  let nonce := if bool_decide (pp_perspective p = PerspectiveServer) && (encLevel =? EncryptionSecure)
               then cs_DiversificationNonce (pp_cryptoSetup p) else [] in
  let versionFlag := bool_decide (pp_perspective p = PerspectiveClient)
                     && negb (encLevel =? EncryptionForwardSecure) in
  let multipath := pth_handshakeComplete pth && (pp_version p >=? VersionMP) in
  {| Raw := []; ConnectionID := pp_connectionID p;
     hdr_PathID := if multipath then pth_pathID pth else 0;
     VersionFlag := versionFlag; ResetFlag := false;
     TruncateConnectionID :=
       if multipath then false else cpm_TruncateConnectionID (pp_connectionParameters p);
     MultipathFlag := multipath; PacketNumberLen := packetNumberLen; PacketNumber := pnum;
     VersionNumber := if versionFlag then pp_version p else 0;
     SupportedVersions := []; DiversificationNonce := nonce |}.

(** ** The monad of packing *)

Definition packing (A : Type) : Type := packetPacker * packetPath → result A * (packetPacker * packetPath).

#[export] Instance packing_ret : MRet packing := λ A a st, (Ok a, st).
#[export] Instance packing_bind : MBind packing := λ A B f m st,
  match m st with
  | (Ok a, st) => f a st
  | (Err e, st) => (Err e, st)
  | (Panic w, st) => (Panic w, st)
  end.

Definition throw {A} (e : error) : packing A := λ st, (Err e, st).
Definition lift {A} (r : result A) : packing A := λ st, (r, st).
Definition getPacker : packing packetPacker := λ st, (Ok st.1, st).
Definition getPath : packing packetPath := λ st, (Ok st.2, st).
Definition modify (g : packetPacker → packetPacker) : packing unit := λ st, (Ok tt, (g st.1, st.2)).

(** An operation of the stream framer. *)
Definition framing_op {A} (op : connectionParametersManager → streamFramer → result A * streamFramer)
  : packing A := λ '(p, pth),
  let '(r, f) := op (pp_connectionParameters p) (pp_streamFramer p) in (r, (set_framer p f, pth)).

Section Packing.
Context (now : Z) (rnd : random_bytes).

Definition errTooLarge : error := ErrorString "PacketPacker BUG: packet too large".
Definition errNumbers : error :=
  ErrorString "packetPacker BUG: Peeked and Popped packet numbers do not match".

Fixpoint write_frames (fs : list frame) (version : Z) : result (list Z) :=
  match fs with
  | [] => Ok []
  | f :: fs => b ← frame_Write now f version; bs ← write_frames fs version; Ok (b ++ bs)
  end.

(** The sealer works in place, behind the header, in a buffer with room for its overhead. *)
Definition writeAndSealPacket (publicHeader : PublicHeader) (payloadFrames : list frame)
    (sealer : Sealer) : packing (list Z) :=
  p ← getPacker;
  header ← lift (PublicHeader_Write publicHeader (pp_version p) (pp_perspective p));
  payload ← lift (write_frames payloadFrames (pp_version p));
  if Z.of_nat (length header + length payload) + Overhead sealer >? MaxPacketSize
  then throw errTooLarge
  else
    num ← (λ '(p, pth), let '(num, g) := Pop rnd (pth_generator pth) in (Ok num, (p, set_generator pth g)));
    if negb (num =? PacketNumber publicHeader) then throw errNumbers
    else mret (header ++ Seal sealer payload (PacketNumber publicHeader) header).

Definition packed (h : PublicHeader) (fs : list frame) (level : Z) (sealer : Sealer) : packing packedPacket :=
  raw ← writeAndSealPacket h fs sealer;
  mret (mkPacked (PacketNumber h) raw fs level).

Definition PackConnectionClose (ccf : ConnectionCloseFrame) : packing packedPacket :=
  p ← getPacker; pth ← getPath;
  let '(encLevel, sealer) := GetSealer (pp_cryptoSetup p) in
  packed (getPublicHeader p encLevel pth) [FConnectionClose ccf] encLevel sealer.

(** The STOP_WAITING frame of the path gets the packet number of the packet. *)
Definition number_frame (h : PublicHeader) (f : StopWaitingFrame) : StopWaitingFrame :=
  {| sw_LeastUnacked := sw_LeastUnacked f; sw_PacketNumberLen := PacketNumberLen h;
     sw_PacketNumber := PacketNumber h |}.

Definition errNoAck : error := ErrorString "packet packer BUG: no ack frame queued".

Definition PackAckPacket : packing packedPacket :=
  p ← getPacker; pth ← getPath;
  let id := pth_pathID pth in
  match pp_ackFrame p !! id with
  | None => throw errNoAck
  | Some ack =>
      let '(encLevel, sealer) := GetSealer (pp_cryptoSetup p) in
      let ph := getPublicHeader p encLevel pth in
      let fs := FAck ack :: match pp_stopWaiting p !! id with
                            | Some sw => [FStopWaiting (number_frame ph sw)]
                            | None => []
                            end in
      _ ← modify (λ p, set_path_frames p (delete id (pp_stopWaiting p)) (delete id (pp_ackFrame p)));
      packed ph fs encLevel sealer
  end.

Definition errForwardSecure : error := ErrorString
  "PacketPacker BUG: forward-secure encrypted handshake packets don't need special treatment".
Definition errNoStopWaiting : error := ErrorString
  "PacketPacker BUG: Handshake retransmissions must contain a StopWaitingFrame".

Definition PackHandshakeRetransmission (packet : Packet) : packing packedPacket :=
  if EncryptionLevel packet =? EncryptionForwardSecure then throw errForwardSecure
  else
    p ← getPacker; pth ← getPath;
    let id := pth_pathID pth in
    sealer ← lift (GetSealerWithEncryptionLevel (pp_cryptoSetup p) (EncryptionLevel packet));
    match pp_stopWaiting p !! id with
    | None => throw errNoStopWaiting
    | Some sw =>
        let ph := getPublicHeader p (EncryptionLevel packet) pth in
        let fs := FStopWaiting (number_frame ph sw) :: p_Frames packet in
        _ ← modify (λ p, set_path_frames p (delete id (pp_stopWaiting p)) (pp_ackFrame p));
        packed ph fs (EncryptionLevel packet) sealer
    end.

Definition NonForwardSecurePacketSizeReduction : Z := 50.

(** Writing a nil frame dereferences it. *)
Definition packCryptoPacket : packing packedPacket :=
  p ← getPacker; pth ← getPath;
  let '(encLevel, sealer) := GetSealerForCryptoStream (pp_cryptoSetup p) in
  let ph := getPublicHeader p encLevel pth in
  len ← lift (PublicHeader_GetLength ph (pp_perspective p));
  let maxLen := ((MaxPacketSize -u64 Overhead sealer) -u64 NonForwardSecurePacketSizeReduction) -u64 len in
  f ← framing_op (λ params f, PopCryptoStreamFrame (stream_limits params) f maxLen);
  match f with
  | None => lift (Panic "nil pointer dereference")
  | Some f => packed ph [FStream f] encLevel sealer
  end.

(** The loop over the control frames, from the last one of the queue: the frames that fit and their
    length, and the rest of the queue, also when a length fails. *)
Fixpoint pop_control (version maxFrameSize payloadLength : Z) (queue : list frame)
  : result (list frame * Z) * list frame :=
  match queue with
  | [] => (Ok ([], payloadLength), [])
  | f :: rest =>
      match frame_MinLength f version with
      | Ok minLength =>
          if payloadLength +u64 minLength >? maxFrameSize then (Ok ([], payloadLength), queue)
          else match pop_control version maxFrameSize (payloadLength +u64 minLength) rest with
               | (Ok (fs, len), rest) => (Ok (f :: fs, len), rest)
               | r => r
               end
      | Err e => (Err e, queue)
      | Panic w => (Panic w, queue)
      end
  end.

(** The loop that moves the BLOCKED frames of the framer to the control frames. *)
Fixpoint queue_blocked (n : nat) (p : packetPacker) : packetPacker :=
  match n with
  | O => p
  | S n => match PopBlockedFrame (pp_streamFramer p) with
           | (Some b, f) => queue_blocked n (set_control (set_framer p f) (controlFrames p ++ [FBlocked b]))
           | (None, f) => set_framer p f
           end
  end.

(** The STOP_WAITING and ACK frames of a path. *)
Definition path_frames (p : packetPacker) (id : Z) : list frame :=
  match pp_stopWaiting p !! id with Some sw => [FStopWaiting sw] | None => [] end
  ++ match pp_ackFrame p !! id with Some ack => [FAck ack] | None => [] end.

Fixpoint min_lengths (fs : list frame) (version : Z) (len : Z) : result Z :=
  match fs with
  | [] => Ok len
  | f :: fs => l ← frame_MinLength f version; min_lengths fs version (len +u64 l)
  end.

(** The last frame of a packet extends to its end. *)
Fixpoint open_last (fs : list StreamFrame) : list StreamFrame :=
  match fs with
  | [] => []
  | [f] => [{| StreamID := StreamID f; FinBit := FinBit f; DataLenPresent := false;
               Offset := Offset f; Data := Data f |}]
  | f :: fs => f :: open_last fs
  end.

Definition errPayloadTooLarge (payloadLength maxFrameSize : Z) : error :=
  ErrorString ("Packet Packer BUG: packet payload (" ++ pretty payloadLength ++ ") too large ("
               ++ pretty maxFrameSize ++ ")").

Definition composeNextPacket (maxFrameSize : Z) (canSendStreamFrames : bool) : packing (list frame) :=
  p ← getPacker; pth ← getPath;
  let first := path_frames p (pth_pathID pth) in
  payloadLength ← lift (min_lengths first (pp_version p) 0);
  '(control, payloadLength) ← (λ '(p, pth),
    let '(r, rest) := pop_control (pp_version p) maxFrameSize payloadLength (rev (controlFrames p)) in
    (r, (set_control p (rev rest), pth)));
  if payloadLength >? maxFrameSize then throw (errPayloadTooLarge payloadLength maxFrameSize)
  else if negb canSendStreamFrames then mret (first ++ control)
  else
    fs ← framing_op (λ params f,
           match PopStreamFrames (flow_parameters params) f ((maxFrameSize +u64 2) -u64 payloadLength) with
           | Ok (fs, f) => (Ok fs, f)
           | Err e => (Err e, f)
           | Panic w => (Panic w, f)
           end);
    _ ← modify (λ p, queue_blocked (S (length (blockedFrameQueue (pp_streamFramer p)))) p);
    mret (first ++ control ++ (FStream <$> open_last fs)).

(** The packet number in the queued STOP_WAITING frame of a path. *)
Definition number_stop_waiting (h : PublicHeader) (id : Z) (p : packetPacker) : packetPacker :=
  match pp_stopWaiting p !! id with
  | Some sw => set_path_frames p (<[id := number_frame h sw]> (pp_stopWaiting p)) (pp_ackFrame p)
  | None => p
  end.

(** The frames of the next packet: a PING at the head of the control frames goes alone. *)
Definition payload_frames (maxSize : Z) (canSend : bool) : packing (list frame) :=
  p ← getPacker;
  match controlFrames p with
  | FPing pf :: rest => _ ← modify (λ p, set_control p rest); mret [FPing pf]
  | _ => composeNextPacket maxSize canSend
  end.

Definition PackPacket : packing (option packedPacket) :=
  crypto ← framing_op (λ params f, HasCryptoStreamFrame (stream_limits params) f);
  if (crypto : bool) then pkt ← packCryptoPacket; mret (Some pkt)
  else
    p ← getPacker; pth ← getPath;
    let id := pth_pathID pth in
    let '(encLevel, sealer) := GetSealer (pp_cryptoSetup p) in
    let ph := getPublicHeader p encLevel pth in
    len ← lift (PublicHeader_GetLength ph (pp_perspective p));
    _ ← modify (number_stop_waiting ph id);
    fs ← payload_frames ((MaxPacketSize -u64 Overhead sealer) -u64 len) (canSendData p encLevel);
    p ← getPacker;
    if (length fs =? 0)%nat then mret None
    else if (length fs =? 1)%nat && bool_decide (is_Some (pp_stopWaiting p !! id)) then mret None
    else
      _ ← modify (λ p, set_path_frames p (delete id (pp_stopWaiting p)) (delete id (pp_ackFrame p)));
      pkt ← packed ph fs encLevel sealer;
      mret (Some pkt).

(** The least unacknowledged packet is what the path's sent packet handler reports. *)
Definition PackPing (pf : PingFrame) (leastUnacked : Z) : packing (option packedPacket) :=
  _ ← (λ '(p, pth), (Ok tt, (set_control p (FPing pf :: controlFrames p), SetLeastUnacked pth leastUnacked)));
  PackPacket.

End Packing.

(** ** Headers on the wire *)

(** What a header says on the wire: the connection ID may be left out, and the packet number is cut
    to its length. *)
Definition wire_header (h : PublicHeader) : PublicHeader :=
  {| Raw := Raw h; ConnectionID := if TruncateConnectionID h then 0 else ConnectionID h;
     hdr_PathID := hdr_PathID h; VersionFlag := VersionFlag h; ResetFlag := ResetFlag h;
     TruncateConnectionID := TruncateConnectionID h; MultipathFlag := MultipathFlag h;
     PacketNumberLen := PacketNumberLen h;
     PacketNumber := PacketNumber h mod 2^(8 * PacketNumberLen h);
     VersionNumber := VersionNumber h; SupportedVersions := SupportedVersions h;
     DiversificationNonce := DiversificationNonce h |}.

Lemma write_number_wire bo len pn :
  valid_pn_len len → write_packet_number bo len (pn mod 2^(8 * len)) = write_packet_number bo len pn.
Proof.
  intros [->|[->|[->| ->]]]; unfold write_packet_number; simpl Z.eqb; cbv iota.
  - unfold u8. by rewrite Zmod_mod.
  - unfold u16. by rewrite Zmod_mod.
  - unfold u32. by rewrite Zmod_mod.
  - change (Z.shiftl 1 48 - 1) with (Z.ones 48). rewrite !Z.land_ones by lia. by rewrite Zmod_mod.
Qed.

Lemma PublicHeader_Write_wire h v pers :
  valid_pn_len (PacketNumberLen h) → PublicHeader_Write (wire_header h) v pers = PublicHeader_Write h v pers.
Proof.
  intros Hl. unfold PublicHeader_Write. cbn [wire_header PacketNumber PacketNumberLen ConnectionID].
  rewrite write_number_wire by done. by destruct (TruncateConnectionID h) eqn:E; cbn; rewrite ?E.
Qed.

Lemma header_pn_len pn lu : valid_pn_len (GetPacketNumberLengthForPublicHeader pn lu).
Proof.
  unfold GetPacketNumberLengthForPublicHeader, valid_pn_len, PacketNumberLen2, PacketNumberLen4, PacketNumberLen6.
  case_ifs; auto.
Qed.

(** ** Sizes *)

Lemma GetPacketNumberLength_range pn : 1 <= GetPacketNumberLength pn <= 6.
Proof.
  unfold GetPacketNumberLength, PacketNumberLen1, PacketNumberLen2, PacketNumberLen4, PacketNumberLen6.
  case_ifs; lia.
Qed.

Lemma ack_length_small f v n :
  AckFrame_ok f → 1 <= ack_LowestAcked f → first_gap_fits f →
  AckFrame_MinLength f v = Ok n → 0 <= n < 2^16.
Proof.
  intros Hok Hlow Hgap. pose proof (GetPacketNumberLength_range (ack_LargestAcked f)).
  destruct (deltaLen_ok f Hok Hlow) as (Hdl & _ & _).
  assert (1 <= getMissingSequenceNumberDeltaLen f <= 6) by (destruct Hdl as [->|[->|[->| ->]]]; lia).
  unfold AckFrame_MinLength. intros [= <-]. destruct (HasMissingRanges f) eqn:Em.
  - unfold HasMissingRanges in Em. destruct (ack_AckRanges f) as [|r0 l] eqn:E; [done|].
    destruct (numWritable_ok f Hok Hlow Hgap r0 l E) as (-> & Hb & _).
    destruct Hdl as [->|[->|[->| ->]]], (negb (ack_PathID f =? _)); lia.
  - destruct (negb _); lia.
Qed.

Lemma close_path_length_small f v n :
  ClosePathFrame_ok f → 1 <= cp_LowestAcked f → first_gap_fits (cp_ack f) →
  ClosePathFrame_MinLength f v = Ok n → 0 <= n < 2^16.
Proof.
  intros Hok Hlow Hgap Hn. destruct (ack_length_small (cp_ack f) v (match AckFrame_MinLength (cp_ack f) v with Ok n => n | _ => 0 end) Hok Hlow Hgap eq_refl) as [_ H2].
  unfold AckFrame_MinLength, ClosePathFrame_MinLength in *. injection Hn as <-.
  pose proof (GetPacketNumberLength_range (cp_LargestAcked f)).
  destruct (deltaLen_ok (cp_ack f) Hok Hlow) as (Hdl & _ & _).
  assert (1 <= getMissingSequenceNumberDeltaLen (cp_ack f) <= 6) by (destruct Hdl as [->|[->|[->| ->]]]; lia).
  change (ClosePathFrame_HasMissingRanges f) with (HasMissingRanges (cp_ack f)).
  change (ClosePathFrame_getMissingSequenceNumberDeltaLen f) with (getMissingSequenceNumberDeltaLen (cp_ack f)).
  change (ClosePathFrame_numWritableNackRanges f) with (numWritableNackRanges (cp_ack f)).
  destruct (HasMissingRanges (cp_ack f)) eqn:Em; [|lia].
  unfold HasMissingRanges in Em. destruct (ack_AckRanges (cp_ack f)) as [|r0 l] eqn:E; [done|].
  destruct (numWritable_ok (cp_ack f) Hok Hlow Hgap r0 l E) as (Hw & Hb & _). rewrite Hw in *.
  destruct Hdl as [->|[->|[->| ->]]]; lia.
Qed.

(** A frame that goes into a packet by its announced length. *)
Definition plain (hdr : PublicHeader) (level : Z) (f : frame) : Prop :=
  frame_ok hdr level f ∧ (∀ g, f = FPaths g → pf_NumPaths g <= 84) ∧ (∀ g, f <> FStream g).

Lemma plain_small hdr level v f n : plain hdr level f → frame_MinLength f v = Ok n → 0 <= n < 2^16.
Proof.
  intros (Hok & Hp & Hs) Hn. destruct f as [f|f|f|f|f|f|f|f|f|f|f|f]; cbn [frame_MinLength frame_ok] in *.
  - by destruct (Hs f).
  - destruct Hok as (? & ? & ?). by eapply ack_length_small.
  - injection Hn as <-. lia.
  - injection Hn as <-. destruct Hok as (_ & _ & Hl). unfold MaxPacketSize in Hl. lia.
  - injection Hn as <-. destruct Hok as (_ & _ & _ & Hl). unfold MaxPacketSize in Hl. lia.
  - injection Hn as <-. lia.
  - injection Hn as <-. lia.
  - destruct Hok as (_ & _ & Hl & _). unfold StopWaitingFrame_MinLength in Hn.
    destruct (_ =? _) in Hn; [done|]. injection Hn as <-. destruct Hl as [->|[->|[->| ->]]]; lia.
  - injection Hn as <-. lia.
  - unfold AddAddressFrame_MinLength in Hn. case_match; [|case_match]; simplify_eq; lia.
  - destruct Hok as (? & ? & ?). by eapply close_path_length_small.
  - injection Hn as <-. pose proof (u8_range (1 + 1 + 1 + u8 (3 * pf_NumPaths f))) as Hr. unfold is_u8 in Hr. lia.
Qed.

Section Payload.
Context (now v level : Z) (hdr : PublicHeader).

Lemma write_frames_app fs gs bs cs :
  write_frames now fs v = Ok bs → write_frames now gs v = Ok cs →
  write_frames now (fs ++ gs) v = Ok (bs ++ cs).
Proof.
  revert bs. induction fs as [|f fs IH]; intros bs; cbn [write_frames app]; [by intros [= <-]|].
  intros H Hg. res_inv. simplify_eq. rewrite H. cbn [mbind result_bind]. by rewrite (IH _ H0 Hg), <- app_assoc.
Qed.

Lemma write_frames_payload fs : write_frames now fs v = payload v now (Some <$> fs).
Proof. induction fs as [|f fs IH]; [done|]. cbn [write_frames payload fmap list_fmap]. by rewrite IH. Qed.

Lemma plain_written f :
  plain hdr level f → ∃ bs, frame_Write now f v = Ok bs ∧ frame_MinLength f v = Ok (Z.of_nat (length bs)) ∧
    Z.of_nat (length bs) < 2^16.
Proof.
  intros Hf. pose proof Hf as (Hok & Hp & Hs).
  destruct (frame_length_exact now v level hdr f Hok Hp) as (bs & n & Hw & Hm & Hl). exists bs.
  pose proof (plain_small hdr level v f n Hf Hm). destruct f; cbn [extra_length] in Hl; [by destruct (Hs f)|..];
    rewrite Hm; split_and!; [done|f_equal; lia|lia|..]; try done; try (f_equal; lia); lia.
Qed.

Lemma min_lengths_plain fs len :
  Forall (plain hdr level) fs → 0 <= len → len + 2^16 * Z.of_nat (length fs) < 2^63 →
  ∃ bs, write_frames now fs v = Ok bs ∧ min_lengths fs v len = Ok (len + Z.of_nat (length bs)) ∧
    Z.of_nat (length bs) <= 2^16 * Z.of_nat (length fs).
Proof.
  intros Hfs. revert len. induction Hfs as [|f fs Hf Hfs IH]; intros len Hlen Hb; cbn [write_frames min_lengths].
  { exists []. split_and!; [done|f_equal; cbn; lia|cbn; lia]. }
  destruct (plain_written f Hf) as (b & -> & -> & Hsm). cbn [mbind result_bind length] in *.
  rewrite u64_id by (unfold is_u64; lia).
  destruct (IH (len + Z.of_nat (length b))) as (bs & -> & -> & Hl); [lia|lia|].
  exists (b ++ bs). rewrite length_app. split_and!; [done|f_equal; lia|lia].
Qed.

Lemma pop_control_plain maxSize len queue :
  Forall (plain hdr level) queue → 0 <= len < 2^32 → maxSize < 2^32 →
  ∃ fs bs rest, pop_control v maxSize len queue = (Ok (fs, len + Z.of_nat (length bs)), rest) ∧
    queue = fs ++ rest ∧ write_frames now fs v = Ok bs ∧
    (len <= maxSize → len + Z.of_nat (length bs) <= maxSize) ∧ (len > maxSize → bs = []).
Proof.
  intros Hq. revert len. induction Hq as [|f queue Hf Hq IH]; intros len Hlen Hmax; cbn [pop_control].
  { exists [], [], []. split_and!; [|done|done|cbn; lia|done]. do 3 f_equal. cbn. lia. }
  destruct (plain_written f Hf) as (b & Hw & -> & Hsm). rewrite u64_id, Z.gtb_ltb by (unfold is_u64; lia).
  destruct (Z.ltb_spec maxSize (len + Z.of_nat (length b))).
  { exists [], [], (f :: queue). split_and!; [|done|done|cbn; lia|done]. do 3 f_equal. cbn. lia. }
  destruct (IH (len + Z.of_nat (length b))) as (fs & bs & rest & -> & -> & Hws & Hfit & _); [lia|done|].
  exists (f :: fs), (b ++ bs), rest. cbn [write_frames]. rewrite Hw, Hws, length_app. split_and!; [|done|done|lia|lia].
  do 3 f_equal. lia.
Qed.

Lemma stream_written f :
  StreamFrame_ok f → ∃ bs, StreamFrame_Write f v = Ok bs ∧ Z.of_nat (length bs) = frame_len f.
Proof.
  intros Hok. exists (match StreamFrame_Write f v with Ok bs => bs | _ => [] end).
  rewrite (StreamFrame_Write_eq v f Hok). split; [done|].
  pose proof (stream_length v f _ Hok (StreamFrame_Write_eq v f Hok)) as Hl.
  unfold frame_len, header_len. change (StreamFrame_MinLength f 0) with (StreamFrame_MinLength f v).
  rewrite Hl. lia.
Qed.

(** The stream frames of a packet, the last one without its length. *)
Lemma stream_frames_written fs n :
  Forall ready fs → fs <> [] → frames_len fs <= n + 2 → n <= MaxPacketSize - 2 → level > EncryptionUnencrypted →
  ∃ bs, write_frames now (FStream <$> open_last fs) v = Ok bs ∧ Z.of_nat (length bs) = frames_len fs - 2 ∧
    items_ok hdr level (Some <$> (FStream <$> open_last fs)).
Proof.
  intros Hfs Hne Hlen Hn Hlv. revert n Hlen Hn. induction Hfs as [|f fs [Hok Hp] Hfs IH]; [done|]. intros n Hlen Hn.
  pose proof (header_len_range f). pose proof (DataLen_nonneg f). pose proof (frames_len_nonneg fs).
  cbn [frames_len] in *. unfold frame_len in Hlen. unfold MaxPacketSize in Hn. destruct fs as [|g fs].
  - set (f' := {| StreamID := StreamID f; FinBit := FinBit f; DataLenPresent := false; Offset := Offset f; Data := Data f |}).
    assert (StreamFrame_ok f') as Hok' by done. destruct (stream_written f' Hok') as (bs & Hw & Hl).
    assert (header_len f' = header_len f - 2) as Eh.
    { unfold header_len, StreamFrame_MinLength. rewrite Hp. cbn. unfold f', calculateStreamIDLength, getOffsetLength. cbn. lia. }
    exists bs. cbn [open_last fmap list_fmap write_frames frame_Write]. fold f'. rewrite Hw. cbn [mbind result_bind].
    rewrite app_nil_r. cbn [frames_len] in *. unfold frame_len in *. rewrite Eh in Hl.
    change (DataLen f') with (DataLen f) in Hl. split_and!; [done|lia|]. cbn [items_ok frame_ok].
    split_and!; try done; [by right|]. change (DataLen f') with (DataLen f). cbn. lia.
  - destruct (stream_written f Hok) as (b & Hw & Hl).
    destruct (IH ltac:(done) (n - frame_len f)) as (bs & Hws & Hls & Hit).
    + cbn [frames_len] in *. unfold frame_len in *. lia.
    + unfold frame_len, MaxPacketSize. lia.
    + exists (b ++ bs). change (open_last (f :: g :: fs)) with (f :: open_last (g :: fs)).
      cbn [fmap list_fmap write_frames frame_Write]. rewrite Hw. cbn [mbind result_bind].
      change (list_fmap _ _ FStream (open_last (g :: fs))) with (FStream <$> open_last (g :: fs)).
      rewrite Hws. cbn [mbind result_bind]. split_and!; [done|rewrite length_app; lia|].
      cbn [items_ok frame_ok ends_packet]. rewrite Hp. split_and!; [done|by right| |done|done].
      unfold MaxPacketSize. cbn [frames_len] in *. unfold frame_len in *. pose proof (frames_len_nonneg fs). lia.
Qed.

Lemma items_ok_plain fs gs :
  Forall (plain hdr level) fs → items_ok hdr level (Some <$> gs) → items_ok hdr level (Some <$> (fs ++ gs)).
Proof.
  intros Hfs Hgs. induction Hfs as [|f fs (Hok & Hp & Hs) Hfs IH]; [done|]. cbn. split_and!; [done| |done].
  destruct f; try done. by destruct (Hs f).
Qed.
End Payload.

(** ** Composing a packet *)

(** What composing leaves as it is. *)
Definition same_setup (p q : packetPacker) : Prop :=
  pp_version q = pp_version p ∧ pp_perspective q = pp_perspective p ∧ pp_stopWaiting q = pp_stopWaiting p.

Lemma queue_blocked_setup n p : same_setup p (queue_blocked n p).
Proof.
  revert p. induction n as [|n IH]; intros p; [done|]. cbn [queue_blocked].
  destruct (PopBlockedFrame (pp_streamFramer p)) as [[b|] f]; [|done].
  by destruct (IH (set_control (set_framer p f) (controlFrames p ++ [FBlocked b]))) as (? & ? & ?).
Qed.

Lemma path_frames_length p id : (length (path_frames p id) <= 2)%nat.
Proof. unfold path_frames. destruct (pp_stopWaiting p !! id), (pp_ackFrame p !! id); cbn; lia. Qed.

Section Compose.
Context (now level : Z) (hdr : PublicHeader) (p : packetPacker) (pth : packetPath).
Context (Hcontrol : Forall (plain hdr level) (controlFrames p)).
Context (Hpath : Forall (plain hdr level) (path_frames p (pth_pathID pth))).
Context (Hframer : framer_ready (flow_parameters (pp_connectionParameters p)) (pp_streamFramer p)).

Definition composed (maxSize : Z) (fs : list frame) (p' : packetPacker) (pth' : packetPath) : Prop :=
  pth' = pth ∧ same_setup p p' ∧ items_ok hdr level (Some <$> fs) ∧
  ∃ bs, write_frames now fs (pp_version p) = Ok bs ∧ Z.of_nat (length bs) <= maxSize.

(** The ACK and STOP_WAITING frames alone do not fit. *)
Definition path_frames_too_long (maxSize : Z) (e : error) : Prop :=
  ∃ bs, write_frames now (path_frames p (pth_pathID pth)) (pp_version p) = Ok bs ∧
    maxSize < Z.of_nat (length bs) ∧ e = errPayloadTooLarge (Z.of_nat (length bs)) maxSize.

Lemma compose_ok maxSize canSend :
  0 <= maxSize <= MaxPacketSize - 2 → (canSend = true → level > EncryptionUnencrypted) →
  match composeNextPacket maxSize canSend (p, pth) with
  | (Ok fs, (p', pth')) => composed maxSize fs p' pth'
  | (Err e, _) => path_frames_too_long maxSize e
  | (Panic _, _) => False
  end.
Proof using Hcontrol Hpath Hframer.
  intros Hmax Hlv. unfold composeNextPacket, mbind, packing_bind, getPacker, getPath, lift. cbn [fst snd].
  set (first := path_frames p (pth_pathID pth)) in *.
  pose proof (path_frames_length p (pth_pathID pth)) as Hl2. fold first in Hl2.
  destruct (min_lengths_plain now (pp_version p) level hdr first 0 Hpath) as (b1 & Hw1 & -> & Hb1); [lia|lia|].
  destruct (pop_control_plain now (pp_version p) level hdr maxSize (0 + Z.of_nat (length b1)) (rev (controlFrames p)))
    as (fs & b2 & rest & -> & Hq & Hw2 & Hfit & Hnil); [by apply Forall_rev|lia|unfold MaxPacketSize in *; lia|].
  rewrite Z.gtb_ltb. destruct (Z.ltb_spec maxSize (0 + Z.of_nat (length b1) + Z.of_nat (length b2))).
  { exists b1. rewrite Hnil by lia. split_and!; [done|lia|]. f_equal. cbn. lia. }
  assert (Forall (plain hdr level) (first ++ fs)) as Hplain.
  { apply Forall_app. split; [done|]. apply Forall_rev in Hcontrol. rewrite Hq in Hcontrol. by apply Forall_app in Hcontrol as [? _]. }
  pose proof (write_frames_app now (pp_version p) first fs b1 b2 Hw1 Hw2) as Hw12.
  destruct canSend; cbn [negb].
  - specialize (Hlv eq_refl). unfold framing_op. cbn [pp_connectionParameters pp_streamFramer set_control].
    rewrite (u64_id (maxSize + 2)), u64_id by (unfold is_u64, MaxPacketSize in *; lia).
    destruct (PopStreamFrames_ready _ _ (maxSize + 2 - (0 + Z.of_nat (length b1) + Z.of_nat (length b2))) Hframer)
      as (ss & f' & -> & Hlen & Hready); [unfold MaxPacketSize in *; lia|]. cbn [modify mret packing_ret fst snd].
    unfold composed. split_and!; [done|..].
    + set (q := set_framer _ f'). destruct (queue_blocked_setup (S (length (blockedFrameQueue (pp_streamFramer q)))) q)
        as (E1 & E2 & E3). exact (conj E1 (conj E2 E3)).
    + rewrite app_assoc. apply items_ok_plain; [done|]. destruct ss as [|s ss]; [done|].
      destruct (stream_frames_written now (pp_version p) level hdr (s :: ss) maxSize Hready) as (_ & _ & _ & Hit); (done || lia).
    + destruct ss as [|s ss].
      { exists (b1 ++ b2). cbn [open_last fmap list_fmap]. rewrite app_nil_r, length_app. split; [done|lia]. }
      destruct (stream_frames_written now (pp_version p) level hdr (s :: ss) maxSize Hready) as (b3 & Hw3 & Hl3 & _); [done|lia..|].
      exists ((b1 ++ b2) ++ b3). rewrite app_assoc. split; [by apply write_frames_app|].
      rewrite !length_app. lia.
  - split_and!; [done|done|rewrite <- (app_nil_r (first ++ fs)); by apply items_ok_plain|].
    exists (b1 ++ b2). rewrite length_app. split; [done|lia].
Qed.
End Compose.

(** ** What the receiver makes of a packet *)

(** A header with its bytes and its full packet number. *)
Definition numbered (h : PublicHeader) (raw : list Z) (pn : Z) : PublicHeader :=
  {| Raw := raw; ConnectionID := ConnectionID h; hdr_PathID := hdr_PathID h; VersionFlag := VersionFlag h;
     ResetFlag := ResetFlag h; TruncateConnectionID := TruncateConnectionID h;
     MultipathFlag := MultipathFlag h; PacketNumberLen := PacketNumberLen h; PacketNumber := pn;
     VersionNumber := VersionNumber h; SupportedVersions := SupportedVersions h;
     DiversificationNonce := DiversificationNonce h |}.

(** The header is parsed by the server or the client, which keep its bytes; the path infers the
    packet number and unpacks the rest. *)
Definition receive (str : Z → string) (Open : list Z → Z → list Z → result (list Z * Z))
    (packetSentBy : Perspective) (headerVersion version largestRcvd : Z) (packet : list Z)
  : result (PublicHeader * unpackedPacket) :=
  '(hdr, data) ← ParsePublicHeader packetSentBy headerVersion packet;
  let hdr := numbered hdr (take (length packet - length data) packet)
               (InferPacketNumber (PacketNumberLen hdr) largestRcvd (PacketNumber hdr)) in
  pkt ← Unpack str Open version (Raw hdr) hdr data;
  Ok (hdr, pkt).

(** The laws of an AEAD: a sealed packet is longer by the overhead, and opens to what was sealed. *)
Definition sealer_ok (s : Sealer) (Open : list Z → Z → list Z → result (list Z * Z)) (level : Z) : Prop :=
  0 <= Overhead s <= 1000 ∧
  ∀ payload pn ad, bytes_ok payload →
    bytes_ok (Seal s payload pn ad) ∧
    Z.of_nat (length (Seal s payload pn ad)) = Z.of_nat (length payload) + Overhead s ∧
    Open (Seal s payload pn ad) pn ad = Ok (payload, level).

(** The packer is set up, and the path's packet numbers are in order. *)
Definition setup_ok (p : packetPacker) (pth : packetPath) : Prop :=
  is_u64 (pp_connectionID p) ∧ pp_connectionID p <> 0 ∧ 0 <= pp_version p < 1000 ∧
  cp_perspective (pp_connectionParameters p) = pp_perspective p ∧
  (cs_DiversificationNonce (pp_cryptoSetup p) = [] ∨
   length (cs_DiversificationNonce (pp_cryptoSetup p)) = 32%nat ∧
   bytes_ok (cs_DiversificationNonce (pp_cryptoSetup p))) ∧
  is_u8 (pth_pathID pth) ∧ 0 <= pth_leastUnacked pth <= pn_next (pth_generator pth) ∧
  pn_next (pth_generator pth) <= 2^62 ∧ pn_next (pth_generator pth) - pth_leastUnacked pth < 2^47.

Lemma getPublicHeader_ok p pth level pv :
  setup_ok p pth → (VersionFlag (getPublicHeader p level pth) = false → pv = pp_version p) →
  PublicHeader_ok (wire_header (getPublicHeader p level pth)) (pp_perspective p) (pp_version p) pv.
Proof.
  intros (Hc & Hc0 & Hv & Hper & Hn & Hid & _) Hpv. unfold PublicHeader_ok.
  cbn [wire_header getPublicHeader Raw SupportedVersions hdr_PathID MultipathFlag].
  set (mp := pth_handshakeComplete pth && _). split_and!; [done|done| | | | | |].
  - by destruct mp.
  - by intros ->.
  - unfold nonce_ok. cbn. destruct (pp_perspective p), (level =? EncryptionSecure); cbn; try (by left).
    destruct Hn as [->|[]]; [by left|right]. by split_and!.
  - unfold number_ok, header_hasPacketNumber, hasPacketNumber. cbn.
    assert (bool_decide (pp_perspective p = PerspectiveClient) && negb (level =? EncryptionForwardSecure)
      && bool_decide (pp_perspective p = PerspectiveServer) = false) as ->
      by (destruct (pp_perspective p); [done|apply andb_false_r]).
    split; [apply header_pn_len|]. apply Z.mod_pos_bound, Z.pow_pos_nonneg; [lia|].
    destruct (header_pn_len (Peek (pth_generator pth)) (pth_leastUnacked pth)) as [->|[->|[->| ->]]]; lia.
  - unfold connection_ok. cbn. fold mp. unfold cpm_TruncateConnectionID. rewrite Hper.
    destruct mp; [done|]. destruct (pp_perspective p); [|done]. by destruct (truncateConnectionID _).
  - unfold version_ok. cbn [wire_header getPublicHeader VersionFlag ResetFlag VersionNumber] in *.
    set (vf := bool_decide (pp_perspective p = PerspectiveClient) && _) in *.
    assert (vf = true → pp_perspective p = PerspectiveClient) as Hcl
      by (intros [Hcl _]%andb_prop; by apply bool_decide_eq_true in Hcl).
    destruct vf; [by split_and!; auto; lia|]. specialize (Hpv eq_refl). subst pv. split_and!; [done|done|].
    left. unfold VersionUnknown. lia.
Qed.

Lemma items_ok_header h h' level items :
  PacketNumber h' = PacketNumber h → PacketNumberLen h' = PacketNumberLen h →
  items_ok h level items → items_ok h' level items.
Proof.
  intros E1 E2. induction items as [|[f|] items IH]; cbn [items_ok]; [done| |done].
  intros (Hf & He & Hi). split_and!; [|done|by apply IH]. destruct f; try done. unfold frame_ok in *. by rewrite E1, E2.
Qed.

(** The receiver of a path has not fallen behind what the sender knows to be acknowledged, and has not
    seen packets too far ahead. *)
Definition in_sync (pth : packetPath) (largestRcvd : Z) : Prop :=
  0 <= largestRcvd < 2^62 ∧ pth_leastUnacked pth <= largestRcvd + 1 ∧
  largestRcvd + 1 - pn_next (pth_generator pth) < 2^15.

Section Packed.
Context (now : Z) (rnd : random_bytes) (p : packetPacker) (pth : packetPath) (level : Z) (sealer : Sealer).
Context (str : Z → string) (Open : list Z → Z → list Z → result (list Z * Z)) (pv largestRcvd : Z).
Context (Hsetup : setup_ok p pth) (Hsealer : sealer_ok sealer Open level) (Hsync : in_sync pth largestRcvd).
Context (Hpv : VersionFlag (getPublicHeader p level pth) = false → pv = pp_version p).

Notation h := (getPublicHeader p level pth).
Notation hb := (header_bytes (wire_header h) (pp_perspective p) (pp_version p)).

Lemma header_written : PublicHeader_Write h (pp_version p) (pp_perspective p) = Ok hb.
Proof using Hsetup Hpv.
  rewrite <- PublicHeader_Write_wire by apply header_pn_len.
  eapply PublicHeader_Write_eq. by apply getPublicHeader_ok.
Qed.

Lemma header_length_ok : PublicHeader_GetLength h (pp_perspective p) = Ok (Z.of_nat (length hb)).
Proof using Hsetup Hpv.
  change (PublicHeader_GetLength h (pp_perspective p)) with (PublicHeader_GetLength (wire_header h) (pp_perspective p)).
  eapply header_length; [by apply getPublicHeader_ok|]. cbn. by destruct (pp_perspective p), (_ =? _).
Qed.

(** What the receiver makes of the packet. *)
Definition arrives (pkt : packedPacket) : Prop :=
  pk_number pkt = pn_next (pth_generator pth) ∧ pk_encryptionLevel pkt = level ∧
  Z.of_nat (length (pk_raw pkt)) <= MaxPacketSize ∧
  ∃ hdr, receive str Open (pp_perspective p) pv (pp_version p) largestRcvd (pk_raw pkt)
         = Ok (hdr, {| encryptionLevel := level; frames := frame_received now <$> pk_frames pkt |}) ∧
    PacketNumber hdr = pk_number pkt ∧ MultipathFlag hdr = MultipathFlag h ∧ hdr_PathID hdr = hdr_PathID h.

Lemma packed_ok p' fs bs :
  pp_version p' = pp_version p → pp_perspective p' = pp_perspective p →
  write_frames now fs (pp_version p) = Ok bs → fs <> [] → items_ok h level (Some <$> fs) →
  Z.of_nat (length hb) + Z.of_nat (length bs) + Overhead sealer <= MaxPacketSize →
  ∃ pkt, packed now rnd h fs level sealer (p', pth) = (Ok pkt, (p', set_generator pth (Pop rnd (pth_generator pth)).2)) ∧
    pk_frames pkt = fs ∧ arrives pkt.
Proof using Hsetup Hsealer Hsync Hpv.
  intros Ev Ep Hw Hne Hit Hfit. destruct Hsealer as [Hov Hseal].
  unfold packed, writeAndSealPacket, mbind, packing_bind, getPacker, lift. cbn [fst snd].
  rewrite Ev, Ep, header_written, Hw, Z.gtb_ltb.
  rewrite (proj2 (Z.ltb_ge _ _)) by lia.
  assert ((Pop rnd (pth_generator pth)).1 = pn_next (pth_generator pth)) as En by (unfold Pop; by destruct (_ =? _)).
  destruct (Pop rnd (pth_generator pth)) as [num g]. cbn in En. subst num.
  cbn [getPublicHeader PacketNumber Peek]. unfold Peek. rewrite Z.eqb_refl. cbn [negb].
  eexists. split; [done|]. split; [done|]. unfold arrives. cbn [pk_number pk_raw pk_frames pk_encryptionLevel].
  rewrite write_frames_payload in Hw.
  set (hdr := numbered (wire_header h) hb (pn_next (pth_generator pth))).
  destruct (payload_unpacks str (pp_version p) now hdr level (Some <$> fs)) as (bs' & Hp & Hb & Hu).
  { by eapply items_ok_header. }
  rewrite Hw in Hp. injection Hp as <-. destruct (Hseal bs (pn_next (pth_generator pth)) hb Hb) as (Hsb & Hsl & Hop).
  set (sealed := Seal sealer bs (pn_next (pth_generator pth)) hb) in *. rewrite length_app.
  split_and!; [done|done|lia|]. exists hdr. split; [|done]. unfold receive.
  rewrite (PublicHeader_rt (wire_header h) (pp_perspective p) (pp_version p) pv) by (done || by apply getPublicHeader_ok).
  cbn [mbind result_bind]. rewrite length_app, Nat.add_sub, take_app_length.
  destruct Hsetup as (_ & _ & _ & _ & _ & _ & Hlu & Hpn & Hfl). destruct Hsync as (Hr1 & Hr2 & Hr3).
  change (PacketNumber (wire_header h)) with (pn_next (pth_generator pth)
    mod 2^(8 * GetPacketNumberLengthForPublicHeader (pn_next (pth_generator pth)) (pth_leastUnacked pth))).
  change (PacketNumberLen (wire_header h))
    with (GetPacketNumberLengthForPublicHeader (pn_next (pth_generator pth)) (pth_leastUnacked pth)).
  rewrite packet_number_roundtrip by lia. fold hdr.
  unfold Unpack. change (Raw hdr) with hb. change (PacketNumber hdr) with (pn_next (pth_generator pth)). rewrite Hop. destruct bs as [|b bs].
  { exfalso. specialize (Hu 0%nat ltac:(done)). cbn in Hu. injection Hu as Hu. by destruct fs. }
  cbn [length Nat.eqb]. rewrite Hu by done. cbn [mbind result_bind]. do 3 f_equal.
  f_equal. clear. induction fs as [|f fs IH]; [done|]. cbn. by f_equal.
Qed.
End Packed.

Lemma header_number_fits pn lu :
  0 <= lu <= pn → pn <= 2^62 → pn - lu < 2^47 →
  pn - lu < 2^(8 * GetPacketNumberLengthForPublicHeader pn lu).
Proof.
  intros H1 H2 H3. unfold GetPacketNumberLengthForPublicHeader. rewrite u64_id by (unfold is_u64; lia).
  change (Z.shiftl 2 (PacketNumberLen2 * 8 - 2)) with (2^15). change (Z.shiftl 2 (PacketNumberLen4 * 8 - 2)) with (2^31).
  unfold PacketNumberLen2, PacketNumberLen4, PacketNumberLen6.
  destruct (Z.ltb_spec (pn - lu) (2^15)); [lia|]. destruct (Z.ltb_spec (pn - lu) (2^31)); lia.
Qed.

Lemma header_small p pth level n :
  setup_ok p pth → PublicHeader_GetLength (getPublicHeader p level pth) (pp_perspective p) = Ok n → 2 <= n <= 52.
Proof.
  intros (_ & _ & _ & _ & Hn & _). unfold PublicHeader_GetLength.
  assert (2 <= PacketNumberLen (getPublicHeader p level pth) <= 6) as Hl.
  { cbn. unfold GetPacketNumberLengthForPublicHeader, PacketNumberLen2, PacketNumberLen4, PacketNumberLen6. case_ifs; lia. }
  assert (0 <= Z.of_nat (length (DiversificationNonce (getPublicHeader p level pth))) <= 32) as Hd.
  { cbn. destruct (_ && _); [|cbn; lia]. destruct Hn as [->|[-> _]]; cbn; lia. }
  set (h := getPublicHeader p level pth) in *.
  assert (header_hasPacketNumber h (pp_perspective p) = true) as ->.
  { unfold header_hasPacketNumber, hasPacketNumber. cbn. by destruct (pp_perspective p), (level =? EncryptionForwardSecure). }
  clearbody h. destruct (_ && _); [done|]. destruct (_ && _); [done|]. destruct (_ && _) in |- *; [done|].
  intros [= <-]. destruct (MultipathFlag h), (VersionFlag h), (TruncateConnectionID h); cbn [negb]; lia.
Qed.

(** What is queued can be sent: the frames are well formed, and the STOP_WAITING frame of the path
    is about packets sent on it. *)
Definition packer_ok (p : packetPacker) (pth : packetPath) : Prop :=
  setup_ok p pth ∧ framer_ready (flow_parameters (pp_connectionParameters p)) (pp_streamFramer p) ∧
  Forall (λ f, ∀ hdr level, plain hdr level f) (controlFrames p) ∧
  (∀ ack, pp_ackFrame p !! pth_pathID pth = Some ack → ∀ hdr level, plain hdr level (FAck ack)) ∧
  (∀ sw, pp_stopWaiting p !! pth_pathID pth = Some sw →
    0 < sw_LeastUnacked sw ∧ pth_leastUnacked pth <= sw_LeastUnacked sw <= pn_next (pth_generator pth)).

Lemma numbered_path_frames p pth level :
  packer_ok p pth →
  let h := getPublicHeader p level pth in
  Forall (plain h level) (path_frames (number_stop_waiting h (pth_pathID pth) p) (pth_pathID pth)).
Proof.
  intros (Hsetup & _ & _ & Hack & Hsw) h. unfold path_frames, number_stop_waiting. apply Forall_app. split.
  - destruct (pp_stopWaiting p !! pth_pathID pth) as [sw|] eqn:E; [|by rewrite E].
    destruct (Hsw sw eq_refl) as (H0 & H1 & H2). destruct Hsetup as (_ & _ & _ & _ & _ & _ & Hlu & Hpn & Hfl).
    cbn [set_path_frames pp_stopWaiting]. rewrite lookup_insert_eq. apply Forall_singleton. split_and!; [|done|done].
    pose proof (header_number_fits (pn_next (pth_generator pth)) (pth_leastUnacked pth) Hlu Hpn Hfl).
    unfold frame_ok, number_frame, h, is_u64. cbn [sw_PacketNumber sw_PacketNumberLen sw_LeastUnacked getPublicHeader PacketNumber PacketNumberLen].
    unfold Peek. split_and!; [done|done|apply header_pn_len|lia..].
  - assert (pp_ackFrame (number_stop_waiting h (pth_pathID pth) p) = pp_ackFrame p) as E
      by (unfold number_stop_waiting; by destruct (pp_stopWaiting p !! _)).
    unfold number_stop_waiting in E. rewrite E. destruct (pp_ackFrame p !! pth_pathID pth) as [ack|] eqn:Ea; [|constructor].
    apply Forall_singleton. by apply Hack.
Qed.

Lemma canSendData_level p level : canSendData p level = true → level > EncryptionUnencrypted.
Proof.
  unfold canSendData, EncryptionSecure, EncryptionForwardSecure, EncryptionUnencrypted.
  destruct (pp_perspective p); intros; zbool; lia.
Qed.

Lemma payload_frames_ok now p pth level maxSize canSend hdr :
  Forall (λ f, ∀ hdr level, plain hdr level f) (controlFrames p) →
  Forall (plain hdr level) (path_frames p (pth_pathID pth)) →
  framer_ready (flow_parameters (pp_connectionParameters p)) (pp_streamFramer p) →
  1 <= maxSize <= MaxPacketSize - 2 → (canSend = true → level > EncryptionUnencrypted) →
  match payload_frames maxSize canSend (p, pth) with
  | (Ok fs, (p', pth')) => composed now level hdr p pth maxSize fs p' pth'
  | (Err e, _) => path_frames_too_long now p pth maxSize e
  | (Panic _, _) => False
  end.
Proof.
  intros Hc Hp Hf Hmax Hlv. unfold payload_frames, getPacker. unfold mbind at 1, packing_bind at 1. cbn [fst snd].
  assert (Forall (plain hdr level) (controlFrames p)) as Hc' by (eapply Forall_impl; [exact Hc|by intros]).
  destruct (controlFrames p) as [|f l] eqn:E; [rewrite <- E in Hc'; by apply compose_ok; try lia|].
  destruct f; try (rewrite <- E in Hc'; by apply compose_ok; try lia).
  unfold mbind, packing_bind, modify, mret, packing_ret, composed. cbn [fst snd]. split_and!; [done|done|by cbn|].
  exists [7]. split; [done|cbn; lia].
Qed.

(** ** Properties *)

(** C18: whatever is queued -- acknowledgements, control frames, stream data -- a packet that is packed
    for a path arrives: it is not longer than the largest packet, the receiver parses its header,
    finds the packet number, which is the path's next one and is then used up, opens the payload, and
    unpacks exactly the frames the packer reports, at their encryption level.  If nothing is packed,
    no packet number is used.  Packing fails only if the ACK and STOP_WAITING frames of the path, with the header and the
    overhead of the sealer, are longer than the largest packet, and the error gives their length; it never reports the packet as
    too large, and never panics.  There is no data on the crypto stream (which goes in packets of its own); the queued frames
    are ones their writers accept, ACK frames with a first gap that can be written, PATHS frames of at most 84 paths; the sealer and the receiver's [Open] obey
    the laws of an AEAD; the packet numbers are below 2^62, the unacknowledged ones of the path span less than 2^47, and
    the receiver is not more than 2^15 packets ahead; and if the header has no version, both sides know it. *)
Theorem packed_packet_arrives (now : Z) (rnd : random_bytes) (p : packetPacker) (pth : packetPath)
    (level : Z) (sealer : Sealer) (str : Z → string)
    (Open : list Z → Z → list Z → result (list Z * Z)) (pv largestRcvd : Z) :
  packer_ok p pth →
  HasCryptoStreamFrame (stream_limits (pp_connectionParameters p)) (pp_streamFramer p)
    = (Ok false, pp_streamFramer p) →
  GetSealer (pp_cryptoSetup p) = (level, sealer) → sealer_ok sealer Open level →
  in_sync pth largestRcvd →
  (VersionFlag (getPublicHeader p level pth) = false → pv = pp_version p) →
  match PackPacket now rnd (p, pth) with
  | (Ok (Some pkt), (p', pth')) =>
      arrives now p pth level str Open pv largestRcvd pkt ∧
      pth' = set_generator pth (Pop rnd (pth_generator pth)).2 ∧
      pp_stopWaiting p' !! pth_pathID pth = None ∧ pp_ackFrame p' !! pth_pathID pth = None
  | (Ok None, (_, pth')) => pth' = pth
  | (Err e, _) =>
      let h := getPublicHeader p level pth in
      ∃ header bs, PublicHeader_Write h (pp_version p) (pp_perspective p) = Ok header ∧
        write_frames now (path_frames (number_stop_waiting h (pth_pathID pth) p) (pth_pathID pth)) (pp_version p) = Ok bs ∧
        MaxPacketSize < Z.of_nat (length header) + Z.of_nat (length bs) + Overhead sealer ∧
        e = errPayloadTooLarge (Z.of_nat (length bs)) (MaxPacketSize - Overhead sealer - Z.of_nat (length header))
  | (Panic _, _) => False
  end.
Proof.
  intros Hok Hcs Hseal Hs Hsync Hpv. pose proof Hok as (Hsetup & Hf & Hc & _).
  unfold PackPacket. unfold mbind at 1, packing_bind at 1, framing_op. rewrite Hcs.
  assert (set_framer p (pp_streamFramer p) = p) as -> by (by destruct p).
  unfold mbind at 1 2, packing_bind at 1 2, getPacker, getPath. cbn [fst snd]. rewrite Hseal.
  unfold mbind at 1, packing_bind at 1, lift at 1.
  pose proof (header_length_ok p pth level pv Hsetup Hpv) as Hlen. rewrite Hlen.
  pose proof (header_small p pth level _ Hsetup Hlen) as Hsm. destruct Hs as [Hov Hlaw].
  set (h := getPublicHeader p level pth) in *. set (hb := header_bytes (wire_header h) _ _) in *.
  unfold mbind at 1, packing_bind at 1, modify at 1. cbn [fst snd].
  set (q := number_stop_waiting h (pth_pathID pth) p).
  assert (pp_version q = pp_version p ∧ pp_perspective q = pp_perspective p ∧ controlFrames q = controlFrames p ∧
          pp_streamFramer q = pp_streamFramer p ∧ pp_connectionParameters q = pp_connectionParameters p)
    as (Eq1 & Eq2 & Eq3 & Eq4 & Eq5) by (unfold q, number_stop_waiting; by destruct (pp_stopWaiting p !! _)).
  rewrite (u64_id (MaxPacketSize - _)), u64_id by (unfold is_u64, MaxPacketSize; lia).
  pose proof (payload_frames_ok now q pth level (MaxPacketSize - Overhead sealer - Z.of_nat (length hb))
    (canSendData p level) h) as Hpay.
  rewrite Eq3, Eq4, Eq5 in Hpay. specialize (Hpay Hc (numbered_path_frames p pth level Hok) Hf).
  unfold mbind at 1, packing_bind at 1.
  destruct (payload_frames _ _ (q, pth)) as [[fs|e|w] [p' pth']];
    [|destruct Hpay as (bs & Hw & Hlong & ->); [unfold MaxPacketSize; lia|apply canSendData_level|];
      exists hb, bs; rewrite Eq1 in Hw; split_and!; [by eapply header_written|done|lia|done]
     |by apply Hpay; [unfold MaxPacketSize; lia|apply canSendData_level]].
  destruct Hpay as (-> & (Ev & Ep & Esw) & Hit & bs & Hw & Hfit); [unfold MaxPacketSize; lia|apply canSendData_level|].
  unfold mbind at 1, packing_bind at 1, getPacker. cbn [fst snd].
  destruct (length fs =? 0)%nat eqn:E0; [done|]. destruct (_ && _); [done|].
  unfold mbind, packing_bind, modify. cbn [fst snd].
  destruct (packed_ok now rnd p pth level sealer str Open pv largestRcvd Hsetup (conj Hov Hlaw) Hsync Hpv
    (set_path_frames p' (delete (pth_pathID pth) (pp_stopWaiting p')) (delete (pth_pathID pth) (pp_ackFrame p'))) fs bs)
    as (pkt & E & _ & Harr).
  - cbn. by rewrite Ev.
  - cbn. by rewrite Ep.
  - by rewrite <- Eq1.
  - by intros ->.
  - done.
  - fold h hb. lia.
  - fold h in E. rewrite E. split_and!; [done|done|apply lookup_delete_eq..].
Qed.

(** *** An example *)

(** An AEAD with a tag of twelve zeros. *)
Definition tag_sealer : Sealer := mkSealer (λ payload _ _, payload ++ replicate 12 0) 12.
Definition tag_open (data : list Z) (pn : Z) (ad : list Z) : result (list Z * Z) :=
  if (length data <? 12)%nat then Err (ErrorString "too short")
  else Ok (take (length data - 12) data, EncryptionForwardSecure).

Lemma tag_sealer_ok : sealer_ok tag_sealer tag_open EncryptionForwardSecure.
Proof.
  split; [cbn; lia|]. intros payload pn ad Hb. cbn [tag_sealer Seal Overhead]. split_and!.
  - apply bytes_ok_app; [done|]. bytes_tac.
  - rewrite length_app, length_replicate. lia.
  - unfold tag_open. rewrite length_app, length_replicate. destruct (Nat.ltb_spec (length payload + 12) 12); [lia|].
    by rewrite Nat.add_sub, take_app_length.
Qed.

Definition sample_setup : CryptoSetup :=
  mkCryptoSetup (EncryptionForwardSecure, tag_sealer) (EncryptionForwardSecure, tag_sealer) (λ _, Ok tag_sealer) [].

Lemma put_stream_inv f s :
  sm_inv (sf_streamsMap f) → streamID s ∈ sm_openStreams (sf_streamsMap f) → sm_inv (sf_streamsMap (put_stream f s)).
Proof.
  intros (Hnd & Hset & Hst & Hids & Hrest) Hs. unfold sm_inv, put_stream in *. cbn.
  split; [done|]. split; [done|]. split; [|split; [|done]].
  - intros id Hid. destruct (decide (id = streamID s)) as [->|]; [by rewrite lookup_insert_eq; eauto|].
    rewrite lookup_insert_ne by done. by apply Hst.
  - intros id Hid. apply Hids. destruct (decide (id = streamID s)) as [->|]; [by apply Hst|].
    by rewrite lookup_insert_ne in Hid.
Qed.

Definition params5 : connectionParametersManager :=
  NewConnectionParamatersManager PerspectiveServer 512 1000000 1000000 (30 * Second).

Definition sample_framer5 : streamFramer :=
  let m := (GetOrOpenStream (stream_limits params5) (newStreamsMap PerspectiveServer None) 5).2 in
  let fcm := foldr (λ id fcm, fcm_NewStream (flow_parameters params5) fcm id (negb (id =? 1)))
               (NewFlowControlManager (flow_parameters params5)) [1; 3; 5] in
  put_stream (newStreamFramer m fcm) (set_writing (newStream 5) 0 (Some [10; 20; 30]) true false).

(** A window update, an acknowledgement and data of stream 5, which ends. *)
Definition sample_packer : packetPacker :=
  let p := newPacketPacker 1234 sample_setup params5 sample_framer5 PerspectiveServer 512 in
  foldl (λ p f, QueueControlFrame p f 3) p
    [FWindowUpdate {| wu_StreamID := 5; wu_ByteOffset := 70000 |}; FAck sample_ack;
     FStopWaiting (stop_waiting_frame 40)].

Definition sample_path : packetPath := mkPacketPath 3 (mkGenerator 500 70 0) 38 true.

Lemma sample_framer5_ready : framer_ready (flow_parameters params5) sample_framer5.
Proof.
  assert (∃ m1, GetOrOpenStream (stream_limits params5)
    (newStreamsMap PerspectiveServer None) 5 = (Ok (Some 5), m1)) as [m1 E] by (eexists; vm_compute; reflexivity).
  unfold framer_ready, framer_ok. split_and!.
  - apply map_Forall_to_list, (bool_decide_unpack (Forall _ _)). vm_compute. exact I.
  - constructor.
  - split; [|split; [vm_compute; split; discriminate|vm_compute; reflexivity]].
    unfold sample_framer5. apply put_stream_inv; [|apply (bool_decide_unpack _); vm_compute; exact I].
    cbn [newStreamFramer sf_streamsMap]. rewrite E. cbn [snd].
    eapply (GetOrOpenStream_spec (stream_limits params5)); [|..|exact E]; [|lia].
    apply (new_run_inv (stream_limits params5)); vm_compute; repeat split; congruence.
  - constructor.
  - apply map_Forall_to_list. unfold stream_wf, bytes_ok. apply (bool_decide_unpack (Forall _ _)). vm_compute. exact I.
Qed.

Lemma packed_packet_arrives_witness :
  ∃ pkt p' pth', PackPacket 0 None (sample_packer, sample_path) = (Ok (Some pkt), (p', pth')) ∧
    length (pk_frames pkt) = 4%nat ∧ pk_number pkt = 70 ∧
    arrives 0 sample_packer sample_path EncryptionForwardSecure (λ _, ""%string) tag_open 512 68 pkt.
Proof.
  pose proof (packed_packet_arrives 0 None sample_packer sample_path EncryptionForwardSecure tag_sealer
    (λ _, ""%string) tag_open 512 68) as H.
  destruct (PackPacket 0 None (sample_packer, sample_path)) as [[[pkt|]|e|w] [p' pth']] eqn:E;
    [|vm_compute in E; discriminate E..].
  destruct H as (Harr & _).
  - unfold packer_ok. split_and!.
    + unfold setup_ok, is_u64, is_u8. cbn. split_and!; first [lia|reflexivity|by left].
    + exact sample_framer5_ready.
    + apply Forall_singleton. intros hdr level. split_and!; [|done|done]. unfold frame_ok, WindowUpdateFrame_ok, is_u32, is_u64. cbn. lia.
    + assert (pp_ackFrame sample_packer !! pth_pathID sample_path = Some sample_ack) as -> by (vm_compute; reflexivity).
      intros ack [= <-] hdr level. unfold plain, frame_ok.
      split_and!; [exact sample_ack_ok|vm_compute; congruence|vm_compute; reflexivity|done|done].
    + assert (pp_stopWaiting sample_packer !! pth_pathID sample_path = Some (stop_waiting_frame 40)) as ->
        by (vm_compute; reflexivity).
      intros sw [= <-]. cbn. lia.
  - vm_compute. reflexivity.
  - reflexivity.
  - exact tag_sealer_ok.
  - unfold in_sync. cbn. lia.
  - done.
  - exists pkt, p', pth'. split; [reflexivity|]. split; [|split; [apply Harr|exact Harr]].
    vm_compute in E. injection E as <- _ _. reflexivity.
Defined.

(** ** Packet numbers are not skipped *)

Fixpoint pops (bs : list random_bytes) (g : packetNumberGenerator) : list Z * packetNumberGenerator :=
  match bs with
  | [] => ([], g)
  | b :: bs => let '(n, g) := Pop b g in let '(ns, g) := pops bs g in (n :: ns, g)
  end.

(** No packet number is ever chosen to be skipped when a generator is made, so that a path's packet
    numbers are consecutive whatever the source of randomness gives. *)
Theorem fresh_generator_consecutive (avg : Z) (bs : list random_bytes) :
  Z.of_nat (length bs) < 2^64 - 1 →
  (pops bs (newPacketNumberGenerator avg)).1 = seqZ 1 (Z.of_nat (length bs)).
Proof.
  unfold newPacketNumberGenerator. cut (∀ k, 1 <= k → k + Z.of_nat (length bs) < 2^64 →
    (pops bs (mkGenerator avg k 0)).1 = seqZ k (Z.of_nat (length bs))).
  { intros H Hl. apply H; lia. }
  induction bs as [|b bs IH]; intros k Hk Hl; [done|]. cbn [pops length] in *. unfold Pop. cbn [pn_next nextToSkip averagePeriod].
  rewrite u64_id by (unfold is_u64; lia). destruct (Z.eqb_spec (k + 1) 0); [lia|].
  specialize (IH (k + 1) ltac:(lia) ltac:(lia)). destruct (pops bs _) as [ns g]. cbn [fst] in *. subst ns.
  rewrite (seqZ_cons k) by lia. f_equal. f_equal; lia.
Qed.

Lemma payload_frames_ping maxSize canSend p pth pf rest :
  controlFrames p = FPing pf :: rest →
  payload_frames maxSize canSend (p, pth) = (Ok [FPing pf], (set_control p rest, pth)).
Proof. intros E. unfold payload_frames, mbind, packing_bind, getPacker. cbn [fst snd]. by rewrite E. Qed.

(** A PING for a path that has a STOP_WAITING frame queued is dropped: it is taken out of the control
    frames, but counts as a packet with nothing but the STOP_WAITING frame. *)
Theorem ping_with_stop_waiting_dropped (now : Z) (rnd : random_bytes) (p : packetPacker) (pth : packetPath)
    (pf : PingFrame) (leastUnacked : Z) (sw : StopWaitingFrame) :
  setup_ok p (SetLeastUnacked pth leastUnacked) →
  HasCryptoStreamFrame (stream_limits (pp_connectionParameters p)) (pp_streamFramer p)
    = (Ok false, pp_streamFramer p) →
  pp_stopWaiting p !! pth_pathID pth = Some sw →
  ∃ p', PackPing now rnd pf leastUnacked (p, pth) = (Ok None, (p', SetLeastUnacked pth leastUnacked)) ∧
    controlFrames p' = controlFrames p.
Proof.
  intros Hsetup Hcs Hsw. unfold PackPing. unfold mbind at 1, packing_bind at 1.
  set (q := set_control p (FPing pf :: controlFrames p)). set (pth' := SetLeastUnacked pth leastUnacked) in *.
  unfold PackPacket. unfold mbind at 1, packing_bind at 1, framing_op.
  assert (pp_streamFramer q = pp_streamFramer p ∧ pp_connectionParameters q = pp_connectionParameters p) as [-> ->] by done.
  rewrite Hcs. assert (set_framer q (pp_streamFramer p) = q) as -> by (by destruct p).
  unfold mbind at 1 2, packing_bind at 1 2, getPacker, getPath. cbn [fst snd].
  destruct (GetSealer (pp_cryptoSetup q)) as [level sealer]. unfold mbind at 1, packing_bind at 1, lift at 1.
  rewrite (header_length_ok q pth' level (pp_version q) Hsetup) by done.
  unfold mbind, packing_bind, modify, number_stop_waiting, getPacker. cbn [fst snd].
  change (pp_stopWaiting q !! pth_pathID pth') with (pp_stopWaiting p !! pth_pathID pth). rewrite Hsw.
  rewrite (payload_frames_ping _ _ _ _ pf (controlFrames p)) by done. cbn [length Nat.eqb fst snd set_control set_path_frames pp_stopWaiting andb].
  change (pth_pathID pth') with (pth_pathID pth). rewrite lookup_insert_eq, bool_decide_eq_true_2 by eauto. by eexists.
Qed.
