(* ===== verification/Olia.v ===== *)
(** * The OLIA congestion controller

    congestion/olia.go and olia_sender.go: the coupled controller of the paths of a multipath
    connection other than the initial one.  The senders of the paths share a map in which each of
    them is entered under its path: increasing the window of one reads the windows and RTTs of all
    of them and sets the increase terms of all of them.  The state here is that map, an operation is
    an operation on the sender of one path; the RTT statistics, which the senders share with the
    handlers of their paths, are an argument, and so is the order of the iteration over the map. *)

From Stdlib Require Import QArith.
From S2P Require Import Prelude ByteOrder Protocol Congestion Cubic.

Local Open Scope Z_scope.

(** ** olia.go *)

Record Olia : Type := mkOlia {
  loss1 : Z;
  loss2 : Z;
  loss3 : Z;
  epsilonNum : Z;
  epsilonDen : Z;
  sndCwndCnt : Z;
}.

Definition scale : Z := 10.

Definition NewOlia (ackedBytes : Z) : Olia := mkOlia ackedBytes ackedBytes ackedBytes 0 1 0.

Definition oliaScale (val sc : Z) : Z := u64 (Z.shiftl val sc).

Definition olia_Reset (o : Olia) : Olia := mkOlia 0 0 0 0 1 0.

Definition MaxByteCount (a b : Z) : Z := if a >? b then a else b.

Definition SmoothedBytesBetweenLosses (o : Olia) : Z :=
  MaxByteCount (loss3 o -u64 loss2 o) (loss2 o -u64 loss1 o).

Definition UpdateAckedSinceLastLoss (o : Olia) (ackedBytes : Z) : Olia :=
  mkOlia (loss1 o) (loss2 o) (loss3 o +u64 ackedBytes) (epsilonNum o) (epsilonDen o) (sndCwndCnt o).

Definition olia_OnPacketLost (o : Olia) : Olia :=
  mkOlia (loss2 o) (loss3 o) (loss3 o) (epsilonNum o) (epsilonDen o) (sndCwndCnt o).

Definition set_epsilon (o : Olia) (num den : Z) : Olia :=
  mkOlia (loss1 o) (loss2 o) (loss3 o) num den (sndCwndCnt o).

Definition set_count (o : Olia) (cnt : Z) : Olia :=
  mkOlia (loss1 o) (loss2 o) (loss3 o) (epsilonNum o) (epsilonDen o) cnt.

(** The counter after an ACK, before it is compared with its bounds. *)
Definition count_after_ack (o : Olia) (current rate cwndScaled : Z) : Z :=
  let incDen := (epsilonDen o *u64 current) *u64 rate in
  let incDen := if incDen =? 0 then 1 else incDen in
  let squared := (epsilonDen o *u64 cwndScaled) *u64 cwndScaled in
  if epsilonNum o =? -1 then
    if squared <? rate
    then i64 (sndCwndCnt o - i64 (oliaScale (rate -u64 squared) scale / incDen))
    else i64 (sndCwndCnt o + i64 (oliaScale (squared -u64 rate) scale / incDen))
  else
    let incNum := (u64 (epsilonNum o) *u64 rate) +u64 squared in
    i64 (sndCwndCnt o + i64 (oliaScale incNum scale / incDen)).

Definition olia_CongestionWindowAfterAck (o : Olia) (current rate cwndScaled : Z) : Z * Olia :=
  let cnt := count_after_ack o current rate cwndScaled in
  if cnt >=? Z.shiftl 1 scale - 1 then (current +u64 1, set_count o 0)
  else if cnt <=? 0 - Z.shiftl 1 scale + 1 then (MaxPacketNumber 1 (current -u64 1), set_count o 0)
  else (current, set_count o cnt).

(** ** olia_sender.go *)

Record OliaSender : Type := mkOliaSender {
  os_hybridSlowStart : HybridSlowStart;
  os_prr : PrrSender;
  os_stats : connectionStats;
  os_olia : Olia;
  os_largestSentPacketNumber : Z;
  os_largestAckedPacketNumber : Z;
  os_largestSentAtLastCutback : Z;
  os_congestionWindow : Z;
  os_slowstartThreshold : Z;
  os_lastCutbackExitedSlowstart : bool;
  os_slowStartLargeReduction : bool;
  os_minCongestionWindow : Z;
  os_maxTCPCongestionWindow : Z;
  os_numConnections : Z;
  os_congestionWindowCount : Z;
  os_initialCongestionWindow : Z;
  os_initialMaxCongestionWindow : Z;
}.

Definition NewOliaSender (initial initialMax : Z) : OliaSender :=
  mkOliaSender (mkHybrid 0 0 false 0 0 false) (mkPrr 0 0 0 0) (mkStats 0 0) (NewOlia 0) 0 0 0 initial initialMax
    false false defaultMinimumCongestionWindow initialMax defaultNumConnections 0 initial initialMax.

(** *** Field updates *)

Definition os_set_parts (o : OliaSender) (h : HybridSlowStart) (p : PrrSender) (s : connectionStats) (ol : Olia)
  : OliaSender :=
  mkOliaSender h p s ol (os_largestSentPacketNumber o) (os_largestAckedPacketNumber o)
    (os_largestSentAtLastCutback o) (os_congestionWindow o) (os_slowstartThreshold o)
    (os_lastCutbackExitedSlowstart o) (os_slowStartLargeReduction o) (os_minCongestionWindow o)
    (os_maxTCPCongestionWindow o) (os_numConnections o) (os_congestionWindowCount o)
    (os_initialCongestionWindow o) (os_initialMaxCongestionWindow o).

Definition os_set_olia (o : OliaSender) (ol : Olia) : OliaSender :=
  os_set_parts o (os_hybridSlowStart o) (os_prr o) (os_stats o) ol.

Definition os_set_largest (o : OliaSender) (sent acked cutback : Z) : OliaSender :=
  mkOliaSender (os_hybridSlowStart o) (os_prr o) (os_stats o) (os_olia o) sent acked cutback
    (os_congestionWindow o) (os_slowstartThreshold o) (os_lastCutbackExitedSlowstart o)
    (os_slowStartLargeReduction o) (os_minCongestionWindow o) (os_maxTCPCongestionWindow o)
    (os_numConnections o) (os_congestionWindowCount o) (os_initialCongestionWindow o)
    (os_initialMaxCongestionWindow o).

Definition os_set_window (o : OliaSender) (window threshold : Z) (exited : bool) (count : Z) : OliaSender :=
  mkOliaSender (os_hybridSlowStart o) (os_prr o) (os_stats o) (os_olia o) (os_largestSentPacketNumber o)
    (os_largestAckedPacketNumber o) (os_largestSentAtLastCutback o) window threshold exited
    (os_slowStartLargeReduction o) (os_minCongestionWindow o) (os_maxTCPCongestionWindow o)
    (os_numConnections o) count (os_initialCongestionWindow o) (os_initialMaxCongestionWindow o).

(** *** Queries *)

Definition os_GetCongestionWindow (o : OliaSender) : Z := os_congestionWindow o *u64 DefaultTCPMSS.
Definition os_GetSlowStartThreshold (o : OliaSender) : Z := os_slowstartThreshold o *u64 DefaultTCPMSS.

Definition os_InRecovery (o : OliaSender) : bool :=
  (os_largestAckedPacketNumber o <=? os_largestSentAtLastCutback o)
  && negb (os_largestAckedPacketNumber o =? 0).

Definition os_InSlowStart (o : OliaSender) : bool :=
  os_GetCongestionWindow o <? os_GetSlowStartThreshold o.

Definition os_TimeUntilSend (o : OliaSender) (bytesInFlight : Z) : Z :=
  if os_InRecovery o
  then prr_TimeUntilSend (os_prr o) (os_GetCongestionWindow o) bytesInFlight (os_GetSlowStartThreshold o)
  else if os_GetCongestionWindow o >? bytesInFlight then 0 else InfDuration.

Definition os_isCwndLimited (o : OliaSender) (bytesInFlight : Z) : bool :=
  let window := os_GetCongestionWindow o in
  if bytesInFlight >=? window then true
  else
    let availableBytes := window -u64 bytesInFlight in
    let slowStartLimited := os_InSlowStart o && (bytesInFlight >? window / 2) in
    slowStartLimited || (availableBytes <=? maxBurstBytes).

Definition os_RenoBeta (o : OliaSender) : float32 := connection_beta renoBeta (os_numConnections o).

Definition os_BandwidthEstimate (o : OliaSender) (r : RTTStats) : Z :=
  if smoothedRTT r =? 0 then 0 else BandwidthFromDelta (os_GetCongestionWindow o) (smoothedRTT r).

Definition os_RetransmissionDelay (o : OliaSender) (r : RTTStats) : Z :=
  if smoothedRTT r =? 0 then 0 else smoothedRTT r + meanDeviation r * 4.

(** *** Operations that concern one sender *)

Definition os_OnPacketSent (o : OliaSender) (packetNumber bytes : Z) (isRetransmittable : bool) : OliaSender :=
  if negb isRetransmittable then o
  else
    let p := if os_InRecovery o then prr_OnPacketSent (os_prr o) bytes else os_prr o in
    os_set_largest (os_set_parts o (hs_OnPacketSent (os_hybridSlowStart o) packetNumber) p (os_stats o) (os_olia o))
      packetNumber (os_largestAckedPacketNumber o) (os_largestSentAtLastCutback o).

Definition os_ExitSlowstart (o : OliaSender) : OliaSender :=
  os_set_window o (os_congestionWindow o) (os_congestionWindow o) (os_lastCutbackExitedSlowstart o)
    (os_congestionWindowCount o).

Definition os_MaybeExitSlowStart (o : OliaSender) (r : RTTStats) : OliaSender :=
  if os_InSlowStart o then
    let '(exit, h) := ShouldExitSlowStart (os_hybridSlowStart o) (latestRTT r) (minRTT r)
                        (os_GetCongestionWindow o / DefaultTCPMSS) in
    let o := os_set_parts o h (os_prr o) (os_stats o) (os_olia o) in
    if exit then os_ExitSlowstart o else o
  else o.

(** A loss of a packet sent before the last cutback. *)
Definition os_repeated_loss (o : OliaSender) (lostBytes : Z) : OliaSender :=
  if os_lastCutbackExitedSlowstart o then
    let s := mkStats (slowstartPacketsLost (os_stats o) +u64 1) (slowstartBytesLost (os_stats o) +u64 lostBytes) in
    let o := os_set_parts o (os_hybridSlowStart o) (os_prr o) s (os_olia o) in
    if os_slowStartLargeReduction o then
      let w := if (slowstartPacketsLost s =? 1)
                  || (slowstartBytesLost s / DefaultTCPMSS
                      >? (slowstartBytesLost s -u64 lostBytes) / DefaultTCPMSS)
               then MaxPacketNumber (os_congestionWindow o -u64 1) (os_minCongestionWindow o)
               else os_congestionWindow o in
      os_set_window o w w (os_lastCutbackExitedSlowstart o) (os_congestionWindowCount o)
    else o
  else o.

Definition os_OnPacketLost (o : OliaSender) (packetNumber lostBytes bytesInFlight : Z) : OliaSender :=
  if packetNumber <=? os_largestSentAtLastCutback o then os_repeated_loss o lostBytes
  else
    let exited := os_InSlowStart o in
    let s := if exited then mkStats (slowstartPacketsLost (os_stats o) +u64 1) (slowstartBytesLost (os_stats o))
             else os_stats o in
    let w := if os_slowStartLargeReduction o && exited then os_congestionWindow o -u64 1
             else trunc (fmul (float_of (os_congestionWindow o)) (os_RenoBeta o)) in
    let w := if w <? os_minCongestionWindow o then os_minCongestionWindow o else w in
    let o := os_set_parts o (os_hybridSlowStart o) (prr_OnPacketLost (os_prr o) bytesInFlight) s
               (olia_OnPacketLost (os_olia o)) in
    os_set_largest (os_set_window o w w exited 0) (os_largestSentPacketNumber o)
      (os_largestAckedPacketNumber o) (os_largestSentPacketNumber o).

Definition os_OnRetransmissionTimeout (o : OliaSender) (packetsRetransmitted : bool) : OliaSender :=
  let o := os_set_largest o (os_largestSentPacketNumber o) (os_largestAckedPacketNumber o) 0 in
  if negb packetsRetransmitted then o
  else
    let o := os_set_parts o (Restart (os_hybridSlowStart o)) (os_prr o) (os_stats o) (olia_Reset (os_olia o)) in
    os_set_window o (os_minCongestionWindow o) (os_congestionWindow o / 2) (os_lastCutbackExitedSlowstart o)
      (os_congestionWindowCount o).

Definition os_OnConnectionMigration (o : OliaSender) : OliaSender :=
  mkOliaSender (Restart (os_hybridSlowStart o)) (mkPrr 0 0 0 0) (os_stats o) (olia_Reset (os_olia o)) 0 0 0
    (os_initialCongestionWindow o) (os_initialMaxCongestionWindow o) false (os_slowStartLargeReduction o)
    (os_minCongestionWindow o) (os_initialMaxCongestionWindow o) (os_numConnections o) 0
    (os_initialCongestionWindow o) (os_initialMaxCongestionWindow o).

Definition os_SetNumEmulatedConnections (o : OliaSender) (n : Z) : OliaSender :=
  mkOliaSender (os_hybridSlowStart o) (os_prr o) (os_stats o) (os_olia o) (os_largestSentPacketNumber o)
    (os_largestAckedPacketNumber o) (os_largestSentAtLastCutback o) (os_congestionWindow o)
    (os_slowstartThreshold o) (os_lastCutbackExitedSlowstart o) (os_slowStartLargeReduction o)
    (os_minCongestionWindow o) (os_maxTCPCongestionWindow o) (Z.max n 1) (os_congestionWindowCount o)
    (os_initialCongestionWindow o) (os_initialMaxCongestionWindow o).

Definition os_SetSlowStartLargeReduction (o : OliaSender) (enabled : bool) : OliaSender :=
  mkOliaSender (os_hybridSlowStart o) (os_prr o) (os_stats o) (os_olia o) (os_largestSentPacketNumber o)
    (os_largestAckedPacketNumber o) (os_largestSentAtLastCutback o) (os_congestionWindow o)
    (os_slowstartThreshold o) (os_lastCutbackExitedSlowstart o) enabled (os_minCongestionWindow o)
    (os_maxTCPCongestionWindow o) (os_numConnections o) (os_congestionWindowCount o)
    (os_initialCongestionWindow o) (os_initialMaxCongestionWindow o).

(** *** The coupling of the paths *)

(** The senders by path, and the smoothed RTTs of the paths. *)
Definition senders : Type := gmap Z OliaSender.

(** The senders in the order of an iteration over the map. *)
Definition in_order (m : senders) (order : list Z) : list (Z * OliaSender) :=
  omap (λ id, o ← m !! id; Some (id, o)) order.

Definition getMaxCwnd (l : list (Z * OliaSender)) : Z :=
  foldl (λ best e, MaxPacketNumber best (os_congestionWindow e.2)) 0 l.

Definition getRate (rtt : Z → Z) (l : list (Z * OliaSender)) (pathRTT : Z) : Z :=
  let rate := foldl (λ rate e,
    let scaledNum := oliaScale (os_congestionWindow e.2) scale *u64 u64 pathRTT in
    if rtt e.1 =? 0 then rate else rate +u64 (scaledNum / u64 (rtt e.1))) 1 l in
  rate *u64 rate.

(** Whether a path with [bytes] sent between losses and the squared RTT is at least as good as the
    best one so far. *)
Definition as_good (bytes sq bestBytes bestSq : Z) : bool :=
  i64 (i64 bytes * bestSq) >=? i64 (i64 bestBytes * sq).

Definition squared_rtt (rtt : Z → Z) (id : Z) : Z := i64 (rtt id * rtt id).

(** The best path: its squared RTT and its bytes. *)
Definition best_path (rtt : Z → Z) (l : list (Z * OliaSender)) : Z * Z :=
  foldl (λ best e,
    let bytes := SmoothedBytesBetweenLosses (os_olia e.2) in
    if as_good bytes (squared_rtt rtt e.1) best.2 best.1 then (squared_rtt rtt e.1, bytes) else best) (0, 0) l.

Definition is_best (rtt : Z → Z) (best : Z * Z) (e : Z * OliaSender) : bool :=
  as_good (SmoothedBytesBetweenLosses (os_olia e.2)) (squared_rtt rtt e.1) best.2 best.1.

(** The sizes of the set of paths with the largest window and of the best paths not in it. *)
Definition set_sizes (rtt : Z → Z) (maxCwnd : Z) (best : Z * Z) (l : list (Z * OliaSender)) : Z * Z :=
  foldl (λ '(M, BNotM) e,
    if os_congestionWindow e.2 =? maxCwnd then (u8 (M + 1), BNotM)
    else if is_best rtt best e then (M, u8 (BNotM + 1)) else (M, BNotM)) (0, 0) l.

(** The increase term of a path. *)
Definition epsilon (rtt : Z → Z) (maxCwnd : Z) (best : Z * Z) (M BNotM n : Z) (e : Z * OliaSender) : Z * Z :=
  if BNotM =? 0 then (0, 1)
  else if (os_congestionWindow e.2 <? maxCwnd) && is_best rtt best e then (1, u32 (u32 n * BNotM))
  else if os_congestionWindow e.2 =? maxCwnd then (-1, u32 (u32 n * M))
  else (0, 1).

(** Every loop iterates over the map; only the choice of the best path depends on the order. *)
Definition getEpsilon (rtt : Z → Z) (order : list Z) (m : senders) : senders :=
  let l := in_order m order in
  let maxCwnd := getMaxCwnd l in
  let best := best_path rtt l in
  let '(M, BNotM) := set_sizes rtt maxCwnd best l in
  foldl (λ m' e,
    let '(num, den) := epsilon rtt maxCwnd best M BNotM (Z.of_nat (size m)) e in
    <[e.1 := os_set_olia e.2 (set_epsilon (os_olia e.2) num den)]> m') m l.

Definition os_maybeIncreaseCwnd (rtt : Z → Z) (order : list Z) (m : senders) (id bytesInFlight : Z) : senders :=
  match m !! id with
  | None => m
  | Some o =>
      if negb (os_isCwndLimited o bytesInFlight) then m
      else if os_congestionWindow o >=? os_maxTCPCongestionWindow o then m
      else if os_InSlowStart o
      then <[id := os_set_window o (os_congestionWindow o +u64 1) (os_slowstartThreshold o)
                     (os_lastCutbackExitedSlowstart o) (os_congestionWindowCount o)]> m
      else
        let m := getEpsilon rtt order m in
        match m !! id with
        | None => m
        | Some o =>
            let rate := getRate rtt (in_order m order) (rtt id) in
            let cwndScaled := oliaScale (os_congestionWindow o) scale in
            let '(w, ol) := olia_CongestionWindowAfterAck (os_olia o) (os_congestionWindow o) rate cwndScaled in
            <[id := os_set_window (os_set_olia o ol) (MinPacketNumber (os_maxTCPCongestionWindow o) w)
                      (os_slowstartThreshold o) (os_lastCutbackExitedSlowstart o) (os_congestionWindowCount o)]> m
        end
  end.

Definition os_OnPacketAcked (rtt : Z → Z) (order : list Z) (m : senders) (id acked ackedBytes bytesInFlight : Z)
  : senders :=
  match m !! id with
  | None => m
  | Some o =>
      let o := os_set_largest o (os_largestSentPacketNumber o)
                 (MaxPacketNumber acked (os_largestAckedPacketNumber o)) (os_largestSentAtLastCutback o) in
      if os_InRecovery o
      then <[id := os_set_parts o (os_hybridSlowStart o) (prr_OnPacketAcked (os_prr o) ackedBytes) (os_stats o)
                     (os_olia o)]> m
      else
        let o := os_set_olia o (UpdateAckedSinceLastLoss (os_olia o) ackedBytes) in
        let m := os_maybeIncreaseCwnd rtt order (<[id := o]> m) id bytesInFlight in
        match m !! id with
        | None => m
        | Some o =>
            if os_InSlowStart o
            then <[id := os_set_parts o (hs_OnPacketAcked (os_hybridSlowStart o) acked) (os_prr o) (os_stats o)
                           (os_olia o)]> m
            else m
        end
  end.

(** ** The increase terms *)

(** The order of an iteration over the map: every path once. *)
Definition iterates (m : senders) (order : list Z) : Prop :=
  NoDup order ∧ ∀ id, id ∈ order ↔ is_Some (m !! id).

Lemma iterates_dom (m : gmap Z OliaSender) order :
  NoDup order → dom m = list_to_set (C := gset Z) order → iterates m order.
Proof.
  intros Hnd Hd. split; [done|]. intros id. unfold senders. rewrite <- (elem_of_dom (D := gset Z)), Hd.
  by rewrite elem_of_list_to_set.
Qed.

Lemma iterates_size m order : iterates m order → size m = length order.
Proof.
  intros [Hnd Hin]. rewrite <- (size_list_to_set (C := gset Z) order), <- (size_dom (D := gset Z) m) by done. f_equal.
  apply set_eq. intros id. rewrite elem_of_dom, elem_of_list_to_set. by rewrite Hin.
Qed.

Lemma in_order_ids m order : iterates m order → (in_order m order).*1 = order.
Proof.
  intros [_ Hin]. assert (∀ id, id ∈ order → is_Some (m !! id)) as H by (intros; by apply Hin). clear Hin.
  unfold in_order. induction order as [|id order IH]; [done|]. cbn.
  destruct (H id) as [o Ho]; [left|]. rewrite Ho. cbn. f_equal. apply IH. intros. apply H. by right.
Qed.

Lemma in_order_lookup m order id o : (id, o) ∈ in_order m order → m !! id = Some o.
Proof.
  unfold in_order. rewrite list_elem_of_omap. intros (id' & _ & H). destruct (m !! id') as [o'|] eqn:E; [|done].
  cbn in H. injection H as -> ->. done.
Qed.

Lemma in_order_elem m order id o : iterates m order → m !! id = Some o → (id, o) ∈ in_order m order.
Proof.
  intros [_ Hin] Ho. unfold in_order. apply list_elem_of_omap. exists id. rewrite Ho. split; [|done].
  apply Hin. by rewrite Ho.
Qed.

Lemma getMaxCwnd_spec l k :
  0 <= k → Forall (λ e, 0 <= os_congestionWindow e.2) l →
  let best := foldl (λ best e, MaxPacketNumber best (os_congestionWindow e.2)) k l in
  k <= best ∧ Forall (λ e : Z * OliaSender, os_congestionWindow e.2 <= best) l ∧
  (best = k ∨ ∃ e, e ∈ l ∧ os_congestionWindow e.2 = best).
Proof.
  intros Hk Hl. revert k Hk. induction Hl as [|e l He Hl IH]; intros k Hk; cbn [foldl].
  { split_and!; [lia|constructor|by left]. }
  assert (MaxPacketNumber k (os_congestionWindow e.2) = Z.max k (os_congestionWindow e.2)) as E.
  { unfold MaxPacketNumber. destruct (Z.gtb_spec k (os_congestionWindow e.2)); lia. }
  destruct (IH (MaxPacketNumber k (os_congestionWindow e.2))) as (H1 & H2 & H3); [lia|].
  cbv zeta in *. split_and!; [lia|constructor; [lia|done]|].
  destruct H3 as [H3|(e' & Hin & He')]; [|right; exists e'; split; [by right|done]].
  destruct (Z.max_spec k (os_congestionWindow e.2)) as [[? Em]|[? Em]]; [right; exists e; split; [left|congruence]|left; congruence].
Qed.

Lemma getMaxCwnd_attained l :
  l <> [] → Forall (λ e, 0 <= os_congestionWindow e.2) l →
  ∃ e, e ∈ l ∧ os_congestionWindow e.2 = getMaxCwnd l.
Proof.
  intros Hne Hl. destruct (getMaxCwnd_spec l 0 ltac:(lia) Hl) as (H1 & H2 & [H3|H3]); [|done].
  destruct l as [|e l]; [done|]. exists e. split; [left|]. unfold getMaxCwnd. cbv zeta in H3. rewrite H3.
  apply Forall_cons in Hl as [He _]. apply Forall_cons in H2 as [H2 _]. cbv zeta in H2. rewrite H3 in H2. lia.
Qed.

Definition in_M (maxCwnd : Z) (e : Z * OliaSender) : bool := os_congestionWindow e.2 =? maxCwnd.
Definition in_B (rtt : Z → Z) (maxCwnd : Z) (best : Z * Z) (e : Z * OliaSender) : bool :=
  negb (in_M maxCwnd e) && is_best rtt best e.

Definition count (f : Z * OliaSender → bool) (l : list (Z * OliaSender)) : Z :=
  Z.of_nat (length (List.filter f l)).

Lemma count_le f l : 0 <= count f l <= Z.of_nat (length l).
Proof. unfold count. induction l as [|e l IH]; cbn; [lia|]. destruct (f e); cbn; lia. Qed.

Lemma set_sizes_spec rtt maxCwnd best l :
  Z.of_nat (length l) <= 255 →
  set_sizes rtt maxCwnd best l = (count (in_M maxCwnd) l, count (in_B rtt maxCwnd best) l).
Proof.
  unfold set_sizes. cut (∀ a b, 0 <= a → 0 <= b → a + Z.of_nat (length l) <= 255 → b + Z.of_nat (length l) <= 255 →
    foldl (λ '(M, BNotM) e, if os_congestionWindow e.2 =? maxCwnd then (u8 (M + 1), BNotM)
      else if is_best rtt best e then (M, u8 (BNotM + 1)) else (M, BNotM)) (a, b) l
    = (a + count (in_M maxCwnd) l, b + count (in_B rtt maxCwnd best) l)).
  { intros H Hl. rewrite H by lia. done. }
  induction l as [|e l IH]; intros a b Ha Hb Hla Hlb; cbn [foldl]; [unfold count; cbn; f_equal; lia|].
  unfold count, in_B, in_M in *. cbn [List.filter length] in *.
  destruct (os_congestionWindow e.2 =? maxCwnd); cbn [negb andb];
    [|destruct (is_best rtt best e)]; rewrite ?u8_id by (unfold is_u8; lia); rewrite IH by lia; cbn [length]; f_equal; lia.
Qed.

Definition term (o : Olia) : Q := Qmake (epsilonNum o) (Z.to_pos (epsilonDen o)).

Definition Qsum : list Q → Q := foldr Qplus 0%Q.

Lemma Qsum_classes {A} (l : list A) (inB inM : A → bool) (x y : Q) :
  (∀ e, inB e = true → inM e = false) →
  (Qsum ((λ e, if inB e then x else if inM e then y else 0%Q) <$> l)
   == inject_Z (Z.of_nat (length (List.filter inB l))) * x + inject_Z (Z.of_nat (length (List.filter inM l))) * y)%Q.
Proof.
  intros Hd. induction l as [|e l IH]; cbn [Qsum foldr fmap list_fmap List.filter length]; [ring|].
  change (foldr Qplus 0%Q (?f <$> l)) with (Qsum (f <$> l)). rewrite IH.
  specialize (Hd e). destruct (inB e); [rewrite (Hd eq_refl)|destruct (inM e)]; cbn [length];
    rewrite ?Nat2Z.inj_succ; unfold Z.succ; rewrite ?inject_Z_plus; ring.
Qed.

Lemma Qshare n k s : 1 <= n → 1 <= k → (inject_Z k * Qmake s (Z.to_pos (n * k)) == Qmake s (Z.to_pos n))%Q.
Proof.
  intros Hn Hk. unfold Qeq, Qmult, inject_Z. cbn [Qnum Qden]. rewrite Pos.mul_1_l, !Z2Pos.id by nia. ring.
Qed.

(** Setting a value for every path of a list. *)
Lemma foldl_insert_lookup (g : Z * OliaSender → OliaSender) (l : list (Z * OliaSender)) (m : senders) :
  NoDup l.*1 →
  let m' := foldl (λ m' e, <[e.1 := g e]> m') m l in
  (∀ e, e ∈ l → m' !! e.1 = Some (g e)) ∧ (∀ id, id ∉ l.*1 → m' !! id = m !! id).
Proof.
  revert m. induction l as [|e l IH]; intros m Hnd; cbn [foldl fmap list_fmap] in *.
  { split; [by intros e ?%not_elem_of_nil|done]. }
  apply NoDup_cons in Hnd as [Hne Hnd]. destruct (IH (<[e.1:=g e]> m) Hnd) as [H1 H2]. cbv zeta in *. split.
  - intros e' [->|Hin]%elem_of_cons; [|by apply H1]. rewrite H2 by done. apply lookup_insert_eq.
  - intros id Hid. apply not_elem_of_cons in Hid as [? ?]. rewrite H2 by done. by apply lookup_insert_ne.
Qed.

(** The increase term the paths get. *)
Definition term_of (rtt : Z → Z) (l : list (Z * OliaSender)) (n : Z) (e : Z * OliaSender) : Z * Z :=
  let maxCwnd := getMaxCwnd l in
  let best := best_path rtt l in
  let B := count (in_B rtt maxCwnd best) l in
  if B =? 0 then (0, 1)
  else if in_B rtt maxCwnd best e then (1, n * B)
  else if in_M maxCwnd e then (-1, n * count (in_M maxCwnd) l)
  else (0, 1).

Lemma epsilon_term rtt l n e :
  Forall (λ e, 0 <= os_congestionWindow e.2) l → e ∈ l → 0 <= n <= 255 → Z.of_nat (length l) <= 255 →
  epsilon rtt (getMaxCwnd l) (best_path rtt l) (count (in_M (getMaxCwnd l)) l)
    (count (in_B rtt (getMaxCwnd l) (best_path rtt l)) l) n e = term_of rtt l n e.
Proof.
  intros Hw Hin Hn Hl. unfold epsilon, term_of. cbv zeta.
  set (B := count (in_B _ _ _) l). set (M := count (in_M _) l).
  assert (0 <= B <= 255 ∧ 0 <= M <= 255) as [HB HM].
  { split; unfold B, M; [pose proof (count_le (in_B rtt (getMaxCwnd l) (best_path rtt l)) l)
                        |pose proof (count_le (in_M (getMaxCwnd l)) l)]; lia. }
  destruct (getMaxCwnd_spec l 0 ltac:(lia) Hw) as (_ & Hmax & _). rewrite Forall_forall in Hmax. specialize (Hmax e Hin).
  fold (getMaxCwnd l) in Hmax. cbv beta in Hmax.
  rewrite (u32_id n) by (unfold is_u32; lia). rewrite !u32_id by (unfold is_u32; nia).
  destruct (B =? 0); [done|]. unfold in_B, in_M. destruct (Z.ltb_spec (os_congestionWindow e.2) (getMaxCwnd l)).
  - rewrite (proj2 (Z.eqb_neq _ _)) by lia. done.
  - rewrite (proj2 (Z.eqb_eq _ _)) by lia. done.
Qed.

Lemma getEpsilon_lookup rtt order m id o :
  iterates m order → Z.of_nat (length order) <= 255 →
  map_Forall (λ _ o, 0 <= os_congestionWindow o) m → m !! id = Some o →
  let l := in_order m order in
  let '(num, den) := term_of rtt l (Z.of_nat (length order)) (id, o) in
  getEpsilon rtt order m !! id = Some (os_set_olia o (set_epsilon (os_olia o) num den)).
Proof.
  intros Hit Hlen Hw Ho. pose proof (in_order_ids m order Hit) as Hids.
  assert (Z.of_nat (length (in_order m order)) = Z.of_nat (length order)) as Hl by (rewrite <- Hids at 2; by rewrite length_fmap).
  assert (Z.of_nat (size m) = Z.of_nat (length order)) as Hsize by (f_equal; by apply iterates_size).
  cbv zeta. unfold getEpsilon. rewrite set_sizes_spec by lia. set (l := in_order m order) in *. rewrite Hsize.
  set (n := Z.of_nat (length order)) in *.
  assert (Forall (λ e, 0 <= os_congestionWindow e.2) l) as Hwl.
  { apply Forall_forall. intros [id' o'] Hin. apply in_order_lookup in Hin. by apply (Hw id'). }
  set (g := λ e : Z * OliaSender, let '(num, den) := epsilon rtt (getMaxCwnd l) (best_path rtt l)
    (count (in_M (getMaxCwnd l)) l) (count (in_B rtt (getMaxCwnd l) (best_path rtt l)) l) n e in
    os_set_olia e.2 (set_epsilon (os_olia e.2) num den)).
  assert (∀ l0 m0, foldl (λ m' e, let '(num, den) := epsilon rtt (getMaxCwnd l) (best_path rtt l)
    (count (in_M (getMaxCwnd l)) l) (count (in_B rtt (getMaxCwnd l) (best_path rtt l)) l) n e in
    <[e.1 := os_set_olia e.2 (set_epsilon (os_olia e.2) num den)]> m') m0 l0
    = foldl (λ m' e, <[e.1 := g e]> m') m0 l0) as ->.
  { induction l0 as [|e l0 IH]; intros m0; [done|]. cbn [foldl]. rewrite IH. unfold g. by destruct (epsilon _ _ _ _ _ _ e). }
  destruct (foldl_insert_lookup g l m) as [Hl1 _]; [rewrite Hids; apply Hit|].
  assert ((id, o) ∈ l) as Hin by (by apply in_order_elem). specialize (Hl1 (id, o) Hin). cbn [fst] in Hl1.
  unfold g in Hl1. rewrite epsilon_term in Hl1 by (done || lia). destruct (term_of rtt l n (id, o)). exact Hl1.
Qed.

Lemma in_B_not_M rtt maxCwnd best e : in_B rtt maxCwnd best e = true → in_M maxCwnd e = false.
Proof. intros [H _]%andb_prop. by apply negb_true_iff in H. Qed.

Lemma largest_nonempty l :
  Forall (λ e, 0 <= os_congestionWindow e.2) l → l <> [] → 1 <= count (in_M (getMaxCwnd l)) l.
Proof.
  intros Hwl Hne. destruct (getMaxCwnd_attained l Hne Hwl) as (e & Hin & He). unfold count.
  assert (e ∈ List.filter (in_M (getMaxCwnd l)) l) as Hf.
  { apply list_elem_of_In, filter_In. split; [by apply list_elem_of_In|]. unfold in_M. by apply Z.eqb_eq. }
  destruct (List.filter _ l); [by apply not_elem_of_nil in Hf|]. cbn. lia.
Qed.

(** The terms of a list of paths add up to zero. *)
Lemma terms_sum rtt l :
  Forall (λ e, 0 <= os_congestionWindow e.2) l →
  (Qsum ((λ e, Qmake (term_of rtt l (Z.of_nat (length l)) e).1 (Z.to_pos (term_of rtt l (Z.of_nat (length l)) e).2)) <$> l) == 0)%Q.
Proof.
  intros Hwl. set (n := Z.of_nat (length l)). set (maxCwnd := getMaxCwnd l). set (best := best_path rtt l).
  set (B := count (in_B rtt maxCwnd best) l). set (M := count (in_M maxCwnd) l).
  set (x := Qmake 1 (Z.to_pos (n * B))). set (y := Qmake (-1) (Z.to_pos (n * M))).
  assert ((λ e, Qmake (term_of rtt l n e).1 (Z.to_pos (term_of rtt l n e).2)) <$> l
    = (λ e, if B =? 0 then 0%Q else if in_B rtt maxCwnd best e then x else if in_M maxCwnd e then y else 0%Q) <$> l) as ->.
  { apply list_fmap_ext. intros i e _. unfold term_of. cbv zeta. fold maxCwnd best B M.
    destruct (B =? 0); [done|]. destruct (in_B _ _ _ e); [done|]. by destruct (in_M _ e). }
  destruct (Z.eqb_spec B 0) as [|HB].
  { clear. induction l as [|e l IH]; [done|]. cbn. change (foldr Qplus 0%Q (?f <$> l)) with (Qsum (f <$> l)). rewrite IH. ring. }
  rewrite (Qsum_classes l _ (in_M maxCwnd) x y (in_B_not_M rtt maxCwnd best)).
  change (Z.of_nat (length (List.filter (in_B rtt maxCwnd best) l))) with B.
  change (Z.of_nat (length (List.filter (in_M maxCwnd) l))) with M.
  assert (l <> []) as Hne by (by intros E; unfold B in HB; rewrite E in HB).
  assert (1 <= n) by (unfold n; destruct l; [done|cbn; lia]). assert (0 <= B) by (unfold B, count; lia).
  pose proof (largest_nonempty l Hwl Hne). unfold x, y. rewrite !Qshare by (lia || done).
  unfold Qeq, Qplus. cbn [Qnum Qden]. ring.
Qed.

(** *** The terms of the algorithm, on the set of paths *)

Definition path_bytes (e : Z * OliaSender) : Z := SmoothedBytesBetweenLosses (os_olia e.2).

(** The products of the comparison stay within 64 bits, and every path has an RTT. *)
Definition products_fit (rtt : Z → Z) (m : senders) : Prop :=
  ∀ id o id' o', m !! id = Some o → m !! id' = Some o' →
    0 < rtt id' ∧ 0 <= path_bytes (id, o) ∧ rtt id' * rtt id' < 2^63 ∧ path_bytes (id, o) * (rtt id' * rtt id') < 2^63.

(** A best path: the ratio of its bytes between losses to the square of its RTT is the largest. *)
Definition is_best_path (rtt : Z → Z) (m : senders) (e : Z * OliaSender) : bool :=
  forallb (λ e', path_bytes e' * (rtt e.1 * rtt e.1) <=? path_bytes e * (rtt e'.1 * rtt e'.1)) (map_to_list m).

Definition has_largest_window (m : senders) (e : Z * OliaSender) : bool :=
  forallb (λ e', os_congestionWindow e'.2 <=? os_congestionWindow e.2) (map_to_list m).

(** [1/(n |B|)] for a best path without the largest window, of which there are [|B|]; [-1/(n |M|)] for one of the [|M|]
    paths with the largest window; nothing for others, nor if the best paths have the largest windows. *)
Definition olia_term (rtt : Z → Z) (m : senders) (e : Z * OliaSender) : Z * Z :=
  let n := Z.of_nat (size m) in
  let gains e := is_best_path rtt m e && negb (has_largest_window m e) in
  let B := count gains (map_to_list m) in
  let M := count (has_largest_window m) (map_to_list m) in
  if B =? 0 then (0, 1)
  else if gains e then (1, n * B)
  else if has_largest_window m e then (-1, n * M)
  else (0, 1).

Lemma i64_id z : - 2^63 <= z < 2^63 → i64 z = z.
Proof. intros H. unfold i64. rewrite Z.mod_small; lia. Qed.

Lemma count_ext f g l l' : l ≡ₚ l' → (∀ e, e ∈ l → f e = g e) → count f l = count g l'.
Proof.
  intros Hp Hfg. unfold count. transitivity (Z.of_nat (length (List.filter g l))).
  - do 2 f_equal. apply List.filter_ext_in. intros e He. apply Hfg. by apply list_elem_of_In.
  - clear Hfg. f_equal. induction Hp as [|e l l' _ IH|e e' l|l1 l2 l3 _ IH1 _ IH2]; cbn; [done| | |congruence].
    + destruct (g e); cbn; congruence.
    + by destruct (g e), (g e').
Qed.

Lemma in_order_perm m order : iterates m order → in_order m order ≡ₚ map_to_list m.
Proof.
  intros Hit. apply NoDup_Permutation; [|apply NoDup_map_to_list|].
  - apply (NoDup_fmap_1 fst). rewrite in_order_ids by done. apply Hit.
  - intros [id o]. rewrite (elem_of_map_to_list (M := gmap Z) m). split; [apply in_order_lookup|by apply in_order_elem].
Qed.

Lemma forallb_paths (P : Z * OliaSender → bool) (m : senders) :
  forallb P (map_to_list m) = true ↔ ∀ id o, m !! id = Some o → P (id, o) = true.
Proof.
  rewrite forallb_forall. split.
  - intros H id o Ho. apply H, list_elem_of_In. by apply elem_of_map_to_list.
  - intros H [id o] He. apply list_elem_of_In, elem_of_map_to_list in He. by apply H.
Qed.

Lemma in_M_largest m order e :
  iterates m order → map_Forall (λ _ o, 0 <= os_congestionWindow o) m → e ∈ in_order m order →
  in_M (getMaxCwnd (in_order m order)) e = has_largest_window m e.
Proof.
  intros Hit Hw Hin. set (l := in_order m order) in *.
  assert (Forall (λ e, 0 <= os_congestionWindow e.2) l) as Hwl.
  { apply Forall_forall. intros [id o] Ho%in_order_lookup. by apply (Hw id). }
  destruct (getMaxCwnd_spec l 0 ltac:(lia) Hwl) as (_ & Hmax & _). fold (getMaxCwnd l) in Hmax. rewrite Forall_forall in Hmax.
  destruct (getMaxCwnd_attained l) as (e' & He' & Ee); [by intros E; rewrite E in Hin; apply not_elem_of_nil in Hin|done|].
  apply eq_true_iff_eq. unfold has_largest_window, in_M. rewrite forallb_paths, Z.eqb_eq. split.
  - intros E id o Ho. apply Z.leb_le. rewrite E. apply (Hmax (id, o)). by apply in_order_elem.
  - intros H. destruct e' as [id o]. pose proof (H id o ltac:(by eapply in_order_lookup)) as Hle. apply Z.leb_le in Hle.
    specialize (Hmax e Hin). cbn in *. lia.
Qed.

Section BestPath.
Context (rtt : Z → Z) (m : senders) (Hfit : products_fit rtt m).

(** The comparison of the ratios of two paths. *)
Definition not_better (e e' : Z * OliaSender) : Prop :=
  path_bytes e * (rtt e'.1 * rtt e'.1) <= path_bytes e' * (rtt e.1 * rtt e.1).

Lemma squared_exact e : m !! e.1 = Some e.2 → squared_rtt rtt e.1 = rtt e.1 * rtt e.1 ∧ 0 < rtt e.1 * rtt e.1.
Proof using Hfit.
  intros He. destruct (Hfit e.1 e.2 e.1 e.2 He He) as (?&?&?&?). split; [|nia]. unfold squared_rtt. apply i64_id. nia.
Qed.

Lemma as_good_exact e e' :
  m !! e.1 = Some e.2 → m !! e'.1 = Some e'.2 →
  as_good (path_bytes e) (squared_rtt rtt e.1) (path_bytes e') (squared_rtt rtt e'.1) = true ↔ not_better e' e.
Proof using Hfit.
  intros He He'. destruct (squared_exact e He) as [-> Hs], (squared_exact e' He') as [-> Hs'].
  destruct (Hfit e.1 e.2 e'.1 e'.2 He He') as (_&?&_&?), (Hfit e'.1 e'.2 e.1 e.2 He' He) as (_&?&_&?).
  replace (e.1, e.2) with e in * by (by destruct e). replace (e'.1, e'.2) with e' in * by (by destruct e').
  unfold as_good, not_better. rewrite (i64_id (path_bytes e)), (i64_id (path_bytes e')) by (nia).
  rewrite !i64_id by (nia). rewrite Z.geb_le. done.
Qed.

Lemma not_better_trans e1 e2 e3 : 0 < rtt e2.1 * rtt e2.1 → not_better e1 e2 → not_better e2 e3 →
  0 < rtt e1.1 * rtt e1.1 → 0 < rtt e3.1 * rtt e3.1 → not_better e1 e3.
Proof using.
  unfold not_better. set (s1 := rtt e1.1 * rtt e1.1). set (s2 := rtt e2.1 * rtt e2.1). set (s3 := rtt e3.1 * rtt e3.1).
  intros H2 H12 H23 H1 H3. apply (Z.mul_le_mono_pos_r _ _ s2); [done|].
  transitivity (path_bytes e2 * s1 * s3); nia.
Qed.

(** The best path of a list is one of its paths, and none is better. *)
Lemma best_path_spec l :
  (∀ e, e ∈ l → m !! e.1 = Some e.2) → l <> [] →
  ∃ e, e ∈ l ∧ best_path rtt l = (squared_rtt rtt e.1, path_bytes e) ∧ ∀ e', e' ∈ l → not_better e' e.
Proof using Hfit.
  induction l as [|e l IH] using rev_ind; [done|]. intros Hin _. unfold best_path. rewrite foldl_snoc. fold (best_path rtt l).
  assert (m !! e.1 = Some e.2) as He by (apply Hin; set_solver). destruct (squared_exact e He) as [_ Hs].
  destruct (decide (l = [])) as [->|Hne].
  { cbn. exists e. split; [set_solver|]. unfold as_good. rewrite Z.mul_0_r. cbn. split; [done|].
    intros e' ->%list_elem_of_singleton. unfold not_better. done. }
  destruct IH as (b & Hb & -> & Hall); [set_solver|done|]. assert (m !! b.1 = Some b.2) as Hbm by (apply Hin; set_solver).
  destruct (squared_exact b Hbm) as [_ Hsb]. cbv zeta. cbn [fst snd].
  change (SmoothedBytesBetweenLosses (os_olia e.2)) with (path_bytes e).
  pose proof (as_good_exact e b He Hbm) as Hg. destruct (as_good _ _ _ _).
  - exists e. split; [set_solver|]. split; [done|]. intros e' [He'| ->%list_elem_of_singleton]%elem_of_app; [|unfold not_better; done].
    assert (m !! e'.1 = Some e'.2) as Hm' by (apply Hin; set_solver). destruct (squared_exact e' Hm') as [_ Hs'].
    by apply (not_better_trans e' b e); [done|apply Hall|apply Hg| |].
  - exists b. split; [set_solver|]. split; [done|]. intros e' [He'| ->%list_elem_of_singleton]%elem_of_app; [by apply Hall|].
    destruct (Z.le_ge_cases (path_bytes b * (rtt e.1 * rtt e.1)) (path_bytes e * (rtt b.1 * rtt b.1))) as [Hle|Hge];
      [by apply Hg in Hle|done].
Qed.

Lemma is_best_exact order e :
  iterates m order → e ∈ in_order m order → is_best rtt (best_path rtt (in_order m order)) e = is_best_path rtt m e.
Proof using Hfit.
  intros Hit Hin. set (l := in_order m order) in *.
  assert (∀ e, e ∈ l → m !! e.1 = Some e.2) as Hl by (intros [id o]; apply in_order_lookup).
  destruct (best_path_spec l Hl) as (b & Hb & Eb & Hall); [by intros E; rewrite E in Hin; apply not_elem_of_nil in Hin|].
  apply eq_true_iff_eq. unfold is_best, is_best_path. rewrite Eb, forallb_paths. cbn [fst snd].
  change (SmoothedBytesBetweenLosses (os_olia e.2)) with (path_bytes e). rewrite as_good_exact by auto.
  destruct (squared_exact e (Hl e Hin)) as [_ He], (squared_exact b (Hl b Hb)) as [_ Hsb]. split.
  - intros Hbe id o Ho. apply Z.leb_le. destruct (squared_exact (id, o) Ho) as [_ Ho'].
    apply (not_better_trans (id, o) b e); [done|apply Hall; by apply in_order_elem|done|done|done].
  - intros H. specialize (H b.1 b.2 (Hl b Hb)). apply Z.leb_le in H. by destruct b.
Qed.

Lemma term_of_exact order e :
  iterates m order → map_Forall (λ _ o, 0 <= os_congestionWindow o) m → e ∈ in_order m order →
  term_of rtt (in_order m order) (Z.of_nat (size m)) e = olia_term rtt m e.
Proof using Hfit.
  intros Hit Hw Hin. set (l := in_order m order) in *. pose proof (in_order_perm m order Hit) as Hp. fold l in Hp.
  assert (∀ e, e ∈ l → in_M (getMaxCwnd l) e = has_largest_window m e) as HM by (intros; by apply in_M_largest).
  assert (∀ e, e ∈ l → in_B rtt (getMaxCwnd l) (best_path rtt l) e = is_best_path rtt m e && negb (has_largest_window m e)) as HB.
  { intros e' He'. unfold in_B. rewrite HM by done. unfold l. rewrite is_best_exact by done. apply andb_comm. }
  unfold term_of, olia_term. cbv zeta. rewrite (count_ext _ _ _ _ Hp HM), (count_ext _ _ _ _ Hp HB), HM, HB by done. done.
Qed.

End BestPath.

(** C35: the coupling of the paths follows OLIA.  Setting the increase terms touches nothing else of the paths, and the terms
    of all the paths add up to zero.  As long as every path has an RTT and the products the code compares stay below [2^63] --
    it does not check this, and [olia_best_path_overflows] shows a case where they do not -- the terms are those of the algorithm,
    whatever the order of the iterations over the map: with [n] paths, of which [M] have the largest window and [B] have
    the largest ratio of bytes between losses to squared RTT without having the largest window, each of the [B] gets
    [1/(nB)] and each of the [M] gets [-1/(nM)]; the others get nothing, and no path gets anything if [B] is 0.  There are at most 255 paths. *)
Theorem olia_terms_cancel (rtt : Z → Z) (order : list Z) (m : senders) :
  iterates m order → Z.of_nat (length order) <= 255 →
  map_Forall (λ _ o, 0 <= os_congestionWindow o) m →
  let m' := getEpsilon rtt order m in
  (Qsum ((λ id, match m' !! id with Some o => term (os_olia o) | None => 0%Q end) <$> order) == 0)%Q ∧
  ∀ id o, m !! id = Some o → ∃ num den,
    m' !! id = Some (os_set_olia o (set_epsilon (os_olia o) num den)) ∧
    (products_fit rtt m → (num, den) = olia_term rtt m (id, o)).
Proof.
  intros Hit Hlen Hw m'. pose proof (in_order_ids m order Hit) as Hids. set (l := in_order m order) in *.
  assert (length order = length l) as El by (rewrite <- Hids; apply length_fmap).
  assert (Forall (λ e, 0 <= os_congestionWindow e.2) l) as Hwl.
  { apply Forall_forall. intros [id o] Hin. apply in_order_lookup in Hin. by apply (Hw id). }
  assert (∀ e, e ∈ l → ∃ num den, term_of rtt l (Z.of_nat (length l)) e = (num, den) ∧
    m' !! e.1 = Some (os_set_olia e.2 (set_epsilon (os_olia e.2) num den))) as Hlk.
  { intros [id o] Hin. apply in_order_lookup in Hin. pose proof (getEpsilon_lookup rtt order m id o Hit Hlen Hw Hin) as H.
    cbv zeta in H. fold l in H. rewrite El in H. destruct (term_of rtt l _ (id, o)) as [num den]. eauto. }
  split.
  - rewrite <- (terms_sum rtt l Hwl). rewrite <- Hids at 1. rewrite <- list_fmap_compose.
    erewrite list_fmap_ext; [done|]. intros i e Hi. cbn [compose].
    destruct (Hlk e) as (num & den & -> & ->); [by eapply list_elem_of_lookup_2|]. done.
  - intros id o Ho. assert ((id, o) ∈ l) as Hin by (by apply in_order_elem).
    destruct (Hlk (id, o) Hin) as (num & den & Ht & Hm). exists num, den. split; [exact Hm|]. intros Hfit.
    rewrite <- (term_of_exact rtt m Hfit order (id, o) Hit Hw Hin), (iterates_size m order Hit), El. by rewrite <- Ht.
Qed.

(** ** Runs *)

(** What the senders of the paths see: a path is set up, and a path's handler reports to its sender;
    an acknowledgement comes with the RTTs of all paths and an order of the iteration. *)
Inductive olia_op : Type :=
  | OSetup (id : Z)
  | OSent (id packetNumber bytes : Z) (isRetransmittable : bool)
  | OAcked (id : Z) (rtt : Z → Z) (order : list Z) (packetNumber bytes bytesInFlight : Z)
  | OLost (id packetNumber bytes bytesInFlight : Z)
  | OMaybeExit (id : Z) (r : RTTStats)
  | OTimeout (id : Z) (packetsRetransmitted : bool)
  | OMigration (id : Z)
  | OLargeReduction (id : Z) (enabled : bool).

Definition on_sender (m : senders) (id : Z) (f : OliaSender → OliaSender) : senders :=
  match m !! id with Some o => <[id := f o]> m | None => m end.

Definition olia_step (initial initialMax : Z) (m : senders) (op : olia_op) : senders :=
  match op with
  | OSetup id => <[id := NewOliaSender initial initialMax]> m
  | OSent id n bytes retransmittable => on_sender m id (λ o, os_OnPacketSent o n bytes retransmittable)
  | OAcked id rtt order n bytes inFlight => os_OnPacketAcked rtt order m id n bytes inFlight
  | OLost id n bytes inFlight => on_sender m id (λ o, os_OnPacketLost o n bytes inFlight)
  | OMaybeExit id r => on_sender m id (λ o, os_MaybeExitSlowStart o r)
  | OTimeout id retransmitted => on_sender m id (λ o, os_OnRetransmissionTimeout o retransmitted)
  | OMigration id => on_sender m id os_OnConnectionMigration
  | OLargeReduction id enabled => on_sender m id (λ o, os_SetSlowStartLargeReduction o enabled)
  end.

Definition olia_run (initial initialMax : Z) (ops : list olia_op) : senders :=
  foldl (olia_step initial initialMax) ∅ ops.

(** The window and the configuration of a sender. *)
Definition olia_ok (initial initialMax : Z) (o : OliaSender) : Prop :=
  1 <= os_congestionWindow o <= initialMax ∧ os_maxTCPCongestionWindow o = initialMax ∧
  os_minCongestionWindow o = 2 ∧ os_numConnections o = 2 ∧
  os_initialCongestionWindow o = initial ∧ os_initialMaxCongestionWindow o = initialMax.

Section Bounds.
Context (initial initialMax : Z) (Hi : 2 <= initial <= initialMax) (Hm : initialMax < 2^24).

Notation ok := (olia_ok initial initialMax).

Lemma on_sender_ok m id f :
  map_Forall (λ _ o, ok o) m → (∀ o, ok o → ok (f o)) → map_Forall (λ _ o, ok o) (on_sender m id f).
Proof using.
  intros Hok Hf. unfold on_sender. destruct (m !! id) as [o|] eqn:E; [|done].
  apply map_Forall_insert_2; [|done]. by apply Hf, (Hok id).
Qed.

Lemma os_OnPacketLost_ok o n bytes inFlight : ok o → ok (os_OnPacketLost o n bytes inFlight).
Proof using Hi Hm.
  intros (Hw & H1 & H2 & H3 & H4 & H5). unfold os_OnPacketLost.
  assert (os_congestionWindow o -u64 1 = os_congestionWindow o - 1) as Eu by (apply u64_id; unfold is_u64; lia).
  destruct (n <=? _).
  - unfold os_repeated_loss. destruct (os_lastCutbackExitedSlowstart o); [|by split_and!; try lia].
    destruct (os_slowStartLargeReduction _); split_and!; simpl; try done; try lia;
      (destruct (_ || _); [|lia]); rewrite H2, Eu; unfold MaxPacketNumber; destruct (_ >? 2) eqn:E; zbool; lia.
  - pose proof (backoff_le (os_congestionWindow o) ltac:(lia)) as Hb.
    unfold os_RenoBeta. rewrite H3. change renoBeta with cubic_beta0.
    set (w := if _ && _ then _ else trunc _). assert (w <= initialMax) as Hwm by (unfold w; destruct (_ && _); lia).
    split_and!; simpl; try done; rewrite H2; pose proof (clamp_window w initialMax); lia.
Qed.

Lemma os_OnPacketSent_ok o n bytes b : ok o → ok (os_OnPacketSent o n bytes b).
Proof using. intros H. unfold os_OnPacketSent. by destruct b. Qed.

Lemma os_MaybeExit_ok o r : ok o → ok (os_MaybeExitSlowStart o r).
Proof using.
  intros H. unfold os_MaybeExitSlowStart. destruct (os_InSlowStart o); [|done].
  destruct (ShouldExitSlowStart _ _ _ _) as [[|] h]; done.
Qed.

Lemma os_Timeout_ok o b : ok o → ok (os_OnRetransmissionTimeout o b).
Proof using Hi.
  intros (Hw & H1 & H2 & H3 & H4 & H5). unfold os_OnRetransmissionTimeout.
  destruct b; split_and!; simpl; try done; lia.
Qed.

Lemma getEpsilon_ok rtt order m :
  map_Forall (λ _ o, ok o) m → map_Forall (λ _ o, ok o) (getEpsilon rtt order m).
Proof using.
  intros Hok. unfold getEpsilon. destruct (set_sizes _ _ _ _) as [M B].
  assert (Forall (λ e, ok e.2) (in_order m order)) as Hl.
  { apply Forall_forall. intros [id o] Hin. apply in_order_lookup in Hin. by apply (Hok id). }
  generalize (Z.of_nat (size m)) as n. generalize (getMaxCwnd (in_order m order)) as w.
  generalize (best_path rtt (in_order m order)) as b. intros b w n. revert Hok.
  revert Hl. generalize (in_order m order) as l. intros l Hl. revert m.
  induction Hl as [|e l He Hl IH]; intros m Hok; [done|]. cbn [foldl].
  destruct (epsilon rtt w b M B n e) as [num den]. apply IH. by apply map_Forall_insert_2.
Qed.

Lemma os_maybeIncrease_ok rtt order m id inFlight :
  map_Forall (λ _ o, ok o) m → map_Forall (λ _ o, ok o) (os_maybeIncreaseCwnd rtt order m id inFlight).
Proof using Hi Hm.
  intros Hok. unfold os_maybeIncreaseCwnd. destruct (m !! id) as [o|] eqn:E; [|done].
  destruct (negb _); [done|]. pose proof (Hok id o E) as (Hw & H1 & H2 & H3 & H4 & H5). cbv beta in *.
  destruct (Z.geb_spec (os_congestionWindow o) (os_maxTCPCongestionWindow o)); [done|].
  destruct (os_InSlowStart o).
  { apply map_Forall_insert_2; [|done]. split_and!; simpl; try done; rewrite u64_id by (unfold is_u64; lia); lia. }
  pose proof (getEpsilon_ok rtt order m Hok) as Hok'. set (m' := getEpsilon rtt order m) in *. clearbody m'.
  clear E Hw H1 H2 H3 H4 H5 H. destruct (m' !! id) as [o'|] eqn:E; [|done].
  pose proof (Hok' id o' E) as (Hw & H1 & H2 & H3 & H4 & H5). cbv beta in *.
  destruct (olia_CongestionWindowAfterAck _ _ _ _) as [w ol] eqn:Ew. apply map_Forall_insert_2; [|done].
  assert (1 <= w) as Hw1.
  { unfold olia_CongestionWindowAfterAck in Ew. destruct (_ >=? _); [|destruct (_ <=? _)]; simplify_eq; [..|lia].
    - rewrite u64_id by (unfold is_u64; lia). lia.
    - unfold MaxPacketNumber. destruct (Z.gtb_spec 1 (os_congestionWindow o' -u64 1)); lia. }
  split_and!; simpl; try done; rewrite H1; unfold MinPacketNumber; destruct (Z.ltb_spec initialMax w); lia.
Qed.

Lemma os_OnPacketAcked_ok rtt order m id n bytes inFlight :
  map_Forall (λ _ o, ok o) m → map_Forall (λ _ o, ok o) (os_OnPacketAcked rtt order m id n bytes inFlight).
Proof using Hi Hm.
  intros Hok. unfold os_OnPacketAcked. destruct (m !! id) as [o|] eqn:E; [|done].
  pose proof (Hok id o E) as Ho. destruct (os_InRecovery _); [by apply map_Forall_insert_2|].
  set (o1 := os_set_olia _ _). assert (map_Forall (λ _ o, ok o) (<[id:=o1]> m)) as H1 by (by apply map_Forall_insert_2).
  pose proof (os_maybeIncrease_ok rtt order _ id inFlight H1) as H2. set (m' := os_maybeIncreaseCwnd _ _ _ _ _) in *.
  clearbody m'. destruct (m' !! id) as [o'|] eqn:E'; [|done]. pose proof (H2 id o' E') as Ho'.
  destruct (os_InSlowStart o'); [|done]. by apply map_Forall_insert_2.
Qed.

Lemma olia_step_ok m op :
  map_Forall (λ _ o, ok o) m → map_Forall (λ _ o, ok o) (olia_step initial initialMax m op).
Proof using Hi Hm.
  intros Hok. destruct op; cbn [olia_step];
    first [by apply os_OnPacketAcked_ok|apply on_sender_ok; [done|]; intros o Ho|apply map_Forall_insert_2; [|done]].
  - split_and!; simpl; try done; lia.
  - by apply os_OnPacketSent_ok.
  - by apply os_OnPacketLost_ok.
  - by apply os_MaybeExit_ok.
  - by apply os_Timeout_ok.
  - destruct Ho as (Hw & H1 & H2 & H3 & H4 & H5). split_and!; simpl; try done; lia.
  - done.
Qed.

Lemma olia_run_ok m ops :
  map_Forall (λ _ o, ok o) m → map_Forall (λ _ o, ok o) (foldl (olia_step initial initialMax) m ops).
Proof using Hi Hm. revert m. induction ops as [|op ops IH]; intros m H0; [done|]. by apply IH, olia_step_ok. Qed.
End Bounds.

(** C34: whatever the paths of a connection see -- packets sent, acknowledged, with any RTTs, or lost,
    timeouts, the end of slow start, paths that are added -- in any order and interleaving, no path's
    congestion window falls to zero or exceeds the configured maximum: every path can send, and the
    coupling with the other paths cannot lift a path above its limit. *)
Theorem olia_window_bounds (initial initialMax : Z) (ops : list olia_op) (id : Z) (o : OliaSender) :
  2 <= initial <= initialMax → initialMax < 2^24 →
  olia_run initial initialMax ops !! id = Some o →
  1 * DefaultTCPMSS <= os_GetCongestionWindow o <= initialMax * DefaultTCPMSS.
Proof.
  intros Hi Hm Ho.
  destruct (olia_run_ok initial initialMax Hi Hm ∅ ops (map_Forall_empty _) id o Ho) as (Hw & _).
  unfold os_GetCongestionWindow. rewrite u64_id by (unfold is_u64, DefaultTCPMSS; lia). unfold DefaultTCPMSS. lia.
Qed.

(** ** The interface *)

(** The controller of a path as the path's handler sees it: the path, the senders and the smoothed
    RTTs of all paths, and the order of the next iteration. *)
Record oliaController : Type := mkController {
  oc_path : Z;
  oc_senders : senders;
  oc_rtt : Z → Z;
  oc_order : list Z;
}.

Definition oc_sender (c : oliaController) : OliaSender :=
  match oc_senders c !! oc_path c with Some o => o | None => NewOliaSender 0 0 end.

Definition oc_update (c : oliaController) (f : OliaSender → OliaSender) : oliaController :=
  mkController (oc_path c) (on_sender (oc_senders c) (oc_path c) f) (oc_rtt c) (oc_order c).

(** The RTT of the path itself is the one its handler passes. *)
Definition oc_rtts (c : oliaController) (r : RTTStats) (id : Z) : Z :=
  if id =? oc_path c then smoothedRTT r else oc_rtt c id.

#[export] Instance oliaController_algorithm : SendAlgorithm oliaController := {|
  OnPacketSent := λ c _ _ _ n bytes retransmittable, oc_update c (λ o, os_OnPacketSent o n bytes retransmittable);
  GetCongestionWindow := λ c, os_GetCongestionWindow (oc_sender c);
  GetSlowStartThreshold := λ c, os_GetSlowStartThreshold (oc_sender c);
  MaybeExitSlowStart := λ c r, oc_update c (λ o, os_MaybeExitSlowStart o r);
  OnPacketAcked := λ c r _ n bytes inFlight,
    mkController (oc_path c)
      (os_OnPacketAcked (oc_rtts c r) (oc_order c) (oc_senders c) (oc_path c) n bytes inFlight)
      (oc_rtt c) (oc_order c);
  OnPacketLost := λ c _ _ n bytes inFlight, oc_update c (λ o, os_OnPacketLost o n bytes inFlight);
  OnRetransmissionTimeout := λ c b, oc_update c (λ o, os_OnRetransmissionTimeout o b);
  RetransmissionDelay := λ c r, os_RetransmissionDelay (oc_sender c) r;
  cong_SmoothedRTT := λ _ r, smoothedRTT r;
|}.

#[export] Instance oliaController_laws : SendAlgorithmLaws oliaController.
Proof. by split. Qed.

(** ** Examples *)

(** Paths 1 and 5 with large windows; path 3 has sent more between losses, at a shorter RTT. *)
Definition sample_senders : senders :=
  let s w acked := os_set_olia (os_set_window (NewOliaSender 32 1000) w w false 0) (NewOlia acked) in
  {[1 := s 40 0; 3 := os_set_olia (s 10 0) (mkOlia 0 0 90000 0 1 0); 5 := s 40 0; 7 := s 12 0]}.

Definition sample_rtt (unit id : Z) : Z := (if id =? 3 then 20 else 60) * unit.

Lemma sample_fit : products_fit (sample_rtt Microsecond) sample_senders.
Proof.
  set (rtt := sample_rtt Microsecond).
  assert (forallb (λ e, forallb (λ e', (0 <? rtt e'.1) && (0 <=? path_bytes e) && (rtt e'.1 * rtt e'.1 <? 2^63)
    && (path_bytes e * (rtt e'.1 * rtt e'.1) <? 2^63)) (map_to_list sample_senders)) (map_to_list sample_senders) = true)
    as H by (vm_compute; reflexivity).
  intros id o id' o' Ho Ho'. apply (proj1 (forallb_paths _ _)) with (1 := H) in Ho.
  apply (proj1 (forallb_paths _ _)) with (1 := Ho) in Ho'. cbv beta in Ho'. zbool. cbn in *. split_and!; done.
Qed.

Lemma sample_terms :
  forallb (λ e, bool_decide (olia_term (sample_rtt Microsecond) sample_senders e =
    if e.1 =? 3 then (1, 4) else if e.1 =? 7 then (0, 1) else (-1, 8))) (map_to_list sample_senders) = true.
Proof. vm_compute. reflexivity. Qed.

Lemma olia_terms_cancel_witness :
  let order := [7; 1; 3; 5] in
  let m' := getEpsilon (sample_rtt Microsecond) order sample_senders in
  (Qsum ((λ id, match m' !! id with Some o => term (os_olia o) | None => 0%Q end) <$> order) == 0)%Q ∧
  ∀ id o, sample_senders !! id = Some o → ∃ num den,
    (λ o, (epsilonNum (os_olia o), epsilonDen (os_olia o))) <$> m' !! id = Some (num, den) ∧
    (num, den) = if id =? 3 then (1, 4) else if id =? 7 then (0, 1) else (-1, 8).
Proof.
  intros order m'. destruct (olia_terms_cancel (sample_rtt Microsecond) order sample_senders) as [H1 H2].
  - apply iterates_dom; [repeat constructor; set_solver|vm_compute; reflexivity].
  - cbn. lia.
  - apply map_Forall_to_list, (bool_decide_unpack (Forall _ _)). vm_compute. exact I.
  - split; [exact H1|]. intros id o Ho. destruct (H2 id o Ho) as (num & den & Hm & Ht). exists num, den.
    fold m' in Hm. rewrite Hm. split; [done|]. rewrite Ht; [|exact sample_fit].
    apply (proj1 (forallb_paths _ _) sample_terms), bool_decide_eq_true in Ho. exact Ho.
Defined.

(** The comparison of two paths multiplies the bytes of one by the square of the other's RTT in
    nanoseconds, in 64 bits.  With RTTs of 20 and 60 milliseconds instead of microseconds the
    product overflows for 90000 bytes, so that the path that is best, by far, is not found to be. *)
Theorem olia_best_path_overflows :
  let order := [7; 1; 3; 5] in
  (λ o, epsilonNum (os_olia o)) <$> getEpsilon (sample_rtt Microsecond) order sample_senders !! 3 = Some 1 ∧
  (λ o, epsilonNum (os_olia o)) <$> getEpsilon (sample_rtt Millisecond) order sample_senders !! 3 = Some 0 ∧
  i64 (90000 * squared_rtt (sample_rtt Millisecond) 7) < 0 < 90000 * squared_rtt (sample_rtt Millisecond) 7.
Proof. vm_compute. repeat split; reflexivity. Qed.

(** Path 3 is added while path 1 grows; both are acknowledged, and path 1 loses a packet. *)
Lemma olia_window_bounds_witness :
  let ops := [OSetup 1; OSent 1 1 1460 true; OAcked 1 (sample_rtt Millisecond) [1] 1 1460 60000; OSetup 3;
              OSent 3 1 1460 true; OAcked 3 (sample_rtt Millisecond) [3; 1] 1 1460 60000; OLost 1 2 1460 40000;
              OAcked 1 (sample_rtt Millisecond) [1; 3] 9 1460 60000] in
  ∃ o, olia_run 32 1000 ops !! 1 = Some o ∧ os_congestionWindow o = 28 ∧
    1 * DefaultTCPMSS <= os_GetCongestionWindow o <= 1000 * DefaultTCPMSS.
Proof.
  intros ops. destruct (olia_run 32 1000 ops !! 1) as [o|] eqn:E; [|vm_compute in E; discriminate E].
  exists o. split; [reflexivity|]. split; [|apply (olia_window_bounds 32 1000 ops 1 o); [lia|lia|exact E]].
  vm_compute in E. injection E as <-. reflexivity.
Defined.
