(* ===== verification/Crypto.v ===== *)
(** * Cryptography

    The parts of internal/crypto that are the program's own: the null AEADs that protect packets before
    there are keys, AES-GCM with twelve-byte tags and how nonces are made for it, the derivation of
    the keys of both sides from one secret, the key exchange.  The primitives -- the block cipher, HKDF,
    the hash of the null AEAD, scalar multiplication on Curve25519 -- are other packages' code and are
    arguments; what the theorems use of them is stated as laws. *)

From S2P Require Import Prelude ByteOrder Protocol Frames StreamFrame PublicHeader Unpacker Handshake Packer.

Definition string_bytes (t : string) : list Z :=
  (λ c, Z.of_nat (Ascii.nat_of_ascii c)) <$> String.list_ascii_of_string t.

(** ** AEADs *)

Record AEAD : Type := mkAEAD {
  AEAD_Open : list Z → Z → list Z → result (list Z);
  AEAD_Seal : list Z → Z → list Z → list Z;
  AEAD_Overhead : Z;
}.

Definition sealer_of (a : AEAD) : Sealer := {| Seal := AEAD_Seal a; Overhead := AEAD_Overhead a |}.

(** What the two ends of a connection promise each other: what [a] seals, [b] opens. *)
Class AEADPair (a b : AEAD) : Prop := {
  pair_overhead : 0 <= AEAD_Overhead a <= 1000;
  pair_bytes payload pn ad : bytes_ok payload → bytes_ok (AEAD_Seal a payload pn ad);
  pair_length payload pn ad :
    Z.of_nat (length (AEAD_Seal a payload pn ad)) = Z.of_nat (length payload) + AEAD_Overhead a;
  pair_opens payload pn ad : bytes_ok payload → AEAD_Open b (AEAD_Seal a payload pn ad) pn ad = Ok payload;
}.

(** ** The null AEADs *)

(** The standard library's FNV-1a hash of 64 bits. *)
Definition fnv64a (l : list Z) : Z := foldl (λ h b, u64 (Z.lxor h b * 1099511628211)) 14695981039346656037 l.

Definition errAuthenticate : error := ErrorString "NullAEAD: failed to authenticate received data".

Definition FNV64a_Open (src : list Z) (packetNumber : Z) (associatedData : list Z) : result (list Z) :=
  if (length src <? 8)%nat then Err (ErrorString "NullAEAD: ciphertext cannot be less than 8 bytes long")
  else
    let data := take (length src - 8) src in
    if fnv64a (associatedData ++ data) =? le_combine (reverse (drop (length src - 8) src)) then Ok data
    else Err errAuthenticate.

Definition FNV64a_Seal (src : list Z) (packetNumber : Z) (associatedData : list Z) : list Z :=
  src ++ reverse (le_split 8 (fnv64a (associatedData ++ src))).

Definition nullAEADFNV64a : AEAD := mkAEAD FNV64a_Open FNV64a_Seal 8.

Section NullAEAD.
(** The high and the low half of the FNV-1a hash of 128 bits. *)
Context (fnv128a : list Z → Z * Z).

Definition FNV128a_Open (perspective : Perspective) (src : list Z) (packetNumber : Z) (associatedData : list Z)
  : result (list Z) :=
  if (length src <? 12)%nat then Err (ErrorString "NullAEAD: ciphertext cannot be less than 12 bytes long")
  else
    let peer := match perspective with PerspectiveServer => "Client" | PerspectiveClient => "Server" end in
    let '(testHigh, testLow) := fnv128a (associatedData ++ drop 12 src ++ string_bytes peer) in
    let low := le_combine (take 8 src) in
    let high := le_combine (take 4 (drop 8 src)) in
    if negb (u32 (Z.land testHigh 0xffffffff) =? high) || negb (testLow =? low) then Err errAuthenticate
    else Ok (drop 12 src).

Definition FNV128a_Seal (perspective : Perspective) (src : list Z) (packetNumber : Z) (associatedData : list Z)
  : list Z :=
  let own := match perspective with PerspectiveServer => "Server" | PerspectiveClient => "Client" end in
  let '(high, low) := fnv128a (associatedData ++ src ++ string_bytes own) in
  le_split 8 low ++ le_split 4 (u32 high) ++ src.

Definition nullAEADFNV128a (perspective : Perspective) : AEAD :=
  mkAEAD (FNV128a_Open perspective) (FNV128a_Seal perspective) 12.

Definition NewNullAEAD (p : Perspective) (v : Z) : AEAD :=
  if UsesTLS v then nullAEADFNV64a else nullAEADFNV128a p.
End NullAEAD.

(** ** AES-GCM with tags of twelve bytes *)

(** The interface cipher.AEAD: nonce, text, associated data. *)
Record cipherAEAD : Type := mkCipher {
  cipher_Open : list Z → list Z → list Z → result (list Z);
  cipher_Seal : list Z → list Z → list Z → list Z;
  cipher_Overhead : Z;
}.

Definition makeNonce (iv : list Z) (packetNumber : Z) : list Z :=
  take 4 (iv ++ replicate 4 0) ++ le_split 8 packetNumber.

Definition errKeyLengths : error := ErrorString "AES-GCM: expected 16-byte keys and 4-byte IVs".

Section KeyDerivation.
(** The cipher for a key, and the first bytes HKDF gives for a secret, a salt and an info. *)
Context (newGCM : list Z → result cipherAEAD) (hkdf : list Z → list Z → list Z → nat → result (list Z)).

Definition NewAEADAESGCM12 (otherKey myKey otherIV myIV : list Z) : result AEAD :=
  if negb (length myKey =? 16)%nat || negb (length otherKey =? 16)%nat
     || negb (length myIV =? 4)%nat || negb (length otherIV =? 4)%nat then Err errKeyLengths
  else
    encrypter ← newGCM myKey;
    decrypter ← newGCM otherKey;
    Ok (mkAEAD (λ src pn ad, cipher_Open decrypter (makeNonce otherIV pn) src ad)
          (λ src pn ad, cipher_Seal encrypter (makeNonce myIV pn) src ad) (cipher_Overhead encrypter)).

(** ** Keys *)

Definition diversify (key iv divNonce : list Z) : result (list Z * list Z) :=
  s ← hkdf (key ++ iv) divNonce (string_bytes "QUIC key diversification") (length key + length iv);
  Ok (take (length key) s, drop (length key) s).

(** The other side's key, our key, the other side's IV, our IV. *)
Definition deriveKeys (forwardSecure : bool) (sharedSecret nonces : list Z) (connID : Z)
    (chlo scfg cert divNonce : list Z) (keyLen : nat) (swap : bool)
  : result (list Z * list Z * list Z * list Z) :=
  let label := if forwardSecure then "QUIC forward secure key expansion" else "QUIC key expansion" in
  let info := string_bytes label ++ [0] ++ WriteUint64 LittleEndian connID ++ chlo ++ scfg ++ cert in
  s ← hkdf sharedSecret nonces info (2 * keyLen + 2 * 4);
  let key1 := take keyLen s in
  let key2 := take keyLen (drop keyLen s) in
  let iv1 := take 4 (drop (2 * keyLen) s) in
  let iv2 := drop (2 * keyLen + 4) s in
  '(key2, iv2) ← (if forwardSecure then Ok (key2, iv2) else diversify key2 iv2 divNonce);
  if swap then Ok (key2, key1, iv2, iv1) else Ok (key1, key2, iv1, iv2).

Definition DeriveQuicCryptoAESKeys (forwardSecure : bool) (sharedSecret nonces : list Z) (connID : Z)
    (chlo scfg cert divNonce : list Z) (pers : Perspective) : result AEAD :=
  let swap := match pers with PerspectiveClient => true | PerspectiveServer => false end in
  '(otherKey, myKey, otherIV, myIV) ←
    deriveKeys forwardSecure sharedSecret nonces connID chlo scfg cert divNonce 16 swap;
  NewAEADAESGCM12 otherKey myKey otherIV myIV.
End KeyDerivation.

(** ** Key exchange *)

Record KeyExchange : Type := mkKEX {
  PublicKey : list Z;
  CalculateSharedKey : list Z → result (list Z);
}.

Section Curve25519.
Context (ScalarMult : list Z → list Z → list Z) (ScalarBaseMult : list Z → list Z).

(** A random number as a scalar of the curve. *)
Definition clamp (secret : list Z) : list Z :=
  alter (λ b, Z.lor (Z.land b 127) 64) 31%nat (alter (λ b, Z.land b 248) 0%nat secret).

(** [random] is what the source of random numbers gives, [None] if it fails. *)
Definition NewCurve25519KEX (random : option (list Z)) : result KeyExchange :=
  match random with
  | None => Err (ErrorString "Curve25519: could not create private key")
  | Some r =>
      let secret := clamp r in
      Ok (mkKEX (ScalarBaseMult secret) (λ otherPublic,
        if negb (length otherPublic =? 32)%nat then Err (ErrorString "Curve25519: expected public key of 32 byte")
        else Ok (ScalarMult secret otherPublic)))
  end.
End Curve25519.

(** ** Both ends of a connection *)

Lemma fnv64a_u64 l : is_u64 (fnv64a l).
Proof.
  assert (∀ h, is_u64 h → is_u64 (foldl (λ h b, u64 (Z.lxor h b * 1099511628211)) h l)) as Hl.
  { induction l as [|b l IH]; intros h Hh; [done|]. cbn. apply IH. unfold u64, is_u64. apply Z.mod_pos_bound. lia. }
  apply Hl. unfold is_u64. lia.
Qed.

Lemma null64_pair : AEADPair nullAEADFNV64a nullAEADFNV64a.
Proof.
  split; cbn [nullAEADFNV64a AEAD_Seal AEAD_Open AEAD_Overhead]; unfold FNV64a_Seal; [lia|..]; intros payload pn ad.
  - intros Hb. apply bytes_ok_app; [done|]. apply Forall_reverse, le_split_bytes.
  - rewrite length_app, length_reverse, length_le_split. lia.
  - intros Hb. unfold FNV64a_Open. rewrite length_app, length_reverse, length_le_split.
    destruct (Nat.ltb_spec (length payload + 8) 8); [lia|]. rewrite Nat.add_sub, take_app_length, drop_app_length.
    rewrite reverse_involutive, le_combine_split; [by rewrite Z.eqb_refl|]. apply fnv64a_u64.
Qed.

Lemma low_half x : u32 (Z.land x 0xffffffff) = u32 x.
Proof. change 0xffffffff with (Z.ones 32). rewrite Z.land_ones by lia. unfold u32. by rewrite Z.mod_mod. Qed.

Lemma null128_pair fnv128a p p' :
  (∀ l, is_u64 (fnv128a l).2) → p <> p' → AEADPair (nullAEADFNV128a fnv128a p) (nullAEADFNV128a fnv128a p').
Proof.
  intros Hf Hp. split; cbn [nullAEADFNV128a AEAD_Seal AEAD_Open AEAD_Overhead]; unfold FNV128a_Seal; [lia|..];
    intros payload pn ad; pose proof (Hf (ad ++ payload ++
      string_bytes match p with PerspectiveServer => "Server" | PerspectiveClient => "Client" end)) as Hlow;
    destruct (fnv128a _) as [high low] eqn:E; cbn in Hlow.
  - intros Hb. repeat apply bytes_ok_app; [apply le_split_bytes..|done].
  - rewrite !length_app, !length_le_split. lia.
  - intros Hb. unfold FNV128a_Open. rewrite !length_app, !length_le_split.
    destruct (Nat.ltb_spec (8 + (4 + length payload)) 12); [lia|].
    assert (drop 12 (le_split 8 low ++ le_split 4 (u32 high) ++ payload) = payload) as -> by done.
    assert (match p' with PerspectiveServer => "Client"%string | PerspectiveClient => "Server"%string end
      = match p with PerspectiveServer => "Server"%string | PerspectiveClient => "Client"%string end) as ->
      by (by destruct p, p').
    rewrite E, take_app_length', drop_app_length', take_app_length' by (rewrite length_le_split; done).
    rewrite !le_combine_split, low_half, !Z.eqb_refl; [done|exact Hlow|].
    unfold u32. apply Z.mod_pos_bound. lia.
Qed.

(** Before there are keys, what one side seals with its null AEAD the other side opens to the same
    bytes, whatever the version: the hashes cover the associated data, the payload and the side that
    sent it, and are read the way they were written. *)
Theorem null_aead_roundtrip (fnv128a : list Z → Z * Z) (v : Z) (p p' : Perspective) :
  (∀ l, is_u64 (fnv128a l).2) → p <> p' → AEADPair (NewNullAEAD fnv128a p v) (NewNullAEAD fnv128a p' v).
Proof.
  intros Hf Hp. unfold NewNullAEAD. destruct (UsesTLS v); [apply null64_pair|by apply null128_pair].
Qed.

(** FNV-1a of 128 bits. *)
Definition sample_fnv128a (l : list Z) : Z * Z :=
  let h := foldl (λ h b, (Z.lxor h b * 309485009821345068724781371) mod 2^128)
             144066263297769815596495629667062367629 l in
  (h / 2^64, h mod 2^64).

Lemma null_aead_roundtrip_witness :
  AEADPair (NewNullAEAD sample_fnv128a PerspectiveClient 39) (NewNullAEAD sample_fnv128a PerspectiveServer 39).
Proof.
  apply (null_aead_roundtrip sample_fnv128a 39 PerspectiveClient PerspectiveServer); [|discriminate].
  intros l. unfold sample_fnv128a, is_u64. cbn [snd]. apply Z.mod_pos_bound. lia.
Defined.

(** Different packets have different nonces, if their numbers differ. *)
Lemma makeNonce_inj iv n m :
  is_u64 n → is_u64 m → makeNonce iv n = makeNonce iv m → n = m.
Proof.
  intros Hn Hm E. unfold makeNonce in E. apply app_inv_head in E. apply (f_equal le_combine) in E.
  rewrite !le_combine_split in E by (exact Hn || exact Hm). done.
Qed.

(** *** Derived keys *)

(** The law of a cipher: it opens what it sealed. *)
Record cipher_ok (c : cipherAEAD) : Prop := {
  cipher_overhead : 0 <= cipher_Overhead c <= 1000;
  cipher_bytes nonce text ad : bytes_ok text → bytes_ok (cipher_Seal c nonce text ad);
  cipher_length nonce text ad :
    Z.of_nat (length (cipher_Seal c nonce text ad)) = Z.of_nat (length text) + cipher_Overhead c;
  cipher_opens nonce text ad : bytes_ok text → cipher_Open c nonce (cipher_Seal c nonce text ad) ad = Ok text;
}.

Section Agreement.
Context (newGCM : list Z → result cipherAEAD) (hkdf : list Z → list Z → list Z → nat → result (list Z)).
Context (HnewGCM : ∀ k c, newGCM k = Ok c → cipher_ok c).

Lemma gcm_pair k1 k2 iv1 iv2 a b :
  NewAEADAESGCM12 newGCM k1 k2 iv1 iv2 = Ok a → NewAEADAESGCM12 newGCM k2 k1 iv2 iv1 = Ok b →
  AEADPair a b ∧ AEADPair b a.
Proof using HnewGCM.
  unfold NewAEADAESGCM12. repeat case_match; try done. intros Ea Eb. res_inv.
  assert (x1 = x0 ∧ x2 = x) as [-> ->] by (split; congruence).
  match goal with H1 : newGCM k2 = Ok _, H2 : newGCM k1 = Ok _ |- _ =>
    apply HnewGCM in H1 as []; apply HnewGCM in H2 as [] end.
  simplify_eq. split; split; cbn; auto.
Qed.

Lemma gcm_both k1 k2 iv1 iv2 :
  match NewAEADAESGCM12 newGCM k1 k2 iv1 iv2, NewAEADAESGCM12 newGCM k2 k1 iv2 iv1 with
  | Ok a, Ok b => AEADPair a b ∧ AEADPair b a
  | Ok _, _ | _, Ok _ => False
  | _, _ => True
  end.
Proof using HnewGCM.
  destruct (NewAEADAESGCM12 newGCM k1 k2 iv1 iv2) as [a|e|e] eqn:Ea,
    (NewAEADAESGCM12 newGCM k2 k1 iv2 iv1) as [b|e'|e'] eqn:Eb; try done; [by eapply gcm_pair|..];
    unfold NewAEADAESGCM12 in Ea, Eb;
    destruct (length k1 =? 16)%nat, (length k2 =? 16)%nat, (length iv1 =? 4)%nat, (length iv2 =? 4)%nat; try done;
    cbn [negb orb] in *; destruct (newGCM k1), (newGCM k2); done.
Qed.

Lemma derive_pair forwardSecure sharedSecret nonces connID chlo scfg cert divNonce :
  match DeriveQuicCryptoAESKeys newGCM hkdf forwardSecure sharedSecret nonces connID chlo scfg cert divNonce PerspectiveClient,
        DeriveQuicCryptoAESKeys newGCM hkdf forwardSecure sharedSecret nonces connID chlo scfg cert divNonce PerspectiveServer
  with
  | Ok a, Ok b => AEADPair a b ∧ AEADPair b a
  | Ok _, _ | _, Ok _ => False
  | _, _ => True
  end.
Proof using HnewGCM.
  unfold DeriveQuicCryptoAESKeys, deriveKeys. destruct (hkdf _ _ _ _) as [s|e|e]; [|done..]. cbn [mbind result_bind].
  destruct (if forwardSecure then _ else _) as [[key2 iv2]|e|e]; [|done..]. cbn [mbind result_bind].
  apply gcm_both.
Qed.

(** The two sides end up with matching keys.  Deriving keys from the same secret, nonces, messages,
    configuration, certificate and diversification nonce, the client and the server either both fail
    or both get an AEAD, and then each opens what the other seals: the halves of the key material are
    swapped, and the server's half is diversified on both sides. *)
Theorem derived_keys_agree (forwardSecure : bool) (sharedSecret nonces : list Z) (connID : Z)
    (chlo scfg cert divNonce : list Z) :
  match DeriveQuicCryptoAESKeys newGCM hkdf forwardSecure sharedSecret nonces connID chlo scfg cert divNonce PerspectiveClient,
        DeriveQuicCryptoAESKeys newGCM hkdf forwardSecure sharedSecret nonces connID chlo scfg cert divNonce PerspectiveServer
  with
  | Ok a, Ok b => AEADPair a b ∧ AEADPair b a
  | Ok _, _ | _, Ok _ => False
  | _, _ => True
  end.
Proof using HnewGCM.
  apply derive_pair.
Qed.

End Agreement.

(** *** Key exchange *)

(** Both sides compute the same secret from each other's public keys, as scalar multiplications commute. *)
Lemma kex_agrees ScalarMult ScalarBaseMult r1 r2 k1 k2 :
  (∀ a b, ScalarMult a (ScalarBaseMult b) = ScalarMult b (ScalarBaseMult a)) →
  (∀ a, length (ScalarBaseMult a) = 32%nat) →
  NewCurve25519KEX ScalarMult ScalarBaseMult r1 = Ok k1 → NewCurve25519KEX ScalarMult ScalarBaseMult r2 = Ok k2 →
  ∃ secret, CalculateSharedKey k1 (PublicKey k2) = Ok secret ∧ CalculateSharedKey k2 (PublicKey k1) = Ok secret.
Proof.
  intros Hc Hl. destruct r1 as [r1|], r2 as [r2|]; [|done..]. intros [= <-] [= <-].
  cbn [CalculateSharedKey PublicKey]. rewrite !Hl. cbn. exists (ScalarMult (clamp r1) (ScalarBaseMult (clamp r2))).
  split; [done|]. by rewrite Hc.
Qed.

(** ** Toy primitives for examples *)

Definition sample_tag (key nonce text ad : list Z) : list Z :=
  replicate 12 (u8 (fnv64a (key ++ nonce ++ ad ++ text))).

Definition sample_gcm (key : list Z) : result cipherAEAD :=
  Ok (mkCipher
    (λ nonce text ad,
       let body := take (length text - 12) text in
       if bool_decide (text = body ++ sample_tag key nonce body ad) then Ok body else Err errAuthenticate)
    (λ nonce text ad, text ++ sample_tag key nonce text ad) 12).

Definition sample_hkdf (secret salt info : list Z) (n : nat) : result (list Z) :=
  let h := fnv64a (secret ++ salt ++ info) in
  Ok ((λ i, u8 (Z.shiftr h (Z.of_nat i) + Z.of_nat i)) <$> seq 0 n).

Lemma sample_gcm_ok k c : sample_gcm k = Ok c → cipher_ok c.
Proof.
  intros [= <-]. split; cbn [cipher_Overhead cipher_Seal cipher_Open]; [lia|..]; intros nonce text ad.
  - intros Hb. apply bytes_ok_app; [done|]. apply Forall_replicate. unfold is_u8, u8. apply Z.mod_pos_bound. lia.
  - rewrite length_app. unfold sample_tag. rewrite length_replicate. lia.
  - intros _. rewrite length_app. assert (length (sample_tag k nonce text ad) = 12%nat) as -> by apply length_replicate.
    rewrite Nat.add_sub, take_app_length. by rewrite bool_decide_true.
Qed.

Lemma derived_keys_agree_witness :
  match DeriveQuicCryptoAESKeys sample_gcm sample_hkdf false [1; 2; 3] [4; 5] 77 [6] [7] [8] [9] PerspectiveClient,
        DeriveQuicCryptoAESKeys sample_gcm sample_hkdf false [1; 2; 3] [4; 5] 77 [6] [7] [8] [9] PerspectiveServer
  with
  | Ok a, Ok b => AEADPair a b ∧ AEADPair b a
  | Ok _, _ | _, Ok _ => False
  | _, _ => True
  end.
Proof. apply (derived_keys_agree sample_gcm sample_hkdf sample_gcm_ok). Defined.
