(* ===== verification/CertCompression.v ===== *)
(** * Certificates

    internal/crypto/cert_compression.go, cert_dict.go, cert_cache.go, cert_manager.go and
    cert_sets.go: how a chain of certificates is compressed for a client, how the client gets it
    back, and what it checks.

    Compression itself (compress/zlib), the sets of common certificates, X.509 and signatures are other
    packages' code: arguments, with what is relied on stated as laws. *)

From S2P Require Import Prelude ByteOrder Protocol Frames StreamFrame PublicHeader Unpacker Handshake.
From S2P Require Import FlowControl Stream StreamScheduler StreamsMap ConnectionParameters Packer Crypto.

Definition certDictZlib : list Z := [
  0x04; 0x02; 0x30; 0x00; 0x30; 0x1d; 0x06; 0x03; 0x55; 0x1d; 0x25; 0x04; 0x16; 0x30; 0x14; 0x06; 0x08; 0x2b;
  0x06; 0x01; 0x05; 0x05; 0x07; 0x03; 0x01; 0x06; 0x08; 0x2b; 0x06; 0x01; 0x05; 0x05; 0x07; 0x03; 0x02; 0x30;
  0x5f; 0x06; 0x09; 0x60; 0x86; 0x48; 0x01; 0x86; 0xf8; 0x42; 0x04; 0x01; 0x06; 0x06; 0x0b; 0x60; 0x86; 0x48;
  0x01; 0x86; 0xfd; 0x6d; 0x01; 0x07; 0x17; 0x01; 0x30; 0x33; 0x20; 0x45; 0x78; 0x74; 0x65; 0x6e; 0x64; 0x65;
  0x64; 0x20; 0x56; 0x61; 0x6c; 0x69; 0x64; 0x61; 0x74; 0x69; 0x6f; 0x6e; 0x20; 0x53; 0x20; 0x4c; 0x69; 0x6d;
  0x69; 0x74; 0x65; 0x64; 0x31; 0x34; 0x20; 0x53; 0x53; 0x4c; 0x20; 0x43; 0x41; 0x30; 0x1e; 0x17; 0x0d; 0x31;
  0x32; 0x20; 0x53; 0x65; 0x63; 0x75; 0x72; 0x65; 0x20; 0x53; 0x65; 0x72; 0x76; 0x65; 0x72; 0x20; 0x43; 0x41;
  0x30; 0x2d; 0x61; 0x69; 0x61; 0x2e; 0x76; 0x65; 0x72; 0x69; 0x73; 0x69; 0x67; 0x6e; 0x2e; 0x63; 0x6f; 0x6d;
  0x2f; 0x45; 0x2d; 0x63; 0x72; 0x6c; 0x2e; 0x76; 0x65; 0x72; 0x69; 0x73; 0x69; 0x67; 0x6e; 0x2e; 0x63; 0x6f;
  0x6d; 0x2f; 0x45; 0x2e; 0x63; 0x65; 0x72; 0x30; 0x0d; 0x06; 0x09; 0x2a; 0x86; 0x48; 0x86; 0xf7; 0x0d; 0x01;
  0x01; 0x05; 0x05; 0x00; 0x03; 0x82; 0x01; 0x01; 0x00; 0x4a; 0x2e; 0x63; 0x6f; 0x6d; 0x2f; 0x72; 0x65; 0x73;
  0x6f; 0x75; 0x72; 0x63; 0x65; 0x73; 0x2f; 0x63; 0x70; 0x73; 0x20; 0x28; 0x63; 0x29; 0x30; 0x30; 0x09; 0x06;
  0x03; 0x55; 0x1d; 0x13; 0x04; 0x02; 0x30; 0x00; 0x30; 0x1d; 0x30; 0x0d; 0x06; 0x09; 0x2a; 0x86; 0x48; 0x86;
  0xf7; 0x0d; 0x01; 0x01; 0x05; 0x05; 0x00; 0x03; 0x82; 0x01; 0x01; 0x00; 0x7b; 0x30; 0x1d; 0x06; 0x03; 0x55;
  0x1d; 0x0e; 0x30; 0x82; 0x01; 0x22; 0x30; 0x0d; 0x06; 0x09; 0x2a; 0x86; 0x48; 0x86; 0xf7; 0x0d; 0x01; 0x01;
  0x01; 0x05; 0x00; 0x03; 0x82; 0x01; 0x0f; 0x00; 0x30; 0x82; 0x01; 0x0a; 0x02; 0x82; 0x01; 0x01; 0x00; 0xd2;
  0x6f; 0x64; 0x6f; 0x63; 0x61; 0x2e; 0x63; 0x6f; 0x6d; 0x2f; 0x43; 0x2e; 0x63; 0x72; 0x6c; 0x30; 0x1d; 0x06;
  0x03; 0x55; 0x1d; 0x0e; 0x04; 0x16; 0x04; 0x14; 0xb4; 0x2e; 0x67; 0x6c; 0x6f; 0x62; 0x61; 0x6c; 0x73; 0x69;
  0x67; 0x6e; 0x2e; 0x63; 0x6f; 0x6d; 0x2f; 0x72; 0x30; 0x0b; 0x06; 0x03; 0x55; 0x1d; 0x0f; 0x04; 0x04; 0x03;
  0x02; 0x01; 0x30; 0x0d; 0x06; 0x09; 0x2a; 0x86; 0x48; 0x86; 0xf7; 0x0d; 0x01; 0x01; 0x05; 0x05; 0x00; 0x30;
  0x81; 0xca; 0x31; 0x0b; 0x30; 0x09; 0x06; 0x03; 0x55; 0x04; 0x06; 0x13; 0x02; 0x55; 0x53; 0x31; 0x10; 0x30;
  0x0e; 0x06; 0x03; 0x55; 0x04; 0x08; 0x13; 0x07; 0x41; 0x72; 0x69; 0x7a; 0x6f; 0x6e; 0x61; 0x31; 0x13; 0x30;
  0x11; 0x06; 0x03; 0x55; 0x04; 0x07; 0x13; 0x0a; 0x53; 0x63; 0x6f; 0x74; 0x74; 0x73; 0x64; 0x61; 0x6c; 0x65;
  0x31; 0x1a; 0x30; 0x18; 0x06; 0x03; 0x55; 0x04; 0x0a; 0x13; 0x11; 0x47; 0x6f; 0x44; 0x61; 0x64; 0x64; 0x79;
  0x2e; 0x63; 0x6f; 0x6d; 0x2c; 0x20; 0x49; 0x6e; 0x63; 0x2e; 0x31; 0x33; 0x30; 0x31; 0x06; 0x03; 0x55; 0x04;
  0x0b; 0x13; 0x2a; 0x68; 0x74; 0x74; 0x70; 0x3a; 0x2f; 0x2f; 0x63; 0x65; 0x72; 0x74; 0x69; 0x66; 0x69; 0x63;
  0x61; 0x74; 0x65; 0x73; 0x2e; 0x67; 0x6f; 0x64; 0x61; 0x64; 0x64; 0x79; 0x2e; 0x63; 0x6f; 0x6d; 0x2f; 0x72;
  0x65; 0x70; 0x6f; 0x73; 0x69; 0x74; 0x6f; 0x72; 0x79; 0x31; 0x30; 0x30; 0x2e; 0x06; 0x03; 0x55; 0x04; 0x03;
  0x13; 0x27; 0x47; 0x6f; 0x20; 0x44; 0x61; 0x64; 0x64; 0x79; 0x20; 0x53; 0x65; 0x63; 0x75; 0x72; 0x65; 0x20;
  0x43; 0x65; 0x72; 0x74; 0x69; 0x66; 0x69; 0x63; 0x61; 0x74; 0x69; 0x6f; 0x6e; 0x20; 0x41; 0x75; 0x74; 0x68;
  0x6f; 0x72; 0x69; 0x74; 0x79; 0x31; 0x11; 0x30; 0x0f; 0x06; 0x03; 0x55; 0x04; 0x05; 0x13; 0x08; 0x30; 0x37;
  0x39; 0x36; 0x39; 0x32; 0x38; 0x37; 0x30; 0x1e; 0x17; 0x0d; 0x31; 0x31; 0x30; 0x0e; 0x06; 0x03; 0x55; 0x1d;
  0x0f; 0x01; 0x01; 0xff; 0x04; 0x04; 0x03; 0x02; 0x05; 0xa0; 0x30; 0x0c; 0x06; 0x03; 0x55; 0x1d; 0x13; 0x01;
  0x01; 0xff; 0x04; 0x02; 0x30; 0x00; 0x30; 0x1d; 0x30; 0x0f; 0x06; 0x03; 0x55; 0x1d; 0x13; 0x01; 0x01; 0xff;
  0x04; 0x05; 0x30; 0x03; 0x01; 0x01; 0x00; 0x30; 0x1d; 0x06; 0x03; 0x55; 0x1d; 0x25; 0x04; 0x16; 0x30; 0x14;
  0x06; 0x08; 0x2b; 0x06; 0x01; 0x05; 0x05; 0x07; 0x03; 0x01; 0x06; 0x08; 0x2b; 0x06; 0x01; 0x05; 0x05; 0x07;
  0x03; 0x02; 0x30; 0x0e; 0x06; 0x03; 0x55; 0x1d; 0x0f; 0x01; 0x01; 0xff; 0x04; 0x04; 0x03; 0x02; 0x05; 0xa0;
  0x30; 0x33; 0x06; 0x03; 0x55; 0x1d; 0x1f; 0x04; 0x2c; 0x30; 0x2a; 0x30; 0x28; 0xa0; 0x26; 0xa0; 0x24; 0x86;
  0x22; 0x68; 0x74; 0x74; 0x70; 0x3a; 0x2f; 0x2f; 0x63; 0x72; 0x6c; 0x2e; 0x67; 0x6f; 0x64; 0x61; 0x64; 0x64;
  0x79; 0x2e; 0x63; 0x6f; 0x6d; 0x2f; 0x67; 0x64; 0x73; 0x31; 0x2d; 0x32; 0x30; 0x2a; 0x30; 0x28; 0x06; 0x08;
  0x2b; 0x06; 0x01; 0x05; 0x05; 0x07; 0x02; 0x01; 0x16; 0x1c; 0x68; 0x74; 0x74; 0x70; 0x73; 0x3a; 0x2f; 0x2f;
  0x77; 0x77; 0x77; 0x2e; 0x76; 0x65; 0x72; 0x69; 0x73; 0x69; 0x67; 0x6e; 0x2e; 0x63; 0x6f; 0x6d; 0x2f; 0x63;
  0x70; 0x73; 0x30; 0x34; 0x30; 0x30; 0x30; 0x30; 0x30; 0x30; 0x5a; 0x17; 0x0d; 0x31; 0x33; 0x30; 0x35; 0x30;
  0x39; 0x06; 0x08; 0x2b; 0x06; 0x01; 0x05; 0x05; 0x07; 0x30; 0x02; 0x86; 0x2d; 0x68; 0x74; 0x74; 0x70; 0x3a;
  0x2f; 0x2f; 0x73; 0x30; 0x39; 0x30; 0x37; 0x06; 0x08; 0x2b; 0x06; 0x01; 0x05; 0x05; 0x07; 0x02; 0x30; 0x44;
  0x06; 0x03; 0x55; 0x1d; 0x20; 0x04; 0x3d; 0x30; 0x3b; 0x30; 0x39; 0x06; 0x0b; 0x60; 0x86; 0x48; 0x01; 0x86;
  0xf8; 0x45; 0x01; 0x07; 0x17; 0x06; 0x31; 0x0b; 0x30; 0x09; 0x06; 0x03; 0x55; 0x04; 0x06; 0x13; 0x02; 0x47;
  0x42; 0x31; 0x1b; 0x53; 0x31; 0x17; 0x30; 0x15; 0x06; 0x03; 0x55; 0x04; 0x0a; 0x13; 0x0e; 0x56; 0x65; 0x72;
  0x69; 0x53; 0x69; 0x67; 0x6e; 0x2c; 0x20; 0x49; 0x6e; 0x63; 0x2e; 0x31; 0x1f; 0x30; 0x1d; 0x06; 0x03; 0x55;
  0x04; 0x0b; 0x13; 0x16; 0x56; 0x65; 0x72; 0x69; 0x53; 0x69; 0x67; 0x6e; 0x20; 0x54; 0x72; 0x75; 0x73; 0x74;
  0x20; 0x4e; 0x65; 0x74; 0x77; 0x6f; 0x72; 0x6b; 0x31; 0x3b; 0x30; 0x39; 0x06; 0x03; 0x55; 0x04; 0x0b; 0x13;
  0x32; 0x54; 0x65; 0x72; 0x6d; 0x73; 0x20; 0x6f; 0x66; 0x20; 0x75; 0x73; 0x65; 0x20; 0x61; 0x74; 0x20; 0x68;
  0x74; 0x74; 0x70; 0x73; 0x3a; 0x2f; 0x2f; 0x77; 0x77; 0x77; 0x2e; 0x76; 0x65; 0x72; 0x69; 0x73; 0x69; 0x67;
  0x6e; 0x2e; 0x63; 0x6f; 0x6d; 0x2f; 0x72; 0x70; 0x61; 0x20; 0x28; 0x63; 0x29; 0x30; 0x31; 0x10; 0x30; 0x0e;
  0x06; 0x03; 0x55; 0x04; 0x07; 0x13; 0x07; 0x53; 0x31; 0x13; 0x30; 0x11; 0x06; 0x03; 0x55; 0x04; 0x0b; 0x13;
  0x0a; 0x47; 0x31; 0x13; 0x30; 0x11; 0x06; 0x0b; 0x2b; 0x06; 0x01; 0x04; 0x01; 0x82; 0x37; 0x3c; 0x02; 0x01;
  0x03; 0x13; 0x02; 0x55; 0x31; 0x16; 0x30; 0x14; 0x06; 0x03; 0x55; 0x04; 0x03; 0x14; 0x31; 0x19; 0x30; 0x17;
  0x06; 0x03; 0x55; 0x04; 0x03; 0x13; 0x31; 0x1d; 0x30; 0x1b; 0x06; 0x03; 0x55; 0x04; 0x0f; 0x13; 0x14; 0x50;
  0x72; 0x69; 0x76; 0x61; 0x74; 0x65; 0x20; 0x4f; 0x72; 0x67; 0x61; 0x6e; 0x69; 0x7a; 0x61; 0x74; 0x69; 0x6f;
  0x6e; 0x31; 0x12; 0x31; 0x21; 0x30; 0x1f; 0x06; 0x03; 0x55; 0x04; 0x0b; 0x13; 0x18; 0x44; 0x6f; 0x6d; 0x61;
  0x69; 0x6e; 0x20; 0x43; 0x6f; 0x6e; 0x74; 0x72; 0x6f; 0x6c; 0x20; 0x56; 0x61; 0x6c; 0x69; 0x64; 0x61; 0x74;
  0x65; 0x64; 0x31; 0x14; 0x31; 0x31; 0x30; 0x2f; 0x06; 0x03; 0x55; 0x04; 0x0b; 0x13; 0x28; 0x53; 0x65; 0x65;
  0x20; 0x77; 0x77; 0x77; 0x2e; 0x72; 0x3a; 0x2f; 0x2f; 0x73; 0x65; 0x63; 0x75; 0x72; 0x65; 0x2e; 0x67; 0x47;
  0x6c; 0x6f; 0x62; 0x61; 0x6c; 0x53; 0x69; 0x67; 0x6e; 0x31; 0x53; 0x65; 0x72; 0x76; 0x65; 0x72; 0x43; 0x41;
  0x2e; 0x63; 0x72; 0x6c; 0x56; 0x65; 0x72; 0x69; 0x53; 0x69; 0x67; 0x6e; 0x20; 0x43; 0x6c; 0x61; 0x73; 0x73;
  0x20; 0x33; 0x20; 0x45; 0x63; 0x72; 0x6c; 0x2e; 0x67; 0x65; 0x6f; 0x74; 0x72; 0x75; 0x73; 0x74; 0x2e; 0x63;
  0x6f; 0x6d; 0x2f; 0x63; 0x72; 0x6c; 0x73; 0x2f; 0x73; 0x64; 0x31; 0x1a; 0x30; 0x18; 0x06; 0x03; 0x55; 0x04;
  0x0a; 0x68; 0x74; 0x74; 0x70; 0x3a; 0x2f; 0x2f; 0x45; 0x56; 0x49; 0x6e; 0x74; 0x6c; 0x2d; 0x63; 0x63; 0x72;
  0x74; 0x2e; 0x67; 0x77; 0x77; 0x77; 0x2e; 0x67; 0x69; 0x63; 0x65; 0x72; 0x74; 0x2e; 0x63; 0x6f; 0x6d; 0x2f;
  0x31; 0x6f; 0x63; 0x73; 0x70; 0x2e; 0x76; 0x65; 0x72; 0x69; 0x73; 0x69; 0x67; 0x6e; 0x2e; 0x63; 0x6f; 0x6d;
  0x30; 0x39; 0x72; 0x61; 0x70; 0x69; 0x64; 0x73; 0x73; 0x6c; 0x2e; 0x63; 0x6f; 0x73; 0x2e; 0x67; 0x6f; 0x64;
  0x61; 0x64; 0x64; 0x79; 0x2e; 0x63; 0x6f; 0x6d; 0x2f; 0x72; 0x65; 0x70; 0x6f; 0x73; 0x69; 0x74; 0x6f; 0x72;
  0x79; 0x2f; 0x30; 0x81; 0x80; 0x06; 0x08; 0x2b; 0x06; 0x01; 0x05; 0x05; 0x07; 0x01; 0x01; 0x04; 0x74; 0x30;
  0x72; 0x30; 0x24; 0x06; 0x08; 0x2b; 0x06; 0x01; 0x05; 0x05; 0x07; 0x30; 0x01; 0x86; 0x18; 0x68; 0x74; 0x74;
  0x70; 0x3a; 0x2f; 0x2f; 0x6f; 0x63; 0x73; 0x70; 0x2e; 0x67; 0x6f; 0x64; 0x61; 0x64; 0x64; 0x79; 0x2e; 0x63;
  0x6f; 0x6d; 0x2f; 0x30; 0x4a; 0x06; 0x08; 0x2b; 0x06; 0x01; 0x05; 0x05; 0x07; 0x30; 0x02; 0x86; 0x3e; 0x68;
  0x74; 0x74; 0x70; 0x3a; 0x2f; 0x2f; 0x63; 0x65; 0x72; 0x74; 0x69; 0x66; 0x69; 0x63; 0x61; 0x74; 0x65; 0x73;
  0x2e; 0x67; 0x6f; 0x64; 0x61; 0x64; 0x64; 0x79; 0x2e; 0x63; 0x6f; 0x6d; 0x2f; 0x72; 0x65; 0x70; 0x6f; 0x73;
  0x69; 0x74; 0x6f; 0x72; 0x79; 0x2f; 0x67; 0x64; 0x5f; 0x69; 0x6e; 0x74; 0x65; 0x72; 0x6d; 0x65; 0x64; 0x69;
  0x61; 0x74; 0x65; 0x2e; 0x63; 0x72; 0x74; 0x30; 0x1f; 0x06; 0x03; 0x55; 0x1d; 0x23; 0x04; 0x18; 0x30; 0x16;
  0x80; 0x14; 0xfd; 0xac; 0x61; 0x32; 0x93; 0x6c; 0x45; 0xd6; 0xe2; 0xee; 0x85; 0x5f; 0x9a; 0xba; 0xe7; 0x76;
  0x99; 0x68; 0xcc; 0xe7; 0x30; 0x27; 0x86; 0x29; 0x68; 0x74; 0x74; 0x70; 0x3a; 0x2f; 0x2f; 0x63; 0x86; 0x30;
  0x68; 0x74; 0x74; 0x70; 0x3a; 0x2f; 0x2f; 0x73]%Z.

(** ** Entries *)

Definition entryCompressed : Z := 1.
Definition entryCached : Z := 2.
Definition entryCommon : Z := 3.

Record entry : Type := mkEntry {
  entry_t : Z;
  entry_h : Z;
  entry_i : Z;
}.

(** The FNV-1a hash of a certificate. *)
Definition HashCert (cert : list Z) : Z := fnv64a cert.

Definition errHashes : error := ErrorString "expected a multiple of 8 bytes for CCS / CCRT hashes".

Fixpoint split_groups (n : nat) (hashes : list Z) : list Z :=
  match n with O => [] | S n => le_combine (take 8 hashes) :: split_groups n (drop 8 hashes) end.

Definition splitHashes (hashes : list Z) : result (list Z) :=
  if negb (length hashes mod 8 =? 0)%nat then Err errHashes else Ok (split_groups (length hashes / 8) hashes).

(** The position of a certificate; -1 if the set does not have it. *)
Definition findCertInSet (set : list (list Z)) (cert : list Z) : Z :=
  match list_find (λ c, c = cert) set with Some (i, _) => Z.of_nat i | None => -1 end.

(** A reader of compressed data: [Read] into a slice of [n] bytes gives the bytes it read, which may be
    fewer, an error, and the reader that follows. *)
Class Reader (R : Type) : Type := Read : R → nat → list Z * option error * R.

(** A slice of [n] bytes that [l] was read into. *)
Definition read_into (n : nat) (l : list Z) : list Z := take n (l ++ replicate n 0).

Section Compression.
Context (certSets : gmap Z (list (list Z))).
Context (zlib_Compress : list Z → list (list Z) → list Z).

(** The first of the sets the client knows that has the certificate. *)
Fixpoint find_common (setHashes : list Z) (cert : list Z) : option entry :=
  match setHashes with
  | [] => None
  | setHash :: setHashes =>
      match certSets !! setHash with
      | None => find_common setHashes cert
      | Some set =>
          let pos := findCertInSet set cert in
          if 0 <=? pos then Some (mkEntry entryCommon setHash (u32 pos)) else find_common setHashes cert
      end
  end.

Definition build_entry (cachedHashes setHashes : list Z) (cert : list Z) (chainHash : Z) : entry :=
  if bool_decide (chainHash ∈ cachedHashes) then mkEntry entryCached chainHash 0
  else default (mkEntry entryCompressed 0 0) (find_common setHashes cert).

Definition buildEntries (chain : list (list Z)) (chainHashes cachedHashes setHashes : list Z) : list entry :=
  zip_with (build_entry cachedHashes setHashes) chain chainHashes.

(** Cached and common certificates, the last first, then the fixed dictionary. *)
Definition buildZlibDictForEntries (entries : list entry) (chain : list (list Z)) : list Z :=
  concat (reverse (zip_with (λ e c, if entry_t e =? entryCompressed then [] else c) entries chain))
  ++ certDictZlib.

Definition write_entry (e : entry) : list Z :=
  u8 (entry_t e) ::
  (if entry_t e =? entryCached then WriteUint64 LittleEndian (entry_h e)
   else if entry_t e =? entryCommon
   then WriteUint64 LittleEndian (entry_h e) ++ WriteUint32 LittleEndian (entry_i e)
   else []).

Definition uncompressed_size (e : entry) (cert : list Z) : Z :=
  if entry_t e =? entryCompressed then 4 + Z.of_nat (length cert) else 0.

Definition sum_sizes (entries : list entry) (chain : list (list Z)) : Z :=
  foldr Z.add 0 (zip_with uncompressed_size entries chain).

(** What is written to the compressor: lengths and certificates. *)
Definition compressor_writes (entries : list entry) (chain : list (list Z)) : list (list Z) :=
  concat (zip_with (λ e c,
    if entry_t e =? entryCompressed then [le_split 4 (Z.of_nat (length c)); c] else []) entries chain).

Definition compressChain (chain : list (list Z)) (pCommonSetHashes pCachedHashes : list Z) : result (list Z) :=
  cachedHashes ← splitHashes pCachedHashes;
  setHashes ← splitHashes pCommonSetHashes;
  let entries := buildEntries chain (HashCert <$> chain) cachedHashes setHashes in
  let res := concat (write_entry <$> entries) ++ [0] in
  let totalUncompressedLen := sum_sizes entries chain in
  Ok (if 0 <? totalUncompressedLen
      then res ++ WriteUint32 LittleEndian (u32 totalUncompressedLen)
           ++ zlib_Compress (buildZlibDictForEntries entries chain) (compressor_writes entries chain)
      else res).

(** The hashes of the sets, in the order a range over the map has. *)
Definition getCommonCertificateHashes (order : list Z) : list Z := concat (le_split 8 <$> order).

(** ** Getting the chain back *)

Context {R : Type} `{Reader R} (zlib_NewReaderDict : list Z → list Z → result R).

(** The entries and the certificates known so far; at the end of the data the byte is 0, too. *)
Fixpoint read_entries (fuel : nat) (r : list Z) : result (list (entry * list Z) * list Z) :=
  match fuel with
  | O => Panic "endless loop"
  | S fuel =>
      let '(et, r) := match r with [] => (0, []) | b :: r => (b, r) end in
      if et =? 0 then Ok ([], r)
      else if et =? entryCached then Err (ErrorString "unexpected cached certificate")
      else if et =? entryCommon then
        '(h, r) ← ReadUint64 LittleEndian r;
        '(i, r) ← ReadUint32 LittleEndian r;
        certSet ← match certSets !! h with Some s => Ok s | None => Err (ErrorString "unknown certSet") end;
        if i >=? u32 (Z.of_nat (length certSet)) then Err (ErrorString "certificate not found in certSet")
        else
          cert ← match certSet !! Z.to_nat i with Some c => Ok c | None => Panic "index out of range" end;
          '(es, r) ← read_entries fuel r;
          Ok ((mkEntry entryCommon h i, cert) :: es, r)
      else if et =? entryCompressed then
        '(es, r) ← read_entries fuel r;
        Ok ((mkEntry entryCompressed 0 0, []) :: es, r)
      else Err (ErrorString "unknown entryType")
  end.

(** The next element for a certificate that was compressed, from [certIndex] on. *)
Definition next_slot (entries : list entry) (certIndex : nat) : option nat :=
  (λ f, (certIndex + f.1)%nat) <$> list_find (λ e, entry_t e = entryCompressed) (drop certIndex entries).

(** The loop over the compressed certificates. *)
Fixpoint fill_chain (fuel : nat) (entries : list entry) (chain : list (list Z)) (gz : R)
    (totalLength uncompressedLength : Z) (certIndex : nat) : result (list (list Z)) :=
  match fuel with
  | O => Panic "endless loop"
  | S fuel =>
      if totalLength <? uncompressedLength then
        match Read gz 4 with
        | (lenBytes, Some e, _) => Err e
        | (lenBytes, None, gz) =>
            let certLen := le_combine (read_into 4 lenBytes) in
            let '(cert, err, gz) := Read gz (Z.to_nat certLen) in
            match err, u32 (Z.of_nat (length cert)) =? certLen with
            | Some e, false => Err e
            | _, _ =>
                match next_slot entries certIndex with
                | None => Err (ErrorString "CertCompression BUG: no element to save uncompressed certificate")
                | Some i =>
                    fill_chain fuel entries (<[i := read_into (Z.to_nat certLen) cert]> chain) gz
                      (u32 (totalLength + (4 + certLen))) uncompressedLength (S i)
                end
            end
        end
      else Ok chain
  end.

Definition has_compressed (entries : list entry) : bool :=
  bool_decide (Exists (λ e, entry_t e = entryCompressed) entries).

Definition decompressChain (data : list Z) : result (list (list Z)) :=
  '(es, r) ← read_entries (S (length data)) data;
  let entries := es.*1 in
  let chain := es.*2 in
  if (length es =? 0)%nat then Ok []
  else if has_compressed entries then
    '(uncompressedLength, r) ← ReadUint32 LittleEndian r;
    gz ← zlib_NewReaderDict r (buildZlibDictForEntries entries chain);
    fill_chain (S (length entries)) entries chain gz 0 uncompressedLength 0
  else Ok chain.

End Compression.

(** ** The cache of compressed chains *)

(** The operations of the least-recently-used cache. *)
Record lruCache (C : Type) : Type := mkLRU {
  lru_Get : C → Z → option (list Z) * C;
  lru_Add : C → Z → list Z → C;
}.
Arguments lru_Get {C}.
Arguments lru_Add {C}.

Definition cert_cache_key (chain : list (list Z)) (pCommonSetHashes pCachedHashes : list Z) : Z :=
  fnv64a (concat chain ++ pCommonSetHashes ++ pCachedHashes).

Definition getCompressedCert {C} (lru : lruCache C) (certSets : gmap Z (list (list Z)))
    (zlib_Compress : list Z → list (list Z) → list Z) (chain : list (list Z))
    (pCommonSetHashes pCachedHashes : list Z) (cache : C) : result (list Z) * C :=
  let hash := cert_cache_key chain pCommonSetHashes pCachedHashes in
  match lru_Get lru cache hash with
  | (Some result, cache) => (Ok result, cache)
  | (None, cache) =>
      match compressChain certSets zlib_Compress chain pCommonSetHashes pCachedHashes with
      | Ok result => (Ok result, lru_Add lru cache hash result)
      | r => (r, cache)
      end
  end.

(** ** The server's proof *)

Section Proofs.
Context (sha256 : list Z → list Z).

(** What is signed, and what is verified: both functions hash the same. *)
Definition proof_digest (chlo serverConfigData : list Z) : list Z :=
  sha256 (string_bytes "QUIC CHLO and server config signature" ++ [0] ++ [32; 0; 0; 0] ++ sha256 chlo
          ++ serverConfigData).

Definition signServerProof (Sign : option (list Z → result (list Z))) (chlo serverConfigData : list Z)
  : result (list Z) :=
  match Sign with
  | None => Err (ErrorString "expected PrivateKey to implement crypto.Signer")
  | Some sign => sign (proof_digest chlo serverConfigData)
  end.

(** A certificate: its bytes and the check of its public key, with RSA or with ECDSA. *)
Inductive public_key : Type :=
| RSA (VerifyPSS : list Z → list Z → bool)
| ECDSA (Verify : list Z → Z → Z → bool).

Record Certificate : Type := mkCertificate {
  Raw : list Z;
  cert_PublicKey : public_key;
}.

Definition verifyServerProof (asn1_Unmarshal : list Z → result (Z * Z * list Z)) (proof : list Z)
    (cert : Certificate) (chlo serverConfigData : list Z) : bool :=
  let digest := proof_digest chlo serverConfigData in
  match cert_PublicKey cert with
  | RSA VerifyPSS => VerifyPSS digest proof
  | ECDSA Verify =>
      match asn1_Unmarshal proof with
      | Ok (r, s, []) => Verify digest r s
      | _ => false
      end
  end.
End Proofs.

(** ** The certificates a client holds *)

(** The interface of the certificates for the handshake, and what it relies on: only a chain that has
    been set is ever verified. *)
Class CertManager (CM : Type) : Type := {
  SetData : CM → list Z → result CM;
  GetCommonCertificateHashes : CM → list Z;
  cm_GetLeafCert : CM → option (list Z);
  GetLeafCertHash : CM → Z;
  VerifyServerProof : CM → list Z → list Z → list Z → bool;
  Verify : CM → list Z → option error;
  verified_has_leaf cm hostname : Verify cm hostname = None → is_Some (cm_GetLeafCert cm);
}.

Record certManager : Type := mkCertManager { cm_chain : list Certificate }.

Definition NewCertManager : certManager := mkCertManager [].

(** The rest of what a certificate manager calls; [x509_Verify] is given the leaf certificate, the
    intermediate ones and the name. *)
Record cert_env : Type := mkCertEnv {
  ce_decompress : list Z → result (list (list Z));
  ce_ParseCertificate : list Z → result Certificate;
  ce_commonHashes : list Z;
  ce_verifyProof : list Z → Certificate → list Z → list Z → bool;
  ce_InsecureSkipVerify : bool;
  x509_Verify : Certificate → list Certificate → list Z → option error;
}.

Definition errNoCertificateChain : error := ErrorString "CertManager BUG: No certicifate chain loaded".

Fixpoint parse_certificates (parse : list Z → result Certificate) (chain : list (list Z)) : result (list Certificate) :=
  match chain with
  | [] => Ok []
  | data :: chain =>
      cert ← parse data;
      certs ← parse_certificates parse chain;
      Ok (cert :: certs)
  end.

Definition certManager_SetData (env : cert_env) (c : certManager) (data : list Z) : result certManager :=
  match ce_decompress env data with
  | Ok byteChain =>
      chain ← parse_certificates (ce_ParseCertificate env) byteChain;
      Ok (mkCertManager chain)
  | Err _ => Err (QuicError InvalidCryptoMessageParameter "Certificate data invalid")
  | Panic w => Panic w
  end.

Definition certManager_GetLeafCert (c : certManager) : option (list Z) := Raw <$> head (cm_chain c).

Definition certManager_GetLeafCertHash (c : certManager) : Z :=
  match certManager_GetLeafCert c with None => 0 | Some leafCert => fnv64a leafCert end.

Definition certManager_VerifyServerProof (env : cert_env) (c : certManager)
    (proof chlo serverConfigData : list Z) : bool :=
  match cm_chain c with
  | [] => false
  | leaf :: _ => ce_verifyProof env proof leaf chlo serverConfigData
  end.

Definition certManager_Verify (env : cert_env) (c : certManager) (hostname : list Z) : option error :=
  match cm_chain c with
  | [] => Some errNoCertificateChain
  | leafCert :: intermediates =>
      if ce_InsecureSkipVerify env then None else x509_Verify env leafCert intermediates hostname
  end.

#[export, refine] Instance certManager_interface (env : cert_env) : CertManager certManager | 100 :=
  {| SetData := certManager_SetData env;
     GetCommonCertificateHashes := λ _, ce_commonHashes env;
     cm_GetLeafCert := certManager_GetLeafCert;
     GetLeafCertHash := certManager_GetLeafCertHash;
     VerifyServerProof := certManager_VerifyServerProof env;
     Verify := certManager_Verify env |}.
Proof. intros [[|leaf rest]] hostname; [done|]. by eexists. Defined.

(** ** A chain survives compression *)

Lemma read_u64_le h s : is_u64 h → bytes_ok s → ReadUint64 LittleEndian (WriteUint64 LittleEndian h ++ s) = Ok (h, s).
Proof.
  intros Hh Hs. rewrite (write_64 (bo := LittleEndian)).
  rewrite (read_64 (bo := LittleEndian)) by (apply bytes_ok_app; [apply enc_bytes|done]).
  apply (read_enc 8 h); [lia|exact Hh].
Qed.

Lemma read_u32_le i s : is_u32 i → bytes_ok s → ReadUint32 LittleEndian (WriteUint32 LittleEndian i ++ s) = Ok (i, s).
Proof.
  intros Hi Hs. rewrite (write_32 (bo := LittleEndian)).
  rewrite (read_32 (bo := LittleEndian)) by (apply bytes_ok_app; [apply enc_bytes|done]).
  apply (read_enc 4 i); [lia|exact Hi].
Qed.

Lemma read_into_all l : read_into (length l) l = l.
Proof. unfold read_into. apply take_app_length. Qed.

Section RoundTrip.
Context (certSets : gmap Z (list (list Z))).

(** The sets have hashes of 64 bits and are small. *)
Context (Hsets : ∀ h set, certSets !! h = Some set → is_u64 h ∧ Z.of_nat (length set) < 2^32).

(** An entry that stands for a certificate. *)
Inductive stands_for : entry → list Z → Prop :=
| stands_common h i set cert :
    certSets !! h = Some set → 0 <= i → set !! Z.to_nat i = Some cert → stands_for (mkEntry entryCommon h i) cert
| stands_compressed cert : stands_for (mkEntry entryCompressed 0 0) cert.

Lemma find_common_stands setHashes cert e : find_common certSets setHashes cert = Some e → stands_for e cert.
Proof using All.
  induction setHashes as [|h hs IH]; cbn; [done|]. destruct (certSets !! h) as [set|] eqn:E; [|done].
  unfold findCertInSet. destruct (list_find (λ c, c = cert) set) as [[i c]|] eqn:Ef; [|done].
  apply list_find_Some in Ef as (Hi & -> & _).
  destruct (Z.leb_spec 0 (Z.of_nat i)); [|lia]. intros [= <-]. pose proof (Hsets _ _ E) as [_ ?].
  apply lookup_lt_Some in Hi as Hlt. rewrite u32_id by (unfold is_u32; lia).
  eapply stands_common; [done|lia|]. by rewrite Nat2Z.id.
Qed.

Lemma buildEntries_stands chain hashes setHashes :
  length hashes = length chain → Forall2 stands_for (buildEntries certSets chain hashes [] setHashes) chain.
Proof using All.
  revert hashes. induction chain as [|c chain IH]; intros [|h hashes] Hl; try done.
  cbn. constructor; [|apply IH; cbn in Hl; lia]. unfold build_entry. rewrite bool_decide_false by set_solver.
  destruct (find_common _ _ _) as [e|] eqn:E; [by eapply find_common_stands|constructor].
Qed.

Lemma stands_bytes e cert : stands_for e cert → bytes_ok (write_entry e).
Proof using.
  destruct 1; unfold write_entry; (constructor; [apply u8_range|]); [|constructor].
  change (bytes_ok (WriteUint64 LittleEndian h ++ WriteUint32 LittleEndian i)).
  apply bytes_ok_app; [rewrite (write_64 (bo := LittleEndian))|rewrite (write_32 (bo := LittleEndian))]; apply enc_bytes.
Qed.

Lemma entries_bytes es chain : Forall2 stands_for es chain → bytes_ok (concat (write_entry <$> es)).
Proof using All.
  induction 1 as [|e c es chain He Hes IH]; [constructor|]. cbn [fmap list_fmap concat].
  apply bytes_ok_app; [by eapply stands_bytes|done].
Qed.

(** The chain as far as it is known without the compressed data. *)
Definition known (e : entry) (cert : list Z) : list Z := if entry_t e =? entryCompressed then [] else cert.

Lemma read_entries_ok es chain s fuel :
  Forall2 stands_for es chain → bytes_ok s → (length es < fuel)%nat →
  read_entries certSets fuel (concat (write_entry <$> es) ++ 0 :: s) = Ok (zip es (zip_with known es chain), s).
Proof using All.
  intros Hes Hs. revert fuel. induction Hes as [|e c es chain He Hes IH]; intros [|fuel] Hf; [cbn in Hf; lia|done|cbn in Hf; lia|].
  cbn in Hf.
  assert (bytes_ok (concat (write_entry <$> es) ++ 0 :: s)) as Hb.
  { apply bytes_ok_app; [by eapply entries_bytes|constructor; done]. }
  destruct He as [h i set cert E Hi Hc|cert]; cbn [fmap list_fmap concat]; rewrite <- app_assoc.
  - pose proof (Hsets _ _ E) as [Hh Hlen]. apply lookup_lt_Some in Hc as Hlt.
    assert (is_u32 i) by (unfold is_u32; lia).
    cbn [write_entry entry_t entry_h entry_i Z.eqb entryCached entryCommon app read_entries u8].
    change (3 mod 2^8) with 3. cbn [Z.eqb Pos.eqb entryCached entryCommon].
    rewrite <- app_assoc, read_u64_le;
      [|done|apply bytes_ok_app; [rewrite (write_32 (bo := LittleEndian)); apply enc_bytes|done]].
    cbn [mbind result_bind]. rewrite read_u32_le by done. cbn [mbind result_bind]. rewrite E. cbn [mbind result_bind].
    rewrite Z.geb_leb, u32_id by (unfold is_u32; lia). destruct (Z.leb_spec (Z.of_nat (length set)) i); [lia|].
    rewrite Hc. cbn [mbind result_bind]. rewrite IH by lia. done.
  - cbn. rewrite IH by lia. done.
Qed.

Context (zlib_Compress : list Z → list (list Z) → list Z).
Context {R : Type} `{Reader R} (zlib_NewReaderDict : list Z → list Z → result R).

(** What io.Reader and compress/zlib document: a reader has data left to deliver; a read gives a prefix of at most as many bytes as are asked
    for, possibly fewer, and no error, except that it may report the end together with, or after, the last bytes. *)
Context (delivers : R → list Z → Prop).
Context (Hread : ∀ r d n, delivers r d → ∃ m err r', Read r n = (take m d, err, r') ∧ (m <= n)%nat ∧ (m <= length d)%nat ∧
  delivers r' (drop m d) ∧ (err = None ∨ err = Some EOF ∧ m = length d)).
Context (Hzlib : ∀ dict writes, Forall bytes_ok writes → bytes_ok (zlib_Compress dict writes) ∧
  ∃ r, zlib_NewReaderDict (zlib_Compress dict writes) dict = Ok r ∧ delivers r (concat writes)).

Lemma next_slot_skip entries k e :
  entries !! k = Some e → entry_t e <> entryCompressed → next_slot entries k = next_slot entries (S k).
Proof using.
  intros Hk He. unfold next_slot. rewrite (drop_S _ _ _ Hk). cbn. rewrite decide_False by done.
  destruct (list_find _ _) as [[i x]|]; cbn; [|done]. f_equal. lia.
Qed.

Lemma next_slot_here entries k e :
  entries !! k = Some e → entry_t e = entryCompressed → next_slot entries k = Some k.
Proof using.
  intros Hk He. unfold next_slot. rewrite (drop_S _ _ _ Hk). cbn. rewrite decide_True by done. cbn. f_equal. lia.
Qed.

Lemma fill_skip fuel entries chain gz t u k e :
  entries !! k = Some e → entry_t e <> entryCompressed →
  fill_chain fuel entries chain gz t u k = fill_chain fuel entries chain gz t u (S k).
Proof using. intros Hk He. destruct fuel; [done|]. cbn [fill_chain]. by rewrite (next_slot_skip _ _ _ Hk He). Qed.

Lemma sum_sizes_nonneg es chain : 0 <= sum_sizes es chain.
Proof using.
  unfold sum_sizes. revert chain. induction es as [|e es IH]; intros [|c chain]; try done.
  cbn [zip_with foldr]. specialize (IH chain).
  assert (0 <= uncompressed_size e c) by (unfold uncompressed_size; destruct (_ =? _); lia). lia.
Qed.

Lemma sum_sizes_cons e es c chain :
  sum_sizes (e :: es) (c :: chain) = uncompressed_size e c + sum_sizes es chain.
Proof using. done. Qed.

(** Whether reads into slices of these sizes, one after the other, fill the slices. *)
Fixpoint fills (gz : R) (sizes : list nat) : bool :=
  match sizes with
  | [] => true
  | n :: sizes => let '(l, _, gz) := Read gz n in (length l =? n)%nat && fills gz sizes
  end.

Lemma fills_read gz d n sizes :
  delivers gz d → fills gz (n :: sizes) = true →
  ∃ err gz', Read gz n = (take n d, err, gz') ∧ delivers gz' (drop n d) ∧ fills gz' sizes = true ∧
    (err = None ∨ n = length d).
Proof using Hread.
  intros Hd Hf. destruct (Hread gz d n Hd) as (m & err & gz' & E & Hm & Hl & Hd' & He). cbn in Hf. rewrite E in Hf.
  apply andb_prop in Hf as [Hn Hf]. apply Nat.eqb_eq in Hn. rewrite length_take in Hn. assert (m = n) as -> by lia.
  exists err, gz'. split_and!; [done..|]. destruct He as [?|[_ ?]]; auto.
Qed.

Lemma fill_step fuel entries chain gz t u k cert d sizes :
  delivers gz (le_split 4 (Z.of_nat (length cert)) ++ cert ++ d) → fills gz (4%nat :: length cert :: sizes) = true →
  cert <> [] → t < u → Z.of_nat (length cert) < 2^32 →
  next_slot entries k = Some k → ∃ gz', delivers gz' d ∧ fills gz' sizes = true ∧
  fill_chain (S fuel) entries chain gz t u k =
  fill_chain fuel entries (<[k := cert]> chain) gz' (u32 (t + (4 + Z.of_nat (length cert)))) u (S k).
Proof using Hread.
  intros Hd Hf Hne Ht Hl Hk. destruct (fills_read _ _ _ _ Hd Hf) as (e1 & gz1 & E1 & Hd1 & Hf1 & He1).
  rewrite take_app_length' in E1 by (by rewrite length_le_split). rewrite drop_app_length' in Hd1 by (by rewrite length_le_split).
  assert (e1 = None) as ->.
  { destruct He1 as [?|He]; [done|]. rewrite !length_app, length_le_split in He. destruct cert; [done|cbn in He; lia]. }
  destruct (fills_read _ _ _ _ Hd1 Hf1) as (e2 & gz2 & E2 & Hd2 & Hf2 & _).
  rewrite take_app_length in E2. rewrite drop_app_length in Hd2. exists gz2. split; [done|]. split; [done|].
  cbn [fill_chain]. destruct (Z.ltb_spec t u); [|lia]. rewrite E1.
  assert (read_into 4 (le_split 4 (Z.of_nat (length cert))) = le_split 4 (Z.of_nat (length cert))) as ->.
  { rewrite <- (length_le_split 4 (Z.of_nat (length cert))) at 1. apply read_into_all. }
  rewrite le_combine_split by lia. rewrite Nat2Z.id, E2, Hk, read_into_all.
  rewrite u32_id, Z.eqb_refl by (unfold is_u32; lia). by destruct e2.
Qed.

Lemma fill_ok es2 c2 : Forall2 stands_for es2 c2 → ∀ es1 c1 fuel gz t,
  length c1 = length es1 → (length es2 < fuel)%nat → 0 <= t → t + sum_sizes es2 c2 < 2^32 →
  Forall (λ c, c <> []) c2 → delivers gz (concat (compressor_writes es2 c2)) → fills gz (length <$> compressor_writes es2 c2) = true →
  fill_chain fuel (es1 ++ es2) (c1 ++ zip_with known es2 c2) gz t (t + sum_sizes es2 c2) (length es1) = Ok (c1 ++ c2).
Proof using Hread.
  induction 1 as [|e c es2 c2 He Hes IH]; intros es1 c1 fuel gz t Hl Hf Ht Hs Hne Hd Hfill.
  { destruct fuel; [cbn in Hf; lia|]. cbn. unfold sum_sizes. cbn. destruct (Z.ltb_spec t (t + 0)); [lia|done]. }
  assert ((es1 ++ e :: es2) !! length es1 = Some e) as Hk by (by rewrite list_lookup_middle).
  specialize (IH (es1 ++ [e]) (c1 ++ [c])). rewrite !length_app, <- !app_assoc in IH. cbn [app length] in IH.
  replace (length es1 + 1)%nat with (S (length es1)) in IH by lia.
  apply Forall_cons in Hne as [Hc0 Hne]. rewrite sum_sizes_cons in *. pose proof (sum_sizes_nonneg es2 c2). cbn [length] in Hf.
  destruct He as [h i set c E Hi Hc|c]; cbn [zip_with known entry_t Z.eqb Pos.eqb entryCommon entryCompressed] in *.
  - rewrite (fill_skip _ _ _ _ _ _ _ _ Hk) by done. change (uncompressed_size _ _) with 0 in *.
    rewrite Z.add_0_l in *. apply IH; [lia..|done|done|done].
  - change (uncompressed_size _ c) with (4 + Z.of_nat (length c)) in *. destruct fuel as [|fuel]; [lia|].
    change (concat _) with (le_split 4 (Z.of_nat (length c)) ++ c ++ concat (compressor_writes es2 c2)) in Hd.
    destruct (fill_step fuel (es1 ++ mkEntry entryCompressed 0 0 :: es2) (c1 ++ [] :: zip_with known es2 c2) gz t
      (t + (4 + Z.of_nat (length c) + sum_sizes es2 c2)) (length es1) c _ (length <$> compressor_writes es2 c2) Hd) as (gz' & Hd' & Hfill' & ->);
      [done|done|lia|lia|by eapply next_slot_here|].
    rewrite u32_id by (unfold is_u32; lia). rewrite insert_app_r_alt by lia.
    replace (length es1 - length c1)%nat with 0%nat by lia. cbn [insert list_insert].
    rewrite <- (IH fuel gz' (t + (4 + Z.of_nat (length c)))); [f_equal; lia|lia..|done|done|done].
Qed.

Lemma dict_known es chain :
  buildZlibDictForEntries es (zip_with known es chain) = buildZlibDictForEntries es chain.
Proof using.
  unfold buildZlibDictForEntries. f_equal. do 2 f_equal. revert chain.
  induction es as [|e es IH]; intros [|c chain]; try done. cbn. rewrite IH. f_equal. unfold known. by destruct (_ =? _).
Qed.

Lemma compressed_size es chain :
  Forall2 stands_for es chain → has_compressed es = (0 <? sum_sizes es chain) ∧
  (has_compressed es = false → zip_with known es chain = chain).
Proof using.
  unfold has_compressed. induction 1 as [|e c es chain He Hes [IH1 IH2]]; [done|].
  rewrite sum_sizes_cons. pose proof (sum_sizes_nonneg es chain).
  destruct He as [h i set c E Hi Hc|c].
  - change (uncompressed_size _ _) with 0. rewrite Z.add_0_l, <- IH1.
    rewrite (bool_decide_ext _ (Exists (λ e, entry_t e = entryCompressed) es))
      by (rewrite Exists_cons; intuition discriminate).
    split; [done|]. intros Hno. cbn. by rewrite IH2.
  - change (uncompressed_size _ c) with (4 + Z.of_nat (length c)). rewrite bool_decide_true by (by constructor).
    split; [|done]. symmetry. apply Z.ltb_lt. lia.
Qed.

Lemma sum_sizes_le es chain :
  sum_sizes es chain <= foldr (λ c n, 4 + Z.of_nat (length c) + n) 0 chain.
Proof using.
  revert es. induction chain as [|c chain IH]; intros [|e es]; [done..|cbn|].
  - specialize (IH []). unfold sum_sizes in *. cbn in *. lia.
  - rewrite sum_sizes_cons. cbn [foldr]. specialize (IH es).
    assert (uncompressed_size e c <= 4 + Z.of_nat (length c)) by (unfold uncompressed_size; destruct (_ =? _); lia). lia.
Qed.

Lemma writes_bytes es chain : Forall bytes_ok chain → Forall bytes_ok (compressor_writes es chain).
Proof using.
  intros Hb. revert es. induction Hb as [|c chain Hc Hb IH]; intros [|e es]; [constructor..|].
  unfold compressor_writes. cbn [zip_with concat]. apply Forall_app. split; [|apply IH].
  destruct (_ =? _); [|constructor]. constructor; [apply le_split_bytes|by constructor].
Qed.

Lemma entries_length es : (length es <= length (concat (write_entry <$> es)))%nat.
Proof using.
  induction es as [|e es IH]; [done|]. cbn [fmap list_fmap concat length]. rewrite length_app.
  unfold write_entry at 1. cbn [length]. lia.
Qed.

Lemma decompress_entries es chain s :
  Forall2 stands_for es chain → bytes_ok s →
  decompressChain certSets zlib_NewReaderDict ((concat (write_entry <$> es) ++ [0]) ++ s)
  = if has_compressed es
    then ('(uncompressedLength, r) ← ReadUint32 LittleEndian s;
          gz ← zlib_NewReaderDict r (buildZlibDictForEntries es chain);
          fill_chain (S (length es)) es (zip_with known es chain) gz 0 uncompressedLength 0)
    else Ok chain.
Proof using Hsets.
  intros Hes Hs. unfold decompressChain. rewrite <- app_assoc. cbn [app].
  pose proof (Forall2_length _ _ _ Hes) as Hl. pose proof (entries_length es).
  rewrite (read_entries_ok _ chain) by (done || (rewrite length_app; lia)).
  cbn [mbind result_bind]. assert (length (zip_with known es chain) = length es) as Hk by (rewrite length_zip_with; lia).
  rewrite fst_zip, snd_zip, dict_known, length_zip_with by lia.
  destruct (Nat.eqb_spec (length es `min` length (zip_with known es chain)) 0) as [E0|].
  - destruct chain; [|cbn in *; lia]. by destruct es.
  - destruct (has_compressed es) eqn:E; [done|]. f_equal. by apply (compressed_size _ _ Hes).
Qed.

(** What the chain is compressed to for a client that names the sets [ccs]. *)
Definition chain_entries (chain : list (list Z)) (ccs : list Z) : list entry :=
  match splitHashes ccs with Ok hashes => buildEntries certSets chain (HashCert <$> chain) [] hashes | _ => [] end.

(** The reader of the compressed certificates never returns a short read when lengths and certificates are read. *)
Definition reads_in_full (chain : list (list Z)) (ccs : list Z) : Prop :=
  let es := chain_entries chain ccs in
  let dict := buildZlibDictForEntries es chain in
  let writes := compressor_writes es chain in
  ∀ gz, zlib_NewReaderDict (zlib_Compress dict writes) dict = Ok gz → fills gz (length <$> writes) = true.

Lemma compress_decompress (chain : list (list Z)) (ccs : list Z) :
  Forall bytes_ok chain → Forall (λ c, c <> []) chain → foldr (λ c n, 4 + Z.of_nat (length c) + n) 0 chain < 2^32 →
  (length ccs mod 8 = 0)%nat → reads_in_full chain ccs →
  ∃ data, compressChain certSets zlib_Compress chain ccs [] = Ok data ∧ decompressChain certSets zlib_NewReaderDict data = Ok chain.
Proof using Hsets Hread Hzlib.
  intros Hb Hne Hlen Hccs. unfold compressChain, reads_in_full, chain_entries.
  change (splitHashes []) with (Ok (A := list Z) []). cbn [mbind result_bind].
  unfold splitHashes. rewrite Hccs. cbn [Nat.eqb negb mbind result_bind].
  set (es := buildEntries _ _ _ _ _). intros Hfull. eexists. split; [done|].
  assert (Forall2 stands_for es chain) as Hes by (apply buildEntries_stands; by rewrite length_fmap).
  pose proof (sum_sizes_le es chain). pose proof (sum_sizes_nonneg es chain). pose proof (Forall2_length _ _ _ Hes) as Hl.
  destruct (compressed_size _ _ Hes) as [Hc Hknown]. rewrite <- Hc.
  destruct (Hzlib (buildZlibDictForEntries es chain) (compressor_writes es chain) (writes_bytes _ _ Hb))
    as (Hz & gz & Egz & Hd).
  destruct (has_compressed es) eqn:Ehc.
  - rewrite (decompress_entries _ _ _ Hes)
      by (apply bytes_ok_app; [rewrite (write_32 (bo := LittleEndian)); apply enc_bytes|done]).
    rewrite Ehc, u32_id, read_u32_le by (done || (unfold is_u32; lia)). cbn [mbind result_bind]. rewrite Egz.
    cbn [mbind result_bind]. apply (fill_ok es chain Hes [] [] _ gz 0); [done|lia..|done|done|by apply Hfull].
  - rewrite <- (app_nil_r (_ ++ [0])), (decompress_entries _ _ _ Hes) by constructor. by rewrite Ehc.
Qed.

(** C32: a client gets the chain a server compresses for it, as long as the zlib reader gives each read all the bytes it asks for.
    Whatever sets of common certificates the client names, [compressChain] fails only for a list of hashes that is not a multiple of eight bytes;
    and decompressing what it makes of a chain of non-empty certificates, less than 4 GB in total, gives the same certificates in the same
    order, whether they are named by their place in a set or compressed.  The code reads a length and a certificate with one [Read] each, and
    io.Reader lets a [Read] return fewer bytes; [reads_in_full] says that it does not do so for these reads, and
    [short_read_truncates] shows that otherwise a certificate can be cut off without an error.  For chains of common certificates nothing is read. *)
Theorem cert_chain_roundtrip (chain : list (list Z)) (ccs : list Z) :
  Forall bytes_ok chain → Forall (λ c, c <> []) chain → foldr (λ c n, 4 + Z.of_nat (length c) + n) 0 chain < 2^32 →
  match compressChain certSets zlib_Compress chain ccs [] with
  | Ok data => reads_in_full chain ccs → decompressChain certSets zlib_NewReaderDict data = Ok chain
  | Err e => e = errHashes ∧ (length ccs mod 8 <> 0)%nat
  | Panic _ => False
  end.
Proof using Hsets Hread Hzlib.
  intros Hb Hne Hlen. destruct (decide (length ccs mod 8 = 0)%nat) as [Hccs|Hccs].
  - pose proof (compress_decompress chain ccs Hb Hne Hlen Hccs) as Hd.
    assert (∃ data, compressChain certSets zlib_Compress chain ccs [] = Ok data) as [data E].
    { unfold compressChain. change (splitHashes []) with (Ok (A := list Z) []). cbn [mbind result_bind].
      unfold splitHashes. rewrite Hccs. by eexists. }
    rewrite E in *. intros Hfull. destruct (Hd Hfull) as (data' & [= <-] & ?). done.
  - unfold compressChain. change (splitHashes []) with (Ok (A := list Z) []). cbn [mbind result_bind]. unfold splitHashes.
    by destruct (Nat.eqb_spec (length ccs mod 8) 0).
Qed.

End RoundTrip.

(** ** Examples *)

(** A reader that holds its data, with which nothing is compressed. *)
#[local] Instance sample_reader : Reader (list Z) := λ r n, (take n r, None, drop n r).

Definition sample_sets : gmap Z (list (list Z)) := {[ 77 := [[1; 2]; [3; 4; 5]] ]}.
Definition sample_deflate (dict : list Z) (writes : list (list Z)) : list Z := concat writes.
Definition sample_inflate (data dict : list Z) : result (list Z) := Ok data.
Definition sample_chain : list (list Z) := [[9; 8; 7]; [3; 4; 5]; [6; 6]].

Lemma sample_sets_ok h set : sample_sets !! h = Some set → is_u64 h ∧ Z.of_nat (length set) < 2^32.
Proof. unfold sample_sets. intros [<- <-]%lookup_singleton_Some. by vm_compute. Qed.

Lemma sample_reads (r d : list Z) (n : nat) : r = d →
  ∃ m err r', Read r n = (take m d, err, r') ∧ (m <= n)%nat ∧ (m <= length d)%nat ∧
    r' = drop m d ∧ (err = None ∨ err = Some EOF ∧ m = length d).
Proof.
  intros ->. exists (n `min` length d)%nat, None, (drop (n `min` length d) d). split_and!; [|lia|lia|done|by left].
  unfold Read, sample_reader. destruct (Nat.le_ge_cases n (length d)).
  - by rewrite Nat.min_l.
  - by rewrite Nat.min_r, !take_ge, !drop_ge by lia.
Qed.

Lemma sample_zlib dict writes : Forall bytes_ok writes → bytes_ok (sample_deflate dict writes) ∧
  ∃ r, sample_inflate (sample_deflate dict writes) dict = Ok r ∧ r = concat writes.
Proof.
  intros Hw. split; [|by eexists]. unfold sample_deflate. induction Hw; [constructor|by apply bytes_ok_app].
Qed.

Lemma cert_chain_roundtrip_witness :
  compressChain sample_sets sample_deflate sample_chain (le_split 8 77) [] =
    Ok ([1; 3; 77; 0; 0; 0; 0; 0; 0; 0; 1; 0; 0; 0; 1; 0] ++ [13; 0; 0; 0] ++ [3; 0; 0; 0; 9; 8; 7; 2; 0; 0; 0; 6; 6]) ∧
  match compressChain sample_sets sample_deflate sample_chain (le_split 8 77) [] with
  | Ok data => decompressChain sample_sets sample_inflate data = Ok sample_chain
  | Err e => e = errHashes ∧ (length (le_split 8 77) mod 8 <> 0)%nat
  | Panic _ => False
  end.
Proof.
  split; [by vm_compute|].
  pose proof (cert_chain_roundtrip sample_sets sample_sets_ok sample_deflate sample_inflate eq sample_reads sample_zlib
    sample_chain (le_split 8 77)) as H.
  destruct (compressChain sample_sets sample_deflate sample_chain (le_split 8 77) []) as [data|e|e].
  - apply H; [repeat constructor; done..|by vm_compute|]. intros gz [= <-]. by vm_compute.
  - apply H; [repeat constructor; done..|by vm_compute].
  - apply H; [repeat constructor; done..|by vm_compute].
Defined.

(** A reader that gives at most two bytes at a time once the length of a certificate is read, which readers
    may: the certificate is cut off and padded with zeros, without an error. *)
Definition short_reader : Reader (list Z) :=
  λ r n, if (n =? 4)%nat then (take 4 r, None, drop 4 r) else (take (n `min` 2) r, None, drop (n `min` 2) r).

Theorem short_read_truncates :
  compressChain ∅ sample_deflate [[9; 8; 7]] [] [] = Ok [1; 0; 7; 0; 0; 0; 3; 0; 0; 0; 9; 8; 7] ∧
  decompressChain (H := short_reader) ∅ sample_inflate [1; 0; 7; 0; 0; 0; 3; 0; 0; 0; 9; 8; 7] = Ok [[9; 8; 0]].
Proof. split; by vm_compute. Qed.

(** The key of the cache does not tell the two lists of hashes apart: a chain compressed for a client
    that holds the certificate already is sent to one that does not, and that rejects it. *)
Definition sample_lru : lruCache (gmap Z (list Z)) := mkLRU _ (λ c k, (c !! k, c)) (λ c k v, <[k := v]> c).

Theorem cache_mixes_up_hashes :
  let cert := [9; 8; 7] in
  let hash := le_split 8 (HashCert cert) in
  let '(r1, cache) := getCompressedCert sample_lru ∅ sample_deflate [cert] [] hash ∅ in
  let '(r2, _) := getCompressedCert sample_lru ∅ sample_deflate [cert] hash [] cache in
  r1 = r2 ∧ is_ok r1 = true ∧
  (data ← r2; decompressChain ∅ sample_inflate data) = Err (ErrorString "unexpected cached certificate").
Proof. vm_compute. done. Qed.

(** A proof is verified for what was signed. *)
Lemma proof_verifies sha256 asn1 sign check cert_raw chlo scfg proof :
  (∀ digest sig, sign digest = Ok sig → check digest sig = true) →
  signServerProof sha256 (Some sign) chlo scfg = Ok proof →
  verifyServerProof sha256 asn1 proof (mkCertificate cert_raw (RSA check)) chlo scfg = true.
Proof. intros Hs Hp. apply Hs, Hp. Qed.
