(* ===== verification/Transmission.v ===== *)
(** * What packing a packet does with data and acknowledgements

    For every way to pack a packet: where the stream data that waits for retransmission goes, and when
    a packet carries anything else than acknowledgements. *)

From S2P Require Import Prelude ByteOrder Protocol Frames StreamFrame AckFrame ClosePathFrame PublicHeader Unpacker.
From S2P Require Import FlowControl Stream StreamScheduler StreamsMap StreamFramer Congestion SentPackets.
From S2P Require Import Handshake ConnectionParameters Packer.

(** ** The data of frames

    A byte of a stream at its offset, or the end of a stream; offsets are 64-bit numbers. *)
Definition item : Type := Z * Z * option Z.

Definition frame_items (f : StreamFrame) : list item :=
  imap (λ i b, (StreamID f, u64 (Offset f + Z.of_nat i), Some b)) (Data f)
  ++ (if FinBit f then [(StreamID f, u64 (Offset f + DataLen f), None)] else []).

Definition items (l : list StreamFrame) : list item := flat_map frame_items l.

Definition stream_frames (fs : list frame) : list StreamFrame :=
  omap (λ f, match f with FStream f => Some f | _ => None end) fs.

Lemma items_app l k : items (l ++ k) = items l ++ items k.
Proof. apply flat_map_app. Qed.

Lemma stream_frames_app fs gs : stream_frames (fs ++ gs) = stream_frames fs ++ stream_frames gs.
Proof. apply omap_app. Qed.

Lemma stream_frames_streams l : stream_frames (FStream <$> l) = l.
Proof. unfold stream_frames. induction l as [|f l IH]; cbn; [done|]. by f_equal. Qed.

Lemma stream_frames_strip fs : stream_frames (stripNonRetransmittableFrames fs) = stream_frames fs.
Proof.
  unfold stream_frames, stripNonRetransmittableFrames. induction fs as [|f fs IH]; [done|]. cbn.
  by destruct f; cbn; rewrite IH.
Qed.

Lemma frame_items_len f : frame_items (with_data_len f) = frame_items f.
Proof. done. Qed.

Lemma items_open_last l : items (open_last l) = items l.
Proof. induction l as [|f [|g l] IH]; [done|done|]. cbn [open_last items flat_map] in *. by rewrite IH. Qed.

(** Splitting a frame splits its data. *)
Lemma split_items f n f1 f2 :
  0 <= n → maybeSplitOffFrame f n = Some (f1, f2) → frame_items f1 ++ frame_items f2 = frame_items f.
Proof.
  intros Hn. unfold maybeSplitOffFrame. rewrite Z.geb_leb. destruct (Z.leb_spec (DataLen f) n) as [|Hlt]; [done|].
  intros [= <- <-]. unfold frame_items. cbn [StreamID Offset FinBit Data]. rewrite app_nil_r, app_assoc. f_equal.
  - rewrite <- (take_drop (Z.to_nat n) (Data f)) at 3. rewrite imap_app. f_equal.
    apply imap_ext. intros i b _. cbn. do 2 f_equal. unfold DataLen in Hlt.
    rewrite length_take_le by lia. unfold u64. rewrite Zplus_mod_idemp_l. f_equal. lia.
  - destruct (FinBit f); [|done]. do 3 f_equal. unfold DataLen. cbn [Data]. rewrite length_drop.
    unfold u64. rewrite Zplus_mod_idemp_l. unfold DataLen in Hlt. f_equal. lia.
Qed.

Lemma pop_retransmissions_items maxLen cur queue fcm res cur' queue' fcm' :
  pop_retransmissions maxLen cur queue fcm = (res, cur', queue', fcm') → items (res ++ queue') = items queue.
Proof.
  revert cur fcm res cur' queue' fcm'. induction queue as [|f queue IH];
    intros cur fcm res cur' queue' fcm'; cbn [pop_retransmissions]; [by intros [= <- <- <- <-]|].
  destruct (_ >=? maxLen); [by intros [= <- <- <- <-]|].
  destruct (maybeSplitOffFrame _ _) as [[f1 f2]|] eqn:Es.
  - intros [= <- <- <- <-]. cbn. rewrite app_assoc, <- (frame_items_len f). f_equal. eapply split_items; [|exact Es].
    unfold u64. apply Z.mod_pos_bound. lia.
  - destruct (pop_retransmissions maxLen _ queue _) as [[[res1 cur1] queue1] fcm1] eqn:Er.
    intros [= <- <- <- <-]. cbn [app items flat_map]. rewrite (frame_items_len f). f_equal. by eapply IH.
Qed.

Lemma normal_frames_queue ps f n res f' :
  maybePopNormalFrames ps f n = Ok (res, f') → retransmissionQueue f' = retransmissionQueue f.
Proof.
  unfold maybePopNormalFrames. destruct (sm_scheduler (sf_streamsMap f)) as [sch|]; intros E; res_inv.
  - destruct x as [p sch']. res_inv. destruct x as [id|]; [|by simplify_eq]. res_inv.
    destruct (send _ _ _ _ _) as [[[[[fr ?] ?] ?] ?] ?]. by simplify_eq.
  - destruct x as [[e m'] [[streams res'] fr]]. by simplify_eq.
Qed.

Lemma PopStreamFrames_items ps f n res f' :
  PopStreamFrames ps f n = Ok (res, f') →
  ∃ old new, res = old ++ new ∧ items (retransmissionQueue f) = items (old ++ retransmissionQueue f').
Proof.
  unfold PopStreamFrames, maybePopFramesForRetransmission.
  destruct (pop_retransmissions n 0 _ _) as [[[old cur] queue] fcm] eqn:Er.
  destruct (maybePopNormalFrames _ _ _) as [[new f2]| |] eqn:En; cbn; [|done..]. intros [= <- <-].
  exists old, new. split; [done|]. rewrite (normal_frames_queue _ _ _ _ _ En). cbn.
  symmetry. by eapply pop_retransmissions_items.
Qed.

(** ** Packing *)

Lemma packing_bind_ok {A B} (m : packing A) (f : A → packing B) st b st' :
  (m ≫= f) st = (Ok b, st') → ∃ a st1, m st = (Ok a, st1) ∧ f a st1 = (Ok b, st').
Proof. cbv [mbind packing_bind]. destruct (m st) as [[a|e|e] st1]; intros E; [by eauto|done..]. Qed.

(** A successful run of the packer, step by step. *)
Ltac pack_ok :=
  repeat match goal with
  | E : (_ ≫= _) _ = (Ok _, _) |- _ => apply packing_bind_ok in E as (? & ? & ? & E)
  | E : getPacker _ = (Ok _, _) |- _ => injection E as <- <-
  | E : getPath _ = (Ok _, _) |- _ => injection E as <- <-
  | E : modify _ _ = (Ok _, _) |- _ => injection E as <- <-
  | E : lift _ _ = (Ok _, _) |- _ => injection E as E <-
  | E : throw _ _ = (Ok _, _) |- _ => discriminate E
  | E : mret _ _ = (Ok _, _) |- _ => unfold mret, packing_ret in E; simplify_eq
  | E : match ?x with (_, _) => _ end _ = (Ok _, _) |- _ => is_var x; destruct x
  | E : match ?x with (_, _) => _ end _ = (Ok _, _) |- _ => destruct x eqn:?
  end.

(** What no way of packing changes, and the parts of the packer the session's guarantees are about. *)
Definition keeps_setup (p p' : packetPacker) : Prop :=
  pp_connectionID p' = pp_connectionID p ∧ pp_perspective p' = pp_perspective p ∧
  pp_version p' = pp_version p ∧ pp_cryptoSetup p' = pp_cryptoSetup p ∧
  pp_connectionParameters p' = pp_connectionParameters p.

Definition tidy (p : packetPacker) : Prop := Forall (λ f, IsFrameRetransmittable f = true) (controlFrames p).

Definition queue_of (p : packetPacker) : list StreamFrame := retransmissionQueue (pp_streamFramer p).

Section PackFacts.
Context (now : Z) (rnd : random_bytes).

(** A packet is made from the frames it is given, and is sealed within the limit. *)
Definition sealed_by (sealer : Sealer) (raw : list Z) : Prop :=
  ∃ header payload pn, raw = header ++ Seal sealer payload pn header ∧
    Z.of_nat (length header + length payload) + Overhead sealer <= MaxPacketSize.

Lemma packed_facts h fs level sealer p pth pk p' pth' :
  packed now rnd h fs level sealer (p, pth) = (Ok pk, (p', pth')) →
  pk_frames pk = fs ∧ pk_encryptionLevel pk = level ∧ sealed_by sealer (pk_raw pk) ∧ p' = p.
Proof.
  unfold packed, writeAndSealPacket. intros E. pack_ok.
  destruct (_ >? MaxPacketSize) eqn:Em; pack_ok.
  destruct (Pop rnd _) as [num g]. pack_ok.
  match goal with E : (Ok num, _) = _ |- _ => injection E as <- <- end.
  destruct (negb _); pack_ok. split_and!; [done..| |done].
  eexists _, _, _. split; [done|]. zbool. lia.
Qed.

(** The crypto stream: its data does not come from the queue. *)
Lemma crypto_stream_queue limits f r f' :
  crypto_stream limits f = (r, f') → retransmissionQueue f' = retransmissionQueue f.
Proof. unfold crypto_stream. destruct (GetOrOpenStream _ _ _). by intros [= <- <-]. Qed.

Lemma HasCrypto_queue limits f r f' :
  HasCryptoStreamFrame limits f = (r, f') → retransmissionQueue f' = retransmissionQueue f.
Proof.
  unfold HasCryptoStreamFrame. destruct (crypto_stream limits f) as [r1 f1] eqn:E. intros [= <- <-].
  by eapply crypto_stream_queue.
Qed.

Lemma PopCrypto_queue limits f n r f' :
  PopCryptoStreamFrame limits f n = (r, f') → retransmissionQueue f' = retransmissionQueue f.
Proof.
  unfold PopCryptoStreamFrame. destruct (HasCryptoStreamFrame limits f) as [[[]|e|e] f1] eqn:E1;
    apply HasCrypto_queue in E1; try (intros [= <- <-]; done).
  destruct (crypto_stream limits f1) as [r2 f2] eqn:E2. apply crypto_stream_queue in E2.
  destruct r2 as [cs|e|e]; [|intros [= <- <-]; congruence..].
  destruct (getDataForWriting _ _). intros [= <- <-]. cbn. congruence.
Qed.

(** How a packet was packed from a packer for a path. *)
Definition packs (p : packetPacker) (id : Z) (pk : packedPacket) (p' : packetPacker) : Prop :=
  keeps_setup p p' ∧
  ((∃ f, pk_frames pk = [FStream f] ∧ pp_ackFrame p' = pp_ackFrame p ∧
         controlFrames p' = controlFrames p ∧ queue_of p' = queue_of p ∧
         pk_encryptionLevel pk = (GetSealerForCryptoStream (pp_cryptoSetup p)).1 ∧
         sealed_by (GetSealerForCryptoStream (pp_cryptoSetup p)).2 (pk_raw pk)) ∨
   (∃ rest sfs, pk_frames pk = rest ++ (FStream <$> sfs) ∧
      pp_ackFrame p' = delete id (pp_ackFrame p) ∧
      (HasRetransmittableFrames (pk_frames pk) = true ∨ is_Some (pp_ackFrame p !! id)) ∧
      (tidy p → tidy p') ∧ items (queue_of p) ⊆ items (sfs ++ queue_of p') ∧
      pk_encryptionLevel pk = (GetSealer (pp_cryptoSetup p)).1 ∧
      sealed_by (GetSealer (pp_cryptoSetup p)).2 (pk_raw pk))).

Lemma packCryptoPacket_facts p pth pk p' pth' :
  packCryptoPacket now rnd (p, pth) = (Ok pk, (p', pth')) →
  keeps_setup p p' ∧ ∃ f, pk_frames pk = [FStream f] ∧ pp_ackFrame p' = pp_ackFrame p ∧
    controlFrames p' = controlFrames p ∧ queue_of p' = queue_of p ∧
    pk_encryptionLevel pk = (GetSealerForCryptoStream (pp_cryptoSetup p)).1 ∧
    sealed_by (GetSealerForCryptoStream (pp_cryptoSetup p)).2 (pk_raw pk).
Proof.
  unfold packCryptoPacket. intros E. pack_ok. cbn [fst snd] in *.
  match goal with E : framing_op _ _ = _ |- _ => unfold framing_op in E;
    destruct (PopCryptoStreamFrame _ _ _) as [r f] eqn:Ef; injection E as -> <- end.
  apply PopCrypto_queue in Ef. destruct x1 as [sf|]; [|by pack_ok].
  apply packed_facts in E as (Hf & Hl & Hs & ->). split; [done|]. by exists sf.
Qed.

Lemma pop_control_frames v n len queue fs len' rest :
  pop_control v n len queue = (Ok (fs, len'), rest) → queue = fs ++ rest.
Proof.
  revert len fs. induction queue as [|f queue IH]; intros len fs; cbn; [by intros [= <- <- <-]|].
  destruct (frame_MinLength f v) as [m| |]; [|done..].
  destruct (_ >? n); [by intros [= <- <- <-]|].
  destruct (pop_control v n _ queue) as [[[fs1 len1]| |] rest1] eqn:E; [|done..].
  intros [= <- <- <-]. cbn. f_equal. by eapply IH.
Qed.

Lemma queue_blocked_facts n p :
  keeps_setup p (queue_blocked n p) ∧ pp_ackFrame (queue_blocked n p) = pp_ackFrame p ∧
  pp_stopWaiting (queue_blocked n p) = pp_stopWaiting p ∧
  queue_of (queue_blocked n p) = queue_of p ∧ (tidy p → tidy (queue_blocked n p)).
Proof.
  revert p. induction n as [|n IH]; intros p; [done|]. cbn [queue_blocked].
  unfold PopBlockedFrame. destruct (blockedFrameQueue (pp_streamFramer p)) as [|b bs]; [done|].
  match goal with |- context [queue_blocked n ?q] => destruct (IH q) as (H1 & H2 & H3 & H4 & H5) end.
  split_and!; [done..|]. intros Ht. apply H5, Forall_app. by split; [|repeat constructor].
Qed.

#[local] Opaque queue_blocked.

Lemma composeNextPacket_facts maxSize canSend p pth fs p' pth' :
  composeNextPacket maxSize canSend (p, pth) = (Ok fs, (p', pth')) →
  keeps_setup p p' ∧ pp_ackFrame p' = pp_ackFrame p ∧ pp_stopWaiting p' = pp_stopWaiting p ∧ pth' = pth ∧
  ∃ control sfs, fs = path_frames p (pth_pathID pth) ++ control ++ (FStream <$> sfs) ∧
    (tidy p → tidy p' ∧ Forall (λ f, IsFrameRetransmittable f = true) control) ∧
    items (queue_of p) ⊆ items (sfs ++ queue_of p').
Proof.
  unfold composeNextPacket. intros E. pack_ok. cbn [fst snd] in *.
  match goal with E : (let '(_, _) := pop_control ?v ?m ?l ?q in _) = _ |- _ =>
    destruct (pop_control v m l q) as [r rest] eqn:Ec; injection E as -> <- end.
  apply pop_control_frames in Ec.
  assert (∀ q, controlFrames q = rev rest → tidy p → tidy q ∧ Forall (λ f, IsFrameRetransmittable f = true) l) as Ht.
  { intros q Hq Ht. unfold tidy in *. rewrite Hq. rewrite <- (rev_involutive (controlFrames p)), Ec in Ht.
    rewrite rev_app_distr, Forall_app in Ht. split; [by apply Ht|]. rewrite <- (rev_involutive l). by apply Forall_rev, Ht. }
  destruct (_ >? maxSize); pack_ok. destruct canSend; cbn [negb] in E; pack_ok.
  2: { split_and!; [done..|]. exists l, []. rewrite app_nil_r. split_and!; [done|by apply Ht|done]. }
  match goal with E : framing_op _ _ = _ |- _ => unfold framing_op in E; cbn in E;
    destruct (PopStreamFrames _ _ _) as [[sfs f]| |] eqn:Ef; [|done..]; injection E as <- <- end.
  apply PopStreamFrames_items in Ef as (old & new & -> & Hi). cbn [fst snd] in *.
  match goal with |- context [queue_blocked ?n ?q] => destruct (queue_blocked_facts n q) as (Q1 & Q2 & Q3 & Q4 & Q5) end.
  split_and!; [done..|]. exists l, (open_last (old ++ new)). split_and!; [done| |].
  - intros Hp. split; [|by apply (Ht (set_control p (rev rest)))]. apply Q5.
    by apply (Ht (set_control p (rev rest))).
  - rewrite Q4, items_app, items_open_last, items_app. unfold queue_of at 1. cbn. rewrite Hi, items_app. set_solver.
Qed.

Lemma payload_frames_facts maxSize canSend p pth fs p' pth' :
  payload_frames maxSize canSend (p, pth) = (Ok fs, (p', pth')) →
  keeps_setup p p' ∧ pp_ackFrame p' = pp_ackFrame p ∧ pp_stopWaiting p' = pp_stopWaiting p ∧ pth' = pth ∧
  ∃ rest sfs, fs = rest ++ (FStream <$> sfs) ∧ items (queue_of p) ⊆ items (sfs ++ queue_of p') ∧
    (is_Some (pp_stopWaiting p !! pth_pathID pth) → (length fs <= 1)%nat → sfs = []) ∧
    (tidy p → tidy p' ∧ (HasRetransmittableFrames fs = true ∨ fs = path_frames p (pth_pathID pth))).
Proof.
  intros E. unfold payload_frames in E. pack_ok. cbn [fst snd] in E.
  destruct (match controlFrames p with FPing pf :: rest => Some (pf, rest) | _ => None end) as [[pf rest]|] eqn:Ep.
  { destruct (controlFrames p) as [|[] cs] eqn:Ec; simplify_eq. pack_ok. split_and!; [done..|].
    exists [FPing pf], []. split_and!; [done..|]. intros Ht. unfold tidy in *. rewrite Ec in Ht.
    apply Forall_cons in Ht as [_ Ht]. by auto. }
  assert (composeNextPacket maxSize canSend (p, pth) = (Ok fs, (p', pth'))) as E'
    by (by destruct (controlFrames p) as [|[] cs]; simplify_eq).
  apply composeNextPacket_facts in E' as (H1 & H2 & H3 & H4 & control & sfs & -> & Ht & Hi).
  split_and!; [done..|]. eexists (_ ++ control), sfs. rewrite <- app_assoc. split_and!; [done..| |].
  { intros [sw Hsw]. unfold path_frames. rewrite Hsw, !length_app, length_fmap. cbn. destruct sfs; cbn; [done|lia]. }
  intros Hp. destruct (Ht Hp) as [Hp' Hc]. split; [done|].
  destruct control as [|f control]; [destruct sfs as [|f sfs]|].
  - right. by rewrite !app_nil_r.
  - left. unfold HasRetransmittableFrames. rewrite !existsb_app. cbn. by rewrite !orb_true_r.
  - left. unfold HasRetransmittableFrames. rewrite !existsb_app. cbn. apply Forall_cons in Hc as [-> _].
    by rewrite !orb_true_r.
Qed.

(** A packet with nothing but the frames of the path has an ACK frame. *)
Lemma path_frames_ack p id :
  ((length (path_frames p id) =? 0)%nat = false) →
  ((length (path_frames p id) =? 1)%nat && bool_decide (is_Some (pp_stopWaiting p !! id)) = false) →
  is_Some (pp_ackFrame p !! id).
Proof.
  unfold path_frames. destruct (pp_stopWaiting p !! id) as [sw|], (pp_ackFrame p !! id) as [ack|]; cbn; eauto; done.
Qed.

Lemma number_stop_waiting_facts h id p :
  let q := number_stop_waiting h id p in
  keeps_setup p q ∧ pp_ackFrame q = pp_ackFrame p ∧ queue_of q = queue_of p ∧ controlFrames q = controlFrames p.
Proof. unfold number_stop_waiting. by destruct (pp_stopWaiting p !! id). Qed.

Lemma keeps_setup_trans p q r : keeps_setup p q → keeps_setup q r → keeps_setup p r.
Proof. unfold keeps_setup. intuition congruence. Qed.

Lemma PackPacket_packs p pth pk p' pth' :
  tidy p → PackPacket now rnd (p, pth) = (Ok (Some pk), (p', pth')) → packs p (pth_pathID pth) pk p'.
Proof.
  intros Ht E. unfold PackPacket in E. pack_ok.
  match goal with E : framing_op _ _ = _ |- _ => unfold framing_op in E;
    destruct (HasCryptoStreamFrame _ _) as [r f] eqn:Ef; injection E as -> <- end.
  apply HasCrypto_queue in Ef. set (p0 := set_framer p f) in *.
  assert (keeps_setup p p0 ∧ queue_of p0 = queue_of p) as [K0 Q0] by done.
  destruct x as [|].
  { pack_ok. match goal with E : packCryptoPacket _ _ _ = _ |- _ =>
      apply packCryptoPacket_facts in E as (K & sf & H1 & H2 & H3 & H4 & H5 & H6) end.
    split; [exact (keeps_setup_trans _ _ _ K0 K)|]. left. exists sf. by rewrite H4, Q0. }
  pack_ok. cbn [fst snd] in *.
  set (ph := getPublicHeader p0 z pth) in *. set (id := pth_pathID pth) in *.
  pose proof (number_stop_waiting_facts ph id p0) as (K1 & A1 & Q1 & C1).
  set (p1 := number_stop_waiting ph id p0) in *. destruct x4 as [p2 pth2].
  match goal with E : payload_frames _ _ _ = _ |- _ =>
    apply payload_frames_facts in E as (K2 & A2 & S2 & -> & rest & sfs & -> & Hi & _ & Ht2) end.
  assert (tidy p1) as Ht1 by (unfold tidy; by rewrite C1). specialize (Ht2 Ht1) as [Ht2 Hfs].
  destruct (length _ =? 0)%nat eqn:E0; pack_ok.
  destruct (_ && _) eqn:E1; pack_ok.
  match goal with E : packed _ _ _ _ _ _ _ = _ |- _ => apply packed_facts in E as (F1 & F2 & F3 & ->) end.
  assert (keeps_setup p p2) as K by (eapply keeps_setup_trans; [exact K0|]; by eapply keeps_setup_trans).
  split; [exact K|]. right. exists rest, sfs. cbn [fst snd] in *. rewrite F1.
  split_and!; [done|cbn; by rewrite A2, A1| |by intros _|by rewrite <- Q0, <- Q1| |].
  - destruct Hfs as [Hfs|Hfs]; [by left|]. right. change (pp_ackFrame p) with (pp_ackFrame p0). rewrite <- A1.
    rewrite Hfs, ?S2 in *. by apply path_frames_ack.
  - change (pp_cryptoSetup p) with (pp_cryptoSetup p0). by rewrite F2, Heqp1.
  - change (pp_cryptoSetup p) with (pp_cryptoSetup p0). by rewrite Heqp1.
Qed.

(** If nothing is packed, the data that waits still waits. *)
Lemma PackPacket_none p pth p' pth' :
  tidy p → PackPacket now rnd (p, pth) = (Ok None, (p', pth')) →
  keeps_setup p p' ∧ tidy p' ∧ items (queue_of p) ⊆ items (queue_of p').
Proof.
  intros Ht E. unfold PackPacket in E. pack_ok.
  match goal with E : framing_op _ _ = _ |- _ => unfold framing_op in E;
    destruct (HasCryptoStreamFrame _ _) as [r f] eqn:Ef; injection E as -> <- end.
  apply HasCrypto_queue in Ef. set (p0 := set_framer p f) in *.
  assert (keeps_setup p p0 ∧ queue_of p0 = queue_of p) as [K0 Q0] by done.
  destruct x as [|]; pack_ok; cbn [fst snd] in *.
  set (ph := getPublicHeader p0 z pth) in *. set (id := pth_pathID pth) in *.
  pose proof (number_stop_waiting_facts ph id p0) as (K1 & A1 & Q1 & C1).
  set (p1 := number_stop_waiting ph id p0) in *.
  match goal with E : payload_frames _ _ _ = (Ok _, ?st) |- _ => destruct st as [p2 pth2];
    apply payload_frames_facts in E as (K2 & A2 & S2 & -> & rest & sfs & -> & Hi & Hsw & Ht2) end.
  assert (tidy p1) as Ht1 by (unfold tidy; by rewrite C1). specialize (Ht2 Ht1) as [Ht2 _].
  assert (keeps_setup p p2) as K by (eapply keeps_setup_trans; [exact K0|]; by eapply keeps_setup_trans).
  assert (sfs = [] → items (queue_of p) ⊆ items (queue_of p2)) as Hq.
  { intros ->. by rewrite <- Q0, <- Q1. }
  destruct (length _ =? 0)%nat eqn:E0; [|destruct (_ && _) eqn:E1]; pack_ok; cbn [fst snd] in *.
  - split_and!; [done..|]. apply Hq. apply Nat.eqb_eq in E0. rewrite length_app, length_fmap in E0.
    destruct sfs; cbn in *; [done|lia].
  - split_and!; [done..|]. apply Hq. apply andb_prop in E1 as [E1 E2]. apply Nat.eqb_eq in E1.
    apply bool_decide_eq_true in E2. apply Hsw; [by rewrite <- S2|lia].
Qed.

Lemma PackPing_packs pf lu p pth pk p' pth' :
  tidy p → PackPing now rnd pf lu (p, pth) = (Ok (Some pk), (p', pth')) →
  packs (set_control p (FPing pf :: controlFrames p)) (pth_pathID pth) pk p'.
Proof.
  intros Ht E. unfold PackPing in E. pack_ok. simplify_eq.
  apply PackPacket_packs in E; [done|]. by constructor.
Qed.

Lemma PackAckPacket_facts p pth pk p' pth' :
  PackAckPacket now rnd (p, pth) = (Ok pk, (p', pth')) →
  stream_frames (pk_frames pk) = [] ∧ queue_of p' = queue_of p ∧ controlFrames p' = controlFrames p ∧
  keeps_setup p p' ∧ pk_encryptionLevel pk = (GetSealer (pp_cryptoSetup p)).1 ∧
  sealed_by (GetSealer (pp_cryptoSetup p)).2 (pk_raw pk).
Proof.
  unfold PackAckPacket. intros E. pack_ok. cbn [fst snd] in *.
  destruct (pp_ackFrame p !! _) as [ack|]; [|by pack_ok]. pack_ok.
  apply packed_facts in E as (F1 & F2 & F3 & ->). cbn in *. rewrite F1.
  split; [by destruct (pp_stopWaiting p !! _)|]. by split_and!.
Qed.

Lemma PackHandshake_facts pkt p pth pk p' pth' :
  PackHandshakeRetransmission now rnd pkt (p, pth) = (Ok pk, (p', pth')) →
  pk_encryptionLevel pk <> EncryptionForwardSecure ∧ queue_of p' = queue_of p ∧
  pp_ackFrame p' = pp_ackFrame p ∧ controlFrames p' = controlFrames p ∧ keeps_setup p p' ∧
  ∃ sealer, GetSealerWithEncryptionLevel (pp_cryptoSetup p) (EncryptionLevel pkt) = Ok sealer ∧
    sealed_by sealer (pk_raw pk).
Proof.
  unfold PackHandshakeRetransmission. destruct (Z.eqb_spec (EncryptionLevel pkt) EncryptionForwardSecure) as [|Hl];
    intros E; pack_ok. cbn [fst snd] in *.
  destruct (pp_stopWaiting p !! _) as [sw|]; [|by pack_ok]. pack_ok.
  apply packed_facts in E as (F1 & F2 & F3 & ->). cbn in *. rewrite F2. split_and!; [done..|]. by eexists.
Qed.

Lemma PackConnectionClose_facts f p pth pk p' pth' :
  PackConnectionClose now rnd f (p, pth) = (Ok pk, (p', pth')) →
  stream_frames (pk_frames pk) = [] ∧ p' = p.
Proof.
  unfold PackConnectionClose. intros E. pack_ok. apply packed_facts in E as (F1 & _ & _ & ->). by rewrite F1.
Qed.

(** *** Packing a PING never touches the data that waits, whatever comes of it *)

Definition quiet (p p' : packetPacker) : Prop :=
  queue_of p' = queue_of p ∧ keeps_setup p p' ∧ (tidy p → tidy p').

Lemma quiet_trans p q r : quiet p q → quiet q r → quiet p r.
Proof. intros (Q1 & K1 & T1) (Q2 & K2 & T2). split_and!; [congruence|by eapply keeps_setup_trans|auto]. Qed.

Definition packs_quietly {A} (m : packing A) : Prop := ∀ st, quiet st.1 (m st).2.1.

Lemma quietly_bind {A B} (m : packing A) (f : A → packing B) :
  packs_quietly m → (∀ a, packs_quietly (f a)) → packs_quietly (m ≫= f).
Proof.
  intros Hm Hf st. cbv [mbind packing_bind]. specialize (Hm st).
  destruct (m st) as [[a|e|e] st1]; cbn in *; [|done..]. by eapply quiet_trans; [|apply Hf].
Qed.

Lemma quietly_lift {A} (r : result A) : packs_quietly (lift r).
Proof. by intros st. Qed.

Lemma quietly_framing {A} (op : connectionParametersManager → streamFramer → result A * streamFramer) :
  (∀ c f, retransmissionQueue (op c f).2 = retransmissionQueue f) → packs_quietly (framing_op op).
Proof.
  intros Hop [p pth]. unfold framing_op. specialize (Hop (pp_connectionParameters p) (pp_streamFramer p)).
  by destruct (op _ _).
Qed.

Lemma quietly_packed h fs level sealer : packs_quietly (packed now rnd h fs level sealer).
Proof.
  unfold packed, writeAndSealPacket. repeat (apply quietly_bind; [|intros ?]);
    try by (intros [] || apply quietly_lift).
  case_ifs; [by intros []|]. apply quietly_bind; [|intros ?; case_ifs; by intros []].
  intros [p pth]. by destruct (Pop rnd _).
Qed.

Lemma quietly_crypto : packs_quietly (packCryptoPacket now rnd).
Proof.
  unfold packCryptoPacket. apply quietly_bind; [by intros []|]. intros p.
  apply quietly_bind; [by intros []|]. intros pth. destruct (GetSealerForCryptoStream _).
  apply quietly_bind; [apply quietly_lift|]. intros len. apply quietly_bind.
  - apply quietly_framing. intros c f. destruct (PopCryptoStreamFrame _ _ _) eqn:E. by eapply PopCrypto_queue.
  - intros [f|]; [apply quietly_packed|apply quietly_lift].
Qed.

Lemma PackPing_quiet pf lu p pth : quiet p (PackPing now rnd pf lu (p, pth)).2.1.
Proof.
  unfold PackPing, PackPacket. cbv [mbind packing_bind]. unfold framing_op. cbn.
  destruct (HasCryptoStreamFrame _ _) as [r f] eqn:Ef; apply HasCrypto_queue in Ef.
  set (p1 := set_framer (set_control p (FPing pf :: controlFrames p)) f).
  assert (quiet p p1) as Hp1 by (split_and!; [done..|by constructor]).
  destruct r as [[]|e|e]; [| |done..].
  - pose proof (quietly_crypto (p1, SetLeastUnacked pth lu)) as Hq.
    destruct (packCryptoPacket _ _ _) as [[pk|e|e] st]; cbn in *; by eapply quiet_trans.
  - cbn [getPacker getPath fst snd]. destruct (GetSealer _) as [level sealer].
    destruct (PublicHeader_GetLength _ _); cbn; [|done..].
    match goal with |- context [number_stop_waiting ?h ?id ?q] =>
      destruct (number_stop_waiting_facts h id q) as (K & A & Q & Hc); set (p2 := number_stop_waiting h id q) in * end.
    rewrite (payload_frames_ping _ _ p2 _ pf (controlFrames p)) by done. cbn [length Nat.eqb fst snd andb].
    assert (quiet p (set_control p2 (controlFrames p))) as Hp2.
    { split_and!; [exact (eq_trans Q Ef)|exact (keeps_setup_trans _ _ _ (proj1 (proj2 Hp1)) K)|done]. }
    destruct (bool_decide _); cbn [fst snd]; [done|].
    match goal with |- context [packed now rnd ?h ?fs ?l ?sl ?st] =>
      pose proof (quietly_packed h fs l sl st) as Hq; destruct (packed now rnd h fs l sl st) as [[pk|e|e] st'] end;
      cbn in *; (eapply quiet_trans; [exact Hp2|exact Hq]).
Qed.

End PackFacts.
