(* ===== verification/Paths.v ===== *)
(** * Paths and the state of a session

    path.go, path_manager.go and the state of session.go, with the operations everything else is built
    from: a path owns its sent and received packet handlers, its packet numbers and its RTT
    statistics; the session owns the paths, the packer -- which holds the stream framer, the streams
    map and the flow control manager -- and what its event loop keeps.

    The session's RTT statistics are those of the initial path (the code shares the pointer), so there
    is no field for them.  Channels of capacity one that only signal are booleans, the channel of
    received packets is a list.  The congestion controller is any instance of [SendAlgorithm]; what
    OLIA does to the controllers of the other paths is a step of its own in the event loop. *)

From stdpp Require Import pretty.
From S2P Require Import Prelude ByteOrder Protocol Frames StreamFrame AckFrame ClosePathFrame PublicHeader Unpacker.
From S2P Require Import ReceivedPackets FlowControl Stream StreamScheduler StreamsMap PathScheduler StreamFramer.
From S2P Require Import Congestion SentPackets Handshake ConnectionParameters Packer.

(** ** Addresses, configuration, packets *)

(** A UDP address: the bytes of the IP address, and the port.  Two addresses print alike if they
    agree after IPv4 addresses in IPv6 form are shortened. *)
Definition address : Type := list Z * Z.

Definition address_String (a : address) : address := (default a.1 (To4 a.1), a.2).

Definition getIPVersion (ip : list Z) : Z := if bool_decide (is_Some (To4 ip)) then 4 else 6.

Record Config : Type := mkConfig {
  HandshakeTimeout : Z;
  KeepAlive : bool;
}.

Record receivedPacket : Type := mkReceived {
  rp_remoteAddr : address;
  rp_publicHeader : PublicHeader;
  rp_data : list Z;
  rp_rcvTime : Z;
  rp_rcvPconn : address;
}.

Record closeError : Type := mkCloseError {
  ce_err : option error;
  ce_remote : bool;
}.

Record pathManager : Type := mkPathManager {
  pm_localAddrs : list address;
  nxtPathID : Z;
  remoteAddrs4 : list address;
  remoteAddrs6 : list address;
  advertisedLocAddrs : list address;
  pm_launched : bool;
}.

(** What a session did that its state does not show: the packets and other datagrams it wrote to the
    socket of a path, the acknowledgements it was given, and the paths its manager created. *)
Inductive entry : Type :=
| Created (id : Z)
| Wrote (id : Z) (packet : packedPacket)
| WroteRaw (id : Z) (bytes : list Z)
| GotAck (f : AckFrame)
| GotClose (f : ClosePathFrame).

Definition DecryptionFailure : Z := 12.
Definition MaxUndecryptablePackets : Z := 10.
Definition MaxSessionUnprocessedPackets : Z := DefaultMaxCongestionWindow.
Definition minPathTimer : Z := 10 * Millisecond.
Definition maxPathTimer : Z := 1 * Second.

(** ** State *)

Section State.
Context {C : Type}.

(** The connection of a path is its local and its remote address.  [closeRequested] is what waits in
    the path's closeChan. *)
Record path : Type := mkPath {
  pathID : Z;
  conn : address * address;
  sph : sentPacketHandler C;
  rph : receivedPacketHandler;
  p_open : bool;
  closeRequested : bool;
  potentiallyFailed : bool;
  generator : packetNumberGenerator;
  lastRcvdPacketNumber : Z;
  largestRcvdPacketNumber : Z;
  leastUnacked : Z;
  lastNetworkActivityTime : Z;
}.

(** [closeChan] is the first reason to close, which closeOnce keeps; [log] is what the session wrote
    to the sockets and which acknowledgements it was given. *)
Record session : Type := mkSession {
  config : Config;
  paths : gmap Z path;
  closedPaths : gset Z;
  createPaths : bool;
  remoteRTTs : gmap Z Z;
  lastPathsFrameSent : Z;
  packer : packetPacker;
  peerBlocked : bool;
  receivedPackets : list receivedPacket;
  sendingScheduled : bool;
  closeChan : option closeError;
  undecryptablePackets : list receivedPacket;
  receivedTooManyUndecrytablePacketsTime : Z;
  handshakeComplete : bool;
  sessionCreationTime : Z;
  s_lastNetworkActivityTime : Z;
  keepAlivePingSent : bool;
  s_pathManager : option pathManager;
  s_scheduler : scheduler;
  log : list entry;
}.

Implicit Types (p : path) (s : session).

(** *** Field updates *)

Definition set_sph p (h : sentPacketHandler C) : path :=
  mkPath (pathID p) (conn p) h (rph p) (p_open p) (closeRequested p) (potentiallyFailed p) (generator p)
    (lastRcvdPacketNumber p) (largestRcvdPacketNumber p) (leastUnacked p) (lastNetworkActivityTime p).

Definition set_rph p (h : receivedPacketHandler) : path :=
  mkPath (pathID p) (conn p) (sph p) h (p_open p) (closeRequested p) (potentiallyFailed p) (generator p)
    (lastRcvdPacketNumber p) (largestRcvdPacketNumber p) (leastUnacked p) (lastNetworkActivityTime p).

Definition set_conn p (c : address * address) : path :=
  mkPath (pathID p) c (sph p) (rph p) (p_open p) (closeRequested p) (potentiallyFailed p) (generator p)
    (lastRcvdPacketNumber p) (largestRcvdPacketNumber p) (leastUnacked p) (lastNetworkActivityTime p).

Definition set_flags p (o : bool) (requested : bool) (failed : bool) : path :=
  mkPath (pathID p) (conn p) (sph p) (rph p) o requested failed (generator p) (lastRcvdPacketNumber p)
    (largestRcvdPacketNumber p) (leastUnacked p) (lastNetworkActivityTime p).

Definition set_numbering p (g : packetNumberGenerator) (least : Z) : path :=
  mkPath (pathID p) (conn p) (sph p) (rph p) (p_open p) (closeRequested p) (potentiallyFailed p) g
    (lastRcvdPacketNumber p) (largestRcvdPacketNumber p) least (lastNetworkActivityTime p).

Definition set_received p (last : Z) (largest : Z) (time : Z) : path :=
  mkPath (pathID p) (conn p) (sph p) (rph p) (p_open p) (closeRequested p) (potentiallyFailed p)
    (generator p) last largest (leastUnacked p) time.

Definition set_paths s (ps : gmap Z path) : session :=
  mkSession (config s) ps (closedPaths s) (createPaths s) (remoteRTTs s) (lastPathsFrameSent s)
    (packer s) (peerBlocked s) (receivedPackets s) (sendingScheduled s) (closeChan s)
    (undecryptablePackets s) (receivedTooManyUndecrytablePacketsTime s) (handshakeComplete s)
    (sessionCreationTime s) (s_lastNetworkActivityTime s) (keepAlivePingSent s) (s_pathManager s)
    (s_scheduler s) (log s).

Definition set_packer s (pk : packetPacker) : session :=
  mkSession (config s) (paths s) (closedPaths s) (createPaths s) (remoteRTTs s) (lastPathsFrameSent s) pk
    (peerBlocked s) (receivedPackets s) (sendingScheduled s) (closeChan s) (undecryptablePackets s)
    (receivedTooManyUndecrytablePacketsTime s) (handshakeComplete s) (sessionCreationTime s)
    (s_lastNetworkActivityTime s) (keepAlivePingSent s) (s_pathManager s) (s_scheduler s) (log s).

Definition set_remote s (closed : gset Z) (rtts : gmap Z Z) : session :=
  mkSession (config s) (paths s) closed (createPaths s) rtts (lastPathsFrameSent s) (packer s)
    (peerBlocked s) (receivedPackets s) (sendingScheduled s) (closeChan s) (undecryptablePackets s)
    (receivedTooManyUndecrytablePacketsTime s) (handshakeComplete s) (sessionCreationTime s)
    (s_lastNetworkActivityTime s) (keepAlivePingSent s) (s_pathManager s) (s_scheduler s) (log s).

Definition set_blocked s (b : bool) : session :=
  mkSession (config s) (paths s) (closedPaths s) (createPaths s) (remoteRTTs s) (lastPathsFrameSent s)
    (packer s) b (receivedPackets s) (sendingScheduled s) (closeChan s) (undecryptablePackets s)
    (receivedTooManyUndecrytablePacketsTime s) (handshakeComplete s) (sessionCreationTime s)
    (s_lastNetworkActivityTime s) (keepAlivePingSent s) (s_pathManager s) (s_scheduler s) (log s).

Definition set_pathsFrameSent s (t : Z) : session :=
  mkSession (config s) (paths s) (closedPaths s) (createPaths s) (remoteRTTs s) t (packer s)
    (peerBlocked s) (receivedPackets s) (sendingScheduled s) (closeChan s) (undecryptablePackets s)
    (receivedTooManyUndecrytablePacketsTime s) (handshakeComplete s) (sessionCreationTime s)
    (s_lastNetworkActivityTime s) (keepAlivePingSent s) (s_pathManager s) (s_scheduler s) (log s).

Definition set_queues s (received : list receivedPacket) (scheduled : bool) : session :=
  mkSession (config s) (paths s) (closedPaths s) (createPaths s) (remoteRTTs s) (lastPathsFrameSent s)
    (packer s) (peerBlocked s) received scheduled (closeChan s) (undecryptablePackets s)
    (receivedTooManyUndecrytablePacketsTime s) (handshakeComplete s) (sessionCreationTime s)
    (s_lastNetworkActivityTime s) (keepAlivePingSent s) (s_pathManager s) (s_scheduler s) (log s).

Definition set_close s (c : option closeError) : session :=
  mkSession (config s) (paths s) (closedPaths s) (createPaths s) (remoteRTTs s) (lastPathsFrameSent s)
    (packer s) (peerBlocked s) (receivedPackets s) (sendingScheduled s) c (undecryptablePackets s)
    (receivedTooManyUndecrytablePacketsTime s) (handshakeComplete s) (sessionCreationTime s)
    (s_lastNetworkActivityTime s) (keepAlivePingSent s) (s_pathManager s) (s_scheduler s) (log s).

Definition set_undecryptable s (l : list receivedPacket) (t : Z) : session :=
  mkSession (config s) (paths s) (closedPaths s) (createPaths s) (remoteRTTs s) (lastPathsFrameSent s)
    (packer s) (peerBlocked s) (receivedPackets s) (sendingScheduled s) (closeChan s) l t
    (handshakeComplete s) (sessionCreationTime s) (s_lastNetworkActivityTime s) (keepAlivePingSent s)
    (s_pathManager s) (s_scheduler s) (log s).

Definition set_activity s (t : Z) (ping : bool) : session :=
  mkSession (config s) (paths s) (closedPaths s) (createPaths s) (remoteRTTs s) (lastPathsFrameSent s)
    (packer s) (peerBlocked s) (receivedPackets s) (sendingScheduled s) (closeChan s)
    (undecryptablePackets s) (receivedTooManyUndecrytablePacketsTime s) (handshakeComplete s)
    (sessionCreationTime s) t ping (s_pathManager s) (s_scheduler s) (log s).

Definition set_handshake s (b : bool) : session :=
  mkSession (config s) (paths s) (closedPaths s) (createPaths s) (remoteRTTs s) (lastPathsFrameSent s)
    (packer s) (peerBlocked s) (receivedPackets s) (sendingScheduled s) (closeChan s)
    (undecryptablePackets s) (receivedTooManyUndecrytablePacketsTime s) b (sessionCreationTime s)
    (s_lastNetworkActivityTime s) (keepAlivePingSent s) (s_pathManager s) (s_scheduler s) (log s).

Definition set_manager s (pm : option pathManager) : session :=
  mkSession (config s) (paths s) (closedPaths s) (createPaths s) (remoteRTTs s) (lastPathsFrameSent s)
    (packer s) (peerBlocked s) (receivedPackets s) (sendingScheduled s) (closeChan s)
    (undecryptablePackets s) (receivedTooManyUndecrytablePacketsTime s) (handshakeComplete s)
    (sessionCreationTime s) (s_lastNetworkActivityTime s) (keepAlivePingSent s) pm (s_scheduler s)
    (log s).

Definition set_scheduler s (sch : scheduler) : session :=
  mkSession (config s) (paths s) (closedPaths s) (createPaths s) (remoteRTTs s) (lastPathsFrameSent s)
    (packer s) (peerBlocked s) (receivedPackets s) (sendingScheduled s) (closeChan s)
    (undecryptablePackets s) (receivedTooManyUndecrytablePacketsTime s) (handshakeComplete s)
    (sessionCreationTime s) (s_lastNetworkActivityTime s) (keepAlivePingSent s) (s_pathManager s) sch
    (log s).

Definition set_log s (n : list entry) : session :=
  mkSession (config s) (paths s) (closedPaths s) (createPaths s) (remoteRTTs s) (lastPathsFrameSent s)
    (packer s) (peerBlocked s) (receivedPackets s) (sendingScheduled s) (closeChan s)
    (undecryptablePackets s) (receivedTooManyUndecrytablePacketsTime s) (handshakeComplete s)
    (sessionCreationTime s) (s_lastNetworkActivityTime s) (keepAlivePingSent s) (s_pathManager s)
    (s_scheduler s) n.

End State.
Arguments path : clear implicits.
Arguments session : clear implicits.

(** ** Actions of a session

    The environment of a step: the clock, the random bytes, the order in which the runtime ranges over
    the maps of paths and of flow controllers (the number says which loop), the answer of the sockets,
    and the keys and names of the handshake. *)
Record world (C : Type) : Type := mkWorld {
  now : Z;
  rnd : random_bytes;
  visit : Z → gmap Z (path C) → list Z;
  visit_streams : gmap Z flowController → list Z;
  conn_Write : Z → list Z → option error;
  code_String : Z → string;
  aead_Open : list Z → Z → list Z → result (list Z * Z);
  newController : Z → C;
}.
Arguments now {C}.
Arguments rnd {C}.
Arguments visit {C}.
Arguments visit_streams {C}.
Arguments conn_Write {C}.
Arguments code_String {C}.
Arguments aead_Open {C}.
Arguments newController {C}.

(** A step changes the session, also when it returns an error. *)
Definition action (C A : Type) : Type := session C → result A * session C.

#[export] Instance action_ret {C} : MRet (action C) := λ A a s, (Ok a, s).
#[export] Instance action_bind {C} : MBind (action C) := λ A B f m s,
  match m s with
  | (Ok a, s) => f a s
  | (Err e, s) => (Err e, s)
  | (Panic w, s) => (Panic w, s)
  end.

Definition get {C} : action C (session C) := λ s, (Ok s, s).
Definition upd {C} (g : session C → session C) : action C unit := λ s, (Ok tt, g s).
Definition ret {C A} (r : result A) : action C A := λ s, (r, s).
Definition skip {C} : action C unit := mret tt.

(** An optional error. *)
Definition check {C} (e : option error) : action C unit :=
  ret (match e with Some e => Err e | None => Ok tt end).

Fixpoint each {C A} (f : A → action C unit) (l : list A) : action C unit :=
  match l with
  | [] => skip
  | a :: l => _ ← f a; each f l
  end.

Section Operations.
Context {C : Type} `{SendAlgorithm C} (w : world C).
Implicit Types (s : session C) (p : path C).

Definition put_path s p : session C := set_paths s (<[pathID p := p]> (paths s)).

(** The path with this ID; a missing one is a nil pointer, whose use panics. *)
Definition find_path (id : Z) : action C (path C) := λ s,
  match paths s !! id with
  | Some p => (Ok p, s)
  | None => (Panic "nil pointer dereference", s)
  end.

(** The state of a component inside the session. *)
Definition framer s : streamFramer := pp_streamFramer (packer s).
Definition with_framer s (f : streamFramer) : session C := set_packer s (set_framer (packer s) f).
Definition params s : connectionParametersManager := pp_connectionParameters (packer s).
Definition with_fcm s (fcm : flowControlManager) : session C :=
  let f := framer s in
  with_framer s (set_data f (sf_streamsMap f) fcm (retransmissionQueue f) (blockedFrameQueue f)).
Definition with_streams s (m : streamsMap) : session C :=
  let f := framer s in
  with_framer s (set_data f m (sf_fcm f) (retransmissionQueue f) (blockedFrameQueue f)).

(** ** path.go *)

(** What the path scheduler reads of a path. *)
Definition path_view p : PathScheduler.path :=
  PathScheduler.mkPath (pathID p) (p_open p) (SentPackets.SendingAllowed (sph p))
    (smoothedRTT (rttStats (sph p))) (meanDeviation (rttStats (sph p)))
    (Congestion.GetCongestionWindow (congestion (sph p))) (potentiallyFailed p).

(** A new path; the controller is Cubic for the initial path and OLIA for the others. *)
Definition path_setup (s : session C) (id : Z) (c : address * address) : path C :=
  mkPath id c (NewSentPacketHandler zeroRTTStats (newController w id))
    (NewReceivedPacketHandler (pp_version (packer s))) true false false
    (newPacketNumberGenerator SkipPacketAveragePeriodLength) 0 0 0 (now w).

(** The goroutine of the path closes it when it is asked to. *)
Definition path_close p : path C := set_flags p false false (potentiallyFailed p).

Definition path_GetAckFrame (id : Z) : action C (option AckFrame) :=
  p ← find_path id;
  '(ack, h) ← ret (GetAckFrame (now w) (rph p));
  _ ← upd (λ s, put_path s (set_rph p h));
  mret ((λ a, mkAckFrame (pathID p) (ack_LargestAcked a) (ack_LowestAcked a) (ack_AckRanges a)
                (ack_PacketReceivedTime a) (ack_DelayTime a)) <$> ack).

Definition path_GetStopWaitingFrame (id : Z) (force : bool) : action C (option StopWaitingFrame) :=
  p ← find_path id;
  let '(swf, h) := SentPackets.GetStopWaitingFrame (sph p) force in
  _ ← upd (λ s, put_path s (set_sph p h));
  mret swf.

Definition path_idleTimeout s p : Z :=
  if p_open p && (negb (pathID p =? 0) || handshakeComplete s)
  then idleConnectionStateLifetime (params s)
  else HandshakeTimeout (config s).

(** The time the path's timer is set to. *)
Definition path_maybeResetTimer s p : Z :=
  let deadline := lastNetworkActivityTime p + path_idleTimeout s p in
  let deadline := if negb (rph_GetAlarmTimeout (rph p) =? 0) then rph_GetAlarmTimeout (rph p) else deadline in
  let deadline := if negb (alarm (sph p) =? 0) then Z.min deadline (alarm (sph p)) else deadline in
  Z.min (Z.max deadline (now w + minPathTimer)) (now w + maxPathTimer).

(** The paths in the order of a loop over them. *)
Definition in_order s (k : Z) : list (Z * PathScheduler.path) :=
  omap (λ id, (λ p, (id, path_view p)) <$> paths s !! id) (visit w k (paths s)).

(** ** Sending *)

(** What the packer reads and changes of a path. *)
Definition packet_path s p : packetPath :=
  mkPacketPath (pathID p) (generator p) (leastUnacked p) (handshakeComplete s).

Definition pack {A} (id : Z) (m : packing A) : action C A := λ s,
  match paths s !! id with
  | None => (Panic "nil pointer dereference", s)
  | Some p =>
      let '(r, (pk, pth)) := m (packer s, packet_path s p) in
      (r, set_packer (put_path s (set_numbering p (pth_generator pth) (pth_leastUnacked pth))) pk)
  end.

Definition note (e : entry) : action C unit := upd (λ s, set_log s (log s ++ [e])).

Definition queue_frame (f : frame) (id : Z) : action C unit :=
  upd (λ s, set_packer s (QueueControlFrame (packer s) f id)).

Definition scheduleSending : action C unit := upd (λ s, set_queues s (receivedPackets s) true).

Definition schedulePathsFrame : action C unit := upd (λ s,
  let s := set_pathsFrameSent s (now w) in
  with_framer s (AddPathsFrameForTransmission (framer s) (in_order s 0))).

(** The packet as the sent packet handler sees it. *)
Definition sent_packet (packet : packedPacket) : Packet :=
  mkPacket (pk_number packet) (pk_frames packet) (Z.of_nat (length (pk_raw packet)))
    (pk_encryptionLevel packet) 0.

Definition sendPackedPacket (packet : packedPacket) (id : Z) : action C unit :=
  p ← find_path id;
  let '(e, h) := SentPacket (now w) (sph p) (sent_packet packet) in
  _ ← upd (λ s, put_path s (set_sph p h));
  _ ← check e;
  _ ← note (Wrote id packet);
  check (conn_Write w id (pk_raw packet)).

Definition errPing : error := ErrorString "Session BUG: expected ping packet not to be nil".

Definition sendPing (id : Z) : action C unit :=
  p ← find_path id;
  packet ← pack id (PackPing (now w) (rnd w) mkPingFrame (GetLeastUnacked (sph p)));
  match packet with
  | None => ret (Err errPing)
  | Some packet => sendPackedPacket packet id
  end.

(** ** path_manager.go *)

Definition pm_setup (pers : Perspective) (localAddrs : list address) (remote : option address)
  : pathManager :=
  let next := match pers with PerspectiveClient => 1 | PerspectiveServer => 2 end in
  let '(r4, r6) := match remote with
                   | Some a => if getIPVersion a.1 =? 4 then ([a], []) else ([], [a])
                   | None => ([], [])
                   end in
  mkPathManager localAddrs next r4 r6 [] false.

Definition set_next (pm : pathManager) (next : Z) : pathManager :=
  mkPathManager (pm_localAddrs pm) next (remoteAddrs4 pm) (remoteAddrs6 pm) (advertisedLocAddrs pm)
    (pm_launched pm).

Definition set_addrs (pm : pathManager) (r4 r6 advertised : list address) : pathManager :=
  mkPathManager (pm_localAddrs pm) (nxtPathID pm) r4 r6 advertised (pm_launched pm).

Definition path_manager : action C pathManager := λ s,
  match s_pathManager s with
  | Some pm => (Ok pm, s)
  | None => (Panic "nil pointer dereference", s)
  end.

Definition advertise (loc : address) : action C unit :=
  pm ← path_manager;
  if bool_decide (address_String loc ∈ address_String <$> advertisedLocAddrs pm) then skip
  else upd (λ s,
    set_manager (with_framer s (AddAddressForTransmission (framer s) (getIPVersion loc.1) loc.1 loc.2))
      (Some (set_addrs pm (remoteAddrs4 pm) (remoteAddrs6 pm) (loc :: advertisedLocAddrs pm)))).

Definition advertiseAddresses : action C unit :=
  pm ← path_manager; each advertise (pm_localAddrs pm).

(** Whether there is a path between two addresses. *)
Definition connects (loc rem : address) (p : path C) : bool :=
  bool_decide (address_String loc = address_String (conn p).1)
  && bool_decide (address_String rem = address_String (conn p).2).

Definition createPath (loc rem : address) : action C unit :=
  s ← get;
  if existsb (λ e, connects loc rem e.2) (map_to_list (paths s)) then skip
  else
    pm ← path_manager;
    let id := nxtPathID pm in
    _ ← upd (λ s, set_manager (set_paths s (<[id := path_setup s id (loc, rem)]> (paths s)))
                    (Some (set_next pm (u8 (id + 2)))));
    _ ← note (Created id);
    sendPing id.

Definition create_from (loc : address) : action C unit :=
  pm ← path_manager;
  each (createPath loc) (if getIPVersion loc.1 =? 4 then remoteAddrs4 pm else remoteAddrs6 pm).

Definition pm_createPaths : action C unit :=
  s ← get;
  match pp_perspective (packer s) with
  | PerspectiveServer => advertiseAddresses
  | PerspectiveClient =>
      pm ← path_manager; _ ← each create_from (pm_localAddrs pm); schedulePathsFrame
  end.

Definition errPathExists : error := ErrorString "trying to create already existing path".
Definition errOddPath : error := ErrorString "server tries to create odd pathID".
Definition errEvenPath : error := ErrorString "client tries to create even pathID".

Definition createPathFromRemote (pkt : receivedPacket) : action C unit :=
  _ ← path_manager;
  s ← get;
  let id := hdr_PathID (rp_publicHeader pkt) in
  if bool_decide (is_Some (paths s !! id)) then ret (Err errPathExists)
  else match pp_perspective (packer s), id mod 2 =? 0 with
       | PerspectiveClient, false => ret (Err errOddPath)
       | PerspectiveServer, true => ret (Err errEvenPath)
       | _, _ => upd (λ s, set_paths s
                   (<[id := path_setup s id (rp_rcvPconn pkt, rp_remoteAddr pkt)]> (paths s)))
       end.

Definition handleAddAddressFrame (f : AddAddressFrame) : action C unit :=
  pm ← path_manager;
  let a := (aa_IP f, aa_Port f) in
  _ ← (if aa_IPVersion f =? 4
       then upd (λ s, set_manager s (Some (set_addrs pm (remoteAddrs4 pm ++ [a]) (remoteAddrs6 pm) (advertisedLocAddrs pm))))
       else if aa_IPVersion f =? 6
       then upd (λ s, set_manager s (Some (set_addrs pm (remoteAddrs4 pm) (remoteAddrs6 pm ++ [a]) (advertisedLocAddrs pm))))
       else ret (Err ErrUnknownIPVersion));
  s ← get;
  if createPaths s then pm_createPaths else skip.

(** Asking the goroutine of an open path to close it. *)
Definition request_close p : path C :=
  if p_open p then set_flags p (p_open p) true (potentiallyFailed p) else p.

Definition pm_closePath (id : Z) : action C unit := upd (λ s,
  set_paths s (alter request_close id (paths s))).

Definition pm_closePaths : action C unit := upd (λ s, set_paths s (request_close <$> paths s)).

End Operations.

(** ** Reasoning about actions *)

Lemma bind_ok {C A B} (m : action C A) (f : A → action C B) s b s' :
  (m ≫= f) s = (Ok b, s') → ∃ a s1, m s = (Ok a, s1) ∧ f a s1 = (Ok b, s').
Proof. cbv [mbind action_bind]. destruct (m s) as [[a|e|e] s1]; intros E; [by eauto|done..]. Qed.

Lemma find_path_ok {C} id (s : session C) p s' : find_path id s = (Ok p, s') → paths s !! id = Some p ∧ s' = s.
Proof. unfold find_path. destruct (paths s !! id); naive_solver. Qed.

Lemma check_ok {C} e (s : session C) a s' : check e s = (Ok a, s') → e = None ∧ s' = s.
Proof. unfold check, ret. destruct e; naive_solver. Qed.

Lemma pack_ok {C A} id (m : packing A) (s : session C) a s' :
  pack id m s = (Ok a, s') → ∃ p pk pth,
    paths s !! id = Some p ∧ m (packer s, packet_path s p) = (Ok a, (pk, pth)) ∧
    s' = set_packer (put_path s (set_numbering p (pth_generator pth) (pth_leastUnacked pth))) pk.
Proof.
  unfold pack. destruct (paths s !! id) as [p|] eqn:Ep; [|done].
  destruct (m _) as [r [pk pth]] eqn:Em. intros [= -> <-]. by exists p, pk, pth.
Qed.

(** A successful run of an action, step by step. *)
Ltac run_ok :=
  repeat match goal with
  | E : (_ ≫= _) _ = (Ok _, _) |- _ => apply bind_ok in E as (? & ? & ? & E)
  | E : find_path _ _ = (Ok _, _) |- _ => apply find_path_ok in E as [? ->]
  | E : check _ _ = (Ok _, _) |- _ => apply check_ok in E as [? ->]
  | E : get _ = (Ok _, _) |- _ => injection E as <- <-
  | E : upd _ _ = (Ok _, _) |- _ => injection E as <- <-
  | E : skip _ = (Ok _, _) |- _ => injection E as <- <-
  | E : note _ _ = (Ok _, _) |- _ => injection E as <- <-
  | E : queue_frame _ _ _ = (Ok _, _) |- _ => injection E as <- <-
  | E : ret _ _ = (Ok _, _) |- _ => injection E as E <-
  | E : mret _ _ = (Ok _, _) |- _ => injection E as <- <-
  | E : match ?x with (_, _) => _ end _ = (Ok _, _) |- _ => is_var x; destruct x
  | E : match ?x with (_, _) => _ end _ = (Ok _, _) |- _ => destruct x eqn:?
  end.

Lemma each_ok {C A} (f : A → action C unit) (P : session C → Prop) l s a s' :
  (∀ x s u s1, P s → x ∈ l → f x s = (Ok u, s1) → P s1) → P s → each f l s = (Ok a, s') → P s'.
Proof.
  revert s. induction l as [|x l IH]; intros s Hf Hs E; cbn [each] in E; run_ok; [done|].
  eapply IH; [|by eapply Hf; [done|left|done]|done]. intros; eapply Hf; [done|by right|done].
Qed.

Section ActionLemmas.
Context {C : Type} `{SendAlgorithm C} (w : world C).
Implicit Types (s : session C) (p : path C).

Lemma path_GetAckFrame_ok id s ack s' :
  path_GetAckFrame w id s = (Ok ack, s') → ∃ p oa h,
    paths s !! id = Some p ∧ GetAckFrame (now w) (rph p) = Ok (oa, h) ∧ s' = put_path s (set_rph p h) ∧
    match oa with Some _ => is_Some ack | None => ack = None end.
Proof.
  unfold path_GetAckFrame. intros E. run_ok. eexists _, _, _. split_and!; [done..|].
  match goal with |- match ?o with _ => _ end => destruct o end; cbn; eauto.
Qed.

Lemma path_GetStopWaitingFrame_ok id force s swf s' :
  path_GetStopWaitingFrame id force s = (Ok swf, s') → ∃ p,
    paths s !! id = Some p ∧ s' = put_path s (set_sph p (SentPackets.GetStopWaitingFrame (sph p) force).2).
Proof.
  unfold path_GetStopWaitingFrame. intros E. run_ok. eexists. split; [done|].
  match goal with E : SentPackets.GetStopWaitingFrame _ _ = _ |- _ => by rewrite E end.
Qed.

Lemma sendPackedPacket_ok pk id s u s' :
  sendPackedPacket w pk id s = (Ok u, s') → ∃ p h,
    paths s !! id = Some p ∧ SentPacket (now w) (sph p) (sent_packet pk) = (None, h) ∧
    s' = set_log (put_path s (set_sph p h)) (log s ++ [Wrote id pk]).
Proof. unfold sendPackedPacket. intros E. run_ok. subst. by eexists _, _. Qed.

End ActionLemmas.
