(* ===== verification/Session.v ===== *)
(** * The session: handling received packets

    session.go: a received packet goes to its path, which may be new, is unpacked there, and its
    frames are dispatched to the streams, the flow controllers, the handlers of sent and received
    packets and the path manager. *)

From stdpp Require Import pretty.
From S2P Require Import Prelude ByteOrder Protocol Frames StreamFrame AckFrame ClosePathFrame PublicHeader Unpacker.
From S2P Require Import ReceivedPackets FlowControl Stream StreamScheduler StreamsMap PathScheduler StreamFramer.
From S2P Require Import Congestion SentPackets Handshake ConnectionParameters Packer Paths.

Definition errRstStreamOnInvalidStream : error := ErrorString "RST_STREAM received for unknown stream".
Definition errWindowUpdateOnClosedStream : error :=
  ErrorString "WINDOW_UPDATE received for an already closed stream".
Definition errGoaway : error := ErrorString "unimplemented: handling GOAWAY frames".
Definition errUnknownPath : error := ErrorString "Unknown path ID to close".

Definition bytes_string (l : list Z) : string :=
  foldr (λ b t, String (Ascii.ascii_of_nat (Z.to_nat b)) t) "" l.

Section Handlers.
Context {C : Type} `{SendAlgorithm C} (w : world C).
Implicit Types (s : session C) (p : path C).

(** ** Streams *)

(** The streams map calls newStream for every stream it opens: the flow control manager gets a
    controller for it, which counts for the connection unless it is the crypto or the header
    stream. *)
Definition session_newStream (ps : flowParameters) (fcm : flowControlManager) (id : Z) : flowControlManager :=
  fcm_NewStream ps fcm id (negb ((id =? 1) || (id =? 3))).

(** An operation of the streams map; the streams it opens are at the end of its list. *)
Definition on_streams {A} (op : streamLimits → streamsMap → A * streamsMap) (s : session C) : A * session C :=
  let m := sf_streamsMap (framer s) in
  let '(r, m') := op (stream_limits (params s)) m in
  let opened := drop (length (sm_openStreams m)) (sm_openStreams m') in
  let fcm := foldl (session_newStream (flow_parameters (params s))) (sf_fcm (framer s)) opened in
  (r, with_fcm (with_streams s m') fcm).

Definition session_GetOrOpenStream (id : Z) : action C (option Z) :=
  on_streams (λ limits m, GetOrOpenStream limits m id).

Definition session_OpenStream : action C Z := on_streams OpenStream.

Definition session_OpenStreamSync (s : session C) : option (result Z) * session C :=
  on_streams OpenStreamSync s.

Definition session_AcceptStream (s : session C) : option (result Z) * session C :=
  on_streams (λ _, AcceptStream) s.

(** An operation of a stream, with the flow control manager. *)
Definition on_stream {A} (id : Z) (op : stream → flowControlManager → result A * stream * flowControlManager)
  : action C A := λ s,
  match store (sf_streamsMap (framer s)) !! id with
  | None => (Panic "nil pointer dereference", s)
  | Some st => let '(r, st, fcm) := op st (sf_fcm (framer s)) in
               (r, with_fcm (with_framer s (put_stream (framer s) st)) fcm)
  end.

(** The RST_STREAM frame of a stream that was reset, on the initial path. *)
Definition queueResetStreamFrame (id offset : Z) : action C unit :=
  _ ← queue_frame (FRstStream {| rst_StreamID := id; rst_ErrorCode := 0; rst_ByteOffset := offset |}) InitialPathID;
  scheduleSending.

Definition handleStreamFrame (f : StreamFrame) : action C unit :=
  str ← session_GetOrOpenStream (StreamID f);
  match str with
  | None => skip
  | Some id => on_stream id (λ st fcm, AddStreamFrame st fcm f)
  end.

Definition handleWindowUpdateFrame (f : WindowUpdateFrame) : action C unit :=
  _ ← (if wu_StreamID f =? 0 then skip
       else str ← session_GetOrOpenStream (wu_StreamID f);
            match str with
            | None => ret (Err errWindowUpdateOnClosedStream)
            | Some _ => skip
            end);
  s ← get;
  '(_, fcm) ← ret (UpdateWindow (sf_fcm (framer s)) (wu_StreamID f) (wu_ByteOffset f));
  upd (λ s, with_fcm s fcm).

Definition errRemoteReset (code : Z) : error := ErrorString ("RST_STREAM received with code " ++ pretty code).

Definition handleRstStreamFrame (f : RstStreamFrame) : action C unit :=
  str ← session_GetOrOpenStream (rst_StreamID f);
  match str with
  | None => ret (Err errRstStreamOnInvalidStream)
  | Some id =>
      reset ← on_stream id (λ st fcm,
        let '(r, st) := RegisterRemoteError st (errRemoteReset (rst_ErrorCode f)) in (Ok r, st, fcm));
      _ ← match reset with Some (id, offset) => queueResetStreamFrame id offset | None => skip end;
      s ← get;
      let '(e, fcm) := ResetStream (sf_fcm (framer s)) (rst_StreamID f) (rst_ByteOffset f) in
      _ ← upd (λ s, with_fcm s fcm);
      check e
  end.

(** ** Acknowledgements and paths *)

(** The session's RTT statistics are those of the initial path. *)
Definition raise_session_rtt (rtt : Z) : action C unit :=
  p0 ← find_path InitialPathID;
  let h := sph p0 in
  if rtt >? smoothedRTT (rttStats h)
  then upd (λ s, put_path s (set_sph p0 (set_congestion h (congestion h) (UpdateSessionRTT (rttStats h) rtt))))
  else skip.

Definition handleAckFrame (f : AckFrame) : action C unit :=
  p ← find_path (ack_PathID f);
  _ ← note (GotAck f);
  let '(e, h) := ReceivedAck (now w) (sph p) f (lastRcvdPacketNumber p) (lastNetworkActivityTime p) in
  _ ← upd (λ s, put_path s (set_sph p h));
  _ ← check e;
  raise_session_rtt (smoothedRTT (rttStats h)).

Definition closePath (id : Z) (sendClosePathFrame : bool) : action C unit :=
  s ← get;
  match paths s !! id with
  | None => ret (Err errUnknownPath)
  | Some _ =>
      if bool_decide (id ∈ closedPaths s) then skip
      else
        _ ← (if bool_decide (is_Some (s_pathManager s)) then pm_closePath id else skip);
        _ ← upd (λ s, set_remote s ({[id]} ∪ closedPaths s) (remoteRTTs s));
        if negb sendClosePathFrame then skip
        else
          p ← find_path id;
          _ ← upd (λ s, put_path s (set_sph p (SetInflightAsLost (now w) (sph p))));
          f ← ret (GetClosePathFrame (rph p));
          upd (λ s, with_framer s (AddClosePathFrameForTransmission (framer s)
            (mkClosePathFrame id (cp_LargestAcked f) (cp_LowestAcked f) (cp_AckRanges f))))
  end.

Definition handleClosePathFrame (f : ClosePathFrame) : action C unit :=
  _ ← closePath (cp_PathID f) false;
  p ← find_path (cp_PathID f);
  _ ← note (GotClose f);
  let '(e, h) := ReceivedClosePath (now w) (sph p) f (lastRcvdPacketNumber p) in
  _ ← upd (λ s, put_path s (set_sph p h));
  check e.

Definition failed_rtt : Z := 30 * 60 * Second.

(** The RTTs the peer reports; half an hour and more marks a path as failed. *)
Fixpoint remote_rtts (n : nat) (ids rtts : list Z) : action C unit :=
  match n, ids, rtts with
  | O, _, _ => skip
  | S n, id :: ids, rtt :: rtts =>
      _ ← upd (λ s, set_remote s (closedPaths s) (<[id := rtt]> (remoteRTTs s)));
      _ ← (if rtt >=? failed_rtt
           then upd (λ s, set_paths s (alter (λ p, set_flags p (p_open p) (closeRequested p) true) id (paths s)))
           else skip);
      remote_rtts n ids rtts
  | _, _, _ => ret (Panic "index out of range")
  end.

(** ** Closing *)

(** Only the first reason counts. *)
Definition close_once (c : closeError) : action C unit := upd (λ s,
  match closeChan s with Some _ => s | None => set_close s (Some c) end).

Definition closeLocal (e : option error) : action C unit := close_once (mkCloseError e false).
Definition closeRemote (e : error) : action C unit := close_once (mkCloseError (Some e) true).

(** ** Dispatching frames *)

Definition ignore_error {A} (m : action C A) : action C unit := λ s,
  match m s with
  | (Ok _, s) | (Err _, s) => (Ok tt, s)
  | (Panic e, s) => (Panic e, s)
  end.

(** A PATHS frame is scheduled whether or not there was an error. *)
Definition then_paths_frame (m : action C unit) : action C unit := λ s,
  match m s with
  | (Panic e, s) => (Panic e, s)
  | (r, s) => (r, (schedulePathsFrame w s).2)
  end.

Definition handleFrame (f : frame) (id : Z) : action C unit :=
  match f with
  | FStream f => handleStreamFrame f
  | FAck f => handleAckFrame f
  | FConnectionClose f => closeRemote (QuicError (cc_ErrorCode f) (bytes_string (cc_ReasonPhrase f)))
  | FGoaway _ => ret (Err errGoaway)
  | FStopWaiting f =>
      p ← find_path id;
      upd (λ s, put_path s (set_rph p (SetLowerLimit (rph p) (sw_LeastUnacked f -u64 1))))
  | FRstStream f => handleRstStreamFrame f
  | FWindowUpdate f => handleWindowUpdateFrame f
  | FBlocked _ => upd (λ s, set_blocked s true)
  | FPing _ => skip
  | FAddAddress f =>
      s ← get;
      match s_pathManager s with
      | None => skip
      | Some _ => then_paths_frame (handleAddAddressFrame w f)
      end
  | FClosePath f => ignore_error (handleClosePathFrame f)
  | FPaths f => remote_rtts (Z.to_nat (pf_NumPaths f)) (pf_PathIDs f) (pf_RemoteRTTs f)
  end.

Definition ignored (e : error) : bool :=
  bool_decide (e = ErrDuplicateOrOutOfOrderAck) || bool_decide (e = errRstStreamOnInvalidStream)
  || bool_decide (e = errWindowUpdateOnClosedStream).

Definition tolerate (m : action C unit) : action C unit := λ s,
  match m s with
  | (Err e, s) => if ignored e then (Ok tt, s) else (Err e, s)
  | r => r
  end.

Definition handleFrames (fs : list frame) (id : Z) : action C unit :=
  each (λ f, tolerate (handleFrame f id)) fs.

(** ** Packets *)

Definition is_decryption_failure (e : error) : bool :=
  match e with QuicError c _ => c =? DecryptionFailure | _ => false end.

(** The header of a packet with its packet number as the path infers it. *)
Definition infer_number p (hdr : PublicHeader) : PublicHeader :=
  numbered hdr (Raw hdr)
    (InferPacketNumber (PacketNumberLen hdr) (largestRcvdPacketNumber p) (PublicHeader.PacketNumber hdr)).

(** What a path notes of a packet that was opened. *)
Definition note_packet p (pn : Z) : path C :=
  set_received p pn (MaxPacketNumber (largestRcvdPacketNumber p) pn) (lastNetworkActivityTime p).

Definition path_handlePacketImpl (id : Z) (pkt : receivedPacket) : action C unit :=
  p ← find_path id;
  if negb (p_open p) then skip
  else
    let time := if rp_rcvTime pkt =? 0 then lastNetworkActivityTime p else rp_rcvTime pkt in
    let p := set_received p (lastRcvdPacketNumber p) (largestRcvdPacketNumber p) time in
    let p := set_flags p (p_open p) (closeRequested p) false in
    _ ← upd (λ s, put_path s p);
    s ← get;
    let hdr := infer_number p (rp_publicHeader pkt) in
    let p' := match pp_perspective (packer s) with
              | PerspectiveServer => set_conn p ((conn p).1, rp_remoteAddr pkt)
              | PerspectiveClient => p
              end in
    match Unpack (code_String w) (aead_Open w) (pp_version (packer s)) (Raw hdr) hdr (rp_data pkt) with
    | Panic e => ret (Panic e)
    | Err e =>
        _ ← (if is_decryption_failure e then skip else upd (λ s, put_path s p'));
        ret (Err e)
    | Ok packet =>
        let p := note_packet p' (PublicHeader.PacketNumber hdr) in
        let '(h, e) := rph_ReceivedPacket (now w) (rph p) (PublicHeader.PacketNumber hdr)
                         (HasRetransmittableFrames (frames packet)) in
        _ ← upd (λ s, put_path s (set_rph p h));
        _ ← check e;
        handleFrames (frames packet) id
    end.

(** The packet as it is after it was handled: the packet number in its header is the inferred one. *)
Definition renumbered s (pkt : receivedPacket) : receivedPacket :=
  let hdr := rp_publicHeader pkt in
  let largest := match paths s !! hdr_PathID hdr with Some p => largestRcvdPacketNumber p | None => 0 end in
  mkReceived (rp_remoteAddr pkt)
    (numbered hdr (Raw hdr) (InferPacketNumber (PacketNumberLen hdr) largest (PublicHeader.PacketNumber hdr)))
    (rp_data pkt) (rp_rcvTime pkt) (rp_rcvPconn pkt).

Definition timed (pkt : receivedPacket) : receivedPacket :=
  mkReceived (rp_remoteAddr pkt) (rp_publicHeader pkt) (rp_data pkt)
    (if rp_rcvTime pkt =? 0 then now w else rp_rcvTime pkt) (rp_rcvPconn pkt).

Definition handlePacketImpl (pkt : receivedPacket) : action C unit :=
  let pkt := timed pkt in
  _ ← upd (λ s, set_activity s (rp_rcvTime pkt) false);
  s ← get;
  let id := hdr_PathID (rp_publicHeader pkt) in
  _ ← match paths s !! id with
      | Some _ => skip
      | None => createPathFromRemote w pkt
      end;
  path_handlePacketImpl id pkt.

(** The channel of received packets drops what does not fit. *)
Definition handlePacket (pkt : receivedPacket) : action C unit := upd (λ s,
  if Z.of_nat (length (receivedPackets s)) <? MaxSessionUnprocessedPackets
  then set_queues s (receivedPackets s ++ [pkt]) (sendingScheduled s) else s).

Definition tryQueueingUndecryptablePacket (pkt : receivedPacket) : action C unit := upd (λ s,
  if handshakeComplete s then s
  else if Z.of_nat (length (undecryptablePackets s)) + 1 >? MaxUndecryptablePackets
  then if receivedTooManyUndecrytablePacketsTime s =? 0
       then set_undecryptable s (undecryptablePackets s) (now w) else s
  else set_undecryptable s (undecryptablePackets s ++ [pkt]) (receivedTooManyUndecrytablePacketsTime s)).

Definition tryDecryptingQueuedPackets : action C unit :=
  s ← get;
  _ ← each handlePacket (undecryptablePackets s);
  upd (λ s, set_undecryptable s [] (receivedTooManyUndecrytablePacketsTime s)).

(** ** Priorities *)

Definition with_stream_scheduler s (sch : option streamScheduler) : session C :=
  let m := sf_streamsMap (framer s) in with_streams s (with_store m (store m) sch).

(** An operation of the stream scheduler, if there is one. *)
Definition on_scheduler (op : streamScheduler → result (option error * streamScheduler)) : action C unit :=
  s ← get;
  match sm_scheduler (sf_streamsMap (framer s)) with
  | None => skip
  | Some sch => '(e, sch) ← ret (op sch); _ ← upd (λ s, with_stream_scheduler s (Some sch)); check e
  end.

Definition SetStreamPriority (id : Z) (priority : Priority) : action C unit :=
  _ ← on_scheduler (λ sch, maybeSetWeight sch id (StreamScheduler.Weight priority));
  on_scheduler (λ sch, maybeSetParent sch id (Dependency priority) (Exclusive priority)).

(** The error of an unknown stream is not returned. *)
Definition SetStreamActive (id : Z) : action C unit := ignore_error (on_scheduler (λ sch, setActive sch id)).

End Handlers.
