(* ===== verification/SendLoop.v ===== *)
(** * The sending loop and the event loop

    The sending half of path_scheduler.go -- retransmissions, window updates, acknowledgements, the
    loop over the packets -- and the event loop of session.go that drives it. *)

From S2P Require Import Prelude ByteOrder Protocol Frames StreamFrame AckFrame ClosePathFrame PublicHeader Unpacker.
From S2P Require Import ReceivedPackets FlowControl Stream StreamScheduler StreamsMap PathScheduler StreamFramer.
From S2P Require Import Congestion SentPackets Handshake ConnectionParameters Packer Crypto Transmission Paths Session.

(** ** Sums over maps *)

Section Sums.
Context {A : Type} (g : A → nat).

Definition msum (m : gmap Z A) : nat := map_fold (λ _ x n, (g x + n)%nat) 0%nat m.

Lemma msum_insert m i x : m !! i = None → msum (<[i := x]> m) = (g x + msum m)%nat.
Proof. intros Hi. unfold msum. rewrite map_fold_insert_L; [done| |done]. intros; lia. Qed.

Lemma msum_update m i x y : m !! i = Some x → (msum (<[i := y]> m) + g x)%nat = (msum m + g y)%nat.
Proof.
  intros Hi. rewrite <- (insert_delete_id m i x Hi) at 2. rewrite <- insert_delete_eq.
  rewrite !msum_insert by apply lookup_delete_eq. lia.
Qed.

Lemma msum_lookup m i x : m !! i = Some x → (g x <= msum m)%nat.
Proof. intros Hi. rewrite <- (insert_delete_id m i x Hi), msum_insert by apply lookup_delete_eq. lia. Qed.
End Sums.

Lemma msum_fmap {A B} (f : A → B) (g : B → nat) (m : gmap Z A) : msum g (f <$> m) = msum (λ x, g (f x)) m.
Proof.
  induction m as [|i x m Hi IH] using map_ind; [by rewrite fmap_empty|].
  rewrite fmap_insert, !msum_insert, IH by (rewrite ?lookup_fmap, ?Hi; done). done.
Qed.

Section Sending.
Context {C : Type} `{SendAlgorithm C} (w : world C).
Implicit Types (s : session C) (p : path C).

(** ** Retransmissions *)

(** The first packet that waits for retransmission on one of the paths. *)
Fixpoint dequeue (ids : list Z) : action C (option (Z * Packet)) :=
  match ids with
  | [] => mret None
  | id :: ids =>
      p ← find_path id;
      let '(pkt, h) := DequeuePacketForRetransmission (sph p) in
      _ ← upd (λ s, put_path s (set_sph p h));
      match pkt with
      | Some pkt => mret (Some (id, pkt))
      | None => dequeue ids
      end
  end.

(** A frame of a lost packet is sent again, unless it is out of date. *)
Definition requeue (id : Z) (f : frame) : action C unit :=
  match f with
  | FStream f => upd (λ s, with_framer s (AddFrameForRetransmission (framer s) f))
  | FWindowUpdate f =>
      s ← get;
      match GetReceiveWindow (sf_fcm (framer s)) (wu_StreamID f) with
      | Ok currentOffset =>
          if wu_ByteOffset f >=? currentOffset then queue_frame (FWindowUpdate f) id else skip
      | _ => skip
      end
  | FPaths _ => schedulePathsFrame w
  | f => queue_frame f id
  end.

(** The loop over all waiting packets: whether there was one, the handshake packet to send again, and
    the path of the last packet. *)
Fixpoint retransmission_loop (fuel : nat) (has : bool) (from : option Z)
  : action C (bool * option Packet * option Z) :=
  match fuel with
  | O => ret (Panic "endless loop")
  | S fuel =>
      s ← get;
      d ← dequeue (visit w (10 + Z.of_nat fuel) (paths s));
      match d with
      | None => mret (has, None, from)
      | Some (id, pkt) =>
          if negb (EncryptionLevel pkt =? EncryptionForwardSecure) then
            if handshakeComplete s then retransmission_loop fuel true (Some id)
            else mret (true, Some pkt, Some id)
          else
            _ ← each (requeue id) (GetFramesForRetransmission pkt);
            retransmission_loop fuel true (Some id)
      end
  end.

(** The packets that wait on the paths; every round of the loop takes one. *)
Definition num_waiting (ps : gmap Z (path C)) : nat :=
  msum (λ p, length (sph_queue (sph p))) ps.

Definition getRetransmission : action C (bool * option Packet * option Z) :=
  s ← get; retransmission_loop (S (num_waiting (paths s))) false None.

(** ** Choosing the path *)

Definition scheduling_view s : PathScheduler.session :=
  PathScheduler.mkSession (path_view <$> paths s) (sf_streamsMap (framer s))
    (sm_scheduler (sf_streamsMap (framer s)))
    (env_window (framer_env (flow_parameters (params s)) (framer s))).

(** The stream-aware selection changes the state of the stream scheduler. *)
Definition session_selectPath (hasRetransmission hasStreamRetransmission : bool) (from : option Z)
  : action C (option Z) :=
  s ← get;
  '(pth, sch, streams) ← ret (selectPath (s_scheduler s) (scheduling_view s) hasRetransmission
     hasStreamRetransmission (from ≫= λ id, path_view <$> paths s !! id) (in_order w s 1) (in_order w s 2));
  _ ← upd (λ s, with_stream_scheduler (set_scheduler s sch) streams);
  mret (PathScheduler.pathID <$> pth).

(** ** Sending packets *)

Definition queue_windows (wus : list WindowUpdateFrame) (id : Z) : action C unit :=
  each (λ f, queue_frame (FWindowUpdate f) id) wus.

(** The flow controllers look at the RTT of the session, which is that of the initial path. *)
Definition getWindowUpdateFrames (force : bool) : action C (list WindowUpdateFrame) :=
  p0 ← find_path InitialPathID;
  s ← get;
  let '(updates, fcm) := GetWindowUpdates (now w) (smoothedRTT (rttStats (sph p0)))
    ((map_to_list (remoteRTTs s)).*2) force (visit_streams w (streamFlowController (sf_fcm (framer s))))
    (sf_fcm (framer s)) in
  _ ← upd (λ s, with_fcm s fcm);
  mret ((λ u, {| wu_StreamID := wup_StreamID u; wu_ByteOffset := wup_Offset u |}) <$> updates).

Definition count_quota (id : Z) : action C unit := upd (λ s,
  let sch := s_scheduler s in
  set_scheduler s (set_quotas sch (<[id := quota (quotas sch) id +u64 1]> (quotas sch)))).

(** The packet that was sent, if one was. *)
Definition performPacketSending (wus : list WindowUpdateFrame) (id : Z) : action C (option Packet) :=
  p ← find_path id;
  _ ← (if ShouldSendRetransmittablePacket (sph p) then queue_frame (FPing mkPingFrame) id else skip);
  packet ← pack id (PackPacket (now w) (rnd w));
  match packet with
  | None => mret None
  | Some packet =>
      _ ← sendPackedPacket w packet id;
      _ ← queue_windows wus id;
      _ ← count_quota id;
      mret (Some (sent_packet packet))
  end.

(** An ACK frame for a path; queueing a nil pointer leaves no frame. *)
Definition queue_ack (ack : option AckFrame) (id : Z) : action C unit :=
  match ack with
  | Some ack => queue_frame (FAck ack) id
  | None => upd (λ s, set_packer s
      (set_path_frames (packer s) (pp_stopWaiting (packer s)) (delete id (pp_ackFrame (packer s)))))
  end.

Definition queue_stop_waiting (swf : option StopWaitingFrame) (id : Z) : action C unit :=
  match swf with
  | Some f => queue_frame (FStopWaiting f) id
  | None => skip
  end.

(** The STOP_WAITING frame of a handshake retransmission, nil or not. *)
Definition set_stop_waiting (swf : option StopWaitingFrame) (id : Z) : action C unit :=
  match swf with
  | Some f => queue_frame (FStopWaiting f) id
  | None => upd (λ s, set_packer s
      (set_path_frames (packer s) (delete id (pp_stopWaiting (packer s))) (pp_ackFrame (packer s))))
  end.

Definition ack_path (wus : list WindowUpdateFrame) (id : Z) : action C unit :=
  ack ← path_GetAckFrame w id;
  _ ← queue_windows wus id;
  if bool_decide (ack = None) && ((length wus =? 0)%nat || (id =? InitialPathID)) then skip
  else
    swf ← path_GetStopWaitingFrame id false;
    _ ← queue_stop_waiting swf id;
    _ ← queue_ack ack id;
    packet ← match ack with
             | Some _ => pkt ← pack id (PackAckPacket (now w) (rnd w)); mret (Some pkt)
             | None => pack id (PackPacket (now w) (rnd w))
             end;
    match packet with
    | Some packet => sendPackedPacket w packet id
    | None => ret (Panic "nil pointer dereference")
    end.

Definition ackRemainingPaths (wus : list WindowUpdateFrame) : action C unit :=
  s ← get;
  wus ← match wus with [] => getWindowUpdateFrames (peerBlocked s) | _ => mret wus end;
  _ ← each (ack_path wus) (visit w 3 (paths s));
  upd (λ s, set_blocked s false).

(** The queues of the framer that go into the control frames. *)
Fixpoint pop_all {A} (pop : streamFramer → option A * streamFramer) (wrap : A → frame) (id : Z) (n : nat)
  : action C unit :=
  match n with
  | O => skip
  | S n =>
      s ← get;
      match pop (framer s) with
      | (None, f) => upd (λ s, with_framer s f)
      | (Some a, f) =>
          _ ← upd (λ s, with_framer s f); _ ← queue_frame (wrap a) id; pop_all pop wrap id n
      end
  end.

Definition queue_framer_frames (id : Z) : action C unit :=
  s ← get;
  _ ← pop_all PopClosePathFrame FClosePath id (S (length (closePathFrameQueue (framer s))));
  _ ← pop_all PopAddAddressFrame FAddAddress id (S (length (addAddressFrameQueue (framer s))));
  pop_all PopPathsFrame FPaths id 2.

(** A packet on a path whose RTT is not known is sent again on another path that has sent less. *)
Definition duplicates s (id : Z) : bool :=
  existsb (λ id', match paths s !! id' with
    | Some p' => negb ((id' =? InitialPathID) || (id' =? id))
                 && (quota (quotas (s_scheduler s)) id' <? quota (quotas (s_scheduler s)) id)
                 && SentPackets.SendingAllowed (sph p')
    | None => false
    end) (visit w 4 (paths s)).

Definition maybe_duplicate (id : Z) (pkt : Packet) : action C unit :=
  p ← find_path id;
  s ← get;
  if (smoothedRTT (rttStats (sph p)) =? 0) && duplicates s id
  then upd (λ s, put_path s (set_sph p (DuplicatePacket (sph p) pkt))) else skip.

Definition ping_failed_path (from : option Z) : action C unit :=
  match from with
  | None => skip
  | Some id => p ← find_path id; if potentiallyFailed p then sendPing w id else skip
  end.

(** A handshake packet that was lost is sent again as it was. *)
Definition resend_handshake (id : Z) (pkt : Packet) : action C unit :=
  swf ← path_GetStopWaitingFrame id true;
  _ ← set_stop_waiting swf id;
  packet ← pack id (PackHandshakeRetransmission (now w) (rnd w) pkt);
  sendPackedPacket w packet id.

(** The next packet for a path, with the acknowledgement that is due on it. *)
Definition send_on_path (wus : list WindowUpdateFrame) (id : Z) (hasStreamRetransmission : bool)
  : action C (option Packet) :=
  ack ← path_GetAckFrame w id;
  _ ← match ack with Some _ => queue_ack ack id | None => skip end;
  _ ← (if bool_decide (is_Some ack) || hasStreamRetransmission
       then swf ← path_GetStopWaitingFrame id hasStreamRetransmission; queue_stop_waiting swf id
       else skip);
  _ ← queue_framer_frames id;
  performPacketSending wus id.

(** One round of the loop of sendPacket: whether it goes on, and with which window updates. *)
Definition send_round (wus : list WindowUpdateFrame) : action C (option (list WindowUpdateFrame)) :=
  '(has, handshakePacket, from) ← getRetransmission;
  s ← get;
  let hasStreamRetransmission := HasFramesForRetransmission (framer s) in
  pth ← session_selectPath has hasStreamRetransmission from;
  match pth, handshakePacket with
  | None, _ =>
      wus ← getWindowUpdateFrames false; _ ← ackRemainingPaths wus; mret None
  | Some id, Some pkt => _ ← resend_handshake id pkt; mret (Some wus)
  | Some id, None =>
      sent ← send_on_path wus id hasStreamRetransmission;
      match sent with
      | None => _ ← ackRemainingPaths []; mret None
      | Some pkt => _ ← maybe_duplicate id pkt; _ ← ping_failed_path from; mret (Some [])
      end
  end.

(** The rounds of the loop, at most [fuel] of them: whether it has returned. *)
Fixpoint send_rounds (fuel : nat) (wus : list WindowUpdateFrame) : action C bool :=
  match fuel with
  | O => mret false
  | S fuel =>
      next ← send_round wus;
      match next with
      | None => mret true
      | Some wus => send_rounds fuel wus
      end
  end.

Definition update_least_unacked : action C unit := upd (λ s, set_paths s
  ((λ p, set_numbering p (generator p) (GetLeastUnacked (sph p))) <$> paths s)).

Definition sendPacket (fuel : nat) : action C bool :=
  _ ← update_least_unacked;
  wus ← getWindowUpdateFrames false;
  _ ← queue_windows wus InitialPathID;
  send_rounds fuel wus.

(** ** The event loop *)

Definition NetworkIdleTimeout : Z := 25.
Definition HandshakeTimeoutCode : Z := 67.
Definition PublicResetTimeout : Z := 500 * Millisecond.

(** What the select statement of the loop waits for. *)
Inductive event : Type :=
| EvTimer
| EvScheduled
| EvPathTimer (id : Z)
| EvPacket
| EvAeadChanged
| EvHandshakeComplete.

(** The next received packet; [false] if the loop starts over. *)
Definition take_packet : action C bool := λ s,
  match receivedPackets s with
  | [] => (Ok false, s)
  | pkt :: rest =>
      let s := set_queues s rest (sendingScheduled s) in
      match handlePacketImpl w pkt s with
      | (Ok _, s') => (Ok true, s')
      | (Err e, s') =>
          if is_decryption_failure e
          then (Ok false, (tryQueueingUndecryptablePacket w (renumbered s (timed w pkt)) s').2)
          else (Ok false, (closeLocal (Some e) s').2)
      | (Panic e, s') => (Panic e, s')
      end
  end.

(** The alarm of a path's sent packet handler.  After two tail loss probes it asks the path whether it
    has failed: if nothing was received since the last packet was sent, it has, and the peer is told. *)
Definition path_alarm (id : Z) : action C unit :=
  p ← find_path id;
  let h := sph p in
  if (alarm h =? 0) || negb (alarm h <? now w) then skip
  else
    let onRTO lastSent := lastNetworkActivityTime p <? lastSent in
    let asked := hasOutstandingRetransmittablePacket h && (lossTime h =? 0)
                 && negb (tlpCount h <? maxTailLossProbes) in
    let failed := asked && onRTO (lastSentTime h) in
    let p := set_sph p (OnAlarm (now w) (Some onRTO) h) in
    _ ← upd (λ s, put_path s (set_flags p (p_open p) (closeRequested p) (failed || potentiallyFailed p)));
    if failed then schedulePathsFrame w else skip.

Definition take_event (ev : event) : action C bool :=
  match ev with
  | EvTimer => mret true
  | EvScheduled => _ ← upd (λ s, set_queues s (receivedPackets s) false); mret true
  | EvPathTimer id => _ ← path_alarm id; mret true
  | EvPacket => take_packet
  | EvAeadChanged => _ ← tryDecryptingQueuedPackets; mret true
  | EvHandshakeComplete => _ ← upd (λ s, set_handshake s true); mret true
  end.

Definition idleTimeout s : Z := idleConnectionStateLifetime (params s).

(** The time the session's timer is set to. *)
Definition maybeResetTimer s : Z :=
  let deadline := s_lastNetworkActivityTime s +
    (if KeepAlive (config s) && handshakeComplete s && negb (keepAlivePingSent s)
     then Z.quot (idleTimeout s) 2 else idleTimeout s) in
  let deadline := if handshakeComplete s then deadline
                  else Z.min deadline (sessionCreationTime s + HandshakeTimeout (config s)) in
  if receivedTooManyUndecrytablePacketsTime s =? 0 then deadline
  else Z.min deadline (receivedTooManyUndecrytablePacketsTime s + PublicResetTimeout).

Definition launch_manager : action C unit := upd (λ s,
  match s_pathManager s with
  | Some pm => if handshakeComplete s && negb (pm_launched pm)
               then set_manager s (Some (mkPathManager (pm_localAddrs pm) (nxtPathID pm) (remoteAddrs4 pm)
                                           (remoteAddrs6 pm) (advertisedLocAddrs pm) true))
               else s
  | None => s
  end).

Definition keep_alive : action C unit :=
  s ← get;
  if KeepAlive (config s) && handshakeComplete s
     && (now w - s_lastNetworkActivityTime s >=? Z.quot (idleTimeout s) 2)
  then _ ← each (queue_frame (FPing mkPingFrame)) (visit w 5 (paths s));
       upd (λ s, set_activity s (s_lastNetworkActivityTime s) true)
  else skip.

(** The errors that close the session: undecryptable packets, the handshake, no activity. *)
Definition expired_reasons s : list error :=
  (if negb (receivedTooManyUndecrytablePacketsTime s =? 0)
      && (receivedTooManyUndecrytablePacketsTime s + PublicResetTimeout <? now w)
      && negb (length (undecryptablePackets s) =? 0)%nat
   then [QuicError DecryptionFailure "too many undecryptable packets received"] else [])
  ++ (if negb (handshakeComplete s) && (now w - sessionCreationTime s >=? HandshakeTimeout (config s))
      then [QuicError HandshakeTimeoutCode "Crypto handshake did not complete in time."] else [])
  ++ (if handshakeComplete s && (now w - s_lastNetworkActivityTime s >=? idleTimeout s)
      then [QuicError NetworkIdleTimeout "No recent network activity."] else []).

Definition paths_frame_due s : bool :=
  handshakeComplete s && (pp_version (packer s) >=? VersionMP)
  && (now w - lastPathsFrameSent s >=? 200 * Millisecond)
  && (2 <? length (sm_openStreams (sf_streamsMap (framer s))))%nat.

(** The streams that are finished are removed, with their flow controllers. *)
Definition collect_stream : stream_lambda (session C) := λ id s,
  match store (sf_streamsMap (framer s)) !! id with
  | Some st =>
      if finished st then
        match sm_RemoveStream (sf_streamsMap (framer s)) id with
        | (Some e, m) => (false, Some e, with_streams s m)
        | (None, m) => let s := with_streams s m in (true, None, with_fcm s (RemoveStream (sf_fcm (framer s)) id))
        end
      else (true, None, s)
  | None => (true, None, s)
  end.

Definition garbageCollectStreams : action C unit := upd (λ s,
  (Iterate (λ s, sf_streamsMap (framer s)) collect_stream s).2).

(** One turn of the event loop, with at most [fuel] rounds of the sending loop. *)
Definition run_turn (fuel : nat) (ev : event) : action C unit :=
  goes_on ← take_event ev;
  if negb goes_on then skip
  else
    _ ← launch_manager;
    _ ← keep_alive;
    _ ← (λ s, match sendPacket fuel s with
              | (Ok _, s) => (Ok tt, s)
              | (Err e, s) => closeLocal (Some e) s
              | (Panic e, s) => (Panic e, s)
              end);
    s ← get;
    _ ← each (λ e, closeLocal (Some e)) (expired_reasons s);
    _ ← (if paths_frame_due s then schedulePathsFrame w else skip);
    garbageCollectStreams.

(** ** Closing *)

Definition PeerGoingAway : Z := 16.
Definition InternalError : Z := 1.
Definition errCloseSessionForNewVersion : error :=
  ErrorString "closing session in order to recreate it with a new version".
Definition ErrHOLExperiment : error :=
  QuicError InvalidCryptoMessageParameter "HOL experiment. Unsupported".
Definition ErrNSTPExperiment : error :=
  QuicError InvalidCryptoMessageParameter "NSTP experiment. Unsupported".

(** The code and the message of an error. *)
Definition ToQuicError (e : error) : Z * string :=
  match e with
  | QuicError c m => (c, m)
  | ErrorCode c => (c, "")
  | e => (InternalError, error_text (code_String w) e)
  end.

(** The paths are asked to close, and have closed when this returns. *)
Definition closePaths : action C unit := upd (λ s, set_paths s (path_close <$> paths s)).

Definition sendConnectionClose (code : Z) (message : string) : action C unit :=
  p0 ← find_path InitialPathID;
  _ ← upd (λ s, put_path s (set_numbering p0 (generator p0) (GetLeastUnacked (sph p0))));
  packet ← pack InitialPathID (PackConnectionClose (now w) (rnd w)
             {| cc_ErrorCode := code; cc_ReasonPhrase := string_bytes message |});
  _ ← note (Wrote InitialPathID packet);
  check (conn_Write w InitialPathID (pk_raw packet)).

Definition sendPublicReset (rejected : Z) : action C unit :=
  s ← get;
  let bytes := WritePublicReset (pp_connectionID (packer s)) rejected 0 in
  _ ← note (WroteRaw InitialPathID bytes);
  check (conn_Write w InitialPathID bytes).

Definition handleCloseError (c : closeError) : action C unit :=
  let err := default (ErrorCode PeerGoingAway) (ce_err c) in
  let '(code, message) := ToQuicError err in
  _ ← upd (λ s, with_streams s (CloseWithError (sf_streamsMap (framer s)) (QuicError code message)));
  if bool_decide (err = errCloseSessionForNewVersion) then skip
  else
    _ ← closePaths;
    if ce_remote c then skip
    else if (code =? DecryptionFailure) || bool_decide (err = ErrHOLExperiment)
            || bool_decide (err = ErrNSTPExperiment)
    then p0 ← find_path InitialPathID; sendPublicReset (lastRcvdPacketNumber p0)
    else sendConnectionClose code message.

(** ** Setting up *)

(** A new session: the initial path, and the crypto stream, which the server does not hand out. *)
Definition new_session (cfg : Config) (create : bool) (pers : Perspective) (version connectionID : Z)
    (ps : connectionParametersManager) (cs : CryptoSetup) (localAddrs : list address)
    (c : address * address) (scheduling : string) (streamScheduling : string) : session C :=
  let sched := if bool_decide (streamScheduling = "WRR"%string) then Some newStreamScheduler else None in
  let m := newStreamsMap pers sched in
  let f := newStreamFramer m (NewFlowControlManager (flow_parameters ps)) in
  let s := mkSession cfg ∅ ∅ create ∅ 0 (newPacketPacker connectionID cs ps f pers version) false [] false
             None [] 0 false (now w) (now w) false (Some (pm_setup pers localAddrs (Some c.2)))
             (setup (mkPathScheduler ∅ LowLatency 0) scheduling) [] in
  let s := set_paths s {[InitialPathID := path_setup w s InitialPathID c]} in
  match pers with
  | PerspectiveServer => (session_AcceptStream (session_GetOrOpenStream 1 s).2).2
  | PerspectiveClient => (session_OpenStream s).2
  end.

End Sending.

(** ** The sending loop returns

    A round that goes on has sent a packet.  A packet with data to keep fills the history of its path,
    which is limited; any other packet carries an ACK frame that was due on its path, and no packets
    are received meanwhile. *)

Section Termination.
Context {C : Type} `{SendAlgorithm C} (w : world C).
Implicit Types (s : session C) (p : path C).

(** What counts of a path: its ID, the room in its history, its waiting packets, whether an ACK is due. *)
Record summary : Type := mkSummary { sum_id : Z; sum_room : nat; sum_waiting : nat; sum_ack : nat }.

Definition ack_due (h : receivedPacketHandler) : bool :=
  ackQueued h || (negb (ackAlarm h =? 0) && (ackAlarm h <=? now w)).

Definition room (h : sentPacketHandler C) : nat :=
  Z.to_nat (MaxTrackedSentPackets - Z.of_nat (length (SentPackets.packetHistory h))).

Definition summarise p : summary :=
  mkSummary (pathID p) (room (sph p)) (length (sph_queue (sph p))) (if ack_due (rph p) then 1 else 0).

Definition view s : gmap Z summary := summarise <$> paths s.
Definition keyed s : Prop := ∀ id p, paths s !! id = Some p → pathID p = id.

(** Packets that can still be sent with data, ACK frames that can still be sent. *)
Definition credit s : nat :=
  (msum (λ x, sum_room x + sum_ack x) (view s) + size (pp_ackFrame (packer s)))%nat.
Definition waiting s : nat := msum sum_waiting (view s).

Lemma view_put s p p' :
  paths s !! pathID p' = Some p → view (put_path s p') = <[pathID p' := summarise p']> (view s).
Proof. intros Hp. unfold view, put_path. cbn. by rewrite fmap_insert. Qed.

Lemma keyed_put s p : keyed s → keyed (put_path s p).
Proof. intros Hk id p'. unfold put_path. cbn. rewrite lookup_insert_Some. naive_solver. Qed.

Lemma view_lookup s id p : paths s !! id = Some p → view s !! id = Some (summarise p).
Proof. intros Hp. unfold view. by rewrite lookup_fmap, Hp. Qed.

(** Paths are stored under their IDs, and there are no ACK frames among the control frames. *)
Definition loop_ok s : Prop := keyed s ∧ tidy (packer s).

(** What an action spends: at least [k] of the credit, at most [j] packets added to those that wait. *)
Definition spends (k j : nat) s s' : Prop :=
  loop_ok s' ∧ (credit s' + k <= credit s)%nat ∧ (waiting s' <= waiting s + j)%nat.

Lemma spends_trans k1 j1 k2 j2 s1 s2 s3 :
  spends k1 j1 s1 s2 → spends k2 j2 s2 s3 → spends (k1 + k2) (j1 + j2) s1 s3.
Proof. unfold spends. intuition lia. Qed.

Lemma spends_free s s' :
  loop_ok s → paths s' = paths s → pp_ackFrame (packer s') = pp_ackFrame (packer s) → tidy (packer s') →
  spends 0 0 s s'.
Proof.
  intros [Hk _] E1 E2 Ht. unfold spends, loop_ok, keyed, credit, waiting, view. rewrite E1, E2.
  split; [done|lia].
Qed.

Lemma spends_refl s : loop_ok s → spends 0 0 s s.
Proof. intros Hk. split; [done|lia]. Qed.

(** A path is replaced. *)
Lemma spends_put s p p' k j :
  loop_ok s → paths s !! pathID p' = Some p →
  (sum_room (summarise p') + sum_ack (summarise p') + k <= sum_room (summarise p) + sum_ack (summarise p))%nat →
  (sum_waiting (summarise p') <= sum_waiting (summarise p) + j)%nat →
  spends k j s (put_path s p').
Proof.
  intros [Hk Ht] Hp' H1 H2. split; [by split; [apply keyed_put|]|].
  unfold credit, waiting. rewrite (view_put s p p' Hp').
  pose proof (view_lookup s _ p Hp') as Hv.
  pose proof (msum_update (λ x, sum_room x + sum_ack x)%nat (view s) _ _ (summarise p') Hv).
  pose proof (msum_update sum_waiting (view s) _ _ (summarise p') Hv). cbn in *. lia.
Qed.

(** *** Acknowledgements *)

Lemma GetAckFrame_due h ack h' :
  ReceivedPackets.GetAckFrame (now w) h = Ok (ack, h') →
  match ack with Some _ => ack_due h = true ∧ ack_due h' = false | None => h' = h end.
Proof.
  unfold ReceivedPackets.GetAckFrame, ack_due. rewrite Z.gtb_ltb.
  destruct (ackQueued h) eqn:Eq; cbn [negb andb].
  2: destruct (Z.eqb_spec (ackAlarm h) 0); cbn [orb negb andb]; [by intros [= <- <-]|].
  2: destruct (Z.ltb_spec (now w) (ackAlarm h)); [by intros [= <- <-]|].
  all: destruct (history_frame h) as [[lowest ranges]| |]; cbn; [|done..]; intros [= <- <-]; cbn; split;
    rewrite ?orb_true_iff; try reflexivity.
  zbool. apply Z.leb_le. lia.
Qed.

Lemma size_insert_le {A} (m : gmap Z A) i x : (size (<[i := x]> m) <= S (size m))%nat.
Proof. rewrite map_size_insert. destruct (m !! i); cbn; lia. Qed.

(** An ACK frame that is due goes from the path to the packer. *)
Lemma take_ack_spends id s ack s1 u s2 :
  loop_ok s → path_GetAckFrame w id s = (Ok ack, s1) →
  (match ack with Some _ => queue_ack ack id | None => skip end) s1 = (Ok u, s2) → spends 0 0 s s2.
Proof.
  intros Hk (p & oa & h & Hp & E & -> & Ha)%path_GetAckFrame_ok E2. pose proof (proj1 Hk id p Hp) as Hid.
  pose proof (GetAckFrame_due _ _ _ E) as Hdue. destruct oa as [a|].
  - destruct Ha as [a' ->]. cbn in E2. run_ok. destruct Hdue as [D1 D2].
    assert (spends 1 0 s (put_path s (set_rph p h))) as (Hk' & Hc & Hw).
    { eapply spends_put; [done|by rewrite <- Hid in Hp|unfold summarise; cbn; rewrite D1, D2; lia|cbn; lia]. }
    split; [done|]. unfold credit, waiting, view in *. cbn in *.
    pose proof (size_insert_le (pp_ackFrame (packer s)) id a'). split; lia.
  - subst ack h. run_ok. eapply spends_put; [done|by rewrite <- Hid in Hp|cbn; lia..].
Qed.

Lemma stop_waiting_spends id force s swf s' :
  loop_ok s → path_GetStopWaitingFrame id force s = (Ok swf, s') → spends 0 0 s s'.
Proof.
  intros Hk (p & Hp & ->)%path_GetStopWaitingFrame_ok. pose proof (proj1 Hk id p Hp) as Hid.
  eapply spends_put; [done|by rewrite <- Hid in Hp|..]; unfold summarise, room, SentPackets.GetStopWaitingFrame;
    destruct (sw_GetStopWaitingFrame _ _); cbn; lia.
Qed.

(** *** Frames that are queued *)

(** All but ACK and STOP_WAITING frames go to the control frames. *)
Lemma queue_frame_spends f id s u s' :
  loop_ok s → IsFrameRetransmittable f = true → queue_frame f id s = (Ok u, s') → spends 0 0 s s'.
Proof.
  intros Hk Hf E. run_ok. apply spends_free; [done..|by destruct f|].
  destruct f; try done; (apply Forall_app; split; [apply Hk|by repeat constructor]).
Qed.

Lemma queue_stop_waiting_spends swf id s u s' :
  loop_ok s → queue_stop_waiting swf id s = (Ok u, s') ∨ set_stop_waiting swf id s = (Ok u, s') → spends 0 0 s s'.
Proof. intros Hk E. destruct swf; destruct E as [E|E]; cbn in E; run_ok; apply spends_free; try done; apply Hk. Qed.

Lemma each_spends {A} (f : A → action C unit) l s u s' :
  (∀ x s u s1, x ∈ l → loop_ok s → f x s = (Ok u, s1) → spends 0 0 s s1) →
  loop_ok s → each f l s = (Ok u, s') → spends 0 0 s s'.
Proof.
  intros Hf Hk E. refine (each_ok f (λ s1, spends 0 0 s s1) l s u s' _ _ E); [|by apply spends_refl].
  intros x s1 u1 s2 Hs Hx E1. eapply (spends_trans 0 0 0 0); [exact Hs|]. by eapply Hf; [|apply Hs|].
Qed.

Lemma queue_windows_spends wus id s u s' : loop_ok s → queue_windows wus id s = (Ok u, s') → spends 0 0 s s'.
Proof. intros Hk. apply each_spends; [|done]. intros f s1 u1 s2 _ Hs. by apply queue_frame_spends. Qed.

Lemma pop_all_spends {A} (pop : streamFramer → option A * streamFramer) (wrap : A → frame) id n s u s' :
  (∀ a, IsFrameRetransmittable (wrap a) = true) → loop_ok s → pop_all pop wrap id n s = (Ok u, s') →
  spends 0 0 s s'.
Proof.
  intros Hw. revert s. induction n as [|n IH]; intros s Hk E; cbn [pop_all] in E; run_ok;
    [by apply spends_refl|].
  match goal with H : pop (framer s) = (?o, ?g) |- _ => destruct o as [a|]; rename g into f end; run_ok;
    [|apply spends_free; [done..|apply Hk]].
  assert (loop_ok (with_framer s f)) as Hk' by (by split; apply Hk).
  pose proof (queue_frame_spends (wrap a) id (with_framer s f) tt _ Hk' (Hw a) eq_refl) as Hq.
  eapply (spends_trans 0 0 0 0); [|eapply IH; [apply Hq|exact E]].
  eapply (spends_trans 0 0 0 0); [|exact Hq]. by apply spends_free; try apply Hk.
Qed.

(** *** Packets *)

Lemma pack_spends k id s p pk g lu :
  loop_ok s → paths s !! id = Some p → tidy pk →
  (size (pp_ackFrame pk) + k <= size (pp_ackFrame (packer s)))%nat →
  spends k 0 s (set_packer (put_path s (set_numbering p g lu)) pk).
Proof.
  intros Hk Hp Ht Hs. pose proof (proj1 Hk id p Hp) as Hid.
  assert (spends 0 0 s (put_path s (set_numbering p g lu))) as (Hk' & Hc & Hw).
  { eapply spends_put; [done|by rewrite <- Hid in Hp|cbn; lia..]. }
  split; [by split; [apply Hk'|]|]. unfold credit, waiting, view in *. cbn in *. lia.
Qed.

Lemma packs_spends id s p pk g lu packet :
  loop_ok s → paths s !! id = Some p → packs (packer s) id packet pk →
  spends (if HasRetransmittableFrames (pk_frames packet) then 0 else 1) 0 s
    (set_packer (put_path s (set_numbering p g lu)) pk).
Proof.
  intros Hk Hp (_ & [(f & Hf & Ha & Hc & _)|(rest & sfs & Hf & Ha & Hr & Ht & _)]); apply (pack_spends _ id); try done.
  - unfold tidy. rewrite Hc. apply Hk.
  - rewrite Hf, Ha. cbn. lia.
  - apply Ht, Hk.
  - rewrite Ha, map_size_delete. destruct Hr as [->|Ha'].
    + destruct (pp_ackFrame (packer s) !! id); cbn; lia.
    + pose proof (map_size_ne_0_lookup_2 _ _ Ha'). destruct Ha' as [a ->]. cbn. case_match; lia.
Qed.

Lemma SentPacket_sent t h pkt h' :
  SentPacket t h pkt = (None, h') →
  sph_queue h' = sph_queue h ∧ SentPackets.packetHistory h' = SentPackets.packetHistory h ++ kept_record t pkt ∧
  Z.of_nat (length (SentPackets.packetHistory h) + 1) <= MaxTrackedSentPackets.
Proof.
  unfold SentPacket. destruct (_ <=? _); [done|]. rewrite Z.gtb_ltb. destruct (Z.ltb_spec MaxTrackedSentPackets
    (Z.of_nat (length (sph_queue h) + length (SentPackets.packetHistory h) + 1))) as [|Hm]; [done|].
  intros [= <-]. match goal with |- context [updateLossDetectionAlarm ?g] =>
    destruct (alarm_update_keeps g) as (E1 & E2 & E3 & E4) end.
  rewrite E2, E3. unfold kept_record. rewrite HasRetransmittableFrames_strip.
  destruct (negb _); simpl; rewrite ?app_nil_r; (split_and!; [done..|lia]).
Qed.

(** A packet with data to keep takes room in the history. *)
Lemma sendPackedPacket_spends packet id s u s' :
  loop_ok s → sendPackedPacket w packet id s = (Ok u, s') →
  spends (if HasRetransmittableFrames (pk_frames packet) then 1 else 0) 0 s s'.
Proof.
  intros Hk (p & h & Hp & Hs & ->)%sendPackedPacket_ok. pose proof (proj1 Hk id p Hp) as Hid.
  apply SentPacket_sent in Hs as (Hq & Hh & Hm).
  assert (spends (if HasRetransmittableFrames (pk_frames packet) then 1 else 0) 0 s (put_path s (set_sph p h))) as Hsp;
    [|exact Hsp].
  eapply spends_put; [done|by rewrite <- Hid in Hp| |cbn; rewrite Hq; lia].
  unfold summarise, room. cbn [pathID set_sph sph rph sum_room sum_ack]. rewrite Hh, length_app.
  unfold kept_record. change (p_Frames (sent_packet packet)) with (pk_frames packet).
  destruct (HasRetransmittableFrames _); cbn [length]; lia.
Qed.

(** Packing and sending a packet, whatever is in it. *)
Lemma pack_send_spends id s p packet pk g lu u s' :
  loop_ok s → paths s !! id = Some p → packs (packer s) id packet pk →
  sendPackedPacket w packet id (set_packer (put_path s (set_numbering p g lu)) pk) = (Ok u, s') → spends 1 0 s s'.
Proof.
  intros Hk Hp Hpk E. pose proof (packs_spends id s p pk g lu packet Hk Hp Hpk) as H1.
  apply sendPackedPacket_spends in E; [|apply H1]. pose proof (spends_trans _ _ _ _ _ _ _ H1 E) as H2.
  by destruct (HasRetransmittableFrames _).
Qed.

Lemma performPacketSending_spends wus id s pkt s' :
  loop_ok s → performPacketSending w wus id s = (Ok (Some pkt), s') → spends 1 0 s s'.
Proof.
  intros Hk E. unfold performPacketSending in E. run_ok.
  match goal with E : (if ?b then _ else _) s = (Ok _, ?s1) |- _ =>
    assert (spends 0 0 s s1) as Hs1; [destruct b; [by eapply queue_frame_spends; [| |exact E]|by run_ok; apply spends_refl]|] end.
  match goal with E : pack _ _ _ = _ |- _ => apply pack_ok in E as (q & pk & pth & Hq & Em & ->) end.
  match goal with o : option packedPacket |- _ => destruct o as [packet|] end; run_ok; [|done].
  apply PackPacket_packs in Em; [|apply Hs1]. change (pth_pathID _) with (pathID q) in Em.
  rewrite (proj1 (proj1 Hs1) _ _ Hq) in Em.
  match goal with E : sendPackedPacket _ _ _ _ = (_, ?s1) |- _ =>
    pose proof (pack_send_spends _ _ _ _ _ _ _ _ _ (proj1 Hs1) Hq Em E) as Hs2 end.
  match goal with E : queue_windows _ _ _ = _ |- _ => apply queue_windows_spends in E as Hs3; [|apply Hs2] end.
  match goal with E : count_quota _ _ = _ |- _ => injection E as <- <- end.
  eapply (spends_trans 0 0 1 0); [exact Hs1|]. eapply (spends_trans 1 0 0 0); [exact Hs2|].
  eapply (spends_trans 0 0 0 0); [exact Hs3|]. by apply spends_free; try apply Hs3.
Qed.

(** *** Retransmissions *)

Lemma dequeue_spends ids s d s' :
  loop_ok s → dequeue ids s = (Ok d, s') →
  spends 0 0 s s' ∧ (is_Some d → (waiting s' + 1 <= waiting s)%nat).
Proof.
  revert s. induction ids as [|id ids IH]; intros s Hk E; cbn [dequeue] in E; run_ok.
  { split; [by apply spends_refl|]. by intros [? ?]. }
  match goal with E : paths s !! id = Some ?q |- _ => rename q into p, E into Hp end.
  pose proof (proj1 Hk id p Hp) as Hid. rewrite <- Hid in Hp.
  unfold DequeuePacketForRetransmission in *. destruct (sph_queue (sph p)) as [|pkt queue] eqn:Eq; simplify_eq.
  - assert (spends 0 0 s (put_path s (set_sph p (sph p)))) as Hs1 by (by eapply spends_put; [|exact Hp|cbn; lia..]).
    destruct (IH _ (proj1 Hs1) E) as [Hs2 Hd]. split; [by apply (spends_trans 0 0 0 0 _ _ _ Hs1 Hs2)|].
    intros Hs. specialize (Hd Hs). destruct Hs1 as (_ & _ & Hw). lia.
  - run_ok. match goal with |- context [put_path s ?q] => set (p' := q) in * end. split.
    + eapply spends_put; [done|exact Hp|unfold summarise, room; cbn; lia|]. cbn. rewrite Eq. cbn. lia.
    + intros _. unfold waiting. rewrite (view_put s p p' Hp).
      pose proof (msum_update sum_waiting (view s) _ _ (summarise p') (view_lookup s _ p Hp)) as Hm.
      cbn in *. rewrite Eq in Hm. cbn in Hm. lia.
Qed.

Lemma requeue_spends id f s u s' :
  loop_ok s → IsFrameRetransmittable f = true → requeue w id f s = (Ok u, s') → spends 0 0 s s'.
Proof.
  intros Hk Hf E. destruct f; try done; cbn [requeue] in E; try by eapply queue_frame_spends; [| |exact E].
  - run_ok. by apply spends_free; try apply Hk.
  - run_ok. destruct (GetReceiveWindow _ _); try (run_ok; by apply spends_refl).
    destruct (_ >=? _); [by eapply queue_frame_spends; [| |exact E]|run_ok; by apply spends_refl].
  - unfold schedulePathsFrame in E. run_ok. by apply spends_free; try apply Hk.
Qed.

Lemma requeue_all_spends id pkt s u s' :
  loop_ok s → each (requeue w id) (GetFramesForRetransmission pkt) s = (Ok u, s') → spends 0 0 s s'.
Proof.
  intros Hk. apply each_spends; [|done]. intros f s1 u1 s2 Hf Hs E. eapply requeue_spends; [done| |exact E].
  unfold GetFramesForRetransmission in Hf. apply list_elem_of_In, filter_In in Hf. apply Hf.
Qed.

Lemma loop_spends fuel has from s r s' :
  loop_ok s → retransmission_loop w fuel has from s = (Ok r, s') →
  spends 0 0 s s' ∧ (is_Some r.1.2 → (waiting s' + 1 <= waiting s)%nat).
Proof.
  revert has from s. induction fuel as [|fuel IH]; intros has from s Hk E; cbn [retransmission_loop] in E; [done|].
  run_ok. match goal with E : dequeue _ _ = _ |- _ => apply dequeue_spends in E as [Hs1 Hd]; [|done] end.
  match goal with d : option (Z * Packet) |- _ => destruct d as [[id pkt]|] end; run_ok;
    [|split; [done|by intros [? ?]]].
  specialize (Hd ltac:(by eauto)). destruct (negb _); [destruct (handshakeComplete s)|]; run_ok.
  - destruct (IH _ _ _ (proj1 Hs1) E) as [Hs2 Hw]. split; [by apply (spends_trans 0 0 0 0 _ _ _ Hs1 Hs2)|].
    intros Hr. specialize (Hw Hr). lia.
  - by split.
  - match goal with E : each _ _ _ = _ |- _ => apply requeue_all_spends in E as Hs2; [|apply Hs1] end.
    destruct (IH _ _ _ (proj1 Hs2) E) as [Hs3 Hw].
    split; [apply (spends_trans 0 0 0 0 _ _ _ Hs1), (spends_trans 0 0 0 0 _ _ _ Hs2 Hs3)|].
    intros Hr. specialize (Hw Hr). destruct Hs2 as (_ & _ & Hs2). lia.
Qed.

Lemma num_waiting_waiting s : num_waiting (paths s) = waiting s.
Proof. unfold num_waiting, waiting, view. by rewrite msum_fmap. Qed.

(** The loop over the waiting packets returns: every round takes a packet. *)
Definition visit_ok : Prop := ∀ k m, visit w k m ≡ₚ (map_to_list m).*1.

Lemma visit_lookup k s id : visit_ok → id ∈ visit w k (paths s) → is_Some (paths s !! id).
Proof.
  intros Hv Hid. rewrite (Hv k (paths s)) in Hid. apply list_elem_of_fmap in Hid as ([id' p] & -> & Hp).
  apply elem_of_map_to_list in Hp. by eauto.
Qed.

Lemma dequeue_total ids s :
  loop_ok s → (∀ id, id ∈ ids → is_Some (paths s !! id)) → ∃ d s', dequeue ids s = (Ok d, s').
Proof.
  revert s. induction ids as [|id ids IH]; intros s Hk Hids; cbn [dequeue]; [by eexists _, _|].
  destruct (Hids id ltac:(left)) as [p Hp]. cbv [mbind action_bind]. unfold find_path. rewrite Hp.
  destruct (DequeuePacketForRetransmission (sph p)) as [[pkt|] h]; [by eexists _, _|]. cbn [upd].
  apply IH; [by split; [apply keyed_put|]; apply Hk|]. intros id' Hid'. unfold put_path. cbn.
  rewrite lookup_insert_is_Some'. right. apply Hids. by right.
Qed.

Lemma requeue_total id f s : ∃ s', requeue w id f s = (Ok tt, s').
Proof.
  destruct f; cbn [requeue]; try by eexists. cbv [mbind action_bind]. cbn [get].
  destruct (GetReceiveWindow _ _); [destruct (_ >=? _)|..]; by eexists.
Qed.

Lemma each_total {A} (f : A → action C unit) l s :
  (∀ x s, ∃ s', f x s = (Ok tt, s')) → ∃ s', each f l s = (Ok tt, s').
Proof.
  intros Hf. revert s. induction l as [|x l IH]; intros s; cbn [each]; [by eexists|].
  cbv [mbind action_bind]. destruct (Hf x s) as [s1 ->]. apply IH.
Qed.

Lemma loop_total fuel has from s :
  visit_ok → loop_ok s → (waiting s < fuel)%nat → ∃ r s', retransmission_loop w fuel has from s = (Ok r, s').
Proof.
  intros Hv. revert has from s. induction fuel as [|fuel IH]; intros has from s Hk Hw; [lia|].
  cbn [retransmission_loop]. cbv [mbind action_bind]. cbn [get].
  destruct (dequeue_total (visit w (10 + Z.of_nat fuel) (paths s)) s Hk) as (d & s1 & Ed).
  { intros id. by apply visit_lookup. }
  rewrite Ed. destruct (dequeue_spends _ _ _ _ Hk Ed) as [Hs Hd].
  destruct d as [[id pkt]|]; [|by eexists _, _]. specialize (Hd ltac:(by eauto)).
  destruct (negb _); [destruct (handshakeComplete s)|].
  - apply IH; [apply Hs|lia].
  - by eexists _, _.
  - destruct (each_total (requeue w id) (GetFramesForRetransmission pkt) s1 (requeue_total id)) as [s2 E2]. rewrite E2.
    destruct (requeue_all_spends _ _ _ _ _ (proj1 Hs) E2) as (Hk2 & _ & Hw2). apply IH; [done|lia].
Qed.

(** *** One round *)

Definition potential s : nat := (2 * credit s + waiting s)%nat.

Lemma maybe_duplicate_spends id pkt s u s' :
  loop_ok s → maybe_duplicate w id pkt s = (Ok u, s') → spends 0 1 s s'.
Proof.
  intros Hk E. unfold maybe_duplicate in E. run_ok.
  match goal with E : paths s !! id = Some ?q |- _ => rename q into p, E into Hp end.
  rewrite <- (proj1 Hk id p Hp) in Hp.
  destruct (_ && _); run_ok; [|destruct (spends_refl s Hk) as (? & ? & ?); split; [done|lia]].
  eapply spends_put; [done|exact Hp|unfold summarise, room; cbn; lia|]. cbn. rewrite length_app. cbn. lia.
Qed.

Lemma sendPing_spends id s u s' : loop_ok s → sendPing w id s = (Ok u, s') → spends 0 0 s s'.
Proof.
  intros Hk E. unfold sendPing in E. run_ok.
  match goal with E : paths s !! id = Some _ |- _ => clear E end.
  match goal with E : pack _ _ _ = _ |- _ => apply pack_ok in E as (q & pk & pth & Hq & Em & ->) end.
  match goal with o : option packedPacket |- _ => destruct o as [packet|] end; [|by run_ok].
  apply PackPing_packs in Em; [|apply Hk]. change (pth_pathID _) with (pathID q) in Em.
  rewrite (proj1 Hk _ _ Hq) in Em.
  set (s1 := set_packer s (set_control (packer s) (FPing mkPingFrame :: controlFrames (packer s)))).
  assert (spends 0 0 s s1) as Hs1 by (apply spends_free; [done..|]; by constructor; [|apply Hk]).
  assert (spends 1 0 s1 s') as Hs2 by (by eapply (pack_send_spends id s1); [apply Hs1|exact Hq|exact Em|exact E]).
  destruct (spends_trans _ _ _ _ _ _ _ Hs1 Hs2) as (? & ? & ?). split; [done|lia].
Qed.

Lemma selectPath_spends has hasStream from s r s' :
  loop_ok s → session_selectPath w has hasStream from s = (Ok r, s') → spends 0 0 s s'.
Proof. intros Hk E. unfold session_selectPath in E. run_ok. by apply spends_free; try apply Hk. Qed.

Lemma framer_frames_spends id s u s' : loop_ok s → queue_framer_frames id s = (Ok u, s') → spends 0 0 s s'.
Proof.
  intros Hk E. unfold queue_framer_frames in E. run_ok.
  repeat match goal with E : pop_all _ _ _ _ ?s0 = _, Hk : loop_ok ?s0 |- _ =>
    apply pop_all_spends in E; [pose proof (proj1 E)|done|exact Hk] end.
  eapply (spends_trans 0 0 0 0); [eassumption|]. eapply (spends_trans 0 0 0 0); eassumption.
Qed.

Lemma ping_failed_spends from s u s' : loop_ok s → ping_failed_path w from s = (Ok u, s') → spends 0 0 s s'.
Proof.
  intros Hk E. destruct from as [id|]; cbn [ping_failed_path] in E; run_ok; [|by apply spends_refl].
  destruct (potentiallyFailed _); [by eapply sendPing_spends|]. run_ok. by apply spends_refl.
Qed.

(** A handshake packet that is sent again was waiting. *)
Lemma resend_handshake_spends id pkt s u s' :
  loop_ok s → resend_handshake w id pkt s = (Ok u, s') → spends 0 0 s s'.
Proof.
  intros Hk E. unfold resend_handshake in E. run_ok.
  match goal with E : path_GetStopWaitingFrame _ _ _ = _ |- _ => apply stop_waiting_spends in E as Hs1; [|done] end.
  match goal with E : set_stop_waiting _ _ _ = _ |- _ =>
    pose proof (queue_stop_waiting_spends _ _ _ _ _ (proj1 Hs1) (or_intror E)) as Hs2 end.
  match goal with E : pack _ _ _ = _ |- _ => apply pack_ok in E as (q & pk & pth & Hq & Em & ->) end.
  apply PackHandshake_facts in Em as (_ & _ & Ha & Hc & _).
  match goal with E : sendPackedPacket _ _ _ ?s0 = _ |- _ => rename E into Es; set (s3 := s0) in * end.
  match goal with Hs : spends 0 0 _ ?s2 |- _ => assert (spends 0 0 s2 s3) as Hs3 end.
  { apply (pack_spends 0 id); [apply Hs2|exact Hq|unfold tidy; rewrite Hc; apply Hs2|rewrite Ha; lia]. }
  apply sendPackedPacket_spends in Es; [|apply Hs3].
  pose proof (spends_trans _ _ _ _ _ _ _ Hs1 (spends_trans _ _ _ _ _ _ _ Hs2 (spends_trans _ _ _ _ _ _ _ Hs3 Es)))
    as (? & ? & ?). split; [done|]. lia.
Qed.

(** A packet that is sent on a path spends credit; it may be sent again on another one. *)
Lemma send_on_path_spends wus id hasStream s pkt s' :
  loop_ok s → send_on_path w wus id hasStream s = (Ok (Some pkt), s') → spends 1 0 s s'.
Proof.
  intros Hk E. unfold send_on_path in E. apply bind_ok in E as (ack & s1 & E1 & E). apply bind_ok in E as (u & s2 & E2 & E).
  pose proof (take_ack_spends id s ack s1 u s2 Hk E1 E2) as Hs1.
  apply bind_ok in E as (u2 & s3 & E3 & E). assert (spends 0 0 s2 s3) as Hs2.
  { destruct (_ || _); run_ok; [|by apply spends_refl, Hs1].
    match goal with E : path_GetStopWaitingFrame _ _ _ = _ |- _ => apply stop_waiting_spends in E as Hs; [|apply Hs1] end.
    apply (spends_trans 0 0 0 0 _ _ _ Hs), (queue_stop_waiting_spends _ _ _ _ _ (proj1 Hs) (or_introl E3)). }
  apply bind_ok in E as (u3 & s4 & E4 & E). apply framer_frames_spends in E4 as Hs3; [|apply Hs2].
  apply performPacketSending_spends in E as Hs4; [|apply Hs3].
  exact (spends_trans _ _ _ _ _ _ _ Hs1 (spends_trans _ _ _ _ _ _ _ Hs2 (spends_trans _ _ _ _ _ _ _ Hs3 Hs4))).
Qed.

Lemma send_round_spends wus s wus' s' :
  loop_ok s → send_round w wus s = (Ok (Some wus'), s') → loop_ok s' ∧ (potential s' < potential s)%nat.
Proof.
  intros Hk E. unfold send_round in E. apply bind_ok in E as ([[has hs] from] & s1 & E1 & E).
  unfold getRetransmission in E1. run_ok. apply loop_spends in E1 as [(Hk1 & Hc1 & Hw1) Hhs]; [|done].
  match goal with E : session_selectPath _ _ _ _ _ = _ |- _ => apply selectPath_spends in E as (Hk2 & Hc2 & Hw2); [|done] end.
  match goal with o : option Z, E : match ?o with _ => _ end _ = _ |- _ => destruct o as [id|] end; [|run_ok; done].
  unfold potential. destruct hs as [pkt|]; cbn [fst snd] in Hhs.
  - specialize (Hhs ltac:(by eauto)). run_ok.
    match goal with E : resend_handshake _ _ _ _ = _ |- _ => apply resend_handshake_spends in E as (? & ? & ?); [|done] end.
    split; [done|lia].
  - apply bind_ok in E as ([pkt|] & s3 & E3 & E); run_ok; [|done].
    apply send_on_path_spends in E3 as (Hk3 & Hc3 & Hw3); [|done].
    match goal with E : maybe_duplicate _ _ _ _ = _ |- _ => apply maybe_duplicate_spends in E as (Hk4 & Hc4 & Hw4); [|done] end.
    match goal with E : ping_failed_path _ _ _ = _ |- _ => apply ping_failed_spends in E as (Hk5 & Hc5 & Hw5); [|done] end.
    split; [done|lia].
Qed.

Lemma send_rounds_return fuel wus s :
  loop_ok s → (potential s < fuel)%nat → (send_rounds w fuel wus s).1 <> Ok false.
Proof.
  revert wus s. induction fuel as [|fuel IH]; intros wus s Hk Hf; [lia|]. cbn [send_rounds].
  cbv [mbind action_bind]. destruct (send_round w wus s) as [[[wus'|]|e|e] s1] eqn:E; [|done..].
  apply send_round_spends in E as [Hk1 Hp]; [|done]. apply IH; [done|lia].
Qed.

(** No more than this many packets are ever sent in one call: the histories of the paths are limited. *)
Lemma credit_bound s :
  (credit s <= size (paths s) * (Z.to_nat MaxTrackedSentPackets + 1) + size (pp_ackFrame (packer s)))%nat.
Proof.
  unfold credit, view. rewrite msum_fmap. apply Nat.add_le_mono_r. generalize (paths s) as m. clear s. intros m.
  induction m as [|id p m Hm IH] using map_ind; [by rewrite map_size_empty; cbn|].
  rewrite msum_insert, map_size_insert_None, Nat.mul_succ_l by done.
  assert (sum_room (summarise p) + sum_ack (summarise p) <= Z.to_nat MaxTrackedSentPackets + 1)%nat
    by (unfold summarise, room; cbn [sum_room sum_ack]; destruct (ack_due _); lia). lia.
Qed.

Lemma least_unacked_spends s u s' : loop_ok s → update_least_unacked s = (Ok u, s') → spends 0 0 s s'.
Proof.
  intros [Hk Ht] E. unfold update_least_unacked in E. run_ok. split.
  - split; [|done]. intros id p. cbn. rewrite lookup_fmap, fmap_Some. intros (q & Hq & ->). by apply (Hk id q).
  - unfold credit, waiting, view. cbn. rewrite <- map_fmap_compose. split; apply Nat.eq_le_incl; [|by rewrite Nat.add_0_r].
    by rewrite Nat.add_0_r.
Qed.

Lemma window_updates_spends force s wus s' :
  loop_ok s → getWindowUpdateFrames w force s = (Ok wus, s') → spends 0 0 s s'.
Proof. intros Hk E. unfold getWindowUpdateFrames in E. run_ok. by apply spends_free; try apply Hk. Qed.

(** C11: sending always comes to an end.  However many paths there are and whatever waits -- data of
    streams, lost packets, control frames, acknowledgements --, for every controller and every order
    of the iterations the loop over the packets to be retransmitted takes each of them once and
    returns; and sendPacket returns within a number of rounds that depends only on the number of
    paths and on the packets and ACK frames that wait, because every round sends a packet that fills
    the limited history of a path or carries an ACK frame that was due. *)
Theorem sendPacket_returns (s : session C) (fuel : nat) :
  visit_ok → loop_ok s →
  (2 * (size (paths s) * (Z.to_nat MaxTrackedSentPackets + 1) + size (pp_ackFrame (packer s)))
   + num_waiting (paths s) < fuel)%nat →
  (∃ r s', getRetransmission w s = (Ok r, s')) ∧ (sendPacket w fuel s).1 <> Ok false.
Proof.
  intros Hv Hk Hf. rewrite num_waiting_waiting in Hf. split.
  { unfold getRetransmission. cbv [mbind action_bind]. cbn [get].
    apply loop_total; [done..|]. rewrite num_waiting_waiting. lia. }
  destruct (sendPacket w fuel s) as [[b|e|e] s'] eqn:E; [|done..]. unfold sendPacket in E. run_ok.
  match goal with E : update_least_unacked _ = _ |- _ => apply least_unacked_spends in E as (Hk1 & Hc1 & Hw1); [|done] end.
  match goal with E : getWindowUpdateFrames _ _ _ = _ |- _ => apply window_updates_spends in E as (Hk2 & Hc2 & Hw2); [|done] end.
  match goal with E : queue_windows _ _ _ = _ |- _ => apply queue_windows_spends in E as (Hk3 & Hc3 & Hw3); [|done] end.
  pose proof (credit_bound s).
  match goal with E : send_rounds _ _ ?wus ?s3 = _ |- _ =>
    pose proof (send_rounds_return fuel wus s3 Hk3 ltac:(unfold potential; lia)) as Hr; by rewrite E in Hr end.
Qed.

End Termination.

(** ** Examples *)

#[local] Existing Instance fixed_window.

Definition sample_world : world Z :=
  mkWorld Z (1000 * Millisecond) None (λ _ m, (map_to_list m).*1) (λ m, (map_to_list m).*1) (λ _ _, None)
    (λ _, ""%string) tag_open (λ _, 20000).

Definition client_address : address := ([10; 0; 0; 1], 4433).
Definition server_address : address := ([10; 0; 0; 2], 443).

Definition sample_parameters (pers : Perspective) : connectionParametersManager :=
  NewConnectionParamatersManager pers 512 1000000 1000000 (30 * Second).

(** A session after its handshake. *)
Definition sample_new (pers : Perspective) (c : address * address) : session Z :=
  set_handshake (new_session sample_world (mkConfig (10 * Second) false) false pers 512 77
    (sample_parameters pers) sample_setup [] c "" "") true.

(** A client that has written five bytes to stream 5. *)
Definition sample_client : session Z :=
  let s := sample_new PerspectiveClient (client_address, server_address) in
  let s := (session_OpenStream (session_OpenStream s).2).2 in
  (on_stream 5 (λ st fcm, let '(_, st) := Write_begin st [1; 2; 3; 4; 5] in (Ok tt, st, fcm)) s).2.

Lemma sample_visit_ok : visit_ok sample_world.
Proof. by intros k m. Qed.

Lemma sample_client_ok : loop_ok sample_client.
Proof.
  split; [|by apply (bool_decide_unpack (Forall _ _)); vm_compute].
  intros id p Hp. assert (map_Forall (λ id p, pathID p = id) (paths sample_client)) as Hm; [|by apply (Hm id p)].
  apply map_Forall_to_list. vm_compute. by repeat constructor.
Qed.

Lemma sendPacket_returns_witness :
  (sendPacket sample_world (Z.to_nat 40000) sample_client).1 <> Ok false ∧
  (sendPacket sample_world 5 sample_client).1 = Ok true.
Proof.
  split; [|by vm_compute].
  apply (sendPacket_returns sample_world sample_client (Z.to_nat 40000) sample_visit_ok sample_client_ok).
  apply Nat.ltb_lt. vm_compute. reflexivity.
Defined.
