(* ===== verification/Reliability.v ===== *)
(** * No stream data is lost by a session

    Over the whole life of a session -- packets arriving on any path, alarms, paths opened by both
    sides, closed and failing, keys installed, applications reading and writing, the sending loop with
    any path scheduler -- every byte of a stream and every end of a stream that left in a
    forward-secure packet is acknowledged, or still in the hands of the session: outstanding or waiting
    on one of its paths, or in the retransmission queue of the stream framer. *)

From S2P Require Import Prelude ByteOrder Protocol Frames StreamFrame AckFrame ClosePathFrame PublicHeader Unpacker.
From S2P Require Import ReceivedPackets FlowControl Stream StreamScheduler StreamsMap PathScheduler StreamFramer.
From S2P Require Import Congestion SentPackets Handshake ConnectionParameters Packer Transmission Paths Session SendLoop.

(** ** What was written, what was acknowledged *)

Definition packed_items (pk : packedPacket) : list item :=
  if pk_encryptionLevel pk =? EncryptionForwardSecure then items (stream_frames (pk_frames pk)) else [].

Definition packet_items (pkt : Packet) : list item :=
  if EncryptionLevel pkt =? EncryptionForwardSecure then items (stream_frames (p_Frames pkt)) else [].

Definition written (l : list entry) (x : item) : Prop :=
  ∃ id pk, Wrote id pk ∈ l ∧ x ∈ packed_items pk.

Definition acknowledged (l : list entry) (id n : Z) : Prop :=
  (∃ f, GotAck f ∈ l ∧ ack_PathID f = id ∧ AcksPacket f n = true) ∨
  (∃ f, GotClose f ∈ l ∧ cp_PathID f = id ∧ ClosePathFrame_AcksPacket f n = true).

(** A packet with the item was acknowledged on the path it was written to. *)
Definition delivered (l : list entry) (x : item) : Prop :=
  ∃ id pk, Wrote id pk ∈ l ∧ x ∈ packed_items pk ∧ acknowledged l id (pk_number pk).

Definition num_created (l : list entry) : nat :=
  length (List.filter (λ e, match e with Created _ => true | _ => false end) l).

(** What the AEADs promise: sealing adds the overhead. *)
Definition seals (s : Sealer) : Prop :=
  0 <= Overhead s ∧
  ∀ payload pn ad, Z.of_nat (length (Seal s payload pn ad)) = Z.of_nat (length payload) + Overhead s.

Definition setup_seals (cs : CryptoSetup) : Prop :=
  seals (GetSealer cs).2 ∧ seals (GetSealerForCryptoStream cs).2 ∧
  ∀ l s, GetSealerWithEncryptionLevel cs l = Ok s → seals s.

Lemma sealed_length s raw : seals s → sealed_by s raw → 0 <= Z.of_nat (length raw) < 2^32.
Proof.
  intros [Ho Hs] (header & payload & pn & -> & Hm). rewrite length_app. specialize (Hs payload pn header).
  unfold MaxPacketSize in Hm. lia.
Qed.

Lemma written_app l k x : written (l ++ k) x ↔ written l x ∨ written k x.
Proof. unfold written. set_solver. Qed.

Lemma acknowledged_app l k id n : acknowledged l id n → acknowledged (l ++ k) id n.
Proof. unfold acknowledged. set_solver. Qed.

Lemma delivered_app l k x : delivered l x → delivered (l ++ k) x.
Proof. intros (id & pk & Hw & Hx & Ha). exists id, pk. split_and!; [set_solver|done|by apply acknowledged_app]. Qed.

Lemma num_created_app l k : num_created (l ++ k) = (num_created l + num_created k)%nat.
Proof. unfold num_created. by rewrite List.filter_app, length_app. Qed.

Create HintDb grows discriminated.

(** ** The log only grows *)

Section Grows.
Context {C : Type}.
Implicit Types s : session C.

Definition grows {A} (m : action C A) : Prop := ∀ s, ∃ l, log (m s).2 = log s ++ l.

Lemma grows_same {A} (m : action C A) : (∀ s, log (m s).2 = log s) → grows m.
Proof. intros Hm s. exists []. by rewrite Hm, app_nil_r. Qed.

Lemma grows_bind {A B} (m : action C A) (f : A → action C B) : grows m → (∀ a, grows (f a)) → grows (m ≫= f).
Proof.
  intros Hm Hf s. cbv [mbind action_bind]. destruct (Hm s) as [l1 H1].
  destruct (m s) as [[a|e|e] s1]; cbn in *; [|by eauto..].
  destruct (Hf a s1) as [l2 H2]. exists (l1 ++ l2). by rewrite H2, H1, app_assoc.
Qed.

Lemma grows_find_path id : grows (find_path id : action C (path C)).
Proof. apply grows_same. intros s. unfold find_path. by destruct (paths s !! id). Qed.

Lemma grows_pack {A} id (m : packing A) : grows (pack id m : action C A).
Proof.
  apply grows_same. intros s. unfold pack. destruct (paths s !! id); [|done]. by destruct (m _) as [r [pk pth]].
Qed.

Lemma grows_note e : grows (note e : action C unit).
Proof. intros s. by exists [e]. Qed.

Lemma grows_manager : grows (path_manager : action C pathManager).
Proof. apply grows_same. intros s. unfold path_manager. by destruct (s_pathManager s). Qed.

Lemma grows_each {A} (f : A → action C unit) l : (∀ a, grows (f a)) → grows (each f l).
Proof. intros Hf. induction l; cbn [each]; [by apply grows_same|]. apply grows_bind; auto. Qed.

End Grows.

Ltac grow :=
  repeat first
    [ solve [auto with grows] | apply grows_bind | match goal with |- ∀ _, grows _ => intros ? end | apply grows_find_path | apply grows_pack | apply grows_note
    | apply grows_manager | apply grows_each | assumption
    | match goal with
      | |- grows (match ?x with _ => _ end) => destruct x
      | |- grows (let _ := _ in _) => cbv zeta
      end
    | solve [apply grows_same; done] ].

Section Reliability.
Context {C : Type} `{SendAlgorithm C}.
Implicit Types (s : session C) (p : path C).

(** The items a handler still has. *)
Definition holds (h : sentPacketHandler C) (x : item) : Prop :=
  ∃ pkt, (pkt ∈ SentPackets.packetHistory h ∨ pkt ∈ sph_queue h) ∧ x ∈ packet_items pkt.

Definition carried s (x : item) : Prop :=
  x ∈ items (queue_of (packer s)) ∨ ∃ id p, paths s !! id = Some p ∧ holds (sph p) x.

(** ** The invariant *)

(** The outstanding packets of a path were written to it. *)
Definition path_inv (l : list entry) (id : Z) p : Prop :=
  pathID p = id ∧ handler_ok (sph p) ∧
  ∀ pkt, pkt ∈ SentPackets.packetHistory (sph p) →
    ∃ pk, Wrote id pk ∈ l ∧ pk_number pk = PacketNumber pkt ∧ packet_items pkt ⊆ packed_items pk.

(** Forward-secure keys protect everything, or nothing was sent with them yet. *)
Definition keys_inv (l : list entry) (cs : CryptoSetup) : Prop :=
  setup_seals cs ∧
  ((GetSealer cs).1 = EncryptionForwardSecure ∨
   (GetSealerForCryptoStream cs).1 <> EncryptionForwardSecure ∧
   ∀ id pk, Wrote id pk ∈ l → pk_encryptionLevel pk <> EncryptionForwardSecure).

(** The path manager takes new path IDs: odd ones on a client, even ones on a server. *)
Definition first_id (pers : Perspective) : Z :=
  match pers with PerspectiveClient => 1 | PerspectiveServer => 2 end.

Definition fresh_inv s : Prop := ∀ pm, s_pathManager s = Some pm →
  nxtPathID pm = first_id (pp_perspective (packer s)) + 2 * Z.of_nat (num_created (log s)) ∧
  ∀ id, is_Some (paths s !! id) → id <> 0 → id mod 2 = nxtPathID pm mod 2 → id < nxtPathID pm.

Definition packet_ok (pkt : receivedPacket) : Prop :=
  0 <= PacketNumberLen (rp_publicHeader pkt) <= 8.

(** [X] is data that is on its way from one place to another. *)
Record inv (X : list item) s : Prop := {
  inv_paths : ∀ id p, paths s !! id = Some p → path_inv (log s) id p;
  inv_tidy : tidy (packer s);
  inv_keys : keys_inv (log s) (pp_cryptoSetup (packer s));
  inv_fresh : fresh_inv s;
  inv_received : Forall packet_ok (receivedPackets s ++ undecryptablePackets s);
  inv_data : ∀ x, written (log s) x → x ∈ X ∨ carried s x ∨ delivered (log s) x;
}.

(** The path IDs are eight bits: the guarantee is for up to 126 created paths. *)
Definition good (X : list item) s : Prop := (num_created (log s) <= 126)%nat → inv X s.

(** ** State changes that keep it *)

Lemma carried_queue s s' x :
  paths s' = paths s → items (queue_of (packer s)) ⊆ items (queue_of (packer s')) → carried s x → carried s' x.
Proof. intros Hp Hq [Hx|Hx]; [left; by apply Hq|right; by rewrite Hp]. Qed.

(** Neither the paths nor the log change, and the queue keeps its data. *)
Lemma inv_same X s s' :
  inv X s → paths s' = paths s → log s' = log s →
  items (queue_of (packer s)) ⊆ items (queue_of (packer s')) →
  pp_cryptoSetup (packer s') = pp_cryptoSetup (packer s) →
  pp_perspective (packer s') = pp_perspective (packer s) → tidy (packer s') →
  option_map nxtPathID (s_pathManager s') = option_map nxtPathID (s_pathManager s) →
  receivedPackets s' = receivedPackets s → undecryptablePackets s' = undecryptablePackets s → inv X s'.
Proof.
  intros [I1 I2 I3 I4 I5 I6] Hp Hl Hq Hc Hpe Ht Hm Hr Hu. split; rewrite ?Hp, ?Hl, ?Hc, ?Hr, ?Hu; try done.
  - unfold fresh_inv. rewrite Hp, Hl, Hpe. intros pm Hpm. rewrite Hpm in Hm.
    destruct (s_pathManager s) as [pm'|] eqn:Em; [|done]. injection Hm as ->. by apply I4.
  - intros x Hx. destruct (I6 x Hx) as [?|[?|?]]; auto. right; left. by eapply carried_queue.
Qed.

(** A path is replaced: it keeps its packets, but for acknowledged ones. *)
Lemma inv_put X s p p' :
  inv X s → paths s !! pathID p' = Some p → handler_ok (sph p') →
  (∀ pkt, pkt ∈ SentPackets.packetHistory (sph p') → pkt ∈ SentPackets.packetHistory (sph p)) →
  (∀ pkt, pkt ∈ SentPackets.packetHistory (sph p) → 
     pkt ∈ SentPackets.packetHistory (sph p') ∨ pkt ∈ sph_queue (sph p') ∨
     acknowledged (log s) (pathID p') (PacketNumber pkt)) →
  (∀ pkt, pkt ∈ sph_queue (sph p) → pkt ∈ sph_queue (sph p') ∨ packet_items pkt ⊆ X) →
  inv X (put_path s p').
Proof.
  intros [I1 I2 I3 I4 I5 I6] Hp Hok Hh1 Hh2 Hq. destruct (I1 _ _ Hp) as (Hid & _ & Hw). split; try done.
  - intros id q. cbn. rewrite lookup_insert_Some. intros [[<- <-]|[Hne Hq']]; [|by apply I1].
    split_and!; [done..|]. intros pkt Hpkt. by apply Hw, Hh1.
  - intros pm Hpm. destruct (I4 pm Hpm) as [Hn Hf]. split; [done|]. intros id. cbn.
    rewrite lookup_insert_is_Some. intros [<-|[_ Hs]]; [|by apply Hf]. apply Hf; by eauto.
  - cbn. intros x Hx. destruct (I6 x Hx) as [?|[[Hx1|(id & q & Hq1 & pkt & Hpkt & Hx1)]|?]]; auto.
    { right; left. by left. }
    destruct (decide (id = pathID p')) as [->|Hne].
    2: { right; left; right. exists id, q. split; [|by exists pkt]. cbn. by rewrite lookup_insert_ne. }
    rewrite Hp in Hq1. injection Hq1 as <-.
    assert ((pkt ∈ SentPackets.packetHistory (sph p') ∨ pkt ∈ sph_queue (sph p')) → carried (put_path s p') x) as Hc.
    { intros Hin. right. exists (pathID p'), p'. split; [cbn; apply lookup_insert_eq|by exists pkt]. }
    destruct Hpkt as [Hpkt|Hpkt].
    + destruct (Hh2 pkt Hpkt) as [?|[?|Ha]]; [by auto..|]. right; right.
      destruct (Hw pkt Hpkt) as (pk & Hpk & Hn & Hi). exists (pathID p'), pk. split_and!; [done|by apply Hi|by rewrite Hn].
    + destruct (Hq pkt Hpkt) as [?|Hsub]; [by auto|]. left. by apply Hsub.
Qed.

Lemma inv_moved X s p p' acked queued :
  inv X s → paths s !! pathID p' = Some p → moved (sph p) (sph p') acked queued →
  Forall (λ pkt, acknowledged (log s) (pathID p') (PacketNumber pkt)) acked → inv X (put_path s p').
Proof.
  intros Hi Hp [Hok Hh Hq _] Ha. rewrite Forall_forall in Ha. eapply inv_put; [done|exact Hp|done|..].
  - intros pkt Hpkt. rewrite Hh, !elem_of_app. tauto.
  - intros pkt Hpkt. rewrite Hh, !elem_of_app in Hpkt. rewrite Hq, elem_of_app. destruct Hpkt as [?|[?|?]]; auto.
  - intros pkt Hpkt. rewrite Hq, elem_of_app. auto.
Qed.

Lemma inv_handler X s id p : inv X s → paths s !! id = Some p → pathID p = id ∧ handler_ok (sph p).
Proof. intros Hi Hp. by destruct (inv_paths X s Hi id p Hp) as (? & ? & _). Qed.

(** The packets of the path stay where they are. *)
Lemma inv_path X s id p p' :
  inv X s → paths s !! id = Some p → pathID p' = pathID p →
  SentPackets.packetHistory (sph p') = SentPackets.packetHistory (sph p) → sph_queue (sph p') = sph_queue (sph p) →
  bytesInFlight (sph p') = bytesInFlight (sph p) →
  lastSentPacketNumber (sph p') = lastSentPacketNumber (sph p) → inv X (put_path s p').
Proof.
  intros Hi Hp Hid Hh Hq Hb Hl. destruct (inv_handler X s id p Hi Hp) as [<- Hok]. rewrite <- Hid in Hp.
  eapply inv_put; [done|exact Hp|..]; rewrite ?Hh, ?Hq; auto. unfold handler_ok. by rewrite Hh, Hb, Hl.
Qed.

(** A new path. *)
Lemma inv_new_path X s s' id p :
  inv X s → paths s !! id = None → pathID p = id → handler_ok (sph p) → SentPackets.packetHistory (sph p) = [] →
  paths s' = <[id := p]> (paths s) → packer s' = packer s →
  (∀ x, written (log s') x → written (log s) x) → (∀ e, e ∈ log s → e ∈ log s') →
  (∀ i pk, Wrote i pk ∈ log s' → Wrote i pk ∈ log s) →
  receivedPackets s' = receivedPackets s → undecryptablePackets s' = undecryptablePackets s →
  fresh_inv s' → inv X s'.
Proof.
  intros [I1 I2 [I3 I3'] I4 I5 I6] Hn Hid Hok Hh Hp Hk Hw Hl Hwl Hr Hu Hf.
  split; rewrite ?Hp, ?Hk, ?Hr, ?Hu; try done.
  - intros id' q. rewrite lookup_insert_Some. intros [[<- <-]|[_ Hq]].
    + split_and!; [done..|]. rewrite Hh. set_solver.
    + destruct (I1 _ _ Hq) as (J1 & J2 & J3). split_and!; [done..|]. intros pkt Hpkt.
      destruct (J3 pkt Hpkt) as (pk & ? & ?). exists pk. by split; [apply Hl|].
  - split; [done|]. destruct I3' as [?|[? Hno]]; [by left|right]. split; [done|]. intros i pk Hpk. by eapply Hno, Hwl.
  - intros x Hx. destruct (I6 x (Hw x Hx)) as [?|[[?|(i & q & Hq & ?)]|(i & pk & Hpk & ? & Ha)]]; auto.
    + right; left; left. by rewrite Hk.
    + right; left; right. exists i, q. split; [|done]. rewrite Hp, lookup_insert_ne; [done|]. intros <-. congruence.
    + right; right. exists i, pk. split_and!; [by apply Hl|done|].
      destruct Ha as [(f & Hf1 & ?)|(f & Hf1 & ?)]; [left|right]; exists f; (split; [by apply Hl|done]).
Qed.

(** An acknowledgement is noted. *)
Lemma inv_note X s e :
  match e with GotAck _ | GotClose _ => True | _ => False end → inv X s → inv X (set_log s (log s ++ [e])).
Proof.
  intros He [I1 I2 [I3 I3'] I4 I5 I6].
  assert (∀ i pk, Wrote i pk ∈ log s ++ [e] → Wrote i pk ∈ log s) as Hw by (destruct e; try done; set_solver).
  assert (num_created (log s ++ [e]) = num_created (log s)) as Hc.
  { rewrite num_created_app. destruct e; try done; cbn; lia. }
  split; cbn [log set_log]; try done.
  - intros id p Hp. destruct (I1 id p Hp) as (J1 & J2 & J3). split_and!; [done..|]. intros pkt Hpkt.
    destruct (J3 pkt Hpkt) as (pk & ? & ?). exists pk. split; [set_solver|done].
  - split; [done|]. destruct I3' as [?|[? Hno]]; [by left|right]. split; [done|]. intros i pk Hpk. by eapply Hno, Hw.
  - unfold fresh_inv. cbn [log set_log s_pathManager paths]. by rewrite Hc.
  - intros x (i & pk & Hpk & Hx). destruct (I6 x) as [?|[?|?]]; [by exists i, pk; split; [apply Hw|]|by auto..|].
    right; right. by apply delivered_app.
Qed.

Lemma inv_weaken X Y s : X ⊆ Y → inv X s → inv Y s.
Proof. intros HXY [I1 I2 I3 I4 I5 I6]. split; try done. intros x Hx. destruct (I6 x Hx) as [?|?]; auto. Qed.

(** ** Sending a packet *)

Lemma kept_items t pk : items (stream_frames (pk_frames pk)) <> [] → 
  ∃ pkt, kept_record t (sent_packet pk) = [pkt] ∧ packet_items pkt = packed_items pk ∧ PacketNumber pkt = pk_number pk.
Proof.
  intros Hne. unfold kept_record. cbn [sent_packet p_Frames].
  destruct (HasRetransmittableFrames (pk_frames pk)) eqn:Eh.
  - eexists. split; [done|]. split; [|done]. unfold packet_items, packed_items, sent_record. cbn.
    unfold GetFramesForRetransmission. cbn. by rewrite stream_frames_strip.
  - exfalso. apply Hne. rewrite HasRetransmittableFrames_strip in Eh. rewrite <- stream_frames_strip.
    by destruct (stripNonRetransmittableFrames (pk_frames pk)).
Qed.

Lemma kept_record_facts t pk pkt :
  pkt ∈ kept_record t (sent_packet pk) → packet_items pkt = packed_items pk ∧ PacketNumber pkt = pk_number pk.
Proof.
  unfold kept_record. destruct (HasRetransmittableFrames _); [|by intros ?%not_elem_of_nil].
  intros ->%list_elem_of_singleton. split; [|done]. unfold packet_items, packed_items, sent_record. cbn.
  unfold GetFramesForRetransmission. cbn. by rewrite stream_frames_strip.
Qed.

(** Whether a packet may be sent: its length is that of a sealed packet, and if it is protected with
    forward-secure keys, all packets are from now on. *)
Definition sendable s (pk : packedPacket) : Prop :=
  0 <= Z.of_nat (length (pk_raw pk)) < 2^32 ∧
  (pk_encryptionLevel pk = EncryptionForwardSecure →
   (GetSealer (pp_cryptoSetup (packer s))).1 = EncryptionForwardSecure).

(** The session after a packet was sent on a path. *)
Definition after_sent s (id : Z) p (h : sentPacketHandler C) (pk : packedPacket) : session C :=
  set_log (put_path s (set_sph p h)) (log s ++ [Wrote id pk]).

Section Sent.
Context (X : list item) (s : session C) (id : Z) (p : path C) (pk : packedPacket) (t : Z) (h : sentPacketHandler C).
Context (Hi : inv (packed_items pk ++ X) s) (Hp : paths s !! id = Some p) (Hlen : 0 <= Z.of_nat (length (pk_raw pk)) < 2^32).
Context (Hs : SentPacket t (sph p) (sent_packet pk) = (None, h)).

Lemma sent_handler :
  handler_ok h ∧ sph_queue h = sph_queue (sph p) ∧
  SentPackets.packetHistory h = SentPackets.packetHistory (sph p) ++ kept_record t (sent_packet pk).
Proof using Hi Hp Hlen Hs.
  destruct (inv_handler _ _ _ _ Hi Hp) as [_ Hok]. exact (SentPacket_ok t (sph p) (sent_packet pk) None h Hok Hlen Hs).
Qed.

Lemma sent_lookup : paths (after_sent s id p h pk) = <[id := set_sph p h]> (paths s).
Proof using Hi Hp. cbn. by rewrite (proj1 (inv_handler _ _ _ _ Hi Hp)). Qed.

Lemma sent_paths id' q : paths (after_sent s id p h pk) !! id' = Some q → path_inv (log s ++ [Wrote id pk]) id' q.
Proof using Hi Hp Hlen Hs.
  rewrite sent_lookup, lookup_insert_Some. destruct sent_handler as (Hok & Hq & Hh).
  assert (∀ q', path_inv (log s) id' q' → path_inv (log s ++ [Wrote id pk]) id' q') as Hmono.
  { intros q' (J1 & J2 & J3). split_and!; [done..|]. intros pkt Hpkt. destruct (J3 pkt Hpkt) as (pk' & ? & ?).
    exists pk'. split; [set_solver|done]. }
  intros [[<- <-]|[_ Hq']]; [|by apply Hmono, (inv_paths _ _ Hi)].
  destruct (Hmono _ (inv_paths _ _ Hi _ _ Hp)) as (J1 & J2 & J3).
  split_and!; [done..|]. cbn [sph set_sph]. intros pkt. rewrite Hh, elem_of_app. intros [Hpkt|Hpkt]; [by apply J3|].
  apply kept_record_facts in Hpkt as [Hx Hn]. exists pk. rewrite Hx. split_and!; [set_solver|done..].
Qed.

Lemma sent_carries x : x ∈ packed_items pk → carried (after_sent s id p h pk) x.
Proof using Hi Hp Hlen Hs.
  intros Hin. right. exists id, (set_sph p h). rewrite sent_lookup, lookup_insert_eq. split; [done|].
  destruct sent_handler as (_ & _ & Hh). destruct (kept_items t pk) as (pkt & Hk & Hpi & _).
  { intros E. unfold packed_items in Hin. rewrite E in Hin. destruct (_ =? _); set_solver. }
  exists pkt. cbn [sph set_sph]. rewrite Hh, Hk, Hpi. split; [set_solver|done].
Qed.

Lemma sent_still_carries x : carried s x → carried (after_sent s id p h pk) x.
Proof using Hi Hp Hlen Hs.
  destruct sent_handler as (_ & Hq & Hh). intros [Hx|(i & q & Hq1 & pkt & Hpkt & Hx)]; [by left|]. right.
  destruct (decide (i = id)) as [->|Hne].
  - rewrite Hp in Hq1. injection Hq1 as <-. exists id, (set_sph p h). rewrite sent_lookup, lookup_insert_eq.
    split; [done|]. exists pkt. cbn [sph set_sph]. rewrite Hh, Hq. split; [set_solver|done].
  - exists i, q. rewrite sent_lookup, lookup_insert_ne by done. split; [done|by exists pkt].
Qed.

Lemma inv_sent : sendable s pk → inv X (after_sent s id p h pk).
Proof using Hi Hp Hlen Hs.
  intros [_ Hfs]. pose proof sent_paths as Hpaths. destruct Hi as [I1 I2 [I3 I3'] I4 I5 I6]. split; try done.
  - split; [done|]. destruct I3' as [?|[Hno1 Hno2]]; [by left|].
    destruct (decide (pk_encryptionLevel pk = EncryptionForwardSecure)) as [Hl|Hl]; [left; by apply Hfs|right].
    split; [done|]. intros i pk'. cbn. rewrite elem_of_app, list_elem_of_singleton. intros [?|[= -> ->]]; [by eapply Hno2|done].
  - unfold fresh_inv. rewrite sent_lookup. cbn [s_pathManager after_sent set_log put_path set_paths log].
    rewrite num_created_app. cbn.
    intros pm Hpm. destruct (I4 pm Hpm) as [Hn Hf]. rewrite Nat.add_0_r. split; [done|]. intros i.
    rewrite lookup_insert_is_Some. intros [<-|[_ ?]]; apply Hf; by eauto.
  - cbn [log after_sent set_log]. intros x [Hx|(i & pk' & Hin & Hx)]%written_app.
    + destruct (I6 x Hx) as [Hx1|[Hx1|Hx1]].
      * apply elem_of_app in Hx1 as [Hx1|Hx1]; [right; left; by apply sent_carries|by left].
      * right; left. by apply sent_still_carries.
      * right; right. by apply delivered_app.
    + apply list_elem_of_singleton in Hin. injection Hin as -> ->. right; left. by apply sent_carries.
Qed.

End Sent.

(** A packet is sent, or the session is as it was and an error is returned. *)
Lemma sendPackedPacket_inv (w : world C) X pk id s :
  sendable s pk → inv (packed_items pk ++ X) s →
  let '(r, s') := sendPackedPacket w pk id s in
  inv X s' ∨ r <> Ok tt ∧ ∀ Y, inv Y s → inv Y s'.
Proof.
  intros Hse Hi. unfold sendPackedPacket. cbv [mbind action_bind]. unfold find_path.
  destruct (paths s !! id) as [p|] eqn:Hp; [|by right; split]. 
  destruct (SentPacket (now w) (sph p) (sent_packet pk)) as [[e|] h] eqn:Es; cbn [upd check ret note].
  - right. split; [done|]. intros Y HY. eapply inv_path; [done|exact Hp|..]; unfold SentPacket in Es;
      (destruct (_ <=? _); [by simplify_eq|]; destruct (_ >? _); by simplify_eq).
  - left. pose proof (inv_sent X s id p pk (now w) h Hi Hp (proj1 Hse) Es Hse) as Hafter.
    by destruct (conn_Write w id (pk_raw pk)).
Qed.

(** ** Packing a packet *)

Definition after_pack s p (g : packetNumberGenerator) (lu : Z) (pk : packetPacker) : session C :=
  set_packer (put_path s (set_numbering p g lu)) pk.

(** What leaves the queue is on its way. *)
Lemma inv_pack X Y s id p g lu pk :
  inv X s → paths s !! id = Some p → items (queue_of (packer s)) ⊆ Y ++ items (queue_of pk) →
  pp_cryptoSetup pk = pp_cryptoSetup (packer s) → pp_perspective pk = pp_perspective (packer s) → tidy pk →
  inv (Y ++ X) (after_pack s p g lu pk).
Proof.
  intros Hi Hp Hq Hc Hpe Ht. assert (inv X (put_path s (set_numbering p g lu))) as [I1 I2 I3 I4 I5 I6]
    by (by eapply inv_path).
  split; try done.
  - cbn [packer after_pack set_packer]. by rewrite Hc.
  - unfold fresh_inv. cbn [packer after_pack set_packer]. by rewrite Hpe.
  - intros x Hx. destruct (I6 x Hx) as [?|[[Hx1|Hx1]|?]]; [set_solver| | |by auto].
    + specialize (Hq x Hx1). apply elem_of_app in Hq as [?|?]; [set_solver|]. right; left. by left.
    + right; left. by right.
Qed.

Lemma sealed_sendable s pk sealer :
  seals sealer → sealed_by sealer (pk_raw pk) →
  (pk_encryptionLevel pk = EncryptionForwardSecure →
   (GetSealer (pp_cryptoSetup (packer s))).1 = EncryptionForwardSecure) → sendable s pk.
Proof. intros Hs Hb Hl. split; [by eapply sealed_length|done]. Qed.

(** A packet from [PackPacket]: nothing waits in the queue unless the keys are forward secure. *)
Lemma inv_packs X s id p g lu packet pk :
  inv X s → paths s !! id = Some p → packs (packer s) id packet pk →
  sendable (after_pack s p g lu pk) packet ∧ inv (packed_items packet ++ X) (after_pack s p g lu pk).
Proof.
  intros Hi Hp [Hset Hpk]. pose proof Hset as (_ & Hpe & _ & Hc & _).
  destruct (inv_keys X s Hi) as [(S1 & S2 & _) Hk].
  destruct Hpk as [(f & Hf & _ & Hcf & Hq & Hl & Hs)|(rest & sfs & Hf & _ & _ & Ht & Hit & Hl & Hs)].
  - split.
    + eapply sealed_sendable; [|exact Hs|]; [done|]. rewrite Hl. cbn. rewrite Hc. by destruct Hk as [?|[? _]].
    + apply (inv_weaken X); [set_solver|]. change X with ([] ++ X). eapply inv_pack; try done; [by rewrite Hq|].
      unfold tidy. rewrite Hcf. apply (inv_tidy X s Hi).
  - split.
    + eapply sealed_sendable; [|exact Hs|]; [done|]. rewrite Hl. cbn. by rewrite Hc.
    + destruct Hk as [Hk|[_ Hno]].
      * eapply inv_pack; try done; [|by apply Ht, (inv_tidy X s Hi)]. unfold packed_items. rewrite Hl, Hk, Z.eqb_refl, Hf.
        rewrite stream_frames_app, stream_frames_streams, items_app, <- app_assoc. rewrite items_app in Hit. set_solver.
      * assert (inv (items sfs ++ X) (after_pack s p g lu pk)) as [I1 I2 I3 I4 I5 I6].
        { eapply inv_pack; try done; [by rewrite <- items_app|]. by apply Ht, (inv_tidy X s Hi). }
        split; try done. intros x (i & pk' & Hin & Hx). unfold packed_items in Hx.
        destruct (Z.eqb_spec (pk_encryptionLevel pk') EncryptionForwardSecure) as [E|]; [|set_solver].
        by destruct (Hno i pk' Hin).
Qed.

(** ** Pings *)

Lemma num_created_pack {A} id (m : packing A) s : log (pack id m s).2 = log s.
Proof. unfold pack. destruct (paths s !! id); [|done]. by destruct (m _) as [r [pk pth]]. Qed.

Lemma sendPing_inv (w : world C) X id s : inv X s → inv X (sendPing w id s).2.
Proof.
  intros Hi. unfold sendPing. cbv [mbind action_bind]. unfold find_path.
  destruct (paths s !! id) as [p|] eqn:Hp; [|done]. unfold pack. rewrite Hp.
  pose proof (PackPing_quiet (now w) (rnd w) mkPingFrame (GetLeastUnacked (sph p)) (packer s) (packet_path s p)) as Hq.
  destruct (PackPing _ _ _ _ _) as [r [pk pth]] eqn:Em. cbn [fst snd] in Hq. destruct Hq as (Hq & Hc & Ht).
  assert (inv X (after_pack s p (pth_generator pth) (pth_leastUnacked pth) pk)) as Hi1.
  { change X with ([] ++ X). eapply inv_pack; try done; [by rewrite Hq|apply Hc..|by apply Ht, (inv_tidy X s Hi)]. }
  destruct r as [[packet|]|e|e]; [|done..].
  apply PackPing_packs in Em; [|apply (inv_tidy X s Hi)].
  change (pth_pathID _) with (pathID p) in Em. rewrite (proj1 (inv_handler _ _ _ _ Hi Hp)) in Em.
  set (s1 := set_packer s (set_control (packer s) (FPing mkPingFrame :: controlFrames (packer s)))).
  assert (inv X s1) as Hi2 by (apply (inv_same X s); try done; by constructor; [|apply (inv_tidy X s Hi)]).
  destruct (inv_packs X s1 id p (pth_generator pth) (pth_leastUnacked pth) packet pk Hi2 Hp Em) as [Hse _].
  pose proof (sendPackedPacket_inv w X packet id (after_pack s p (pth_generator pth) (pth_leastUnacked pth) pk) Hse
    (inv_weaken X (packed_items packet ++ X) _ ltac:(set_solver) Hi1)) as Hs.
  unfold after_pack in *. destruct (sendPackedPacket _ _ _ _) as [r s']. cbn. destruct Hs as [?|[_ Hs]]; auto.
Qed.

(** ** Received packets *)

(** Actions that keep the invariant, whatever they return. *)
Definition keeps {A} (X : list item) (m : action C A) : Prop := grows m ∧ ∀ s, good X s → good X (m s).2.

Lemma grows_created {A} (m : action C A) s : grows m → (num_created (log s) <= num_created (log (m s).2))%nat.
Proof. intros Hm. destruct (Hm s) as [l ->]. rewrite num_created_app. lia. Qed.

(** It is enough to look at sessions with the invariant. *)
Lemma keeps_intro {A} X (m : action C A) : grows m → (∀ s, inv X s → good X (m s).2) → keeps X m.
Proof.
  intros Hg Hm. split; [done|]. intros s Hs Hn. apply Hm; [|done]. apply Hs. pose proof (grows_created m s Hg). lia.
Qed.

Lemma keeps_bind {A B} X (m : action C A) (f : A → action C B) :
  keeps X m → (∀ a, keeps X (f a)) → keeps X (m ≫= f).
Proof.
  intros [Gm Hm] Hf. split; [apply grows_bind; [done|apply Hf]|]. intros s Hs. cbv [mbind action_bind].
  specialize (Hm s Hs). destruct (m s) as [[a|e|e] s1]; cbn in *; [by apply Hf|done..].
Qed.

Lemma keeps_ret {A} X (r : result A) : keeps X (ret r : action C A).
Proof. by split; [apply grows_same|]. Qed.

Lemma keeps_upd X (g : session C → session C) :
  (∀ s, log (g s) = log s) → (∀ s, inv X s → inv X (g s)) → keeps X (upd g).
Proof. intros Hl Hg. apply keeps_intro; [by apply grows_same|]. intros s Hs _. by apply Hg. Qed.

Lemma keeps_each {A} X (f : A → action C unit) l : (∀ a, keeps X (f a)) → keeps X (each f l).
Proof. intros Hf. induction l as [|a l IH]; cbn [each]; [apply keeps_ret|]. apply keeps_bind; auto. Qed.

(** The rest of an action works on the session that was read, or on the path that was found. *)
Lemma keeps_get {A} X (f : session C → action C A) :
  (∀ s, grows (f s)) → (∀ s, inv X s → good X (f s s).2) → keeps X (get ≫= f).
Proof. intros Hg Hf. apply keeps_intro; [by apply grows_bind; [apply grows_same|]|done]. Qed.

Lemma keeps_find_path {A} X id (f : path C → action C A) :
  (∀ p, grows (f p)) → (∀ s p, inv X s → paths s !! id = Some p → good X (f p s).2) →
  keeps X (find_path id ≫= f).
Proof.
  intros Hg Hf. apply keeps_intro; [by apply grows_bind; [apply grows_find_path|]|]. intros s Hs.
  cbv [mbind action_bind]. unfold find_path. destruct (paths s !! id) as [p|] eqn:Hp; [by apply Hf|by intros _].
Qed.

(** Changes of the framer, the streams and the flow controllers keep the queue. *)
Lemma inv_framer X s f :
  inv X s → retransmissionQueue f = retransmissionQueue (framer s) → inv X (with_framer s f).
Proof.
  intros Hi Hf. apply (inv_same X s); try done; [|apply (inv_tidy X s Hi)].
  unfold queue_of. cbn. by rewrite Hf.
Qed.

Section Handlers.
Context (w : world C).

Lemma on_streams_inv {A} X (op : streamLimits → streamsMap → A * streamsMap) s : inv X s → inv X (on_streams op s).2.
Proof. intros Hs. unfold on_streams. destruct (op _ _) as [r m]. by repeat apply inv_framer. Qed.

Lemma on_streams_keeps {A} X (op : streamLimits → streamsMap → result A * streamsMap) : keeps X (on_streams op).
Proof.
  apply keeps_intro; [apply grows_same; intros s; unfold on_streams; by destruct (op _ _)|].
  intros s Hs _. by apply on_streams_inv.
Qed.

Lemma on_stream_keeps {A} X id (op : stream → flowControlManager → result A * stream * flowControlManager) :
  keeps X (on_stream id op : action C A).
Proof.
  apply keeps_intro.
  { apply grows_same. intros s. unfold on_stream. destruct (store _ !! id); [|done]. by destruct (op _ _) as [[? ?] ?]. }
  intros s Hs _. unfold on_stream. destruct (store _ !! id); [|done]. destruct (op _ _) as [[r st] fcm]. cbn [snd].
  by repeat apply inv_framer.
Qed.

Lemma queue_frame_keeps X f id : keeps X (queue_frame f id : action C unit).
Proof.
  apply keeps_upd; [done|]. intros s Hs. apply (inv_same X s); try done; try by destruct f.
  pose proof (inv_tidy X s Hs) as Ht.
  destruct f; try done; (apply Forall_app; split; [apply Ht|by repeat constructor]).
Qed.

Lemma scheduleSending_keeps X : keeps X (scheduleSending : action C unit).
Proof. apply keeps_upd; [done|]. intros s Hs. apply (inv_same X s); try done. apply (inv_tidy X s Hs). Qed.

Lemma schedulePathsFrame_keeps X : keeps X (schedulePathsFrame w).
Proof.
  apply keeps_upd; [done|]. intros s Hs. apply inv_framer; [|done].
  apply (inv_same X s); try done. apply (inv_tidy X s Hs).
Qed.

Lemma keeps_session X : keeps X (get : action C (session C)).
Proof. by split; [apply grows_same|]. Qed.

Lemma keeps_check X e : keeps X (check e : action C unit).
Proof. apply keeps_ret. Qed.

Lemma with_fcm_keeps X fcm : keeps X (upd (λ s, with_fcm s fcm)).
Proof. apply keeps_upd; [done|]. intros s Hs. by apply inv_framer. Qed.

Lemma handleStreamFrame_keeps X f : keeps X (handleStreamFrame f : action C unit).
Proof.
  apply keeps_bind; [apply on_streams_keeps|]. intros [id|]; [apply on_stream_keeps|apply keeps_ret].
Qed.

Lemma handleWindowUpdateFrame_keeps X f : keeps X (handleWindowUpdateFrame f : action C unit).
Proof.
  apply keeps_bind; [|intros _].
  - case_ifs; [apply keeps_ret|]. apply keeps_bind; [apply on_streams_keeps|]. intros [id|]; apply keeps_ret.
  - apply keeps_bind; [apply keeps_session|]. intros s. apply keeps_bind; [apply keeps_ret|]. intros [b fcm].
    apply with_fcm_keeps.
Qed.

Lemma handleRstStreamFrame_keeps X f : keeps X (handleRstStreamFrame f : action C unit).
Proof.
  apply keeps_bind; [apply on_streams_keeps|]. intros [id|]; [|apply keeps_ret].
  apply keeps_bind; [apply on_stream_keeps|]. intros reset. apply keeps_bind.
  { destruct reset as [[i o]|]; [|apply keeps_ret].
    apply keeps_bind; [apply queue_frame_keeps|intros _; apply scheduleSending_keeps]. }
  intros _. apply keeps_bind; [apply keeps_session|]. intros s. destruct (ResetStream _ _ _) as [e fcm].
  apply keeps_bind; [apply with_fcm_keeps|intros _; apply keeps_check].
Qed.

Lemma raise_session_rtt_keeps X rtt : keeps X (raise_session_rtt rtt : action C unit).
Proof.
  apply keeps_find_path; [intros p; cbv zeta; case_match; by apply grows_same|]. intros s p Hs Hp. cbv zeta.
  case_ifs; intros _; [|done]. by eapply inv_path.
Qed.

(** Of a path, only its ID and its ledger of sent packets matter. *)
Definition core p : Z * (list Packet * list Packet * Z * Z) :=
  let h := sph p in
  (pathID p, (SentPackets.packetHistory h, sph_queue h, bytesInFlight h, lastSentPacketNumber h)).

Lemma core_eq p p' : core p' = core p →
  pathID p' = pathID p ∧ SentPackets.packetHistory (sph p') = SentPackets.packetHistory (sph p) ∧
  sph_queue (sph p') = sph_queue (sph p) ∧ bytesInFlight (sph p') = bytesInFlight (sph p) ∧
  lastSentPacketNumber (sph p') = lastSentPacketNumber (sph p).
Proof. by intros [= ? ? ? ? ?]. Qed.

Lemma core_path_inv l id p p' : core p' = core p → path_inv l id p → path_inv l id p'.
Proof.
  intros (E1 & E2 & E3 & E4 & E5)%core_eq. unfold path_inv, handler_ok. by rewrite E1, E2, E4, E5.
Qed.

Lemma core_holds p p' x : core p' = core p → holds (sph p) x → holds (sph p') x.
Proof. intros (_ & E2 & E3 & _)%core_eq. unfold holds. by rewrite E2, E3. Qed.

Lemma inv_cores X s s' :
  inv X s → (∀ i, core <$> paths s' !! i = core <$> paths s !! i) → log s' = log s → packer s' = packer s →
  s_pathManager s' = s_pathManager s → receivedPackets s' = receivedPackets s →
  undecryptablePackets s' = undecryptablePackets s → inv X s'.
Proof.
  intros [I1 I2 I3 I4 I5 I6] Hc Hl Hk Hm Hr Hu.
  assert (∀ i p', paths s' !! i = Some p' → ∃ p, paths s !! i = Some p ∧ core p' = core p) as H1.
  { intros i p' Hp'. specialize (Hc i). rewrite Hp' in Hc. destruct (paths s !! i) as [p|]; [|done].
    exists p. split; [done|]. by apply (inj Some). }
  assert (∀ i p, paths s !! i = Some p → ∃ p', paths s' !! i = Some p' ∧ core p' = core p) as H2.
  { intros i p Hp. specialize (Hc i). rewrite Hp in Hc. destruct (paths s' !! i) as [p'|]; [|done].
    exists p'. split; [done|]. by apply (inj Some). }
  split; rewrite ?Hl, ?Hk, ?Hr, ?Hu; try done.
  - intros i p' Hp'. destruct (H1 i p' Hp') as (p & Hp & Hs). by eapply core_path_inv, I1.
  - unfold fresh_inv. rewrite Hm, Hl, Hk. intros pm Hpm. destruct (I4 pm Hpm) as [Hn Hf]. split; [done|].
    intros i [p' Hp']. destruct (H1 i p' Hp') as (p & Hp & _). apply Hf. by eauto.
  - intros x Hx. destruct (I6 x Hx) as [?|[[?|(i & p & Hp & Hh)]|?]]; auto.
    + right; left; left. by rewrite Hk.
    + right; left; right. destruct (H2 i p Hp) as (p' & Hp' & Hs). exists i, p'. split; [done|by eapply core_holds].
Qed.

Lemma cores_alter (g : path C → path C) id (m : gmap Z (path C)) i :
  (∀ p, core (g p) = core p) → core <$> alter g id m !! i = core <$> m !! i.
Proof.
  intros Hg. destruct (decide (id = i)) as [->|]; [|by rewrite lookup_alter_ne].
  rewrite lookup_alter_eq. destruct (m !! i); cbn; [by rewrite Hg|done].
Qed.

Lemma cores_fmap (g : path C → path C) (m : gmap Z (path C)) i :
  (∀ p, core (g p) = core p) → core <$> (g <$> m) !! i = core <$> m !! i.
Proof. intros Hg. rewrite lookup_fmap. destruct (m !! i); cbn; [by rewrite Hg|done]. Qed.

Lemma core_request_close p : core (request_close p) = core p.
Proof. unfold request_close. by destruct (p_open p). Qed.

Lemma remote_rtts_keeps X n ids rtts : keeps X (remote_rtts n ids rtts : action C unit).
Proof.
  revert ids rtts. induction n as [|n IH]; intros ids rtts; cbn [remote_rtts]; [apply keeps_ret|].
  destruct ids as [|id ids], rtts as [|rtt rtts]; try apply keeps_ret.
  apply keeps_bind; [apply keeps_upd; [done|]; intros s Hs; by apply (inv_cores X s)|intros _].
  apply keeps_bind; [|by intros _]. case_ifs; [|apply keeps_ret].
  apply keeps_upd; [done|]. intros s Hs. apply (inv_cores X s); try done. intros i. by apply cores_alter.
Qed.

Lemma note_keeps X e : match e with GotAck _ | GotClose _ => True | _ => False end → keeps X (note e : action C unit).
Proof. intros He. apply keeps_intro; [apply grows_note|]. intros s Hs _. by apply inv_note. Qed.

Lemma handleAckFrame_grows f : grows (handleAckFrame w f).
Proof. unfold handleAckFrame, raise_session_rtt. grow. Qed.

Lemma handleAckFrame_keeps X f : AckFrame_ok f → keeps X (handleAckFrame w f).
Proof.
  intros Hf. apply keeps_intro; [apply handleAckFrame_grows|]. intros s Hs. unfold handleAckFrame.
  cbv [mbind action_bind]. unfold find_path at 1. destruct (paths s !! ack_PathID f) as [p|] eqn:Hp; [|by intros _].
  destruct (inv_handler _ _ _ _ Hs Hp) as [Hid Hok].
  destruct (ReceivedAck_moved (now w) (sph p) f (lastRcvdPacketNumber p) (lastNetworkActivityTime p) Hok Hf)
    as (a & q & Hm & Ha).
  destruct (ReceivedAck _ _ _ _ _) as [e h]. cbn [snd] in Hm.
  apply (keeps_bind X (check e) _ (keeps_check X e) (λ _, raise_session_rtt_keeps X _)). intros _.
  apply (inv_moved X (set_log s (log s ++ [GotAck f])) p (set_sph p h) a q); try done.
  - by apply inv_note.
  - cbn. by rewrite Hid.
  - eapply Forall_impl; [exact Ha|]. intros pkt Hpkt. left. exists f. split_and!; [cbn; set_solver|by rewrite <- Hid|done].
Qed.

Lemma pm_closePath_keeps X id : keeps X (pm_closePath id : action C unit).
Proof.
  apply keeps_upd; [done|]. intros s Hs. apply (inv_cores X s); try done. intros i. apply cores_alter, core_request_close.
Qed.

Lemma AddClosePath_keeps X f : keeps X (upd (λ s, with_framer s (AddClosePathFrameForTransmission (framer s) f)) : action C unit).
Proof. apply keeps_upd; [done|]. intros s Hs. by apply inv_framer. Qed.

Lemma set_remote_keeps X (g : session C → gset Z) (h : session C → gmap Z Z) :
  keeps X (upd (λ s, set_remote s (g s) (h s)) : action C unit).
Proof. apply keeps_upd; [done|]. intros s Hs. by apply (inv_cores X s). Qed.

Lemma closePath_keeps X id b : keeps X (closePath w id b).
Proof.
  apply keeps_bind; [apply keeps_session|]. intros s0. destruct (paths s0 !! id) as [p0|]; [|apply keeps_ret].
  case_match; [apply keeps_ret|].
  apply keeps_bind; [case_match; [apply pm_closePath_keeps|apply keeps_ret]|intros _].
  apply keeps_bind; [apply set_remote_keeps|intros _]. destruct b; cbn [negb]; [|apply keeps_ret].
  apply keeps_find_path; [intros p; grow|]. intros s p Hs Hp. destruct (inv_handler _ _ _ _ Hs Hp) as [Hid Hok].
  destruct (inflight_lost_moved (now w) (sph p) Hok) as [q Hm].
  apply (keeps_bind X (ret (GetClosePathFrame (rph p))) _ (keeps_ret X _) (λ f, AddClosePath_keeps X _)). intros _.
  eapply (inv_moved X s p); [done| |exact Hm|done]. cbn. by rewrite Hid.
Qed.

Lemma handleClosePathFrame_grows f : grows (handleClosePathFrame w f).
Proof. apply grows_bind; [apply (closePath_keeps [])|]. grow. Qed.

Lemma handleClosePathFrame_keeps X f : ClosePathFrame_ok f → keeps X (handleClosePathFrame w f).
Proof.
  intros Hf. apply keeps_bind; [apply closePath_keeps|intros _]. apply keeps_find_path; [grow|].
  intros s p Hs Hp. destruct (inv_handler _ _ _ _ Hs Hp) as [Hid Hok].
  destruct (ReceivedClosePath_moved (now w) (sph p) f (lastRcvdPacketNumber p) Hok Hf) as (a & q & Hm & Ha).
  destruct (ReceivedClosePath _ _ _ _) as [e h]. cbn [snd] in Hm. apply (keeps_check X e). intros _.
  apply (inv_moved X (set_log s (log s ++ [GotClose f])) p (set_sph p h) a q); try done.
  - by apply inv_note.
  - cbn. by rewrite Hid.
  - eapply Forall_impl; [exact Ha|]. intros pkt Hpkt. right. exists f. split_and!; [cbn; set_solver|by rewrite <- Hid|done].
Qed.

(** *** The path manager *)

Lemma sendPing_grows id : grows (sendPing w id).
Proof. unfold sendPing, sendPackedPacket. grow. Qed.
#[local] Hint Resolve sendPing_grows : grows.

Lemma sendPing_keeps X id : keeps X (sendPing w id).
Proof. apply keeps_intro; [apply sendPing_grows|intros s Hs _; by apply sendPing_inv]. Qed.

Lemma path_setup_new s id c :
  pathID (path_setup w s id c) = id ∧ handler_ok (sph (path_setup w s id c)) ∧
  SentPackets.packetHistory (sph (path_setup w s id c)) = [].
Proof. split_and!; [done| |done]. by repeat constructor. Qed.

Lemma path_manager_keeps X : keeps X (path_manager : action C pathManager).
Proof. split; [apply grows_manager|]. intros s Hs. unfold path_manager. by destruct (s_pathManager s). Qed.

Lemma first_id_bounds pers : 1 <= first_id pers <= 2.
Proof. destruct pers; cbn; lia. Qed.

(** A path the manager creates has a new ID, as long as the IDs do not wrap around. *)
Lemma inv_created X s pm loc rem :
  let id := nxtPathID pm in
  inv X s → s_pathManager s = Some pm → (S (num_created (log s)) <= 126)%nat →
  inv X (set_log (set_manager (set_paths s (<[id := path_setup w s id (loc, rem)]> (paths s)))
    (Some (set_next pm (u8 (id + 2))))) (log s ++ [Created id])).
Proof.
  intros id Hs Hpm Hn. destruct (inv_fresh X s Hs pm Hpm) as [Hid Hold].
  pose proof (first_id_bounds (pp_perspective (packer s))) as Hf.
  assert (1 <= id <= 252) as Hb by (unfold id; lia).
  assert (paths s !! id = None) as Hnone.
  { destruct (paths s !! id) eqn:E; [|done]. specialize (Hold id ltac:(by rewrite E) ltac:(lia) eq_refl).
    unfold id in Hold. lia. }
  destruct (path_setup_new s id (loc, rem)) as (P1 & P2 & P3).
  assert (∀ i pk, Wrote i pk ∈ log s ++ [Created id] → Wrote i pk ∈ log s) as Hw by set_solver.
  eapply inv_new_path; [exact Hs|exact Hnone|exact P1|exact P2|exact P3|try done..].
  - intros x (i & pk & Hin & Hx). exists i, pk. split; [by apply Hw|done].
  - cbn. set_solver.
  - intros pm' [= <-]. cbn [nxtPathID set_next log set_log packer paths set_manager set_paths].
    rewrite num_created_app. unfold u8. rewrite Z.mod_small by lia. split; [cbn; lia|].
    intros i. rewrite lookup_insert_is_Some. intros [<-|[_ Hi]] H0 Hmod; [lia|].
    rewrite Z.add_mod, Z_mod_same_full, Z.add_0_r, Z.mod_mod in Hmod by lia. specialize (Hold i Hi H0 Hmod).
    unfold id in *. lia.
Qed.

Lemma createPath_keeps X loc rem : keeps X (createPath w loc rem).
Proof.
  apply keeps_intro; [unfold createPath; grow|]. intros s Hs. unfold createPath. cbv [mbind action_bind get].
  case_match; [by intros _|]. unfold path_manager. destruct (s_pathManager s) as [pm|] eqn:Hpm; [|by intros _].
  cbn [upd note]. apply sendPing_keeps. intros Hn. refine (inv_created X s pm loc rem Hs Hpm _).
  cbn [log set_log set_manager set_paths] in Hn. rewrite num_created_app in Hn. cbn in Hn. lia.
Qed.

Lemma create_from_keeps X loc : keeps X (create_from w loc).
Proof. apply keeps_bind; [apply path_manager_keeps|]. intros pm. apply keeps_each. intros rem. apply createPath_keeps. Qed.

Lemma advertise_keeps X loc : keeps X (advertise loc : action C unit).
Proof.
  apply keeps_intro; [unfold advertise; grow|]. intros s Hs _. unfold advertise. cbv [mbind action_bind].
  unfold path_manager. destruct (s_pathManager s) as [pm|] eqn:Hpm; [|done]. case_match; [done|]. cbn [snd upd].
  apply (inv_same X s); try done; [apply (inv_tidy X s Hs)|]. by rewrite Hpm.
Qed.

Lemma createPathFromRemote_keeps X pkt : keeps X (createPathFromRemote w pkt).
Proof.
  apply keeps_intro; [unfold createPathFromRemote; grow|]. intros s Hs _. unfold createPathFromRemote.
  cbv [mbind action_bind get]. unfold path_manager. destruct (s_pathManager s) as [pm|] eqn:Hpm; [|done].
  set (id := hdr_PathID (rp_publicHeader pkt)). case_match eqn:He; [done|]. apply bool_decide_eq_false in He.
  assert (first_id (pp_perspective (packer s)) mod 2 <> id mod 2 →
    inv X (set_paths s (<[id := path_setup w s id (rp_rcvPconn pkt, rp_remoteAddr pkt)]> (paths s)))) as Hnew.
  { intros Hpar. destruct (path_setup_new s id (rp_rcvPconn pkt, rp_remoteAddr pkt)) as (P1 & P2 & P3).
    eapply inv_new_path; [exact Hs| |exact P1|exact P2|exact P3|try done..].
    { by destruct (paths s !! id); [destruct He|]. }
    intros pm' Hpm'. destruct (inv_fresh X s Hs pm' Hpm') as [Hn Hold]. split; [done|]. intros i. cbn [paths set_paths].
    rewrite lookup_insert_is_Some. intros [<-|[_ Hi]] H0 Hmod; [|by apply Hold].
    exfalso. apply Hpar. rewrite Hmod, Hn, Z.mul_comm, Z_mod_plus_full. done. }
  destruct (pp_perspective (packer s)) eqn:Hpe, (Z.eqb_spec (id mod 2) 0) as [E|E]; cbn; try done; apply Hnew.
  - change (2 mod 2 <> id mod 2). change (2 mod 2) with 0. lia.
  - change (1 mod 2 <> id mod 2). by rewrite E.
Qed.

Lemma pm_createPaths_keeps X : keeps X (pm_createPaths w).
Proof.
  apply keeps_bind; [apply keeps_session|]. intros s. destruct (pp_perspective _).
  - apply keeps_bind; [apply path_manager_keeps|]. intros pm. apply keeps_each. intros loc. apply advertise_keeps.
  - apply keeps_bind; [apply path_manager_keeps|]. intros pm.
    apply keeps_bind; [apply keeps_each; intros loc; apply create_from_keeps|intros _; apply schedulePathsFrame_keeps].
Qed.

Lemma handleAddAddressFrame_keeps X f : keeps X (handleAddAddressFrame w f).
Proof.
  assert (keeps X (s ← get; if createPaths s then pm_createPaths w else skip)) as Hk.
  { apply keeps_bind; [apply keeps_session|]. intros s. case_match; [apply pm_createPaths_keeps|apply keeps_ret]. }
  apply keeps_intro.
  { apply grows_bind; [apply grows_manager|]. intros pm. apply grows_bind; [|intros _; apply Hk].
    repeat case_match; by apply grows_same. }
  intros s Hs. unfold handleAddAddressFrame. cbv [mbind action_bind]. unfold path_manager.
  destruct (s_pathManager s) as [pm|] eqn:Hpm; [|by intros _].
  assert (∀ r4 r6 ad, inv X (set_manager s (Some (set_addrs pm r4 r6 ad)))) as Ha.
  { intros r4 r6 ad. apply (inv_same X s); try done; [apply (inv_tidy X s Hs)|]. by rewrite Hpm. }
  destruct (_ =? 4); [|destruct (_ =? 6)]; [apply Hk; intros _; apply Ha..|by intros _].
Qed.

Lemma tolerate_keeps X m : keeps X m → keeps X (tolerate m : action C unit).
Proof.
  intros [Hg Hm]. split; intros s; [specialize (Hg s)|intros Hs; specialize (Hm s Hs)]; unfold tolerate;
    destruct (m s) as [[[]|e|e] s']; try done; by destruct (ignored e).
Qed.

Lemma ignore_error_keeps {A} X (m : action C A) : keeps X m → keeps X (ignore_error m).
Proof.
  intros [Hg Hm]. split; intros s; [specialize (Hg s)|intros Hs; specialize (Hm s Hs)]; unfold ignore_error;
    by destruct (m s) as [[a|e|e] s'].
Qed.

Lemma then_paths_frame_keeps X m : keeps X m → keeps X (then_paths_frame w m).
Proof.
  intros [Hg Hm]. destruct (schedulePathsFrame_keeps X) as [Hg' Hm'].
  split; intros s; [specialize (Hg s)|intros Hs; specialize (Hm s Hs)]; unfold then_paths_frame;
    destruct (m s) as [[a|e|e] s']; cbn [snd] in *; try done; by apply Hm'.
Qed.

Lemma close_once_keeps X c : keeps X (close_once c : action C unit).
Proof.
  apply keeps_upd; [intros s; by destruct (closeChan s)|]. intros s Hs. destruct (closeChan s); [done|].
  by apply (inv_cores X s).
Qed.

Lemma handleFrame_keeps X f level id : level_ok level f → keeps X (handleFrame w f id).
Proof.
  intros Hf. destruct f; cbn [handleFrame].
  - apply handleStreamFrame_keeps.
  - by apply handleAckFrame_keeps.
  - apply handleRstStreamFrame_keeps.
  - apply close_once_keeps.
  - apply keeps_ret.
  - apply handleWindowUpdateFrame_keeps.
  - apply keeps_upd; [done|]. intros s Hs. by apply (inv_cores X s).
  - apply keeps_find_path; [intros p; by apply grows_same|]. intros s p Hs Hp _. by eapply inv_path.
  - apply keeps_ret.
  - apply keeps_bind; [apply keeps_session|]. intros s. destruct (s_pathManager s); [|apply keeps_ret].
    apply then_paths_frame_keeps, handleAddAddressFrame_keeps.
  - by apply ignore_error_keeps, handleClosePathFrame_keeps.
  - apply remote_rtts_keeps.
Qed.

Lemma handleFrames_grows fs id : grows (handleFrames w fs id).
Proof.
  apply grows_each. intros f s. assert (grows (handleFrame w f id)) as Hg.
  { destruct f as [f|f|f|f|f|f|f|f|f|f|f|f]; try by eapply (handleFrame_keeps [] _ 0 id); try right.
    - by eapply (handleStreamFrame_keeps []).
    - apply handleAckFrame_grows.
    - intros s'. cbn [handleFrame]. unfold ignore_error. destruct (handleClosePathFrame_grows f s') as [l Hl]. exists l.
      by destruct (handleClosePathFrame w f s') as [[]]. }
  unfold tolerate. destruct (Hg s) as [l Hl]. exists l. destruct (handleFrame w f id s) as [[[]|e|e] s']; try done.
  by destruct (ignored e).
Qed.
#[local] Hint Resolve handleFrames_grows : grows.

Lemma handleFrames_keeps X fs level id : Forall (level_ok level) fs → keeps X (handleFrames w fs id).
Proof.
  intros Hfs. unfold handleFrames. induction Hfs as [|f fs Hf _ IH]; cbn [each]; [apply keeps_ret|].
  apply keeps_bind; [by eapply tolerate_keeps, handleFrame_keeps|by intros _].
Qed.

(** *** Packets *)

Lemma inv_core X s id p p' : inv X s → paths s !! id = Some p → core p' = core p → inv X (put_path s p').
Proof. intros Hs Hp (E1 & E2 & E3 & E4 & E5)%core_eq. by eapply inv_path. Qed.

Lemma inv_core2 X s id p p1 p2 :
  inv X s → paths s !! id = Some p → core p1 = core p → core p2 = core p → inv X (put_path (put_path s p1) p2).
Proof.
  intros Hs Hp H1 H2. eapply inv_core; [by eapply inv_core|cbn; apply lookup_insert_eq|congruence].
Qed.

(** The AEAD that opens packets releases bytes. *)
Context (Hopen : ∀ d pn ad, match aead_Open w d pn ad with Ok (b, _) => bytes_ok b | Err _ => True | Panic _ => False end).

Lemma path_handlePacketImpl_grows id pkt : grows (path_handlePacketImpl w id pkt).
Proof.
  unfold path_handlePacketImpl. grow.
Qed.

Lemma path_handlePacketImpl_keeps X id pkt : packet_ok pkt → keeps X (path_handlePacketImpl w id pkt).
Proof.
  intros Hpkt. apply keeps_intro; [apply path_handlePacketImpl_grows|]. intros s Hs. unfold path_handlePacketImpl.
  cbv [mbind action_bind]. unfold find_path. destruct (paths s !! id) as [p|] eqn:Hp; [|by intros _].
  case_match; [by intros _|]. cbv [get upd]. cbv zeta.
    match goal with |- context [put_path s ?q] => set (p1 := q) end. set (hdr := infer_number p1 _).
    set (p' := match pp_perspective _ with PerspectiveServer => _ | _ => _ end).
    assert (core p' = core p) as Hc by (unfold p'; by destruct (pp_perspective _)).
    assert (inv X (put_path s p1)) as Hs1 by (by eapply inv_core).
    pose proof (Unpack_accepts (code_String w) _ (pp_version (packer (put_path s p1))) (Raw hdr) hdr (rp_data pkt) Hopen Hpkt) as Hu.
    destruct (Unpack _ _ _ _ _ _) as [u|e|e]; [|destruct (is_decryption_failure e); intros _; [done|by eapply inv_core2]|done].
    destruct (rph_ReceivedPacket _ _ _ _) as [h e].
    apply (keeps_bind X (check e) _ (keeps_check X e) (λ _, handleFrames_keeps X _ _ id Hu)). intros _. by eapply inv_core2.
Qed.

Lemma set_activity_keeps X (g : session C → Z) b : keeps X (upd (λ s, set_activity s (g s) b) : action C unit).
Proof. apply keeps_upd; [done|]. intros s Hs. by apply (inv_cores X s). Qed.

Lemma handlePacketImpl_keeps X pkt : packet_ok pkt → keeps X (handlePacketImpl w pkt).
Proof.
  intros Hpkt. apply keeps_bind; [apply set_activity_keeps|intros _].
  apply keeps_bind; [apply keeps_session|]. intros s. apply keeps_bind; [|intros _; by apply path_handlePacketImpl_keeps].
  destruct (paths s !! _); [apply keeps_ret|apply createPathFromRemote_keeps].
Qed.

(** The queues of received packets. *)
Lemma inv_received_packets X s s' :
  inv X s → paths s' = paths s → log s' = log s → packer s' = packer s → s_pathManager s' = s_pathManager s →
  Forall packet_ok (receivedPackets s' ++ undecryptablePackets s') → inv X s'.
Proof.
  intros [I1 I2 I3 I4 I5 I6] Hp Hl Hk Hm Hf. split; rewrite ?Hp, ?Hl, ?Hk; try done.
  - unfold fresh_inv. by rewrite Hm, Hp, Hl, Hk.
  - unfold carried. by rewrite Hk, Hp.
Qed.

Lemma handlePacket_keeps X pkt : packet_ok pkt → keeps X (handlePacket pkt : action C unit).
Proof.
  intros Hpkt. apply keeps_upd; [intros s; by case_match|]. intros s Hs. case_match; [|done].
  apply (inv_received_packets X s); try done. pose proof (inv_received X s Hs) as Hr. cbn.
  rewrite !Forall_app in *. destruct Hr as [R1 R2]. by split_and!; [|constructor|].
Qed.

Lemma tryQueueing_keeps X pkt : packet_ok pkt → keeps X (tryQueueingUndecryptablePacket w pkt).
Proof.
  intros Hpkt. apply keeps_upd; [intros s; by repeat case_match|]. intros s Hs.
  pose proof (inv_received X s Hs) as Hr.
  repeat case_match; try done; apply (inv_received_packets X s); try done.
  cbn. rewrite !Forall_app in *. destruct Hr as [R1 R2]. by split_and!; [| |constructor].
Qed.

Lemma handlePackets_keeps X l : Forall packet_ok l → keeps X (each handlePacket l : action C unit).
Proof.
  induction 1 as [|pkt l Hpkt _ IH]; cbn [each]; [apply keeps_ret|].
  apply keeps_bind; [by apply handlePacket_keeps|by intros _].
Qed.

Lemma handlePacket_grows pkt : grows (handlePacket pkt : action C unit).
Proof. apply grows_same. intros s. unfold handlePacket. cbn. by case_match. Qed.
#[local] Hint Resolve handlePacket_grows : grows.

Lemma tryDecrypting_keeps X : keeps X (tryDecryptingQueuedPackets : action C unit).
Proof.
  apply keeps_get; [grow|]. intros s Hs.
  pose proof (inv_received X s Hs) as Hr. apply Forall_app in Hr as [_ Hr].
  apply (keeps_bind X _ _ (handlePackets_keeps X _ Hr)); [|by intros _].
  intros _. apply keeps_upd; [done|]. intros s' Hs'. apply (inv_received_packets X s'); try done.
  pose proof (inv_received X s' Hs') as Hr'. cbn. rewrite !Forall_app in *. by split; [apply Hr'|constructor].
Qed.

Lemma handlePacketImpl_grows pkt : grows (handlePacketImpl w pkt).
Proof.
  apply grows_bind; [by apply grows_same|intros _]. apply grows_bind; [by apply grows_same|]. intros s.
  apply grows_bind; [|intros _; apply path_handlePacketImpl_grows].
  destruct (paths s !! _); [by apply grows_same|]. apply (createPathFromRemote_keeps []).
Qed.

Lemma take_packet_grows : grows (take_packet w).
Proof.
  intros s. unfold take_packet. destruct (receivedPackets s) as [|pkt rest]; [by exists []; rewrite app_nil_r|].
  cbv zeta. set (s1 := set_queues s rest _). destruct (handlePacketImpl_grows pkt s1) as [l Hl].
  exists l. change (log s) with (log s1). rewrite <- Hl.
  destruct (handlePacketImpl w pkt s1) as [[u|e|e] s']; cbn [snd]; [done| |done].
  destruct (is_decryption_failure e); cbn; by repeat case_match.
Qed.

Lemma take_packet_keeps X : keeps X (take_packet w).
Proof.
  apply keeps_intro; [apply take_packet_grows|]. intros s Hs. unfold take_packet.
  destruct (receivedPackets s) as [|pkt rest] eqn:Er; [by intros _|]. cbv zeta. set (s1 := set_queues s rest _).
  pose proof (inv_received X s Hs) as Hr. rewrite Er in Hr. cbn in Hr. apply Forall_cons in Hr as [Hpkt Hr].
  assert (inv X s1) as Hs1 by (by apply (inv_received_packets X s)).
  assert (good X (handlePacketImpl w pkt s1).2) as Hg by (by apply handlePacketImpl_keeps; [|intros _]).
  destruct (handlePacketImpl w pkt s1) as [[u|e|e] s']; [done| |done].
  destruct (is_decryption_failure e); cbn [snd]; [by apply tryQueueing_keeps|by apply close_once_keeps].
Qed.

Lemma path_alarm_keeps X id : keeps X (path_alarm w id).
Proof.
  apply keeps_find_path; [grow|]. intros s p Hs Hp. cbv zeta. case_match; [by intros _|].
  destruct (inv_handler _ _ _ _ Hs Hp) as [Hid Hok].
  match goal with |- context [OnAlarm _ ?o _] => destruct (OnAlarm_moved (now w) o (sph p) Hok) as [q Hm] end.
  cbv [mbind action_bind upd].
  assert (∀ a b c, inv X (put_path s (set_flags (set_sph p (OnAlarm (now w)
    (Some (λ lastSent, lastNetworkActivityTime p <? lastSent)) (sph p))) a b c))) as Hi.
  { intros a b c. eapply (inv_moved X s p); [done| |exact Hm|done]. cbn. by rewrite Hid. }
  case_match; [apply schedulePathsFrame_keeps|]; intros _; apply Hi.
Qed.

Lemma take_event_keeps X ev : keeps X (take_event w ev).
Proof.
  destruct ev; cbn [take_event].
  - apply keeps_ret.
  - apply keeps_bind; [|intros _; apply keeps_ret]. apply keeps_upd; [done|]. intros s Hs. by apply (inv_cores X s).
  - apply keeps_bind; [apply path_alarm_keeps|intros _; apply keeps_ret].
  - apply take_packet_keeps.
  - apply keeps_bind; [apply tryDecrypting_keeps|intros _; apply keeps_ret].
  - apply keeps_bind; [|intros _; apply keeps_ret]. apply keeps_upd; [done|]. intros s Hs. by apply (inv_cores X s).
Qed.

End Handlers.

End Reliability.
