(* ===== verification/Delivery.v ===== *)
(** * No stream data is lost by a session: sending, and whole runs

    The sending loop keeps the invariant of Reliability.v when it returns without an error, and so
    does every turn of the event loop; over all runs of a session, no data that was sent in
    forward-secure packets is lost. *)

From S2P Require Import Prelude ByteOrder Protocol Frames StreamFrame AckFrame ClosePathFrame PublicHeader Unpacker.
From S2P Require Import ReceivedPackets FlowControl Stream StreamScheduler StreamsMap PathScheduler StreamFramer.
From S2P Require Import Congestion SentPackets Handshake ConnectionParameters Packer Transmission Paths Session SendLoop.
From S2P Require Import Reliability.

Create HintDb passes discriminated.

Lemma iterate_loop_inv {St} (P : St → Prop) map_of (fn : stream_lambda St) ids st :
  (∀ id st, P st → P (fn id st).2) → P st → P (iterate_loop map_of fn ids st).2.
Proof.
  intros Hfn. revert st. induction ids as [|id ids IH]; intros st Hst; cbn [iterate_loop]; [done|]. unfold iterateFunc.
  case_bool_decide; [|done]. pose proof (Hfn id st Hst) as Hc.
  destruct (fn id st) as [[cont [e|]] st1]; [done|]. destruct cont; [by apply IH|done].
Qed.

Section Sending.
Context {C : Type} `{SendAlgorithm C} (w : world C).
Implicit Types (s : session C) (p : path C).

(** The session has the invariant, and few enough paths. *)
Definition sound X s : Prop := (num_created (log s) <= 126)%nat ∧ inv X s.

(** Actions that create no paths and keep the invariant when they return. *)
Definition passes {A} (X : list item) (m : action C A) : Prop :=
  ∀ s a s', sound X s → m s = (Ok a, s') → num_created (log s') = num_created (log s) ∧ inv X s'.

Lemma passes_sound {A} X (m : action C A) s a s' : passes X m → sound X s → m s = (Ok a, s') → sound X s'.
Proof. intros Hm Hs E. destruct (Hm _ _ _ Hs E) as [N I]. destruct Hs. split; [lia|done]. Qed.

Lemma passes_bind {A B} X (m : action C A) (f : A → action C B) :
  passes X m → (∀ a, passes X (f a)) → passes X (m ≫= f).
Proof.
  intros Hm Hf s b s' Hs E. apply bind_ok in E as (a & s1 & E1 & E2). pose proof (passes_sound _ _ _ _ _ Hm Hs E1) as H1.
  destruct (Hm _ _ _ Hs E1) as [N1 _], (Hf a _ _ _ H1 E2) as [N2 H2]. split; [congruence|done].
Qed.

Lemma passes_upd X (g : session C → session C) :
  (∀ s, log (g s) = log s) → (∀ s, inv X s → inv X (g s)) → passes X (upd g).
Proof. intros Hl Hg s a s' Hs [= <- <-]. rewrite Hl. split; [done|]. apply Hg, Hs. Qed.

Lemma passes_ret {A} X (r : result A) : passes X (ret r : action C A).
Proof. intros s a s' [_ Hs] [= _ <-]. done. Qed.

Lemma passes_get X : passes X (get : action C (session C)).
Proof. intros s a s' [_ Hs] [= <- <-]. done. Qed.

Lemma passes_each {A} X (f : A → action C unit) l : (∀ a, passes X (f a)) → passes X (each f l).
Proof. intros Hf. induction l as [|a l IH]; cbn [each]; [apply passes_ret|]. apply passes_bind; auto. Qed.

Lemma passes_find_path X id : passes X (find_path id : action C (path C)).
Proof. intros s p s' [_ Hs] [_ ->]%find_path_ok. done. Qed.

(** Actions that do not write to the log. *)
Lemma passes_keeps {A} X (m : action C A) : keeps X m → (∀ s, log (m s).2 = log s) → passes X m.
Proof.
  intros [_ Hm] Hl s a s' [Hn Hs] E. specialize (Hm s (λ _, Hs)). specialize (Hl s). rewrite E in Hm, Hl. cbn in *.
  rewrite Hl. split; [done|]. apply Hm. by rewrite Hl.
Qed.

Ltac pass :=
  repeat first
    [ solve [auto with passes] | apply passes_bind | match goal with |- ∀ _, passes _ _ => intros ? end | apply passes_find_path | apply passes_get
    | apply passes_each | apply passes_ret
    | match goal with
      | |- passes _ (match ?x with _ => _ end) => destruct x
      | |- passes _ (let _ := _ in _) => cbv zeta
      end ].

(** ** Frames that are queued *)

Lemma queue_frame_passes X f id : passes X (queue_frame f id : action C unit).
Proof. by apply passes_keeps; [apply queue_frame_keeps|]. Qed.

Lemma schedulePathsFrame_passes X : passes X (schedulePathsFrame w).
Proof. by apply passes_keeps; [apply schedulePathsFrame_keeps|]. Qed.

Lemma with_framer_passes X (g : session C → streamFramer) :
  (∀ s, retransmissionQueue (g s) = retransmissionQueue (framer s)) → passes X (upd (λ s, with_framer s (g s))).
Proof. intros Hg. apply passes_upd; [done|]. intros s Hs. by apply inv_framer. Qed.

Lemma path_frames_passes X (g h : session C → _) :
  passes X (upd (λ s, set_packer s (set_path_frames (packer s) (g s) (h s))) : action C unit).
Proof. apply passes_upd; [done|]. intros s Hs. apply (inv_same X s); try done. apply (inv_tidy X s Hs). Qed.

#[local] Hint Resolve queue_frame_passes schedulePathsFrame_passes path_frames_passes : passes.

Lemma queue_ack_passes X ack id : passes X (queue_ack ack id : action C unit).
Proof. destruct ack; cbn [queue_ack]; auto with passes. Qed.

Lemma queue_stop_waiting_passes X swf id : passes X (queue_stop_waiting swf id : action C unit).
Proof. destruct swf; cbn [queue_stop_waiting]; pass. Qed.

Lemma set_stop_waiting_passes X swf id : passes X (set_stop_waiting swf id : action C unit).
Proof. destruct swf; cbn [set_stop_waiting]; auto with passes. Qed.

Lemma queue_windows_passes X wus id : passes X (queue_windows wus id : action C unit).
Proof. unfold queue_windows. pass. Qed.

Lemma pop_all_passes {A} X (pop : streamFramer → option A * streamFramer) (wrap : A → frame) id n :
  (∀ f, retransmissionQueue (pop f).2 = retransmissionQueue f) → passes X (pop_all pop wrap id n : action C unit).
Proof.
  intros Hpop. induction n as [|n IH]; cbn [pop_all]; [apply passes_ret|]. intros s a s' Hs E.
  apply bind_ok in E as (s0 & s1 & [= <- <-] & E). specialize (Hpop (framer s)).
  destruct (pop (framer s)) as [[x|] f]; cbn in Hpop;
    assert (sound X (with_framer s f)) as Hs1 by (split; [apply Hs|by apply inv_framer; [apply Hs|]]); run_ok; [|by split; [|apply Hs1]].
  match goal with E : pop_all _ _ _ _ ?s2 = _ |- _ =>
    pose proof (passes_sound _ _ _ tt s2 (queue_frame_passes X (wrap x) id) Hs1 eq_refl) as Hs2;
    destruct (IH _ _ _ Hs2 E) as [N I] end.
  done.
Qed.

Lemma queue_framer_frames_passes X id : passes X (queue_framer_frames id : action C unit).
Proof.
  apply passes_bind; [apply passes_get|intros s]. apply passes_bind; [|intros _; apply passes_bind; [|intros _]];
    apply pop_all_passes; intros f; unfold PopClosePathFrame, PopAddAddressFrame; by try case_match.
Qed.

#[local] Hint Resolve queue_ack_passes queue_stop_waiting_passes set_stop_waiting_passes queue_windows_passes
  queue_framer_frames_passes : passes.

(** ** What is read of paths, flow controllers and schedulers *)

Lemma path_GetAckFrame_passes X id : passes X (path_GetAckFrame w id).
Proof.
  intros s ack s' [_ Hs] E. apply path_GetAckFrame_ok in E as (p & oa & h & Hp & _ & -> & _). split; [done|].
  by eapply inv_core.
Qed.

Lemma path_GetStopWaitingFrame_passes X id force : passes X (path_GetStopWaitingFrame id force : action C _).
Proof.
  intros s ack s' [_ Hs] E. apply path_GetStopWaitingFrame_ok in E as (p & Hp & ->). split; [done|].
  unfold SentPackets.GetStopWaitingFrame. destruct (sw_GetStopWaitingFrame _ _). by eapply inv_path.
Qed.

Lemma getWindowUpdateFrames_passes X force : passes X (getWindowUpdateFrames w force).
Proof.
  intros s wus s' [_ Hs] E. unfold getWindowUpdateFrames in E. run_ok. split; [done|]. by apply inv_framer.
Qed.

Lemma session_selectPath_passes X has hasStream from : passes X (session_selectPath w has hasStream from).
Proof.
  intros s o s' [_ Hs] E. unfold session_selectPath in E. run_ok. split; [done|]. apply inv_framer; [|done].
  by apply (inv_cores X s).
Qed.

Lemma count_quota_passes X id : passes X (count_quota id : action C unit).
Proof. apply passes_upd; [done|]. intros s Hs. by apply (inv_cores X s). Qed.

Lemma set_blocked_passes X b : passes X (upd (λ s, set_blocked s b) : action C unit).
Proof. apply passes_upd; [done|]. intros s Hs. by apply (inv_cores X s). Qed.

Lemma update_least_unacked_passes X : passes X (update_least_unacked : action C unit).
Proof. apply passes_upd; [done|]. intros s Hs. apply (inv_cores X s); try done. intros i. by apply cores_fmap. Qed.

#[local] Hint Resolve path_GetAckFrame_passes path_GetStopWaitingFrame_passes getWindowUpdateFrames_passes
  session_selectPath_passes count_quota_passes set_blocked_passes update_least_unacked_passes : passes.

(** ** Packets *)

Lemma sent_sound X s packet id u s' :
  (num_created (log s) <= 126)%nat → sendable s packet → inv (packed_items packet ++ X) s →
  sendPackedPacket w packet id s = (Ok u, s') → num_created (log s') = num_created (log s) ∧ inv X s'.
Proof.
  intros Hn Hse Hi E. pose proof (sendPackedPacket_inv w X packet id s Hse Hi) as Hs. rewrite E in Hs.
  split; [|destruct Hs as [?|[Hr _]]; [done|by destruct u]].
  apply sendPackedPacket_ok in E as (p & h & _ & _ & ->). cbn [log set_log put_path set_paths].
  rewrite num_created_app. cbn. lia.
Qed.

(** A packet without stream data of forward-secure keys. *)
Lemma bare_sound X s id p g lu pk packet sealer u s' :
  sound X s → paths s !! id = Some p → queue_of pk = queue_of (packer s) →
  controlFrames pk = controlFrames (packer s) → keeps_setup (packer s) pk → packed_items packet = [] →
  seals sealer → sealed_by sealer (pk_raw packet) →
  (pk_encryptionLevel packet = EncryptionForwardSecure →
   (GetSealer (pp_cryptoSetup (packer s))).1 = EncryptionForwardSecure) →
  sendPackedPacket w packet id (after_pack s p g lu pk) = (Ok u, s') →
  num_created (log s') = num_created (log s) ∧ inv X s'.
Proof.
  intros [Hn Hs] Hp Hq Hc (_ & Hpe & _ & Hcs & _) Hit Hse Hb Hl E.
  assert (inv ([] ++ X) (after_pack s p g lu pk)) as Hi.
  { eapply inv_pack; try done; [by rewrite Hq|]. unfold tidy. rewrite Hc. apply (inv_tidy X s Hs). }
  eapply (sent_sound X (after_pack s p g lu pk)); [done| |by rewrite Hit|exact E].
  eapply sealed_sendable; [done..|]. cbn. by rewrite Hcs.
Qed.

(** What PackPacket gives is sent. *)
Lemma pack_send_sound X id s packet s1 u s' :
  sound X s → pack id (PackPacket (now w) (rnd w)) s = (Ok (Some packet), s1) →
  sendPackedPacket w packet id s1 = (Ok u, s') → num_created (log s') = num_created (log s) ∧ inv X s'.
Proof.
  intros [Hn Hs] (p & pk & pth & Hp & Em & ->)%pack_ok E.
  apply PackPacket_packs in Em; [|apply (inv_tidy X s Hs)]. change (pth_pathID _) with (pathID p) in Em.
  rewrite (proj1 (inv_handler _ _ _ _ Hs Hp)) in Em.
  destruct (inv_packs X s id p (pth_generator pth) (pth_leastUnacked pth) packet pk Hs Hp Em) as [Hse Hi].
  by eapply (sent_sound X (after_pack s p (pth_generator pth) (pth_leastUnacked pth) pk)).
Qed.

Lemma pack_none_sound X id s s' :
  sound X s → pack id (PackPacket (now w) (rnd w)) s = (Ok None, s') →
  num_created (log s') = num_created (log s) ∧ inv X s'.
Proof.
  intros [Hn Hs] (p & pk & pth & Hp & Em & ->)%pack_ok.
  apply PackPacket_none in Em as ((_ & Hpe & _ & Hc & _) & Ht & Hq); [|apply (inv_tidy X s Hs)]. split; [done|].
  change X with ([] ++ X). by eapply inv_pack.
Qed.

Lemma performPacketSending_passes X wus id : passes X (performPacketSending w wus id).
Proof.
  apply passes_bind; [apply passes_find_path|intros p]. apply passes_bind; [pass|intros _].
  intros s o s' Hs E. apply bind_ok in E as ([packet|] & s1 & Ep & E).
  2: { run_ok. by eapply pack_none_sound. }
  apply bind_ok in E as (u & s2 & E2 & E). destruct (pack_send_sound X id s packet s1 u s2 Hs Ep E2) as [N2 I2].
  assert (passes X (_ ← queue_windows wus id; _ ← count_quota id; mret (Some (sent_packet packet)) : action C _)) as Hr.
  { pass. }
  rewrite <- N2. eapply Hr; [|exact E]. split; [rewrite N2; apply Hs|done].
Qed.

Lemma PackAckPacket_sound X id s packet s1 u s' :
  sound X s → pack id (PackAckPacket (now w) (rnd w)) s = (Ok packet, s1) →
  sendPackedPacket w packet id s1 = (Ok u, s') → num_created (log s') = num_created (log s) ∧ inv X s'.
Proof.
  intros Hs (p & pk & pth & Hp & Em & ->)%pack_ok E.
  apply PackAckPacket_facts in Em as (Hf & Hq & Hc & Hk & Hl & Hb).
  destruct (inv_keys X s (proj2 Hs)) as [(S1 & _ & _) _].
  eapply (bare_sound X s id p); [done..| |exact S1|exact Hb|by rewrite Hl|exact E].
  unfold packed_items. rewrite Hf. by case_match.
Qed.

Lemma ack_path_passes X wus id : passes X (ack_path w wus id).
Proof.
  apply passes_bind; [auto with passes|intros ack]. apply passes_bind; [auto with passes|intros _].
  case_match; [apply passes_ret|]. apply passes_bind; [auto with passes|intros swf].
  do 2 (apply passes_bind; [auto with passes|intros _]).
  intros s u s' Hs E. apply bind_ok in E as (o & s1 & Ep & E). destruct ack as [ack|].
  - run_ok. by eapply PackAckPacket_sound.
  - destruct o as [packet|]; [|done]. by eapply pack_send_sound.
Qed.
#[local] Hint Resolve performPacketSending_passes ack_path_passes : passes.

Lemma ackRemainingPaths_passes X wus : passes X (ackRemainingPaths w wus).
Proof. unfold ackRemainingPaths. pass. Qed.

Lemma resend_handshake_passes X id pkt : passes X (resend_handshake w id pkt).
Proof.
  apply passes_bind; [auto with passes|intros swf]. apply passes_bind; [auto with passes|intros _].
  intros s u s' Hs E. apply bind_ok in E as (packet & s1 & (p & pk & pth & Hp & Em & ->)%pack_ok & E).
  apply PackHandshake_facts in Em as (Hl & Hq & _ & Hc & Hk & sealer & Hsl & Hb).
  destruct (inv_keys X s (proj2 Hs)) as [(_ & _ & S3) _].
  eapply (bare_sound X s id p); [done..| |by eapply S3|exact Hb|done|exact E].
  unfold packed_items. by apply Z.eqb_neq in Hl as ->.
Qed.

(** ** Retransmissions *)

Definition taken (d : option (Z * Packet)) : list item := match d with Some (_, pkt) => packet_items pkt | None => [] end.

(** A packet that is taken from the queue of a path is on its way. *)
Lemma dequeue_inv X ids s d s' :
  inv X s → dequeue ids s = (Ok d, s') → log s' = log s ∧ inv (taken d ++ X) s'.
Proof.
  revert s. induction ids as [|id ids IH]; intros s Hs E; cbn [dequeue] in E; run_ok; [done|].
  match goal with E' : paths s !! id = Some ?x |- _ => rename x into p, E' into Hp end.
  destruct (inv_handler _ _ _ _ Hs Hp) as [Hid Hok]. unfold DequeuePacketForRetransmission in *.
  destruct (sph_queue (sph p)) as [|pkt queue] eqn:Eq; simplify_eq; run_ok.
  - apply IH in E; [exact E|]. by eapply inv_path.
  - split; [done|]. eapply (inv_put _ s p); cbn; try done; [|by auto|].
    + by apply (inv_weaken X); [set_solver|].
    + rewrite Eq. intros q [->|Hq]%elem_of_cons; [right; set_solver|by left].
Qed.

(** Its frames are queued again, one by one. *)
Lemma requeue_stream X f s :
  inv (frame_items f ++ X) s → inv X (with_framer s (AddFrameForRetransmission (framer s) f)).
Proof.
  intros [I1 I2 I3 I4 I5 I6]. split; try done. intros x Hx.
  assert (items (queue_of (packer (with_framer s (AddFrameForRetransmission (framer s) f))))
    = items (queue_of (packer s)) ++ frame_items f) as Hq.
  { unfold queue_of. cbn. rewrite items_app. cbn. by rewrite app_nil_r. }
  destruct (I6 x Hx) as [[Hx1|Hx1]%elem_of_app|[[Hx1|Hx1]|Hx1]]; [|by auto| | |by auto].
  - right; left; left. rewrite Hq. set_solver.
  - right; left; left. rewrite Hq. set_solver.
  - right; left; right. exact Hx1.
Qed.

Lemma requeue_other X id f : (∀ g, f <> FStream g) → passes X (requeue w id f).
Proof. intros Hf. destruct f as [f| | | | | | | | | | |]; [by destruct (Hf f)|..]; cbn [requeue]; pass. Qed.

Lemma requeue_sound X id f fs s u s' :
  sound (items (stream_frames (f :: fs)) ++ X) s → requeue w id f s = (Ok u, s') →
  num_created (log s') = num_created (log s) ∧ inv (items (stream_frames fs) ++ X) s'.
Proof.
  intros Hs E. destruct f as [g| | | | | | | | | | |]; 
    [|by eapply (requeue_other (items (stream_frames fs) ++ X)); [|exact Hs|exact E]..].
  cbn [requeue] in E. run_ok. split; [done|]. apply requeue_stream. destruct Hs as [_ Hs]. cbn in Hs.
  by rewrite <- app_assoc in Hs.
Qed.

Lemma requeues_sound X id fs s u s' :
  sound (items (stream_frames fs) ++ X) s → each (requeue w id) fs s = (Ok u, s') →
  num_created (log s') = num_created (log s) ∧ inv X s'.
Proof.
  revert s. induction fs as [|f fs IH]; intros s Hs E; cbn [each] in E; [by run_ok; destruct Hs|].
  apply bind_ok in E as (u1 & t & E1 & E). apply (requeue_sound X id f fs) in E1 as [N I]; [|done].
  destruct (IH t) as [N' I']; [split; [rewrite N; apply Hs|done]|done|]. split; [congruence|done].
Qed.

Lemma strip_items pkt :
  EncryptionLevel pkt = EncryptionForwardSecure →
  items (stream_frames (GetFramesForRetransmission pkt)) = packet_items pkt.
Proof.
  intros Hl. unfold packet_items. rewrite Hl, Z.eqb_refl. by rewrite <- (stream_frames_strip (p_Frames pkt)).
Qed.

Lemma retransmission_loop_passes X fuel has from : passes X (retransmission_loop w fuel has from).
Proof.
  revert has from. induction fuel as [|fuel IH]; intros has from; cbn [retransmission_loop]; [apply passes_ret|].
  intros s r s' Hs E. apply bind_ok in E as (s0 & s1 & [= <- <-] & E). apply bind_ok in E as (d & s1 & Ed & E).
  apply (dequeue_inv X) in Ed as [Hl Hi]; [|apply Hs]. destruct d as [[id pkt]|]; cbn [taken app] in Hi; [|by run_ok; rewrite Hl].
  rewrite <- Hl. destruct (Z.eqb_spec (EncryptionLevel pkt) EncryptionForwardSecure) as [He|He]; cbn [negb] in E.
  - apply bind_ok in E as (u & s2 & E2 & E). apply (requeues_sound X) in E2 as [N2 I2].
    + destruct (IH true (Some id) s2 r s') as [N I]; [split; [rewrite N2, Hl; apply Hs|done]|done|]. split; [congruence|done].
    + rewrite strip_items by done. split; [rewrite Hl; apply Hs|done].
  - assert (packet_items pkt = []) as Hn by (unfold packet_items; by apply Z.eqb_neq in He as ->).
    rewrite Hn in Hi. destruct (handshakeComplete s); [|by run_ok].
    eapply IH; [|exact E]. split; [rewrite Hl; apply Hs|done].
Qed.

Lemma getRetransmission_passes X : passes X (getRetransmission w).
Proof. apply passes_bind; [apply passes_get|]. intros s. apply retransmission_loop_passes. Qed.

(** A copy of a packet is added to a queue. *)
Lemma maybe_duplicate_passes X id pkt : passes X (maybe_duplicate w id pkt).
Proof.
  intros s u s' [_ Hs] E. unfold maybe_duplicate in E. run_ok. case_match; run_ok; [|done]. split; [done|].
  match goal with Hp : paths s !! id = Some ?p |- _ => destruct (inv_handler _ _ _ _ Hs Hp) as [Hid Hok];
    eapply (inv_put X s p); try done; cbn; [by rewrite Hid|by auto|] end.
  intros q Hq. left. set_solver.
Qed.

Lemma sendPing_passes X id : passes X (sendPing w id).
Proof.
  intros s u s' [Hn Hs] E. pose proof (sendPing_inv w X id s Hs) as Hi. rewrite E in Hi. split; [|exact Hi].
  unfold sendPing in E. run_ok. case_match; [|done].
  match goal with Ep : pack _ _ _ = _ |- _ => apply pack_ok in Ep as (? & ? & ? & _ & _ & ->) end.
  apply sendPackedPacket_ok in E as (? & ? & _ & _ & ->). cbn [log set_log put_path set_paths set_packer].
  rewrite num_created_app. cbn. lia.
Qed.

Lemma ping_failed_path_passes X from : passes X (ping_failed_path w from).
Proof.
  destruct from as [id|]; cbn [ping_failed_path]; [|apply passes_ret]. apply passes_bind; [apply passes_find_path|].
  intros p. case_match; [apply sendPing_passes|apply passes_ret].
Qed.

#[local] Hint Resolve ackRemainingPaths_passes resend_handshake_passes getRetransmission_passes maybe_duplicate_passes
  ping_failed_path_passes : passes.

Lemma send_on_path_passes X wus id has : passes X (send_on_path w wus id has).
Proof. unfold send_on_path. pass. Qed.
#[local] Hint Resolve send_on_path_passes : passes.

Lemma send_round_passes X wus : passes X (send_round w wus).
Proof. unfold send_round. pass. Qed.

Lemma send_rounds_passes X fuel wus : passes X (send_rounds w fuel wus).
Proof.
  revert wus. induction fuel as [|fuel IH]; intros wus; cbn [send_rounds]; [apply passes_ret|].
  apply passes_bind; [apply send_round_passes|]. intros [wus'|]; [apply IH|apply passes_ret].
Qed.
#[local] Hint Resolve send_rounds_passes : passes.

Lemma sendPacket_passes X fuel : passes X (sendPacket w fuel).
Proof. unfold sendPacket. pass. Qed.

(** ** A turn of the event loop *)

Context (Hopen : ∀ d pn ad, match aead_Open w d pn ad with Ok (b, _) => bytes_ok b | Err _ => True | Panic _ => False end).

Lemma launch_manager_keeps X : keeps X (launch_manager : action C unit).
Proof.
  apply keeps_upd; [intros s; by repeat case_match|]. intros s Hs.
  destruct (s_pathManager s) as [pm|] eqn:Hpm; [|done]. case_match; [|done].
  apply (inv_same X s); try done; [apply (inv_tidy X s Hs)|]. by rewrite Hpm.
Qed.

Lemma keep_alive_keeps X : keeps X (keep_alive w).
Proof.
  apply keeps_bind; [apply keeps_session|]. intros s. case_match; [|apply keeps_ret].
  apply keeps_bind; [apply keeps_each; intros id; apply queue_frame_keeps|intros _]. apply set_activity_keeps.
Qed.

(** The streams are in the framer, whose queue is not touched. *)
Lemma collect_stream_inv X id s : inv X s → inv X (collect_stream id s).2.
Proof.
  intros Hs. unfold collect_stream. destruct (store _ !! id); [|done]. case_match; [|done].
  destruct (sm_RemoveStream _ id) as [[e|] m]; cbn [snd]; by repeat apply inv_framer.
Qed.

Lemma collect_stream_same id s :
  log (collect_stream id s).2 = log s ∧ closeChan (collect_stream id s).2 = closeChan s.
Proof.
  unfold collect_stream. destruct (store _ !! id); [|done]. case_match; [|done].
  by destruct (sm_RemoveStream _ id) as [[e|] m].
Qed.

Lemma collect_same s :
  log (garbageCollectStreams s).2 = log s ∧ closeChan (garbageCollectStreams s).2 = closeChan s.
Proof.
  apply (iterate_loop_inv (λ s', log s' = log s ∧ closeChan s' = closeChan s)); [|done].
  intros id s' [H1 H2]. destruct (collect_stream_same id s') as [E1 E2]. by rewrite E1, E2.
Qed.

Lemma garbageCollectStreams_keeps X : keeps X (garbageCollectStreams : action C unit).
Proof.
  apply keeps_upd; [intros s; apply collect_same|]. intros s.
  apply (iterate_loop_inv (inv X)). intros id s'. apply collect_stream_inv.
Qed.

(** The sending loop only adds to the log. *)
Lemma dequeue_grows ids : grows (dequeue ids : action C _).
Proof. induction ids as [|id ids IH]; cbn [dequeue]; grow. Qed.

Lemma requeue_grows id f : grows (requeue w id f).
Proof. destruct f; cbn [requeue]; unfold queue_frame, schedulePathsFrame; grow. Qed.
#[local] Hint Resolve dequeue_grows requeue_grows sendPing_grows : grows.

Lemma retransmission_loop_grows fuel has from : grows (retransmission_loop w fuel has from).
Proof. revert has from. induction fuel as [|fuel IH]; intros has from; cbn [retransmission_loop]; grow. Qed.

Lemma sendPackedPacket_grows pk id : grows (sendPackedPacket w pk id).
Proof. unfold sendPackedPacket. grow. Qed.

Lemma pop_all_grows {A} (pop : streamFramer → option A * streamFramer) wrap id n : grows (pop_all pop wrap id n : action C unit).
Proof. induction n as [|n IH]; cbn [pop_all]; unfold queue_frame; grow. Qed.
#[local] Hint Resolve retransmission_loop_grows sendPackedPacket_grows pop_all_grows : grows.

Lemma send_round_grows wus : grows (send_round w wus).
Proof.
  unfold send_round, getRetransmission, session_selectPath, ackRemainingPaths, ack_path, resend_handshake, send_on_path,
    performPacketSending, maybe_duplicate, ping_failed_path, queue_framer_frames, path_GetAckFrame, path_GetStopWaitingFrame,
    getWindowUpdateFrames, queue_windows, queue_stop_waiting, set_stop_waiting, queue_ack, queue_frame, count_quota.
  grow.
Qed.
#[local] Hint Resolve send_round_grows : grows.

Lemma sendPacket_grows fuel : grows (sendPacket w fuel).
Proof.
  assert (∀ wus, grows (send_rounds w fuel wus)) as Hr.
  { induction fuel as [|fuel IH]; intros wus; cbn [send_rounds]; grow. }
  unfold sendPacket, update_least_unacked, getWindowUpdateFrames, queue_windows, queue_frame. grow.
Qed.

(** What a turn does with the outcome of sending: an error closes the session. *)
Definition send_or_close (fuel : nat) : action C unit := λ s,
  match sendPacket w fuel s with
  | (Ok _, s) => (Ok tt, s)
  | (Err e, s) => closeLocal (Some e) s
  | (Panic e, s) => (Panic e, s)
  end.

Lemma send_or_close_good X fuel s u s' :
  good X s → send_or_close fuel s = (Ok u, s') → good X s' ∨ closeChan s' <> None.
Proof.
  intros Hs E. unfold send_or_close in E. pose proof (sendPacket_grows fuel s) as [l Hl].
  destruct (sendPacket w fuel s) as [[b|e|e] s1] eqn:Es; simplify_eq.
  - left. intros Hn. cbn in Hl. assert (num_created (log s) <= 126)%nat as Hn'.
    { rewrite Hl, num_created_app in Hn. lia. }
    refine (proj2 (sendPacket_passes X fuel s b s' _ Es)). split; [done|by apply Hs].
  - right. unfold closeLocal, close_once, upd in E. destruct (closeChan s1) eqn:Ec; simplify_eq; [by rewrite Ec|done].
Qed.

(** The end of a turn. *)
Definition turn_end : action C unit :=
  s ← get;
  _ ← each (λ e, closeLocal (Some e)) (expired_reasons w s);
  _ ← (if paths_frame_due w s then schedulePathsFrame w else skip);
  garbageCollectStreams.

Lemma turn_end_keeps X : keeps X turn_end.
Proof.
  apply keeps_bind; [apply keeps_session|]. intros s.
  apply keeps_bind; [apply keeps_each; intros e; apply close_once_keeps|intros _].
  apply keeps_bind; [case_match; [apply schedulePathsFrame_keeps|apply keeps_ret]|intros _].
  apply garbageCollectStreams_keeps.
Qed.

Lemma turn_end_closed s u s' : turn_end s = (Ok u, s') → closeChan s <> None → closeChan s' <> None.
Proof.
  intros E Hc. unfold turn_end in E. apply bind_ok in E as (s0 & s1 & [= <- <-] & E).
  apply bind_ok in E as (u1 & s1 & E1 & E). apply bind_ok in E as (u2 & s2 & E2 & E).
  assert (closeChan s1 <> None) as Hc1.
  { refine (each_ok _ (λ s1, closeChan s1 <> None) _ _ _ _ _ Hc E1). intros e s3 u3 s4 Hs _ [= <- <-].
    by destruct (closeChan s3) eqn:E3; [rewrite E3|]. }
  assert (closeChan s2 = closeChan s1) as Hc2 by (destruct (paths_frame_due w s); [by injection E2 as <- <-|by injection E2 as <- <-]).
  pose proof (collect_same s2) as [_ Hc3]. rewrite E in Hc3. cbn in Hc3. by rewrite Hc3, Hc2.
Qed.

Lemma run_turn_good X fuel ev s u s' :
  good X s → run_turn w fuel ev s = (Ok u, s') → good X s' ∨ closeChan s' <> None.
Proof.
  intros Hs E. unfold run_turn in E. apply bind_ok in E as (goes_on & s1 & E1 & E).
  pose proof (proj2 (take_event_keeps w Hopen X ev) s Hs) as Hs1. rewrite E1 in Hs1. cbn in Hs1.
  destruct goes_on; cbn [negb] in E; [|run_ok; by left].
  apply bind_ok in E as (u2 & s2 & E2 & E). pose proof (proj2 (launch_manager_keeps X) s1 Hs1) as Hs2. rewrite E2 in Hs2.
  apply bind_ok in E as (u3 & s3 & E3 & E). pose proof (proj2 (keep_alive_keeps X) s2 Hs2) as Hs3. rewrite E3 in Hs3.
  apply bind_ok in E as (u4 & s4 & E4 & E). change (turn_end s4 = (Ok u, s')) in E.
  destruct (send_or_close_good X fuel s3 u4 s4 Hs3 E4) as [Hs4|Hc]; [|right; by eapply turn_end_closed].
  left. pose proof (proj2 (turn_end_keeps X) s4 Hs4) as Hs5. by rewrite E in Hs5.
Qed.

End Sending.

(** ** Runs of a session *)

Section Runs.
Context {C : Type} `{SendAlgorithm C}.
Implicit Types (s : session C).

(** What the AEADs promise: opening a packet gives bytes or an error. *)
Definition opens (w : world C) : Prop :=
  ∀ d pn ad, match aead_Open w d pn ad with Ok (b, _) => bytes_ok b | Err _ => True | Panic _ => False end.

Definition with_setup s (cs : CryptoSetup) (ps : connectionParametersManager) : session C :=
  let p := packer s in
  set_packer s (mkPacker (pp_connectionID p) (pp_perspective p) (pp_version p) cs ps (pp_streamFramer p)
                  (controlFrames p) (pp_stopWaiting p) (pp_ackFrame p)).

(** Keys only get better: those of the crypto stream are never forward secure before the others are,
    and forward-secure keys stay. *)
Definition keys_follow (cs cs' : CryptoSetup) : Prop :=
  setup_seals cs' ∧
  ((GetSealer cs').1 = EncryptionForwardSecure ∨
   (GetSealerForCryptoStream cs').1 <> EncryptionForwardSecure ∧ (GetSealer cs).1 <> EncryptionForwardSecure).

Definition keys_start (cs : CryptoSetup) : Prop :=
  setup_seals cs ∧
  ((GetSealer cs).1 = EncryptionForwardSecure ∨ (GetSealerForCryptoStream cs).1 <> EncryptionForwardSecure).

(** Controllers are changed by those of other paths. *)
Definition with_controllers s (g : Z → C → C) : session C := set_paths s
  ((λ p, set_sph p (set_congestion (sph p) (g (pathID p) (congestion (sph p))) (rttStats (sph p)))) <$> paths s).

(** A step of a session that has not been closed: a turn of its event loop, for any event and any
    outcome of the clock, the sockets and the iterations over maps, or something the other goroutines
    do: packets arrive, paths close, the path manager works, the handshake installs keys and
    parameters, the application uses its streams or closes the session. *)
Inductive session_step s : session C → Prop :=
| step_turn w fuel ev :
    opens w → (run_turn w fuel ev s).1 = Ok tt → session_step s (run_turn w fuel ev s).2
| step_arrive pkt : packet_ok pkt → session_step s (handlePacket pkt s).2
| step_path_closes id : session_step s (set_paths s (alter path_close id (paths s)))
| step_create_paths w : session_step s (pm_createPaths w s).2
| step_close_paths : session_step s (pm_closePaths s).2
| step_keys cs ps : keys_follow (pp_cryptoSetup (packer s)) cs → session_step s (with_setup s cs ps)
| step_streams A (op : streamLimits → streamsMap → A * streamsMap) : session_step s (on_streams op s).2
| step_stream A id (op : stream → flowControlManager → result A * stream * flowControlManager) :
    session_step s (on_stream id op s).2
| step_priority id pr : session_step s (SetStreamPriority id pr s).2
| step_active id : session_step s (SetStreamActive id s).2
| step_reset id offset : session_step s (queueResetStreamFrame id offset s).2
| step_schedule : session_step s (scheduleSending s).2
| step_controllers g : session_step s (with_controllers s g)
| step_close e : session_step s (closeLocal e s).2.

Inductive reachable : session C → Prop :=
| reachable_new w cfg create pers version connectionID ps cs localAddrs c scheduling streamScheduling :
    keys_start cs →
    reachable (new_session w cfg create pers version connectionID ps cs localAddrs c scheduling streamScheduling)
| reachable_step s s' : reachable s → closeChan s = None → session_step s s' → reachable s'.

Lemma inv_setup X s cs ps : keys_follow (pp_cryptoSetup (packer s)) cs → inv X s → inv X (with_setup s cs ps).
Proof.
  intros [Hs Hk] [I1 I2 [I3 I3'] I4 I5 I6]. split; try done. split; [done|].
  destruct Hk as [Hk|[Hk1 Hk2]]; [by left|]. destruct I3' as [?|[_ Hno]]; [done|]. by right.
Qed.

(** A new session has one path and has written nothing. *)
Lemma inv_start X s :
  log s = [] → keys_start (pp_cryptoSetup (packer s)) → controlFrames (packer s) = [] →
  receivedPackets s = [] → undecryptablePackets s = [] →
  (∀ id p, paths s !! id = Some p → id = 0 ∧ pathID p = 0 ∧ handler_ok (sph p) ∧ SentPackets.packetHistory (sph p) = []) →
  (∀ pm, s_pathManager s = Some pm → nxtPathID pm = first_id (pp_perspective (packer s))) → inv X s.
Proof.
  intros Hl [Hs Hk] Hc Hr Hu Hp Hn. split.
  - intros id p (-> & ? & ? & Hh)%Hp. split_and!; [done..|]. rewrite Hh. set_solver.
  - unfold tidy. by rewrite Hc.
  - split; [done|]. rewrite Hl. destruct Hk as [?|?]; [by left|right]. split; [done|]. set_solver.
  - intros pm Hpm. rewrite Hl. cbn. rewrite (Hn pm Hpm). split; [lia|]. intros id [p (-> & _)%Hp]. done.
  - by rewrite Hr, Hu.
  - rewrite Hl. intros x (? & ? & ? & _). set_solver.
Qed.

Lemma pm_setup_next pers l r : nxtPathID (pm_setup pers l r) = first_id pers.
Proof. unfold pm_setup. destruct r as [a|]; [destruct (getIPVersion a.1 =? 4)|]; by destruct pers. Qed.

Lemma new_session_inv X (w : world C) cfg create pers version connectionID ps cs localAddrs c scheduling streamScheduling :
  keys_start cs →
  inv X (new_session w cfg create pers version connectionID ps cs localAddrs c scheduling streamScheduling).
Proof.
  intros Hk. unfold new_session. cbv zeta.
  match goal with |- context [session_OpenStream ?s] => set (s0 := s) end.
  assert (inv X s0) as Hs0.
  { apply inv_start; try done.
    - intros id p. cbn [paths s0 set_paths]. rewrite lookup_singleton_Some. intros [<- <-]. split_and!; try done.
      by repeat constructor.
    - intros pm [= <-]. apply pm_setup_next. }
  destruct pers; [do 2 apply on_streams_inv|apply on_streams_inv]; exact Hs0.
Qed.

Lemma on_scheduler_keeps X op : keeps X (on_scheduler op : action C unit).
Proof.
  apply keeps_bind; [apply keeps_session|]. intros s. destruct (sm_scheduler _) as [sch|]; [|apply keeps_ret].
  apply keeps_bind; [apply keeps_ret|]. intros [e sch']. apply keeps_bind; [|intros _; apply keeps_check].
  apply keeps_upd; [done|]. intros s' Hs'. by apply inv_framer.
Qed.

Lemma step_good s s' : good [] s → session_step s s' → good [] s' ∨ closeChan s' <> None.
Proof.
  intros Hs [w fuel ev Hw E|pkt Hpkt|id|w| |cs ps Hk|A op|A id op|id pr|id|id offset| |g|e].
  - destruct (run_turn w fuel ev s) as [r s1] eqn:Er. cbn in E. subst r. by eapply run_turn_good.
  - left. by apply handlePacket_keeps.
  - left. intros Hn. apply (inv_cores [] s); try done; [by apply Hs|]. intros i. by apply cores_alter.
  - left. by apply pm_createPaths_keeps.
  - left. intros Hn. apply (inv_cores [] s); try done; [by apply Hs|]. intros i. apply cores_fmap, core_request_close.
  - left. intros Hn. by apply inv_setup, Hs.
  - left. intros Hn. apply on_streams_inv, Hs. unfold on_streams in Hn. by destruct (op _ _).
  - left. by apply on_stream_keeps.
  - left. by apply (keeps_bind [] _ _ (on_scheduler_keeps [] _) (λ _, on_scheduler_keeps [] _)).
  - left. by apply ignore_error_keeps; [apply on_scheduler_keeps|].
  - left. apply (keeps_bind [] _ _ (queue_frame_keeps [] _ _) (λ _, scheduleSending_keeps [])), Hs.
  - left. by apply scheduleSending_keeps.
  - left. intros Hn. apply (inv_cores [] s); try done; [by apply Hs|]. intros i. by apply cores_fmap.
  - left. by apply close_once_keeps.
Qed.

(** C1: no stream data is lost.  In every session that was not closed -- whatever packets arrived on
    whichever paths, whatever was lost, acknowledged or reported by the peer, whichever alarms fired,
    whichever paths were created, failed and were closed, however the schedulers chose and however the
    goroutines interleave -- every byte of a stream and every end of a stream that was written to a
    socket under forward-secure keys is in a packet that the peer acknowledged on the path it was sent
    on, or the session still has it: in a packet that is outstanding or waits to be sent again on one
    of the paths, or in the retransmission queue of the stream framer.  Up to 126 paths may have been
    created by the path manager, whose 8-bit path IDs wrap around later. *)
Theorem session_keeps_data (s : session C) (x : item) :
  reachable s → closeChan s = None → (num_created (log s) <= 126)%nat →
  written (log s) x → carried s x ∨ delivered (log s) x.
Proof.
  intros Hr Hc Hn Hx. assert (good [] s ∨ closeChan s <> None) as [Hs|?]; [|by destruct (inv_data [] s (Hs Hn) x Hx) as [?%not_elem_of_nil|?]|done].
  clear Hc Hn Hx. induction Hr as [|s s' Hr IH Hc Hstep]; [left; intros _; by apply new_session_inv|].
  destruct IH as [Hs|?]; [by eapply step_good|done].
Qed.

End Runs.

(** ** Example: a client sends five bytes, which are then acknowledged *)

#[local] Existing Instance fixed_window.

Definition checked_open (data : list Z) (pn : Z) (ad : list Z) : result (list Z * Z) :=
  if forallb (λ b, (0 <=? b) && (b <? 256)) data then tag_open data pn ad else Err (ErrorString "not bytes").

Definition run_world : world Z :=
  mkWorld Z (1000 * Millisecond) None (λ _ m, (map_to_list m).*1) (λ m, (map_to_list m).*1) (λ _ _, None)
    (λ _, ""%string) checked_open (λ _, 20000).

Definition run_new : session Z :=
  new_session run_world (mkConfig (10 * Second) false) false PerspectiveClient 512 77
    (sample_parameters PerspectiveClient) sample_setup [] (client_address, server_address) "" "".

Definition run_sent : session Z :=
  let s := (run_turn run_world 9 EvHandshakeComplete run_new).2 in
  let s := (on_streams OpenStream (on_streams OpenStream s).2).2 in
  let s := (on_stream 5 (λ st fcm, let '(_, st) := Write_begin st [1; 2; 3; 4; 5] in (Ok tt, st, fcm)) s).2 in
  (run_turn run_world 9 EvScheduled s).2.

Definition run_ack : receivedPacket :=
  let ack := mkAckFrame 0 1 1 [] 0 0 in
  let payload := match frame_Write 0 (FAck ack) 512 with Ok b => b | _ => [] end in
  mkReceived server_address
    (mkPublicHeader [] 77 0 false false false false 6 1 0 [] [])
    (payload ++ repeat 0 12) 5 client_address.

Definition run_acked : session Z :=
  (run_turn run_world 9 EvPacket (handlePacket run_ack run_sent).2).2.

Lemma checked_open_opens : opens run_world.
Proof.
  intros d pn ad. cbn [aead_Open run_world]. unfold checked_open, tag_open. destruct (forallb _ d) eqn:E; [|done].
  destruct (length d <? 12)%nat; [done|]. apply Forall_take, Forall_forall. intros b Hb. apply list_elem_of_In in Hb.
  eapply forallb_forall in E; [|exact Hb]. zbool. unfold is_u8. lia.
Qed.

Lemma sample_keys : keys_start sample_setup.
Proof.
  assert (seals tag_sealer) as Hs.
  { split; [cbn; lia|]. intros payload pn ad. cbn [tag_sealer Seal Overhead]. rewrite length_app, length_replicate. lia. }
  split; [split_and!; [exact Hs..|by intros l s [= <-]]|by left].
Qed.

Lemma run_sent_reachable : reachable run_sent.
Proof.
  assert (∀ (s : session Z) ev, reachable s → closeChan s = None → (run_turn run_world 9 ev s).1 = Ok tt →
    reachable (run_turn run_world 9 ev s).2) as Ht.
  { intros s ev Hs Hc E. eapply reachable_step; [exact Hs|exact Hc|]. by apply step_turn; [apply checked_open_opens|]. }
  apply Ht; [|vm_compute; reflexivity..].
  eapply reachable_step; [| |apply step_stream]; [|vm_compute; reflexivity].
  eapply reachable_step; [| |apply step_streams]; [|vm_compute; reflexivity].
  eapply reachable_step; [| |apply step_streams]; [|vm_compute; reflexivity].
  apply Ht; [|vm_compute; reflexivity..]. apply reachable_new, sample_keys.
Qed.

Lemma run_acked_reachable : reachable run_acked.
Proof.
  eapply reachable_step; [| |apply step_turn; [apply checked_open_opens|vm_compute; reflexivity]]; [|vm_compute; reflexivity].
  eapply reachable_step; [apply run_sent_reachable|vm_compute; reflexivity|apply step_arrive]. unfold packet_ok. cbn. lia.
Qed.

(** The third byte of the five. *)
Definition run_item : item := (5, 2, Some 3).

Lemma written_item (l : list entry) (x : item) :
  existsb (λ e, match e with Wrote _ pk => bool_decide (x ∈ packed_items pk) | _ => false end) l = true → written l x.
Proof.
  intros (e & He & Hx)%existsb_exists. destruct e as [|id pk| | |]; try done.
  exists id, pk. split; [by apply list_elem_of_In|by apply bool_decide_eq_true in Hx].
Qed.

Lemma session_keeps_data_witness :
  (carried run_sent run_item ∨ delivered (log run_sent) run_item) ∧
  (carried run_acked run_item ∨ delivered (log run_acked) run_item).
Proof.
  split.
  - apply (session_keeps_data run_sent run_item run_sent_reachable).
    + vm_compute. reflexivity.
    + apply Nat.leb_le. vm_compute. reflexivity.
    + apply written_item. vm_compute. reflexivity.
  - apply (session_keeps_data run_acked run_item run_acked_reachable).
    + vm_compute. reflexivity.
    + apply Nat.leb_le. vm_compute. reflexivity.
    + apply written_item. vm_compute. reflexivity.
Defined.
