(* ===== verification/Faults.v ===== *)
(** * What goes wrong

    Concrete sessions that show behaviour of the session code which cannot be meant: each is a run of
    the model on a small input, evaluated. *)

From S2P Require Import Prelude ByteOrder Protocol Frames StreamFrame AckFrame ClosePathFrame PublicHeader Unpacker.
From S2P Require Import ReceivedPackets FlowControl Stream StreamScheduler StreamsMap PathScheduler StreamFramer.
From S2P Require Import Congestion SentPackets Handshake ConnectionParameters Packer Transmission Paths Session SendLoop.
From S2P Require Import Reliability Delivery.

#[local] Existing Instance fixed_window.

(** A packet with these frames from the server. *)
Definition packet_with (number : Z) (fs : list frame) : receivedPacket :=
  let payload := concat ((λ f, match frame_Write 0 f 512 with Ok b => b | _ => [] end) <$> fs) in
  mkReceived server_address (mkPublicHeader [] 77 0 false false false false 6 number 0 [] [])
    (payload ++ repeat 0 12) 5 client_address.

Definition after_packets (pkts : list receivedPacket) (s : session Z) : session Z :=
  foldl (λ s pkt, (handlePacketImpl run_world pkt s).2) s pkts.

(** An acknowledgement for a path that does not exist brings the session down: handleAckFrame uses the
    path without looking whether there is one. *)
Lemma ack_for_unknown_path_panics :
  (handlePacketImpl run_world (packet_with 1 [FAck (mkAckFrame 9 1 1 [] 0 0)]) run_sent).1
  = Panic "nil pointer dereference".
Proof. vm_compute. reflexivity. Qed.

(** Two PINGs of the server are to be acknowledged, and a PING waits to be sent. *)
Definition owing_ack : session Z :=
  (queue_frame (FPing mkPingFrame) 0 (after_packets [packet_with 1 [ping]; packet_with 2 [ping]] run_sent)).2.

Definition owes_ack (s : session Z) : bool :=
  match paths s !! 0 with Some p => ack_due run_world (rph p) | None => false end.

Definition acks_sent (s : session Z) : nat :=
  length (List.filter (λ e, match e with
    | Wrote _ pk => existsb (λ f, match f with FAck _ => true | _ => false end) (pk_frames pk)
    | _ => false
    end) (log s)).

(** A PING at the head of the control frames is sent alone, and the ACK frame that was made for the
    packet is dropped: it is no longer due, and it was not sent. *)
Lemma ping_drops_ack :
  let s := (sendPacket run_world 9 owing_ack).2 in
  (sendPacket run_world 9 owing_ack).1 = Ok true ∧
  owes_ack owing_ack = true ∧ owes_ack s = false ∧ acks_sent s = 0%nat ∧ size (pp_ackFrame (packer s)) = 0%nat.
Proof. vm_compute. repeat split. Qed.

(** The path manager numbers its paths with eight bits, and does not look whether a number is taken: the
    129th path of a client replaces its first one, with all that was outstanding there. *)
Definition many_paths (n : nat) : session Z :=
  foldl (λ s i, (createPath run_world client_address ([10; 0; 1; Z.of_nat i], 443) s).2) run_sent (seq 1 n).

Lemma path_ids_wrap :
  (remote ← (λ p, (conn p).2) <$> paths (many_paths 128) !! 1; Some remote) = Some ([10; 0; 1; 1], 443) ∧
  (remote ← (λ p, (conn p).2) <$> paths (many_paths 129) !! 1; Some remote) = Some ([10; 0; 1; 129], 443) ∧
  num_created (log (many_paths 129)) = 129%nat ∧ size (paths (many_paths 129)) = 129%nat.
Proof. vm_compute. repeat split. Qed.

(** A client that has sent data under the keys of the initial handshake. *)
Definition secure_setup : CryptoSetup :=
  mkCryptoSetup (EncryptionSecure, tag_sealer) (EncryptionUnencrypted, tag_sealer) (λ _, Ok tag_sealer) [].

Definition later_world : world Z :=
  mkWorld Z (4000 * Millisecond) None (λ _ m, (map_to_list m).*1) (λ m, (map_to_list m).*1) (λ _ _, None)
    (λ _, ""%string) checked_open (λ _, 20000).

Definition secure_sent : session Z :=
  let s := new_session run_world (mkConfig (10 * Second) false) false PerspectiveClient 512 77
    (sample_parameters PerspectiveClient) secure_setup [] (client_address, server_address) "" "" in
  let s := (on_streams OpenStream (on_streams OpenStream s).2).2 in
  let s := (on_stream 5 (λ st fcm, let '(_, st) := Write_begin st [1; 2; 3; 4; 5] in (Ok tt, st, fcm)) s).2 in
  (run_turn run_world 9 EvScheduled s).2.

(** The handshake completes, and the packet is lost. *)
Definition secure_lost : session Z :=
  let s := with_setup secure_sent sample_setup (params secure_sent) in
  let s := (run_turn run_world 9 EvHandshakeComplete s).2 in
  (run_turn later_world 9 (EvPathTimer 0) s).2.

(** The frames of a stream the session still has. *)
Definition frames_held (id : Z) (s : session Z) : list StreamFrame :=
  List.filter (λ f, StreamID f =? id) (retransmissionQueue (framer s) ++
    (map_to_list (paths s) ≫= λ e, (SentPackets.packetHistory (sph e.2) ++ sph_queue (sph e.2)) ≫= λ pkt,
       stream_frames (p_Frames pkt))).

(** Lost packets that are not protected with forward-secure keys are not sent again once the handshake
    is complete, although a client sends stream data under the keys of the initial handshake: the data
    is gone, and nobody has acknowledged it. *)
Lemma secure_data_dropped :
  (∃ f, frames_held 5 secure_sent = [f] ∧ Data f = [1; 2; 3; 4; 5]) ∧
  frames_held 5 secure_lost = [] ∧ closeChan secure_lost = None ∧
  Forall (λ e, match e with GotAck _ | GotClose _ => False | _ => True end) (log secure_lost).
Proof.
  split; [eexists; split; vm_compute; reflexivity|]. split; [vm_compute; reflexivity|].
  split; [vm_compute; reflexivity|]. vm_compute. repeat constructor.
Qed.

(** The RTT statistics of the session are those of the initial path: an acknowledgement on another path
    with a larger RTT overwrites what was measured on the initial path. *)
Lemma session_rtt_overwrites :
  let s := (raise_session_rtt (300 * Millisecond) run_acked).2 in
  ((λ p, smoothedRTT (rttStats (sph p))) <$> paths run_acked !! 0) = Some 0 ∧
  ((λ p, smoothedRTT (rttStats (sph p))) <$> paths s !! 0) = Some (300 * Millisecond).
Proof. vm_compute. repeat split. Qed.
