(* ===== verification/CryptoServer.v ===== *)
(** * The handshake of a server

    internal/handshake/crypto_setup_server.go and server_config.go: how a server answers client
    hellos, installs keys, and which packets it opens.

    The certificates, the source address tokens and the callback that accepts them, the key derivation
    and the key exchange are fields of the setup in the code, too, and are records of operations here;
    the random bytes are an argument.  What is sent on the channel that announces new keys is the list
    [srv_aeadChanged]. *)

From S2P Require Import Prelude ByteOrder Protocol Frames StreamFrame PublicHeader Unpacker Handshake.
From S2P Require Import FlowControl Stream StreamScheduler StreamsMap ConnectionParameters Packer Crypto CertCompression SendLoop.

(** ** Steps with a state

    A step changes the state also when it returns an error. *)
Definition proc (S A : Type) : Type := S → result A * S.

#[export] Instance proc_ret {S} : MRet (proc S) := λ A a st, (Ok a, st).
#[export] Instance proc_bind {S} : MBind (proc S) := λ A B f m st,
  match m st with
  | (Ok a, st) => f a st
  | (Err e, st) => (Err e, st)
  | (Panic w, st) => (Panic w, st)
  end.

Definition state {S} : proc S S := λ st, (Ok st, st).
Definition change {S} (g : S → S) : proc S unit := λ st, (Ok tt, g st).
Definition give {S A} (r : result A) : proc S A := λ st, (r, st).

(** A condition that must hold. *)
Definition require {S} (b : bool) (e : error) : proc S unit := give (if b then Ok tt else Err e).

(** A value of a message that must be there. *)
Definition value {S} (data : gmap Z (list Z)) (t : Z) (e : error) : proc S (list Z) :=
  give (match data !! t with Some v => Ok v | None => Err e end).

(** *** Reasoning about steps

    [wp m Q E st]: from [st], [m] returns and leaves [Q], or fails and leaves [E]. *)
Definition wp {S A} (m : proc S A) (Q : A → S → Prop) (E : S → Prop) (st : S) : Prop :=
  match m st with (Ok a, st) => Q a st | (_, st) => E st end.

Lemma wp_bind {S A B} (m : proc S A) (f : A → proc S B) Q E st :
  wp m (λ a, wp (f a) Q E) E st → wp (m ≫= f) Q E st.
Proof. unfold wp, mbind, proc_bind. by destruct (m st) as [[a|e|w] st']. Qed.

Lemma wp_ret {S A} (a : A) (Q : A → S → Prop) E st : Q a st → wp (mret a) Q E st.
Proof. done. Qed.

Lemma wp_state {S} (Q : S → S → Prop) E st : Q st st → wp state Q E st.
Proof. done. Qed.

Lemma wp_change {S} (g : S → S) (Q : () → S → Prop) E st : Q tt (g st) → wp (change g) Q E st.
Proof. done. Qed.

Lemma wp_give {S A} (r : result A) (Q : A → S → Prop) (E : S → Prop) st :
  (∀ a, r = Ok a → Q a st) → (is_ok r = false → E st) → wp (give r) Q E st.
Proof. unfold wp, give. destruct r; auto. Qed.

Lemma wp_require {S} b e (Q : () → S → Prop) (E : S → Prop) st :
  (b = true → Q tt st) → (b = false → E st) → wp (require b e) Q E st.
Proof. unfold wp, require, give. destruct b; auto. Qed.

Lemma wp_value {S} data t e (Q : list Z → S → Prop) (E : S → Prop) st :
  (∀ v, data !! t = Some v → Q v st) → (data !! t = None → E st) → wp (value data t e) Q E st.
Proof. unfold wp, value, give. destruct (data !! t); auto. Qed.

Lemma wp_mono {S A} (m : proc S A) (Q Q' : A → S → Prop) (E E' : S → Prop) st :
  wp m Q E st → (∀ a st, Q a st → Q' a st) → (∀ st, E st → E' st) → wp m Q' E' st.
Proof. unfold wp. destruct (m st) as [[a|e|w] st']; auto. Qed.

(** One step of a program: what its first operation leaves is what the rest starts from. *)
Ltac wp_step :=
  lazymatch goal with
  | |- wp (_ ≫= _) _ _ _ => apply wp_bind
  | |- wp (mret _) _ _ _ => apply wp_ret
  | |- wp state _ _ _ => apply wp_state
  | |- wp (change _) _ _ _ => apply wp_change
  | |- wp (require _ _) _ _ _ => apply wp_require; intros ?
  | |- wp (value _ _ _) _ _ _ => apply wp_value; [intros ? ?|intros ?]
  | |- wp (give _) _ _ _ => apply wp_give; [intros ? ?|intros ?]
  | |- wp (if ?b then _ else _) _ _ _ => destruct b eqn:?
  | |- wp (match ?x with _ => _ end) _ _ _ => destruct x eqn:?
  | |- wp (let '_ := ?x in _) _ _ _ => destruct x eqn:?
  end.

(** *** Steps that keep a relation between the state before and the state after, whenever they return *)
Section Keeps.
Context {S : Type} (R : S → S → Prop) `{HR : !PreOrder R}.

Definition keeps {A} (m : proc S A) : Prop := ∀ st, wp m (λ _, R st) (λ _, True) st.

Lemma proc_keeps_bind {A B} (m : proc S A) (f : A → proc S B) : keeps m → (∀ a, keeps (f a)) → keeps (m ≫= f).
Proof using HR.
  intros Hm Hf st. wp_step. eapply wp_mono; [apply Hm| |done]. intros a st1 H1.
  eapply wp_mono; [apply Hf| |done]. intros b st2 H2. by transitivity st1.
Qed.

Lemma proc_keeps_ret {A} (a : A) : keeps (mret a).
Proof using HR. intros st. by wp_step. Qed.
Lemma keeps_state : keeps state.
Proof using HR. intros st. by wp_step. Qed.
Lemma keeps_give {A} (r : result A) : keeps (give r).
Proof using HR. intros st. wp_step; done. Qed.
Lemma keeps_change g : (∀ st, R st (g st)) → keeps (change g).
Proof using. intros Hg st. wp_step. apply Hg. Qed.

(** A value that is stored whether or not it could be computed. *)
Lemma keeps_store {A B} (r : result A) (g : option A → S → S) (k : A → proc S B) :
  (∀ a st, R st (g (Some a) st)) → (∀ a, keeps (k a)) →
  keeps (_ ← change (g (match r with Ok a => Some a | _ => None end)); a ← give r; k a).
Proof using HR.
  intros Hg Hk st. wp_step. wp_step. wp_step. wp_step; [|done]. subst r. eapply wp_mono; [apply Hk| |done].
  intros b st' H'. etransitivity; [apply Hg|exact H'].
Qed.

Lemma keeps_ok {A} (m : proc S A) st a st' : keeps m → m st = (Ok a, st') → R st st'.
Proof using. intros Hm E. specialize (Hm st). unfold wp in Hm. by rewrite E in Hm. Qed.
End Keeps.

(** [store] is for values that are stored. *)
Ltac keeps_step store :=
  first [store | lazymatch goal with
  | |- keeps _ (mret _) => apply proc_keeps_ret; exact _
  | |- keeps _ state => apply keeps_state; exact _
  | |- keeps _ (give _) => apply keeps_give; exact _
  | |- keeps _ (require _ _) => apply keeps_give; exact _
  | |- keeps _ (value _ _ _) => apply keeps_give; exact _
  | |- keeps _ (change _) => apply keeps_change; by intros
  | |- keeps _ (_ ≫= _) => apply proc_keeps_bind; [exact _| |intros ?]
  | |- keeps _ (match ?x with _ => _ end) => destruct x
  end].
Ltac keeps_solve store := repeat keeps_step store.

(** ** Error codes and limits *)

Definition HandshakeFailed : Z := 28.
Definition InvalidCryptoMessageType : Z := 33.
Definition CryptoMessageParameterNotFound : Z := 35.
Definition CryptoNoSupport : Z := 40.
Definition VersionNegotiationMismatch : Z := 55.
Definition ClientHelloMinimumSize : Z := 1024.

(** ** The configuration of a server *)

Record CertChain : Type := mkCertChain {
  SignServerProof : list Z → list Z → list Z → result (list Z);
  GetCertsCompressed : list Z → list Z → list Z → result (list Z);
  GetLeafCert : list Z → result (list Z);
}.

Record ServerConfig : Type := mkServerConfig {
  scfg_kex : KeyExchange;
  scfg_certChain : CertChain;
  scfg_ID : list Z;
  scfg_obit : list Z;
}.

Definition errRandom : error := ErrorString "crypto/rand: source of random numbers failed".

(** [id] and [obit] are random bytes. *)
Definition NewServerConfig (kex : KeyExchange) (certChain : CertChain) (id obit : option (list Z)) : result ServerConfig :=
  match id, obit with
  | Some id, Some obit => Ok (mkServerConfig kex certChain id obit)
  | _, _ => Err errRandom
  end.

Definition ServerConfig_Get (s : ServerConfig) : list Z :=
  HandshakeMessage_Write (mkMessage TagSCFG
    (<[TagSCID := scfg_ID s]> (<[TagKEXS := string_bytes "C255"]> (<[TagAEAD := string_bytes "AESG"]>
     (<[TagPUBS := [0x20; 0; 0] ++ PublicKey (scfg_kex s)]> (<[TagOBIT := scfg_obit s]>
     (<[TagEXPY := replicate 8 0xff]> ∅))))))).

Definition ServerConfig_Sign (s : ServerConfig) (sni chlo : list Z) : result (list Z) :=
  SignServerProof (scfg_certChain s) sni chlo (ServerConfig_Get s).

(** ** State *)

Definition key_derivation : Type :=
  bool → list Z → list Z → Z → list Z → list Z → list Z → list Z → Perspective → result AEAD.

(** [srv_sentSHLO] is whether the channel sentSHLO has been closed. *)
Record cryptoSetupServer : Type := mkServer {
  srv_connID : Z;
  srv_version : Z;
  srv_supportedVersions : list Z;
  srv_scfg : ServerConfig;
  srv_diversificationNonce : list Z;
  srv_nullAEAD : AEAD;
  srv_secureAEAD : option AEAD;
  srv_forwardSecureAEAD : option AEAD;
  receivedForwardSecurePacket : bool;
  srv_receivedSecurePacket : bool;
  srv_sentSHLO : bool;
  srv_aeadChanged : list Z;
  srv_aeadClosed : bool;
  srv_parameters : connectionParametersManager;
  srv_written : list Z;
}.

Definition NewCryptoSetup (connID version : Z) (supported : list Z) (scfg : ServerConfig) (null : AEAD)
    (ps : connectionParametersManager) : cryptoSetupServer :=
  mkServer connID version supported scfg [] null None None false false false [] false ps [].

Definition set_divnonce (h : cryptoSetupServer) (n : list Z) : cryptoSetupServer :=
  mkServer (srv_connID h) (srv_version h) (srv_supportedVersions h) (srv_scfg h) n (srv_nullAEAD h)
    (srv_secureAEAD h) (srv_forwardSecureAEAD h) (receivedForwardSecurePacket h) (srv_receivedSecurePacket h)
    (srv_sentSHLO h) (srv_aeadChanged h) (srv_aeadClosed h) (srv_parameters h) (srv_written h).

Definition set_keys (h : cryptoSetupServer) (secure fs : option AEAD) : cryptoSetupServer :=
  mkServer (srv_connID h) (srv_version h) (srv_supportedVersions h) (srv_scfg h) (srv_diversificationNonce h)
    (srv_nullAEAD h) secure fs (receivedForwardSecurePacket h) (srv_receivedSecurePacket h)
    (srv_sentSHLO h) (srv_aeadChanged h) (srv_aeadClosed h) (srv_parameters h) (srv_written h).

Definition set_seen (h : cryptoSetupServer) (fs secure closed : bool) : cryptoSetupServer :=
  mkServer (srv_connID h) (srv_version h) (srv_supportedVersions h) (srv_scfg h) (srv_diversificationNonce h)
    (srv_nullAEAD h) (srv_secureAEAD h) (srv_forwardSecureAEAD h) fs secure (srv_sentSHLO h)
    (srv_aeadChanged h) closed (srv_parameters h) (srv_written h).

Definition set_announced (h : cryptoSetupServer) (sent : bool) (levels : list Z) : cryptoSetupServer :=
  mkServer (srv_connID h) (srv_version h) (srv_supportedVersions h) (srv_scfg h) (srv_diversificationNonce h)
    (srv_nullAEAD h) (srv_secureAEAD h) (srv_forwardSecureAEAD h) (receivedForwardSecurePacket h)
    (srv_receivedSecurePacket h) sent levels (srv_aeadClosed h) (srv_parameters h) (srv_written h).

Definition set_negotiated (h : cryptoSetupServer) (ps : connectionParametersManager) (out : list Z)
  : cryptoSetupServer :=
  mkServer (srv_connID h) (srv_version h) (srv_supportedVersions h) (srv_scfg h) (srv_diversificationNonce h)
    (srv_nullAEAD h) (srv_secureAEAD h) (srv_forwardSecureAEAD h) (receivedForwardSecurePacket h)
    (srv_receivedSecurePacket h) (srv_sentSHLO h) (srv_aeadChanged h) (srv_aeadClosed h) ps out.

(** What a server calls: source address tokens for the address of the client, the callback that accepts
    them, the key derivation, the ephemeral key exchange, two blocks of random bytes ([None]: the source
    failed), and writing to the crypto stream. *)
Record server_env (Cookie : Type) : Type := mkServerEnv {
  stk_NewToken : result (list Z);
  stk_DecodeToken : list Z → result (option Cookie);
  acceptSTKCallback : option Cookie → bool;
  srv_keyDerivation : key_derivation;
  srv_keyExchange : KeyExchange;
  srv_serverNonce : option (list Z);
  srv_divNonce : option (list Z);
  srv_Write : list Z → option error;
}.
Arguments stk_NewToken {Cookie}.
Arguments stk_DecodeToken {Cookie}.
Arguments acceptSTKCallback {Cookie}.
Arguments srv_keyDerivation {Cookie}.
Arguments srv_keyExchange {Cookie}.
Arguments srv_serverNonce {Cookie}.
Arguments srv_divNonce {Cookie}.
Arguments srv_Write {Cookie}.

(** ** Client hellos *)

Section Server.
Context {Cookie : Type} (env : server_env Cookie).
Notation server A := (proc cryptoSetupServer A).

Definition acceptSTK (token : list Z) : bool :=
  match stk_DecodeToken env token with
  | Ok stk => acceptSTKCallback env stk
  | _ => false
  end.

Definition isInchoateCHLO (h : cryptoSetupServer) (cryptoData : gmap Z (list Z)) (cert : list Z) : bool :=
  match cryptoData !! TagPUBS, cryptoData !! TagSCID, cryptoData !! TagXLCT with
  | Some _, Some scid, Some xlct =>
      if negb (bool_decide (scfg_ID (srv_scfg h) = scid)) || negb (length xlct =? 8)%nat
         || negb (HashCert cert =? le_combine xlct) then true
      else negb (acceptSTK (default [] (cryptoData !! TagSTK)))
  | _, _, _ => true
  end.

Definition handleInchoateCHLO (sni chlo : list Z) (cryptoData : gmap Z (list Z)) : server (list Z) :=
  _ ← require (negb (Z.of_nat (length chlo) <? ClientHelloMinimumSize))
        (QuicError CryptoInvalidValueLength "CHLO too small");
  token ← give (stk_NewToken env);
  h ← state;
  let replyMap := <[TagSCFG := ServerConfig_Get (srv_scfg h)]> (<[TagSTK := token]>
                  (<[TagSVID := string_bytes "quic-go"]> ∅)) in
  replyMap ← (if acceptSTK (default [] (cryptoData !! TagSTK)) then
                proof ← give (ServerConfig_Sign (srv_scfg h) sni chlo);
                certCompressed ← give (GetCertsCompressed (scfg_certChain (srv_scfg h)) sni
                  (default [] (cryptoData !! TagCCS)) (default [] (cryptoData !! TagCCRT)));
                mret (<[TagCERT := certCompressed]> (<[TagPROF := proof]> replyMap))
              else mret replyMap);
  mret (HandshakeMessage_Write (mkMessage TagREJ replyMap)).

Definition random (r : option (list Z)) : server (list Z) :=
  give (match r with Some r => Ok r | None => Err errRandom end).

Definition validateClientNonce (h : cryptoSetupServer) (nonce : list Z) : option error :=
  if negb (length nonce =? 32)%nat
  then Some (QuicError InvalidCryptoMessageParameter "invalid client nonce length")
  else if negb (bool_decide (take 8 (drop 4 nonce) = scfg_obit (srv_scfg h)))
  then Some (QuicError InvalidCryptoMessageParameter "OBIT not matching")
  else None.

(** A key is installed; the setup has none if it cannot be derived. *)
Definition derive_secure (r : result AEAD) : server unit :=
  _ ← change (λ h, set_keys h (match r with Ok a => Some a | _ => None end) (srv_forwardSecureAEAD h));
  _ ← give r; mret tt.

Definition derive_forward_secure (r : result AEAD) : server unit :=
  _ ← change (λ h, set_keys h (srv_secureAEAD h) (match r with Ok a => Some a | _ => None end));
  _ ← give r; mret tt.

Definition announce (level : Z) : server unit :=
  change (λ h, set_announced h (srv_sentSHLO h) (srv_aeadChanged h ++ [level])).

Definition errAEAD : error := QuicError CryptoNoSupport "Unsupported AEAD or KEXS".

Definition handleCHLO (sni data : list Z) (cryptoData : gmap Z (list Z)) : server (list Z) :=
  h ← state;
  sharedSecret ← give (CalculateSharedKey (scfg_kex (srv_scfg h)) (default [] (cryptoData !! TagPUBS)));
  certUncompressed ← give (GetLeafCert (scfg_certChain (srv_scfg h)) sni);
  serverNonce ← random (srv_serverNonce env);
  _ ← change (λ h, set_divnonce h (default (replicate 32 0) (srv_divNonce env)));
  divNonce ← random (srv_divNonce env);
  let clientNonce := default [] (cryptoData !! TagNONC) in
  _ ← give (match validateClientNonce h clientNonce with Some e => Err e | None => Ok tt end);
  _ ← require (bool_decide (default [] (cryptoData !! TagAEAD) = string_bytes "AESG")) errAEAD;
  _ ← require (bool_decide (default [] (cryptoData !! TagKEXS) = string_bytes "C255")) errAEAD;
  let scfg := ServerConfig_Get (srv_scfg h) in
  _ ← derive_secure (srv_keyDerivation env false sharedSecret clientNonce (srv_connID h) data scfg
        certUncompressed divNonce PerspectiveServer);
  _ ← announce EncryptionSecure;
  ephermalSharedSecret ← give (CalculateSharedKey (srv_keyExchange env) (default [] (cryptoData !! TagPUBS)));
  _ ← derive_forward_secure (srv_keyDerivation env true ephermalSharedSecret (clientNonce ++ serverNonce)
        (srv_connID h) data scfg certUncompressed [] PerspectiveServer);
  let '(e, ps) := SetFromMap (srv_parameters h) cryptoData in
  _ ← change (λ h, set_negotiated h ps (srv_written h));
  _ ← give (match e with Some e => Err e | None => Ok tt end);
  let verTag := concat ((λ v, WriteUint32 LittleEndian (VersionNumberToTag v)) <$> srv_supportedVersions h) in
  let replyMap := <[TagVER := verTag]> (<[TagSNO := serverNonce]>
                  (<[TagPUBS := PublicKey (srv_keyExchange env)]> (GetHelloMap ps))) in
  mret (HandshakeMessage_Write (mkMessage TagSHLO replyMap)).

(** Writing to the crypto stream. *)
Definition write_stream (reply : list Z) : server unit :=
  match srv_Write env reply with
  | Some e => give (Err e)
  | None => change (λ h, set_negotiated h (srv_parameters h) (srv_written h ++ reply))
  end.

Definition errSNI : error := QuicError CryptoMessageParameterNotFound "SNI required".

(** Whether the handshake is done. *)
Definition handleMessage (chloData : list Z) (cryptoData : gmap Z (list Z)) : server bool :=
  _ ← require (bool_decide (cryptoData !! TagFHL2 = None)) ErrHOLExperiment;
  _ ← require (bool_decide (cryptoData !! TagNSTP = None)) ErrNSTPExperiment;
  sni ← value cryptoData TagSNI errSNI;
  _ ← require (negb (length sni =? 0)%nat) errSNI;
  verSlice ← value cryptoData TagVER (QuicError InvalidCryptoMessageParameter "client hello missing version tag");
  _ ← require (length verSlice =? 4)%nat (QuicError InvalidCryptoMessageParameter "incorrect version tag");
  h ← state;
  let ver := VersionTagToNumber (le_combine verSlice) in
  _ ← require (negb (negb (ver =? srv_version h) && IsSupportedVersion (srv_supportedVersions h) ver))
        (QuicError VersionNegotiationMismatch "Downgrade attack detected");
  certUncompressed ← give (GetLeafCert (scfg_certChain (srv_scfg h)) sni);
  if negb (isInchoateCHLO h cryptoData certUncompressed) then
    reply ← handleCHLO sni chloData cryptoData;
    _ ← write_stream reply;
    _ ← announce EncryptionForwardSecure;
    _ ← change (λ h, set_announced h true (srv_aeadChanged h));
    mret true
  else
    reply ← handleInchoateCHLO sni chloData cryptoData;
    _ ← write_stream reply;
    mret false.

(** The loop over the messages, with at most [fuel] of them. *)
Fixpoint server_loop (fuel : nat) (stream : list Z) : server unit :=
  match fuel with
  | O => give (Panic "endless loop")
  | S fuel =>
      match ParseHandshakeMessage stream with
      | Ok (message, rest) =>
          _ ← require (hm_Tag message =? TagCHLO) (ErrorCode InvalidCryptoMessageType);
          finished ← handleMessage (take (length stream - length rest) stream) (hm_Data message);
          if (finished : bool) then mret tt else server_loop fuel rest
      | _ => give (Err (ErrorCode HandshakeFailed))
      end
  end.

(** [stream] is what the client sends on the crypto stream before it ends.  Every message takes at
    least eight bytes of it, so the fuel is enough ([server_loop_fuel]). *)
Definition server_HandleCryptoStream (stream : list Z) : server unit := server_loop (S (length stream)) stream.

End Server.

Lemma ReadFull_length n s l r : ReadFull n s = Ok (l, r) → length s = (n + length r)%nat.
Proof.
  unfold ReadFull. case_decide as Hn; [|by destruct s]. intros [= <- <-]. rewrite length_drop. lia.
Qed.

Lemma parse_entries_length n index dataStart acc s m r :
  parse_entries n index dataStart acc s = Ok (m, r) → (length r <= length s)%nat.
Proof.
  revert index dataStart acc s. induction n as [|n IH]; intros index dataStart acc s; cbn [parse_entries].
  - by intros [= <- <-].
  - destruct (_ >? _); [done|]. intros (data & s1 & E1 & E)%rbind_inv. apply ReadFull_length in E1.
    apply IH in E. lia.
Qed.

Lemma message_length s m r : ParseHandshakeMessage s = Ok (m, r) → (length r + 8 <= length s)%nat.
Proof.
  unfold ParseHandshakeMessage. intros (l1 & s1 & E1%ReadFull_length & E)%rbind_inv.
  apply rbind_inv in E as (l2 & s2 & E2%ReadFull_length & E). destruct (_ >? _); [done|].
  apply rbind_inv in E as (l3 & s3 & E3%ReadFull_length & E).
  apply rbind_inv in E as (l4 & s4 & E4%parse_entries_length & [= _ <-]). lia.
Qed.

(** More fuel makes no difference. *)
Lemma server_loop_fuel {Cookie} (env : server_env Cookie) n stream h :
  (length stream < n)%nat → server_loop env n stream h = server_HandleCryptoStream env stream h.
Proof.
  unfold server_HandleCryptoStream. revert stream h.
  enough (∀ n m stream h, (length stream < n)%nat → (length stream < m)%nat → server_loop env n stream h = server_loop env m stream h) by auto.
  clear n. induction n as [|n IH]; intros [|m] stream h Hn Hm; [lia..|]. cbn [server_loop].
  destruct (ParseHandshakeMessage stream) as [[msg rest]|e|w] eqn:E; [|done..]. apply message_length in E.
  unfold mbind, proc_bind, require, give. destruct (hm_Tag msg =? TagCHLO); [|done].
  destruct (handleMessage _ _ _ h) as [[[]|e|w] h']; [done| |done..]. apply IH; lia.
Qed.

(** ** Packets *)

(** [None]: the first forward-secure packet waits until the SHLO was sent. *)
Definition server_Open (src : list Z) (packetNumber : Z) (associatedData : list Z) (h : cryptoSetupServer)
  : option (result (list Z * Z)) * cryptoSetupServer :=
  let open_null := match AEAD_Open (srv_nullAEAD h) src packetNumber associatedData with
                   | Ok res => Ok (res, EncryptionUnencrypted)
                   | Err e => Err e
                   | Panic w => Panic w
                   end in
  let open_secure :=
    match srv_secureAEAD h with
    | None => (Some open_null, h)
    | Some secure =>
        match AEAD_Open secure src packetNumber associatedData with
        | Ok res => (Some (Ok (res, EncryptionSecure)),
                     set_seen h (receivedForwardSecurePacket h) true (srv_aeadClosed h))
        | Err e => (Some (if srv_receivedSecurePacket h then Err e else open_null), h)
        | Panic w => (Some (Panic w), h)
        end
    end in
  match srv_forwardSecureAEAD h with
  | None => open_secure
  | Some fs =>
      match AEAD_Open fs src packetNumber associatedData with
      | Ok res =>
          if receivedForwardSecurePacket h then (Some (Ok (res, EncryptionForwardSecure)), h)
          else if srv_sentSHLO h
          then (Some (Ok (res, EncryptionForwardSecure)), set_seen h true (srv_receivedSecurePacket h) true)
          else (None, set_seen h true (srv_receivedSecurePacket h) (srv_aeadClosed h))
      | Err e => if receivedForwardSecurePacket h then (Some (Err e), h) else open_secure
      | Panic w => (Some (Panic w), h)
      end
  end.

Definition server_GetSealer (h : cryptoSetupServer) : Z * Sealer :=
  match srv_forwardSecureAEAD h with
  | Some a => (EncryptionForwardSecure, sealer_of a)
  | None => (EncryptionUnencrypted, sealer_of (srv_nullAEAD h))
  end.

Definition server_GetSealerForCryptoStream (h : cryptoSetupServer) : Z * Sealer :=
  match srv_secureAEAD h with
  | Some a => (EncryptionSecure, sealer_of a)
  | None => (EncryptionUnencrypted, sealer_of (srv_nullAEAD h))
  end.

Definition server_GetSealerWithEncryptionLevel (h : cryptoSetupServer) (encLevel : Z) : result Sealer :=
  if encLevel =? EncryptionUnencrypted then Ok (sealer_of (srv_nullAEAD h))
  else if encLevel =? EncryptionSecure then
    match srv_secureAEAD h with
    | None => Err (ErrorString "CryptoSetupServer: no secureAEAD")
    | Some a => Ok (sealer_of a)
    end
  else if encLevel =? EncryptionForwardSecure then
    match srv_forwardSecureAEAD h with
    | None => Err (ErrorString "CryptoSetupServer: no forwardSecureAEAD")
    | Some a => Ok (sealer_of a)
    end
  else Err (ErrorString "CryptoSetupServer: no encryption level specified").

(** What the packer sees of the setup. *)
Definition server_setup (h : cryptoSetupServer) : CryptoSetup :=
  mkCryptoSetup (server_GetSealer h) (server_GetSealerForCryptoStream h)
    (server_GetSealerWithEncryptionLevel h) (srv_diversificationNonce h).
