(* ===== verification/Cookies.v ===== *)
(** * Source address tokens and ephemeral keys

    internal/handshake/cookie_generator.go, ephermal_cache.go and internal/crypto/source_address_token.go:
    the tokens that tie a client to its address, and the key pair that a server uses for the forward-secure
    keys of all connections of a minute.

    The block cipher, HKDF, ASN.1 and the printing of addresses are other packages' code and are
    arguments. *)

From S2P Require Import Prelude ByteOrder Protocol Frames StreamFrame PublicHeader Unpacker Handshake.
From S2P Require Import FlowControl Stream StreamScheduler StreamsMap Congestion ConnectionParameters Packer Crypto.
From S2P Require Import CertCompression CryptoServer.

(** ** Sealed tokens *)

Definition stkKeySize : nat := 16.
Definition stkNonceSize : nat := 16.

(** [cipher.AEAD] with nonces of sixteen bytes. *)
Record stkSource : Type := mkStkSource { stk_aead : cipherAEAD }.

Definition deriveKey (hkdf : list Z → list Z → list Z → nat → result (list Z)) (secret : list Z) : result (list Z) :=
  hkdf secret [] (string_bytes "QUIC source address token key") stkKeySize.

Definition NewStkSource (hkdf : list Z → list Z → list Z → nat → result (list Z))
    (newGCM16 : list Z → result cipherAEAD) (random : option (list Z)) : result stkSource :=
  secret ← match random with Some r => Ok r | None => Err errRandom end;
  key ← deriveKey hkdf secret;
  aead ← newGCM16 key;
  Ok (mkStkSource aead).

(** The nonce, then the sealed data. *)
Definition stkSource_NewToken (s : stkSource) (random : option (list Z)) (data : list Z) : result (list Z) :=
  match random with
  | None => Err errRandom
  | Some nonce => Ok (nonce ++ cipher_Seal (stk_aead s) nonce data [])
  end.

Definition errShortSTK : error := ErrorString "STK too short".

Definition stkSource_DecodeToken (s : stkSource) (p : list Z) : result (list Z) :=
  if (length p <? stkNonceSize)%nat then Err errShortSTK
  else cipher_Open (stk_aead s) (take stkNonceSize p) (drop stkNonceSize p) [].

(** ** Cookies *)

Definition cookiePrefixIP : Z := 0.
Definition cookiePrefixString : Z := 1.

(** The address a client was seen at: of UDP, with the bytes of the IP address, or another one that is known
    by its name. *)
Inductive net_Addr : Type :=
| UDPAddr (IP : list Z) (port : Z)
| OtherAddr (name : list Z).

Record Cookie : Type := mkCookie {
  RemoteAddr : list Z;
  SentTime : Z;
}.

Record token : Type := mkToken {
  token_Data : list Z;
  token_Timestamp : Z;
}.

Definition encodeRemoteAddr (remoteAddr : net_Addr) : list Z :=
  match remoteAddr with
  | UDPAddr IP _ => cookiePrefixIP :: IP
  | OtherAddr name => cookiePrefixString :: name
  end.

Definition CookieExpiryTime : Z := 24 * 3600 * Second.

Section Cookies.
Context (asn1_Marshal : token → result (list Z)) (asn1_Unmarshal : list Z → result (token * list Z)).
Context (ip_String : list Z → list Z).

Definition decodeRemoteAddr (data : list Z) : list Z :=
  match data with
  | [] => []
  | p :: addr => if p =? cookiePrefixIP then ip_String addr else addr
  end.

(** [now] is the clock, in nanoseconds. *)
Definition NewToken (g : stkSource) (now : Z) (random : option (list Z)) (raddr : net_Addr) : result (list Z) :=
  data ← asn1_Marshal (mkToken (encodeRemoteAddr raddr) (now / Second));
  stkSource_NewToken g random data.

Definition DecodeToken (g : stkSource) (encrypted : list Z) : result (option Cookie) :=
  if (length encrypted =? 0)%nat then Ok None
  else
    data ← stkSource_DecodeToken g encrypted;
    '(t, rest) ← asn1_Unmarshal data;
    if negb (length rest =? 0)%nat then Err (ErrorString "rest when unpacking token")
    else Ok (Some (mkCookie (decodeRemoteAddr (token_Data t)) (token_Timestamp t * Second))).

(** What the address is in a cookie. *)
Definition address_name (a : net_Addr) : list Z :=
  match a with UDPAddr IP _ => ip_String IP | OtherAddr name => name end.

(** The default of the callback that accepts cookies (server.go); [now] is the clock. *)
Definition defaultAcceptCookie (now : Z) (clientAddr : net_Addr) (cookie : option Cookie) : bool :=
  match cookie with
  | None => false
  | Some c =>
      if SentTime c + CookieExpiryTime <? now then false
      else bool_decide (address_name clientAddr = RemoteAddr c)
  end.

Lemma decode_new_token (g : stkSource) (now : Z) (nonce : list Z) (raddr : net_Addr) (tok : list Z) :
  cipher_ok (stk_aead g) → length nonce = stkNonceSize →
  (∀ t d, asn1_Marshal t = Ok d → bytes_ok d ∧ asn1_Unmarshal d = Ok (t, [])) →
  NewToken g now (Some nonce) raddr = Ok tok →
  DecodeToken g tok = Ok (Some (mkCookie (address_name raddr) (now / Second * Second))).
Proof.
  intros Hc Hn Ha. unfold NewToken. destruct (asn1_Marshal _) as [d|e|w] eqn:Em; [|done..].
  destruct (Ha _ _ Em) as [Hb Hu]. intros [= <-]. unfold DecodeToken, stkSource_DecodeToken.
  rewrite length_app, Hn. destruct (Nat.eqb_spec (stkNonceSize + length (cipher_Seal (stk_aead g) nonce d [])) 0);
    [unfold stkNonceSize in *; lia|].
  destruct (Nat.ltb_spec (stkNonceSize + length (cipher_Seal (stk_aead g) nonce d [])) stkNonceSize); [lia|].
  rewrite take_app_length', drop_app_length', (cipher_opens _ Hc) by done. cbn [mbind result_bind]. rewrite Hu.
  cbn [mbind result_bind length Nat.eqb negb]. do 3 f_equal. by destruct raddr.
Qed.

(** C31: a source address token works exactly for the address it was issued to, and for a day.  A token a
    server issued to an address and a client presents later is accepted by default if and only if it comes
    from the same address and the expiry time, counted from the second it was issued in, is not over;
    whatever random nonce it was sealed with. *)
Theorem token_accepted_iff (g : stkSource) (issued now : Z) (nonce : list Z) (a b : net_Addr) (tok : list Z) :
  cipher_ok (stk_aead g) → length nonce = stkNonceSize →
  (∀ t d, asn1_Marshal t = Ok d → bytes_ok d ∧ asn1_Unmarshal d = Ok (t, [])) →
  NewToken g issued (Some nonce) a = Ok tok →
  match DecodeToken g tok with Ok c => defaultAcceptCookie now b c | _ => false end
  = (now <=? issued / Second * Second + CookieExpiryTime) && bool_decide (address_name b = address_name a).
Proof.
  intros Hc Hn Ha Hk. rewrite (decode_new_token _ _ _ _ _ Hc Hn Ha Hk). cbn [defaultAcceptCookie SentTime RemoteAddr].
  destruct (Z.ltb_spec (issued / Second * Second + CookieExpiryTime) now), (Z.leb_spec now (issued / Second * Second + CookieExpiryTime));
    try lia; done.
Qed.
End Cookies.

(** ** Ephemeral keys *)

Definition EphermalKeyLifetime : Z := 60 * Second.

(** The current key pair and when it was made. *)
Record kexCache : Type := mkKexCache {
  kexCurrent : option KeyExchange;
  kexCurrentTime : Z;
}.

(** [now] is the clock when the cache is looked at without the lock, [now'] with it; [new] is a new key pair. *)
Definition getEphermalKEX (now now' : Z) (new : result KeyExchange) (c : kexCache) : option KeyExchange * kexCache :=
  match kexCurrent c with
  | Some kex =>
      if now - kexCurrentTime c <? EphermalKeyLifetime then (Some kex, c)
      else if now' - kexCurrentTime c >? EphermalKeyLifetime then
        match new with
        | Ok kex => (Some kex, mkKexCache (Some kex) now')
        | _ => (Some kex, c)
        end
      else (Some kex, c)
  | None =>
      match new with
      | Ok kex => (Some kex, mkKexCache (Some kex) now')
      | _ => (None, c)
      end
  end.

(** A key pair is used while it is younger than its lifetime, and one that is handed out is older only if no new
    one could be made. *)
Lemma ephemeral_key_fresh now now' new c kex c' :
  now <= now' → getEphermalKEX now now' new c = (Some kex, c') →
  kexCurrent c' = Some kex ∧ (is_ok new = true → now' - kexCurrentTime c' <= EphermalKeyLifetime ∨ c' = c ∧ now - kexCurrentTime c < EphermalKeyLifetime).
Proof.
  unfold getEphermalKEX. intros Hn E. destruct (kexCurrent c) as [k|] eqn:Ek.
  - destruct (Z.ltb_spec (now - kexCurrentTime c) EphermalKeyLifetime).
    { simplify_eq. split; [done|]. intros _. by right. }
    rewrite Z.gtb_ltb in E. destruct (Z.ltb_spec EphermalKeyLifetime (now' - kexCurrentTime c)).
    + destruct new; simplify_eq; (split; [done|]); try done. intros _. left. cbn [kexCurrentTime].
      change EphermalKeyLifetime with 60000000000.
      lia.
    + simplify_eq. split; [done|]. intros _. left. done.
  - destruct new; simplify_eq. split; [done|]. intros _. left. cbn [kexCurrentTime]. change EphermalKeyLifetime with 60000000000. lia.
Qed.

(** *** Example *)

Definition sample_marshal (t : token) : result (list Z) :=
  if forallb (λ b, (0 <=? b) && (b <? 256)) (token_Data t) && (0 <=? token_Timestamp t) && (token_Timestamp t <? 2^64)
  then Ok (le_split 8 (token_Timestamp t) ++ token_Data t) else Err EOF.

Definition sample_unmarshal (d : list Z) : result (token * list Z) :=
  Ok (mkToken (drop 8 d) (le_combine (take 8 d)), []).

Lemma sample_asn1 t d : sample_marshal t = Ok d → bytes_ok d ∧ sample_unmarshal d = Ok (t, []).
Proof.
  unfold sample_marshal, sample_unmarshal. destruct (_ && _) eqn:E; [|done]. intros Hd.
  assert (le_split 8 (token_Timestamp t) ++ token_Data t = d) as <- by congruence. clear Hd. zbool. split.
  - apply bytes_ok_app; [apply le_split_bytes|]. apply Forall_forall. intros b Hb.
    match goal with F : forallb _ _ = true |- _ => eapply forallb_forall in F; [|by apply list_elem_of_In] end.
    zbool. unfold is_u8. lia.
  - rewrite take_app_length', drop_app_length' by (by rewrite length_le_split).
    rewrite le_combine_split by lia. by destruct t.
Qed.

Definition sample_stk : stkSource :=
  mkStkSource (match sample_gcm [1; 2; 3] with Ok c => c | _ => mkCipher (λ _ _ _, Err EOF) (λ _ _ _, []) 0 end).

Definition sample_token : list Z :=
  match NewToken sample_marshal sample_stk (1000 * Second) (Some (replicate 16 7)) (UDPAddr [10; 0; 0; 1] 443)
  with Ok t => t | _ => [] end.

Lemma token_accepted_iff_witness :
  NewToken sample_marshal sample_stk (1000 * Second) (Some (replicate 16 7)) (UDPAddr [10; 0; 0; 1] 443) = Ok sample_token ∧
  match DecodeToken sample_unmarshal (λ ip, ip) sample_stk sample_token with
  | Ok c => defaultAcceptCookie (λ ip, ip) (1005 * Second) (UDPAddr [10; 0; 0; 1] 80) c
  | _ => false
  end = true.
Proof.
  split; [by vm_compute|].
  rewrite (token_accepted_iff sample_marshal sample_unmarshal (λ ip, ip) sample_stk (1000 * Second) (1005 * Second)
    (replicate 16 7) (UDPAddr [10; 0; 0; 1] 443) (UDPAddr [10; 0; 0; 1] 80) sample_token); [by vm_compute| |done| |by vm_compute].
  - by eapply (sample_gcm_ok [1; 2; 3]).
  - exact sample_asn1.
Defined.
