(* ===== verification/Dispatch.v ===== *)
(** * Servers and clients

    server.go and client.go: configurations with their defaults, how a server finds the session of a packet,
    makes new ones, answers unknown versions and forgets closed sessions, and how a client checks the packets
    it gets and switches to another version.

    Sessions are behind the interface packetHandler, a type class that the sessions of session.go
    implement.  Sockets are where a packet came from and the datagrams that are written back. *)

From S2P Require Import Prelude ByteOrder Protocol Frames StreamFrame AckFrame ClosePathFrame PublicHeader Unpacker.
From S2P Require Import ReceivedPackets FlowControl Stream StreamScheduler StreamsMap PathScheduler StreamFramer.
From S2P Require Import Congestion SentPackets Handshake ConnectionParameters Packer Crypto Transmission Paths Session SendLoop.
From S2P Require Import CertCompression CryptoServer Cookies.
From S2P Require Import PublicHeader.

(** ** Configurations *)

(** An AcceptCookie that is not set is [None], and so on: empty strings and zeros. *)
Record FullConfig : Type := mkFullConfig {
  Versions : list Z;
  RequestConnectionIDTruncation : bool;
  cfg_HandshakeTimeout : Z;
  cfg_IdleTimeout : Z;
  AcceptCookie : option (net_Addr → option Cookie → bool);
  MaxReceiveStreamFlowControlWindow : Z;
  MaxReceiveConnectionFlowControlWindow : Z;
  cfg_KeepAlive : bool;
  CacheHandshake : bool;
  CreatePaths : bool;
  BindAddr : string;
  cfg_PathScheduler : string;
  cfg_StreamScheduler : string;
}.

Definition DefaultHandshakeTimeout : Z := 10 * Second.
Definition DefaultIdleTimeout : Z := 30 * Second.
Definition DefaultMaxReceiveStreamFlowControlWindowServer : Z := 1 * Z.shiftl 1 20.
Definition DefaultMaxReceiveConnectionFlowControlWindowServer : Z := 3 * Z.shiftl 1 20 / 2.
Definition DefaultMaxReceiveStreamFlowControlWindowClient : Z := 16 * Z.shiftl 1 20.
Definition DefaultMaxReceiveConnectionFlowControlWindowClient : Z := 24 * Z.shiftl 1 20.
Definition DefaultPathScheduler : string := "LowLatency".
Definition DefaultStreamScheduler : string := "RoundRobin".

Definition emptyConfig (createPaths : bool) : FullConfig :=
  mkFullConfig [] false 0 0 None 0 0 false false createPaths "" "" "".

Definition or_default (v d : Z) : Z := if v =? 0 then d else v.
Definition or_string (v d : string) : string := if bool_decide (v = ""%string) then d else v.

(** [accept] is the default for cookies. *)
Definition populateServerConfig (accept : net_Addr → option Cookie → bool) (config : option FullConfig) : FullConfig :=
  let config := default (emptyConfig true) config in
  let versions := if (length (Versions config) =? 0)%nat then DefaultSupportedVersions else Versions config in
  mkFullConfig versions false (or_default (cfg_HandshakeTimeout config) DefaultHandshakeTimeout)
    (or_default (cfg_IdleTimeout config) DefaultIdleTimeout) (Some (default accept (AcceptCookie config)))
    (or_default (MaxReceiveStreamFlowControlWindow config) DefaultMaxReceiveStreamFlowControlWindowServer)
    (or_default (MaxReceiveConnectionFlowControlWindow config) DefaultMaxReceiveConnectionFlowControlWindowServer)
    (cfg_KeepAlive config) false false "" (or_string (cfg_PathScheduler config) DefaultPathScheduler)
    (or_string (cfg_StreamScheduler config) DefaultStreamScheduler).

Definition populateClientConfig (config : option FullConfig) : FullConfig :=
  let config := default (emptyConfig false) config in
  let versions := if (length (Versions config) =? 0)%nat then DefaultSupportedVersions else Versions config in
  mkFullConfig versions (RequestConnectionIDTruncation config)
    (or_default (cfg_HandshakeTimeout config) DefaultHandshakeTimeout)
    (or_default (cfg_IdleTimeout config) DefaultIdleTimeout) None
    (or_default (MaxReceiveStreamFlowControlWindow config) DefaultMaxReceiveStreamFlowControlWindowClient)
    (or_default (MaxReceiveConnectionFlowControlWindow config) DefaultMaxReceiveConnectionFlowControlWindowClient)
    (cfg_KeepAlive config) (CacheHandshake config) (CreatePaths config) (or_string (BindAddr config) "0.0.0.0")
    (or_string (cfg_PathScheduler config) DefaultPathScheduler)
    (or_string (cfg_StreamScheduler config) DefaultStreamScheduler).

(** A random connection ID. *)
Definition GenerateConnectionID (random : option (list Z)) : result Z :=
  match random with None => Err errRandom | Some b => Ok (le_combine b) end.

(** ** The sessions of servers and clients *)

Class packetHandler (S : Type) : Type := {
  GetVersion : S → Z;
  ph_handlePacket : receivedPacket → S → S;
  ph_closeRemote : error → S → S;
  ph_Close : option error → S → S;
  ph_RemoteAddr : S → address;
}.

#[export] Instance session_handler {C} `{SendAlgorithm C} : packetHandler (session C) | 100 := {|
  GetVersion := λ s, pp_version (packer s);
  ph_handlePacket := λ pkt s, (handlePacket pkt s).2;
  ph_closeRemote := λ e s, (closeRemote e s).2;
  ph_Close := λ e s, (closeLocal e s).2;
  ph_RemoteAddr := λ s, match paths s !! InitialPathID with Some p => (conn p).2 | None => ([], 0) end;
|}.

Record receivedRawPacket : Type := mkRaw {
  raw_rcvPconn : address;
  raw_remoteAddr : address;
  raw_data : list Z;
  raw_rcvTime : Z;
}.

(** The text of an error. *)
Definition error_text (e : error) : string :=
  match e with ErrorString m => m | QuicError _ m => m | _ => "" end.

Definition with_raw (h : PublicHeader) (raw : list Z) : PublicHeader :=
  mkPublicHeader raw (ConnectionID h) (hdr_PathID h) (VersionFlag h) (ResetFlag h) (TruncateConnectionID h)
    (MultipathFlag h) (PacketNumberLen h) (PacketNumber h) (VersionNumber h) (SupportedVersions h)
    (DiversificationNonce h).

Definition received (p : receivedRawPacket) (hdr : PublicHeader) (rest : list Z) : receivedPacket :=
  mkReceived (raw_remoteAddr p) hdr rest (raw_rcvTime p) (raw_rcvPconn p).

(** ** Servers *)

(** [None] in [sessions] is a session that was closed.  [sv_queue] are the sessions to be accepted. *)
Record server (S : Type) : Type := mkServerState {
  sv_config : FullConfig;
  sessions : gmap Z (option S);
  sv_queue : list Z;
}.
Arguments mkServerState {S}.
Arguments sv_config {S}.
Arguments sessions {S}.
Arguments sv_queue {S}.

Definition errSmallPacket : error := ErrorString "dropping small packet with unknown version".
Definition errServerBug : error := ErrorString "Server BUG: negotiated version not supported".

Section Server.
Context {S : Type} `{packetHandler S}.
(** A new session for a connection, with the version and the connection ID; writing to the socket. *)
Context (newSession : address → address → bool → Z → Z → result S) (WriteTo : list Z → address → option error).

Definition set_sessions (s : server S) (m : gmap Z (option S)) : server S := mkServerState (sv_config s) m (sv_queue s).

(** What a call returns, what it wrote, the server after it. *)
Definition server_handlePacket (p : receivedRawPacket) (s : server S) : result unit * list (list Z) * server S :=
  let packet := raw_data p in
  let reply bytes := (match WriteTo bytes (raw_remoteAddr p) with Some e => Err e | None => Ok tt end, [bytes], s) in
  match PeekConnectionID PerspectiveClient ([], packet) with
  | Err e => (Err (QuicError InvalidPacketHeader (error_text e)), [], s)
  | Panic w => (Panic w, [], s)
  | Ok (connID, _) =>
      match sessions s !! connID with
      | Some None => (Ok tt, [], s)
      | known =>
          let version := match known with Some (Some session) => GetVersion session | _ => VersionUnknown end in
          let ok := bool_decide (is_Some known) in
          match ParsePublicHeader PerspectiveClient version packet with
          | Err e => if bool_decide (e = ErrPacketWithUnknownVersion) then reply (WritePublicReset connID 0 0)
                     else (Err (QuicError InvalidPacketHeader (error_text e)), [], s)
          | Panic w => (Panic w, [], s)
          | Ok (hdr, rest) =>
              let hdr := with_raw hdr (take (length packet - length rest) packet) in
              let supported v := IsSupportedVersion (Versions (sv_config s)) v in
              if ResetFlag hdr then (Ok tt, [], s)
              else if ok && VersionFlag hdr && negb (supported (VersionNumber hdr)) then (Ok tt, [], s)
              else if VersionFlag hdr && negb (supported (VersionNumber hdr)) then
                if Z.of_nat (length packet) <? ClientHelloMinimumSize + Z.of_nat (length (Raw hdr))
                then (Err errSmallPacket, [], s)
                else reply (ComposeVersionNegotiation (ConnectionID hdr) (Versions (sv_config s)))
              else
                let deliver (session : S) :=
                  set_sessions s (<[connID := Some (ph_handlePacket (received p hdr rest) session)]> (sessions s)) in
                match known with
                | Some (Some session) => (Ok tt, [], deliver session)
                | _ =>
                    if negb (supported (VersionNumber hdr)) then (Err errServerBug, [], s)
                    else
                      match newSession (raw_rcvPconn p) (raw_remoteAddr p) (CreatePaths (sv_config s)) (VersionNumber hdr)
                              (ConnectionID hdr) with
                      | Err e => (Err e, [], s)
                      | Panic w => (Panic w, [], s)
                      | Ok session => (Ok tt, [], deliver session)
                      end
                end
          end
      end
  end.

(** The goroutine that waits for the handshake: the session can be accepted. *)
Definition handshake_done (connID : Z) (s : server S) : server S :=
  mkServerState (sv_config s) (sessions s) (sv_queue s ++ [connID]).

Definition Accept (s : server S) : option (Z * server S) :=
  match sv_queue s with [] => None | id :: q => Some (id, mkServerState (sv_config s) (sessions s) q) end.

(** When the session has ended, and a minute later. *)
Definition removeConnection (id : Z) (s : server S) : server S := set_sessions s (<[id := None]> (sessions s)).
Definition delete_closed (id : Z) (s : server S) : server S := set_sessions s (delete id (sessions s)).

Definition server_Close (s : server S) : server S :=
  set_sessions s (fmap (M := gmap Z) (option_map (ph_Close None)) (sessions s)).

End Server.

(** ** Clients *)

(** [session] is nil after a new one could not be made.  [oldSessions] are those that were closed for
    another version. *)
Record client (S : Type) : Type := mkClientState {
  c_config : FullConfig;
  c_connectionID : Z;
  c_version : Z;
  versionNegotiated : bool;
  receivedVersionNegotiationPacket : bool;
  c_session : option S;
  oldSessions : list S;
}.
Arguments mkClientState {S}.
Arguments c_config {S}.
Arguments c_connectionID {S}.
Arguments c_version {S}.
Arguments versionNegotiated {S}.
Arguments receivedVersionNegotiationPacket {S}.
Arguments c_session {S}.
Arguments oldSessions {S}.

Definition InvalidVersion : Z := 20.
Definition PublicResetCode : Z := 19.

Section Client.
Context {S : Type} `{packetHandler S}.
Context (newClientSession : address → bool → Z → Z → list Z → result S).

Definition set_versions (c : client S) (negotiated received : bool) : client S :=
  mkClientState (c_config c) (c_connectionID c) (c_version c) negotiated received (c_session c) (oldSessions c).
Definition set_session (c : client S) (s : option S) : client S :=
  mkClientState (c_config c) (c_connectionID c) (c_version c) (versionNegotiated c)
    (receivedVersionNegotiationPacket c) s (oldSessions c).

Definition createNewSession (negotiatedVersions : list Z) (remote : address) (c : client S) : result unit * client S :=
  match newClientSession remote (CreatePaths (c_config c)) (c_version c) (c_connectionID c) negotiatedVersions with
  | Ok s => (Ok tt, set_session c (Some s))
  | Err e => (Err e, set_session c None)
  | Panic w => (Panic w, c)
  end.

(** [random] is for the new connection ID. *)
Definition handlePacketWithVersionFlag (random : option (list Z)) (hdr : PublicHeader) (remote : address) (c : client S)
  : result unit * client S :=
  if bool_decide (c_version c ∈ SupportedVersions hdr) then (Ok tt, c)
  else
    let c := set_versions c (versionNegotiated c) true in
    let newVersion := ChooseSupportedVersion (Versions (c_config c)) (SupportedVersions hdr) in
    if newVersion =? VersionUnsupported then (Err (ErrorCode InvalidVersion), c)
    else
      match GenerateConnectionID random with
      | Ok connID =>
          let old := c_session c in
          let c := mkClientState (c_config c) connID newVersion (versionNegotiated c) true (c_session c) (oldSessions c) in
          let '(e, c) := createNewSession (SupportedVersions hdr) remote c in
          (e, mkClientState (c_config c) (c_connectionID c) (c_version c) (versionNegotiated c) true (c_session c)
                (match old with Some s => [ph_Close (Some errCloseSessionForNewVersion) s] | None => [] end ++ oldSessions c))
      | Err e => (Err e, mkClientState (c_config c) 0 newVersion (versionNegotiated c) true (c_session c) (oldSessions c))
      | Panic w => (Panic w, c)
      end.

Definition client_handlePacket (random : option (list Z)) (p : receivedRawPacket) (c : client S) : result unit * client S :=
  let packet := raw_data p in
  match ParsePublicHeader PerspectiveServer (c_version c) packet with
  | Err _ => (Ok tt, c)
  | Panic w => (Panic w, c)
  | Ok (hdr, rest) =>
      if TruncateConnectionID hdr && negb (RequestConnectionIDTruncation (c_config c)) then (Ok tt, c)
      else if negb (TruncateConnectionID hdr) && negb (ConnectionID hdr =? c_connectionID c) then (Ok tt, c)
      else
        let hdr := with_raw hdr (take (length packet - length rest) packet) in
        match c_session c with
        | None => (Panic "nil pointer dereference", c)
        | Some s =>
            if ResetFlag hdr then
              if negb (bool_decide (address_String (ph_RemoteAddr s) = address_String (raw_remoteAddr p)))
                 || negb (ConnectionID hdr =? c_connectionID c) then (Ok tt, c)
              else match ParsePublicReset rest with
                   | Ok (pr, _) => (Ok tt, set_session c (Some (ph_closeRemote
                       (QuicError PublicResetCode ("Received a Public Reset for packet number 0x"
                          ++ hex (RejectedPacketNumber pr))) s)))
                   | _ => (Ok tt, c)
                   end
            else if (receivedVersionNegotiationPacket c || versionNegotiated c) && VersionFlag hdr then (Ok tt, c)
            else
              let c := if negb (VersionFlag hdr) && negb (versionNegotiated c)
                       then set_versions c true (receivedVersionNegotiationPacket c) else c in
              if VersionFlag hdr then
                let '(e, c) := handlePacketWithVersionFlag random hdr (raw_remoteAddr p) c in
                match e, c_session c with
                | Ok _, _ => (Ok tt, c)
                | Err e, Some s => (Ok tt, set_session c (Some (ph_Close (Some e) s)))
                | Err _, None => (Panic "nil pointer dereference", c)
                | Panic w, _ => (Panic w, c)
                end
              else (Ok tt, set_session c (Some (ph_handlePacket (received p hdr rest) s)))
        end
  end.

End Client.

(** ** Version negotiation *)

Section Negotiation.
Context {Sv Sc : Type} `{packetHandler Sv} `{packetHandler Sc}.
Context (newSession : address → address → bool → Z → Z → result Sv) (WriteTo : list Z → address → option error).
Context (newClientSession : address → bool → Z → Z → list Z → result Sc).

(** A client's packet with a version the server does not have is answered with the server's versions. *)
Lemma unknown_version_answered (s : server Sv) (hdr : PublicHeader) bytes payload pconn remote t :
  PublicHeader_ok hdr PerspectiveClient (VersionNumber hdr) VersionUnknown → VersionFlag hdr = true →
  PublicHeader_Write hdr (VersionNumber hdr) PerspectiveClient = Ok bytes →
  bytes_ok payload → ClientHelloMinimumSize <= Z.of_nat (length payload) →
  IsSupportedVersion (Versions (sv_config s)) (VersionNumber hdr) = false →
  sessions s !! ConnectionID hdr = None → (∀ b a, WriteTo b a = None) →
  server_handlePacket newSession WriteTo (mkRaw pconn remote (bytes ++ payload) t) s
  = (Ok tt, [ComposeVersionNegotiation (ConnectionID hdr) (Versions (sv_config s))], s).
Proof.
  intros Hok Hv Ew Hb Hl Hs Hn HW.
  destruct (peek_connection_id hdr PerspectiveClient _ _ [] payload Hok Hb) as (bs & Ew' & Hpeek).
  destruct (public_header_roundtrip hdr PerspectiveClient _ _ payload Hok Hb) as (bs' & Ew'' & _ & Hparse).
  rewrite Ew in Ew', Ew''. injection Ew' as <-. injection Ew'' as <-.
  unfold server_handlePacket. cbn [raw_data raw_remoteAddr]. rewrite Hpeek, Hn.
  rewrite bool_decide_false by (by intros [? ?]). rewrite Hparse. cbv zeta. cbn [with_raw VersionFlag VersionNumber Raw ConnectionID].
  assert (ResetFlag hdr = false) as Hr.
  { destruct Hok as (_ & _ & _ & _ & _ & _ & _ & Hvo). unfold version_ok in Hvo. rewrite Hv in Hvo. tauto. }
  cbn [ResetFlag with_raw]. rewrite Hr, Hv, Hs. cbn [andb negb].
  rewrite length_app, Nat.add_sub, take_app_length.
  destruct (Z.ltb_spec (Z.of_nat (length bytes + length payload)) (ClientHelloMinimumSize + Z.of_nat (length bytes))); [lia|].
  by rewrite HW.
Qed.

(** What a client does with the versions of a server. *)
Lemma client_switches (c : client Sc) (s0 : Sc) versions r pconn remote t :
  0 < c_connectionID c < 2^64 → Forall (λ v, 0 <= v < 1000) versions → c_version c ∉ versions →
  c_session c = Some s0 → versionNegotiated c = false → receivedVersionNegotiationPacket c = false →
  let '(res, c') := client_handlePacket newClientSession (Some r)
    (mkRaw pconn remote (ComposeVersionNegotiation (c_connectionID c) versions) t) c in
  let v := ChooseSupportedVersion (Versions (c_config c)) versions in
  if v =? VersionUnsupported then res = Ok tt ∧ c_session c' = Some (ph_Close (Some (ErrorCode InvalidVersion)) s0)
  else ∀ s1, newClientSession remote (CreatePaths (c_config c)) v (le_combine r) versions = Ok s1 →
    res = Ok tt ∧ c_session c' = Some s1 ∧ c_version c' = v ∧ c_connectionID c' = le_combine r ∧
    receivedVersionNegotiationPacket c' = true ∧
    oldSessions c' = ph_Close (Some errCloseSessionForNewVersion) s0 :: oldSessions c.
Proof.
  intros Hc Hvs Hnew Hs0 Hneg Hrec.
  destruct (version_negotiation_roundtrip (c_connectionID c) (c_version c) versions Hc Hvs)
    as (hdr & Hparse & Hid & Hvf & Hr & Ht & Hsv & _).
  unfold client_handlePacket. cbn [raw_data raw_remoteAddr]. rewrite Hparse.
  cbv zeta. cbn [with_raw TruncateConnectionID ConnectionID ResetFlag VersionFlag SupportedVersions].
  rewrite Ht, Hid, Z.eqb_refl, Hs0, Hr, Hneg, Hrec, Hvf. cbn [andb orb negb].
  unfold handlePacketWithVersionFlag. cbn [SupportedVersions with_raw]. rewrite Hsv, bool_decide_false by done.
  cbn [set_versions c_config]. destruct (_ =? _); [cbn; by rewrite Hs0|].
  cbn [GenerateConnectionID]. unfold createNewSession. cbn [c_config c_version c_connectionID c_session set_versions set_session].
  destruct (newClientSession _ _ _ _ _); intros s1 [= <-]; by rewrite ?Hs0.
Qed.

Lemma IsSupportedVersion_elem supported v : IsSupportedVersion supported v = true ↔ v ∈ supported.
Proof.
  unfold IsSupportedVersion. rewrite existsb_exists, list_elem_of_In. split.
  - intros (x & Hx & ->%Z.eqb_eq). done.
  - intros Hx. exists v. by rewrite Z.eqb_refl.
Qed.

(** C29: version negotiation comes to a version both sides have.  When a client's first packet, with a full
    payload, arrives at a server that does not have its version, the server answers with its versions and keeps
    no state; when that answer reaches the client, the client starts over with a new session and connection
    ID, telling the session which versions the server offered, in the first of its own versions that
    the server has too, and a server with this version will take it; if there is none, it closes the
    session with the error for that. *)
Theorem version_negotiation_converges (s : server Sv) (c : client Sc) (s0 : Sc) (hdr : PublicHeader)
    (bytes payload r : list Z) (pconn pconn' remote local : address) (t t' : Z) :
  PublicHeader_ok hdr PerspectiveClient (c_version c) VersionUnknown → VersionFlag hdr = true →
  ConnectionID hdr = c_connectionID c → PublicHeader_Write hdr (c_version c) PerspectiveClient = Ok bytes →
  bytes_ok payload → ClientHelloMinimumSize <= Z.of_nat (length payload) →
  c_version c ∉ Versions (sv_config s) → Forall (λ v, 0 <= v < 1000) (Versions (sv_config s)) →
  sessions s !! c_connectionID c = None → (∀ b a, WriteTo b a = None) →
  c_session c = Some s0 → versionNegotiated c = false → receivedVersionNegotiationPacket c = false →
  (∀ a cp v id vs, is_ok (newClientSession a cp v id vs) = true) →
  ∃ reply c',
    server_handlePacket newSession WriteTo (mkRaw pconn local (bytes ++ payload) t) s = (Ok tt, [reply], s) ∧
    client_handlePacket newClientSession (Some r) (mkRaw pconn' remote reply t') c = (Ok tt, c') ∧
    ((∃ pre v post s1, Versions (c_config c) = pre ++ v :: post ∧ Forall (λ w, w ∉ Versions (sv_config s)) pre ∧
        IsSupportedVersion (Versions (sv_config s)) v = true ∧ c_version c' = v ∧ c_connectionID c' = le_combine r ∧
        newClientSession remote (CreatePaths (c_config c)) v (le_combine r) (Versions (sv_config s)) = Ok s1 ∧
        c_session c' = Some s1) ∨
     Forall (λ w, w ∉ Versions (sv_config s)) (Versions (c_config c)) ∧
     c_session c' = Some (ph_Close (Some (ErrorCode InvalidVersion)) s0)).
Proof.
  intros Hok Hv Hid Ew Hb Hl Hns Hvs Hs HW Hs0 Hn Hrec Hnew.
  assert (VersionNumber hdr = c_version c ∧ 0 < c_connectionID c < 2^64) as [Hvn Hcid].
  { destruct Hok as (_ & _ & _ & _ & _ & _ & Hco & Hvo). unfold version_ok, connection_ok, is_u64 in *. rewrite Hv in Hvo.
    destruct (TruncateConnectionID hdr); [by destruct Hco|]. rewrite <- Hid. split; [by symmetry; apply Hvo|lia]. }
  rewrite <- Hvn in Hok, Ew. rewrite <- Hid in Hs.
  assert (IsSupportedVersion (Versions (sv_config s)) (VersionNumber hdr) = false) as Hsup.
  { apply not_true_is_false. by rewrite IsSupportedVersion_elem, Hvn. }
  pose proof (unknown_version_answered s hdr bytes payload pconn local t Hok Hv Ew Hb Hl Hsup Hs HW) as Hserver.
  pose proof (client_switches c s0 (Versions (sv_config s)) r pconn' remote t' Hcid Hvs Hns Hs0 Hn Hrec) as Hclient.
  rewrite Hid in Hserver. destruct (client_handlePacket _ _ _ c) as [res c'] eqn:Ec. cbv zeta in Hclient.
  exists (ComposeVersionNegotiation (c_connectionID c) (Versions (sv_config s))), c'. split; [done|].
  destruct (choose_supported_version (Versions (c_config c)) (Versions (sv_config s)))
    as [(pre & v & post & Ev & Hin & Hpre & Hch)|[Hnone Hch]]; rewrite Hch in Hclient.
  - assert (v <> VersionUnsupported) as Hneq.
    { rewrite Forall_forall in Hvs. specialize (Hvs v). unfold VersionUnsupported. intros ->. by destruct Hvs. }
    apply Z.eqb_neq in Hneq. rewrite Hneq in Hclient.
    pose proof (Hnew remote (CreatePaths (c_config c)) v (le_combine r) (Versions (sv_config s))) as Hs1.
    destruct (newClientSession _ _ v _ _) as [s1|e|w] eqn:E1; [|done..].
    destruct (Hclient s1 eq_refl) as (-> & Hs' & Hv' & Hid' & _). split; [done|]. left. exists pre, v, post, s1.
    split_and!; try done; [by apply Forall_forall|by apply IsSupportedVersion_elem].
  - change (VersionUnsupported =? VersionUnsupported) with true in Hclient. cbn in Hclient.
    destruct Hclient as [-> Hs']. split; [done|]. right. split; [|done]. by apply Forall_forall.
Qed.

End Negotiation.

(** A client switches versions at most once, and never after a packet of its version arrived. *)
Section Switching.
Context {S : Type} `{packetHandler S}.
Context (newClientSession : address → bool → Z → Z → list Z → result S).

Definition client_packets (ps : list (option (list Z) * receivedRawPacket)) (c : client S) : client S :=
  foldl (λ c x, (client_handlePacket newClientSession x.1 x.2 c).2) c ps.

Definition switched_once (c : client S) : Prop :=
  (length (oldSessions c) <= 1)%nat ∧ (oldSessions c <> [] → receivedVersionNegotiationPacket c = true).

Lemma packet_switches random p c :
  let c' := (client_handlePacket newClientSession random p c).2 in
  (switched_once c → switched_once c') ∧
  (versionNegotiated c = true →
   versionNegotiated c' = true ∧ c_version c' = c_version c ∧ c_connectionID c' = c_connectionID c).
Proof using.
  cbv zeta. unfold client_handlePacket. destruct (ParsePublicHeader _ _ _) as [[hdr rest]|e|w]; [|done..].
  repeat (case_match; try done); cbn [snd] in *; try (by split; [|intros ->]).
  all: unfold handlePacketWithVersionFlag, createNewSession in *; repeat case_match; simplify_eq/=; try done.
  all: match goal with H : (_ || _) && _ = false |- _ => rewrite andb_true_r in H; apply orb_false_elim in H as [Hr Hn] end;
    (split; [|by rewrite Hn]); intros [Hl Ho]; unfold switched_once; cbn; rewrite Hr in Ho;
    (destruct (oldSessions c); [split; [cbn; lia|done]|by specialize (Ho ltac:(discriminate))]).
Qed.

(** Over any packets. *)
Theorem version_switched_at_most_once ps c :
  switched_once c →
  switched_once (client_packets ps c) ∧
  (versionNegotiated c = true →
   c_version (client_packets ps c) = c_version c ∧ c_connectionID (client_packets ps c) = c_connectionID c).
Proof using.
  revert c. induction ps as [|[random p] ps IH]; intros c Hc; [done|]. cbn [client_packets foldl fst snd].
  destruct (packet_switches random p c) as [H1 H2]. destruct (IH _ (H1 Hc)) as [H3 H4]. split; [done|].
  intros Hn. destruct (H2 Hn) as (Hn' & E1 & E2). destruct (H4 Hn') as [E3 E4]. unfold client_packets in *. split; congruence.
Qed.
End Switching.

(** ** Sessions of a server *)

Section Isolation.
Context {S : Type} `{packetHandler S}.
Context (newSession : address → address → bool → Z → Z → result S) (WriteTo : list Z → address → option error).

(** C30: a packet reaches no session but the one of its connection ID.  Whatever arrives at a server:
    the sessions of all other connections stay as they are, at most one datagram is sent back, a packet for
    a session that was closed is dropped without an answer, an existing session is never replaced by a
    new one, and a new session is only made for a version the server supports. *)
Theorem server_isolates_sessions (p : receivedRawPacket) (s : server S) (connID : Z) c :
  PeekConnectionID PerspectiveClient ([], raw_data p) = Ok (connID, c) →
  let '(res, written, s') := server_handlePacket newSession WriteTo p s in
  (length written <= 1)%nat ∧ (∀ id, id <> connID → sessions s' !! id = sessions s !! id) ∧
  match sessions s !! connID with
  | Some None => sessions s' = sessions s ∧ written = []
  | Some (Some session) =>
      sessions s' = sessions s ∨
      written = [] ∧ ∃ pkt, sessions s' !! connID = Some (Some (ph_handlePacket pkt session))
  | None =>
      sessions s' = sessions s ∨
      written = [] ∧ ∃ v session pkt, IsSupportedVersion (Versions (sv_config s)) v = true ∧
        newSession (raw_rcvPconn p) (raw_remoteAddr p) (CreatePaths (sv_config s)) v (ConnectionID (rp_publicHeader pkt)) = Ok session ∧
        sessions s' !! connID = Some (Some (ph_handlePacket pkt session))
  end.
Proof using.
  intros Hpeek. unfold server_handlePacket. rewrite Hpeek.
  assert (∀ x, (∀ id, id <> connID → <[connID := x]> (sessions s) !! id = sessions s !! id)) as Hother.
  { intros x id Hid. by rewrite lookup_insert_ne. }
  destruct (sessions s !! connID) as [[session|]|] eqn:Es; [|by (split_and!; [cbn; lia|..])|]; cbn [GetVersion];
    (destruct (ParsePublicHeader _ _ _) as [[hdr rest]|e|w];
      [|destruct (bool_decide (e = ErrPacketWithUnknownVersion))|]); try (by (split_and!; [cbn; lia|done|left]));
    cbv zeta; generalize (with_raw hdr (take (length (raw_data p) - length rest) (raw_data p))); intros hdr'.
  - case_ifs; try (by (split_and!; [cbn; lia|done|left])).
    cbv beta iota. split_and!; [cbn; lia|apply Hother|]. right. split; [done|]. eexists. apply lookup_insert_eq.
  - case_ifs; try (by (split_and!; [cbn; lia|done|left])).
    destruct (newSession _ _ _ _ _) eqn:En; try (by (split_and!; [cbn; lia|done|left])).
    cbv beta iota. split_and!; [cbn; lia|apply Hother|]. right. split; [done|]. eexists _, _, (received p hdr' rest).
    split_and!; [by apply negb_false_iff|done|apply lookup_insert_eq].
Qed.
End Isolation.

(** A server never creates paths: the configuration that is given to its sessions does not have the field,
    although it is set by default. *)
Theorem server_never_creates_paths accept config : CreatePaths (populateServerConfig accept config) = false.
Proof. done. Qed.

(** ** Example *)

(** Sessions that only have a version and count what happens to them. *)
#[local] Instance counting_handler : packetHandler (Z * Z) := {|
  GetVersion := fst;
  ph_handlePacket := λ _ s, (s.1, s.2 + 1);
  ph_closeRemote := λ _ s, (s.1, s.2 + 100);
  ph_Close := λ _ s, (s.1, s.2 + 1000);
  ph_RemoteAddr := λ _, ([], 0);
|}.

Definition toy_server : server (Z * Z) :=
  mkServerState (populateServerConfig (λ _ _, true) (Some (mkFullConfig [39; 38] false 0 0 None 0 0 false false true "" "" "")))
    ∅ [].

Definition toy_client : client (Z * Z) :=
  mkClientState (populateClientConfig (Some (mkFullConfig [512; 38; 39] false 0 0 None 0 0 false false true "" "" "")))
    1234 512 false false (Some (512, 0)) [].

Definition toy_new (_ _ : address) (_ : bool) (v _ : Z) : result (Z * Z) := Ok (v, 0).
Definition toy_new_client (_ : address) (_ : bool) (v _ : Z) (_ : list Z) : result (Z * Z) := Ok (v, 0).
Definition toy_write (_ : list Z) (_ : address) : option error := None.

Definition toy_bytes : list Z :=
  match PublicHeader_Write sample_header 512 PerspectiveClient with Ok b => b | _ => [] end.

Lemma version_negotiation_converges_witness :
  ∃ reply c',
    server_handlePacket toy_new toy_write (mkRaw ([], 1) ([], 2) (toy_bytes ++ replicate 1024 0) 5) toy_server
      = (Ok tt, [reply], toy_server) ∧
    client_handlePacket toy_new_client (Some [77]) (mkRaw ([], 2) ([], 1) reply 6) toy_client = (Ok tt, c') ∧
    ((∃ pre v post s1, Versions (c_config toy_client) = pre ++ v :: post ∧
        Forall (λ w, w ∉ Versions (sv_config toy_server)) pre ∧
        IsSupportedVersion (Versions (sv_config toy_server)) v = true ∧ c_version c' = v ∧
        c_connectionID c' = le_combine [77] ∧
        toy_new_client ([], 1) (CreatePaths (c_config toy_client)) v (le_combine [77]) (Versions (sv_config toy_server)) = Ok s1 ∧
        c_session c' = Some s1) ∨
     Forall (λ w, w ∉ Versions (sv_config toy_server)) (Versions (c_config toy_client)) ∧
     c_session c' = Some (ph_Close (Some (ErrorCode InvalidVersion)) (512, 0))).
Proof.
  apply (version_negotiation_converges toy_new toy_write toy_new_client toy_server toy_client (512, 0) sample_header
    toy_bytes (replicate 1024 0) [77] ([], 1) ([], 2) ([], 1) ([], 2) 5 6); try done.
  - unfold PublicHeader_ok, nonce_ok, number_ok, connection_ok, version_ok, is_u8, is_u64, valid_pn_len. simpl.
    split_and!; auto; lia.
  - apply Forall_replicate. done.
  - cbn. set_solver.
  - cbn. repeat constructor; lia.
Defined.

Lemma server_isolates_sessions_witness :
  let p := mkRaw ([], 1) ([], 2) (match PublicHeader_Write sample_header 512 PerspectiveClient with Ok b => b | _ => [] end) 5 in
  let s := mkServerState (sv_config toy_server) {[ 1234 := Some (39, 7); 5 := Some (38, 1) ]} [] in
  let '(res, written, s') := server_handlePacket toy_new toy_write p s in
  (length written <= 1)%nat ∧ (∀ id, id <> 1234 → sessions s' !! id = sessions s !! id) ∧
  match sessions s !! 1234 with
  | Some None => sessions s' = sessions s ∧ written = []
  | Some (Some session) =>
      sessions s' = sessions s ∨
      written = [] ∧ ∃ pkt, sessions s' !! 1234 = Some (Some (ph_handlePacket pkt session))
  | None =>
      sessions s' = sessions s ∨
      written = [] ∧ ∃ v session pkt, IsSupportedVersion (Versions (sv_config s)) v = true ∧
        toy_new (raw_rcvPconn p) (raw_remoteAddr p) (CreatePaths (sv_config s)) v (ConnectionID (rp_publicHeader pkt)) = Ok session ∧
        sessions s' !! 1234 = Some (Some (ph_handlePacket pkt session))
  end.
Proof.
  intros p s. eapply (server_isolates_sessions toy_new toy_write p s 1234). by vm_compute.
Defined.
