(* ===== verification/CryptoClient.v ===== *)
(** * The handshake of a client

    internal/handshake/crypto_setup_client.go and server_config_client.go: the client hellos, what a
    client takes from the server's rejections and its hello, when it believes the server, when it
    installs keys, and which packets it opens.

    The certificates are behind the interface crypto.CertManager, a type class here.  The goroutine
    that parses the crypto stream and the channel of diversification nonces are the events of
    [client_run]; the files of the handshake cache are a map from names to contents. *)

From S2P Require Import Prelude ByteOrder Protocol Frames StreamFrame PublicHeader Unpacker Handshake.
From S2P Require Import FlowControl Stream StreamScheduler StreamsMap Congestion ConnectionParameters Packer Crypto CertCompression SendLoop CryptoServer.

Definition CryptoTooManyRejects : Z := 41.
Definition ProofInvalid : Z := 42.
Definition CryptoEncryptionLevelIncorrect : Z := 44.
Definition CryptoServerConfigExpired : Z := 45.
Definition MaxClientHellos : Z := 3.

(** ** The server's configuration *)

Record serverConfigClient : Type := mkConfigClient {
  sc_raw : list Z;
  sc_ID : list Z;
  sc_obit : list Z;
  sc_expiry : Z;
  sc_kex : KeyExchange;
  sc_sharedSecret : list Z;
}.

Definition errMessageNotServerConfig : error := ErrorString "ServerConfig must have TagSCFG".

(** The first of [n] groups of four bytes that spells [name]. *)
Fixpoint find_group (name l : list Z) (n i : nat) : option nat :=
  match n with
  | O => None
  | S n => if bool_decide (take 4 l = name) then Some i else find_group name (drop 4 l) n (S i)
  end.

(** The public values, each after its length in three bytes. *)
Fixpoint parse_pubs (fuel : nat) (pubs : list Z) : result (list (list Z)) :=
  match fuel with
  | O => Panic "endless loop"
  | S fuel =>
      if (length pubs <=? 3)%nat then Ok []
      else
        let last_len := le_combine (take 3 pubs) in
        if (last_len =? 0) || (Z.of_nat (length pubs) <? 3 + last_len)
        then Err (QuicError CryptoInvalidValueLength "PUBS")
        else
          let n := Z.to_nat last_len in
          rest ← parse_pubs fuel (drop (3 + n) pubs);
          Ok (take n (drop 3 pubs) :: rest)
  end.

(** A value of the configuration. *)
Definition config_value (tagMap : gmap Z (list Z)) (t : Z) (name : string) : result (list Z) :=
  match tagMap !! t with Some v => Ok v | None => Err (QuicError CryptoMessageParameterNotFound name) end.

Definition ensure (b : bool) (e : error) : result unit := if b then Ok tt else Err e.

Section Config.
(** A new key pair for the key exchange. *)
Context (newKEX : result KeyExchange).

Definition parseValues (raw : list Z) (tagMap : gmap Z (list Z)) : result serverConfigClient :=
  scfgID ← config_value tagMap TagSCID "SCID";
  _ ← ensure (length scfgID =? 16)%nat (QuicError CryptoInvalidValueLength "SCID");
  kexs ← config_value tagMap TagKEXS "KEXS";
  _ ← ensure (length kexs mod 4 =? 0)%nat (QuicError CryptoInvalidValueLength "KEXS");
  c255Foundat ← match find_group (string_bytes "C255") kexs (length kexs / 4) 0 with
                | Some i => Ok i
                | None => Err (QuicError CryptoNoSupport "KEXS: Could not find C255, other key exchanges are not supported")
                end;
  aead ← config_value tagMap TagAEAD "AEAD";
  _ ← ensure (length aead mod 4 =? 0)%nat (QuicError CryptoInvalidValueLength "AEAD");
  _ ← ensure (bool_decide (is_Some (find_group (string_bytes "AESG") aead (length aead / 4) 0)))
        (QuicError CryptoNoSupport "AEAD");
  pubs ← config_value tagMap TagPUBS "PUBS";
  pubs_kexs ← parse_pubs (S (length pubs)) pubs;
  pub ← match pubs_kexs !! c255Foundat with
        | Some v => Ok v
        | None => Err (QuicError CryptoMessageParameterNotFound "KEXS not in PUBS")
        end;
  _ ← ensure (length pub =? 32)%nat (QuicError CryptoInvalidValueLength "PUBS");
  kex ← newKEX;
  sharedSecret ← CalculateSharedKey kex pub;
  obit ← config_value tagMap TagOBIT "OBIT";
  _ ← ensure (length obit =? 8)%nat (QuicError CryptoInvalidValueLength "OBIT");
  expy ← config_value tagMap TagEXPY "EXPY";
  _ ← ensure (length expy =? 8)%nat (QuicError CryptoInvalidValueLength "EXPY");
  Ok (mkConfigClient raw scfgID obit (Z.min (le_combine expy) ((2^63 - 1) / 2)) kex sharedSecret).

Definition parseServerConfig (data : list Z) : result serverConfigClient :=
  '(message, _) ← ParseHandshakeMessage data;
  _ ← ensure (hm_Tag message =? TagSCFG) errMessageNotServerConfig;
  parseValues data (hm_Data message).
End Config.

(** The expiry is in seconds, the clock in nanoseconds. *)
Definition IsExpired (now : Z) (s : serverConfigClient) : bool := sc_expiry s * Second <? now.

(** ** State *)

(** [cl_sno] is [None] as long as the slice is nil.  [cl_files] are the files of the handshake cache. *)
Record cryptoSetupClient (CM : Type) : Type := mkClient {
  cl_hostname : list Z;
  cl_connID : Z;
  cl_version : Z;
  cl_negotiatedVersions : list Z;
  cl_truncation : bool;
  cl_cache : bool;
  serverConfig : option serverConfigClient;
  cl_stk : list Z;
  cl_sno : option (list Z);
  cl_nonc : list Z;
  cl_proof : list Z;
  chloForSignature : list Z;
  lastSentCHLO : list Z;
  cl_certManager : CM;
  cl_certData : list Z;
  cl_scfgData : list Z;
  cl_diversificationNonce : list Z;
  clientHelloCounter : Z;
  serverVerified : bool;
  cl_receivedSecurePacket : bool;
  cl_nullAEAD : AEAD;
  cl_secureAEAD : option AEAD;
  cl_forwardSecureAEAD : option AEAD;
  cl_aeadChanged : list Z;
  cl_aeadClosed : bool;
  cl_parameters : connectionParametersManager;
  cl_written : list Z;
  cl_files : gmap (list Z) (list Z);
}.
Arguments mkClient {CM}.
Arguments cl_hostname {CM}.
Arguments cl_connID {CM}.
Arguments cl_version {CM}.
Arguments cl_negotiatedVersions {CM}.
Arguments cl_truncation {CM}.
Arguments cl_cache {CM}.
Arguments serverConfig {CM}.
Arguments cl_stk {CM}.
Arguments cl_sno {CM}.
Arguments cl_nonc {CM}.
Arguments cl_proof {CM}.
Arguments chloForSignature {CM}.
Arguments lastSentCHLO {CM}.
Arguments cl_certManager {CM}.
Arguments cl_certData {CM}.
Arguments cl_scfgData {CM}.
Arguments cl_diversificationNonce {CM}.
Arguments clientHelloCounter {CM}.
Arguments serverVerified {CM}.
Arguments cl_receivedSecurePacket {CM}.
Arguments cl_nullAEAD {CM}.
Arguments cl_secureAEAD {CM}.
Arguments cl_forwardSecureAEAD {CM}.
Arguments cl_aeadChanged {CM}.
Arguments cl_aeadClosed {CM}.
Arguments cl_parameters {CM}.
Arguments cl_written {CM}.
Arguments cl_files {CM}.

Section Updates.
Context {CM : Type}.
Implicit Types h : cryptoSetupClient CM.

Definition NewCryptoSetupClient (hostname : list Z) (connID version : Z) (cm : CM) (null : AEAD)
    (ps : connectionParametersManager) (truncation cache : bool) (negotiatedVersions : list Z)
    (files : gmap (list Z) (list Z)) : cryptoSetupClient CM :=
  mkClient hostname connID version negotiatedVersions truncation cache None [] None [] [] [] [] cm [] [] [] 0
    false false null None None [] false ps [] files.

Definition set_tokens h (stk : list Z) (sno : option (list Z)) (nonc : list Z) : cryptoSetupClient CM :=
  mkClient (cl_hostname h) (cl_connID h) (cl_version h) (cl_negotiatedVersions h) (cl_truncation h) (cl_cache h)
    (serverConfig h) stk sno nonc (cl_proof h) (chloForSignature h) (lastSentCHLO h) (cl_certManager h)
    (cl_certData h) (cl_scfgData h) (cl_diversificationNonce h) (clientHelloCounter h) (serverVerified h)
    (cl_receivedSecurePacket h) (cl_nullAEAD h) (cl_secureAEAD h) (cl_forwardSecureAEAD h) (cl_aeadChanged h)
    (cl_aeadClosed h) (cl_parameters h) (cl_written h) (cl_files h).

Definition set_config h (c : option serverConfigClient) (data : list Z) : cryptoSetupClient CM :=
  mkClient (cl_hostname h) (cl_connID h) (cl_version h) (cl_negotiatedVersions h) (cl_truncation h) (cl_cache h)
    c (cl_stk h) (cl_sno h) (cl_nonc h) (cl_proof h) (chloForSignature h) (lastSentCHLO h) (cl_certManager h)
    (cl_certData h) data (cl_diversificationNonce h) (clientHelloCounter h) (serverVerified h)
    (cl_receivedSecurePacket h) (cl_nullAEAD h) (cl_secureAEAD h) (cl_forwardSecureAEAD h) (cl_aeadChanged h)
    (cl_aeadClosed h) (cl_parameters h) (cl_written h) (cl_files h).

Definition set_proof h (proof chlo : list Z) (verified : bool) : cryptoSetupClient CM :=
  mkClient (cl_hostname h) (cl_connID h) (cl_version h) (cl_negotiatedVersions h) (cl_truncation h) (cl_cache h)
    (serverConfig h) (cl_stk h) (cl_sno h) (cl_nonc h) proof chlo (lastSentCHLO h) (cl_certManager h)
    (cl_certData h) (cl_scfgData h) (cl_diversificationNonce h) (clientHelloCounter h) verified
    (cl_receivedSecurePacket h) (cl_nullAEAD h) (cl_secureAEAD h) (cl_forwardSecureAEAD h) (cl_aeadChanged h)
    (cl_aeadClosed h) (cl_parameters h) (cl_written h) (cl_files h).

Definition set_certs h (cm : CM) (data : list Z) : cryptoSetupClient CM :=
  mkClient (cl_hostname h) (cl_connID h) (cl_version h) (cl_negotiatedVersions h) (cl_truncation h) (cl_cache h)
    (serverConfig h) (cl_stk h) (cl_sno h) (cl_nonc h) (cl_proof h) (chloForSignature h) (lastSentCHLO h) cm
    data (cl_scfgData h) (cl_diversificationNonce h) (clientHelloCounter h) (serverVerified h)
    (cl_receivedSecurePacket h) (cl_nullAEAD h) (cl_secureAEAD h) (cl_forwardSecureAEAD h) (cl_aeadChanged h)
    (cl_aeadClosed h) (cl_parameters h) (cl_written h) (cl_files h).

Definition set_hello h (counter : Z) (last out : list Z) : cryptoSetupClient CM :=
  mkClient (cl_hostname h) (cl_connID h) (cl_version h) (cl_negotiatedVersions h) (cl_truncation h) (cl_cache h)
    (serverConfig h) (cl_stk h) (cl_sno h) (cl_nonc h) (cl_proof h) (chloForSignature h) last (cl_certManager h)
    (cl_certData h) (cl_scfgData h) (cl_diversificationNonce h) counter (serverVerified h)
    (cl_receivedSecurePacket h) (cl_nullAEAD h) (cl_secureAEAD h) (cl_forwardSecureAEAD h) (cl_aeadChanged h)
    (cl_aeadClosed h) (cl_parameters h) out (cl_files h).

Definition set_client_keys h (secure fs : option AEAD) (received : bool) : cryptoSetupClient CM :=
  mkClient (cl_hostname h) (cl_connID h) (cl_version h) (cl_negotiatedVersions h) (cl_truncation h) (cl_cache h)
    (serverConfig h) (cl_stk h) (cl_sno h) (cl_nonc h) (cl_proof h) (chloForSignature h) (lastSentCHLO h)
    (cl_certManager h) (cl_certData h) (cl_scfgData h) (cl_diversificationNonce h) (clientHelloCounter h)
    (serverVerified h) received (cl_nullAEAD h) secure fs (cl_aeadChanged h) (cl_aeadClosed h)
    (cl_parameters h) (cl_written h) (cl_files h).

Definition set_changed h (levels : list Z) (closed : bool) : cryptoSetupClient CM :=
  mkClient (cl_hostname h) (cl_connID h) (cl_version h) (cl_negotiatedVersions h) (cl_truncation h) (cl_cache h)
    (serverConfig h) (cl_stk h) (cl_sno h) (cl_nonc h) (cl_proof h) (chloForSignature h) (lastSentCHLO h)
    (cl_certManager h) (cl_certData h) (cl_scfgData h) (cl_diversificationNonce h) (clientHelloCounter h)
    (serverVerified h) (cl_receivedSecurePacket h) (cl_nullAEAD h) (cl_secureAEAD h) (cl_forwardSecureAEAD h)
    levels closed (cl_parameters h) (cl_written h) (cl_files h).

Definition set_client_divnonce h (n : list Z) : cryptoSetupClient CM :=
  mkClient (cl_hostname h) (cl_connID h) (cl_version h) (cl_negotiatedVersions h) (cl_truncation h) (cl_cache h)
    (serverConfig h) (cl_stk h) (cl_sno h) (cl_nonc h) (cl_proof h) (chloForSignature h) (lastSentCHLO h)
    (cl_certManager h) (cl_certData h) (cl_scfgData h) n (clientHelloCounter h) (serverVerified h)
    (cl_receivedSecurePacket h) (cl_nullAEAD h) (cl_secureAEAD h) (cl_forwardSecureAEAD h) (cl_aeadChanged h)
    (cl_aeadClosed h) (cl_parameters h) (cl_written h) (cl_files h).

Definition set_rest h (ps : connectionParametersManager) (files : gmap (list Z) (list Z)) : cryptoSetupClient CM :=
  mkClient (cl_hostname h) (cl_connID h) (cl_version h) (cl_negotiatedVersions h) (cl_truncation h) (cl_cache h)
    (serverConfig h) (cl_stk h) (cl_sno h) (cl_nonc h) (cl_proof h) (chloForSignature h) (lastSentCHLO h)
    (cl_certManager h) (cl_certData h) (cl_scfgData h) (cl_diversificationNonce h) (clientHelloCounter h)
    (serverVerified h) (cl_receivedSecurePacket h) (cl_nullAEAD h) (cl_secureAEAD h) (cl_forwardSecureAEAD h)
    (cl_aeadChanged h) (cl_aeadClosed h) ps (cl_written h) files.

End Updates.

(** What a client calls: the clock, new key pairs, random bytes, the key derivation, writing to the
    crypto stream. *)
Record client_env : Type := mkClientEnv {
  cl_now : Z;
  cl_newKEX : result KeyExchange;
  cl_random : option (list Z);
  cl_keyDerivation : key_derivation;
  cl_Write : list Z → option error;
}.

Definition errNoObitForClientNonce : error :=
  ErrorString "CryptoSetup BUG: No OBIT for client nonce available".
Definition errClientNonceAlreadyExists : error :=
  ErrorString "CryptoSetup BUG: A client nonce was already generated".
Definition errConflictingDiversificationNonces : error :=
  ErrorString "Received two different diversification nonces".

Section Client.
Context {CM : Type} `{CertManager CM} (env : client_env).
Notation client A := (proc (cryptoSetupClient CM) A).
Implicit Types h : cryptoSetupClient CM.

(** ** Nonces and the handshake cache *)

Definition generateClientNonce : client unit :=
  h ← state;
  _ ← require (length (cl_nonc h) =? 0)%nat errClientNonceAlreadyExists;
  match serverConfig h with
  | None => give (Panic "nil pointer dereference")
  | Some c =>
      _ ← require (length (sc_obit c) =? 8)%nat errNoObitForClientNonce;
      r ← give (match cl_random env with Some r => Ok r | None => Err errRandom end);
      change (λ h, set_tokens h (cl_stk h) (cl_sno h)
        (WriteUint32 BigEndian (u32 (cl_now env / Second)) ++ sc_obit c ++ r))
  end.

Definition cache_file (name : string) h : list Z := string_bytes name ++ cl_hostname h.

(** A file that is there is left as it is. *)
Definition writeBinaryFile (files : gmap (list Z) (list Z)) (filename data : list Z) : gmap (list Z) (list Z) :=
  match files !! filename with Some _ => files | None => <[filename := data]> files end.

Definition cacheHandshake h : cryptoSetupClient CM :=
  let files := writeBinaryFile (cl_files h) (cache_file "cache_sni_" h) (cl_hostname h) in
  let files := writeBinaryFile files (cache_file "cache_stk_" h) (cl_stk h) in
  let files := writeBinaryFile files (cache_file "cache_cert_" h) (cl_certData h) in
  let files := writeBinaryFile files (cache_file "cache_scfg_" h) (cl_scfgData h) in
  set_rest h (cl_parameters h) files.

Definition errNotExist : error := ErrorString "file does not exist".

Definition readBinaryFile (filename : list Z) : client (list Z) :=
  h ← state;
  give (match cl_files h !! filename with Some d => Ok d | None => Err errNotExist end).

(** The steps of the cache in their order; the first that fails ends it. *)
Definition read_cache : client unit :=
  h ← state;
  sni ← readBinaryFile (cache_file "cache_sni_" h);
  _ ← require (bool_decide (cl_hostname h = sni)) (ErrorString "error when comparing SNI");
  stk ← readBinaryFile (cache_file "cache_stk_" h);
  _ ← change (λ h, set_tokens h stk (cl_sno h) (cl_nonc h));
  certData ← readBinaryFile (cache_file "cache_cert_" h);
  _ ← change (λ h, set_certs h (cl_certManager h) certData);
  cm ← give (SetData (cl_certManager h) certData);
  _ ← change (λ h, set_certs h cm certData);
  scfgData ← readBinaryFile (cache_file "cache_scfg_" h);
  let r := parseServerConfig (cl_newKEX env) scfgData in
  _ ← change (λ h, set_config h (match r with Ok c => Some c | _ => None end) scfgData);
  _ ← give r;
  _ ← generateClientNonce;
  change (λ h, set_proof h (cl_proof h) (chloForSignature h) true).

(** Errors are only logged. *)
Definition useHandshakeCache : client unit := λ st,
  match read_cache st with (Err _, st) => (Ok tt, st) | r => r end.

(** ** Messages of the server *)

Definition certificate_host : list Z := string_bytes "quic.clemente.io".

Definition take_tokens (data : gmap Z (list Z)) : client unit :=
  change (λ h, set_tokens h (default (cl_stk h) (data !! TagSTK))
    (match data !! TagSNO with Some sno => Some sno | None => cl_sno h end) (cl_nonc h)).

Definition take_config (data : gmap Z (list Z)) : client unit :=
  match data !! TagSCFG with
  | None => mret tt
  | Some scfg =>
      let r := parseServerConfig (cl_newKEX env) scfg in
      _ ← change (λ h, set_config h (match r with Ok c => Some c | _ => None end) (cl_scfgData h));
      c ← give r;
      _ ← require (negb (IsExpired (cl_now env) c)) (ErrorCode CryptoServerConfigExpired);
      _ ← change (λ h, set_config h (serverConfig h) scfg);
      h ← state;
      if (length (cl_nonc h) =? 0)%nat then generateClientNonce else mret tt
  end.

Definition take_proof (data : gmap Z (list Z)) : client unit :=
  match data !! TagPROF with
  | None => mret tt
  | Some proof => change (λ h, set_proof h proof (lastSentCHLO h) (serverVerified h))
  end.

Definition take_certs (data : gmap Z (list Z)) : client unit :=
  match data !! TagCERT with
  | None => mret tt
  | Some crt =>
      h ← state;
      cm ← give (match SetData (cl_certManager h) crt with
                 | Ok cm => Ok cm
                 | Err _ => Err (QuicError InvalidCryptoMessageParameter "Certificate data invalid")
                 | Panic w => Panic w
                 end);
      _ ← change (λ h, set_certs h cm crt);
      require (match Verify cm certificate_host with None => true | Some _ => false end) (ErrorCode ProofInvalid)
  end.

Definition check_proof : client unit :=
  h ← state;
  match serverConfig h, cm_GetLeafCert (cl_certManager h) with
  | Some c, Some _ =>
      if (length (cl_proof h) =? 0)%nat then mret tt
      else
        _ ← require (VerifyServerProof (cl_certManager h) (cl_proof h) (chloForSignature h) (sc_raw c))
              (ErrorCode ProofInvalid);
        change (λ h, set_proof h (cl_proof h) (chloForSignature h) true)
  | _, _ => mret tt
  end.

Definition handleREJMessage (cryptoData : gmap Z (list Z)) : client unit :=
  _ ← take_tokens cryptoData;
  _ ← take_config cryptoData;
  _ ← take_proof cryptoData;
  _ ← take_certs cryptoData;
  check_proof.

(** The version tags in their order, those that are not supported as one. *)
Fixpoint versions_match (negotiated verTags : list Z) : bool :=
  match negotiated with
  | [] => true
  | negotiatedVersion :: negotiated =>
      match ReadUint32 LittleEndian verTags with
      | Ok (verTag, verTags) =>
          let ver := VersionTagToNumber verTag in
          let ver := if IsSupportedVersion DefaultSupportedVersions ver then ver else VersionUnsupported in
          (ver =? negotiatedVersion) && versions_match negotiated verTags
      | _ => false
      end
  end.

Definition validateVersionList (negotiated verTags : list Z) : bool :=
  if (length negotiated =? 0)%nat then true
  else if negb (length verTags mod 4 =? 0)%nat || negb (length verTags / 4 =? length negotiated)%nat then false
  else versions_match negotiated verTags.

(** Sending on a closed channel is a panic. *)
Definition announce_level (level : Z) (close : bool) : client unit :=
  h ← state;
  if cl_aeadClosed h then give (Panic "send on closed channel")
  else change (λ h, set_changed h (cl_aeadChanged h ++ [level]) close).

Definition leaf_bytes h : list Z := default [] (cm_GetLeafCert (cl_certManager h)).

Definition handleSHLOMessage (cryptoData : gmap Z (list Z)) : client unit :=
  h ← state;
  _ ← require (cl_receivedSecurePacket h) (QuicError CryptoEncryptionLevelIncorrect "unencrypted SHLO message");
  _ ← change (λ h, set_tokens h (cl_stk h)
        (match cryptoData !! TagSNO with Some sno => Some sno | None => cl_sno h end) (cl_nonc h));
  serverPubs ← value cryptoData TagPUBS (QuicError CryptoMessageParameterNotFound "PUBS");
  verTag ← value cryptoData TagVER (QuicError InvalidCryptoMessageParameter "server hello missing version list");
  _ ← require (validateVersionList (cl_negotiatedVersions h) verTag)
        (QuicError VersionNegotiationMismatch "Downgrade attack detected");
  h ← state;
  match serverConfig h with
  | None => give (Panic "nil pointer dereference")
  | Some c =>
      ephermalSharedSecret ← give (CalculateSharedKey (sc_kex c) serverPubs);
      let r := cl_keyDerivation env true ephermalSharedSecret (cl_nonc h ++ default [] (cl_sno h)) (cl_connID h)
                 (lastSentCHLO h) (sc_raw c) (leaf_bytes h) [] PerspectiveClient in
      _ ← change (λ h, set_client_keys h (cl_secureAEAD h) (match r with Ok a => Some a | _ => None end)
            (cl_receivedSecurePacket h));
      _ ← give r;
      let '(e, ps) := SetFromMap (cl_parameters h) cryptoData in
      _ ← change (λ h, set_rest h ps (cl_files h));
      _ ← require (bool_decide (e = None)) (ErrorCode InvalidCryptoMessageParameter);
      announce_level EncryptionForwardSecure true
  end.

(** ** Client hellos *)

Definition when (b : bool) (t : Z) (v : list Z) (tags : gmap Z (list Z)) : gmap Z (list Z) :=
  if b then <[t := v]> tags else tags.

Definition nonempty (l : list Z) : bool := negb (length l =? 0)%nat.

Definition getTags h : gmap Z (list Z) :=
  let tags := <[TagPDMD := string_bytes "X509"]> (<[TagSNI := cl_hostname h]> (GetHelloMap (cl_parameters h))) in
  let ccs := GetCommonCertificateHashes (cl_certManager h) in
  let tags := when (nonempty ccs) TagCCS ccs tags in
  let tags := <[TagVER := WriteUint32 LittleEndian (VersionNumberToTag (cl_version h))]> tags in
  let tags := when (cl_truncation h) TagTCID [0; 0; 0; 0] tags in
  let tags := when (nonempty (cl_stk h)) TagSTK (cl_stk h) tags in
  let tags := when (nonempty (default [] (cl_sno h))) TagSNO (default [] (cl_sno h)) tags in
  match serverConfig h with
  | None => tags
  | Some c =>
      let tags := <[TagSCID := sc_ID c]> tags in
      match cm_GetLeafCert (cl_certManager h) with
      | None => tags
      | Some _ =>
          <[TagPUBS := PublicKey (sc_kex c)]> (<[TagAEAD := string_bytes "AESG"]>
          (<[TagKEXS := string_bytes "C255"]>
          (<[TagXLCT := le_split 8 (GetLeafCertHash (cl_certManager h))]> (<[TagNONC := cl_nonc h]> tags))))
      end
  end.

Definition tags_size (tags : gmap Z (list Z)) : Z :=
  map_fold (λ _ v size, size + (8 + Z.of_nat (length v))) 0 tags.

Definition addPadding (tags : gmap Z (list Z)) : gmap Z (list Z) :=
  let paddingSize := ClientHelloMinimumSize - tags_size tags in
  if 0 <? paddingSize then <[TagPAD := replicate (Z.to_nat paddingSize) 0]> tags else tags.

Definition sendCHLO : client unit :=
  _ ← change (λ h, set_hello h (clientHelloCounter h + 1) (lastSentCHLO h) (cl_written h));
  h ← state;
  _ ← require (negb (MaxClientHellos <? clientHelloCounter h))
        (QuicError CryptoTooManyRejects "More than 3 rejects");
  let b := HandshakeMessage_Write (mkMessage TagCHLO (addPadding (getTags h))) in
  match cl_Write env b with
  | Some e => give (Err e)
  | None => change (λ h, set_hello h (clientHelloCounter h) b (cl_written h ++ b))
  end.

(** ** Keys *)

Definition can_upgrade h (c : serverConfigClient) : bool :=
  nonempty (sc_sharedSecret c) && nonempty (cl_nonc h) && nonempty (leaf_bytes h)
  && nonempty (cl_diversificationNonce h) && nonempty (lastSentCHLO h).

Definition maybeUpgradeCrypto : client unit :=
  h ← state;
  if negb (serverVerified h) then mret tt
  else
    match cl_secureAEAD h, serverConfig h with
    | None, Some c =>
        if can_upgrade h c then
          let r := cl_keyDerivation env false (sc_sharedSecret c) (cl_nonc h ++ default [] (cl_sno h))
                     (cl_connID h) (lastSentCHLO h) (sc_raw c) (leaf_bytes h) (cl_diversificationNonce h)
                     PerspectiveClient in
          _ ← change (λ h, set_client_keys h (match r with Ok a => Some a | _ => None end)
                (cl_forwardSecureAEAD h) (cl_receivedSecurePacket h));
          _ ← give r;
          announce_level EncryptionSecure (cl_aeadClosed h)
        else mret tt
    | _, _ => mret tt
    end.

(** ** The loop *)

(** What the loop waits for: a diversification nonce from a packet, a message, an error of the parser. *)
Inductive client_event : Type :=
| EvDivNonce (divNonce : list Z)
| EvMessage (message : HandshakeMessage)
| EvStreamError (msg : string).

(** The head of the loop: new keys, or another hello as long as there are none. *)
Definition client_head : client unit :=
  _ ← maybeUpgradeCrypto;
  h ← state;
  match cl_secureAEAD h with None => sendCHLO | Some _ => mret tt end.

Definition client_receive (ev : client_event) : client unit :=
  h ← state;
  match ev with
  | EvDivNonce divNonce =>
      _ ← require (negb (nonempty (cl_diversificationNonce h)
                         && negb (bool_decide (cl_diversificationNonce h = divNonce))))
            errConflictingDiversificationNonces;
      change (λ h, set_client_divnonce h divNonce)
  | EvMessage message =>
      if hm_Tag message =? TagREJ then handleREJMessage (hm_Data message)
      else if hm_Tag message =? TagSHLO then
        _ ← handleSHLOMessage (hm_Data message);
        if cl_cache h then change cacheHandshake else mret tt
      else give (Err (ErrorCode InvalidCryptoMessageType))
  | EvStreamError msg => give (Err (QuicError HandshakeFailed msg))
  end.

(** What comes before the first wait, and one iteration from a wait to the next. *)
Definition client_start : client unit :=
  h ← state;
  _ ← (if cl_cache h then useHandshakeCache else mret tt);
  client_head.

Definition client_turn (ev : client_event) : client unit := _ ← client_receive ev; client_head.

(** The loop over the events it is given; [Ok] means that it waits for another. *)
Fixpoint client_turns (evs : list client_event) : client unit :=
  match evs with [] => mret tt | ev :: evs => _ ← client_turn ev; client_turns evs end.

Definition client_HandleCryptoStream (evs : list client_event) : client unit :=
  _ ← client_start; client_turns evs.

(** ** Packets *)

Definition client_Open (src : list Z) (packetNumber : Z) (associatedData : list Z) h
  : result (list Z * Z) * cryptoSetupClient CM :=
  let at_level (level : Z) (a : AEAD) : result (list Z * Z) :=
    data ← AEAD_Open a src packetNumber associatedData; Ok (data, level) in
  match cl_forwardSecureAEAD h, cl_secureAEAD h with
  | Some fs, _ => (at_level EncryptionForwardSecure fs, h)
  | None, Some secure =>
      match at_level EncryptionSecure secure with
      | Ok r => (Ok r, set_client_keys h (cl_secureAEAD h) (cl_forwardSecureAEAD h) true)
      | Err e => (if cl_receivedSecurePacket h then Err e else at_level EncryptionUnencrypted (cl_nullAEAD h), h)
      | Panic w => (Panic w, h)
      end
  | None, None => (at_level EncryptionUnencrypted (cl_nullAEAD h), h)
  end.

Definition client_GetSealer h : Z * Sealer :=
  match cl_forwardSecureAEAD h, cl_secureAEAD h with
  | Some a, _ => (EncryptionForwardSecure, sealer_of a)
  | None, Some a => (EncryptionSecure, sealer_of a)
  | None, None => (EncryptionUnencrypted, sealer_of (cl_nullAEAD h))
  end.

Definition client_GetSealerForCryptoStream h : Z * Sealer :=
  (EncryptionUnencrypted, sealer_of (cl_nullAEAD h)).

Definition client_GetSealerWithEncryptionLevel h (encLevel : Z) : result Sealer :=
  if encLevel =? EncryptionUnencrypted then Ok (sealer_of (cl_nullAEAD h))
  else if encLevel =? EncryptionSecure then
    match cl_secureAEAD h with
    | None => Err (ErrorString "CryptoSetupClient: no secureAEAD")
    | Some a => Ok (sealer_of a)
    end
  else if encLevel =? EncryptionForwardSecure then
    match cl_forwardSecureAEAD h with
    | None => Err (ErrorString "CryptoSetupClient: no forwardSecureAEAD")
    | Some a => Ok (sealer_of a)
    end
  else Err (ErrorString "CryptoSetupClient: no encryption level specified").

(** What the packer sees of the setup; only a server's packets carry a diversification nonce. *)
Definition client_setup h : CryptoSetup :=
  mkCryptoSetup (client_GetSealer h) (client_GetSealerForCryptoStream h)
    (client_GetSealerWithEncryptionLevel h) [].

End Client.

(** ** Toy primitives for examples *)

(** A chain of certificates is its leaf, any leaf is trusted, and there is one proof, for one configuration. *)
#[refine] Instance sample_certs (scfg : list Z) : CertManager (option (list Z)) | 1000 :=
  {| SetData := λ _ data, Ok (Some data);
     GetCommonCertificateHashes := λ _, [];
     cm_GetLeafCert := λ cm, cm;
     GetLeafCertHash := λ cm, HashCert (default [] cm);
     VerifyServerProof := λ cm proof _ config, bool_decide (proof = [1] ∧ config = scfg);
     Verify := λ cm _, match cm with Some _ => None | None => Some errNoCertificateChain end |}.
Proof. intros [leaf|] hostname; [by eexists|done]. Defined.

(** A key exchange in which multiplications commute. *)
Definition pad32 (l : list Z) : list Z := take 32 (l ++ replicate 32 0).
Definition sample_mult (a p : list Z) : list Z := zip_with (λ x y, u8 (x * y)) (pad32 a) (pad32 p).
Definition sample_kex (r : list Z) : result KeyExchange := NewCurve25519KEX sample_mult pad32 (Some r).

Definition sample_config (r : list Z) : ServerConfig :=
  mkServerConfig (match sample_kex r with Ok k => k | _ => mkKEX [] (λ _, Err EOF) end)
    (mkCertChain (λ _ _ _, Ok [1]) (λ _ _ _, Ok [7; 7; 7]) (λ _, Ok [7; 7; 7])) (replicate 16 3) (replicate 8 4).

Definition sample_client_env : client_env :=
  mkClientEnv 0 (sample_kex (replicate 32 5)) (Some (replicate 20 9))
    (DeriveQuicCryptoAESKeys sample_gcm sample_hkdf) (λ _, None).

Definition sample_parameters : connectionParametersManager := NewConnectionParamatersManager PerspectiveClient 39 65536 65536 (30 * Second).

Definition sample_client : cryptoSetupClient (option (list Z)) :=
  NewCryptoSetupClient (string_bytes "host") 42 39 None (NewNullAEAD sample_fnv128a PerspectiveClient 39)
    sample_parameters false false [] ∅.

(** A rejection with the configuration of the server, a proof and the certificate. *)
Definition sample_rejection (scfg proof : list Z) (certs : gmap Z (list Z)) : client_event :=
  EvMessage (mkMessage TagREJ (<[TagSCFG := scfg]> (<[TagPROF := proof]> certs))).

Definition sample_certificate : gmap Z (list Z) := {[ TagCERT := [7; 7; 7] ]}.
