(* ===== verification/Authentication.v ===== *)
(** * What the handshake guarantees

    Theorems about crypto_setup_client.go and crypto_setup_server.go over all runs: messages, nonces and
    packets in any order, any outcome of the clock and of the random numbers.

    A client only installs keys for a server whose certificate and proof it verified; neither side
    accepts a packet with less protection than one before; the keys a session seals with never get
    worse, which is what the theorems about sessions assume. *)

From Stdlib Require Import Sorting.Sorted.
From S2P Require Import Prelude ByteOrder Protocol Frames StreamFrame PublicHeader Unpacker Handshake.
From S2P Require Import FlowControl Stream StreamScheduler StreamsMap Congestion ConnectionParameters Packer Crypto CertCompression SendLoop CryptoServer CryptoClient.

Section ClientRuns.
Context {CM : Type} `{CertManager CM} (kd : key_derivation).
Implicit Types (h : cryptoSetupClient CM) (env : client_env).

(** A message that does not take a proof back. *)
Definition proper_event (ev : client_event) : Prop :=
  match ev with
  | EvMessage m => hm_Tag m = TagREJ → hm_Data m !! TagPROF <> Some []
  | _ => True
  end.

(** A run of a client: the loop of HandleCryptoStream from its start, with or without the handshake
    cache, and packets that are opened at any time; [true] as long as the loop has not returned an error. *)
Inductive client_run (cache : bool) (ok : client_event → Prop) : bool → cryptoSetupClient CM → Prop :=
| run_start hostname connID version cm null ps truncation versions files env r h :
    cm_GetLeafCert cm = None → cl_keyDerivation env = kd →
    client_start env (NewCryptoSetupClient hostname connID version cm null ps truncation cache versions files) = (r, h) →
    client_run cache ok (is_ok r) h
| run_turn env ev r h h' :
    client_run cache ok true h → cl_keyDerivation env = kd → ok ev → client_turn env ev h = (r, h') →
    client_run cache ok (is_ok r) h'
| run_open b src pn ad r h h' :
    client_run cache ok b h → client_Open src pn ad h = (r, h') → client_run cache ok b h'.

(** ** Keys come from a verified server *)

(** The certificates have been verified, and a proof that they belong to the configuration. *)
Definition authentic (cm : CM) (leaf : list Z) (c : serverConfigClient) : Prop :=
  cm_GetLeafCert cm = Some leaf ∧ Verify cm certificate_host = None ∧
  ∃ proof chlo, VerifyServerProof cm proof chlo (sc_raw c) = true.

(** Keys that were derived for such a configuration, with a secret shared with its key or with one
    exchanged under the protection of those keys. *)
Definition from_authentic (a : AEAD) : Prop := ∃ cm leaf c fs secret nonces connID chlo divNonce,
  authentic cm leaf c ∧
  (secret = sc_sharedSecret c ∨ ∃ pub, CalculateSharedKey (sc_kex c) pub = Ok secret) ∧
  kd fs secret nonces connID chlo (sc_raw c) leaf divNonce PerspectiveClient = Ok a.

Definition keys_authentic h : Prop :=
  ∀ a, cl_secureAEAD h = Some a ∨ cl_forwardSecureAEAD h = Some a → from_authentic a.

(** What a client that is verified holds, whether or not the proof is for the configuration. *)
Record half_verified h : Prop := {
  hv_held : serverVerified h = true → is_Some (serverConfig h) ∧ is_Some (cm_GetLeafCert (cl_certManager h)) ∧
    cl_proof h <> [];
  hv_leaf : is_Some (cm_GetLeafCert (cl_certManager h)) → Verify (cl_certManager h) certificate_host = None;
  hv_secure : is_Some (cl_secureAEAD h) → serverVerified h = true;
  hv_received : cl_receivedSecurePacket h = true → is_Some (cl_secureAEAD h);
  hv_keys : keys_authentic h;
}.

Record client_inv h : Prop := {
  ci_half : half_verified h;
  ci_proof c : serverVerified h = true → serverConfig h = Some c →
    VerifyServerProof (cl_certManager h) (cl_proof h) (chloForSignature h) (sc_raw c) = true;
}.

Lemma inv_authentic h c leaf :
  client_inv h → serverVerified h = true → serverConfig h = Some c →
  cm_GetLeafCert (cl_certManager h) = Some leaf → authentic (cl_certManager h) leaf c.
Proof using.
  intros [[Hh Hl _ _ _] Hp] Hv Hc Hleaf. split_and!; [done|by apply Hl|]. eexists _, _. by apply Hp.
Qed.

(** What the invariants depend on. *)
Definition same_trust h h' : Prop :=
  serverVerified h' = serverVerified h ∧ cl_certManager h' = cl_certManager h ∧ serverConfig h' = serverConfig h ∧
  cl_proof h' = cl_proof h ∧ chloForSignature h' = chloForSignature h.

Definition same_keys h h' : Prop :=
  cl_secureAEAD h' = cl_secureAEAD h ∧ cl_forwardSecureAEAD h' = cl_forwardSecureAEAD h ∧
  cl_receivedSecurePacket h' = cl_receivedSecurePacket h.

Lemma half_frame h h' : same_trust h h' → same_keys h h' → half_verified h → half_verified h'.
Proof using.
  intros (E1 & E2 & E3 & E4 & E5) (E6 & E7 & E8) [H1 H2 H3 H4 H5]. unfold keys_authentic in *.
  split; unfold keys_authentic; rewrite ?E1, ?E2, ?E3, ?E4, ?E5, ?E6, ?E7, ?E8; done.
Qed.

Lemma inv_frame h h' : same_trust h h' → same_keys h h' → client_inv h → client_inv h'.
Proof using.
  intros Ht Hk [Hh Hp]. split; [by eapply half_frame|]. destruct Ht as (E1 & E2 & E3 & E4 & E5).
  rewrite E1, E2, E3, E4, E5. done.
Qed.

Lemma generate_nonce_wp env h (P : cryptoSetupClient CM → Prop) :
  (∀ stk sno nonc, P (set_tokens h stk sno nonc)) → keys_authentic h →
  wp (generateClientNonce env) (λ _, P) keys_authentic h.
Proof using. intros HP Hk. unfold generateClientNonce. repeat (wp_step; try done). Qed.

Lemma take_config_half env data h :
  half_verified h → wp (take_config env data) (λ _, half_verified) keys_authentic h.
Proof using.
  intros Hh. pose proof (hv_keys _ Hh) as Hk. unfold take_config.
  wp_step; [|by wp_step]. wp_step. wp_step. wp_step. wp_step; [|done].
  wp_step. wp_step; [|done]. wp_step. wp_step. wp_step. wp_step. rewrite H0.
  assert (half_verified (set_config (set_config h (Some a) (cl_scfgData h)) (Some a) l)) as Hh'.
  { destruct Hh as [H1' H2 H3 H4 H5]. split; try done. intros Hv. split; [done|]. by apply H1'. }
  wp_step; [|by wp_step]. apply generate_nonce_wp; [|done]. intros. by eapply half_frame; [..|exact Hh'].
Qed.

Lemma take_proof_half data h :
  data !! TagPROF <> Some [] → half_verified h → wp (take_proof data) (λ _, half_verified) keys_authentic h.
Proof using.
  intros Hne [H1 H2 H3 H4 H5]. unfold take_proof. destruct (data !! TagPROF) as [proof|]; [|by wp_step].
  wp_step. split; try done. intros Hv. destruct (H1 Hv) as (? & ? & _). split_and!; [done..|]. cbn. congruence.
Qed.

Lemma take_certs_half data h : half_verified h → wp (take_certs data) (λ _, half_verified) keys_authentic h.
Proof using.
  intros [H1 H2 H3 H4 H5]. unfold take_certs. wp_step; [|by wp_step]. wp_step. wp_step. wp_step. wp_step; [|done].
  wp_step. wp_step. wp_step; [|done]. destruct (Verify a certificate_host) eqn:Ev; [done|].
  split; try done. intros Hv. destruct (H1 Hv) as (? & ? & ?). split_and!; [done|by eapply verified_has_leaf|done].
Qed.

Lemma check_proof_inv h : half_verified h → wp check_proof (λ _, client_inv) keys_authentic h.
Proof using.
  intros Hh. pose proof Hh as [H1 H2 H3 H4 H5]. unfold check_proof. wp_step. wp_step.
  destruct (serverConfig h) as [c|] eqn:Ec; [|wp_step; split; [done|]; congruence].
  destruct (cm_GetLeafCert (cl_certManager h)) as [leaf|] eqn:El; cycle 1.
  { wp_step. split; [done|]. intros c' Hv _. destruct (H1 Hv) as (_ & [? ?] & _). congruence. }
  wp_step.
  { wp_step. split; [done|]. intros c' Hv _. destruct (H1 Hv) as (_ & _ & Hp). by destruct (cl_proof h). }
  wp_step. wp_step; [|done]. wp_step. split.
  - split; try done; [|by intros _; apply H2]. intros _. cbn. rewrite Ec, El. split_and!; [done..|]. by destruct (cl_proof h).
  - intros c' _ Hc. cbn in *. congruence.
Qed.

Lemma handleREJ_inv env data h :
  data !! TagPROF <> Some [] → client_inv h → wp (handleREJMessage env data) (λ _, client_inv) keys_authentic h.
Proof using.
  intros Hne [Hh _]. unfold handleREJMessage, take_tokens. wp_step. wp_step. wp_step.
  eapply wp_mono; [apply take_config_half; by eapply half_frame; [..|exact Hh]| |done]. intros [] h1 Hh1. wp_step.
  eapply wp_mono; [by apply take_proof_half| |done]. intros [] h2 Hh2. wp_step.
  eapply wp_mono; [by apply take_certs_half| |done]. intros [] h3 Hh3. by apply check_proof_inv.
Qed.

Lemma derived_authentic h c fs secret nonces connID chlo divNonce a :
  client_inv h → serverVerified h = true → serverConfig h = Some c →
  (secret = sc_sharedSecret c ∨ ∃ pub, CalculateSharedKey (sc_kex c) pub = Ok secret) →
  kd fs secret nonces connID chlo (sc_raw c) (leaf_bytes h) divNonce PerspectiveClient = Ok a → from_authentic a.
Proof using.
  intros Hi Hv Hc Hs Hk. destruct (hv_held _ (ci_half _ Hi) Hv) as (_ & [leaf Hl] & _).
  exists (cl_certManager h), leaf, c, fs, secret, nonces, connID, chlo, divNonce. split_and!; [|done|].
  - by apply inv_authentic.
  - unfold leaf_bytes in Hk. by rewrite Hl in Hk.
Qed.

Lemma inv_keys h secure fs received :
  client_inv h → (is_Some secure → serverVerified h = true) → (received = true → is_Some secure) →
  (∀ a, secure = Some a ∨ fs = Some a → from_authentic a) → client_inv (set_client_keys h secure fs received).
Proof using. intros [[H1 H2 H3 H4 H5] Hp] Hs Hr Hk. by split. Qed.

Lemma handleSHLO_inv env data h :
  cl_keyDerivation env = kd → client_inv h → wp (handleSHLOMessage env data) (λ _, client_inv) keys_authentic h.
Proof using.
  intros Ekd Hi. pose proof Hi as [Hh Hp]. pose proof (hv_keys _ Hh) as Hk. unfold handleSHLOMessage.
  wp_step. wp_step. wp_step. wp_step; [|done]. wp_step. wp_step. wp_step. wp_step; [|done]. wp_step. wp_step; [|done].
  wp_step. wp_step; [|done]. wp_step. wp_step.
  destruct (serverConfig _) as [c|] eqn:Ec; [|by wp_step]. cbn in Ec. wp_step. wp_step; [|done].
  assert (serverVerified h = true) as Hv by (by apply (hv_secure _ Hh), (hv_received _ Hh)).
  rewrite Ekd. wp_step. wp_step. wp_step. wp_step.
  - match goal with H : kd _ _ _ _ _ _ _ _ _ = Ok _ |- _ => rename H into Ederive end.
    assert (client_inv (set_client_keys h (cl_secureAEAD h) (Some a0) (cl_receivedSecurePacket h))) as Hi'.
    { apply inv_keys; [done|by apply (hv_secure _ Hh)|by apply (hv_received _ Hh)|].
      intros a' [Ha|[= <-]]; [by apply Hk; left|]. eapply (derived_authentic h); eauto. }
    rewrite Ederive. wp_step. wp_step. wp_step. wp_step. wp_step; [|by apply (hv_keys _ (ci_half _ Hi'))].
    unfold announce_level. wp_step. wp_step. wp_step.
    + wp_step; [done|]. by apply (hv_keys _ (ci_half _ Hi')).
    + wp_step. by eapply inv_frame; [..|exact Hi'].
  - destruct (kd _ _ _ _ _ _ _ _ _); [done|..]; intros a' [Ha|Ha]; [by apply Hk; left|done|by apply Hk; left|done].
Qed.

Lemma head_inv env h :
  cl_keyDerivation env = kd → client_inv h → wp (client_head env) (λ _, client_inv) keys_authentic h.
Proof using.
  intros Ekd Hi. pose proof Hi as [Hh Hp]. pose proof (hv_keys _ Hh) as Hk.
  unfold client_head. wp_step. apply (wp_mono _ (λ _, client_inv) _ keys_authentic); [|intros [] h' Hi'|done].
  - unfold maybeUpgradeCrypto. wp_step. wp_step. wp_step; [by wp_step|].
    destruct (cl_secureAEAD h) eqn:Es; [by wp_step|]. destruct (serverConfig h) as [c|] eqn:Ec; [|by wp_step].
    wp_step; [|by wp_step]. apply negb_false_iff in Heqb. rewrite Ekd. wp_step. wp_step. wp_step. wp_step.
    + assert (client_inv (set_client_keys h (Some a) (cl_forwardSecureAEAD h) (cl_receivedSecurePacket h))) as Hi'.
      { apply inv_keys; [done..|]. intros a' [[= <-]|Ha]; [|by apply Hk; right]. eapply (derived_authentic h); eauto. }
      rewrite H0. unfold announce_level. wp_step. wp_step. wp_step.
      * wp_step; [done|]. by apply (hv_keys _ (ci_half _ Hi')).
      * wp_step. by eapply inv_frame; [..|exact Hi'].
    + destruct (kd _ _ _ _ _ _ _ _ _); [done|..]; intros a' [Ha|Ha]; [done|by apply Hk; right|done|by apply Hk; right].
  - wp_step. wp_step. destruct (cl_secureAEAD h'); [by wp_step|]. pose proof (hv_keys _ (ci_half _ Hi')) as Hk'.
    unfold sendCHLO. wp_step. wp_step. wp_step. wp_step. wp_step. wp_step; [|done].
    wp_step; [by wp_step|]. wp_step. by eapply inv_frame; [..|exact Hi'].
Qed.

Lemma new_inv hostname connID version (cm : CM) null ps truncation cache versions files :
  cm_GetLeafCert cm = None →
  client_inv (NewCryptoSetupClient hostname connID version cm null ps truncation cache versions files).
Proof using.
  intros Hcm. split; [|done]. split; cbn; try done; [rewrite Hcm; by intros [? ?]|]. by intros a [?|?].
Qed.

Lemma turn_inv env ev h :
  cl_keyDerivation env = kd → proper_event ev → client_inv h → wp (client_turn env ev) (λ _, client_inv) keys_authentic h.
Proof using.
  intros Ekd Hev Hi. pose proof (hv_keys _ (ci_half _ Hi)) as Hk.
  unfold client_turn. wp_step. apply (wp_mono _ (λ _, client_inv) _ keys_authentic);
    [|intros [] h' Hi'; by apply head_inv|done].
  unfold client_receive. wp_step. wp_step. destruct ev as [n|m|msg].
  - wp_step. wp_step; [|done]. wp_step. by eapply inv_frame; [..|exact Hi].
  - destruct (Z.eqb_spec (hm_Tag m) TagREJ); [by apply handleREJ_inv; auto|]. wp_step; [|by wp_step].
    wp_step. eapply wp_mono; [by apply handleSHLO_inv|intros [] h' Hi'|done].
    wp_step; wp_step; [|done]. by eapply inv_frame; [..|exact Hi'].
  - by wp_step.
Qed.

(** Opening a packet only notes that it was secure. *)
Lemma open_changes src pn ad h r h' :
  client_Open src pn ad h = (r, h') →
  h' = h ∨ is_Some (cl_secureAEAD h) ∧ h' = set_client_keys h (cl_secureAEAD h) (cl_forwardSecureAEAD h) true.
Proof using.
  unfold client_Open. intros E. destruct (cl_forwardSecureAEAD h), (cl_secureAEAD h) eqn:Es; [simplify_eq; by left..| |].
  - destruct (AEAD_Open _ _ _ _) in E; [|simplify_eq/=; by left..].
    simplify_eq/=. right. by split.
  - simplify_eq. by left.
Qed.

Lemma client_open_inv src pn ad h r h' :
  client_Open src pn ad h = (r, h') → (client_inv h → client_inv h') ∧ (keys_authentic h → keys_authentic h').
Proof using.
  intros [->|[Hs ->]]%open_changes; [done|]. split; [|by intros Hk]. intros Hi. pose proof Hi as [Hh _].
  apply inv_keys; [done|by apply (hv_secure _ Hh)|done|]. apply (hv_keys _ Hh).
Qed.

Lemma run_authentic b h :
  client_run false proper_event b h → keys_authentic h ∧ (b = true → client_inv h).
Proof using.
  induction 1 as [hostname connID version cm null ps truncation versions files env r h Hcm Ekd E
    |env ev r h h' _ [_ IH] Ekd Hev E|b src pn ad r h h' _ [IH1 IH2] E].
  - pose proof (head_inv env _ Ekd (new_inv hostname connID version cm null ps truncation false versions files Hcm)) as Hw.
    unfold wp in Hw. change (client_head env _) with (client_start env (NewCryptoSetupClient hostname connID version cm null ps
      truncation false versions files)) in Hw. rewrite E in Hw.
    destruct r; [split; [apply (hv_keys _ (ci_half _ Hw))|done]|done..].
  - pose proof (turn_inv env ev h Ekd Hev (IH eq_refl)) as Hw. unfold wp in Hw. rewrite E in Hw.
    destruct r; [split; [apply (hv_keys _ (ci_half _ Hw))|done]|done..].
  - apply client_open_inv in E as [E1 E2]. auto.
Qed.

(** C2: every key a client ever uses belongs to a server it has verified.  Whatever messages, nonces and
    packets arrive, in whatever order, also in a run that ends with an error: the keys a client has
    installed were derived from a server configuration for which it checked a proof signed by the
    certificate they were derived with, and it had verified that certificate's chain.  (Without the
    handshake cache, and unless a rejection carries an empty proof.) *)
Theorem client_keys_authentic (b : bool) h (a : AEAD) :
  client_run false proper_event b h → cl_secureAEAD h = Some a ∨ cl_forwardSecureAEAD h = Some a → from_authentic a.
Proof using. intros Hr. apply (proj1 (run_authentic _ _ Hr)). Qed.

End ClientRuns.

(** ** Protection never decreases *)

(** Runs that are not over, with the levels of the packets that were opened, the last one first. *)
Section ClientLevels.
Context {CM : Type} `{CertManager CM}.
Implicit Types (h : cryptoSetupClient CM) (env : client_env).

Inductive client_opened : cryptoSetupClient CM → list Z → Prop :=
| copened_start hostname connID version cm null ps truncation cache versions files env h :
    client_start env (NewCryptoSetupClient hostname connID version cm null ps truncation cache versions files) = (Ok tt, h) →
    client_opened h []
| copened_turn env ev h h' levels :
    client_opened h levels → client_turn env ev h = (Ok tt, h') → client_opened h' levels
| copened_open src pn ad data level h h' levels :
    client_opened h levels → client_Open src pn ad h = (Ok (data, level), h') → client_opened h' (level :: levels)
| copened_failed src pn ad e h h' levels :
    client_opened h levels → client_Open src pn ad h = (Err e, h') → client_opened h' levels.

(** The least protection a packet must have from now on. *)
Definition client_floor h : Z :=
  match cl_forwardSecureAEAD h with
  | Some _ => EncryptionForwardSecure
  | None => if cl_receivedSecurePacket h then EncryptionSecure else EncryptionUnencrypted
  end.

(** [h'] may follow [h]. *)
Definition levels_kept h h' : Prop :=
  client_floor h <= client_floor h' ∧
  ((cl_receivedSecurePacket h = true → is_Some (cl_secureAEAD h)) →
   cl_receivedSecurePacket h' = true → is_Some (cl_secureAEAD h')).

#[local] Instance levels_kept_preorder : PreOrder levels_kept.
Proof using. split; [by intros h; split|]. intros h1 h2 h3 [H1 H1'] [H2 H2']. split; [lia|auto]. Qed.

Lemma kept_same h h' : same_keys h h' → levels_kept h h'.
Proof using. intros (E1 & E2 & E3). unfold levels_kept, client_floor. by rewrite E1, E2, E3. Qed.

Lemma floor_max h : client_floor h <= EncryptionForwardSecure.
Proof using. unfold client_floor. by destruct (cl_forwardSecureAEAD h), (cl_receivedSecurePacket h). Qed.

(** Keys are only ever added: a step that cannot derive them does not return. *)
Lemma keeps_forward_secure {B} (r : result AEAD) (k : AEAD → proc (cryptoSetupClient CM) B) :
  (∀ a, keeps levels_kept (k a)) →
  keeps levels_kept (_ ← change (λ h, set_client_keys h (cl_secureAEAD h) (match r with Ok a => Some a | _ => None end)
               (cl_receivedSecurePacket h)); a ← give r; k a).
Proof using.
  apply (keeps_store levels_kept r (λ o h, set_client_keys h (cl_secureAEAD h) o (cl_receivedSecurePacket h))).
  intros a h. split; [apply floor_max|done].
Qed.

Lemma keeps_secure {B} (r : result AEAD) (k : AEAD → proc (cryptoSetupClient CM) B) :
  (∀ a, keeps levels_kept (k a)) →
  keeps levels_kept (_ ← change (λ h, set_client_keys h (match r with Ok a => Some a | _ => None end) (cl_forwardSecureAEAD h)
               (cl_receivedSecurePacket h)); a ← give r; k a).
Proof using.
  apply (keeps_store levels_kept r (λ o h, set_client_keys h o (cl_forwardSecureAEAD h) (cl_receivedSecurePacket h))).
  intros a h. split; [done|by eexists].
Qed.

Ltac client_keeps := keeps_solve ltac:(idtac; lazymatch goal with
  | |- keeps _ (change _ ≫= _) => first [apply keeps_forward_secure; intros ? | apply keeps_secure; intros ?]
  end).

Lemma keeps_cache env : keeps levels_kept (useHandshakeCache env).
Proof using.
  intros h. assert (wp (read_cache env) (λ _, same_keys h) (same_keys h) h) as Hw.
  { unfold read_cache, generateClientNonce, readBinaryFile. repeat (wp_step; try done). }
  unfold wp, useHandshakeCache in *. destruct (read_cache env h) as [[a|e|w] h']; [by apply kept_same..|done].
Qed.

Lemma keeps_head env : keeps levels_kept (client_head env).
Proof using. unfold client_head, maybeUpgradeCrypto, announce_level, sendCHLO. client_keeps. Qed.

Lemma keeps_turn env ev : keeps levels_kept (client_turn env ev).
Proof using.
  unfold client_turn, client_receive, handleREJMessage, take_tokens, take_config, take_proof, take_certs, check_proof,
    handleSHLOMessage, announce_level, generateClientNonce. apply proc_keeps_bind; [exact _| |intros ?; apply keeps_head]. destruct ev; client_keeps.
Qed.

Lemma keeps_start env : keeps levels_kept (client_start env).
Proof using.
  apply proc_keeps_bind; [exact _|apply keeps_state, _|intros h]. apply proc_keeps_bind; [exact _| |intros ?; apply keeps_head].
  destruct (cl_cache h); [apply keeps_cache|apply proc_keeps_ret, _].
Qed.

Lemma client_open_level src pn ad h data level h' :
  (cl_receivedSecurePacket h = true → is_Some (cl_secureAEAD h)) →
  client_Open src pn ad h = (Ok (data, level), h') → client_floor h <= level ∧ client_floor h' >= level.
Proof using.
  unfold client_Open, client_floor. intros Hs.
  destruct (cl_forwardSecureAEAD h) as [fs|] eqn:Ef.
  { destruct (AEAD_Open _ _ _ _); intros [= <- <- <-]; rewrite Ef; done. }
  destruct (cl_secureAEAD h) as [sec|] eqn:Es.
  - destruct (AEAD_Open sec _ _ _); cbn.
    + intros [= <- <- <-]. cbn. destruct (cl_receivedSecurePacket h); done.
    + destruct (cl_receivedSecurePacket h) eqn:Er; [done|]. destruct (AEAD_Open _ _ _ _); intros [= <- <- <-].
      rewrite Ef, Er. done.
    + done.
  - destruct (cl_receivedSecurePacket h) eqn:Er; [by destruct (Hs eq_refl)|].
    destruct (AEAD_Open _ _ _ _); intros [= <- <- <-]. rewrite Ef, Er. done.
Qed.

Lemma client_levels_sorted h levels :
  client_opened h levels →
  StronglySorted Z.ge levels ∧ Forall (λ l, l <= client_floor h) levels ∧
  (cl_receivedSecurePacket h = true → is_Some (cl_secureAEAD h)).
Proof using.
  induction 1 as [hostname connID version cm null ps truncation cache versions files env h E
    |env ev h h' levels _ (IH1 & IH2 & IH3) E|src pn ad data level h h' levels _ (IH1 & IH2 & IH3) E
    |src pn ad e h h' levels _ (IH1 & IH2 & IH3) E].
  - split_and!; [constructor..|]. apply (keeps_ok levels_kept _ _ _ _ (keeps_start env)) in E as [_ Hs]. by apply Hs.
  - apply (keeps_ok levels_kept _ _ _ _ (keeps_turn env ev)) in E as [Hf Hs]. split_and!; [done| |auto].
    eapply Forall_impl; [exact IH2|]. intros l Hl. cbn in *. lia.
  - destruct (client_open_level _ _ _ _ _ _ _ IH3 E) as [Hl Hl']. split_and!.
    + constructor; [done|]. eapply Forall_impl; [exact IH2|]. intros l ?. cbn in *. lia.
    + constructor; [lia|]. eapply Forall_impl; [exact IH2|]. intros l ?. cbn in *. lia.
    + apply open_changes in E as [->|[? ->]]; done.
  - assert (levels_kept h h') as [Hf Hs].
    { apply open_changes in E as [->|[Hs ->]]; [done|]. split; [|done]. unfold client_floor. cbn.
      destruct (cl_forwardSecureAEAD h), (cl_receivedSecurePacket h); done. }
    split_and!; [done| |auto]. eapply Forall_impl; [exact IH2|]. intros l Hl. cbn in *. lia.
Qed.

End ClientLevels.

(** The same for a server. *)
Section ServerLevels.
Context {Cookie : Type}.
Implicit Types (h : cryptoSetupServer) (env : server_env Cookie).

(** [true] as long as the server waits for messages on the crypto stream.  A packet that waits for the server's hello
    is opened when that has been sent. *)
Inductive server_opened : bool → cryptoSetupServer → list Z → Prop :=
| sopened_new connID version supported scfg null ps :
    server_opened true (NewCryptoSetup connID version supported scfg null ps) []
| sopened_message env chlo data finished h h' levels :
    server_opened true h levels → handleMessage env chlo data h = (Ok finished, h') →
    server_opened (negb finished) h' levels
| sopened_open b src pn ad data level h h' levels :
    server_opened b h levels → server_Open src pn ad h = (Some (Ok (data, level)), h') →
    server_opened b h' (level :: levels)
| sopened_waits b src pn ad h h' levels :
    server_opened b h levels → server_Open src pn ad h = (None, h') →
    server_opened b h' (EncryptionForwardSecure :: levels)
| sopened_failed b src pn ad e h h' levels :
    server_opened b h levels → server_Open src pn ad h = (Some (Err e), h') → server_opened b h' levels.

Definition server_floor h : Z :=
  if receivedForwardSecurePacket h then EncryptionForwardSecure
  else if srv_receivedSecurePacket h then EncryptionSecure else EncryptionUnencrypted.

Definition keys_there h : Prop :=
  (receivedForwardSecurePacket h = true → is_Some (srv_forwardSecureAEAD h)) ∧
  (srv_receivedSecurePacket h = true → is_Some (srv_secureAEAD h)).

Definition server_kept h h' : Prop :=
  receivedForwardSecurePacket h' = receivedForwardSecurePacket h ∧
  srv_receivedSecurePacket h' = srv_receivedSecurePacket h ∧ (keys_there h → keys_there h').

#[local] Instance server_kept_preorder : PreOrder server_kept.
Proof using.
  split; [done|]. intros h1 h2 h3 (E1 & E2 & H1) (E3 & E4 & H2). split_and!; [congruence..|auto].
Qed.

Lemma keeps_server_secure (r : result AEAD) : keeps server_kept (derive_secure r).
Proof using.
  apply (keeps_store server_kept r (λ o h, set_keys h o (srv_forwardSecureAEAD h))).
  - intros a h. split_and!; [done..|]. intros [H1 H2]. split; [done|by eexists].
  - intros a. apply proc_keeps_ret, _.
Qed.

Lemma keeps_server_forward_secure (r : result AEAD) : keeps server_kept (derive_forward_secure r).
Proof using.
  apply (keeps_store server_kept r (λ o h, set_keys h (srv_secureAEAD h) o)).
  - intros a h. split_and!; [done..|]. intros [H1 H2]. split; [by eexists|done].
  - intros a. apply proc_keeps_ret, _.
Qed.

Ltac server_keeps := keeps_solve ltac:(idtac; lazymatch goal with
  | |- keeps _ (derive_secure _) => apply keeps_server_secure
  | |- keeps _ (derive_forward_secure _) => apply keeps_server_forward_secure
  end).

Lemma keeps_message env chlo data : keeps server_kept (handleMessage env chlo data).
Proof using. unfold handleMessage, handleCHLO, handleInchoateCHLO, random, announce, write_stream. server_keeps. Qed.

Lemma server_open_level src pn ad h r h' :
  keys_there h → server_Open src pn ad h = (r, h') →
  server_floor h <= server_floor h' ∧ keys_there h' ∧
  match r with
  | Some (Ok (data, level)) => server_floor h <= level <= server_floor h'
  | None => server_floor h' = EncryptionForwardSecure
  | _ => True
  end.
Proof using.
  intros Hk. unfold server_Open, server_floor. pose proof Hk as [H1 H2]. intros E.
  destruct (srv_forwardSecureAEAD h) as [fs|] eqn:Ef; [destruct (AEAD_Open fs src pn ad) eqn:Eo|];
    destruct (receivedForwardSecurePacket h) eqn:Er; try (by destruct (H1 eq_refl));
    destruct (srv_secureAEAD h) as [sec|] eqn:Es; try destruct (AEAD_Open sec src pn ad) eqn:Eos;
    destruct (srv_receivedSecurePacket h) eqn:Ers; try (by destruct (H2 eq_refl));
    try destruct (srv_sentSHLO h); try destruct (AEAD_Open (srv_nullAEAD h) src pn ad) eqn:Eon;
    simplify_eq/=; rewrite ?Er, ?Ers; (split; [done|split; [|done]]); unfold keys_there; cbn; rewrite ?Ef, ?Es;
    split; intros ?; first [done|by eexists|congruence].
Qed.

Lemma server_levels_sorted b h levels :
  server_opened b h levels →
  StronglySorted Z.ge levels ∧ Forall (λ l, l <= server_floor h) levels ∧ keys_there h.
Proof using.
  assert (∀ (ls : list Z) x y, Forall (λ l, l <= x) ls → x <= y → Forall (λ l, l <= y) ls) as Hup.
  { intros ls x y Hl Hxy. eapply Forall_impl; [exact Hl|]. intros l ?. cbn in *. lia. }
  assert (∀ (ls : list Z) x y, Forall (λ l, l <= x) ls → x <= y → Forall (Z.ge y) ls) as Hge.
  { intros ls x y Hl Hxy. eapply Forall_impl; [exact Hl|]. intros l ?. cbn in *. lia. }
  induction 1 as [|env chlo data finished h h' levels _ (IH1 & IH2 & IH3) E
    |b src pn ad data level h h' levels _ (IH1 & IH2 & IH3) E|b src pn ad h h' levels _ (IH1 & IH2 & IH3) E
    |b src pn ad e h h' levels _ (IH1 & IH2 & IH3) E]; [split_and!; [constructor..|by split]|..].
  - apply (keeps_ok server_kept _ _ _ _ (keeps_message env chlo data)) in E as (E1 & E2 & Hk).
    split_and!; [done| |by apply Hk]. unfold server_floor. by rewrite E1, E2.
  - destruct (server_open_level _ _ _ _ _ _ IH3 E) as (Hf & Hk & Hl1 & Hl2). split_and!; [|constructor; eauto|done].
    constructor; eauto.
  - destruct (server_open_level _ _ _ _ _ _ IH3 E) as (Hf & Hk & Hl). split_and!; [|constructor; eauto; lia|done].
    constructor; [done|]. eapply Hge; [exact IH2|]. unfold server_floor in Hf, Hl. rewrite Hl in Hf. exact Hf.
  - destruct (server_open_level _ _ _ _ _ _ IH3 E) as (Hf & Hk & _). split_and!; eauto.
Qed.
End ServerLevels.

(** C5: the protection of accepted packets never decreases.  Over any run of a handshake, on the client
    and on the server, with messages and packets in any order: once a packet was opened with secure keys, no
    unencrypted packet is accepted any more, and once one was opened with forward-secure keys, only
    forward-secure ones are. *)
Theorem packet_protection_never_drops {CM : Type} `{CertManager CM} {Cookie : Type}
    (hc : cryptoSetupClient CM) (hs : cryptoSetupServer) (b : bool) (clientLevels serverLevels : list Z) :
  client_opened hc clientLevels → server_opened (Cookie := Cookie) b hs serverLevels →
  StronglySorted Z.ge clientLevels ∧ StronglySorted Z.ge serverLevels.
Proof. intros Hc Hs. split; [by eapply client_levels_sorted|by eapply server_levels_sorted]. Qed.

(** ** Examples *)

Definition toy_kd : key_derivation := DeriveQuicCryptoAESKeys sample_gcm sample_hkdf.
Definition good_config : list Z := ServerConfig_Get (sample_config (replicate 32 6)).
Definition other_config : list Z := ServerConfig_Get (sample_config (replicate 32 99)).

#[local] Existing Instance sample_certs.
#[local] Instance toy_certs : CertManager (option (list Z)) | 1 := sample_certs good_config.

(** The client after some events, if none of them ended the handshake. *)
Definition sample_run (evs : list client_event) : cryptoSetupClient (option (list Z)) :=
  (client_HandleCryptoStream sample_client_env evs sample_client).2.

Definition secure_key (h : cryptoSetupClient (option (list Z))) : AEAD := default (cl_nullAEAD h) (cl_secureAEAD h).

Definition good_events : list client_event :=
  [sample_rejection good_config [1] sample_certificate; EvDivNonce (replicate 32 8)].

Lemma is_Some_test {A} (o : option A) : match o with Some _ => true | None => false end = true → is_Some o.
Proof. by destruct o. Qed.

Lemma sample_turns ok evs h :
  client_run toy_kd false ok true h → Forall ok evs → is_ok (client_turns sample_client_env evs h).1 = true →
  client_run toy_kd false ok true (client_turns sample_client_env evs h).2.
Proof.
  intros Hr Hevs. revert h Hr. induction Hevs as [|ev evs Hev Hevs IH]; intros h Hr; [done|].
  cbn [client_turns]. unfold mbind, proc_bind. destruct (client_turn sample_client_env ev h) as [[[]|e|w] h'] eqn:E; [|done..].
  apply IH. by apply (run_turn toy_kd false ok sample_client_env ev (Ok tt) h h').
Qed.

Lemma sample_runs ok evs :
  Forall ok evs → is_ok (client_HandleCryptoStream sample_client_env evs sample_client).1 = true →
  client_run toy_kd false ok true (sample_run evs).
Proof.
  intros Hevs. unfold sample_run, client_HandleCryptoStream, mbind, proc_bind.
  destruct (client_start sample_client_env sample_client) as [[[]|e|w] h] eqn:E; [|done..].
  apply sample_turns; [|done]. by eapply (run_start toy_kd false ok _ _ _ _ _ _ _ _ _ sample_client_env (Ok tt)).
Qed.

Lemma client_keys_authentic_witness :
  let h := sample_run good_events in
  client_run toy_kd false proper_event true h ∧ from_authentic toy_kd (secure_key h).
Proof.
  assert (client_run toy_kd false proper_event true (sample_run good_events)) as Hr.
  { apply sample_runs; [|by vm_compute]. repeat constructor; by vm_compute. }
  split; [done|]. apply (client_keys_authentic toy_kd true _ _ Hr). left.
  destruct (is_Some_test (cl_secureAEAD (sample_run good_events))) as [a Ha]; [by vm_compute|].
  unfold secure_key. by rewrite Ha.
Defined.

(** A packet under the null keys, then one under the secure keys of the example. *)
Definition sealed_for_client (a : AEAD) (pn : Z) : list Z := AEAD_Seal a [1; 2; 3] pn [5].

Definition server_key : AEAD :=
  match toy_kd false (default [] (sc_sharedSecret <$> serverConfig (sample_run good_events)))
    (cl_nonc (sample_run good_events)) 42 (lastSentCHLO (sample_run good_events)) good_config [7; 7; 7] (replicate 32 8)
    PerspectiveServer with Ok a => a | _ => mkAEAD (λ _ _ _, Err EOF) (λ _ _ _, []) 0 end.

Lemma client_opens src pn ad level (h : cryptoSetupClient (option (list Z))) levels :
  client_opened h levels →
  match (client_Open src pn ad h).1 with Ok (_, l) => l =? level | _ => false end = true →
  client_opened (client_Open src pn ad h).2 (level :: levels).
Proof.
  intros Hh Hl. destruct (client_Open src pn ad h) as [[[data l]|e|w] h'] eqn:E; [|done..]. cbn in *.
  apply Z.eqb_eq in Hl as <-. by eapply copened_open.
Qed.

Lemma sample_opened evs h levels :
  client_opened h levels → is_ok (client_turns sample_client_env evs h).1 = true →
  client_opened (client_turns sample_client_env evs h).2 levels.
Proof.
  revert h. induction evs as [|ev evs IH]; intros h Hr; [done|].
  cbn [client_turns]. unfold mbind, proc_bind.
  destruct (client_turn sample_client_env ev h) as [[[]|e|w] h'] eqn:E; [|done..]. apply IH. by eapply copened_turn.
Qed.

Definition opened_null : cryptoSetupClient (option (list Z)) :=
  (client_Open (sealed_for_client (NewNullAEAD sample_fnv128a PerspectiveServer 39) 1) 1 [5]
     (client_start sample_client_env sample_client).2).2.

Definition opened_secure : cryptoSetupClient (option (list Z)) :=
  (client_Open (sealed_for_client server_key 2) 2 [5] (client_turns sample_client_env good_events opened_null).2).2.

Lemma packet_protection_never_drops_witness :
  client_opened opened_secure [EncryptionSecure; EncryptionUnencrypted] ∧
  StronglySorted Z.ge [EncryptionSecure; EncryptionUnencrypted] ∧ StronglySorted Z.ge [].
Proof.
  assert (client_opened opened_secure [EncryptionSecure; EncryptionUnencrypted]) as Hc.
  { apply client_opens; [|by vm_compute]. apply sample_opened; [|by vm_compute]. apply client_opens; [|by vm_compute].
    destruct (client_start sample_client_env sample_client) as [[[]|e|w] h] eqn:E;
      [by eapply copened_start|apply (f_equal (λ x, is_ok x.1)) in E; by vm_compute in E..]. }
  split; [done|].
  exact (packet_protection_never_drops (Cookie := unit) _ _ _ _ _ Hc
    (sopened_new 42 39 [39] (sample_config []) nullAEADFNV64a sample_parameters)).
Defined.

(** A rejection with an empty proof and another configuration is not checked any more: the client keeps
    believing the server, and derives keys for a configuration that no proof was ever given for. *)
Definition injected_events : list client_event :=
  [sample_rejection good_config [1] sample_certificate; sample_rejection other_config [] ∅;
   EvDivNonce (replicate 32 8)].

Theorem empty_proof_forgets_verification :
  let h := sample_run injected_events in
  client_run toy_kd false (λ _, True) true h ∧ is_Some (cl_secureAEAD h) ∧
  (sc_raw <$> serverConfig h) = Some other_config ∧
  ∀ cm proof chlo, VerifyServerProof (CertManager := toy_certs) cm proof chlo other_config = false.
Proof.
  split_and!.
  - apply sample_runs; [by repeat constructor|by vm_compute].
  - apply is_Some_test. by vm_compute.
  - by vm_compute.
  - intros cm proof chlo. cbn. apply bool_decide_eq_false. intros [_ E]. by vm_compute in E.
Qed.
