(* ===== verification/SessionKeys.v ===== *)
(** * The handshake and the session

    A session seals its packets with the keys of its crypto setup, which the handshake changes while the session
    runs.  The theorems about sessions (Delivery) assume that keys only get better; here the setups of
    crypto_setup_client.go and crypto_setup_server.go are shown to behave that way, for any messages
    and packets they handle, with the key derivation and the null AEADs of internal/crypto. *)

From S2P Require Import Prelude ByteOrder Protocol Frames StreamFrame PublicHeader Unpacker Handshake.
From S2P Require Import FlowControl Stream StreamScheduler StreamsMap Congestion SentPackets ConnectionParameters Packer Transmission.
From S2P Require Import Paths Session SendLoop Reliability Delivery Crypto CertCompression CryptoServer CryptoClient Authentication.

(** ** Sealing *)

Definition aead_seals (a : AEAD) : Prop := seals (sealer_of a).

Lemma pair_seals a b : AEADPair a b → aead_seals a.
Proof. intros Hp. split; [apply (pair_overhead (AEADPair := Hp))|intros payload pn ad; apply (pair_length (AEADPair := Hp))]. Qed.

(** What a setup seals with. *)
Definition optional_seals (o : option AEAD) : Prop := ∀ a, o = Some a → aead_seals a.

Definition derivation_seals (kd : key_derivation) : Prop :=
  ∀ fs secret nonces connID chlo scfg cert div pers a,
    kd fs secret nonces connID chlo scfg cert div pers = Ok a → aead_seals a.

Lemma optional_result (r : result AEAD) a : r = Ok a → aead_seals a → optional_seals (Some a).
Proof. by intros _ Ha b [= <-]. Qed.

Section ClientKeys.
Context {CM : Type} `{CertManager CM}.
Implicit Types (h : cryptoSetupClient CM) (env : client_env).

Record client_seals h : Prop := {
  cs_null : aead_seals (cl_nullAEAD h);
  cs_secure : optional_seals (cl_secureAEAD h);
  cs_forward : optional_seals (cl_forwardSecureAEAD h);
}.

(** Keys that seal stay such, and forward-secure keys stay. *)
Definition client_improves h h' : Prop :=
  client_seals h → client_seals h' ∧ (is_Some (cl_forwardSecureAEAD h) → is_Some (cl_forwardSecureAEAD h')).

#[local] Instance client_improves_preorder : PreOrder client_improves.
Proof using.
  split; [done|]. intros h1 h2 h3 H1 H2 Hs. destruct (H1 Hs) as [Hs2 Hf1]. destruct (H2 Hs2) as [Hs3 Hf2]. auto.
Qed.

Lemma improves_same h h' : cl_nullAEAD h' = cl_nullAEAD h → same_keys h h' → client_improves h h'.
Proof using.
  intros E1 (E2 & E3 & _) [H1 H2 H3]. split; [|by rewrite E3]. split; [by rewrite E1|by rewrite E2|by rewrite E3].
Qed.

Lemma client_setup_seals h : client_seals h → setup_seals (client_setup h).
Proof using.
  intros [H1 H2 H3]. unfold setup_seals, client_setup, client_GetSealer, client_GetSealerWithEncryptionLevel.
  cbn. split_and!; [|done|].
  - destruct (cl_forwardSecureAEAD h) eqn:Ef; [by apply H3|]. destruct (cl_secureAEAD h) eqn:Es; [by apply H2|done].
  - intros l s. repeat case_match; intros [= <-]; first [done|by apply H2|by apply H3].
Qed.

Lemma client_level_fs h :
  (client_GetSealer h).1 = EncryptionForwardSecure ↔ is_Some (cl_forwardSecureAEAD h).
Proof using.
  unfold client_GetSealer. destruct (cl_forwardSecureAEAD h), (cl_secureAEAD h); split; try done;
    first [by eexists|by intros [? ?]].
Qed.

Lemma client_keys_follow h h' :
  client_seals h → client_improves h h' → client_seals h' ∧ keys_follow (client_setup h) (client_setup h').
Proof using.
  intros Hs Hi. destruct (Hi Hs) as [Hs' Hf]. split; [done|]. split; [by apply client_setup_seals|].
  destruct (decide (is_Some (cl_forwardSecureAEAD h))) as [Hfs|Hfs].
  - left. apply client_level_fs. auto.
  - right. split; [done|]. intros E. apply Hfs. by apply client_level_fs.
Qed.

Lemma open_improves src pn ad h r h' : client_Open src pn ad h = (r, h') → client_improves h h'.
Proof using.
  intros [->|[_ ->]]%open_changes; [done|]. intros [H1 H2 H3]. split; [|done]. by split.
Qed.

(** Storing a key that was derived. *)
Lemma improves_forward {B} env fs secret nonces connID chlo scfg cert div pers
    (k : AEAD → proc (cryptoSetupClient CM) B) :
  derivation_seals (cl_keyDerivation env) → (∀ a, keeps client_improves (k a)) →
  let r := cl_keyDerivation env fs secret nonces connID chlo scfg cert div pers in
  keeps client_improves (_ ← change (λ h, set_client_keys h (cl_secureAEAD h)
    (match r with Ok a => Some a | _ => None end) (cl_receivedSecurePacket h)); a ← give r; k a).
Proof using.
  intros Hd Hk r h. wp_step. wp_step. wp_step. wp_step; [|done]. eapply wp_mono; [apply Hk| |done].
  intros b h' H'. etransitivity; [|exact H']. rewrite H0. intros [H1 H2 H3]. split; [|by eexists].
  split; [done..|]. cbn. intros a' [= <-]. by eapply Hd.
Qed.

Lemma improves_secure {B} env fs secret nonces connID chlo scfg cert div pers
    (k : AEAD → proc (cryptoSetupClient CM) B) :
  derivation_seals (cl_keyDerivation env) → (∀ a, keeps client_improves (k a)) →
  let r := cl_keyDerivation env fs secret nonces connID chlo scfg cert div pers in
  keeps client_improves (_ ← change (λ h, set_client_keys h (match r with Ok a => Some a | _ => None end)
    (cl_forwardSecureAEAD h) (cl_receivedSecurePacket h)); a ← give r; k a).
Proof using.
  intros Hd Hk r h. wp_step. wp_step. wp_step. wp_step; [|done]. eapply wp_mono; [apply Hk| |done].
  intros b h' H'. etransitivity; [|exact H']. rewrite H0. intros [H1 H2 H3]. split; [|done].
  split; [done| |done]. cbn. intros a' [= <-]. by eapply Hd.
Qed.

Ltac client_improve := keeps_solve ltac:(idtac; lazymatch goal with
  | |- keeps _ (change _ ≫= _) => first [apply improves_forward; [done|intros ?] | apply improves_secure; [done|intros ?]]
  | |- keeps _ (change _) => apply keeps_change; intros ?; by apply improves_same
  end).

Lemma improves_turn env ev :
  derivation_seals (cl_keyDerivation env) → keeps client_improves (client_turn env ev).
Proof using.
  intros Hd.
  unfold client_turn, client_head, client_receive, maybeUpgradeCrypto, sendCHLO, handleREJMessage, take_tokens, take_config,
    take_proof, take_certs, check_proof, handleSHLOMessage, announce_level, generateClientNonce.
  destruct ev; client_improve.
Qed.

Lemma improves_start env : derivation_seals (cl_keyDerivation env) → keeps client_improves (client_start env).
Proof using.
  intros Hd. unfold client_start. apply proc_keeps_bind; [exact _|apply keeps_state, _|intros h0].
  apply proc_keeps_bind; [exact _| |intros ?; unfold client_head, maybeUpgradeCrypto, announce_level, sendCHLO; client_improve].
  destruct (cl_cache h0); [|apply proc_keeps_ret, _]. intros h.
  assert (wp (read_cache env) (λ _ h', cl_nullAEAD h' = cl_nullAEAD h ∧ same_keys h h')
    (λ h', cl_nullAEAD h' = cl_nullAEAD h ∧ same_keys h h') h) as Hw.
  { unfold read_cache, generateClientNonce, readBinaryFile. repeat (wp_step; try done). }
  unfold wp, useHandshakeCache in *.
  destruct (read_cache env h) as [[a|e|w] h']; [destruct Hw; by apply improves_same..|done].
Qed.

End ClientKeys.

Section ServerKeys.
Context {Cookie : Type}.
Implicit Types (h : cryptoSetupServer) (env : server_env Cookie).

Record server_seals h : Prop := {
  ss_null : aead_seals (srv_nullAEAD h);
  ss_secure : optional_seals (srv_secureAEAD h);
  ss_forward : optional_seals (srv_forwardSecureAEAD h);
}.

Definition server_improves h h' : Prop :=
  server_seals h → server_seals h' ∧ (is_Some (srv_forwardSecureAEAD h) → is_Some (srv_forwardSecureAEAD h')).

#[local] Instance server_improves_preorder : PreOrder server_improves.
Proof using.
  split; [done|]. intros h1 h2 h3 H1 H2 Hs. destruct (H1 Hs) as [Hs2 Hf1]. destruct (H2 Hs2) as [Hs3 Hf2]. auto.
Qed.

Lemma server_setup_seals h : server_seals h → setup_seals (server_setup h).
Proof using.
  intros [H1 H2 H3]. unfold setup_seals, server_setup, server_GetSealer, server_GetSealerForCryptoStream,
    server_GetSealerWithEncryptionLevel. cbn. split_and!.
  - destruct (srv_forwardSecureAEAD h) eqn:Ef; [by apply H3|done].
  - destruct (srv_secureAEAD h) eqn:Es; [by apply H2|done].
  - intros l s. repeat case_match; intros [= <-]; first [done|by apply H2|by apply H3].
Qed.

Lemma server_level_fs h : is_Some (srv_forwardSecureAEAD h) → (server_GetSealer h).1 = EncryptionForwardSecure.
Proof using. unfold server_GetSealer. by intros [a ->]. Qed.

Lemma server_level_start h :
  (server_GetSealer h).1 = EncryptionForwardSecure ∨ (server_GetSealerForCryptoStream h).1 <> EncryptionForwardSecure.
Proof using. right. unfold server_GetSealerForCryptoStream. by destruct (srv_secureAEAD h). Qed.

Lemma server_keys_follow h h' :
  server_seals h → server_improves h h' → server_seals h' ∧ keys_follow (server_setup h) (server_setup h').
Proof using.
  intros Hs Hi. destruct (Hi Hs) as [Hs' Hf]. split; [done|]. split; [by apply server_setup_seals|]. cbn.
  unfold server_GetSealer, server_GetSealerForCryptoStream.
  destruct (srv_forwardSecureAEAD h); [destruct Hf as [x ->]; [by eexists|by left]|].
  right. by destruct (srv_secureAEAD h').
Qed.

Lemma server_open_improves src pn ad h r h' : server_Open src pn ad h = (r, h') → server_improves h h'.
Proof using.
  unfold server_Open. intros E. repeat case_match; simplify_eq; intros [H1' H2' H3']; (split; [by split|done]).
Qed.

Lemma improves_derived env fs secret nonces connID chlo scfg cert div pers :
  derivation_seals (srv_keyDerivation env) →
  let r := srv_keyDerivation env fs secret nonces connID chlo scfg cert div pers in
  keeps server_improves (derive_secure r) ∧ keeps server_improves (derive_forward_secure r).
Proof using.
  intros Hd r. split; intros h; unfold derive_secure, derive_forward_secure;
    (wp_step; wp_step; wp_step; wp_step; [|done]; wp_step; intros [H1 H2 H3];
     match goal with E : r = Ok ?a |- _ => rewrite E; assert (optional_seals (Some a)) by (intros a' [= <-]; by eapply Hd) end;
     split; [by split|]); [done|by eexists].
Qed.

Lemma improves_message env chlo data :
  derivation_seals (srv_keyDerivation env) → keeps server_improves (handleMessage env chlo data).
Proof using.
  intros Hd. unfold handleMessage, handleCHLO, handleInchoateCHLO, random, announce, write_stream.
  keeps_solve ltac:(idtac; lazymatch goal with
    | |- keeps _ (derive_secure _) => by apply improves_derived
    | |- keeps _ (derive_forward_secure _) => by apply improves_derived
    | |- keeps _ (change _) => apply keeps_change; intros ? [H1 H2 H3]; split; [by split|done]
    end).
Qed.
End ServerKeys.

(** ** The keys of a session *)

(** A change of the handshake on the client, on the server: the handshake starts, a message is handled, a packet opened.
    An error of the first two closes the session. *)
Inductive client_changes {CM} `{CertManager CM} (h : cryptoSetupClient CM) : cryptoSetupClient CM → Prop :=
| change_start env h' :
    derivation_seals (cl_keyDerivation env) → client_start env h = (Ok tt, h') → client_changes h h'
| change_turn env ev h' :
    derivation_seals (cl_keyDerivation env) → client_turn env ev h = (Ok tt, h') → client_changes h h'
| change_open src pn ad r h' : client_Open src pn ad h = (r, h') → client_changes h h'.

Inductive server_changes {Cookie} (h : cryptoSetupServer) : cryptoSetupServer → Prop :=
| change_message (env : server_env Cookie) chlo data r h' :
    derivation_seals (srv_keyDerivation env) → handleMessage env chlo data h = (Ok r, h') → server_changes h h'
| change_server_open src pn ad r h' : server_Open src pn ad h = (r, h') → server_changes h h'.

(** The setups that a new one turns into. *)
Inductive client_run {CM} `{CertManager CM} : cryptoSetupClient CM → Prop :=
| client_new hostname connID version cm null ps truncation cache versions files :
    aead_seals null →
    client_run (NewCryptoSetupClient hostname connID version cm null ps truncation cache versions files)
| client_next h h' : client_run h → client_changes h h' → client_run h'.

Inductive server_run {Cookie} : cryptoSetupServer → Prop :=
| server_new connID version supported scfg null ps :
    aead_seals null → server_run (NewCryptoSetup connID version supported scfg null ps)
| server_next h h' : server_run h → server_changes (Cookie := Cookie) h h' → server_run h'.

Lemma client_changes_improve {CM} `{CertManager CM} (h h' : cryptoSetupClient CM) : client_changes h h' → client_improves h h'.
Proof.
  intros [env h2 Hd Et|env ev h2 Hd Et|src pn ad r h2 Eo]; [| |by eapply open_improves].
  - exact (keeps_ok client_improves _ _ _ _ (improves_start env Hd) Et).
  - exact (keeps_ok client_improves _ _ _ _ (improves_turn env ev Hd) Et).
Qed.

Lemma client_run_seals {CM} `{CertManager CM} (h : cryptoSetupClient CM) : client_run h → client_seals h.
Proof.
  induction 1 as [hostname connID version cm null ps truncation cache versions files Hn|h h' _ IH Hc]; [by split|].
  by apply (client_changes_improve _ _ Hc).
Qed.

(** A server has both keys or none whenever it waits for a message. *)
Definition both_keys (h : cryptoSetupServer) : Prop := is_Some (srv_secureAEAD h) → is_Some (srv_forwardSecureAEAD h).

Definition both_kept h h' : Prop := both_keys h → both_keys h'.
#[local] Instance both_kept_preorder : PreOrder both_kept.
Proof. split; [by intros ? ?|]. intros h1 h2 h3 H1 H2 Hb. auto. Qed.

Lemma chlo_forward {Cookie} (env : server_env Cookie) sni data cryptoData h :
  wp (handleCHLO env sni data cryptoData) (λ _ h', is_Some (srv_forwardSecureAEAD h')) (λ _, True) h.
Proof.
  unfold handleCHLO, random, announce, derive_secure, derive_forward_secure.
  repeat (wp_step; try exact I). cbn [set_negotiated set_keys srv_forwardSecureAEAD].
  match goal with E : ?r = Ok ?a |- is_Some (match ?r with _ => _ end) => rewrite E; by eexists end.
Qed.

Lemma message_both_keys {Cookie} (env : server_env Cookie) chlo data : keeps both_kept (handleMessage env chlo data).
Proof.
  unfold handleMessage, handleInchoateCHLO, announce, write_stream.
  keeps_solve ltac:(idtac; lazymatch goal with
    | |- keeps _ (handleCHLO _ _ _ _) =>
        intros h; eapply wp_mono; [apply chlo_forward| |done]; intros ? ? ? _ _; assumption
    | |- keeps _ (change _) => apply keeps_change; intros ? Hb; exact Hb
    end).
Qed.

Lemma server_changes_improve {Cookie} h h' : server_changes (Cookie := Cookie) h h' →
  server_improves h h' ∧ (both_keys h → both_keys h').
Proof.
  intros [env chlo data r h2 Hd Et|src pn ad r h2 Eo].
  - split; [exact (keeps_ok server_improves _ _ _ _ (improves_message env chlo data Hd) Et)|].
    exact (keeps_ok both_kept _ _ _ _ (message_both_keys env chlo data) Et).
  - split; [by eapply server_open_improves|]. unfold server_Open in Eo. repeat case_match; simplify_eq; done.
Qed.

Lemma server_run_ok {Cookie} h : server_run (Cookie := Cookie) h → server_seals h ∧ both_keys h.
Proof.
  induction 1 as [connID version supported scfg null ps Hn|h h' _ [IH1 IH2] Hc].
  - split; [by split|]. intros [? ?]. done.
  - destruct (server_changes_improve _ _ Hc) as [Hi Hb]. split; [by apply Hi|auto].
Qed.

(** The crypto stream is not sealed with better keys than the data. *)
Definition crypto_not_better (cs : CryptoSetup) : Prop := (GetSealerForCryptoStream cs).1 <= (GetSealer cs).1.

Lemma client_crypto_not_better {CM} `{CertManager CM} (h : cryptoSetupClient CM) : crypto_not_better (client_setup h).
Proof.
  unfold crypto_not_better. cbn. unfold client_GetSealer. destruct (cl_forwardSecureAEAD h), (cl_secureAEAD h); cbn; by vm_compute.
Qed.

Lemma server_crypto_not_better h : both_keys h → crypto_not_better (server_setup h).
Proof.
  intros Hb. unfold crypto_not_better. cbn. unfold server_GetSealer, server_GetSealerForCryptoStream.
  destruct (srv_forwardSecureAEAD h) eqn:Ef, (srv_secureAEAD h) eqn:Es; try by vm_compute.
  unfold both_keys in Hb. rewrite Ef, Es in Hb. destruct Hb; [by eexists|done].
Qed.

(** C4: the handshake drives a session only the way the session relies on.  In every state that a client or a server
    gets to from a new setup, by starting the handshake, by any messages it handles without an error and any packets it opens, its keys
    seal as AEADs do and the crypto stream is not sealed with better keys than the data; each further change of this kind
    is a step of the session and keeps forward-secure keys; and new setups are ones that a session may start with.  So what
    holds of all runs of a session holds of those whose keys come from this handshake. *)
Theorem handshake_steps_session {C} `{SendAlgorithm C} {CM} `{CertManager CM} {Cookie : Type}
    (s : session C) (ps : connectionParametersManager) (hc hc' : cryptoSetupClient CM) (hs hs' : cryptoSetupServer) :
  (client_run hc →
   setup_seals (client_setup hc) ∧ crypto_not_better (client_setup hc) ∧ keys_start (client_setup hc) ∧
   (client_changes hc hc' → pp_cryptoSetup (packer s) = client_setup hc →
    session_step s (with_setup s (client_setup hc') ps) ∧
    (is_Some (cl_forwardSecureAEAD hc) → (GetSealer (client_setup hc')).1 = EncryptionForwardSecure))) ∧
  (server_run (Cookie := Cookie) hs →
   setup_seals (server_setup hs) ∧ crypto_not_better (server_setup hs) ∧ keys_start (server_setup hs) ∧
   (server_changes (Cookie := Cookie) hs hs' → pp_cryptoSetup (packer s) = server_setup hs →
    session_step s (with_setup s (server_setup hs') ps) ∧
    (is_Some (srv_forwardSecureAEAD hs) → (GetSealer (server_setup hs')).1 = EncryptionForwardSecure))).
Proof.
  split.
  - intros Hs%client_run_seals. pose proof (client_setup_seals _ Hs).
    split_and!; [done|apply client_crypto_not_better|split; [done|by right]|]. intros Hi%client_changes_improve E.
    destruct (client_keys_follow _ _ Hs Hi) as [_ Hf]. split; [apply step_keys; by rewrite E|].
    intros Hfs. apply client_level_fs, (Hi Hs), Hfs.
  - intros [Hs Hb]%server_run_ok. pose proof (server_setup_seals _ Hs).
    split_and!; [done|by apply server_crypto_not_better|split; [done|by apply server_level_start]|]. intros [Hi _]%server_changes_improve E.
    destruct (server_keys_follow _ _ Hs Hi) as [_ Hf]. split; [apply step_keys; by rewrite E|].
    intros Hfs. apply server_level_fs, (Hi Hs), Hfs.
Qed.

(** ** The keys of the program *)

Lemma gcm_seals newGCM k1 k2 iv1 iv2 a :
  (∀ k c, newGCM k = Ok c → cipher_ok c) → NewAEADAESGCM12 newGCM k1 k2 iv1 iv2 = Ok a → aead_seals a.
Proof.
  intros Hgcm E. pose proof (gcm_both newGCM Hgcm k1 k2 iv1 iv2) as Hp. rewrite E in Hp.
  destruct (NewAEADAESGCM12 newGCM k2 k1 iv2 iv1); [|done..]. destruct Hp as [Hp _]. by eapply pair_seals.
Qed.

Lemma derived_keys_seal newGCM hkdf :
  (∀ k c, newGCM k = Ok c → cipher_ok c) → derivation_seals (DeriveQuicCryptoAESKeys newGCM hkdf).
Proof.
  intros Hgcm fs secret nonces connID chlo scfg cert div pers a. unfold DeriveQuicCryptoAESKeys.
  destruct (deriveKeys _ _ _ _ _ _ _ _ _ _ _) as [[[[k1 k2] iv1] iv2]|e|w]; [|done..]. by apply gcm_seals.
Qed.

Lemma null_seals fnv128a p v : (∀ l, is_u64 (fnv128a l).2) → aead_seals (NewNullAEAD fnv128a p v).
Proof.
  intros Hf. unfold NewNullAEAD. destruct (UsesTLS v); [eapply pair_seals, null64_pair|].
  apply (pair_seals _ (nullAEADFNV128a fnv128a (match p with PerspectiveClient => PerspectiveServer | _ => PerspectiveClient end))).
  apply null128_pair; [done|]. by destruct p.
Qed.

(** *** Example: a client gets its first keys *)

#[local] Existing Instance toy_certs.
#[local] Existing Instance fixed_window.

Definition before_keys : cryptoSetupClient (option (list Z)) :=
  (client_turn sample_client_env (sample_rejection good_config [1] sample_certificate)
     (client_start sample_client_env sample_client).2).2.

Definition after_keys : cryptoSetupClient (option (list Z)) :=
  (client_turn sample_client_env (EvDivNonce (replicate 32 8)) before_keys).2.

Definition keyed_session : session Z :=
  new_session run_world (mkConfig (10 * Second) false) false PerspectiveClient 512 77
    CryptoClient.sample_parameters (client_setup before_keys) [] (client_address, server_address) "" "".

Lemma sample_derivation_seals : derivation_seals (cl_keyDerivation sample_client_env).
Proof. exact (derived_keys_seal sample_gcm sample_hkdf sample_gcm_ok). Qed.

Lemma snd_ok {S} (m : proc S unit) st : is_ok (m st).1 = true → m st = (Ok tt, (m st).2).
Proof. by destruct (m st) as [[[]|e|w] st']. Qed.

Lemma before_keys_run : client_run before_keys.
Proof.
  apply (client_next (client_start sample_client_env sample_client).2).
  - apply (client_next sample_client).
    + apply client_new, null_seals. intros l. unfold sample_fnv128a, is_u64. cbn [snd]. apply Z.mod_pos_bound. lia.
    + apply (change_start _ sample_client_env _ sample_derivation_seals), (snd_ok (client_start sample_client_env)). by vm_compute.
  - apply (change_turn _ sample_client_env (sample_rejection good_config [1] sample_certificate)); [apply sample_derivation_seals|].
    unfold before_keys. apply (snd_ok (client_turn sample_client_env _)). by vm_compute.
Qed.

Lemma handshake_steps_session_witness :
  (client_GetSealer before_keys).1 = EncryptionUnencrypted ∧ (client_GetSealer after_keys).1 = EncryptionSecure ∧
  crypto_not_better (client_setup before_keys) ∧
  session_step keyed_session (with_setup keyed_session (client_setup after_keys) CryptoClient.sample_parameters).
Proof.
  split; [by vm_compute|]. split; [by vm_compute|].
  destruct (proj1 (handshake_steps_session (Cookie := unit) keyed_session CryptoClient.sample_parameters before_keys after_keys
    (NewCryptoSetup 0 0 [] (sample_config []) nullAEADFNV64a CryptoClient.sample_parameters)
    (NewCryptoSetup 0 0 [] (sample_config []) nullAEADFNV64a CryptoClient.sample_parameters)) before_keys_run) as (_ & Hb & _ & Hstep).
  split; [exact Hb|]. apply Hstep; [|done].
  apply (change_turn _ sample_client_env (EvDivNonce (replicate 32 8))); [apply sample_derivation_seals|].
  unfold after_keys. apply (snd_ok (client_turn sample_client_env _)). by vm_compute.
Defined.
