(* ===== verification/Agreement.v ===== *)
(** * The handshake succeeds

    An honest client and an honest server that talk to each other: crypto_setup_client.go against
    crypto_setup_server.go, with the messages of handshake_message.go between them and the keys of
    internal/crypto.  The client needs three hellos -- one to get a token, one to get the certificates,
    one with its key -- and that is as many as it may send. *)

From S2P Require Import Prelude ByteOrder Protocol Frames StreamFrame PublicHeader Unpacker Handshake.
From S2P Require Import FlowControl Stream StreamScheduler StreamsMap Congestion ConnectionParameters Packer Crypto CertCompression.
From S2P Require Import SendLoop CryptoServer CryptoClient.

(** ** Messages that can be written *)

Definition value_ok (v : list Z) : Prop := bytes_ok v ∧ Z.of_nat (length v) <= CryptoParameterMaxLength.

(** At most [n] entries, all within the limits of the parser. *)
Definition writable (n : nat) (m : gmap Z (list Z)) : Prop := (size m <= n)%nat ∧ map_Forall entry_ok m.

Lemma writable_empty : writable 0 ∅.
Proof. split; [by rewrite map_size_empty|apply map_Forall_empty]. Qed.

Lemma writable_insert n t v m : is_u32 t → value_ok v → writable n m → writable (S n) (<[t := v]> m).
Proof.
  intros Ht [Hb Hl] [Hs Hm]. split; [pose proof (size_insert_le m t v); lia|].
  by apply map_Forall_insert_2; [split|].
Qed.

Lemma writable_when n b t v m : is_u32 t → value_ok v → writable n m → writable (S n) (when b t v m).
Proof.
  intros Ht Hv Hm. unfold when. destruct b; [by apply writable_insert|]. destruct Hm. split; [lia|done].
Qed.

Lemma writable_parses t n m s :
  is_u32 t → (n <= 128)%nat → writable n m →
  ParseHandshakeMessage (HandshakeMessage_Write (mkMessage t m) ++ s) = Ok (mkMessage t m, s).
Proof.
  intros Ht Hn [Hs Hm]. apply ParseHandshakeMessage_Write. split_and!; [done| |done].
  unfold CryptoMaxParams. cbn. lia.
Qed.

Lemma value_ok_le_split n v : (n <= 4000)%nat → value_ok (le_split n v).
Proof. intros Hn. split; [apply le_split_bytes|]. rewrite length_le_split. unfold CryptoParameterMaxLength. lia. Qed.

Lemma value_ok_replicate n b : (n <= 4000)%nat → is_u8 b → value_ok (replicate n b).
Proof.
  intros Hn Hb. split; [by apply Forall_replicate|]. rewrite length_replicate. unfold CryptoParameterMaxLength. lia.
Qed.

Lemma string_bytes_ok s : bytes_ok (string_bytes s).
Proof.
  unfold string_bytes. apply Forall_map, Forall_true. intros c. cbn. pose proof (Ascii.nat_ascii_bounded c). split; [lia|].
  change (2^8) with 256. lia.
Qed.

(** *** The length of a message *)

Definition sum_lengths (m : gmap Z (list Z)) (tags : list Z) : Z :=
  foldr (λ t n, n + (8 + Z.of_nat (length (value_at m t)))) 0 tags.

Lemma write_entries_length m offset tags :
  Z.of_nat (length (write_entries m offset tags).1 + length (write_entries m offset tags).2) = sum_lengths m tags.
Proof.
  revert offset. induction tags as [|t tags IH]; intros offset; [done|]. cbn [write_entries sum_lengths foldr].
  fold (value_at m t) (sum_lengths m tags). specialize (IH (u32 (offset + Z.of_nat (length (value_at m t))))).
  destruct (write_entries _ _ tags) as [index values]. cbn [fst snd] in *.
  rewrite !length_app, !length_le_split. lia.
Qed.

Lemma sum_lengths_perm m tags tags' : tags ≡ₚ tags' → sum_lengths m tags = sum_lengths m tags'.
Proof. unfold sum_lengths. induction 1; cbn; lia. Qed.

Lemma tags_size_sum m : tags_size m = sum_lengths m (map fst (map_to_list m)).
Proof.
  unfold tags_size, sum_lengths. rewrite map_fold_foldr.
  assert (∀ l, (∀ k v, (k, v) ∈ l → m !! k = Some v) →
    foldr (uncurry (λ (_ : Z) (v : list Z) (size : Z), size + (8 + Z.of_nat (length v)))) 0 l
    = foldr (λ t n, n + (8 + Z.of_nat (length (value_at m t)))) 0 (map fst l)) as Hl.
  { induction l as [|[k v] l IH]; intros Hin; [done|]. cbn. rewrite IH by (intros; apply Hin; by right).
    unfold value_at. rewrite (Hin k v); [done|by left]. }
  apply Hl. intros k v. apply elem_of_map_to_list.
Qed.

Lemma Write_length t m : Z.of_nat (length (HandshakeMessage_Write (mkMessage t m))) = 8 + tags_size m.
Proof.
  unfold HandshakeMessage_Write. rewrite tags_size_sum, <- (sum_lengths_perm _ _ _ (getTagsSorted_perm (mkMessage t m))).
  rewrite <- (write_entries_length _ 0). cbn [hm_Data hm_Tag]. destruct (write_entries _ _ _) as [index values]. cbn [fst snd].
  rewrite !write_32, !write_16, !length_app. unfold enc, LittleEndian_laws. rewrite !length_le_split. lia.
Qed.

(** ** Hellos *)

Lemma tags_size_nonneg m : 0 <= tags_size m.
Proof.
  rewrite tags_size_sum. unfold sum_lengths. induction (map fst (map_to_list m)); cbn; lia.
Qed.

Lemma addPadding_lookup m t : t <> TagPAD → addPadding m !! t = m !! t.
Proof. intros Ht. unfold addPadding. destruct (0 <? _); [|done]. by rewrite lookup_insert_ne. Qed.

Lemma addPadding_writable n m : writable n m → writable (S n) (addPadding m).
Proof.
  intros Hm. unfold addPadding. pose proof (tags_size_nonneg m). destruct (Z.ltb_spec 0 (ClientHelloMinimumSize - tags_size m)).
  - apply writable_insert; [concrete_u32| |done]. apply value_ok_replicate; [|done]. unfold ClientHelloMinimumSize in *. lia.
  - destruct Hm. split; [lia|done].
Qed.

(** A padded hello is long enough to be answered. *)
Lemma addPadding_long m :
  m !! TagPAD = None →
  ClientHelloMinimumSize <= Z.of_nat (length (HandshakeMessage_Write (mkMessage TagCHLO (addPadding m)))).
Proof.
  intros Hp. rewrite Write_length. unfold addPadding. destruct (Z.ltb_spec 0 (ClientHelloMinimumSize - tags_size m)); [|lia].
  unfold tags_size at 1. rewrite map_fold_insert_L; [|intros; lia|done]. fold (tags_size m). rewrite length_replicate. lia.
Qed.

Lemma when_eq b t v m : m !! t = None → when b t v m !! t = if b then Some v else None.
Proof. intros Hm. unfold when. destruct b; [apply lookup_insert_eq|done]. Qed.

Lemma when_ne b t t' v m : t <> t' → when b t v m !! t' = m !! t'.
Proof. intros Ht. unfold when. destruct b; [by apply lookup_insert_ne|done]. Qed.

(** Looking up a tag. *)
Ltac other_tag := vm_compute; congruence.
Ltac find_tag := repeat first
  [ rewrite lookup_insert_ne by other_tag | rewrite when_ne by other_tag | rewrite lookup_insert_eq
  | rewrite lookup_empty | done ].

(** A value that is known to fit, or a constant. *)
Ltac fits_tac :=
  lazymatch goal with
  | |- value_ok (string_bytes _) => split; [apply string_bytes_ok|vm_compute; congruence]
  | |- value_ok (le_split _ _) => apply value_ok_le_split; lia
  | |- value_ok (_ :: _) => split; [bytes_tac|vm_compute; congruence]
  | _ => assumption
  end.
Ltac writable_tac := repeat lazymatch goal with
  | |- writable _ (<[_ := _]> _) => apply writable_insert; [concrete_u32|fits_tac|]
  | |- writable _ (when _ _ _ _) => apply writable_when; [concrete_u32|fits_tac|]
  | |- writable _ ∅ => apply writable_empty
  end.

Definition hello_tags : list Z := [TagICSL; TagMSPC; TagMIDS; TagCFCW; TagSFCW].

Lemma GetHelloMap_other ps t : t ∉ hello_tags → GetHelloMap ps !! t = None.
Proof.
  intros Ht. unfold hello_tags in Ht. rewrite !not_elem_of_cons in Ht. destruct Ht as (H1 & H2 & H3 & H4 & H5 & _).
  unfold GetHelloMap. by rewrite !lookup_insert_ne, lookup_empty by congruence.
Qed.

Section Hello.
Context {CM : Type} `{CertManager CM}.
Implicit Types h : cryptoSetupClient CM.

Definition hello h : gmap Z (list Z) := addPadding (getTags h).
Definition hello_message h : HandshakeMessage := mkMessage TagCHLO (hello h).

(** What every hello carries. *)
Record hello_carries h : Prop := {
  hello_SNI : hello h !! TagSNI = Some (cl_hostname h);
  hello_VER : hello h !! TagVER = Some (le_split 4 (VersionNumberToTag (cl_version h)));
  hello_FHL2 : hello h !! TagFHL2 = None;
  hello_NSTP : hello h !! TagNSTP = None;
  hello_CCS : default [] (hello h !! TagCCS) = GetCommonCertificateHashes (cl_certManager h);
  hello_CCRT : hello h !! TagCCRT = None;
  hello_STK : default [] (hello h !! TagSTK) = cl_stk h;
  hello_TCID : hello h !! TagTCID = if cl_truncation h then Some [0; 0; 0; 0] else None;
  hello_parameters t : t ∈ hello_tags → hello h !! t = GetHelloMap (cl_parameters h) !! t;
}.

Ltac start_hello := unfold hello; rewrite addPadding_lookup by other_tag; unfold getTags;
  destruct (serverConfig _); [destruct (cm_GetLeafCert _)|].
Ltac no_hello_tag := rewrite GetHelloMap_other by (apply (bool_decide_unpack _); by vm_compute).

Lemma default_when b t v m : m !! t = None → b = nonempty v → default [] (when b t v m !! t) = v.
Proof using. intros Hm ->. rewrite when_eq by done. unfold nonempty. by destruct v. Qed.

Lemma hello_carried h : hello_carries h.
Proof using.
  split.
  - start_hello; find_tag.
  - start_hello; find_tag; by rewrite write_32.
  - start_hello; find_tag; by no_hello_tag.
  - start_hello; find_tag; by no_hello_tag.
  - start_hello; find_tag; apply default_when; find_tag; by no_hello_tag.
  - start_hello; find_tag; by no_hello_tag.
  - start_hello; find_tag; apply default_when; find_tag; by no_hello_tag.
  - start_hello; find_tag; apply when_eq; find_tag; by no_hello_tag.
  - intros t Ht. unfold hello_tags in Ht. rewrite !elem_of_cons, elem_of_nil in Ht.
    destruct Ht as [->|[->|[->|[->|[->|[]]]]]]; start_hello; find_tag.
Qed.

(** As long as a client has no certificate it cannot send its key. *)
Lemma hello_inchoate h : cm_GetLeafCert (cl_certManager h) = None → hello h !! TagPUBS = None.
Proof using.
  intros Hl. unfold hello. rewrite addPadding_lookup by other_tag. unfold getTags. rewrite Hl.
  destruct (serverConfig h); find_tag; by no_hello_tag.
Qed.

(** What a hello with a key carries. *)
Lemma hello_full h c leaf :
  serverConfig h = Some c → cm_GetLeafCert (cl_certManager h) = Some leaf →
  hello h !! TagPUBS = Some (PublicKey (sc_kex c)) ∧ hello h !! TagSCID = Some (sc_ID c) ∧
  hello h !! TagXLCT = Some (le_split 8 (GetLeafCertHash (cl_certManager h))) ∧
  hello h !! TagNONC = Some (cl_nonc h) ∧ hello h !! TagAEAD = Some (string_bytes "AESG") ∧
  hello h !! TagKEXS = Some (string_bytes "C255").
Proof using.
  intros Hc Hl. unfold hello. rewrite !addPadding_lookup by other_tag. unfold getTags. rewrite Hc, Hl.
  split_and!; find_tag.
Qed.

(** Values that fit a message. *)
Record hello_fits h : Prop := {
  fits_host : value_ok (cl_hostname h);
  fits_hashes : value_ok (GetCommonCertificateHashes (cl_certManager h));
  fits_stk : value_ok (cl_stk h);
  fits_sno : value_ok (default [] (cl_sno h));
  fits_nonc : value_ok (cl_nonc h);
  fits_config c : serverConfig h = Some c → value_ok (sc_ID c) ∧ value_ok (PublicKey (sc_kex c));
}.

Lemma GetHelloMap_writable ps : writable 5 (GetHelloMap ps).
Proof using.
  unfold GetHelloMap. rewrite !write_32. unfold enc, LittleEndian_laws.
  writable_tac.
Qed.

Lemma writable_weaken n n' m : (n <= n')%nat → writable n m → writable n' m.
Proof using. intros Hn [Hs Hm]. split; [lia|done]. Qed.

Lemma getTags_writable h : hello_fits h → writable 18 (getTags h).
Proof using.
  intros [F1 F2 F3 F4 F5 F6]. unfold getTags. rewrite write_32. unfold enc, LittleEndian_laws.
  assert (∀ n m, writable n m → writable (S (S (S (S (S (S n)))))) (
    match serverConfig h with
    | None => m
    | Some c =>
        match cm_GetLeafCert (cl_certManager h) with
        | None => <[TagSCID := sc_ID c]> m
        | Some _ => <[TagPUBS := PublicKey (sc_kex c)]> (<[TagAEAD := string_bytes "AESG"]>
          (<[TagKEXS := string_bytes "C255"]> (<[TagXLCT := le_split 8 (GetLeafCertHash (cl_certManager h))]>
          (<[TagNONC := cl_nonc h]> (<[TagSCID := sc_ID c]> m)))))
        end
    end)) as Hcfg.
  { intros n m Hm. destruct (serverConfig h) as [c|] eqn:Ec; [|eapply writable_weaken; [|exact Hm]; lia].
    destruct (F6 c eq_refl) as [G1 G2]. destruct (cm_GetLeafCert (cl_certManager h)).
    - by writable_tac.
    - eapply writable_weaken; [|apply writable_insert; [concrete_u32|done|exact Hm]]. lia. }
  cbv zeta. apply (Hcfg 12%nat).
  writable_tac. apply GetHelloMap_writable.
Qed.

Lemma hello_read h s :
  hello_fits h → ParseHandshakeMessage (HandshakeMessage_Write (hello_message h) ++ s) = Ok (hello_message h, s).
Proof using.
  intros Hf. apply (writable_parses _ 19); [concrete_u32|lia|]. by apply addPadding_writable, getTags_writable.
Qed.

Lemma hello_long h : ClientHelloMinimumSize <= Z.of_nat (length (HandshakeMessage_Write (hello_message h))).
Proof using.
  apply addPadding_long. unfold getTags. destruct (serverConfig _); [destruct (cm_GetLeafCert _)|]; find_tag; by no_hello_tag.
Qed.

(** The state after a hello. *)
Definition said h : cryptoSetupClient CM :=
  set_hello h (clientHelloCounter h + 1) (HandshakeMessage_Write (hello_message h))
    (cl_written h ++ HandshakeMessage_Write (hello_message h)).

Lemma sendCHLO_ok env h :
  (∀ b, cl_Write env b = None) → clientHelloCounter h < MaxClientHellos → sendCHLO env h = (Ok tt, said h).
Proof using.
  intros Hw Hn. unfold sendCHLO, change, state, require, give, mbind, proc_bind.
  cbn [clientHelloCounter set_hello]. destruct (Z.ltb_spec MaxClientHellos (clientHelloCounter h + 1)); [lia|].
  by rewrite Hw.
Qed.

End Hello.

(** ** Steps that succeed *)

Lemma proc_bind_ok {S A B} (m : proc S A) (f : A → proc S B) st a st' :
  m st = (Ok a, st') → (m ≫= f) st = f a st'.
Proof. intros E. unfold mbind, proc_bind. by rewrite E. Qed.

Lemma require_true {S} b e (st : S) : b = true → require b e st = (Ok tt, st).
Proof. by intros ->. Qed.

Lemma value_there {S} data t e v (st : S) : data !! t = Some v → value data t e st = (Ok v, st).
Proof. intros E. unfold value, give. by rewrite E. Qed.

Lemma give_ok {S A} (r : result A) a (st : S) : r = Ok a → give r st = (Ok a, st).
Proof. by intros ->. Qed.

(** The next operation of a program, given what shows that it succeeds. *)
Tactic Notation "runs" "by" tactic3(t) :=
  erewrite proc_bind_ok by (lazymatch goal with
    | |- require _ _ _ = _ => apply require_true; t
    | |- value _ _ _ _ = _ => apply value_there; t
    | |- give _ _ = _ => apply give_ok; t
    | |- _ => t
    end).

(** ** The server's answers *)

Section Server.
Context {CM Cookie : Type} `{CertManager CM} (env : server_env Cookie).
Implicit Types (h : cryptoSetupClient CM) (s : cryptoSetupServer).

(** Client and server agree on the version, and the server has a certificate for the name. *)
Record meets h s (leaf : list Z) : Prop := {
  meets_host : cl_hostname h <> [];
  meets_version : srv_version s = cl_version h ∧ 0 <= cl_version h < 1000;
  meets_leaf : GetLeafCert (scfg_certChain (srv_scfg s)) (cl_hostname h) = Ok leaf;
}.

Lemma version_read v : 0 <= v < 1000 → VersionTagToNumber (le_combine (le_split 4 (VersionNumberToTag v))) = v.
Proof using. intros Hv. rewrite le_combine_split by apply VersionNumberToTag_u32. by apply version_tag_id. Qed.

(** The checks that every hello goes through. *)
Lemma handleMessage_hello h s leaf chlo :
  meets h s leaf →
  handleMessage env chlo (hello h) s =
    (if negb (isInchoateCHLO env s (hello h) leaf) then
       reply ← handleCHLO env (cl_hostname h) chlo (hello h);
       _ ← write_stream env reply;
       _ ← announce EncryptionForwardSecure;
       _ ← change (λ s, set_announced s true (srv_aeadChanged s));
       mret true
     else
       reply ← handleInchoateCHLO env (cl_hostname h) chlo (hello h);
       _ ← write_stream env reply;
       mret false) s.
Proof using.
  intros [Hh [Hv Hr] Hl]. destruct (hello_carried h) as [F1 F2 F3 F4 _ _ _ _ _]. unfold handleMessage.
  runs by (by rewrite F3). runs by (by rewrite F4). runs by (exact F1).
  runs by (by destruct (cl_hostname h)). runs by (exact F2). runs by (by rewrite length_le_split).
  runs by reflexivity. runs by (rewrite version_read, Hv, Z.eqb_refl by done; done).
  runs by (exact Hl). done.
Qed.

(** A rejection: the configuration and a token, and certificates for those who have a good token. *)
Definition rejection s (token : list Z) : gmap Z (list Z) :=
  <[TagSCFG := ServerConfig_Get (srv_scfg s)]> (<[TagSTK := token]> (<[TagSVID := string_bytes "quic-go"]> ∅)).

Definition rejection_certs s (token proof crt : list Z) : gmap Z (list Z) :=
  <[TagCERT := crt]> (<[TagPROF := proof]> (rejection s token)).

Definition answered s (m : HandshakeMessage) : cryptoSetupServer :=
  set_negotiated s (srv_parameters s) (srv_written s ++ HandshakeMessage_Write m).

Lemma write_stream_ok m s :
  (∀ b, srv_Write env b = None) → write_stream env (HandshakeMessage_Write m) s = (Ok tt, answered s m).
Proof using. intros Hw. unfold write_stream. by rewrite Hw. Qed.

(** A hello without a key is answered by a rejection. *)
Lemma hello_answered h s leaf m :
  meets h s leaf → cm_GetLeafCert (cl_certManager h) = None → (∀ b, srv_Write env b = None) →
  handleInchoateCHLO env (cl_hostname h) (HandshakeMessage_Write (hello_message h)) (hello h) s
  = (Ok (HandshakeMessage_Write m), s) →
  handleMessage env (HandshakeMessage_Write (hello_message h)) (hello h) s = (Ok false, answered s m).
Proof using.
  intros Hm Hl Hw Hi. rewrite (handleMessage_hello _ _ leaf) by done.
  assert (isInchoateCHLO env s (hello h) leaf = true) as -> by (unfold isInchoateCHLO; by rewrite hello_inchoate).
  cbn [negb]. runs by (exact Hi). by runs by (by apply write_stream_ok).
Qed.

Lemma hello_long_enough h :
  negb (Z.of_nat (length (HandshakeMessage_Write (hello_message h))) <? ClientHelloMinimumSize) = true.
Proof using. pose proof (hello_long h). by destruct (Z.ltb_spec (Z.of_nat (length (HandshakeMessage_Write (hello_message h)))) ClientHelloMinimumSize); [lia|]. Qed.

Lemma hello_rejected h s leaf token :
  meets h s leaf → cm_GetLeafCert (cl_certManager h) = None → (∀ b, srv_Write env b = None) →
  stk_NewToken env = Ok token → acceptSTK env (cl_stk h) = false →
  handleMessage env (HandshakeMessage_Write (hello_message h)) (hello h) s
  = (Ok false, answered s (mkMessage TagREJ (rejection s token))).
Proof using.
  intros Hm Hl Hw Ht Ha. apply (hello_answered _ _ leaf); [done..|]. destruct (hello_carried h) as [_ _ _ _ _ _ F7 _ _].
  unfold handleInchoateCHLO. runs by (apply hello_long_enough). runs by (exact Ht). runs by reflexivity.
  rewrite F7, Ha. by runs by reflexivity.
Qed.

Lemma hello_rejected_certs h s leaf token proof crt :
  meets h s leaf → cm_GetLeafCert (cl_certManager h) = None → (∀ b, srv_Write env b = None) →
  stk_NewToken env = Ok token → acceptSTK env (cl_stk h) = true →
  ServerConfig_Sign (srv_scfg s) (cl_hostname h) (HandshakeMessage_Write (hello_message h)) = Ok proof →
  GetCertsCompressed (scfg_certChain (srv_scfg s)) (cl_hostname h) (GetCommonCertificateHashes (cl_certManager h)) [] = Ok crt →
  handleMessage env (HandshakeMessage_Write (hello_message h)) (hello h) s
  = (Ok false, answered s (mkMessage TagREJ (rejection_certs s token proof crt))).
Proof using.
  intros Hm Hl Hw Ht Ha Hp Hc. apply (hello_answered _ _ leaf); [done..|].
  destruct (hello_carried h) as [_ _ _ _ F5 F6 F7 _ _].
  unfold handleInchoateCHLO. runs by (apply hello_long_enough). runs by (exact Ht). runs by reflexivity.
  rewrite F7, Ha. erewrite proc_bind_ok; [done|]. runs by (exact Hp). by runs by (rewrite F5, F6; exact Hc).
Qed.

(** *** A hello with a key *)

Definition server_hello s (sno : list Z) (ps : connectionParametersManager) : gmap Z (list Z) :=
  <[TagVER := concat ((λ v, WriteUint32 LittleEndian (VersionNumberToTag v)) <$> srv_supportedVersions s)]>
    (<[TagSNO := sno]> (<[TagPUBS := PublicKey (srv_keyExchange env)]> (GetHelloMap ps))).

Definition accepted s (div : list Z) (secure fs : AEAD) (ps : connectionParametersManager) (sno : list Z)
  : cryptoSetupServer :=
  set_announced
    (set_negotiated (set_keys (set_divnonce s div) (Some secure) (Some fs)) ps
       (srv_written s ++ HandshakeMessage_Write (mkMessage TagSHLO (server_hello s sno ps))))
    true ((srv_aeadChanged s ++ [EncryptionSecure]) ++ [EncryptionForwardSecure]).

(** The client's hello fits the configuration of the server. *)
Record suits h s (c : serverConfigClient) (leaf : list Z) : Prop := {
  fc_config : serverConfig h = Some c;
  fc_leaf : cm_GetLeafCert (cl_certManager h) = Some leaf;
  fc_hash : GetLeafCertHash (cl_certManager h) = HashCert leaf;
  fc_ID : scfg_ID (srv_scfg s) = sc_ID c;
  fc_stk : acceptSTK env (cl_stk h) = true;
  fc_nonc : length (cl_nonc h) = 32%nat ∧ take 8 (drop 4 (cl_nonc h)) = scfg_obit (srv_scfg s);
}.

Lemma hello_not_inchoate h s c leaf : suits h s c leaf → isInchoateCHLO env s (hello h) leaf = false.
Proof using.
  intros [F1 F2 F3 F4 F5 F6]. destruct (hello_full _ _ _ F1 F2) as (L1 & L2 & L3 & _). unfold isInchoateCHLO.
  destruct (hello_carried h) as [_ _ _ _ _ _ F7 _ _].
  rewrite L1, L2, L3, F7, F5, F3, F4, bool_decide_true, length_le_split by done.
  rewrite le_combine_split by (apply fnv64a_u64). by rewrite Z.eqb_refl.
Qed.

(** What the server computes for such a hello. *)
Record agreed h s (c : serverConfigClient) (leaf chlo sno div : list Z) (secure fs : AEAD)
    (ps : connectionParametersManager) : Prop := {
  ag_secure : ∃ secret, CalculateSharedKey (scfg_kex (srv_scfg s)) (PublicKey (sc_kex c)) = Ok secret ∧
    srv_keyDerivation env false secret (cl_nonc h) (srv_connID s) chlo (ServerConfig_Get (srv_scfg s)) leaf div
      PerspectiveServer = Ok secure;
  ag_forward : ∃ secret, CalculateSharedKey (srv_keyExchange env) (PublicKey (sc_kex c)) = Ok secret ∧
    srv_keyDerivation env true secret (cl_nonc h ++ sno) (srv_connID s) chlo (ServerConfig_Get (srv_scfg s)) leaf []
      PerspectiveServer = Ok fs;
  ag_nonces : srv_serverNonce env = Some sno ∧ srv_divNonce env = Some div;
  ag_parameters : SetFromMap (srv_parameters s) (hello h) = (None, ps);
}.

Lemma handleCHLO_ok h s c leaf chlo sno div secure fs ps :
  meets h s leaf → suits h s c leaf → agreed h s c leaf chlo sno div secure fs ps →
  handleCHLO env (cl_hostname h) chlo (hello h) s
  = (Ok (HandshakeMessage_Write (mkMessage TagSHLO (server_hello s sno ps))),
     set_negotiated (set_announced (set_keys (set_divnonce s div) (Some secure) (Some fs)) (srv_sentSHLO s)
       (srv_aeadChanged s ++ [EncryptionSecure])) ps (srv_written s)).
Proof using.
  intros [_ _ Hl] [F1 F2 F3 F4 F5 [F6 F7]] [(x1 & Hs & Hk1) (x2 & He & Hk2) [Hsno Hdiv] Hps].
  destruct (hello_full _ _ _ F1 F2) as (L1 & _ & _ & L4 & L5 & L6).
  unfold handleCHLO. rewrite L1, L4, L5, L6, Hdiv. unfold default, id.
  runs by reflexivity. runs by (exact Hs). runs by (exact Hl).
  unfold random. runs by (by rewrite Hsno). runs by reflexivity. runs by reflexivity.
  runs by (unfold validateClientNonce; by rewrite F6, F7, bool_decide_true).
  runs by (by rewrite bool_decide_true). runs by (by rewrite bool_decide_true).
  rewrite Hk1. runs by reflexivity. runs by reflexivity. runs by (exact He). rewrite Hk2. runs by reflexivity.
  rewrite Hps. runs by reflexivity. by runs by reflexivity.
Qed.

Lemma hello_accepted h s c leaf chlo sno div secure fs ps :
  meets h s leaf → suits h s c leaf → agreed h s c leaf chlo sno div secure fs ps → (∀ b, srv_Write env b = None) →
  handleMessage env chlo (hello h) s = (Ok true, accepted s div secure fs ps sno).
Proof using.
  intros Hm Hf Ha Hw. rewrite (handleMessage_hello _ _ leaf) by done.
  rewrite (hello_not_inchoate _ _ _ _ Hf). cbn [negb]. runs by (by eapply handleCHLO_ok).
  by runs by (by apply write_stream_ok).
Qed.

End Server.

(** ** The client's side *)

(** A configuration that a client can read. *)
Record config_ok (scfg : ServerConfig) : Prop := {
  cfg_ID : length (scfg_ID scfg) = 16%nat ∧ bytes_ok (scfg_ID scfg);
  cfg_obit : length (scfg_obit scfg) = 8%nat ∧ bytes_ok (scfg_obit scfg);
  cfg_key : length (PublicKey (scfg_kex scfg)) = 32%nat ∧ bytes_ok (PublicKey (scfg_kex scfg));
}.

Definition config_tags (scfg : ServerConfig) : gmap Z (list Z) :=
  <[TagSCID := scfg_ID scfg]> (<[TagKEXS := string_bytes "C255"]> (<[TagAEAD := string_bytes "AESG"]>
    (<[TagPUBS := [0x20; 0; 0] ++ PublicKey (scfg_kex scfg)]> (<[TagOBIT := scfg_obit scfg]>
    (<[TagEXPY := replicate 8 0xff]> ∅))))).

Definition config_expiry : Z := (2^63 - 1) / 2.

Lemma config_tags_writable scfg : config_ok scfg → writable 6 (config_tags scfg).
Proof.
  intros [[L1 B1] [L2 B2] [L3 B3]]. unfold config_tags.
  assert (value_ok (scfg_ID scfg)) by (split; [done|rewrite L1; vm_compute; congruence]).
  assert (value_ok (scfg_obit scfg)) by (split; [done|rewrite L2; vm_compute; congruence]).
  assert (value_ok ([0x20; 0; 0] ++ PublicKey (scfg_kex scfg)))
    by (split; [apply bytes_ok_app; [bytes_tac|done]|rewrite length_app, L3; vm_compute; congruence]).
  assert (value_ok (replicate 8 0xff)) by (apply value_ok_replicate; [lia|unfold is_u8; lia]).
  writable_tac.
Qed.

Lemma parse_one_pub pub :
  length pub = 32%nat → parse_pubs (S (length ([0x20; 0; 0] ++ pub))) ([0x20; 0; 0] ++ pub) = Ok [pub].
Proof.
  intros Hl. do 32 (destruct pub as [|? pub]; [done|]). by destruct pub.
Qed.

Lemma group_found name :
  name = "C255"%string ∨ name = "AESG"%string →
  (length (string_bytes name) mod 4 = 0)%nat ∧
  find_group (string_bytes name) (string_bytes name) (length (string_bytes name) / 4) 0 = Some 0%nat.
Proof. intros [->| ->]; split; vm_compute; reflexivity. Qed.

(** The client reads the configuration of the server. *)
Lemma config_read scfg newKEX k secret :
  config_ok scfg → newKEX = Ok k → CalculateSharedKey k (PublicKey (scfg_kex scfg)) = Ok secret →
  parseServerConfig newKEX (ServerConfig_Get scfg)
  = Ok (mkConfigClient (ServerConfig_Get scfg) (scfg_ID scfg) (scfg_obit scfg) config_expiry k secret).
Proof.
  intros Hc -> Hs. unfold parseServerConfig. pose proof (config_tags_writable _ Hc) as Hw.
  assert (ServerConfig_Get scfg = HandshakeMessage_Write (mkMessage TagSCFG (config_tags scfg)) ++ []) as E
    by (by rewrite app_nil_r).
  rewrite E at 1. rewrite (writable_parses TagSCFG 6 _ [] ltac:(concrete_u32) ltac:(lia) Hw). cbn [mbind result_bind hm_Tag hm_Data].
  rewrite Z.eqb_refl. cbn [ensure mbind result_bind]. destruct Hc as [[L1 _] [L2 _] [L3 _]].
  unfold parseValues, config_value.
  assert (config_tags scfg !! TagSCID = Some (scfg_ID scfg)) as -> by (unfold config_tags; find_tag).
  assert (config_tags scfg !! TagKEXS = Some (string_bytes "C255")) as -> by (unfold config_tags; find_tag).
  assert (config_tags scfg !! TagAEAD = Some (string_bytes "AESG")) as -> by (unfold config_tags; find_tag).
  assert (config_tags scfg !! TagPUBS = Some ([0x20; 0; 0] ++ PublicKey (scfg_kex scfg))) as -> by (unfold config_tags; find_tag).
  assert (config_tags scfg !! TagOBIT = Some (scfg_obit scfg)) as -> by (unfold config_tags; find_tag).
  assert (config_tags scfg !! TagEXPY = Some (replicate 8 0xff)) as -> by (unfold config_tags; find_tag).
  destruct (group_found "C255"%string (or_introl eq_refl)) as [G1 G2], (group_found "AESG"%string (or_intror eq_refl)) as [G3 G4].
  cbn [mbind result_bind]. rewrite L1. cbn [Nat.eqb ensure mbind result_bind].
  rewrite G1, G2. cbn [Nat.eqb ensure mbind result_bind]. rewrite G3, G4. cbn [Nat.eqb ensure mbind result_bind].
  rewrite bool_decide_eq_true_2 by (by eexists). cbn [ensure mbind result_bind].
  rewrite parse_one_pub by done. cbn [mbind result_bind lookup list_lookup].
  rewrite L3. cbn [Nat.eqb ensure mbind result_bind].
  rewrite Hs. cbn [mbind result_bind]. by rewrite L2.
Qed.

Section Client.
Context {CM : Type} `{CertManager CM} (env : client_env).
Implicit Types (h : cryptoSetupClient CM) (s : cryptoSetupServer).
Context (Hwrite : ∀ b, cl_Write env b = None) (Hnow : cl_now env <= config_expiry * Second).

(** The client has the configuration, a token and a nonce. *)
Definition told h (token : list Z) (c : serverConfigClient) (nonc : list Z) : cryptoSetupClient CM :=
  set_tokens (set_config h (Some c) (sc_raw c)) token (cl_sno h) nonc.

(** The configuration of [s] as this client reads it. *)
Definition read_config s (k : KeyExchange) (secret : list Z) : serverConfigClient :=
  mkConfigClient (ServerConfig_Get (srv_scfg s)) (scfg_ID (srv_scfg s)) (scfg_obit (srv_scfg s)) config_expiry k secret.

Definition shares_key s (k : KeyExchange) (secret : list Z) : Prop :=
  cl_newKEX env = Ok k ∧ CalculateSharedKey k (PublicKey (scfg_kex (srv_scfg s))) = Ok secret.

Definition new_nonce s (r : list Z) : list Z :=
  WriteUint32 BigEndian (u32 (cl_now env / Second)) ++ scfg_obit (srv_scfg s) ++ r.

Lemma generateClientNonce_ok h c r :
  cl_nonc h = [] → serverConfig h = Some c → length (sc_obit c) = 8%nat → cl_random env = Some r →
  generateClientNonce env h = (Ok tt, set_tokens h (cl_stk h) (cl_sno h)
    (WriteUint32 BigEndian (u32 (cl_now env / Second)) ++ sc_obit c ++ r)).
Proof using.
  intros Hn Hc Hl Hr. unfold generateClientNonce. runs by reflexivity. runs by (by rewrite Hn).
  rewrite Hc, Hr. runs by (by rewrite Hl). by runs by reflexivity.
Qed.

(** Taking the configuration from a rejection. *)
Lemma take_config_ok data h s k secret nonc :
  data !! TagSCFG = Some (ServerConfig_Get (srv_scfg s)) → config_ok (srv_scfg s) → shares_key s k secret →
  (cl_nonc h = nonc ∧ nonc <> [] ∨ cl_nonc h = [] ∧ ∃ r, cl_random env = Some r ∧ nonc = new_nonce s r) →
  take_config env data h = (Ok tt, told h (cl_stk h) (read_config s k secret) nonc).
Proof using Hnow.
  intros Hd Hc [Hk Hs] Hn. unfold take_config. rewrite Hd, (config_read _ _ _ _ Hc Hk Hs).
  runs by reflexivity. runs by reflexivity.
  runs by (unfold IsExpired; cbn [sc_expiry]; by destruct (Z.ltb_spec (config_expiry * Second) (cl_now env)); [lia|]).
  runs by reflexivity. runs by reflexivity. cbn [cl_nonc set_config].
  destruct Hn as [[<- Hne]|(E & r & Hr & ->)].
  - destruct (cl_nonc h) as [|x l] eqn:En; [done|]. cbn [length Nat.eqb]. unfold mret, proc_ret, told. by destruct h; cbn in *; subst.
  - rewrite E. cbn [length Nat.eqb]. rewrite (generateClientNonce_ok _ (read_config s k secret) r); [done|done|done|apply Hc|done].
Qed.

(** Without keys the client sends another hello. *)
Lemma head_speaks h :
  serverVerified h = false ∨ cl_diversificationNonce h = [] → cl_secureAEAD h = None →
  clientHelloCounter h < MaxClientHellos → client_head env h = (Ok tt, said h).
Proof using Hwrite.
  intros Hv Hs Hn. unfold client_head. erewrite proc_bind_ok.
  - runs by reflexivity. rewrite Hs. by apply sendCHLO_ok.
  - unfold maybeUpgradeCrypto. runs by reflexivity. rewrite Hs. destruct (serverVerified h); [|done]. cbn [negb].
    destruct Hv as [|Hd]; [done|]. destruct (serverConfig h) as [c|]; [|done]. unfold can_upgrade. rewrite Hd.
    by rewrite andb_false_r.
Qed.

Lemma take_tokens_ok data h token :
  data !! TagSTK = Some token → data !! TagSNO = None →
  take_tokens data h = (Ok tt, set_tokens h token (cl_sno h) (cl_nonc h)).
Proof using. intros H1 H2. unfold take_tokens, change. by rewrite H1, H2. Qed.

(** The first rejection. *)
Lemma turn_rejected h s token k secret r :
  config_ok (srv_scfg s) → shares_key s k secret → cl_random env = Some r → cl_nonc h = [] →
  cm_GetLeafCert (cl_certManager h) = None → serverVerified h = false → cl_secureAEAD h = None →
  clientHelloCounter h < MaxClientHellos →
  client_turn env (EvMessage (mkMessage TagREJ (rejection s token))) h
  = (Ok tt, said (told h token (read_config s k secret) (new_nonce s r))).
Proof using Hnow Hwrite.
  intros Hc Hk Hr Hn Hl Hv Hs Hcount. unfold client_turn. erewrite proc_bind_ok; [by apply head_speaks; [left|..]|].
  unfold client_receive. runs by reflexivity. cbn [hm_Tag hm_Data]. rewrite Z.eqb_refl. unfold handleREJMessage.
  runs by (apply take_tokens_ok; unfold rejection; find_tag).
  runs by (apply (take_config_ok _ _ s k secret (new_nonce s r)); [unfold rejection; find_tag|done..|right; eauto]).
  unfold take_proof, take_certs.
  assert (rejection s token !! TagPROF = None) as -> by (unfold rejection; find_tag).
  assert (rejection s token !! TagCERT = None) as -> by (unfold rejection; find_tag).
  runs by reflexivity. runs by reflexivity. unfold check_proof. runs by reflexivity.
  cbn [told set_tokens set_config serverConfig cl_certManager]. by rewrite Hl.
Qed.

(** The client has verified the server. *)
Definition convinced h (token : list Z) (c : serverConfigClient) (proof crt : list Z) (cm : CM) : cryptoSetupClient CM :=
  set_proof (set_certs (told h token c (cl_nonc h)) cm crt) proof (lastSentCHLO h) true.

(** The second one. *)
Lemma turn_convinced h s token k secret proof crt cm leaf :
  config_ok (srv_scfg s) → shares_key s k secret → cl_nonc h <> [] → cl_diversificationNonce h = [] →
  cl_secureAEAD h = None → clientHelloCounter h < MaxClientHellos →
  SetData (cl_certManager h) crt = Ok cm → Verify cm certificate_host = None → cm_GetLeafCert cm = Some leaf →
  proof <> [] → VerifyServerProof cm proof (lastSentCHLO h) (ServerConfig_Get (srv_scfg s)) = true →
  client_turn env (EvMessage (mkMessage TagREJ (rejection_certs s token proof crt))) h
  = (Ok tt, said (convinced h token (read_config s k secret) proof crt cm)).
Proof using Hnow Hwrite.
  intros Hc Hk Hn Hd Hs Hcount Hset Hver Hleaf Hp Hproof. unfold client_turn.
  erewrite proc_bind_ok; [by apply head_speaks; [right|..]|].
  unfold client_receive. runs by reflexivity. cbn [hm_Tag hm_Data]. rewrite Z.eqb_refl. unfold handleREJMessage.
  runs by (apply take_tokens_ok; unfold rejection_certs, rejection; find_tag).
  runs by (apply (take_config_ok _ _ s k secret (cl_nonc h)); [unfold rejection_certs, rejection; find_tag|done..|by left]).
  unfold take_proof, take_certs.
  assert (rejection_certs s token proof crt !! TagPROF = Some proof) as -> by (unfold rejection_certs; find_tag).
  assert (rejection_certs s token proof crt !! TagCERT = Some crt) as -> by (unfold rejection_certs; find_tag).
  runs by reflexivity. erewrite proc_bind_ok; [|].
  2:{ runs by reflexivity. runs by (cbn; by rewrite Hset). runs by reflexivity. apply require_true. by rewrite Hver. }
  unfold check_proof. runs by reflexivity. cbn [told set_tokens set_config set_proof set_certs serverConfig cl_certManager cl_proof chloForSignature sc_raw read_config].
  rewrite Hleaf. assert ((length proof =? 0)%nat = false) as -> by (by destruct proof). runs by (exact Hproof). reflexivity.
Qed.

(** The diversification nonce completes what the first keys are made of. *)
Definition secured h (div : list Z) (a : AEAD) : cryptoSetupClient CM :=
  set_changed (set_client_keys (set_client_divnonce h div) (Some a) (cl_forwardSecureAEAD h) (cl_receivedSecurePacket h))
    (cl_aeadChanged h ++ [EncryptionSecure]) (cl_aeadClosed h).

Lemma turn_divnonce h c div a :
  serverConfig h = Some c → serverVerified h = true → cl_secureAEAD h = None → cl_aeadClosed h = false →
  cl_diversificationNonce h = [] → can_upgrade (set_client_divnonce h div) c = true →
  cl_keyDerivation env false (sc_sharedSecret c) (cl_nonc h ++ default [] (cl_sno h)) (cl_connID h) (lastSentCHLO h)
    (sc_raw c) (leaf_bytes h) div PerspectiveClient = Ok a →
  client_turn env (EvDivNonce div) h = (Ok tt, secured h div a).
Proof using.
  intros Hc Hv Hs Hclosed Hd Hup Hk. unfold client_turn. erewrite proc_bind_ok.
  2:{ unfold client_receive. runs by reflexivity. runs by (by rewrite Hd). reflexivity. }
  unfold client_head. erewrite proc_bind_ok.
  2:{ unfold maybeUpgradeCrypto. runs by reflexivity.
      cbn [set_client_divnonce serverVerified cl_secureAEAD serverConfig cl_nonc cl_sno cl_connID lastSentCHLO cl_diversificationNonce].
      rewrite Hv, Hs, Hc, Hup. cbn [negb]. unfold leaf_bytes in *. cbn [set_client_divnonce cl_certManager]. rewrite Hk.
      runs by reflexivity. runs by reflexivity. unfold announce_level. runs by reflexivity.
      cbn [set_client_divnonce set_client_keys cl_aeadClosed]. rewrite Hclosed. reflexivity. }
  runs by reflexivity. unfold secured. by rewrite Hclosed.
Qed.

Lemma opens_secure h a src pn ad data :
  cl_secureAEAD h = Some a → cl_forwardSecureAEAD h = None → AEAD_Open a src pn ad = Ok data →
  client_Open src pn ad h = (Ok (data, EncryptionSecure), set_client_keys h (Some a) None true).
Proof using. intros Hs Hf Ho. unfold client_Open. by rewrite Hs, Hf, Ho. Qed.

(** The server's hello. *)
Definition finished h (sno : list Z) (fs : AEAD) (ps : connectionParametersManager) : cryptoSetupClient CM :=
  set_changed (set_rest (set_client_keys (set_tokens h (cl_stk h) (Some sno) (cl_nonc h)) (cl_secureAEAD h) (Some fs)
    (cl_receivedSecurePacket h)) ps (cl_files h)) (cl_aeadChanged h ++ [EncryptionForwardSecure]) true.

Lemma turn_finished h c a data sno pubs ver secret fs ps :
  serverConfig h = Some c → cl_secureAEAD h = Some a → cl_receivedSecurePacket h = true → cl_aeadClosed h = false →
  cl_cache h = false → data !! TagSNO = Some sno → data !! TagPUBS = Some pubs → data !! TagVER = Some ver →
  validateVersionList (cl_negotiatedVersions h) ver = true → CalculateSharedKey (sc_kex c) pubs = Ok secret →
  cl_keyDerivation env true secret (cl_nonc h ++ sno) (cl_connID h) (lastSentCHLO h) (sc_raw c) (leaf_bytes h) []
    PerspectiveClient = Ok fs →
  SetFromMap (cl_parameters h) data = (None, ps) →
  client_turn env (EvMessage (mkMessage TagSHLO data)) h = (Ok tt, finished h sno fs ps).
Proof using.
  intros Hc Hs Hrec Hclosed Hcache D1 D2 D3 Hver Hk Hkd Hps. unfold client_turn. erewrite proc_bind_ok.
  2:{ unfold client_receive. runs by reflexivity. cbn [hm_Tag hm_Data].
      change (TagSHLO =? TagREJ) with false. rewrite Z.eqb_refl, Hcache. erewrite proc_bind_ok; [reflexivity|].
      unfold handleSHLOMessage. runs by reflexivity. runs by (exact Hrec). rewrite D1. runs by reflexivity.
      runs by (exact D2). runs by (exact D3). runs by (exact Hver). runs by reflexivity.
      cbn [set_tokens serverConfig]. rewrite Hc. runs by (exact Hk).
      cbn [set_tokens cl_nonc cl_sno cl_connID lastSentCHLO cl_parameters]. unfold leaf_bytes in *.
      cbn [set_tokens cl_certManager]. change (default [] (Some sno)) with sno. rewrite Hkd, Hps.
      runs by reflexivity. runs by reflexivity. runs by reflexivity. runs by (by rewrite bool_decide_true).
      unfold announce_level. runs by reflexivity. cbn [set_rest set_client_keys set_tokens cl_aeadClosed]. rewrite Hclosed.
      reflexivity. }
  assert (∀ h', cl_secureAEAD h' = Some a → client_head env h' = (Ok tt, h')) as Hhead; [|by apply Hhead].
  intros h' E. unfold client_head. erewrite (proc_bind_ok _ _ _ tt h'); [runs by reflexivity; by rewrite E|].
  unfold maybeUpgradeCrypto. runs by reflexivity. rewrite E. by destruct (negb _).
Qed.

End Client.

(** ** Parameters *)

Lemma param_ext params params' t allowed use st :
  params !! t = params' !! t → param params t allowed use st = param params' t allowed use st.
Proof. intros E. unfold param. by rewrite E. Qed.

(** Only the tags of a hello matter. *)
Lemma SetFromMap_tags h params from :
  (∀ t, t ∈ hello_tags → params !! t = GetHelloMap from !! t) →
  (cp_perspective h = PerspectiveClient ∨ params !! TagTCID = None) →
  parameters_ok from → flowControlNegotiated h = false → SetFromMap h params = (None, taken_over h from).
Proof.
  intros Ht Hp Hok Hn. rewrite <- (SetFromMap_hello h from Hok Hn).
  assert (GetHelloMap from !! TagTCID = None) as Htcid by (unfold GetHelloMap; find_tag).
  assert (∀ t, t ∈ hello_tags → ∀ allowed use st, param params t allowed use st = param (GetHelloMap from) t allowed use st)
    as Hext by (intros; apply param_ext; by apply Ht).
  unfold SetFromMap, read_limits. rewrite !(Ht TagSFCW), !(Ht TagCFCW) by (unfold hello_tags; set_solver).
  rewrite !(Hext TagMSPC), !(Hext TagMIDS), !(Hext TagICSL), !(Hext TagSFCW), !(Hext TagCFCW) by (unfold hello_tags; set_solver).
  destruct (cp_perspective h); [|done]. destruct Hp as [|Hp]; [done|].
  by rewrite (param_ext params (GetHelloMap from) TagTCID) by congruence.
Qed.

(** A server that is asked to leave out connection IDs. *)
Lemma SetFromMap_truncated h params from :
  (∀ t, t ∈ hello_tags → params !! t = GetHelloMap from !! t) →
  cp_perspective h = PerspectiveServer → params !! TagTCID = Some [0; 0; 0; 0] →
  parameters_ok from → flowControlNegotiated h = false →
  SetFromMap h params = (None, taken_over (set_truncate h true) from).
Proof.
  intros Ht Hp Htcid Hok Hn. rewrite <- (SetFromMap_tags (set_truncate h true) (delete TagTCID params) from).
  - assert (∀ t, t ∈ hello_tags → ∀ allowed use st, param params t allowed use st = param (delete TagTCID params) t allowed use st) as Hext.
    { intros t Hin allowed use st. apply param_ext. rewrite lookup_delete_ne; [done|]. intros <-.
      revert Hin. apply (bool_decide_unpack _). by vm_compute. }
    unfold SetFromMap, read_limits. rewrite !(Hext TagMSPC), !(Hext TagMIDS), !(Hext TagICSL), !(Hext TagSFCW), !(Hext TagCFCW) by (unfold hello_tags; set_solver).
    rewrite !(lookup_delete_ne _ TagTCID) by other_tag. cbn [set_truncate cp_perspective]. rewrite Hp.
    rewrite (param_absent (delete TagTCID params) TagTCID) by apply lookup_delete_eq. by rewrite (param_present params TagTCID _ _ _ 0).
  - intros t Hin. rewrite lookup_delete_ne; [by apply Ht|]. intros <-. revert Hin. apply (bool_decide_unpack _). by vm_compute.
  - right. apply lookup_delete_eq.
  - done.
  - done.
Qed.

Lemma taken_over_ok h from :
  parameters_ok h → parameters_ok from → parameters_ok (taken_over h from).
Proof.
  intros (H1 & H2 & H3 & H4) Hf. pose proof (idle_seconds_u32 _ Hf) as Hi. destruct Hf as (G1 & G2 & G3 & G4).
  unfold parameters_ok, taken_over, is_u32 in *. cbn. unfold MaxStreamsPerConnection, Second, Millisecond, Microsecond in *.
  split_and!; lia.
Qed.

(** ** The crypto stream *)

Section Streams.
Context {CM Cookie : Type} `{CertManager CM} (env : server_env Cookie).
Implicit Types (h : cryptoSetupClient CM) (s : cryptoSetupServer).

(** One hello after the other. *)
Lemma stream_hello h rest s done s' :
  hello_fits h → handleMessage env (HandshakeMessage_Write (hello_message h)) (hello h) s = (Ok done, s') →
  server_HandleCryptoStream env (HandshakeMessage_Write (hello_message h) ++ rest) s
  = if (done : bool) then (Ok tt, s') else server_HandleCryptoStream env rest s'.
Proof using.
  intros Hf Hm. unfold server_HandleCryptoStream at 1. cbn [server_loop]. rewrite hello_read by done.
  runs by reflexivity. rewrite length_app, Nat.add_sub, take_app_length. runs by (exact Hm).
  destruct done; [done|]. apply server_loop_fuel. pose proof (hello_long h). unfold ClientHelloMinimumSize in *. lia.
Qed.

Lemma stream_end s : server_HandleCryptoStream env [] s = (Err (ErrorCode HandshakeFailed), s).
Proof using. done. Qed.

End Streams.

(** The messages in a stream of bytes. *)
Fixpoint reads (ms : list HandshakeMessage) (stream : list Z) : Prop :=
  match ms with
  | [] => stream = []
  | m :: ms => ∃ rest, ParseHandshakeMessage stream = Ok (m, rest) ∧ reads ms rest
  end.

Definition message_writable (m : HandshakeMessage) : Prop := is_u32 (hm_Tag m) ∧ writable 128 (hm_Data m).

Lemma reads_written ms :
  Forall message_writable ms → ∀ stream, stream = concat (HandshakeMessage_Write <$> ms) → reads ms stream.
Proof.
  intros H stream ->. induction H as [|[t m] ms [Ht Hm] Hms IH]; [done|]. cbn [fmap list_fmap concat reads]. eexists.
  split; [by apply (writable_parses _ 128)|done].
Qed.

(** *** Sizes of the server's messages *)

Lemma tags_size_insert t v m : tags_size (<[t := v]> m) <= tags_size m + (8 + Z.of_nat (length v)).
Proof.
  destruct (m !! t) as [w|] eqn:E.
  - rewrite <- (insert_delete_eq m t v). unfold tags_size. rewrite map_fold_insert_L; [|intros; lia|apply lookup_delete_eq].
    rewrite (map_fold_delete_L _ _ t w m); [lia|intros; lia|done].
  - unfold tags_size. rewrite map_fold_insert_L; [lia|intros; lia|done].
Qed.

Lemma tags_size_add t v m n k :
  Z.of_nat (length v) <= k → tags_size m <= n → tags_size (<[t := v]> m) <= n + (8 + k).
Proof. intros Hv Hm. pose proof (tags_size_insert t v m). lia. Qed.

Lemma Write_bytes t n m : writable n m → bytes_ok (HandshakeMessage_Write (mkMessage t m)).
Proof.
  intros [_ Hm]. unfold HandshakeMessage_Write. pose proof (message_entries (mkMessage t m) Hm) as He. cbn [hm_Data hm_Tag] in *.
  destruct (write_entries_index m 0 (getTagsSorted (mkMessage t m))) as [_ Hb].
  destruct Hb as [H1 H2]; [eapply Forall_impl; [exact He|]; by intros x [_ [Hx _]]|].
  destruct (write_entries _ _ _) as [index values]. rewrite write_32, !write_16. unfold enc, LittleEndian_laws.
  repeat apply bytes_ok_app; (done || apply le_split_bytes).
Qed.

Lemma config_value_ok scfg : config_ok scfg → value_ok (ServerConfig_Get scfg).
Proof.
  intros Hc. split; [eapply Write_bytes, config_tags_writable, Hc|]. destruct Hc as [[L1 _] [L2 _] [L3 _]].
  unfold ServerConfig_Get. rewrite Write_length. fold (config_tags scfg).
  assert (tags_size (config_tags scfg) <= 0 + (8 + 8) + (8 + 8) + (8 + 35) + (8 + 4) + (8 + 4) + (8 + 16)) as Hs;
    [|unfold CryptoParameterMaxLength; lia].
  unfold config_tags. repeat (apply tags_size_add; [rewrite ?length_app, ?L1, ?L2, ?L3; vm_compute; congruence|]). done.
Qed.

(** ** Keys *)

Section Primitives.
Context (newGCM : list Z → result cipherAEAD) (hkdf : list Z → list Z → list Z → nat → result (list Z)).
Context (ScalarMult : list Z → list Z → list Z) (ScalarBaseMult : list Z → list Z).

(** What the handshake relies on: a cipher opens what it sealed and takes keys of sixteen bytes, HKDF gives as
    many bytes as it is asked for, multiplications commute and have results of 32 bytes. *)
Record primitives_ok : Prop := {
  prim_cipher k c : newGCM k = Ok c → cipher_ok c;
  prim_key k : length k = 16%nat → ∃ c, newGCM k = Ok c;
  prim_hkdf secret salt info n : ∃ l, hkdf secret salt info n = Ok l ∧ length l = n;
  prim_commute a b : ScalarMult a (ScalarBaseMult b) = ScalarMult b (ScalarBaseMult a);
  prim_base a : length (ScalarBaseMult a) = 32%nat ∧ bytes_ok (ScalarBaseMult a);
  prim_mult a p : length (ScalarMult a p) = 32%nat;
}.

Notation derive := (DeriveQuicCryptoAESKeys newGCM hkdf).
Notation newKEX := (NewCurve25519KEX ScalarMult ScalarBaseMult).

Lemma gcm_total k1 k2 iv1 iv2 :
  primitives_ok → length k1 = 16%nat → length k2 = 16%nat → length iv1 = 4%nat → length iv2 = 4%nat →
  ∃ a, NewAEADAESGCM12 newGCM k1 k2 iv1 iv2 = Ok a.
Proof using.
  intros HP L1 L2 L3 L4. destruct (prim_key HP _ L1) as [c1 E1], (prim_key HP _ L2) as [c2 E2].
  unfold NewAEADAESGCM12. rewrite L1, L2, L3, L4, E1, E2. by eexists.
Qed.

Lemma derive_total forward secret nonces connID chlo scfg cert div pers :
  primitives_ok → ∃ a, derive forward secret nonces connID chlo scfg cert div pers = Ok a.
Proof using.
  intros HP. unfold DeriveQuicCryptoAESKeys, deriveKeys.
  destruct (prim_hkdf HP secret nonces (string_bytes (if forward then "QUIC forward secure key expansion" else "QUIC key expansion")
    ++ [0] ++ WriteUint64 LittleEndian connID ++ chlo ++ scfg ++ cert) (2 * 16 + 2 * 4)) as (l & -> & Hl). cbn [mbind result_bind].
  assert (∃ k2 iv2, (if forward then Ok (take 16 (drop 16 l), drop (2 * 16 + 4) l)
      else diversify hkdf (take 16 (drop 16 l)) (drop (2 * 16 + 4) l) div) = Ok (k2, iv2) ∧ length k2 = 16 ∧ length iv2 = 4)%nat
    as (k2 & iv2 & -> & L2 & L4).
  { destruct forward; [do 2 eexists; split; [done|]; rewrite length_take, !length_drop; lia|]. unfold diversify.
    rewrite length_take, !length_drop, Hl.
    destruct (prim_hkdf HP (take 16 (drop 16 l) ++ drop (2 * 16 + 4) l) div (string_bytes "QUIC key diversification") 20) as (l' & E & Hl').
    change (16 `min` (2 * 16 + 2 * 4 - 16) + (2 * 16 + 2 * 4 - (2 * 16 + 4)))%nat with 20%nat. rewrite E. cbn [mbind result_bind].
    do 2 eexists. split; [done|]. rewrite length_take, length_drop, Hl'. lia. }
  cbn [mbind result_bind]. destruct pers; cbn [mbind result_bind]; apply gcm_total; try done;
    rewrite length_take, ?length_drop; lia.
Qed.

(** The two sides derive keys from the same. *)
Lemma derive_both forward secret nonces connID chlo scfg cert div :
  primitives_ok → ∃ a b,
    derive forward secret nonces connID chlo scfg cert div PerspectiveClient = Ok a ∧
    derive forward secret nonces connID chlo scfg cert div PerspectiveServer = Ok b ∧ AEADPair a b ∧ AEADPair b a.
Proof using.
  intros HP. destruct (derive_total forward secret nonces connID chlo scfg cert div PerspectiveClient HP) as [a Ea].
  destruct (derive_total forward secret nonces connID chlo scfg cert div PerspectiveServer HP) as [b Eb].
  pose proof (derive_pair newGCM hkdf (prim_cipher HP) forward secret nonces connID chlo scfg cert div) as Hd.
  rewrite Ea, Eb in Hd. eauto.
Qed.

(** A key pair of either side. *)
Definition curve_key (k : KeyExchange) : Prop := ∃ r, newKEX (Some r) = Ok k.

Lemma curve_public k : primitives_ok → curve_key k → length (PublicKey k) = 32%nat ∧ bytes_ok (PublicKey k).
Proof using. intros HP [r [= <-]]. apply (prim_base HP). Qed.

Lemma curve_shared k1 k2 :
  primitives_ok → curve_key k1 → curve_key k2 →
  ∃ secret, CalculateSharedKey k1 (PublicKey k2) = Ok secret ∧ CalculateSharedKey k2 (PublicKey k1) = Ok secret ∧
    nonempty secret = true.
Proof using.
  intros HP [r1 E1] [r2 E2].
  destruct (kex_agrees _ _ _ _ _ _ (prim_commute HP) (λ a, proj1 (prim_base HP a)) E1 E2) as (x & H1 & H2).
  exists x. split_and!; [done..|]. injection E1 as <-. cbn in H1. destruct (length _ =? 32)%nat in H1; [|done].
  injection H1 as <-. unfold nonempty. by rewrite (prim_mult HP).
Qed.

End Primitives.

(** ** The exchange *)

Section Exchange.
Context {CM Cookie : Type} `{CertManager CM}.
Context (newGCM : list Z → result cipherAEAD) (hkdf : list Z → list Z → list Z → nat → result (list Z)).
Context (ScalarMult : list Z → list Z → list Z) (ScalarBaseMult : list Z → list Z).
Context (HP : primitives_ok newGCM hkdf ScalarMult ScalarBaseMult).

Notation derive := (DeriveQuicCryptoAESKeys newGCM hkdf).
Notation curve := (curve_key ScalarMult ScalarBaseMult).

(** The two sides, and what they use: the certificate manager of the client before and after it gets the
    certificates, the server's calls, its token and nonces, its certificate and the compressed chain. *)
Context (hostname : list Z) (connID version : Z) (cm cm' : CM) (client_null server_null : AEAD).
Context (client_ps server_ps : connectionParametersManager) (truncation : bool) (versions supported : list Z).
Context (scfg : ServerConfig) (env : server_env Cookie) (token sno div leaf crt : list Z).

(** The calls of a client that succeed. *)
Record client_env_ok (e : client_env) : Prop := {
  ce_now : cl_now e <= config_expiry * Second;
  ce_kex : ∃ k, cl_newKEX e = Ok k ∧ curve k;
  ce_random : ∃ r, cl_random e = Some r ∧ length r = 20%nat ∧ bytes_ok r;
  ce_keys : cl_keyDerivation e = derive;
  ce_write b : cl_Write e b = None;
}.

Definition perspective_ok (ps : connectionParametersManager) (p : Perspective) : Prop :=
  parameters_ok ps ∧ flowControlNegotiated ps = false ∧ cp_perspective ps = p.

(** What the client has to find at the server: *)
Record parties_ok : Prop := {
  (** its values fit a message, and both sides speak the same version *)
  po_host : hostname <> [] ∧ value_ok hostname;
  po_version : 0 <= version < 1000;
  po_versions : validateVersionList versions (concat ((λ v, WriteUint32 LittleEndian (VersionNumberToTag v)) <$> supported)) = true
    ∧ (length supported <= 1000)%nat;
  po_ps : perspective_ok client_ps PerspectiveClient ∧ perspective_ok server_ps PerspectiveServer;
  (** the configuration of the server has a key *)
  po_ID : length (scfg_ID scfg) = 16%nat ∧ bytes_ok (scfg_ID scfg);
  po_obit : length (scfg_obit scfg) = 8%nat ∧ bytes_ok (scfg_obit scfg);
  po_kex : curve (scfg_kex scfg) ∧ curve (srv_keyExchange env);
  (** the server has a certificate that the client can read and trusts, and signs with it *)
  po_leaf : GetLeafCert (scfg_certChain scfg) hostname = Ok leaf ∧ leaf <> [];
  po_crt : GetCertsCompressed (scfg_certChain scfg) hostname (GetCommonCertificateHashes cm) [] = Ok crt ∧ value_ok crt;
  po_hashes : value_ok (GetCommonCertificateHashes cm) ∧ value_ok (GetCommonCertificateHashes cm');
  po_before : cm_GetLeafCert cm = None;
  po_data : SetData cm crt = Ok cm' ∧ Verify cm' certificate_host = None ∧ cm_GetLeafCert cm' = Some leaf ∧
    GetLeafCertHash cm' = HashCert leaf;
  po_proof chlo : ∃ proof, ServerConfig_Sign scfg hostname chlo = Ok proof ∧ proof <> [] ∧ value_ok proof ∧
    VerifyServerProof cm' proof chlo (ServerConfig_Get scfg) = true;
  (** the server accepts its own tokens, but not to have none *)
  po_token : stk_NewToken env = Ok token ∧ value_ok token ∧ acceptSTK env token = true ∧ acceptSTK env [] = false;
  po_nonces : srv_serverNonce env = Some sno ∧ value_ok sno ∧ srv_divNonce env = Some div ∧ div <> [];
  po_keys : srv_keyDerivation env = derive;
  po_write b : srv_Write env b = None;
}.

Context (Hok : parties_ok).

Definition client0 : cryptoSetupClient CM :=
  NewCryptoSetupClient hostname connID version cm client_null client_ps truncation false versions ∅.
Definition server0 : cryptoSetupServer := NewCryptoSetup connID version supported scfg server_null server_ps.

(** The client before its second and its third hello. *)
Definition second (c : serverConfigClient) (nonc : list Z) : cryptoSetupClient CM := told (said client0) token c nonc.
Definition third c nonc (c' : serverConfigClient) (proof : list Z) : cryptoSetupClient CM :=
  convinced (said (second c nonc)) token c' proof crt cm'.

Lemma scfg_ok : config_ok scfg.
Proof using Hok HP.
  destruct Hok. split; [done..|]. by eapply curve_public, proj1.
Qed.

(** A configuration as a client of this section reads it. *)
Definition own_config (c : serverConfigClient) : Prop :=
  ∃ k secret, c = read_config server0 k secret ∧ curve k ∧ nonempty secret = true ∧
    CalculateSharedKey (scfg_kex scfg) (PublicKey k) = Ok secret.

Definition own_nonce (n : list Z) : Prop :=
  length n = 32%nat ∧ take 8 (drop 4 n) = scfg_obit scfg ∧ bytes_ok n.

Lemma env_shares_key e : client_env_ok e → ∃ k secret, shares_key e server0 k secret ∧ own_config (read_config server0 k secret).
Proof using Hok HP.
  intros He. destruct (ce_kex _ He) as (k & Hk & Hc). destruct (po_kex Hok) as [Hc' _].
  destruct (curve_shared _ _ _ _ _ _ HP Hc Hc') as (x & E1 & E2 & Hx). exists k, x. split; [done|]. by exists k, x.
Qed.

Lemma new_nonce_own e r : length r = 20%nat → bytes_ok r → own_nonce (new_nonce e server0 r).
Proof using Hok.
  intros Hr Hb. destruct (po_obit Hok) as [Hl Hb']. unfold new_nonce, own_nonce. cbn [srv_scfg server0 NewCryptoSetup].
  rewrite write_32. unfold enc, BigEndian_laws. rewrite !length_app, length_reverse, length_le_split, Hl, Hr.
  split_and!; [done| |].
  - rewrite drop_app_length', take_app_length'; [done|done|by rewrite length_reverse, length_le_split].
  - repeat apply bytes_ok_app; [|done..]. apply Forall_reverse, le_split_bytes.
Qed.

Lemma value_ok_nil : value_ok [].
Proof using. split; [apply bytes_ok_nil|vm_compute; congruence]. Qed.

Lemma nonce_value_ok n : own_nonce n → value_ok n.
Proof using. intros (Hl & _ & Hb). split; [done|]. rewrite Hl. vm_compute. congruence. Qed.

Lemma config_values_ok c : own_config c → value_ok (sc_ID c) ∧ value_ok (PublicKey (sc_kex c)).
Proof using Hok HP.
  intros (k & secret & -> & Hk & _). destruct (po_ID Hok) as [L1 B1]. destruct (curve_public _ _ _ _ _ HP Hk) as [L2 B2].
  split; split; cbn; [done|rewrite L1|done|rewrite L2]; vm_compute; congruence.
Qed.

Lemma first_fits : hello_fits client0.
Proof using Hok. destruct Hok as [[]]. split; cbn; try done; try apply value_ok_nil. by destruct po_hashes0. Qed.

Lemma second_fits c nonc : own_config c → own_nonce nonc → hello_fits (second c nonc).
Proof using Hok HP.
  intros Hc Hn. destruct Hok as [[_ ?] _ _ _ _ _ _ _ _ [? _] _ _ _ (_ & ? & _) _ _ _].
  split; cbn; try done; [apply value_ok_nil|by apply nonce_value_ok|]. intros ? [= <-]. by apply config_values_ok.
Qed.

Lemma third_fits c nonc c' proof : own_config c' → own_nonce nonc → hello_fits (third c nonc c' proof).
Proof using Hok HP.
  intros Hc Hn. destruct Hok as [[_ ?] _ _ _ _ _ _ _ _ [_ ?] _ _ _ (_ & ? & _) _ _ _].
  split; cbn; try done; [apply value_ok_nil|by apply nonce_value_ok|]. intros ? [= <-]. by apply config_values_ok.
Qed.

(** *** The client's steps *)

Lemma starts e : client_env_ok e → client_start e client0 = (Ok tt, said client0).
Proof using.
  intros He. unfold client_start. runs by reflexivity. runs by reflexivity. apply head_speaks; [apply He|by left|done|done].
Qed.

Lemma learns_config e :
  client_env_ok e → ∃ c nonc, own_config c ∧ own_nonce nonc ∧
    client_turn e (EvMessage (mkMessage TagREJ (rejection server0 token))) (said client0) = (Ok tt, said (second c nonc)).
Proof using Hok HP.
  intros He. destruct (env_shares_key e He) as (k & x & Hk & Hc). destruct (ce_random _ He) as (r & Hr & Hl & Hb).
  exists (read_config server0 k x), (new_nonce e server0 r). split_and!; [done|by apply new_nonce_own|].
  apply turn_rejected; [apply He|apply He|apply scfg_ok|done|done|done|apply (po_before Hok)|done|done|done].
Qed.

Lemma learns_certs e c nonc proof :
  client_env_ok e → own_nonce nonc → proof <> [] →
  VerifyServerProof cm' proof (HandshakeMessage_Write (hello_message (second c nonc))) (ServerConfig_Get scfg) = true →
  ∃ c', own_config c' ∧
    client_turn e (EvMessage (mkMessage TagREJ (rejection_certs server0 token proof crt))) (said (second c nonc))
    = (Ok tt, said (third c nonc c' proof)).
Proof using Hok HP.
  intros He (Hl & _) Hp Hv. destruct (env_shares_key e He) as (k & x & Hk & Hc). destruct (po_data Hok) as (D1 & D2 & D3 & _).
  exists (read_config server0 k x). split; [done|].
  assert (cl_nonc (said (second c nonc)) <> []) as Hn by (cbn; by destruct nonc).
  exact (turn_convinced e (ce_write _ He) (ce_now _ He) (said (second c nonc)) server0 token k x proof crt cm' leaf
    scfg_ok Hk Hn eq_refl eq_refl eq_refl D1 D2 D3 Hp Hv).
Qed.

(** *** The server's steps *)

Definition the_first : HandshakeMessage := mkMessage TagREJ (rejection server0 token).
Definition the_second (proof : list Z) : HandshakeMessage := mkMessage TagREJ (rejection_certs server0 token proof crt).

Lemma meets_ok (h : cryptoSetupClient CM) s :
  cl_hostname h = hostname → cl_version h = version → srv_version s = version → srv_scfg s = scfg → meets h s leaf.
Proof using Hok.
  intros H1 H2 H3 H4. destruct Hok as [[Hh _] Hv _ _ _ _ _ [Hl _] _ _ _ _ _ _ _ _ _]. split; rewrite ?H1, ?H2, ?H3, ?H4; done.
Qed.

Lemma rejects_first :
  handleMessage env (HandshakeMessage_Write (hello_message client0)) (hello client0) server0 = (Ok false, answered server0 the_first).
Proof using Hok.
  destruct (po_token Hok) as (T1 & _ & _ & T4).
  apply (hello_rejected env client0 server0 leaf); [by apply meets_ok|apply (po_before Hok)|apply (po_write Hok)|done|exact T4].
Qed.

Definition server1 : cryptoSetupServer := answered server0 the_first.

Lemma rejects_second c nonc :
  ∃ proof, proof <> [] ∧ value_ok proof ∧
    VerifyServerProof cm' proof (HandshakeMessage_Write (hello_message (second c nonc))) (ServerConfig_Get scfg) = true ∧
    handleMessage env (HandshakeMessage_Write (hello_message (second c nonc))) (hello (second c nonc)) server1
    = (Ok false, answered server1 (the_second proof)).
Proof using Hok.
  destruct (po_token Hok) as (T1 & _ & T3 & _). destruct (po_crt Hok) as [Hcrt _].
  destruct (po_proof Hok (HandshakeMessage_Write (hello_message (second c nonc)))) as (proof & P1 & P2 & P3 & P4).
  exists proof. split_and!; [done..|].
  assert (meets (second c nonc) server1 leaf) as Hm by (by apply meets_ok).
  exact (hello_rejected_certs env (second c nonc) server1 leaf token proof crt Hm (po_before Hok) (po_write Hok) T1 T3 P1 Hcrt).
Qed.

(** What the server takes over from the client's parameters. *)
Definition server_takes : connectionParametersManager :=
  taken_over (if truncation then set_truncate server_ps true else server_ps) client_ps.

Lemma third_parameters c nonc c' proof :
  SetFromMap server_ps (hello (third c nonc c' proof)) = (None, server_takes).
Proof using Hok.
  destruct (hello_carried (third c nonc c' proof)) as [_ _ _ _ _ _ _ F8 F9]. destruct (po_ps Hok) as [(P1 & _ & _) (_ & P2 & P3)].
  unfold server_takes. destruct truncation eqn:Et.
  - apply SetFromMap_truncated; [exact F9|done| |done..]. rewrite F8. cbn. by rewrite Et.
  - apply SetFromMap_tags; [exact F9| |done..]. right. rewrite F8. cbn. by rewrite Et.
Qed.

(** *** Keys *)

(** The keys of both sides: those of the client, those of the server, and the forward-secure ones. *)
Record keys_for (c : serverConfigClient) (nonc chlo : list Z) (a b fa fb : AEAD) : Prop := {
  kf_secure : derive false (sc_sharedSecret c) nonc connID chlo (ServerConfig_Get scfg) leaf div PerspectiveClient = Ok a ∧
    derive false (sc_sharedSecret c) nonc connID chlo (ServerConfig_Get scfg) leaf div PerspectiveServer = Ok b;
  kf_forward : ∃ secret, CalculateSharedKey (sc_kex c) (PublicKey (srv_keyExchange env)) = Ok secret ∧
    CalculateSharedKey (srv_keyExchange env) (PublicKey (sc_kex c)) = Ok secret ∧
    derive true secret (nonc ++ sno) connID chlo (ServerConfig_Get scfg) leaf [] PerspectiveClient = Ok fa ∧
    derive true secret (nonc ++ sno) connID chlo (ServerConfig_Get scfg) leaf [] PerspectiveServer = Ok fb;
  kf_pairs : AEADPair a b ∧ AEADPair b a ∧ AEADPair fa fb ∧ AEADPair fb fa;
}.

Lemma keys_exist c nonc chlo : own_config c → ∃ a b fa fb, keys_for c nonc chlo a b fa fb.
Proof using Hok HP.
  intros (k & x & -> & Hk & _). destruct (po_kex Hok) as [_ Hk'].
  destruct (curve_shared _ _ _ _ _ _ HP Hk Hk') as (y & Y1 & Y2 & _).
  destruct (derive_both _ _ _ _ false x nonc connID chlo (ServerConfig_Get scfg) leaf div HP) as (a & b & A1 & A2 & A3 & A4).
  destruct (derive_both _ _ _ _ true y (nonc ++ sno) connID chlo (ServerConfig_Get scfg) leaf [] HP) as (fa & fb & B1 & B2 & B3 & B4).
  exists a, b, fa, fb. split; [done|by exists y|done].
Qed.

Definition server2 (proof : list Z) : cryptoSetupServer := answered server1 (the_second proof).

Lemma can_upgrade_div (h : cryptoSetupClient CM) n c :
  can_upgrade (set_client_divnonce h n) c
  = nonempty (sc_sharedSecret c) && nonempty (cl_nonc h) && nonempty (leaf_bytes h) && nonempty n && nonempty (lastSentCHLO h).
Proof using. done. Qed.

Lemma nonempty_ne l : l <> [] → nonempty l = true.
Proof using. by destruct l. Qed.

#[local] Opaque HandshakeMessage_Write hello_message hello.

Section Third.
Context (c c' : serverConfigClient) (nonc proof : list Z) (a b fa fb : AEAD).
Context (Hc : own_config c') (Hn : own_nonce nonc).

Let h : cryptoSetupClient CM := third c nonc c' proof.
Let chlo : list Z := HandshakeMessage_Write (hello_message h).
Context (Hkeys : keys_for c' nonc chlo a b fa fb).

Lemma chlo_nonempty : nonempty chlo = true.
Proof using. unfold nonempty. destruct (Nat.eqb_spec (length chlo) 0) as [E|]; [|done]. pose proof (hello_long h) as Hl. fold chlo in Hl. by rewrite E in Hl. Qed.

Lemma leaf_there : leaf_bytes (said h) = leaf.
Proof using Hok. destruct (po_data Hok) as (_ & _ & D & _). unfold leaf_bytes. cbn. by rewrite D. Qed.

Lemma gets_secure e : client_env_ok e → client_turn e (EvDivNonce div) (said h) = (Ok tt, secured (said h) div a).
Proof using Hok Hc Hn Hkeys.
  intros He. destruct Hc as (k & x & E & _ & Hx & _). destruct (po_leaf Hok) as [_ Hl]. destruct (po_nonces Hok) as (_ & _ & _ & Hd).
  assert (sc_sharedSecret c' = x ∧ sc_raw c' = ServerConfig_Get scfg) as [E1 E2] by (by rewrite E).
  assert (cl_nonc (said h) = nonc) as Fn by reflexivity.
  assert (lastSentCHLO (said h) = chlo) as Fl by reflexivity.
  apply (turn_divnonce e _ c'); [reflexivity..| |].
  - rewrite can_upgrade_div, Fn, Fl, leaf_there, chlo_nonempty, E1, Hx, !(nonempty_ne leaf), (nonempty_ne div) by done.
    destruct Hn as (Hlen & _). unfold nonempty. by rewrite Hlen.
  - rewrite leaf_there, (ce_keys _ He), Fn, Fl, E2. change (default [] (cl_sno (said h))) with (@nil Z). rewrite app_nil_r.
    change (cl_connID (said h)) with connID. apply (kf_secure _ _ _ _ _ _ _ Hkeys).
Qed.

Lemma accepts_third :
  handleMessage env chlo (hello h) (server2 proof) = (Ok true, accepted env (server2 proof) div b fb server_takes sno).
Proof using Hok Hc Hn Hkeys.
  assert (meets h (server2 proof) leaf) as Hm by (by apply meets_ok). destruct (po_data Hok) as (_ & _ & D3 & D4).
  destruct (po_token Hok) as (_ & _ & T3 & _). destruct (po_nonces Hok) as (N1 & _ & N3 & _). destruct Hn as (Hlen & Hobit & _).
  destruct Hkeys as [[_ K2] (y & _ & Y2 & _ & K4) _]. destruct Hc as (k & x & E & _ & _ & Hx).
  apply (hello_accepted env h _ c' leaf); [done|split; [done|done|done|by rewrite E|done|done]| |apply (po_write Hok)].
  split; [|exists y; rewrite (po_keys Hok); done|done|apply third_parameters].
  exists x. rewrite (po_keys Hok). rewrite E in *. done.
Qed.

(** The client once it has opened a packet with the first keys. *)
Definition heard (h : cryptoSetupClient CM) : cryptoSetupClient CM := set_client_keys (secured (said h) div a) (Some a) None true.

Definition the_third : HandshakeMessage := mkMessage TagSHLO (server_hello env (server2 proof) sno server_takes).

Lemma third_lookups :
  let m := server_hello env (server2 proof) sno server_takes in
  m !! TagSNO = Some sno ∧ m !! TagPUBS = Some (PublicKey (srv_keyExchange env)) ∧
  m !! TagVER = Some (concat ((λ v, WriteUint32 LittleEndian (VersionNumberToTag v)) <$> supported)) ∧
  ∀ t, t ∈ hello_tags → m !! t = GetHelloMap server_takes !! t.
Proof using.
  unfold server_hello. change (srv_supportedVersions (server2 proof)) with supported. cbv zeta. split_and!; [find_tag..|].
  intros t Ht. unfold hello_tags in Ht. rewrite !elem_of_cons, elem_of_nil in Ht.
  destruct Ht as [->|[->|[->|[->|[->|[]]]]]]; by rewrite !lookup_insert_ne by other_tag.
Qed.

(** What the client must be like when the server's hello comes. *)
Record ready (g : cryptoSetupClient CM) : Prop := {
  rd_config : serverConfig g = Some c';
  rd_keys : cl_secureAEAD g = Some a ∧ cl_receivedSecurePacket g = true;
  rd_open : cl_aeadClosed g = false ∧ cl_cache g = false;
  rd_versions : cl_negotiatedVersions g = versions;
  rd_ID : cl_connID g = connID;
  rd_nonc : cl_nonc g = nonc;
  rd_last : lastSentCHLO g = chlo;
  rd_leaf : leaf_bytes g = leaf;
  rd_parameters : cl_parameters g = client_ps;
}.

Lemma ready_finishes e g :
  client_env_ok e → ready g →
  client_turn e (EvMessage the_third) g = (Ok tt, finished g sno fa (taken_over client_ps server_takes)).
Proof using Hok Hc Hkeys.
  intros He [R1 [R2 R3] [R4 R5] R6 R7 R8 R9 R10 R11]. destruct (po_ps Hok) as [(P1 & P2 & P3) (Q1 & _ & _)].
  destruct (po_versions Hok) as [V _]. destruct Hkeys as [_ (y & Y1 & _ & K3 & _) _]. destruct Hc as (k & x & E & _ & _ & _).
  assert (sc_raw c' = ServerConfig_Get scfg) as E2 by (by rewrite E).
  assert (parameters_ok server_takes) as Ht by (unfold server_takes; destruct truncation; by apply taken_over_ok).
  destruct third_lookups as (L1 & L2 & L3 & L4).
  eapply (turn_finished e g c' a _ sno _ _ y); [done..|exact L1|exact L2|exact L3|by rewrite R6|exact Y1| |].
  - rewrite (ce_keys _ He), R7, R8, R9, R10, E2. exact K3.
  - rewrite R11. apply SetFromMap_tags; [exact L4|by left|done|done].
Qed.

Lemma heard_fields (g : cryptoSetupClient CM) :
  lastSentCHLO (heard g) = HandshakeMessage_Write (hello_message g) ∧ leaf_bytes (heard g) = leaf_bytes (said g).
Proof using. split; reflexivity. Qed.

Lemma heard_ready : ready (heard h).
Proof using Hok.
  destruct (heard_fields h) as [H1 H2].
  split; [reflexivity|split; reflexivity|split; reflexivity|reflexivity|reflexivity|reflexivity|exact H1| |reflexivity].
  rewrite H2. apply leaf_there.
Qed.

Lemma gets_forward e :
  client_env_ok e →
  client_turn e (EvMessage the_third) (heard h) = (Ok tt, finished (heard h) sno fa (taken_over client_ps server_takes)).
Proof using Hok Hc Hn Hkeys. intros He. apply ready_finishes; [done|apply heard_ready]. Qed.

End Third.

(** *** The messages on the wire *)

Lemma versions_value_ok : value_ok (concat ((λ v, WriteUint32 LittleEndian (VersionNumberToTag v)) <$> supported)).
Proof using Hok.
  destruct (po_versions Hok) as [_ Hl]. split.
  - apply Forall_concat, Forall_fmap, Forall_true. intros v. unfold compose. rewrite write_32. apply le_split_bytes.
  - assert (length (concat ((λ v, WriteUint32 LittleEndian (VersionNumberToTag v)) <$> supported)) = 4 * length supported)%nat as ->.
    { clear. induction supported as [|v l IH]; [done|]. cbn [fmap list_fmap concat]. rewrite length_app, IH, write_32.
      unfold enc, LittleEndian_laws. rewrite length_le_split. cbn. lia. }
    unfold CryptoParameterMaxLength. lia.
Qed.

Lemma messages_writable proof :
  value_ok proof → Forall message_writable [the_first; the_second proof; the_third proof].
Proof using Hok HP.
  intros Hp. destruct (po_token Hok) as (_ & T2 & _). destruct (po_nonces Hok) as (_ & N2 & _). destruct (po_crt Hok) as [_ C2].
  pose proof (config_value_ok _ scfg_ok) as Hs. pose proof versions_value_ok as Hv.
  assert (value_ok (PublicKey (srv_keyExchange env))) as Hk.
  { destruct (po_kex Hok) as [_ Hk]. destruct (curve_public _ _ _ _ _ HP Hk) as [L B]. split; [done|]. rewrite L. vm_compute. congruence. }
  assert (∀ t n m, is_u32 t → (n <= 128)%nat → writable n m → message_writable (mkMessage t m)) as Hw.
  { intros t n m Ht Hn Hm. split; [done|]. by eapply writable_weaken. }
  repeat apply Forall_cons_2; [..|apply Forall_nil_2].
  - apply (Hw _ 3%nat); [concrete_u32|lia|]. unfold rejection. cbn [srv_scfg server0 NewCryptoSetup]. writable_tac.
  - apply (Hw _ 5%nat); [concrete_u32|lia|]. unfold rejection_certs, rejection. cbn [srv_scfg server0 NewCryptoSetup]. writable_tac.
  - apply (Hw _ 8%nat); [concrete_u32|lia|]. unfold server_hello. cbn [srv_supportedVersions server2 server1 answered set_negotiated server0 NewCryptoSetup].
    writable_tac. apply GetHelloMap_writable.
Qed.

(** *** What the server has answered so far *)

Definition answers (stream : list Z) : list Z := srv_written (server_HandleCryptoStream env stream server0).2.

Lemma answers_first : answers (HandshakeMessage_Write (hello_message client0)) = HandshakeMessage_Write the_first.
Proof using Hok.
  unfold answers. rewrite <- (app_nil_r (HandshakeMessage_Write (hello_message client0))).
  by rewrite (stream_hello env client0 [] server0 false _ first_fits rejects_first), stream_end.
Qed.

Lemma answers_second c nonc proof rest :
  own_config c → own_nonce nonc →
  handleMessage env (HandshakeMessage_Write (hello_message (second c nonc))) (hello (second c nonc)) server1
  = (Ok false, server2 proof) →
  server_HandleCryptoStream env ((HandshakeMessage_Write (hello_message client0)
    ++ HandshakeMessage_Write (hello_message (second c nonc))) ++ rest) server0
  = server_HandleCryptoStream env rest (server2 proof).
Proof using Hok HP.
  intros Hc Hn Hm. rewrite <- app_assoc, (stream_hello env client0 _ server0 false _ first_fits rejects_first).
  exact (stream_hello env (second c nonc) rest server1 false _ (second_fits c nonc Hc Hn) Hm).
Qed.

Lemma reads_first : reads [the_first] (answers (cl_written (said client0))).
Proof using Hok HP.
  apply reads_written; [apply (Forall_take _ 1%nat _ (messages_writable [] value_ok_nil))|].
  cbn [fmap list_fmap concat]. rewrite app_nil_r. exact answers_first.
Qed.

Lemma reads_second c nonc proof :
  own_config c → own_nonce nonc → value_ok proof →
  handleMessage env (HandshakeMessage_Write (hello_message (second c nonc))) (hello (second c nonc)) server1
  = (Ok false, server2 proof) →
  reads [the_first; the_second proof] (answers (cl_written (said (second c nonc)))).
Proof using Hok HP.
  intros Hc Hn Hp Hm. apply reads_written; [apply (Forall_take _ 2%nat _ (messages_writable proof Hp))|].
  unfold answers. pose proof (answers_second c nonc proof [] Hc Hn Hm) as E. rewrite stream_end, app_nil_r in E.
  cbn [fmap list_fmap concat]. rewrite app_nil_r.
  change (cl_written (said (second c nonc))) with (HandshakeMessage_Write (hello_message client0)
      ++ HandshakeMessage_Write (hello_message (second c nonc))). by rewrite E.
Qed.

(** The server is done with the third hello. *)
Lemma reads_third c nonc c' proof b fb :
  own_config c → own_config c' → own_nonce nonc → value_ok proof →
  handleMessage env (HandshakeMessage_Write (hello_message (second c nonc))) (hello (second c nonc)) server1
  = (Ok false, server2 proof) →
  handleMessage env (HandshakeMessage_Write (hello_message (third c nonc c' proof))) (hello (third c nonc c' proof)) (server2 proof)
  = (Ok true, accepted env (server2 proof) div b fb server_takes sno) →
  server_HandleCryptoStream env (cl_written (said (third c nonc c' proof))) server0
  = (Ok tt, accepted env (server2 proof) div b fb server_takes sno) ∧
  reads [the_first; the_second proof; the_third proof] (answers (cl_written (said (third c nonc c' proof)))).
Proof using Hok HP.
  intros Hc Hc' Hn Hp R2 R3. set (stream := cl_written _).
  assert (server_HandleCryptoStream env stream server0 = (Ok tt, accepted env (server2 proof) div b fb server_takes sno)) as Hs.
  { change stream with ((HandshakeMessage_Write (hello_message client0)
      ++ HandshakeMessage_Write (hello_message (second c nonc))) ++ HandshakeMessage_Write (hello_message (third c nonc c' proof))).
    rewrite (answers_second c nonc proof _ Hc Hn R2), <- (app_nil_r (HandshakeMessage_Write (hello_message (third c nonc c' proof)))).
    exact (stream_hello env _ [] _ true _ (third_fits c nonc c' proof Hc' Hn) R3). }
  split; [done|]. apply reads_written; [by apply messages_writable|]. unfold answers. rewrite Hs.
  cbn [fmap list_fmap concat]. by rewrite app_nil_r, app_assoc.
Qed.

(** C3: an honest client and an honest server that talk to each other finish the handshake, in the three
    hellos that the client may send, and have the same keys.  Whatever the clock and the random numbers give
    the client at each step: after its first hello the server has answered a rejection, with which the client says its
    second, which is answered by a rejection with certificates and a proof, with which it says its third, and
    the server is done.  The nonce in the server's packets gives the client its first keys, and each side
    opens what the other seals with them.  Any packet of the server that it opens with them lets it
    take the server's hello, which gives both sides forward-secure keys that match, and each side the windows and limits the
    other announced. *)
Theorem handshake_completes (e1 e2 e3 e4 e5 : client_env) :
  Forall client_env_ok [e1; e2; e3; e4; e5] →
  ∃ m1 m2 m3 h1 h2 h3 h4 s a b,
    client_start e1 client0 = (Ok tt, h1) ∧ reads [m1] (answers (cl_written h1)) ∧
    client_turn e2 (EvMessage m1) h1 = (Ok tt, h2) ∧ reads [m1; m2] (answers (cl_written h2)) ∧
    client_turn e3 (EvMessage m2) h2 = (Ok tt, h3) ∧ reads [m1; m2; m3] (answers (cl_written h3)) ∧
    server_HandleCryptoStream env (cl_written h3) server0 = (Ok tt, s) ∧ srv_diversificationNonce s = div ∧
    client_turn e4 (EvDivNonce div) h3 = (Ok tt, h4) ∧
    cl_secureAEAD h4 = Some a ∧ srv_secureAEAD s = Some b ∧ AEADPair a b ∧ AEADPair b a ∧
    ∀ payload pn ad, bytes_ok payload →
      ∃ h5 h6 fa fb,
        client_Open (AEAD_Seal b payload pn ad) pn ad h4 = (Ok (payload, EncryptionSecure), h5) ∧
        client_turn e5 (EvMessage m3) h5 = (Ok tt, h6) ∧
        cl_forwardSecureAEAD h6 = Some fa ∧ srv_forwardSecureAEAD s = Some fb ∧ AEADPair fa fb ∧ AEADPair fb fa ∧
        srv_parameters s = taken_over (if truncation then set_truncate server_ps true else server_ps) client_ps ∧
        cl_parameters h6 = taken_over client_ps (srv_parameters s).
Proof using Hok HP.
  rewrite !Forall_cons. intros (E1 & E2 & E3 & E4 & E5 & _).
  destruct (learns_config e2 E2) as (c & nonc & Hc & Hn & T2). destruct (rejects_second c nonc) as (proof & P1 & P2 & P3 & R2).
  destruct (learns_certs e3 c nonc proof E3 Hn P1 P3) as (c' & Hc' & T3).
  destruct (keys_exist c' nonc (HandshakeMessage_Write (hello_message (third c nonc c' proof))) Hc') as (a & b & fa & fb & Hk).
  pose proof (accepts_third c c' nonc proof a b fa fb Hc' Hn Hk) as R3.
  destruct (reads_third c nonc c' proof b fb Hc Hc' Hn P2 R2 R3) as [Hs W3].
  pose proof (kf_pairs _ _ _ _ _ _ _ Hk) as (K1 & K2 & K3 & K4).
  exists the_first, (the_second proof), (the_third proof), (said client0), (said (second c nonc)), (said (third c nonc c' proof)),
    (secured (said (third c nonc c' proof)) div a), (accepted env (server2 proof) div b fb server_takes sno), a, b.
  split_and!; [by apply starts|apply reads_first|done|by apply reads_second|done|done|done|done|by eapply gets_secure|done..|].
  intros payload pn ad Hp. do 4 eexists.
  split_and!; [by apply opens_secure; [..|by apply (pair_opens (AEADPair := K2))]|by eapply gets_forward|done..].
Qed.

End Exchange.

(** ** An exchange with toy primitives *)

Definition sample_base (a : list Z) : list Z := u8 <$> pad32 a.

Lemma pad32_length a : length (pad32 a) = 32%nat.
Proof. unfold pad32. rewrite length_take, length_app, length_replicate. lia. Qed.

Lemma zip_with_comm_map {A} (f : A → A → A) (g : A → A) (l l' : list A) :
  (∀ x y, f x (g y) = f y (g x)) → zip_with f l (g <$> l') = zip_with f l' (g <$> l).
Proof. intros Hf. revert l'. induction l as [|x l IH]; intros [|y l']; cbn; [done..|]. by rewrite Hf, IH. Qed.

Lemma sample_commute a b : sample_mult a (sample_base b) = sample_mult b (sample_base a).
Proof.
  assert (∀ a, pad32 (sample_base a) = u8 <$> pad32 a) as Hp.
  { intros c. unfold pad32 at 1. rewrite take_app_length'; [done|]. unfold sample_base. by rewrite length_fmap, pad32_length. }
  unfold sample_mult. rewrite !Hp. apply zip_with_comm_map. intros x y. unfold u8. rewrite !Zmult_mod_idemp_r. by rewrite Z.mul_comm.
Qed.

Lemma sample_primitives : primitives_ok sample_gcm sample_hkdf sample_mult sample_base.
Proof.
  split.
  - apply sample_gcm_ok.
  - intros k _. by eexists.
  - intros secret salt info n. eexists. split; [done|]. by rewrite length_fmap, length_seq.
  - apply sample_commute.
  - intros a. unfold sample_base. split; [by rewrite length_fmap, pad32_length|].
    apply Forall_fmap, Forall_true. intros x. apply u8_range.
  - intros a p. unfold sample_mult. rewrite length_zip_with, !pad32_length. done.
Qed.

Definition sample_key (r : list Z) : KeyExchange :=
  match NewCurve25519KEX sample_mult sample_base (Some r) with Ok k => k | _ => mkKEX [] (λ _, Err EOF) end.

Definition honest_config : ServerConfig :=
  mkServerConfig (sample_key [2; 3]) (mkCertChain (λ _ _ _, Ok [1]) (λ _ _ _, Ok [7; 7; 7]) (λ _, Ok [7; 7; 7]))
    (replicate 16 3) (replicate 8 4).

Definition honest_server : server_env unit :=
  mkServerEnv unit (Ok [5]) (λ l, Ok (if nonempty l then Some tt else None)) (λ o, match o with Some _ => true | None => false end)
    (DeriveQuicCryptoAESKeys sample_gcm sample_hkdf) (sample_key [4]) (Some (replicate 32 8)) (Some (replicate 32 6)) (λ _, None).

Definition honest_client : client_env :=
  mkClientEnv 0 (Ok (sample_key [9; 9])) (Some (replicate 20 9)) (DeriveQuicCryptoAESKeys sample_gcm sample_hkdf) (λ _, None).

#[local] Instance honest_certs : CertManager (option (list Z)) := sample_certs (ServerConfig_Get honest_config).

Definition server_parameters : connectionParametersManager :=
  NewConnectionParamatersManager PerspectiveServer 39 65536 65536 (20 * Second).

Definition honest_null (p : Perspective) : AEAD := NewNullAEAD sample_fnv128a p 39.

Lemma honest_parties :
  parties_ok sample_gcm sample_hkdf sample_mult sample_base (string_bytes "host") 39 None (Some [7; 7; 7]) sample_parameters server_parameters
    [] [39; 38] honest_config honest_server [5] (replicate 32 8) (replicate 32 6) [7; 7; 7] [7; 7; 7].
Proof.
  assert (∀ n b, (n <= 4000)%nat → is_u8 b → bytes_ok (replicate n b)) as Hr by (intros; by apply Forall_replicate).
  assert (value_ok [7; 7; 7]) as H7 by (split; [bytes_tac|vm_compute; congruence]).
  assert (value_ok [1]) as H1 by (split; [bytes_tac|vm_compute; congruence]).
  assert (∀ ps p, ps = sample_parameters ∧ p = PerspectiveClient ∨ ps = server_parameters ∧ p = PerspectiveServer → perspective_ok ps p) as Hps.
  { intros ps p [[-> ->]|[-> ->]]; (split; [|done]); unfold parameters_ok, is_u32; split_and!; vm_compute; congruence. }
  split; cbn [honest_config scfg_ID scfg_obit scfg_kex scfg_certChain GetLeafCert GetCertsCompressed].
  - split; [done|fits_tac].
  - lia.
  - split; [done|cbn; lia].
  - auto 10.
  - split; [done|by apply Hr; [lia|]].
  - split; [done|by apply Hr; [lia|]].
  - split; by eexists.
  - done.
  - done.
  - split; apply value_ok_nil.
  - done.
  - done.
  - intros chlo. exists [1]. split_and!; [done..|]. cbn. by rewrite bool_decide_true.
  - split_and!; [done|split; [bytes_tac|vm_compute; congruence]|done|done].
  - split_and!; [done|apply value_ok_replicate; [lia|done]|done|done].
  - done.
  - done.
Qed.

Lemma honest_client_ok : client_env_ok sample_gcm sample_hkdf sample_mult sample_base honest_client.
Proof.
  split; [done|eexists; split; [done|by eexists]| |done|done].
  exists (replicate 20 9). split_and!; [done..|]. by apply Forall_replicate.
Qed.

Lemma handshake_completes_witness :
  ∃ (h : cryptoSetupClient (option (list Z))) s,
    server_HandleCryptoStream honest_server (cl_written h)
      (server0 42 39 (honest_null PerspectiveServer) server_parameters [39; 38] honest_config) = (Ok tt, s) ∧
    is_Some (srv_secureAEAD s).
Proof.
  destruct (handshake_completes sample_gcm sample_hkdf sample_mult sample_base sample_primitives (string_bytes "host") 42 39 None
    (Some [7; 7; 7]) (honest_null PerspectiveClient) (honest_null PerspectiveServer) sample_parameters server_parameters true []
    [39; 38] honest_config honest_server [5] (replicate 32 8) (replicate 32 6) [7; 7; 7] [7; 7; 7] honest_parties
    honest_client honest_client honest_client honest_client honest_client) as (m1 & m2 & m3 & h1 & h2 & h3 & h4 & s & a & b & Hh).
  - repeat constructor; apply honest_client_ok.
  - destruct Hh as (_ & _ & _ & _ & _ & _ & Hs & _ & _ & _ & Hb & _). exists h3, s. split; [exact Hs|]. rewrite Hb. by eexists.
Defined.
