(* ===== verification/CertSelection.v ===== *)
(** * The certificate of a server

    internal/crypto/cert_chain.go: which certificate of a tls.Config a server uses for the name a client asks
    for, and the interface CertChain of the handshake.  With the client's certificate manager of cert_manager.go,
    what the handshake needs of certificates (Agreement) is shown of the code itself.

    The callbacks of a tls.Config and its map from names to certificates are data; strings are their bytes,
    and [ToLower] is that of names in ASCII. *)

From S2P Require Import Prelude ByteOrder Protocol Frames StreamFrame PublicHeader Handshake.
From S2P Require Import FlowControl Stream StreamScheduler StreamsMap Congestion ConnectionParameters Packer Crypto CertCompression.
From S2P Require Import SendLoop CryptoServer CryptoClient Agreement.

#[local] Set Warnings "-register-all".

(** ** tls.Config *)

(** A chain with its private key, which may not be one that signs. *)
Record tls_Certificate : Type := mkTLSCert {
  tc_Certificate : list (list Z);
  tc_PrivateKey : option (list Z → result (list Z));
}.

(** The callbacks may return nil without an error. *)
Inductive tls_Config : Type := mkTLSConfig {
  GetConfigForClient : option (list Z → result (option tls_Config));
  GetCertificate : option (list Z → result (option tls_Certificate));
  Certificates : list tls_Certificate;
  NameToCertificate : option (gmap (list Z) tls_Certificate);
}.

Definition maybeGetConfigForClient (c : tls_Config) (sni : list Z) : result (option tls_Config) :=
  match GetConfigForClient c with None => Ok (Some c) | Some f => f sni end.

(** ** Names *)

Definition dot : Z := 46.
Definition star : list Z := [42].

Definition lower_byte (b : Z) : Z := if (65 <=? b) && (b <=? 90) then b + 32 else b.
Definition ToLower (s : list Z) : list Z := lower_byte <$> s.

(** The loop that drops dots at the end. *)
Fixpoint trim_dots_rev (s : list Z) : list Z :=
  match s with
  | [] => []
  | b :: s' => if b =? dot then trim_dots_rev s' else s
  end.
Definition trim_dots (s : list Z) : list Z := reverse (trim_dots_rev (reverse s)).

Definition normal_name (sni : list Z) : list Z := trim_dots (ToLower sni).

(** [strings.Split(name, ".")] and [strings.Join(labels, ".")] *)
Fixpoint split_labels (s : list Z) : list (list Z) :=
  match s with
  | [] => [[]]
  | b :: s =>
      if b =? dot then [] :: split_labels s
      else match split_labels s with l :: ls => (b :: l) :: ls | [] => [[b]] end
  end.

Fixpoint join_labels (ls : list (list Z)) : list Z :=
  match ls with
  | [] => []
  | [l] => l
  | l :: ls => l ++ dot :: join_labels ls
  end.

(** ** Choosing a certificate *)

Definition errNoMatchingCertificate : error := ErrorString "no matching certificate found".

(** The labels before the [i]-th are wildcards already. *)
Fixpoint wildcard_loop (names : gmap (list Z) tls_Certificate) (i : nat) (n : nat) (labels : list (list Z))
  : option tls_Certificate :=
  match n with
  | O => None
  | S n =>
      let labels := <[i := star]> labels in
      match names !! join_labels labels with
      | Some cert => Some cert
      | None => wildcard_loop names (S i) n labels
      end
  end.

Definition first_certificate (c : tls_Config) : result tls_Certificate :=
  match Certificates c with cert :: _ => Ok cert | [] => Panic "index out of range" end.

Definition getCertForSNI (c : tls_Config) (sni : list Z) : result tls_Certificate :=
  c ← maybeGetConfigForClient c sni;
  match c with
  | None => Panic "nil pointer dereference"
  | Some c =>
      from_callback ← match GetCertificate c with Some f => f sni | None => Ok None end;
      match from_callback with
      | Some cert => Ok cert
      | None =>
          match Certificates c, NameToCertificate c with
          | [], _ => Err errNoMatchingCertificate
          | [cert], _ => Ok cert
          | _, None => first_certificate c
          | _, Some names =>
              let name := normal_name sni in
              match names !! name with
              | Some cert => Ok cert
              | None =>
                  let labels := split_labels name in
                  match wildcard_loop names 0 (length labels) labels with
                  | Some cert => Ok cert
                  | None => first_certificate c
                  end
              end
          end
      end
  end.

(** ** The interface of the handshake *)

Section Chain.
Context (sha256 : list Z → list Z) {C : Type} (lru : lruCache C) (certSets : gmap Z (list (list Z))).
Context (zlib_Compress : list Z → list (list Z) → list Z) (cache : C).

Definition certChain_SignServerProof (c : tls_Config) (sni chlo serverConfigData : list Z) : result (list Z) :=
  cert ← getCertForSNI c sni;
  signServerProof sha256 (tc_PrivateKey cert) chlo serverConfigData.

(** [cache] is what the cache of all connections holds. *)
Definition certChain_GetCertsCompressed (c : tls_Config) (sni pCommonSetHashes pCachedHashes : list Z) : result (list Z) :=
  cert ← getCertForSNI c sni;
  (getCompressedCert lru certSets zlib_Compress (tc_Certificate cert) pCommonSetHashes pCachedHashes cache).1.

Definition certChain_GetLeafCert (c : tls_Config) (sni : list Z) : result (list Z) :=
  cert ← getCertForSNI c sni;
  match tc_Certificate cert with leaf :: _ => Ok leaf | [] => Panic "index out of range" end.

Definition NewCertChain (c : tls_Config) : CertChain :=
  mkCertChain (certChain_SignServerProof c) (certChain_GetCertsCompressed c) (certChain_GetLeafCert c).

End Chain.

(** ** What is chosen *)

Lemma lower_byte_twice b : lower_byte (lower_byte b) = lower_byte b.
Proof. unfold lower_byte. repeat case_match; lia. Qed.

Lemma trim_dots_rev_dot s n : trim_dots_rev (replicate n dot ++ s) = trim_dots_rev s.
Proof. induction n as [|n IH]; [done|]. exact IH. Qed.

(** Case and dots at the end do not matter. *)
Lemma normal_name_ext sni n : normal_name (ToLower sni ++ replicate n dot) = normal_name sni.
Proof.
  unfold normal_name, trim_dots, ToLower. rewrite fmap_app, reverse_app, <- list_fmap_compose.
  assert (lower_byte <$> replicate n dot = replicate n dot) as -> by by rewrite fmap_replicate.
  rewrite reverse_replicate, trim_dots_rev_dot. do 3 f_equal. apply list_fmap_ext. intros i x _. apply lower_byte_twice.
Qed.

Lemma split_labels_ne s : split_labels s <> [].
Proof. destruct s as [|b s]; [done|]. cbn. destruct (b =? dot); [done|]. by destruct (split_labels s). Qed.

(** Splitting a name and joining its labels gives the name. *)
Lemma join_split s : join_labels (split_labels s) = s.
Proof.
  induction s as [|b s IH]; [done|]. cbn. pose proof (split_labels_ne s) as Hne. destruct (Z.eqb_spec b dot) as [->|Hb].
  - cbn. destruct (split_labels s) as [|l ls] eqn:E; [done|]. by rewrite IH.
  - destruct (split_labels s) as [|l ls] eqn:E; [done|]. rewrite <- IH. by destruct ls.
Qed.

(** The names that are tried: the first label is a wildcard, then the first two, ... *)
Fixpoint candidates (i : nat) (labels : list (list Z)) : list (list Z) :=
  match labels with
  | [] => []
  | _ :: labels => join_labels (replicate (S i) star ++ labels) :: candidates (S i) labels
  end.

Lemma wildcard_loop_spec names labels : ∀ i,
  wildcard_loop names i (length labels) (replicate i star ++ labels) = head (omap (names !!.) (candidates i labels)).
Proof.
  induction labels as [|l labels IH]; intros i; [done|]. cbn [wildcard_loop length candidates].
  assert (<[i := star]> (replicate i star ++ l :: labels) = replicate (S i) star ++ labels) as ->.
  { rewrite insert_app_r_alt by (by rewrite length_replicate). rewrite length_replicate, Nat.sub_diag. cbn [insert list_insert].
    by rewrite cons_middle, app_assoc, <- replicate_S_end. }
  generalize (join_labels (replicate (S i) star ++ labels)) as name. intros name.
  cbn [omap list_omap]. destruct (names !! name); [done|]. apply IH.
Qed.

(** The certificate for a name: its own, else that of the first wildcard that fits, else the first one. *)
Lemma getCertForSNI_names sni cert certs names :
  certs <> [] →
  getCertForSNI (mkTLSConfig None None (cert :: certs) (Some names)) sni
  = Ok (default cert (head (omap (names !!.) (normal_name sni :: candidates 0 (split_labels (normal_name sni)))))).
Proof.
  intros Hne. destruct certs as [|cert2 certs]; [done|]. unfold getCertForSNI. cbn [maybeGetConfigForClient GetConfigForClient mbind result_bind GetCertificate Certificates NameToCertificate].
  cbn [omap list_omap]. destruct (names !! normal_name sni) as [c|] eqn:E; [done|].
  pose proof (wildcard_loop_spec names (split_labels (normal_name sni)) 0) as Hw. cbn [replicate app] in Hw. rewrite Hw.
  by destruct (head _).
Qed.

(** A name is found whatever its case and however many dots it ends with. *)
Lemma sni_normalised c sni n :
  GetConfigForClient c = None → GetCertificate c = None →
  getCertForSNI c (ToLower sni ++ replicate n dot) = getCertForSNI c sni.
Proof.
  intros H1 H2. unfold getCertForSNI, maybeGetConfigForClient. rewrite H1. cbn [mbind result_bind]. rewrite H2.
  cbn [mbind result_bind]. by rewrite normal_name_ext.
Qed.

(** The callback of the configuration may say that there is no special one for this client; crypto/tls takes the
    original configuration then, this code a nil pointer. *)
Lemma nil_config_panics c sni :
  GetConfigForClient c = Some (λ _, Ok None) → getCertForSNI c sni = Panic "nil pointer dereference".
Proof. intros H. unfold getCertForSNI, maybeGetConfigForClient. by rewrite H. Qed.

(** ** The client's side of it *)

Lemma parsed_certificates parse chain :
  (∀ data, data ∈ chain → ∃ pk, parse data = Ok (mkCertificate data pk)) →
  ∃ certs, parse_certificates parse chain = Ok certs ∧ Raw <$> certs = chain.
Proof.
  induction chain as [|d chain IH]; intros Hp; [by exists []|]. destruct (Hp d) as [pk E]; [by left|].
  destruct IH as (certs & E' & Hr); [intros; apply Hp; by right|].
  exists (mkCertificate d pk :: certs). cbn [parse_certificates]. rewrite E. cbn [mbind result_bind]. rewrite E'. cbn. by rewrite Hr.
Qed.

Section Reaches.
Context (sha256 : list Z → list Z) {C : Type} (lru : lruCache C) (certSets : gmap Z (list (list Z))) (cache : C).
Context (zlib_Compress : list Z → list (list Z) → list Z).
Context {R : Type} `{Reader R} (zlib_NewReaderDict : list Z → list Z → result R) (delivers : R → list Z → Prop).
Context (Hsets : ∀ h set, certSets !! h = Some set → is_u64 h ∧ Z.of_nat (length set) < 2^32).
Context (Hread : ∀ r d n, delivers r d → ∃ m err r', Read r n = (take m d, err, r') ∧ (m <= n)%nat ∧ (m <= length d)%nat ∧
  delivers r' (drop m d) ∧ (err = None ∨ err = Some EOF ∧ m = length d)).
Context (Hzlib : ∀ dict writes, Forall bytes_ok writes → bytes_ok (zlib_Compress dict writes) ∧
  ∃ r, zlib_NewReaderDict (zlib_Compress dict writes) dict = Ok r ∧ delivers r (concat writes)).

(** A client whose certificate manager uses these functions. *)
Context (env : cert_env) (asn1 : list Z → result (Z * Z * list Z)).
Context (Hdec : ce_decompress env = decompressChain certSets zlib_NewReaderDict).
Context (Hver : ce_verifyProof env = verifyServerProof sha256 asn1).

Notation chain_of := (NewCertChain sha256 lru certSets zlib_Compress cache).

(** What a server sends of the certificate it chooses for a name is what its client ends up with: the leaf, and the
    hash it names in its hellos; and the proofs that are signed with the key of the certificate verify. *)
Lemma chosen_certificate_reaches (config : tls_Config) (sni leaf : list Z) (rest : list (list Z)) sign check cm :
  getCertForSNI config sni = Ok (mkTLSCert (leaf :: rest) (Some sign)) →
  Forall bytes_ok (leaf :: rest) → foldr (λ c n, 4 + Z.of_nat (length c) + n) 0 (leaf :: rest) < 2^32 →
  Forall (λ c, c <> []) (leaf :: rest) →
  (length (ce_commonHashes env) mod 8 = 0)%nat →
  reads_in_full certSets zlib_Compress zlib_NewReaderDict (leaf :: rest) (ce_commonHashes env) →
  (lru_Get lru cache (cert_cache_key (leaf :: rest) (ce_commonHashes env) [])).1 = None →
  ce_ParseCertificate env leaf = Ok (mkCertificate leaf (RSA check)) →
  (∀ data, data ∈ rest → ∃ pk, ce_ParseCertificate env data = Ok (mkCertificate data pk)) →
  (∀ digest sig, sign digest = Ok sig → check digest sig = true) →
  GetLeafCert (chain_of config) sni = Ok leaf ∧
  ∃ crt cm',
    GetCertsCompressed (chain_of config) sni (GetCommonCertificateHashes (CertManager := certManager_interface env) cm) [] = Ok crt ∧
    SetData (CertManager := certManager_interface env) cm crt = Ok cm' ∧
    cm_GetLeafCert (CertManager := certManager_interface env) cm' = Some leaf ∧
    GetLeafCertHash (CertManager := certManager_interface env) cm' = HashCert leaf ∧
    ∀ chlo scfg proof, SignServerProof (chain_of config) sni chlo scfg = Ok proof →
      VerifyServerProof (CertManager := certManager_interface env) cm' proof chlo scfg = true.
Proof using Hsets Hread Hzlib Hdec Hver.
  intros Hc Hb Hlen Hne Hccs Hfull Hmiss Hleaf Hrest Hsign.
  destruct (compress_decompress certSets Hsets zlib_Compress zlib_NewReaderDict delivers Hread Hzlib _ _ Hb Hne Hlen Hccs Hfull) as (crt & Ecomp & Edec).
  destruct (parsed_certificates (ce_ParseCertificate env) rest Hrest) as (certs & Ecerts & _).
  assert (certChain_GetLeafCert config sni = Ok leaf) as Hl by (unfold certChain_GetLeafCert; by rewrite Hc).
  split; [exact Hl|]. exists crt, (mkCertManager (mkCertificate leaf (RSA check) :: certs)).
  cbn [NewCertChain GetCertsCompressed SignServerProof certManager_interface SetData GetCommonCertificateHashes cm_GetLeafCert GetLeafCertHash VerifyServerProof].
  split_and!; [| |done|done|].
  - unfold certChain_GetCertsCompressed. rewrite Hc. cbn [mbind result_bind tc_Certificate]. unfold getCompressedCert.
    destruct (lru_Get _ _ _) as [o c]. cbn in Hmiss. subst o. by rewrite Ecomp.
  - unfold certManager_SetData. rewrite Hdec, Edec. cbn [parse_certificates]. rewrite Hleaf. cbn [mbind result_bind]. by rewrite Ecerts.
  - intros chlo scfg proof. unfold certChain_SignServerProof. rewrite Hc. cbn [mbind result_bind tc_PrivateKey].
    unfold certManager_VerifyServerProof. cbn [cm_chain]. rewrite Hver. by apply proof_verifies.
Qed.

End Reaches.
