(* ===== verification/TLS.v ===== *)
(** * The handshake with TLS

    The crypto setup of the version that uses TLS 1.3: internal/handshake/crypto_setup_tls.go and mint_utils.go,
    with AES-GCM and the key derivation for it, internal/crypto/aesgcm_aead.go and key_derivation.go.

    The TLS handshake itself is the package mint, behind the interface MintController of the code, a record of
    operations here.  A channel for the changes of the keys is the list of what was sent and whether it is closed. *)

From S2P Require Import Prelude ByteOrder Protocol Frames StreamFrame PublicHeader Unpacker Handshake.
From S2P Require Import FlowControl Stream StreamScheduler StreamsMap Congestion SentPackets ConnectionParameters Packer Transmission.
From S2P Require Import Paths Session SendLoop Reliability Delivery Crypto CertCompression CryptoServer SessionKeys CertSelection.

(** ** AES-GCM *)

Definition ivLen : nat := 12.

(** The packet number in the last eight bytes, combined with the IV. *)
Definition aeadAESGCM_makeNonce (iv : list Z) (packetNumber : Z) : list Z :=
  zip_with Z.lxor (replicate (ivLen - 8) 0 ++ reverse (le_split 8 packetNumber)) iv.

Section AESGCM.
Context (newGCM : list Z → result cipherAEAD).

Definition NewAEADAESGCM (otherKey myKey otherIV myIV : list Z) : result AEAD :=
  if negb (length otherIV =? ivLen)%nat || negb (length myIV =? ivLen)%nat
  then Err (ErrorString "AES-GCM: expected 12 byte IVs")
  else
    encrypter ← newGCM myKey;
    decrypter ← newGCM otherKey;
    Ok (mkAEAD (λ src pn ad, cipher_Open decrypter (aeadAESGCM_makeNonce otherIV pn) src ad)
          (λ src pn ad, cipher_Seal encrypter (aeadAESGCM_makeNonce myIV pn) src ad) (cipher_Overhead encrypter)).

(** ** Keys *)

Definition clientExporterLabel : string := "EXPORTER-QUIC client 1-RTT Secret".
Definition serverExporterLabel : string := "EXPORTER-QUIC server 1-RTT Secret".

(** A hash is the number that the package crypto has for it. *)
Record CipherSuiteParams : Type := mkSuite {
  suite_Hash : Z;
  suite_KeyLen : nat;
  suite_IvLen : nat;
}.

(** An alert is its name and its number, in decimal; no alert is [None]. *)
Record MintController : Type := mkMint {
  mint_Handshake : option (string * string);
  mint_GetCipherSuite : CipherSuiteParams;
  mint_ComputeExporter : string → list Z → nat → result (list Z);
}.

Context (Hash_Size : Z → nat) (HkdfExpandLabel : Z → list Z → string → list Z → nat → list Z).

Definition computeKeyAndIV (mc : MintController) (label : string) : result (list Z * list Z) :=
  let cs := mint_GetCipherSuite mc in
  secret ← mint_ComputeExporter mc label [] (Hash_Size (suite_Hash cs));
  Ok (HkdfExpandLabel (suite_Hash cs) secret "key" [] (suite_KeyLen cs),
      HkdfExpandLabel (suite_Hash cs) secret "iv" [] (suite_IvLen cs)).

Definition DeriveAESKeys (mc : MintController) (pers : Perspective) : result AEAD :=
  let '(myLabel, otherLabel) :=
    match pers with
    | PerspectiveClient => (clientExporterLabel, serverExporterLabel)
    | PerspectiveServer => (serverExporterLabel, clientExporterLabel)
    end in
  '(myKey, myIV) ← computeKeyAndIV mc myLabel;
  '(otherKey, otherIV) ← computeKeyAndIV mc otherLabel;
  NewAEADAESGCM otherKey myKey otherIV myIV.

End AESGCM.

(** ** The configuration of mint *)

Inductive mint_suite : Type := TLS_AES_128_GCM_SHA256 | TLS_AES_256_GCM_SHA384.

Record mint_Certificate : Type := mkMintCert {
  mc_Chain : list Certificate;
  mc_PrivateKey : list Z → result (list Z);
}.

Record mint_Config : Type := mkMintConfig {
  mint_NonBlocking : bool;
  mint_CipherSuites : list mint_suite;
  mint_Certificates : list mint_Certificate;
  mint_ServerName : string;
}.

Section Config.
Context (ParseCertificate : list Z → result Certificate) (Init : bool → mint_Config → result mint_Config).

(** The loop over the chains; a key that does not sign is a failed type assertion. *)
Fixpoint mint_certificates (certs : list tls_Certificate) : result (list mint_Certificate) :=
  match certs with
  | [] => Ok []
  | c :: certs =>
      sign ← match tc_PrivateKey c with Some s => Ok s | None => Panic "interface conversion: not a crypto.Signer" end;
      chain ← parse_certificates ParseCertificate (tc_Certificate c);
      rest ← mint_certificates certs;
      Ok (mkMintCert chain sign :: rest)
  end.

Definition tlsToMintConfig (tlsConf : option tls_Config) (pers : Perspective) : result mint_Config :=
  certs ← match tlsConf with None => Ok [] | Some c => mint_certificates (Certificates c) end;
  Init (bool_decide (pers = PerspectiveClient))
    (mkMintConfig true [TLS_AES_128_GCM_SHA256; TLS_AES_256_GCM_SHA384] certs "").

End Config.

(** ** The setup *)

Definition TLS_KeyDerivationFunction : Type := MintController → Perspective → result AEAD.

Record cryptoSetupTLS : Type := mkTLS {
  tls_perspective : Perspective;
  tls_keyDerivation : TLS_KeyDerivationFunction;
  tls_conn : MintController;
  tls_nullAEAD : AEAD;
  tls_aead : option AEAD;
  tls_aeadChanged : list Z * bool;
}.

Definition set_tls_aead (h : cryptoSetupTLS) (a : AEAD) : cryptoSetupTLS :=
  mkTLS (tls_perspective h) (tls_keyDerivation h) (tls_conn h) (tls_nullAEAD h) (Some a) (tls_aeadChanged h).

Definition send_level (h : cryptoSetupTLS) (level : Z) : cryptoSetupTLS :=
  mkTLS (tls_perspective h) (tls_keyDerivation h) (tls_conn h) (tls_nullAEAD h) (tls_aead h)
    ((tls_aeadChanged h).1 ++ [level], (tls_aeadChanged h).2).

Definition close_levels (h : cryptoSetupTLS) : cryptoSetupTLS :=
  mkTLS (tls_perspective h) (tls_keyDerivation h) (tls_conn h) (tls_nullAEAD h) (tls_aead h)
    ((tls_aeadChanged h).1, true).

(** [mint_Server] and [mint_Client] are the connections that mint makes, on the crypto stream. *)
Definition NewCryptoSetupTLS (ParseCertificate : list Z → result Certificate) (Init : bool → mint_Config → result mint_Config)
    (mint_Server mint_Client : mint_Config → MintController) (fnv128a : list Z → Z * Z) (keyDerivation : TLS_KeyDerivationFunction)
    (hostname : string) (perspective : Perspective) (version : Z) (tlsConfig : option tls_Config) : result cryptoSetupTLS :=
  mintConf ← tlsToMintConfig ParseCertificate Init tlsConfig perspective;
  let mintConf := mkMintConfig (mint_NonBlocking mintConf) (mint_CipherSuites mintConf) (mint_Certificates mintConf) hostname in
  let conn := match perspective with PerspectiveServer => mint_Server mintConf | PerspectiveClient => mint_Client mintConf end in
  Ok (mkTLS perspective keyDerivation conn (NewNullAEAD fnv128a perspective version) None ([], false)).

Definition errTLSHandshake (alert : string * string) : error :=
  ErrorString ("TLS handshake error: " +:+ alert.1 +:+ " (Alert " +:+ alert.2 +:+ ")").

(** The error, if any, and the setup; sending on a closed channel panics. *)
Definition tls_HandleCryptoStream (h : cryptoSetupTLS) : result unit * cryptoSetupTLS :=
  match mint_Handshake (tls_conn h) with
  | Some alert => (Err (errTLSHandshake alert), h)
  | None =>
      match tls_keyDerivation h (tls_conn h) (tls_perspective h) with
      | Ok aead =>
          let h := set_tls_aead h aead in
          if (tls_aeadChanged h).2 then (Panic "send on closed channel", h)
          else (Ok tt, close_levels (send_level h EncryptionForwardSecure))
      | Err e => (Err e, h)
      | Panic w => (Panic w, h)
      end
  end.

Definition tls_Open (h : cryptoSetupTLS) (src : list Z) (packetNumber : Z) (associatedData : list Z) : result (list Z * Z) :=
  match tls_aead h with
  | Some aead => data ← AEAD_Open aead src packetNumber associatedData; Ok (data, EncryptionForwardSecure)
  | None => data ← AEAD_Open (tls_nullAEAD h) src packetNumber associatedData; Ok (data, EncryptionUnencrypted)
  end.

Definition tls_GetSealer (h : cryptoSetupTLS) : Z * Sealer :=
  match tls_aead h with
  | Some aead => (EncryptionForwardSecure, sealer_of aead)
  | None => (EncryptionUnencrypted, sealer_of (tls_nullAEAD h))
  end.

Definition EncryptionLevel_String (e : Z) : string :=
  if e =? EncryptionUnencrypted then "unencrypted"
  else if e =? EncryptionSecure then "encrypted (not forward-secure)"
  else if e =? EncryptionForwardSecure then "forward-secure"
  else "unknown".

Definition errNoSealer (encLevel : Z) : error :=
  ErrorString ("CryptoSetup: no sealer with encryption level " +:+ EncryptionLevel_String encLevel).

Definition tls_GetSealerWithEncryptionLevel (h : cryptoSetupTLS) (encLevel : Z) : result Sealer :=
  if encLevel =? EncryptionUnencrypted then Ok (sealer_of (tls_nullAEAD h))
  else if encLevel =? EncryptionForwardSecure then
    match tls_aead h with None => Err (errNoSealer encLevel) | Some aead => Ok (sealer_of aead) end
  else Err (errNoSealer encLevel).

Definition tls_GetSealerForCryptoStream (h : cryptoSetupTLS) : Z * Sealer :=
  (EncryptionUnencrypted, sealer_of (tls_nullAEAD h)).

Definition tls_DiversificationNonce (h : cryptoSetupTLS) : result (list Z) := Panic "diversification nonce not needed for TLS".
Definition tls_SetDiversificationNonce (h : cryptoSetupTLS) (nonce : list Z) : result cryptoSetupTLS :=
  Panic "diversification nonce not needed for TLS".

(** What the packer sees of the setup; it asks for a diversification nonce only at the level between, which
    this setup does not have. *)
Definition tls_setup (h : cryptoSetupTLS) : CryptoSetup :=
  mkCryptoSetup (tls_GetSealer h) (tls_GetSealerForCryptoStream h) (tls_GetSealerWithEncryptionLevel h) [].

(** ** Nonces *)

Lemma lxor_cancel a b c : Z.lxor a c = Z.lxor b c → a = b.
Proof. intros E. apply (f_equal (λ x, Z.lxor x c)) in E. by rewrite !Z.lxor_assoc, Z.lxor_nilpotent, !Z.lxor_0_r in E. Qed.

Lemma zip_lxor_cancel l k iv :
  length l = length iv → length k = length iv → zip_with Z.lxor l iv = zip_with Z.lxor k iv → l = k.
Proof.
  revert k iv. induction l as [|a l IH]; intros [|b k] [|c iv]; try done. cbn. intros [= Hl] [= Hk] [= E1 E2].
  f_equal; [by eapply lxor_cancel|by eapply IH].
Qed.

Lemma numbered_length n : length (replicate (ivLen - 8) 0 ++ reverse (le_split 8 n)) = ivLen.
Proof. by rewrite length_app, length_replicate, length_reverse, length_le_split. Qed.

(** A nonce has twelve bytes, and under one key no two packets have the same. *)
Lemma tls_nonce_inj iv n m :
  length iv = ivLen → is_u64 n → is_u64 m →
  length (aeadAESGCM_makeNonce iv n) = ivLen ∧
  (aeadAESGCM_makeNonce iv n = aeadAESGCM_makeNonce iv m → n = m).
Proof.
  intros Hiv Hn Hm. unfold aeadAESGCM_makeNonce. split; [rewrite length_zip_with, numbered_length, Hiv; apply Nat.min_id|].
  intros E%zip_lxor_cancel; [|by rewrite numbered_length..]. apply app_inv_head, (inj reverse) in E. apply (f_equal le_combine) in E.
  by rewrite !le_combine_split in E.
Qed.

(** ** Keys of both sides *)

Section Keys.
Context (newGCM : list Z → result cipherAEAD) (HnewGCM : ∀ k c, newGCM k = Ok c → cipher_ok c).
Context (Hash_Size : Z → nat) (HkdfExpandLabel : Z → list Z → string → list Z → nat → list Z).

Lemma aes_both k1 k2 iv1 iv2 :
  match NewAEADAESGCM newGCM k1 k2 iv1 iv2, NewAEADAESGCM newGCM k2 k1 iv2 iv1 with
  | Ok a, Ok b => AEADPair a b ∧ AEADPair b a
  | Ok _, _ | _, Ok _ => False
  | _, _ => True
  end.
Proof using HnewGCM.
  unfold NewAEADAESGCM. destruct (length iv1 =? ivLen)%nat, (length iv2 =? ivLen)%nat; try done. cbn [negb orb].
  destruct (newGCM k1) as [c1|e|e] eqn:E1, (newGCM k2) as [c2|e'|e'] eqn:E2; try done. cbn.
  apply HnewGCM in E1 as [], E2 as []. split; split; cbn; auto.
Qed.

(** What TLS promises of a finished handshake: both sides have the cipher suite and the secrets. *)
Definition mint_agree (mc ms : MintController) : Prop :=
  mint_GetCipherSuite mc = mint_GetCipherSuite ms ∧
  ∀ label context n, mint_ComputeExporter mc label context n = mint_ComputeExporter ms label context n.

Lemma same_key_and_iv mc ms label :
  mint_agree mc ms → computeKeyAndIV Hash_Size HkdfExpandLabel mc label = computeKeyAndIV Hash_Size HkdfExpandLabel ms label.
Proof using. intros [E1 E2]. unfold computeKeyAndIV. by rewrite E1, E2. Qed.

(** Either both sides get keys, and they match, or neither does. *)
Lemma derive_aes_pair mc ms :
  mint_agree mc ms →
  match DeriveAESKeys newGCM Hash_Size HkdfExpandLabel mc PerspectiveClient,
        DeriveAESKeys newGCM Hash_Size HkdfExpandLabel ms PerspectiveServer with
  | Ok a, Ok b => AEADPair a b ∧ AEADPair b a
  | Ok _, _ | _, Ok _ => False
  | _, _ => True
  end.
Proof using HnewGCM.
  intros Ha. unfold DeriveAESKeys. rewrite !(same_key_and_iv mc ms) by done.
  destruct (computeKeyAndIV _ _ ms clientExporterLabel) as [[k1 iv1]|e|e],
    (computeKeyAndIV _ _ ms serverExporterLabel) as [[k2 iv2]|e'|e']; try done. apply aes_both.
Qed.

End Keys.

(** ** The setup and the session *)

Record tls_seals (h : cryptoSetupTLS) : Prop := {
  ts_null : aead_seals (tls_nullAEAD h);
  ts_aead : optional_seals (tls_aead h);
}.

Definition tls_derivation_seals (kd : TLS_KeyDerivationFunction) : Prop := ∀ mc pers a, kd mc pers = Ok a → aead_seals a.

Lemma derived_aes_seal newGCM Hash_Size HkdfExpandLabel :
  (∀ k c, newGCM k = Ok c → cipher_ok c) → tls_derivation_seals (DeriveAESKeys newGCM Hash_Size HkdfExpandLabel).
Proof.
  intros Hgcm mc pers a. unfold DeriveAESKeys.
  assert (∀ k1 k2 iv1 iv2, NewAEADAESGCM newGCM k1 k2 iv1 iv2 = Ok a → aead_seals a) as Hs.
  { intros k1 k2 iv1 iv2 E. pose proof (aes_both newGCM Hgcm k1 k2 iv1 iv2) as Hp. rewrite E in Hp.
    destruct (NewAEADAESGCM newGCM k2 k1 iv2 iv1); [|done..]. destruct Hp as [Hp _]. by eapply pair_seals. }
  destruct (match pers with PerspectiveServer => _ | PerspectiveClient => _ end) as [mine other].
  destruct (computeKeyAndIV _ _ mc mine) as [[k iv]|e|e], (computeKeyAndIV _ _ mc other) as [[k' iv']|e'|e']; try done. apply Hs.
Qed.

Lemma tls_setup_seals h : tls_seals h → setup_seals (tls_setup h).
Proof.
  intros [H1 H2]. unfold setup_seals, tls_setup, tls_GetSealer, tls_GetSealerWithEncryptionLevel. cbn. split_and!; [|done|].
  - destruct (tls_aead h) eqn:E; [by apply H2|done].
  - intros l s. repeat case_match; intros [= <-]; first [done|by apply H2].
Qed.

(** The levels of a setup: it never asks for the level between, so the packer never asks it for a diversification
    nonce. *)
Lemma tls_levels h :
  (tls_GetSealer h).1 <> EncryptionSecure ∧ (tls_GetSealerForCryptoStream h).1 = EncryptionUnencrypted ∧
  is_ok (tls_GetSealerWithEncryptionLevel h EncryptionSecure) = false.
Proof. unfold tls_GetSealer. by destruct (tls_aead h). Qed.

(** A new setup, and how the handshake changes it. *)
Lemma new_tls_starts parse init server client fnv128a kd hostname pers version conf h :
  (∀ l, is_u64 (fnv128a l).2) →
  NewCryptoSetupTLS parse init server client fnv128a kd hostname pers version conf = Ok h →
  tls_seals h ∧ keys_start (tls_setup h) ∧ tls_aeadChanged h = ([], false).
Proof.
  intros Hf. unfold NewCryptoSetupTLS. destruct (tlsToMintConfig _ _ _ _) as [c|e|e]; [|done..]. intros [= <-].
  assert (aead_seals (NewNullAEAD fnv128a pers version)) by (by apply null_seals).
  split; [by split|]. split; [|done]. split; [by apply tls_setup_seals|by right].
Qed.

(** The handshake of a setup that has just been made: what it leaves behind is a step of the session, whether it fails or
    not; it announces forward-secure keys exactly when it has them, and once. *)
Lemma tls_handshake_step {C} `{SendAlgorithm C} (s : session C) (ps : connectionParametersManager) h h' r :
  tls_seals h → tls_derivation_seals (tls_keyDerivation h) → tls_aeadChanged h = ([], false) →
  tls_HandleCryptoStream h = (r, h') → pp_cryptoSetup (packer s) = tls_setup h →
  tls_seals h' ∧ session_step s (with_setup s (tls_setup h') ps) ∧
  (is_ok r = true → is_Some (tls_aead h') ∧ tls_aeadChanged h' = ([EncryptionForwardSecure], true)) ∧
  (is_ok r = false → h' = h).
Proof.
  intros Hs Hd Hch Hh Hsetup.
  assert (tls_seals h' ∧ (is_Some (tls_aead h') ∨ h' = h) ∧
    (is_ok r = true → is_Some (tls_aead h') ∧ tls_aeadChanged h' = ([EncryptionForwardSecure], true)) ∧ (is_ok r = false → h' = h))
    as (Hs' & Hor & Hok & Herr).
  { unfold tls_HandleCryptoStream in Hh. destruct (mint_Handshake (tls_conn h)); [simplify_eq; split_and!; [done|by right|done|done]|].
    destruct (tls_keyDerivation h _ _) as [a|e|e] eqn:Ek; [|simplify_eq; split_and!; [done|by right|done|done]..]. cbn in Hh. rewrite Hch in Hh. cbn in Hh.
    simplify_eq. split; [|split_and!; [left; by eexists|intros _; split; [by eexists|by cbn; rewrite Hch]|done]]. destruct Hs as [H1 H2]. split; [done|]. cbn. intros a' [= <-]. by eapply Hd. }
  split; [done|]. split; [|done]. apply step_keys. rewrite Hsetup. split; [by apply tls_setup_seals|]. cbn. unfold tls_GetSealer.
  destruct (tls_aead h') eqn:E; [by left|]. right. destruct Hor as [[? ?]| ->]; [done|]. by rewrite E.
Qed.

(** Once there are keys, every packet has to be sealed with them: those the other side sends before it has keys are
    lost. *)
Lemma tls_open_level h src pn ad data level :
  tls_Open h src pn ad = Ok (data, level) →
  level = match tls_aead h with Some _ => EncryptionForwardSecure | None => EncryptionUnencrypted end.
Proof.
  unfold tls_Open. destruct (tls_aead h) as [a|]; destruct (AEAD_Open _ _ _ _); cbn; congruence.
Qed.

(** A TLS client panics on a packet whose public header has a diversification nonce, before the packet is
    authenticated; the nonce is given to the setup first of all. *)
Definition give_nonce (perspective : Perspective) (h : cryptoSetupTLS) (hdr : PublicHeader) : result cryptoSetupTLS :=
  match perspective with
  | PerspectiveClient =>
      if (0 <? length (DiversificationNonce hdr))%nat then tls_SetDiversificationNonce h (DiversificationNonce hdr) else Ok h
  | PerspectiveServer => Ok h
  end.

Definition forged_packet : list Z := 12 :: le_split 8 77 ++ replicate 32 0 ++ [1].

Theorem forged_nonce_panics h :
  ∃ hdr, ParsePublicHeader PerspectiveServer VersionTLS forged_packet = Ok (hdr, []) ∧
    give_nonce PerspectiveClient h hdr = Panic "diversification nonce not needed for TLS".
Proof. eexists. split; [by vm_compute|done]. Qed.

(** ** Both sides *)

(** What [a] seals now, [b] opens now, with this protection. *)
Definition tls_talks (a b : cryptoSetupTLS) (level : Z) : Prop :=
  (tls_GetSealer a).1 = level ∧
  ∀ payload pn ad, bytes_ok payload → tls_Open b (Seal (tls_GetSealer a).2 payload pn ad) pn ad = Ok (payload, level).

Lemma pair_talks a b x y :
  AEADPair x y → tls_aead a = Some x → tls_aead b = Some y → tls_talks a b EncryptionForwardSecure.
Proof.
  intros Hp Ea Eb. unfold tls_talks, tls_GetSealer, tls_Open. rewrite Ea, Eb. split; [done|]. intros payload pn ad Hb. cbn [sealer_of Seal snd].
  by rewrite (pair_opens (AEADPair := Hp)).
Qed.

Lemma null_talks a b :
  tls_nullAEAD a = nullAEADFNV64a → tls_nullAEAD b = nullAEADFNV64a → tls_aead a = None → tls_aead b = None →
  tls_talks a b EncryptionUnencrypted.
Proof.
  intros Na Nb Ea Eb. unfold tls_talks, tls_GetSealer, tls_Open. rewrite Ea, Eb, Na, Nb. split; [done|]. intros payload pn ad Hb.
  cbn [sealer_of Seal snd]. by rewrite (pair_opens (AEADPair := null64_pair)).
Qed.

Section Both.
Context (newGCM : list Z → result cipherAEAD) (HnewGCM : ∀ k c, newGCM k = Ok c → cipher_ok c).
Context (Hash_Size : Z → nat) (HkdfExpandLabel : Z → list Z → string → list Z → nat → list Z) (fnv128a : list Z → Z * Z).
Context (ParseCertificate : list Z → result Certificate) (Init : bool → mint_Config → result mint_Config).
Context (mint_Server mint_Client : mint_Config → MintController).

Notation new := (NewCryptoSetupTLS ParseCertificate Init mint_Server mint_Client fnv128a
  (DeriveAESKeys newGCM Hash_Size HkdfExpandLabel)).

Lemma new_tls hostname pers conf h :
  new hostname pers VersionTLS conf = Ok h →
  tls_nullAEAD h = nullAEADFNV64a ∧ tls_aead h = None ∧ tls_aeadChanged h = ([], false) ∧ tls_perspective h = pers ∧
  tls_keyDerivation h = DeriveAESKeys newGCM Hash_Size HkdfExpandLabel.
Proof using.
  unfold NewCryptoSetupTLS. destruct (tlsToMintConfig _ _ _ _) as [c|e|e]; [|done..]. by intros [= <-].
Qed.

(** The handshake of a new setup depends on the alert and on the keys only. *)
Lemma tls_handshake_result h :
  tls_aeadChanged h = ([], false) → mint_Handshake (tls_conn h) = None →
  match tls_keyDerivation h (tls_conn h) (tls_perspective h) with
  | Ok a => ∃ h', tls_HandleCryptoStream h = (Ok tt, h') ∧ tls_aead h' = Some a ∧ tls_aeadChanged h' = ([EncryptionForwardSecure], true)
  | _ => is_ok (tls_HandleCryptoStream h).1 = false ∧ (tls_HandleCryptoStream h).2 = h
  end.
Proof using.
  intros Hch Hm. unfold tls_HandleCryptoStream. rewrite Hm. destruct (tls_keyDerivation h _ _) as [a|e|e]; [|done..].
  cbn [set_tls_aead tls_aeadChanged]. rewrite Hch. eexists. split; [done|]. cbn. by rewrite Hch.
Qed.

(** C38: two sides that use TLS understand each other.  Two new setups, of a client and of a server, open each other's
    unencrypted packets; when their TLS handshakes have ended without an alert and with the same cipher suite and exported
    secrets, then either both derive keys, announce them exactly once, and from then on each opens what the other seals, as
    forward-secure packets, or both report an error and have changed nothing. *)
Theorem tls_handshake_agrees (hostname : string) (client_conf server_conf : option tls_Config) (hc hs : cryptoSetupTLS) :
  new hostname PerspectiveClient VersionTLS client_conf = Ok hc →
  new "" PerspectiveServer VersionTLS server_conf = Ok hs →
  mint_agree (tls_conn hc) (tls_conn hs) →
  mint_Handshake (tls_conn hc) = None → mint_Handshake (tls_conn hs) = None →
  let '(rc, hc') := tls_HandleCryptoStream hc in
  let '(rs, hs') := tls_HandleCryptoStream hs in
  tls_talks hc hs EncryptionUnencrypted ∧ tls_talks hs hc EncryptionUnencrypted ∧
  (is_ok rc = true ∧ is_ok rs = true ∧
   tls_talks hc' hs' EncryptionForwardSecure ∧ tls_talks hs' hc' EncryptionForwardSecure ∧
   tls_aeadChanged hc' = ([EncryptionForwardSecure], true) ∧ tls_aeadChanged hs' = ([EncryptionForwardSecure], true)
   ∨ is_ok rc = false ∧ is_ok rs = false ∧ hc' = hc ∧ hs' = hs).
Proof using HnewGCM.
  intros (Nc & Ac & Cc & Pc & Kc)%new_tls (Ns & As & Cs & Ps & Ks)%new_tls Ha Mc Ms.
  pose proof (tls_handshake_result hc Cc Mc) as Rc. pose proof (tls_handshake_result hs Cs Ms) as Rs. rewrite Pc, Kc in Rc. rewrite Ps, Ks in Rs.
  pose proof (derive_aes_pair newGCM HnewGCM Hash_Size HkdfExpandLabel _ _ Ha) as Hp.
  destruct (tls_HandleCryptoStream hc) as [rc hc'], (tls_HandleCryptoStream hs) as [rs hs'].
  split; [by apply null_talks|]. split; [by apply null_talks|].
  destruct (DeriveAESKeys _ _ _ (tls_conn hc) _) as [a|e|e], (DeriveAESKeys _ _ _ (tls_conn hs) _) as [b|e'|e']; try done;
    [|by right; cbn in Rc, Rs; destruct Rc, Rs..].
  left. destruct Rc as (c & [= -> ->] & Ea & Hc), Rs as (s & [= -> ->] & Eb & Hs), Hp as [H1 H2].
  split_and!; [done|done|by apply (pair_talks _ _ a b)|by apply (pair_talks _ _ b a)|done|done].
Qed.

End Both.

(** *** Example *)

Definition sample_expand (hash : Z) (secret : list Z) (label : string) (context : list Z) (n : nat) : list Z :=
  (λ i, u8 (fnv64a (secret ++ string_bytes label ++ [Z.of_nat i]))) <$> seq 0 n.

Definition sample_conn (c : mint_Config) : MintController :=
  mkMint None (mkSuite 5 16 12) (λ label context n, Ok (take n (string_bytes label ++ replicate n 0))).

Definition sample_new (hostname : string) (pers : Perspective) : result cryptoSetupTLS :=
  NewCryptoSetupTLS (λ c, Ok (mkCertificate c (RSA (λ _ _, true)))) (λ _ c, Ok c) sample_conn sample_conn sample_fnv128a
    (DeriveAESKeys sample_gcm (λ _, 32%nat) sample_expand) hostname pers VersionTLS None.

Definition sample_tls (hostname : string) (pers : Perspective) : cryptoSetupTLS :=
  mkTLS pers (DeriveAESKeys sample_gcm (λ _, 32%nat) sample_expand) (sample_conn (mkMintConfig true [] [] hostname))
    nullAEADFNV64a None ([], false).

Lemma tls_handshake_agrees_witness :
  sample_new "host" PerspectiveClient = Ok (sample_tls "host" PerspectiveClient) ∧
  sample_new "" PerspectiveServer = Ok (sample_tls "" PerspectiveServer) ∧
  let '(rc, hc') := tls_HandleCryptoStream (sample_tls "host" PerspectiveClient) in
  let '(rs, hs') := tls_HandleCryptoStream (sample_tls "" PerspectiveServer) in
  tls_talks (sample_tls "host" PerspectiveClient) (sample_tls "" PerspectiveServer) EncryptionUnencrypted ∧
  tls_talks (sample_tls "" PerspectiveServer) (sample_tls "host" PerspectiveClient) EncryptionUnencrypted ∧
  (is_ok rc = true ∧ is_ok rs = true ∧
   tls_talks hc' hs' EncryptionForwardSecure ∧ tls_talks hs' hc' EncryptionForwardSecure ∧
   tls_aeadChanged hc' = ([EncryptionForwardSecure], true) ∧ tls_aeadChanged hs' = ([EncryptionForwardSecure], true)
   ∨ is_ok rc = false ∧ is_ok rs = false ∧ hc' = sample_tls "host" PerspectiveClient ∧ hs' = sample_tls "" PerspectiveServer).
Proof.
  split; [done|]. split; [done|].
  apply (tls_handshake_agrees sample_gcm sample_gcm_ok (λ _, 32%nat) sample_expand sample_fnv128a
    (λ c, Ok (mkCertificate c (RSA (λ _ _, true)))) (λ _ c, Ok c) sample_conn sample_conn "host" None None); done.
Defined.

(** Here both sides do get keys. *)
Example sample_tls_keys :
  is_ok (tls_HandleCryptoStream (sample_tls "host" PerspectiveClient)).1 = true ∧
  is_ok (tls_HandleCryptoStream (sample_tls "" PerspectiveServer)).1 = true.
Proof. split; by vm_compute. Qed.
